(* ===== verification/_CoqProject ===== *)
-Q . S2P
Prelude.v
Denom.v
Types.v
State.v
Chain.v
Accounts.v
Authority.v
BridgeActions.v
Ics20.v
Relay.v
Transact.v
Conservation.v
RelayLemmas.v
TransactTheorems.v
Demo.v
LedgerTheorems.v
ActionTheorems.v
AuthorityTheorems.v
IcsTheorems.v
Invariants.v
BridgeSafety.v
BTree.v
Mempool.v
MempoolLemmas.v
MempoolInvariant.v
MempoolMaintenance.v
MempoolTheorems.v
MerkleIndex.v
MerkleTree.v
MerkleCorrect.v
MerkleAudit.v
MerkleTheorems.v
Wire.v
WireActions.v
WireLaws.v
WireTransaction.v
WireTheorems.v
Collections.v
Block.v
SequencerBlock.v
BlockLemmas.v
BlockBuild.v
BlockTheorems.v
BlockDemo.v
ExecutionState.v
Upgrades.v
VoteExtension.v
VoteTheorems.v
Proposal.v
ProposalTheorems.v
BlockStore.v
App.v
AppLemmas.v
AppTheorems.v
AppAgreement.v
Genesis.v
GenesisChain.v
MempoolService.v
AppDemo.v
Composer.v
ConductorState.v
BlockCache.v
CelestiaBlobs.v
CommitQuorum.v
CelestiaTheorems.v
Executor.v
ExecutorLemmas.v
ExecutorTheorems.v
CelestiaReader.v
SequencerReader.v
ConductorSystem.v
RelayerConversion.v
RelayerClient.v
RelayerState.v
RelayerWrite.v
RelayerTheorems.v
RelayerSafety.v
ConductorDemo.v
RelayerDemo.v
