(* ===== verification/Prelude.v ===== *)
(** * The Astria sequencing stack in Rocq

    A model of the Rust programs of this repository that order, execute and
    relay rollup data, with theorems about them.  This is the root file; it documents
    the whole development and holds the prelude.  Paths are under [src/crates/].

    ** The system

    Rollup users hand data to the _composer_, which bundles it into signed
    transactions for the _sequencer_, a CometBFT application.  The sequencer admits
    transactions to its mempool, fills and checks blocks, executes them against a
    ledger of accounts, bridge accounts, IBC escrow, fees, validators and prices, and
    commits the rollup data of a block under two Merkle roots.  The _relayer_ reads
    the blocks, splits them into blobs by rollup, and posts them to Celestia.  The
    _conductor_ of a rollup reads blocks from the sequencer (soft) and from Celestia
    (firm), verifies the latter against the sequencer's commits, and drives the rollup
    node through the execution API.

    ** How the code is modelled

    The embedding is shallow: a Rust function is a Rocq function with its name, a
    struct a [Record], an enum an [Inductive] with the same constructors.
    - A panic ([unwrap], [expect], [assert!], arithmetic overflow, out of
      range indices) is the outcome [Panic] of [run]; an error is [Err] of
      [result]; computations that may do both are [attempt] ([Collections]).  Loops
      without a structural measure take fuel, and running out is [NoFuel].
    - A [w]-bit unsigned integer is a [Z]; [checked_add], [saturating_add],
      [wrapping_add] and their companions below carry the width.
    - Bytes are [String.string], in the Merkle tree [list Byte.byte].  A [HashMap] is a
      [gmap]; where the order of iteration can be observed, it is an association list
      in that order, and the theorems hold for every order.  A [BTreeMap] is an
      ascending list ([BTree]), an [IndexMap] an insertion list ([Collections]).
    - The sequencer's storage is the record [State] of the file of that name, one field per
      component, one map per family of keys of the component's [storage/keys.rs].
      Code that runs against it is in the monad [M]: state in, state and outcome
      out, and writes made before an error stay, as in a [StateDelta] until its owner
      drops it.  Handlers of the application run in [AppM], the executor of the
      conductor in a monad of its own, the relayer in [IO] over a world that can
      fail or stop at every operation.
    - Concurrency is a step relation whose steps are the atomic sections of the
      code (an arm of [select!], a request, a visit to a lock): [node_step] and
      [service_step] for the sequencer node, [composer_step],
      [conductor_step], [relayer_step].  Every
      interleaving that the guards allow is a run of the relation.  A removal from the
      mempool and its maintenance are one step each, although the code releases the
      queues before it updates the removal cache and the tracked hashes.
    - Reading the storage does not fail in the model; decoding what was read, and
      absent values, do as in the code.
    - Third-party code is a parameter, a class with the operations that the source
      calls, and laws where a theorem needs documented behaviour of it: SHA-256,
      ed25519, bech32m, hex, base64, prost, borsh, serde_json, brotli,
      tendermint, the Penumbra IBC library, the rollup node, the Celestia
      app, the file system.  The [Demo] files instantiate every such class with concrete
      functions, on which the witnesses run.

    ** Files

    _Prelude and shared data_: [Prelude] (outcomes, integers), [Denom]
    ([astria-core/src/primitive/v1/asset/denom.rs]), [Types] (addresses, fees, oracle
    and market data, actions and which of them may share a transaction), [Collections],
    [BTree].

    _Ledger_ ([astria-sequencer/src]): [State] (storage and [M]), [Chain] ([app],
    [address], [assets], [transaction], [upgrades] state), [Accounts] ([accounts],
    [bridge], [ibc] state and [fees]), [Authority] ([authority], [oracles] and the
    actions of the sudo account), [BridgeActions] and [Ics20] ([action_handler/impls],
    [ibc/ics20_transfer.rs]), [Relay] (relayed messages and
    [recover_ibc_client.rs]), [Transact] ([transaction/checks.rs], [fees/query.rs],
    [action_handler/impls/transaction.rs], begin and end of a block).
    Proofs: [Conservation] (a logic for what successful runs do to the
    state), [RelayLemmas] (the same for runs that fail, and what relayed messages leave
    alone), [TransactTheorems], [LedgerTheorems], [ActionTheorems],
    [AuthorityTheorems], [IcsTheorems], [Invariants], [BridgeSafety]; [Demo] is a
    concrete chain.  They show that transactions conserve funds, are never replayed,
    cannot take from a bridge account what its keys did not sign, leave the
    parameters to the sudo account, keep quantities in their width, and that refunds
    undo withdrawals and received packets cannot mint.

    _Mempool_: [Mempool] ([mempool/mod.rs], [mempool/transactions_container.rs]),
    [MempoolLemmas], [MempoolInvariant], [MempoolMaintenance],
    [MempoolTheorems]; [MempoolService] ([service/mempool/mod.rs], CheckTx).  They
    show the invariant of every reachable mempool, that insertion loses nothing and
    maintenance leaves ready what is pending, and that from genesis on only
    transactions that passed CheckTx are offered to a block.

    _Merkle tree_ ([astria-merkle]): [MerkleIndex], [MerkleTree],
    [MerkleCorrect], [MerkleAudit], [MerkleTheorems].  The flat tree computes the
    roots and audit paths of RFC 6962, which [mth] and [rfc_path] define; proofs
    verify, and verified proofs show membership.

    _Wire formats_ ([astria-core]): [Wire] (the trait [Protobuf] as a class with
    laws), [WireActions], [WireLaws], [WireTransaction], [WireTheorems].
    Round trips, ranges of whatever is decoded, authenticity.

    _Blocks_ ([astria-core/src/sequencerblock]): [Block], [SequencerBlock]
    (the Celestia data included) with the proofs in [BlockLemmas], [BlockBuild], [BlockTheorems] and
    the example [BlockDemo].  A proposed block is read, verified and split by everyone
    else; an accepted rollup's data is what the header commits to.

    _Application_ ([astria-sequencer/src/app], [service/consensus.rs]):
    [ExecutionState], [Upgrades], [VoteExtension], [Proposal], [BlockStore],
    [App], [Genesis], [GenesisChain], with proofs in [VoteTheorems],
    [ProposalTheorems], [AppLemmas], [AppTheorems], [AppAgreement] and the example
    [AppDemo].  [App] has one definition per ABCI request; [GenesisChain.node_step] is
    the node between requests, panics and restarts.  They show that proposers and
    validators agree, that skipped work and earlier rounds leave no trace, when prices
    divide the nodes, that the execution state refines a plain record of what
    happened, and that committed states are sound from genesis on.

    _Composer_ ([astria-composer/src/executor]): [Composer], the bundle
    factory and the executor with its shutdown.  Every
    submission is accounted for: none is lost while it runs.

    _Conductor_ ([astria-conductor/src]): [ConductorState] (execution API types and
    rollup state), [BlockCache], [CelestiaBlobs], [CommitQuorum], [Executor],
    [CelestiaReader], [SequencerReader], [ConductorSystem], with proofs in
    [CelestiaTheorems], [ExecutorLemmas], [ExecutorTheorems] and the example
    [ConductorDemo].  The executor refines an abstract chain that grows by one block
    at a time; its readers, composed with it through their channels, always offer
    the block that it expects.

    _Relayer_ ([astria-sequencer-relayer/src]): [RelayerConversion],
    [RelayerClient], [RelayerState], [RelayerWrite], with proofs in
    [RelayerTheorems], [RelayerSafety] and the example [RelayerDemo].  What the state
    file records as submitted is stored by Celestia, through crashes and restarts; what
    is relayed is read back by the conductor.

    ** Bounds and fuel

    The loops of the Merkle tree that climb to the root take a fuel of 64 or 66,
    more than the height of a tree whose indices fit a [usize]; the theorems of
    [MerkleCorrect] give the result for every such tree, so that the fuel is never
    used up.  The functions of RFC 6962 take the number of leaves as fuel.  The
    scheduling loop of the Celestia reader ends for every fuel above the ten heights
    that may be in flight ([scheduling_terminates]); the fetch loop of the sequencer
    reader is bounded by its capacity likewise.  The share count of a blob
    ([add_shares]) takes the number of continuation shares, the drain of the
    composer the number of its bundles and two, and the invariants prove both enough.
    Polling loops ([confirm_submission]) may run for ever: their fuel is an
    event of the environment, the end of the process, and theorems hold for every
    value of it.

    ** What is not modelled

    Generated protobuf and contract code, the derived borsh encodings of stored
    values, [Display] texts of errors that nothing inspects, logging, metrics,
    tracing spans, configuration, command lines, signals and wall-clock delays have no
    model.  The query services of the sequencer ([grpc], [accounts/query.rs],
    [service/info]) only read what is modelled.  Cryptography, storage versions below
    the latest snapshot, and the IBC client, connection and channel handshakes are
    libraries behind parameters; the IBC library writes its own entries of the store
    ([IbcState.library]) and records events, and reaches the rest through the handlers of
    [ibc/ics20_transfer.rs] alone.  The streams that fetch over the network
    (CometBFT, gRPC, geth subscriptions) are their answers, which may be anything.
    The collectors of the composer (subscriptions to rollup nodes and a gRPC service that
    fill the channel), the bridge withdrawer, the auctioneer, the command line tools and
    the contracts are left out.
    *)
From stdpp Require Import base list option numbers tactics.
From Stdlib Require Import ZArith Lia.

Open Scope Z_scope.

(** ** Outcomes of code that can panic or loop

    [Val a] is a normal return, [Panic] a Rust panic (a failed [unwrap],
    [expect] or [assert!]), [NoFuel] says that the fuel given to a loop ran
    out, which is neither: theorems about loops show it is never reached. *)
Inductive run (A : Type) : Type :=
| Val (a : A)
| Panic
| NoFuel.
Arguments Val {A} _.
Arguments Panic {A}.
Arguments NoFuel {A}.

#[export] Instance run_ret : MRet run := fun A a => Val a.
#[export] Instance run_bind : MBind run := fun A B f m =>
  match m with
  | Val a => f a
  | Panic => Panic
  | NoFuel => NoFuel
  end.
#[export] Instance run_eq_dec `{EqDecision A} : EqDecision (run A).
Proof. solve_decision. Defined.

(** [assert!(b)] *)
Definition assert_that (b : bool) : run unit := if b then Val tt else Panic.

(** [o.unwrap()] and [o.expect(..)] *)
Definition unwrap {A} (o : option A) : run A :=
  match o with Some a => Val a | None => Panic end.

(** ** Results: [Result<T, E>] *)
Inductive result (E A : Type) : Type :=
| Ok (a : A)
| Err (e : E).
Arguments Ok {E A} _.
Arguments Err {E A} _.

#[export] Instance result_ret E : MRet (result E) := fun A a => Ok a.
#[export] Instance result_bind E : MBind (result E) := fun A B f m =>
  match m with
  | Ok a => f a
  | Err e => Err e
  end.
#[export] Instance result_eq_dec `{EqDecision E, EqDecision A} : EqDecision (result E A).
Proof. solve_decision. Defined.

(** [ensure!(b, e)] *)
Definition ensure {E} (b : bool) (e : E) : result E unit :=
  if b then Ok tt else Err e.

(** [o.ok_or(e)] *)
Definition ok_or {E A} (e : E) (o : option A) : result E A :=
  match o with Some a => Ok a | None => Err e end.

Definition is_ok {E A} (r : result E A) : bool :=
  match r with Ok _ => true | Err _ => false end.

(** ** Machine-width unsigned integers

    A [w]-bit unsigned integer is a [Z] in [[0, 2^w)]. *)
Definition uint (w x : Z) : Prop := 0 <= x < 2 ^ w.
Definition umax (w : Z) : Z := 2 ^ w - 1.

Definition checked_add (w a b : Z) : option Z :=
  if a + b <? 2 ^ w then Some (a + b) else None.
Definition checked_sub (a b : Z) : option Z :=
  if b <=? a then Some (a - b) else None.
Definition checked_mul (w a b : Z) : option Z :=
  if a * b <? 2 ^ w then Some (a * b) else None.
Definition saturating_add (w a b : Z) : Z := Z.min (a + b) (umax w).
Definition saturating_sub (a b : Z) : Z := Z.max (a - b) 0.
Definition saturating_mul (w a b : Z) : Z := Z.min (a * b) (umax w).
Definition wrapping_add (w a b : Z) : Z := (a + b) mod 2 ^ w.

Ltac solve_checked :=
  intros; case_match; split; intros; destruct_and?; simplify_eq;
  repeat split; try (f_equal; lia); try lia; try (exfalso; lia).

Lemma checked_add_Some w a b c :
  checked_add w a b = Some c <-> c = a + b /\ a + b < 2 ^ w.
Proof. unfold checked_add. solve_checked. Qed.

Lemma checked_add_None w a b : checked_add w a b = None <-> 2 ^ w <= a + b.
Proof. unfold checked_add. solve_checked. Qed.

Lemma checked_sub_Some a b c : checked_sub a b = Some c <-> c = a - b /\ b <= a.
Proof. unfold checked_sub. solve_checked. Qed.

Lemma checked_sub_None a b : checked_sub a b = None <-> a < b.
Proof. unfold checked_sub. solve_checked. Qed.

Lemma checked_mul_Some w a b c :
  checked_mul w a b = Some c <-> c = a * b /\ a * b < 2 ^ w.
Proof. unfold checked_mul. solve_checked. Qed.

Create HintDb astria.

(** Induction on a list two elements at a time. *)
Lemma list_pair_ind {A} (P : list A -> Prop) :
  P [] -> (forall x, P [x]) -> (forall x y l, P l -> P (x :: y :: l)) -> forall l, P l.
Proof.
  intros H0 H1 H2 l. cut (P l /\ forall x, P (x :: l)); [tauto|].
  induction l as [|x l [IH1 IH2]]; split; auto.
Qed.
