(* ===== verification/Denom.v ===== *)
(** * Asset denominations

    [astria-core/src/primitive/v1/asset/denom.rs]: trace prefixed and ibc
    prefixed ICS20 denominations, their text format, their hash and their
    order.  Byte strings are [String.string]; SHA-256 and the hex decoder are
    third-party code and are parameters ([Sha256], [FromHex]). *)
From S2P Require Import Prelude.
From stdpp Require Import base list option strings countable.
From Stdlib Require Import ZArith Lia Ascii String.
Open Scope string_scope.
#[local] Arguments String.append !_ _ : simpl nomatch.

(** ** The external functions *)
Class Sha256 := sha256 : string -> string.
Class FromHex := from_hex32 : string -> option string.

(** ** Data *)
Record PortAndChannel := mk_segment { port : string; channel : string }.
Record TracePrefixed := mk_trace { trace : list PortAndChannel; base_denom : string }.
Record IbcPrefixed := mk_ibc { id : string }.
Inductive Denom :=
| Denom_TracePrefixed (t : TracePrefixed)
| Denom_IbcPrefixed (i : IbcPrefixed).

#[export] Instance PortAndChannel_eq_dec : EqDecision PortAndChannel.
Proof. solve_decision. Defined.
#[export] Instance TracePrefixed_eq_dec : EqDecision TracePrefixed.
Proof. solve_decision. Defined.
#[export] Instance IbcPrefixed_eq_dec : EqDecision IbcPrefixed.
Proof. solve_decision. Defined.
#[export] Instance Denom_eq_dec : EqDecision Denom.
Proof. solve_decision. Defined.
#[export] Instance IbcPrefixed_countable : Countable IbcPrefixed.
Proof. by apply (inj_countable' id mk_ibc); intros []. Defined.

Inductive ParseTracePrefixedErrorKind :=
| BaseIsEmpty | PortIsEmpty | ChannelIsEmpty | NotAscii | Whitespace | PortWithoutChannel.
Inductive ParseIbcPrefixedErrorKind :=
| Hex | NotIbcPrefixedPrefixed | TooFewSegments | TooManySegments.
Inductive ParseDenomErrorKind :=
| IbcPrefixedError (source : ParseIbcPrefixedErrorKind)
| PrefixedError (source : ParseTracePrefixedErrorKind).

(** ** Text: [str::split], [str::rsplit_once] and friends *)
Definition slash : ascii := "/"%char.

(** [s.split('/')]: at least one piece. *)
Fixpoint split_slash (s : string) : list string :=
  match s with
  | EmptyString => [""]
  | String c s' =>
      if Ascii.eqb c slash then "" :: split_slash s'
      else match split_slash s' with
           | p :: ps => String c p :: ps
           | [] => [String c ""]
           end
  end.

(** [s.rsplit_once('/')]. *)
Fixpoint rsplit_once (s : string) : option (string * string) :=
  match s with
  | EmptyString => None
  | String c s' =>
      match rsplit_once s' with
      | Some (a, b) => Some (String c a, b)
      | None => if Ascii.eqb c slash then Some ("", s') else None
      end
  end.

Fixpoint str_forallb (f : ascii -> bool) (s : string) : bool :=
  match s with
  | EmptyString => true
  | String c s' => f c && str_forallb f s'
  end.
Definition ascii_byte (c : ascii) : bool := (nat_of_ascii c <? 128)%nat.
Definition ascii_whitespace (c : ascii) : bool :=
  let n := nat_of_ascii c in
  (n =? 32)%nat || (n =? 9)%nat || (n =? 10)%nat || (n =? 12)%nat || (n =? 13)%nat.
Definition is_ascii (s : string) : bool := str_forallb ascii_byte s.
Definition has_whitespace (s : string) : bool :=
  negb (str_forallb (fun c => negb (ascii_whitespace c)) s).
Definition is_empty (s : string) : bool := match s with "" => true | _ => false end.
#[global] Arguments is_empty : simpl never.

(** ** Parsing and printing *)
Fixpoint segments_of (pieces : list string)
    : result ParseTracePrefixedErrorKind (list PortAndChannel) :=
  match pieces with
  | [] => Ok []
  | [_] => Err PortWithoutChannel
  | p :: c :: rest =>
      if is_empty p then Err PortIsEmpty
      else if is_empty c then Err ChannelIsEmpty
      else segs ← segments_of rest; Ok (mk_segment p c :: segs)
  end.

Definition trace_segments_from_str (s : string)
    : result ParseTracePrefixedErrorKind (list PortAndChannel) :=
  ensure (is_ascii s) NotAscii;;
  ensure (negb (has_whitespace s)) Whitespace;;
  segments_of (split_slash s).

Definition trace_prefixed_from_str (s : string)
    : result ParseTracePrefixedErrorKind TracePrefixed :=
  ensure (is_ascii s) NotAscii;;
  ensure (negb (has_whitespace s)) Whitespace;;
  '(tr, base) ← match rsplit_once s with
                | Some (path, base) =>
                    tr ← trace_segments_from_str path; Ok (tr, base)
                | None => Ok ([], s)
                end;
  ensure (negb (is_empty base)) BaseIsEmpty;;
  Ok (mk_trace tr base).

Definition trace_prefixed_display (t : TracePrefixed) : string :=
  foldr (fun seg s => port seg ++ "/" ++ channel seg ++ "/" ++ s)
        (base_denom t) (trace t).

Definition hex_digit (n : nat) : ascii :=
  ascii_of_nat (if (n <? 10)%nat then 48 + n else 87 + n)%nat.
Fixpoint hex_encode (s : string) : string :=
  match s with
  | EmptyString => ""
  | String c s' =>
      let n := nat_of_ascii c in
      String (hex_digit (n / 16)%nat) (String (hex_digit (n mod 16)%nat) (hex_encode s'))
  end.

Definition ibc_prefixed_display (i : IbcPrefixed) : string := "ibc/" ++ hex_encode (id i).

Definition ibc_prefixed_from_str `{FromHex} (s : string)
    : result ParseIbcPrefixedErrorKind IbcPrefixed :=
  match split_slash s with
  | [] => Err NotIbcPrefixedPrefixed
  | first :: segments =>
      if negb (String.eqb first "ibc") then Err NotIbcPrefixedPrefixed
      else match segments with
           | [] => Err TooFewSegments
           | [hex] => i ← ok_or Hex (from_hex32 hex); Ok (mk_ibc i)
           | _ :: _ :: _ => Err TooManySegments
           end
  end.

Definition starts_with (pre s : string) : bool := String.prefix pre s.

Definition map_err {E E' A} (f : E -> E') (r : result E A) : result E' A :=
  match r with Ok a => Ok a | Err e => Err (f e) end.

Definition denom_from_str `{FromHex} (s : string) : result ParseDenomErrorKind Denom :=
  if starts_with "ibc/" s
  then i ← map_err IbcPrefixedError (ibc_prefixed_from_str s); Ok (Denom_IbcPrefixed i)
  else t ← map_err PrefixedError (trace_prefixed_from_str s); Ok (Denom_TracePrefixed t).

Definition denom_display (d : Denom) : string :=
  match d with
  | Denom_TracePrefixed t => trace_prefixed_display t
  | Denom_IbcPrefixed i => ibc_prefixed_display i
  end.

(** ** Lengths computed without formatting *)
Definition trace_display_len (t : TracePrefixed) : nat :=
  (foldl (fun len seg => len + (String.length (port seg) + String.length (channel seg) + 2))
         0 (trace t) + String.length (base_denom t))%nat.
Definition ibc_display_len (i : IbcPrefixed) : nat := 68.
Definition display_len (d : Denom) : nat :=
  match d with
  | Denom_TracePrefixed t => trace_display_len t
  | Denom_IbcPrefixed i => ibc_display_len i
  end.

(** ** Hashing into the ibc prefixed form *)
Definition trace_to_ibc_prefixed `{Sha256} (t : TracePrefixed) : IbcPrefixed :=
  let hasher :=
    foldl (fun h seg => h ++ port seg ++ "/" ++ channel seg ++ "/") "" (trace t) in
  mk_ibc (sha256 (hasher ++ base_denom t)).
Definition to_ibc_prefixed `{Sha256} (d : Denom) : IbcPrefixed :=
  match d with
  | Denom_TracePrefixed t => trace_to_ibc_prefixed t
  | Denom_IbcPrefixed i => i
  end.

(** ** Trace segments *)
Definition trace_is_empty (t : TracePrefixed) : bool :=
  match trace t with [] => true | _ => false end.
Definition leading_port (t : TracePrefixed) : option string := port <$> head (trace t).
Definition leading_channel (t : TracePrefixed) : option string := channel <$> head (trace t).
Definition has_leading_port (t : TracePrefixed) (p : string) : bool :=
  bool_decide (leading_port t = Some p).
Definition has_leading_channel (t : TracePrefixed) (c : string) : bool :=
  bool_decide (leading_channel t = Some c).
Definition pop_leading_port_and_channel (t : TracePrefixed)
    : TracePrefixed * option PortAndChannel :=
  match trace t with
  | [] => (t, None)
  | seg :: rest => (mk_trace rest (base_denom t), Some seg)
  end.
Definition push_trace_segment (t : TracePrefixed) (seg : PortAndChannel) : TracePrefixed :=
  mk_trace (trace t ++ [seg])%list (base_denom t).

(** ** Order *)
Definition then_with (c d : comparison) : comparison :=
  match c with Eq => d | _ => c end.
Definition segment_cmp (a b : PortAndChannel) : comparison :=
  then_with (String.compare (port a) (port b)) (String.compare (channel a) (channel b)).
Fixpoint find_unequal (l : list (PortAndChannel * PortAndChannel)) : option comparison :=
  match l with
  | [] => None
  | (a, b) :: l' =>
      match segment_cmp a b with Eq => find_unequal l' | c => Some c end
  end.
Definition trace_segments_cmp (a b : list PortAndChannel) : comparison :=
  match find_unequal (zip a b) with
  | Some c => c
  | None => Nat.compare (List.length a) (List.length b)
  end.
Definition trace_prefixed_cmp (a b : TracePrefixed) : run comparison :=
  match trace_is_empty a, trace_is_empty b with
  | true, true => Val (String.compare (base_denom a) (base_denom b))
  | true, false => p ← unwrap (leading_port b); Val (String.compare (base_denom a) p)
  | false, true => p ← unwrap (leading_port a); Val (String.compare p (base_denom b))
  | false, false =>
      Val (then_with (trace_segments_cmp (trace a) (trace b))
                     (String.compare (base_denom a) (base_denom b)))
  end.
Definition ibc_prefixed_cmp (a b : IbcPrefixed) : comparison := String.compare (id a) (id b).
Definition compare_trace_to_ibc (t : TracePrefixed) : comparison :=
  match leading_port t with
  | Some p => String.compare p "ibc/"
  | None => String.compare (base_denom t) "ibc/"
  end.
Definition denom_cmp (a b : Denom) : run comparison :=
  match a, b with
  | Denom_TracePrefixed l, Denom_TracePrefixed r => trace_prefixed_cmp l r
  | Denom_TracePrefixed t, Denom_IbcPrefixed _ => Val (compare_trace_to_ibc t)
  | Denom_IbcPrefixed l, Denom_IbcPrefixed r => Val (ibc_prefixed_cmp l r)
  | Denom_IbcPrefixed _, Denom_TracePrefixed t => Val (CompOpp (compare_trace_to_ibc t))
  end.

(** * Correctness *)

(** A text piece: non-empty ASCII without whitespace or slash. *)
Definition no_slash (s : string) : bool := str_forallb (fun c => negb (Ascii.eqb c slash)) s.
Definition clean (s : string) : bool :=
  is_ascii s && str_forallb (fun c => negb (ascii_whitespace c)) s.
Definition piece (s : string) : bool := negb (is_empty s) && clean s && no_slash s.
Definition wf_segment (seg : PortAndChannel) : bool := piece (port seg) && piece (channel seg).
Definition wf_trace (t : TracePrefixed) : bool :=
  forallb wf_segment (trace t) && piece (base_denom t).

(** Joining pieces with slashes, the inverse of [split_slash]. *)
Fixpoint join (l : list string) : string :=
  match l with
  | [] => ""
  | [x] => x
  | x :: l' => x ++ "/" ++ join l'
  end.
Definition pieces (segs : list PortAndChannel) : list string :=
  flat_map (fun seg => [port seg; channel seg]) segs.

Lemma str_app_assoc (a b c : string) : (a ++ b) ++ c = a ++ (b ++ c).
Proof. induction a as [|? ? IH]; cbn; [done|by f_equal]. Qed.
Lemma str_app_nil_r (a : string) : a ++ "" = a.
Proof. induction a as [|? ? IH]; cbn; [done|by f_equal]. Qed.
Lemma str_length_app (a b : string) :
  String.length (a ++ b) = (String.length a + String.length b)%nat.
Proof. induction a as [|? ? IH]; cbn; [done|by f_equal]. Qed.
Lemma str_forallb_app f (a b : string) : str_forallb f (a ++ b) = str_forallb f a && str_forallb f b.
Proof. induction a as [|c a IH]; simpl; [done|]. by rewrite IH, andb_assoc. Qed.

Create Rewrite HintDb str.
#[export] Hint Rewrite str_app_assoc str_app_nil_r str_forallb_app : str.

Lemma join_cons x l : l <> [] -> join (x :: l) = x ++ "/" ++ join l.
Proof. by destruct l. Qed.

Lemma join_snoc l b : l <> [] -> join (l ++ [b]) = join l ++ "/" ++ b.
Proof.
  induction l as [|x [|y l] IH]; [done| done |]; intros _.
  change ((x :: y :: l) ++ [b])%list with (x :: ((y :: l) ++ [b]))%list.
  rewrite join_cons by done. rewrite IH by done.
  rewrite (join_cons x (y :: l)) by done. by autorewrite with str.
Qed.

Lemma split_slash_ne s : split_slash s <> [].
Proof. destruct s as [|c s]; simpl; [done|]. by repeat case_match. Qed.

Lemma join_split s : join (split_slash s) = s.
Proof.
  induction s as [|c s IH]; simpl; [done|].
  pose proof (split_slash_ne s) as Hne.
  destruct (Ascii.eqb_spec c slash) as [->|].
  - rewrite join_cons by done. by rewrite IH.
  - destruct (split_slash s) as [|p [|q ps]]; simpl in *; congruence.
Qed.

Lemma split_no_slash s : no_slash s = true -> split_slash s = [s].
Proof.
  unfold no_slash. induction s as [|c s IH]; simpl; [done|].
  intros [Hc Hs]%andb_prop. apply negb_true_iff in Hc. by rewrite Hc, IH.
Qed.

Lemma split_app a s : no_slash a = true -> split_slash (a ++ "/" ++ s) = a :: split_slash s.
Proof.
  unfold no_slash. induction a as [|c a IH]; simpl; [done|].
  intros [Hc Hs]%andb_prop. apply negb_true_iff in Hc. rewrite Hc.
  simpl in IH. by rewrite IH.
Qed.

Lemma split_join l :
  l <> [] -> forallb no_slash l = true -> split_slash (join l) = l.
Proof.
  induction l as [|x [|y l] IH]; [done| |]; intros _ [Hx Hl]%andb_prop.
  - by apply split_no_slash.
  - rewrite join_cons, split_app by done. f_equal. by apply IH.
Qed.

Lemma split_pieces_no_slash s : forallb no_slash (split_slash s) = true.
Proof.
  induction s as [|c s IH]; simpl; [done|].
  destruct (Ascii.eqb c slash) eqn:Hc; simpl; [done|].
  destruct (split_slash s) as [|p ps]; simpl in *; unfold no_slash in *; simpl; rewrite Hc; done.
Qed.

Lemma rsplit_once_Some s a b :
  rsplit_once s = Some (a, b) <-> s = a ++ "/" ++ b /\ no_slash b = true.
Proof.
  unfold no_slash. revert a b. induction s as [|c s IH]; intros a b; simpl.
  { split; [done|]. by intros [Ha%eq_sym _]; destruct a. }
  destruct (rsplit_once s) as [[a' b']|] eqn:Hs.
  - destruct (proj1 (IH a' b') eq_refl) as [-> Hb'].
    split; [intros [= <- <-]; done|].
    intros [Heq Hb]. destruct a as [|c' a]; simpl in Heq.
    + injection Heq as -> Heq. subst b. by rewrite !str_forallb_app, andb_false_r in Hb.
    + injection Heq as -> Heq.
      assert (Some (a', b') = Some (a, b)) as [= -> ->] by (apply IH; done). done.
  - assert (str_forallb (fun c => negb (c =? slash)%char) s = true) as Hns.
    { clear -Hs. induction s as [|c s IH]; simpl in *; [done|].
      destruct (rsplit_once s) as [[]|]; [done|]. destruct (c =? slash)%char; [done|]. by apply IH. }
    destruct (Ascii.eqb_spec c slash) as [->|Hc].
    + split; [intros [= <- <-]; done|]. intros [Heq Hb].
      destruct a as [|c' a]; simpl in Heq; [by injection Heq as ->|].
      injection Heq as _ ->. by rewrite !str_forallb_app, andb_false_r in Hns.
    + split; [done|]. intros [Heq Hb].
      destruct a as [|c' a]; simpl in Heq; injection Heq; intros ? ?; subst; [done|].
      by rewrite !str_forallb_app, andb_false_r in Hns.
Qed.

Lemma rsplit_once_None s : rsplit_once s = None <-> no_slash s = true.
Proof.
  unfold no_slash. induction s as [|c s IH]; simpl; [done|].
  destruct (rsplit_once s) as [[]|].
  - split; [done|]. intros [_ Hs]%andb_prop. by apply IH in Hs.
  - rewrite (proj1 IH eq_refl), andb_true_r. by destruct (c =? slash)%char.
Qed.

(** *** Parsing trace prefixed denominations *)
Lemma segments_of_ok l segs :
  segments_of l = Ok segs <->
  l = pieces segs /\ forallb (fun p => negb (is_empty p)) l = true.
Proof.
  split.
  - revert segs. induction l as [|p|p c rest IH] using list_pair_ind; simpl; intros segs Hs.
    + by injection Hs as <-.
    + done.
    + destruct (is_empty p) eqn:Hp; [done|]. destruct (is_empty c) eqn:Hc; [done|].
      destruct (segments_of rest) as [segs'|]; [|done]. injection Hs as <-.
      destruct (IH segs' eq_refl) as [-> Hne]. simpl. by rewrite Hne.
  - intros [-> Hne]. induction segs as [|[p c] segs IH]; [done|]. simpl in *.
    apply andb_prop in Hne as [Hp [Hc Hne]%andb_prop].
    apply negb_true_iff in Hp, Hc. by rewrite Hp, Hc, (IH Hne).
Qed.

Lemma display_join t :
  trace_prefixed_display t = join (pieces (trace t) ++ [base_denom t]).
Proof.
  destruct t as [segs base]. unfold trace_prefixed_display. simpl.
  induction segs as [|[p c] segs IH]; [done|].
  simpl. rewrite IH. by destruct (pieces segs); simpl; autorewrite with str.
Qed.

(** What is hashed for an ibc prefixed denomination is the printed trace. *)
Lemma trace_hash_display `{Sha256} t :
  trace_to_ibc_prefixed t = mk_ibc (sha256 (trace_prefixed_display t)).
Proof.
  destruct t as [segs base]. unfold trace_to_ibc_prefixed, trace_prefixed_display. simpl.
  assert (forall h, foldl (fun h seg => h ++ port seg ++ "/" ++ channel seg ++ "/") h segs ++ base
    = h ++ foldr (fun seg s => port seg ++ "/" ++ channel seg ++ "/" ++ s) base segs) as Hgen;
    [|by rewrite Hgen].
  induction segs as [|[p c] segs IH]; intros h; [done|]; cbn [foldl foldr port channel].
  rewrite IH. by autorewrite with str.
Qed.

Lemma str_forallb_join f l :
  f slash = true -> str_forallb f (join l) = forallb (str_forallb f) l.
Proof.
  intros Hf. induction l as [|x [|y l] IH]; [done| |].
  - simpl. by rewrite andb_true_r.
  - rewrite join_cons by done. simpl forallb. rewrite str_forallb_app. f_equal.
    change (f slash && str_forallb f (join (y :: l)) = forallb (str_forallb f) (y :: l)).
    by rewrite Hf, IH.
Qed.

Lemma clean_join l : clean (join l) = forallb clean l.
Proof.
  unfold clean, is_ascii. rewrite !str_forallb_join by done.
  induction l as [|x l IH]; simpl; [done|]. rewrite <- IH.
  by destruct (str_forallb ascii_byte x), (str_forallb _ x), (forallb _ l), (forallb _ l).
Qed.

Lemma clean_app a b : clean (a ++ b) = clean a && clean b.
Proof.
  unfold clean, is_ascii. rewrite !str_forallb_app.
  by destruct (str_forallb _ a), (str_forallb _ a), (str_forallb _ b), (str_forallb _ b).
Qed.

Lemma clean_guard {E A} (s : string) (e1 e2 : E) (k : result E A) a :
  (ensure (is_ascii s) e1;; ensure (negb (has_whitespace s)) e2;; k) = Ok a <->
  clean s = true /\ k = Ok a.
Proof.
  unfold clean, has_whitespace. rewrite negb_involutive.
  destruct (is_ascii s); simpl; [|naive_solver].
  destruct (str_forallb _ s); simpl; naive_solver.
Qed.

Lemma trace_segments_from_str_ok s segs :
  trace_segments_from_str s = Ok segs <->
  segs <> [] /\ forallb wf_segment segs = true /\ s = join (pieces segs).
Proof.
  unfold trace_segments_from_str. rewrite clean_guard, segments_of_ok. split.
  - intros (Hc & Hs & Hne).
    rewrite <- (join_split s), Hs, clean_join in Hc.
    pose proof (split_pieces_no_slash s) as Hns. rewrite Hs in Hns, Hne.
    split_and!.
    + intros ->. by apply (split_slash_ne s).
    + clear Hs. induction segs as [|[p c] segs IH]; [done|]. simpl in *.
      rewrite !andb_true_iff in *. unfold wf_segment, piece. simpl.
      rewrite !andb_true_iff. naive_solver.
    + by rewrite <- Hs, join_split.
  - intros (Hne & Hwf & ->). rewrite clean_join.
    assert (forallb piece (pieces segs) = true) as Hp.
    { clear Hne. induction segs as [|[p c] segs IH]; [done|]. simpl in *.
      unfold wf_segment in Hwf. simpl in Hwf. rewrite !andb_true_iff in *. naive_solver. }
    assert (forall f, (forall x, piece x = true -> f x = true) ->
                      forallb f (pieces segs) = true) as Himp.
    { intros f Hf. rewrite forallb_forall in Hp |- *. naive_solver. }
    unfold piece in Himp. split_and!.
    + apply Himp. intros x. rewrite !andb_true_iff. naive_solver.
    + apply split_join; [by destruct segs|]. apply Himp. intros x.
      rewrite !andb_true_iff. naive_solver.
    + rewrite split_join; [|by destruct segs|]; apply Himp; intros x;
        rewrite !andb_true_iff; naive_solver.
Qed.

Lemma piece_spec s :
  piece s = true <-> is_empty s = false /\ clean s = true /\ no_slash s = true.
Proof. unfold piece. rewrite !andb_true_iff, negb_true_iff. naive_solver. Qed.

Lemma trace_from_str_ok s t :
  trace_prefixed_from_str s = Ok t <-> wf_trace t = true /\ trace_prefixed_display t = s.
Proof.
  unfold trace_prefixed_from_str. rewrite clean_guard, display_join.
  unfold wf_trace. rewrite andb_true_iff, piece_spec. split.
  - intros [Hc Hs]. destruct (rsplit_once s) as [[path base]|] eqn:Hr.
    + apply rsplit_once_Some in Hr as [-> Hb].
      destruct (trace_segments_from_str path) as [segs|] eqn:Hp; [|done].
      apply trace_segments_from_str_ok in Hp as (Hne & Hwf & ->).
      simpl in Hs. destruct (is_empty base) eqn:Hbe; [done|]. injection Hs as <-. simpl.
      rewrite !clean_app, !andb_true_iff in Hc. split_and!; try naive_solver.
      apply join_snoc. by destruct segs.
    + apply rsplit_once_None in Hr. simpl in Hs.
      destruct (is_empty s) eqn:Hse; [done|]. by injection Hs as <-.
  - destruct t as [segs base]. simpl. intros [(Hwf & He & Hc & Hb) <-].
    destruct (decide (segs = [])) as [->|Hne].
    + simpl. rewrite Hc, (proj2 (rsplit_once_None _) Hb). simpl. by rewrite He.
    + assert (trace_segments_from_str (join (pieces segs)) = Ok segs) as Hp
        by (by apply trace_segments_from_str_ok).
      rewrite join_snoc by (by destruct segs).
      rewrite (proj2 (rsplit_once_Some _ (join (pieces segs)) base)) by done.
      rewrite Hp, !clean_app, Hc. simpl. rewrite He.
      apply clean_guard in Hp as [-> _]. done.
Qed.

Lemma trace_push_front_parses (seg : PortAndChannel) (t : TracePrefixed) :
  wf_segment seg = true -> wf_trace t = true ->
  trace_prefixed_from_str (port seg ++ "/" ++ channel seg ++ "/" ++ trace_prefixed_display t)
  = Ok (mk_trace (seg :: trace t) (base_denom t)).
Proof.
  intros Hs [Ht Hb]%andb_prop. apply trace_from_str_ok. unfold wf_trace. simpl.
  by rewrite Hs, Ht, Hb.
Qed.

(** *** The whole denomination *)
Definition wf_denom (d : Denom) : bool :=
  match d with
  | Denom_TracePrefixed t => wf_trace t && negb (has_leading_port t "ibc")
  | Denom_IbcPrefixed i => (String.length (id i) =? 32)%nat
  end.

Lemma prefix_cons c p d s :
  String.prefix (String c p) (String d s) = Ascii.eqb c d && String.prefix p s.
Proof.
  simpl. destruct (Ascii.ascii_dec c d) as [->|Hne].
  - by rewrite Ascii.eqb_refl.
  - by rewrite (proj2 (Ascii.eqb_neq c d) Hne).
Qed.

Lemma no_slash_cons c s : no_slash (String c s) = true <-> c <> slash /\ no_slash s = true.
Proof.
  unfold no_slash. simpl. by rewrite andb_true_iff, negb_true_iff, Ascii.eqb_neq.
Qed.

Lemma prefix_slash_piece pre p s :
  no_slash pre = true -> no_slash p = true ->
  starts_with (pre ++ "/") (p ++ "/" ++ s) = true -> p = pre.
Proof.
  unfold starts_with. revert p. induction pre as [|c pre IH]; intros [|d p]; [done|..];
    cbn [String.append]; rewrite ?no_slash_cons, ?prefix_cons, andb_true_iff, Ascii.eqb_eq.
  - naive_solver.
  - naive_solver.
  - intros [Hc Hpre] [Hd Hp] [-> Hx]. f_equal. by apply IH.
Qed.

Lemma prefix_no_slash pre s : no_slash s = true -> starts_with (pre ++ "/") s = false.
Proof.
  unfold starts_with. revert s. induction pre as [|c pre IH]; intros [|d s]; try done;
    cbn [String.append]; rewrite no_slash_cons, prefix_cons; intros [Hd Hs].
  - change "/"%char with slash. by rewrite (proj2 (Ascii.eqb_neq slash d)) by congruence.
  - by rewrite IH, andb_false_r.
Qed.

Lemma display_not_ibc t :
  wf_trace t = true -> has_leading_port t "ibc" = false ->
  starts_with "ibc/" (trace_prefixed_display t) = false.
Proof.
  destruct t as [[|[p c] segs] base]; unfold wf_trace, has_leading_port, leading_port; simpl.
  - intros Hb%piece_spec _. apply (prefix_no_slash "ibc"). naive_solver.
  - unfold wf_segment. rewrite !andb_true_iff, !piece_spec. simpl.
    intros Hwf Hp. apply bool_decide_eq_false in Hp.
    apply not_true_iff_false. intros Hpre. apply Hp. do 2 f_equal.
    apply (prefix_slash_piece "ibc" p _ eq_refl) in Hpre; [done|]. naive_solver.
Qed.

Lemma hex_encode_no_slash s : no_slash (hex_encode s) = true.
Proof.
  assert (forall n, (n < 16)%nat -> negb (hex_digit n =? slash)%char = true) as Hd.
  { intros n Hn. do 16 (destruct n as [|n]; [reflexivity|]). lia. }
  unfold no_slash. induction s as [|c s IH]; [done|]. cbn [hex_encode str_forallb].
  assert (nat_of_ascii c < 256)%nat by apply nat_ascii_bounded.
  rewrite !Hd, IH; [done| |].
  - by apply Nat.mod_upper_bound.
  - by apply Nat.Div0.div_lt_upper_bound.
Qed.

Lemma hex_encode_length s : String.length (hex_encode s) = (2 * String.length s)%nat.
Proof. induction s as [|c s IH]; simpl in *; lia. Qed.

Lemma ibc_parse_display `{FromHex} i :
  from_hex32 (hex_encode (id i)) = Some (id i) ->
  denom_from_str (ibc_prefixed_display i) = Ok (Denom_IbcPrefixed i).
Proof.
  destruct i as [i]. cbn [id]. intros Hi.
  unfold denom_from_str, ibc_prefixed_display, ibc_prefixed_from_str.
  cbn [id]. change ("ibc/" ++ hex_encode i) with ("ibc" ++ "/" ++ hex_encode i).
  rewrite (split_app "ibc") by reflexivity.
  rewrite split_no_slash by apply hex_encode_no_slash.
  cbn -[hex_encode]. rewrite Hi. by destruct (hex_encode i).
Qed.

Lemma denom_parse_display `{FromHex}
    (Hhex : forall i, String.length i = 32%nat -> from_hex32 (hex_encode i) = Some i) d :
  wf_denom d = true -> denom_from_str (denom_display d) = Ok d.
Proof.
  destruct d as [t|[i]]; simpl.
  - intros [Ht Hp%negb_true_iff]%andb_prop. unfold denom_from_str.
    rewrite display_not_ibc by done.
    by rewrite (proj2 (trace_from_str_ok _ t)).
  - intros Hi%Nat.eqb_eq. apply ibc_parse_display. by apply Hhex.
Qed.

(** ** Theorems *)

(** The text format of trace prefixed denominations is exact: [from_str]
    accepts precisely the texts [port/channel/../base] whose pieces are
    non-empty, ASCII, and without whitespace or slash, it returns those pieces,
    and printing the result gives the text back. *)
Theorem trace_prefixed_parse_iff (s : string) (t : TracePrefixed) :
  trace_prefixed_from_str s = Ok t <-> wf_trace t = true /\ trace_prefixed_display t = s.
Proof. apply trace_from_str_ok. Qed.

(** Printing a well-formed denomination and parsing the text gives the
    denomination back.  A trace prefixed one is well-formed when its leading
    port is not [ibc]: that text would be taken for an ibc prefixed one. *)
Theorem denom_roundtrip `{FromHex}
    (Hhex : forall i, String.length i = 32%nat -> from_hex32 (hex_encode i) = Some i)
    (d : Denom) (Hd : wf_denom d = true) :
  denom_from_str (denom_display d) = Ok d.
Proof. by apply denom_parse_display. Qed.

(** A concrete decoder for the hex text. *)
Definition unhex_digit (c : ascii) : nat :=
  let n := nat_of_ascii c in (if n <? 58 then n - 48 else n - 87)%nat.
Fixpoint unhex (s : string) : string :=
  match s with
  | String a (String b s') =>
      String (ascii_of_nat (unhex_digit a * 16 + unhex_digit b)%nat) (unhex s')
  | _ => ""
  end.
Definition toy_from_hex : FromHex := fun s => Some (unhex s).

Lemma unhex_encode s : unhex (hex_encode s) = s.
Proof.
  induction s as [|c s IH]; [done|]. cbn [hex_encode unhex]. rewrite IH. f_equal.
  by destruct c as [[] [] [] [] [] [] [] []].
Qed.

Lemma denom_roundtrip_witness :
  @denom_from_str toy_from_hex "transfer/channel-0/utia"
  = Ok (Denom_TracePrefixed (mk_trace [mk_segment "transfer" "channel-0"] "utia")).
Proof.
  apply (@denom_roundtrip toy_from_hex)
    with (d := Denom_TracePrefixed (mk_trace [mk_segment "transfer" "channel-0"] "utia")).
  - intros i _. unfold from_hex32, toy_from_hex. by rewrite unhex_encode.
  - reflexivity.
Defined.

(** [display_len] is the length of the printed denomination, computed without
    printing it (an ibc prefixed hash has 32 bytes). *)
Theorem display_len_correct (d : Denom)
    (Hid : match d with Denom_IbcPrefixed i => String.length (id i) = 32%nat | _ => True end) :
  display_len d = String.length (denom_display d).
Proof.
  destruct d as [[segs base]|[i]]; simpl in *.
  - unfold trace_display_len, trace_prefixed_display. simpl.
    assert (forall n, foldl (fun len seg =>
      len + (String.length (port seg) + String.length (channel seg) + 2)) n segs +
      String.length base = n + String.length (foldr (fun seg s =>
        port seg ++ "/" ++ channel seg ++ "/" ++ s) base segs))%nat as Hgen; [|apply (Hgen 0%nat)].
    induction segs as [|seg segs IH]; intros n; simpl; [done|].
    rewrite IH, !str_length_app. simpl. rewrite !str_length_app. simpl. lia.
  - unfold ibc_prefixed_display. simpl. rewrite hex_encode_length, Hid. done.
Qed.

Lemma display_len_correct_witness :
  display_len (Denom_IbcPrefixed (mk_ibc "0123456789abcdef0123456789ABCDEF")) = 68%nat.
Proof. rewrite display_len_correct; reflexivity. Defined.

(** The order of denominations does not do what its documentation says.  It
    calls two different well-formed denominations equal (a base denomination
    and a trace whose leading port has that text), and it disagrees with the
    order of the printed texts it is meant to mirror. *)
Theorem denom_order_is_not_lexical :
  exists a b c d : Denom,
    wf_denom a = true /\ wf_denom b = true /\ wf_denom c = true /\ wf_denom d = true /\
    a <> b /\ denom_cmp a b = Val Eq /\
    denom_cmp c d = Val Lt /\ String.compare (denom_display c) (denom_display d) = Gt.
Proof.
  exists (Denom_TracePrefixed (mk_trace [] "transfer")),
    (Denom_TracePrefixed (mk_trace [mk_segment "transfer" "channel-0"] "utia")),
    (Denom_TracePrefixed (mk_trace [mk_segment "transfer" "channel-0"] "utia")),
    (Denom_TracePrefixed (mk_trace [mk_segment "transfer" "channel-0";
                                    mk_segment "a" "b"] "c")).
  split_and!; done.
Qed.
