(* ===== verification/Types.v ===== *)
(** * Data of the sequencer

    The values the sequencer's state and transactions are made of:
    addresses, deposits, fees, validators, oracle and market data
    ([astria-core]), the actions of a transaction
    ([astria-core/src/protocol/transaction/v1/action/mod.rs]) with their groups, and the
    ABCI data that several handlers share.
    Hashes, addresses and identifiers are byte strings, amounts are [Z] in the
    range of their machine type. *)
From S2P Require Import Prelude Denom.
From stdpp Require Import base list option strings gmap countable numbers.
From Stdlib Require Import ZArith Lia String.
Open Scope Z_scope.

(** ** Primitives *)
Abbreviation address_bytes := string.
Abbreviation RollupId := string.
Abbreviation TransactionId := string.
Abbreviation ChannelId := string.
Abbreviation PortId := string.
Abbreviation Time := Z.

Record Address := mk_address { addr_bytes : address_bytes; addr_prefix : string }.

(** [VerificationKey::address_bytes]: the first twenty bytes of the key's hash. *)
Definition key_address `{Sha256} (key : string) : address_bytes :=
  String.substring 0 20 (sha256 key).

Record Deposit := mk_deposit {
  dep_bridge_address : Address;
  dep_rollup_id : RollupId;
  dep_amount : Z;
  dep_asset : Denom;
  dep_destination_chain_address : string;
  dep_source_transaction_id : TransactionId;
  dep_source_action_index : Z }.

Record FeeComponents := mk_components { base : Z; multiplier : Z }.

Record Fee := mk_fee {
  fee_action_name : string;
  fee_denom : Denom;
  fee_amount : Z;
  fee_position_in_transaction : Z }.

Record ValidatorUpdate := mk_validator {
  power : Z;
  verification_key : string;
  validator_name : string }.

(** [ValidatorSet]: a [BTreeMap] from addresses to updates. *)
Abbreviation ValidatorSet := (gmap address_bytes ValidatorUpdate).

Record CurrencyPair := mk_pair { pair_base : string; pair_quote : string }.
Definition currency_pair_to_string (p : CurrencyPair) : string :=
  (pair_base p ++ "/" ++ pair_quote p)%string.

Record QuotePrice := mk_quote { price : Z; quote_timestamp : Time; quote_height : Z }.
Record CurrencyPairState := mk_pair_state {
  pair_price : option QuotePrice;
  pair_nonce : Z;
  pair_id : Z }.

Record Ticker := mk_ticker {
  currency_pair : CurrencyPair;
  decimals : Z;
  min_provider_count : Z;
  enabled : bool;
  ticker_metadata : string }.
Record ProviderConfig := mk_provider {
  provider_name : string;
  off_chain_ticker : string;
  normalize_by_pair : option CurrencyPair;
  invert : bool;
  provider_metadata : string }.
Record Market := mk_market { ticker : Ticker; provider_configs : list ProviderConfig }.

(** [MarketMap]: an [IndexMap] from ticker names to markets, in insertion order. *)
Abbreviation MarketMap := (list (string * Market)).

Record ChangeInfo := mk_change {
  change_activation_height : Z;
  change_name : string;
  change_app_version : Z;
  change_hash : string }.

Record TransactionContext := mk_context {
  ctx_address_bytes : address_bytes;
  ctx_transaction_id : TransactionId;
  ctx_position : Z }.

(** ABCI events, kept as the values they are formatted from. *)
Inductive Event :=
| TxFees (fee : Fee)
| TxDeposit (deposit : Deposit)
| PriceUpdate (pair : CurrencyPair) (new_price : Z).

#[export] Instance Address_eq_dec : EqDecision Address.
Proof. solve_decision. Defined.
#[export] Instance ChangeInfo_eq_dec : EqDecision ChangeInfo.
Proof. solve_decision. Defined.
#[export] Instance CurrencyPair_eq_dec : EqDecision CurrencyPair.
Proof. solve_decision. Defined.
#[export] Instance CurrencyPair_countable : Countable CurrencyPair.
Proof.
  by apply (inj_countable' (fun p => (pair_base p, pair_quote p)) (fun q => mk_pair q.1 q.2));
    intros [].
Defined.
#[export] Instance Deposit_eq_dec : EqDecision Deposit.
Proof. solve_decision. Defined.
#[export] Instance ValidatorUpdate_eq_dec : EqDecision ValidatorUpdate.
Proof. solve_decision. Defined.

(** ** ICS20 packets *)
Record FungibleTokenPacketData := mk_packet_data {
  pkt_amount : string;
  pkt_denom : string;
  pkt_sender : string;
  pkt_receiver : string;
  pkt_memo : string }.

(** An outgoing packet, [IBCPacket]. *)
Record IBCPacket := mk_packet {
  source_port : PortId;
  source_channel : ChannelId;
  packet_timeout_height : Z * Z;
  packet_timeout_time : Z;
  packet_data : string }.

(** An incoming or returned packet, [Packet]. *)
Record Packet := mk_in_packet {
  port_on_a : PortId;
  chan_on_a : ChannelId;
  port_on_b : PortId;
  chan_on_b : ChannelId;
  data : string }.

Record Ics20WithdrawalFromRollup := mk_withdrawal_memo {
  memo_rollup_block_number : Z;
  memo_rollup_withdrawal_event_id : string;
  memo_rollup_return_address : string;
  memo_memo : string }.

(** ** Actions *)
Record Transfer := mk_transfer {
  tr_to : Address; tr_amount : Z; tr_asset : Denom; tr_fee_asset : Denom }.
Record RollupDataSubmission := mk_submission {
  rds_rollup_id : RollupId; rds_data : string; rds_fee_asset : Denom }.
Record SudoAddressChange := mk_sudo_change { sac_new_address : Address }.
Record IbcSudoChange := mk_ibc_sudo_change { isc_new_address : Address }.
Record Ics20Withdrawal := mk_withdrawal {
  w_amount : Z;
  w_denom : Denom;
  w_destination_chain_address : string;
  w_return_address : Address;
  w_timeout_height : Z * Z;
  w_timeout_time : Z;
  w_source_channel : ChannelId;
  w_fee_asset : Denom;
  w_memo : string;
  w_bridge_address : option Address;
  w_use_compat_address : bool }.
Inductive IbcRelayerChange :=
| RelayerAddition (a : Address)
| RelayerRemoval (a : Address).
Inductive FeeAssetChange :=
| FeeAssetAddition (d : Denom)
| FeeAssetRemoval (d : Denom).
Record InitBridgeAccount := mk_init {
  iba_rollup_id : RollupId;
  iba_asset : Denom;
  iba_fee_asset : Denom;
  iba_sudo_address : option Address;
  iba_withdrawer_address : option Address }.
Record BridgeLock := mk_lock {
  bl_to : Address;
  bl_amount : Z;
  bl_asset : Denom;
  bl_fee_asset : Denom;
  bl_destination_chain_address : string }.
Record BridgeUnlock := mk_unlock {
  bu_to : Address;
  bu_amount : Z;
  bu_fee_asset : Denom;
  bu_bridge_address : Address;
  bu_memo : string;
  bu_rollup_block_number : Z;
  bu_rollup_withdrawal_event_id : string }.
Record BridgeSudoChange := mk_bridge_sudo_change {
  bsc_bridge_address : Address;
  bsc_new_sudo_address : option Address;
  bsc_new_withdrawer_address : option Address;
  bsc_fee_asset : Denom }.
Record BridgeTransfer := mk_bridge_transfer {
  bt_to : Address;
  bt_amount : Z;
  bt_fee_asset : Denom;
  bt_destination_chain_address : string;
  bt_bridge_address : Address;
  bt_rollup_block_number : Z;
  bt_rollup_withdrawal_event_id : string }.
Inductive FeeChange :=
| FeeChange_Transfer (f : FeeComponents)
| FeeChange_RollupDataSubmission (f : FeeComponents)
| FeeChange_Ics20Withdrawal (f : FeeComponents)
| FeeChange_InitBridgeAccount (f : FeeComponents)
| FeeChange_BridgeLock (f : FeeComponents)
| FeeChange_BridgeUnlock (f : FeeComponents)
| FeeChange_BridgeSudoChange (f : FeeComponents)
| FeeChange_IbcRelay (f : FeeComponents)
| FeeChange_ValidatorUpdate (f : FeeComponents)
| FeeChange_FeeAssetChange (f : FeeComponents)
| FeeChange_FeeChange (f : FeeComponents)
| FeeChange_IbcRelayerChange (f : FeeComponents)
| FeeChange_SudoAddressChange (f : FeeComponents)
| FeeChange_IbcSudoChange (f : FeeComponents)
| FeeChange_BridgeTransfer (f : FeeComponents)
| FeeChange_RecoverIbcClient (f : FeeComponents)
| FeeChange_CurrencyPairsChange (f : FeeComponents)
| FeeChange_MarketsChange (f : FeeComponents).
Record RecoverIbcClient := mk_recover { client_id : string; replacement_client_id : string }.
Inductive CurrencyPairsChange :=
| PairsAddition (pairs : list CurrencyPair)
| PairsRemoval (pairs : list CurrencyPair).
Inductive MarketsChange :=
| MarketsCreation (markets : list Market)
| MarketsRemoval (markets : list Market)
| MarketsUpdate (markets : list Market).

(** A relayed IBC message, decoded by the IBC library. *)
Record IbcRelay := mk_relay { raw_action : string }.

Inductive Action :=
| Action_RollupDataSubmission (act : RollupDataSubmission)
| Action_Transfer (act : Transfer)
| Action_ValidatorUpdate (act : ValidatorUpdate)
| Action_SudoAddressChange (act : SudoAddressChange)
| Action_Ibc (act : IbcRelay)
| Action_IbcSudoChange (act : IbcSudoChange)
| Action_Ics20Withdrawal (act : Ics20Withdrawal)
| Action_IbcRelayerChange (act : IbcRelayerChange)
| Action_FeeAssetChange (act : FeeAssetChange)
| Action_InitBridgeAccount (act : InitBridgeAccount)
| Action_BridgeLock (act : BridgeLock)
| Action_BridgeUnlock (act : BridgeUnlock)
| Action_BridgeSudoChange (act : BridgeSudoChange)
| Action_BridgeTransfer (act : BridgeTransfer)
| Action_FeeChange (act : FeeChange)
| Action_RecoverIbcClient (act : RecoverIbcClient)
| Action_CurrencyPairsChange (act : CurrencyPairsChange)
| Action_MarketsChange (act : MarketsChange).

(** A signed transaction: its id and signer are computed from its encoding and
    its verification key; [tx_encoded] is [tx.to_raw().encode_to_vec()]. *)
Record Transaction := mk_transaction {
  tx_id : TransactionId;
  tx_verification_key : string;
  tx_chain_id : string;
  tx_nonce : Z;
  tx_actions : list Action;
  tx_encoded : string }.

Definition tx_address_bytes `{Sha256} (tx : Transaction) : address_bytes :=
  key_address (tx_verification_key tx).

(** * The requests of the consensus engine

    The types of [tendermint::abci] the sequencer's ABCI handlers read
    ([app/mod.rs], [app/execution_state.rs], [app/vote_extension.rs]): the
    requests of a proposal round, commit infos and consensus parameters.
    Account ids, hashes and signatures are byte strings, heights, rounds and
    powers integers of their width. *)

Record AbciValidator := mk_abci_validator { val_address : address_bytes; val_power : Z }.
Inductive BlockIdFlag := Absent | Commit | Nil.
Inductive BlockSignatureInfo := Flag (f : BlockIdFlag) | LegacySigned.

Record VoteInfo := mk_vote { vote_validator : AbciValidator; vote_sig_info : BlockSignatureInfo }.
Record CommitInfo := mk_commit { round : Z; votes : list VoteInfo }.

Record ExtendedVoteInfo := mk_ext_vote {
  ext_validator : AbciValidator;
  ext_sig_info : BlockSignatureInfo;
  ext_vote_extension : string;
  ext_signature : option string }.
Record ExtendedCommitInfo := mk_ext_commit { ext_round : Z; ext_votes : list ExtendedVoteInfo }.

Inductive MisbehaviorKind := UnknownMisbehavior | DuplicateVote | LightClientAttack.
Record Misbehavior := mk_misbehavior {
  misbehavior_kind : MisbehaviorKind;
  misbehavior_validator : AbciValidator;
  misbehavior_height : Z;
  misbehavior_time : Time;
  total_voting_power : Z }.

(** [tendermint::Hash]: a hash or nothing *)
Inductive TmHash := Sha256Hash (h : string) | NoHash.

Record PrepareProposal := mk_prepare {
  prep_max_tx_bytes : Z;
  prep_local_last_commit : option ExtendedCommitInfo;
  prep_misbehavior : list Misbehavior;
  prep_height : Z;
  prep_time : Time;
  prep_next_validators_hash : TmHash;
  prep_proposer_address : address_bytes }.
Record ProcessProposal := mk_process {
  proc_txs : list string;
  proc_proposed_last_commit : option CommitInfo;
  proc_misbehavior : list Misbehavior;
  proc_hash : TmHash;
  proc_height : Z;
  proc_time : Time;
  proc_next_validators_hash : TmHash;
  proc_proposer_address : address_bytes }.
Record FinalizeBlock := mk_finalize {
  fin_txs : list string;
  fin_misbehavior : list Misbehavior;
  fin_hash : TmHash;
  fin_height : Z;
  fin_time : Time;
  fin_next_validators_hash : TmHash;
  fin_proposer_address : address_bytes }.

(** [tendermint::consensus::Params] *)
Record ConsensusParams := mk_consensus {
  block_max_bytes : Z;
  block_max_gas : Z;
  block_time_iota_ms : Z;
  evidence_max_age_num_blocks : Z;
  evidence_max_age_duration : Z;
  evidence_max_bytes : Z;
  pub_key_types : list string;
  version_app : option Z;
  vote_extensions_enable_height : option Z }.

#[export] Instance AbciValidator_eq_dec : EqDecision AbciValidator.
Proof. solve_decision. Defined.
#[export] Instance BlockIdFlag_eq_dec : EqDecision BlockIdFlag.
Proof. solve_decision. Defined.
#[export] Instance BlockSignatureInfo_eq_dec : EqDecision BlockSignatureInfo.
Proof. solve_decision. Defined.
#[export] Instance VoteInfo_eq_dec : EqDecision VoteInfo.
Proof. solve_decision. Defined.
#[export] Instance CommitInfo_eq_dec : EqDecision CommitInfo.
Proof. solve_decision. Defined.
#[export] Instance MisbehaviorKind_eq_dec : EqDecision MisbehaviorKind.
Proof. solve_decision. Defined.
#[export] Instance Misbehavior_eq_dec : EqDecision Misbehavior.
Proof. solve_decision. Defined.
#[export] Instance TmHash_eq_dec : EqDecision TmHash.
Proof. solve_decision. Defined.

(** * Action groups

    [astria-core/src/protocol/transaction/v1/action/group/mod.rs]: which
    actions may share a transaction, and the group that orders transactions in
    a block. *)
Inductive Group :=
| UnbundleableSudo
| BundleableSudo
| UnbundleableGeneral
| BundleableGeneral.
#[export] Instance Group_eq_dec : EqDecision Group.
Proof. solve_decision. Defined.

(** The discriminants, which the derived order compares. *)
Definition group_discriminant (g : Group) : Z :=
  match g with
  | UnbundleableSudo => 1
  | BundleableSudo => 2
  | UnbundleableGeneral => 3
  | BundleableGeneral => 4
  end.
Definition group_cmp (a b : Group) : comparison :=
  Z.compare (group_discriminant a) (group_discriminant b).

Definition action_group (a : Action) : Group :=
  match a with
  | Action_SudoAddressChange _ | Action_IbcSudoChange _ => UnbundleableSudo
  | Action_IbcRelayerChange _ | Action_FeeChange _ | Action_FeeAssetChange _
  | Action_RecoverIbcClient _ | Action_CurrencyPairsChange _ | Action_MarketsChange _ =>
      BundleableSudo
  | Action_InitBridgeAccount _ | Action_BridgeSudoChange _ => UnbundleableGeneral
  | Action_RollupDataSubmission _ | Action_Transfer _ | Action_ValidatorUpdate _
  | Action_Ics20Withdrawal _ | Action_BridgeLock _ | Action_BridgeUnlock _
  | Action_BridgeTransfer _ | Action_Ibc _ => BundleableGeneral
  end.

Definition is_bundleable (g : Group) : bool :=
  match g with BundleableGeneral | BundleableSudo => true | _ => false end.
Definition is_bundleable_sudo (g : Group) : bool :=
  match g with BundleableSudo => true | _ => false end.
Definition group_display (g : Group) : string :=
  match g with
  | BundleableGeneral => "bundleable general"
  | UnbundleableGeneral => "unbundleable general"
  | BundleableSudo => "bundleable sudo"
  | UnbundleableSudo => "unbundleable sudo"
  end.

(** [ActionName::name] *)
Definition action_name (a : Action) : string :=
  match a with
  | Action_RollupDataSubmission _ => "RollupDataSubmission"
  | Action_Transfer _ => "Transfer"
  | Action_ValidatorUpdate _ => "ValidatorUpdate"
  | Action_SudoAddressChange _ => "SudoAddressChange"
  | Action_Ibc _ => "Ibc"
  | Action_IbcSudoChange _ => "IbcSudoChange"
  | Action_Ics20Withdrawal _ => "Ics20Withdrawal"
  | Action_IbcRelayerChange _ => "IbcRelayerChange"
  | Action_FeeAssetChange _ => "FeeAssetChange"
  | Action_InitBridgeAccount _ => "InitBridgeAccount"
  | Action_BridgeLock _ => "BridgeLock"
  | Action_BridgeUnlock _ => "BridgeUnlock"
  | Action_BridgeSudoChange _ => "BridgeSudoChange"
  | Action_BridgeTransfer _ => "BridgeTransfer"
  | Action_FeeChange _ => "FeeChange"
  | Action_RecoverIbcClient _ => "RecoverIbcClient"
  | Action_CurrencyPairsChange _ => "CurrencyPairsChange"
  | Action_MarketsChange _ => "MarketsChange"
  end.

Inductive GroupErrorKind :=
| GroupMixed (original_group additional_group : Group) (action : string)
| GroupNotBundleable (group : Group)
| GroupEmpty.

Record Actions := mk_actions { actions_group : Group; inner : list Action }.

(** The loop over the actions after the first. *)
Fixpoint same_group (group : Group) (l : list Action) : result GroupErrorKind unit :=
  match l with
  | [] => Ok tt
  | action :: l' =>
      if bool_decide (action_group action = group) then same_group group l'
      else Err (GroupMixed group (action_group action) (action_name action))
  end.

Definition try_from_list_of_actions (actions : list Action) : result GroupErrorKind Actions :=
  match actions with
  | [] => Err GroupEmpty
  | action :: rest =>
      let group := action_group action in
      if (1 <? List.length actions)%nat && negb (is_bundleable group)
      then Err (GroupNotBundleable group)
      else same_group group rest;; Ok (mk_actions group actions)
  end.

(** [Transaction::group]: the group its actions were constructed with, which is
    that of the first one; a constructed list of actions is never empty. *)
Definition transaction_group (tx : Transaction) : Group :=
  match try_from_list_of_actions (tx_actions tx) with
  | Ok actions => actions_group actions
  | Err _ => BundleableGeneral
  end.

(** ** Lemmas *)
Lemma same_group_ok g l :
  same_group g l = Ok tt <-> Forall (fun a => action_group a = g) l.
Proof.
  induction l as [|a l IH]; simpl; [by split; constructor|].
  case_bool_decide; rewrite list.Forall_cons; naive_solver.
Qed.

(** ** Theorems *)

(** A list of actions can share a transaction exactly when it is not empty, all
    its actions are of one group, and it is a single action if that group is not
    bundleable.  The group and the actions are then kept as given. *)
Theorem action_group_rules (l : list Action) (acts : Actions) :
  try_from_list_of_actions l = Ok acts <->
  inner acts = l /\ l <> [] /\ Forall (fun a => action_group a = actions_group acts) l /\
  (is_bundleable (actions_group acts) = false -> List.length l = 1%nat).
Proof.
  destruct acts as [g l']. simpl. destruct l as [|a [|b l]]; simpl.
  - naive_solver.
  - split; [intros [= <- <-]|]; [repeat constructor; done|].
    intros (-> & _ & Hf & _). apply list.Forall_cons in Hf as [-> _]. done.
  - destruct (is_bundleable (action_group a)) eqn:Hb; simpl.
    + case_bool_decide as Hab.
      * destruct (same_group (action_group a) l) as [[]|] eqn:Hs; simpl.
        -- apply same_group_ok in Hs. split.
           ++ intros [= <- <-]. rewrite Hb. repeat constructor; done.
           ++ intros (-> & _ & Hf & _). apply list.Forall_cons in Hf as [-> _]. done.
        -- split; [done|]. intros (_ & _ & Hf & _).
           apply list.Forall_cons in Hf as [Ha Hf]. apply list.Forall_cons in Hf as [_ Hf].
           rewrite <- Ha in Hf. apply same_group_ok in Hf. congruence.
      * split; [done|]. intros (_ & _ & Hf & _).
        apply list.Forall_cons in Hf as [Ha Hf]. apply list.Forall_cons in Hf as [Hb' _]. congruence.
    + split; [done|]. intros (_ & _ & Hf & Hl). apply list.Forall_cons in Hf as [Ha _].
      rewrite <- Ha in Hl. by apply Hl in Hb.
Qed.
