(* ===== verification/State.v ===== *)
(** * The state store and the effect of executing against it

    [cnidarium]'s key-value store as one record per component of the
    sequencer; a field holds what the component's [storage/keys.rs] files
    under its keys.  Operations run in the monad [M]: they read and write the
    store and end with a value, an error report or a panic; what was written
    before an error or a panic stays written, as in the source, where the
    caller decides whether the state delta is applied. *)
From S2P Require Import Prelude Denom Types.
From stdpp Require Import base list option strings gmap.
From Stdlib Require Import ZArith Lia String.

(** [accounts/state_ext.rs] *)
Record AccountsState := mk_accounts {
  balances : gmap (address_bytes * IbcPrefixed) Z;
  nonces : gmap address_bytes Z }.
Definition upd_balances (f : gmap (address_bytes * IbcPrefixed) Z -> gmap (address_bytes * IbcPrefixed) Z) (r : AccountsState) : AccountsState :=
  mk_accounts (f (balances r)) (nonces r).
Definition upd_nonces (f : gmap address_bytes Z -> gmap address_bytes Z) (r : AccountsState) : AccountsState :=
  mk_accounts (balances r) (f (nonces r)).

(** [bridge/state_ext.rs] *)
Record BridgeState := mk_bridge {
  rollup_ids : gmap address_bytes RollupId;
  asset_ids : gmap address_bytes IbcPrefixed;
  bridge_sudos : gmap address_bytes address_bytes;
  withdrawers : gmap address_bytes address_bytes;
  withdrawal_events : gmap (address_bytes * string) Z;
  cached_deposits : gmap RollupId (list Deposit);
  block_deposits : gmap (string * RollupId) (list Deposit);
  last_tx_ids : gmap address_bytes TransactionId }.
Definition upd_rollup_ids (f : gmap address_bytes RollupId -> gmap address_bytes RollupId) (r : BridgeState) : BridgeState :=
  mk_bridge (f (rollup_ids r)) (asset_ids r) (bridge_sudos r) (withdrawers r) (withdrawal_events r) (cached_deposits r) (block_deposits r) (last_tx_ids r).
Definition upd_asset_ids (f : gmap address_bytes IbcPrefixed -> gmap address_bytes IbcPrefixed) (r : BridgeState) : BridgeState :=
  mk_bridge (rollup_ids r) (f (asset_ids r)) (bridge_sudos r) (withdrawers r) (withdrawal_events r) (cached_deposits r) (block_deposits r) (last_tx_ids r).
Definition upd_bridge_sudos (f : gmap address_bytes address_bytes -> gmap address_bytes address_bytes) (r : BridgeState) : BridgeState :=
  mk_bridge (rollup_ids r) (asset_ids r) (f (bridge_sudos r)) (withdrawers r) (withdrawal_events r) (cached_deposits r) (block_deposits r) (last_tx_ids r).
Definition upd_withdrawers (f : gmap address_bytes address_bytes -> gmap address_bytes address_bytes) (r : BridgeState) : BridgeState :=
  mk_bridge (rollup_ids r) (asset_ids r) (bridge_sudos r) (f (withdrawers r)) (withdrawal_events r) (cached_deposits r) (block_deposits r) (last_tx_ids r).
Definition upd_withdrawal_events (f : gmap (address_bytes * string) Z -> gmap (address_bytes * string) Z) (r : BridgeState) : BridgeState :=
  mk_bridge (rollup_ids r) (asset_ids r) (bridge_sudos r) (withdrawers r) (f (withdrawal_events r)) (cached_deposits r) (block_deposits r) (last_tx_ids r).
Definition upd_cached_deposits (f : gmap RollupId (list Deposit) -> gmap RollupId (list Deposit)) (r : BridgeState) : BridgeState :=
  mk_bridge (rollup_ids r) (asset_ids r) (bridge_sudos r) (withdrawers r) (withdrawal_events r) (f (cached_deposits r)) (block_deposits r) (last_tx_ids r).
Definition upd_block_deposits (f : gmap (string * RollupId) (list Deposit) -> gmap (string * RollupId) (list Deposit)) (r : BridgeState) : BridgeState :=
  mk_bridge (rollup_ids r) (asset_ids r) (bridge_sudos r) (withdrawers r) (withdrawal_events r) (cached_deposits r) (f (block_deposits r)) (last_tx_ids r).
Definition upd_last_tx_ids (f : gmap address_bytes TransactionId -> gmap address_bytes TransactionId) (r : BridgeState) : BridgeState :=
  mk_bridge (rollup_ids r) (asset_ids r) (bridge_sudos r) (withdrawers r) (withdrawal_events r) (cached_deposits r) (block_deposits r) (f (last_tx_ids r)).

(** [fees/state_ext.rs] *)
Record FeesState := mk_fees {
  components : gmap string FeeComponents;
  allowed_assets : gset IbcPrefixed;
  block_fees : option (list Fee) }.
Definition upd_components (f : gmap string FeeComponents -> gmap string FeeComponents) (r : FeesState) : FeesState :=
  mk_fees (f (components r)) (allowed_assets r) (block_fees r).
Definition upd_allowed_assets (f : gset IbcPrefixed -> gset IbcPrefixed) (r : FeesState) : FeesState :=
  mk_fees (components r) (f (allowed_assets r)) (block_fees r).
Definition upd_block_fees (f : option (list Fee) -> option (list Fee)) (r : FeesState) : FeesState :=
  mk_fees (components r) (allowed_assets r) (f (block_fees r)).

(** [authority/state_ext.rs] *)
Record AuthorityState := mk_authority {
  sudo : option address_bytes;
  pre_aspen_set : option ValidatorSet;
  validators : gmap address_bytes ValidatorUpdate;
  validator_count : option Z;
  block_updates : option ValidatorSet }.
Definition upd_sudo (f : option address_bytes -> option address_bytes) (r : AuthorityState) : AuthorityState :=
  mk_authority (f (sudo r)) (pre_aspen_set r) (validators r) (validator_count r) (block_updates r).
Definition upd_pre_aspen_set (f : option ValidatorSet -> option ValidatorSet) (r : AuthorityState) : AuthorityState :=
  mk_authority (sudo r) (f (pre_aspen_set r)) (validators r) (validator_count r) (block_updates r).
Definition upd_validators (f : gmap address_bytes ValidatorUpdate -> gmap address_bytes ValidatorUpdate) (r : AuthorityState) : AuthorityState :=
  mk_authority (sudo r) (pre_aspen_set r) (f (validators r)) (validator_count r) (block_updates r).
Definition upd_validator_count (f : option Z -> option Z) (r : AuthorityState) : AuthorityState :=
  mk_authority (sudo r) (pre_aspen_set r) (validators r) (f (validator_count r)) (block_updates r).
Definition upd_block_updates (f : option ValidatorSet -> option ValidatorSet) (r : AuthorityState) : AuthorityState :=
  mk_authority (sudo r) (pre_aspen_set r) (validators r) (validator_count r) (f (block_updates r)).

(** [ibc/state_ext.rs] *)
Record IbcState := mk_ibc {
  ibc_sudo : option address_bytes;
  ibc_relayers : gset address_bytes;
  channel_balances : gmap (ChannelId * IbcPrefixed) Z;
  sent_packets : list IBCPacket;
  acks : list (Packet * string);
  (** the entries of the IBC library: clients, connections, channels, receipts *)
  library : gmap string string }.
Definition upd_ibc_sudo (f : option address_bytes -> option address_bytes) (r : IbcState) : IbcState :=
  mk_ibc (f (ibc_sudo r)) (ibc_relayers r) (channel_balances r) (sent_packets r) (acks r) (library r).
Definition upd_ibc_relayers (f : gset address_bytes -> gset address_bytes) (r : IbcState) : IbcState :=
  mk_ibc (ibc_sudo r) (f (ibc_relayers r)) (channel_balances r) (sent_packets r) (acks r) (library r).
Definition upd_channel_balances (f : gmap (ChannelId * IbcPrefixed) Z -> gmap (ChannelId * IbcPrefixed) Z) (r : IbcState) : IbcState :=
  mk_ibc (ibc_sudo r) (ibc_relayers r) (f (channel_balances r)) (sent_packets r) (acks r) (library r).
Definition upd_sent_packets (f : list IBCPacket -> list IBCPacket) (r : IbcState) : IbcState :=
  mk_ibc (ibc_sudo r) (ibc_relayers r) (channel_balances r) (f (sent_packets r)) (acks r) (library r).
Definition upd_acks (f : list (Packet * string) -> list (Packet * string)) (r : IbcState) : IbcState :=
  mk_ibc (ibc_sudo r) (ibc_relayers r) (channel_balances r) (sent_packets r) (f (acks r)) (library r).
Definition upd_library (f : gmap string string -> gmap string string) (r : IbcState) : IbcState :=
  mk_ibc (ibc_sudo r) (ibc_relayers r) (channel_balances r) (sent_packets r) (acks r) (f (library r)).

(** [address/state_ext.rs] *)
Record AddressConfigState := mk_addressconfig {
  base_prefix : option string;
  ibc_compat_prefix : option string }.
Definition upd_base_prefix (f : option string -> option string) (r : AddressConfigState) : AddressConfigState :=
  mk_addressconfig (f (base_prefix r)) (ibc_compat_prefix r).
Definition upd_ibc_compat_prefix (f : option string -> option string) (r : AddressConfigState) : AddressConfigState :=
  mk_addressconfig (base_prefix r) (f (ibc_compat_prefix r)).

(** [assets/state_ext.rs] *)
Record AssetsState := mk_assets {
  native_asset : option TracePrefixed;
  ibc_assets : gmap IbcPrefixed TracePrefixed }.
Definition upd_native_asset (f : option TracePrefixed -> option TracePrefixed) (r : AssetsState) : AssetsState :=
  mk_assets (f (native_asset r)) (ibc_assets r).
Definition upd_ibc_assets (f : gmap IbcPrefixed TracePrefixed -> gmap IbcPrefixed TracePrefixed) (r : AssetsState) : AssetsState :=
  mk_assets (native_asset r) (f (ibc_assets r)).

(** [app/state_ext.rs] *)
Record AppDataState := mk_appdata {
  chain_id : option string;
  revision_number : option Z;
  block_height : option Z;
  block_timestamp : option Time;
  storage_versions : gmap Z Z;
  consensus_params : option ConsensusParams }.
Definition upd_chain_id (f : option string -> option string) (r : AppDataState) : AppDataState :=
  mk_appdata (f (chain_id r)) (revision_number r) (block_height r) (block_timestamp r) (storage_versions r) (consensus_params r).
Definition upd_revision_number (f : option Z -> option Z) (r : AppDataState) : AppDataState :=
  mk_appdata (chain_id r) (f (revision_number r)) (block_height r) (block_timestamp r) (storage_versions r) (consensus_params r).
Definition upd_block_height (f : option Z -> option Z) (r : AppDataState) : AppDataState :=
  mk_appdata (chain_id r) (revision_number r) (f (block_height r)) (block_timestamp r) (storage_versions r) (consensus_params r).
Definition upd_block_timestamp (f : option Time -> option Time) (r : AppDataState) : AppDataState :=
  mk_appdata (chain_id r) (revision_number r) (block_height r) (f (block_timestamp r)) (storage_versions r) (consensus_params r).
Definition upd_storage_versions (f : gmap Z Z -> gmap Z Z) (r : AppDataState) : AppDataState :=
  mk_appdata (chain_id r) (revision_number r) (block_height r) (block_timestamp r) (f (storage_versions r)) (consensus_params r).
Definition upd_consensus_params (f : option ConsensusParams -> option ConsensusParams) (r : AppDataState) : AppDataState :=
  mk_appdata (chain_id r) (revision_number r) (block_height r) (block_timestamp r) (storage_versions r) (f (consensus_params r)).

(** [oracles/price_feed/oracle/state_ext.rs] *)
Record OracleState := mk_oracle {
  pair_states : gmap CurrencyPair CurrencyPairState;
  pair_ids : gmap CurrencyPair Z;
  id_pairs : gmap Z CurrencyPair;
  next_pair_id : option Z;
  num_pairs : option Z }.
Definition upd_pair_states (f : gmap CurrencyPair CurrencyPairState -> gmap CurrencyPair CurrencyPairState) (r : OracleState) : OracleState :=
  mk_oracle (f (pair_states r)) (pair_ids r) (id_pairs r) (next_pair_id r) (num_pairs r).
Definition upd_pair_ids (f : gmap CurrencyPair Z -> gmap CurrencyPair Z) (r : OracleState) : OracleState :=
  mk_oracle (pair_states r) (f (pair_ids r)) (id_pairs r) (next_pair_id r) (num_pairs r).
Definition upd_id_pairs (f : gmap Z CurrencyPair -> gmap Z CurrencyPair) (r : OracleState) : OracleState :=
  mk_oracle (pair_states r) (pair_ids r) (f (id_pairs r)) (next_pair_id r) (num_pairs r).
Definition upd_next_pair_id (f : option Z -> option Z) (r : OracleState) : OracleState :=
  mk_oracle (pair_states r) (pair_ids r) (id_pairs r) (f (next_pair_id r)) (num_pairs r).
Definition upd_num_pairs (f : option Z -> option Z) (r : OracleState) : OracleState :=
  mk_oracle (pair_states r) (pair_ids r) (id_pairs r) (next_pair_id r) (f (num_pairs r)).

(** [oracles/price_feed/market_map/state_ext.rs] *)
Record MarketsState := mk_markets {
  market_map : option MarketMap;
  market_map_height : option Z }.
Definition upd_market_map (f : option MarketMap -> option MarketMap) (r : MarketsState) : MarketsState :=
  mk_markets (f (market_map r)) (market_map_height r).
Definition upd_market_map_height (f : option Z -> option Z) (r : MarketsState) : MarketsState :=
  mk_markets (market_map r) (f (market_map_height r)).

(** The whole key-value store, with its ephemeral objects and the recorded events. *)
Record State := mk_state {
  accounts : AccountsState;
  bridge : BridgeState;
  fees : FeesState;
  authority : AuthorityState;
  ibc : IbcState;
  address_config : AddressConfigState;
  assets : AssetsState;
  app_data : AppDataState;
  oracle : OracleState;
  markets : MarketsState;
  upgrades : gmap (string * string) ChangeInfo;
  tx_context : option TransactionContext;
  events : list Event }.
Definition on_accounts (f : AccountsState -> AccountsState) (s : State) : State :=
  mk_state (f (accounts s)) (bridge s) (fees s) (authority s) (ibc s) (address_config s) (assets s) (app_data s) (oracle s) (markets s) (upgrades s) (tx_context s) (events s).
Definition on_bridge (f : BridgeState -> BridgeState) (s : State) : State :=
  mk_state (accounts s) (f (bridge s)) (fees s) (authority s) (ibc s) (address_config s) (assets s) (app_data s) (oracle s) (markets s) (upgrades s) (tx_context s) (events s).
Definition on_fees (f : FeesState -> FeesState) (s : State) : State :=
  mk_state (accounts s) (bridge s) (f (fees s)) (authority s) (ibc s) (address_config s) (assets s) (app_data s) (oracle s) (markets s) (upgrades s) (tx_context s) (events s).
Definition on_authority (f : AuthorityState -> AuthorityState) (s : State) : State :=
  mk_state (accounts s) (bridge s) (fees s) (f (authority s)) (ibc s) (address_config s) (assets s) (app_data s) (oracle s) (markets s) (upgrades s) (tx_context s) (events s).
Definition on_ibc (f : IbcState -> IbcState) (s : State) : State :=
  mk_state (accounts s) (bridge s) (fees s) (authority s) (f (ibc s)) (address_config s) (assets s) (app_data s) (oracle s) (markets s) (upgrades s) (tx_context s) (events s).
Definition on_address_config (f : AddressConfigState -> AddressConfigState) (s : State) : State :=
  mk_state (accounts s) (bridge s) (fees s) (authority s) (ibc s) (f (address_config s)) (assets s) (app_data s) (oracle s) (markets s) (upgrades s) (tx_context s) (events s).
Definition on_assets (f : AssetsState -> AssetsState) (s : State) : State :=
  mk_state (accounts s) (bridge s) (fees s) (authority s) (ibc s) (address_config s) (f (assets s)) (app_data s) (oracle s) (markets s) (upgrades s) (tx_context s) (events s).
Definition on_app_data (f : AppDataState -> AppDataState) (s : State) : State :=
  mk_state (accounts s) (bridge s) (fees s) (authority s) (ibc s) (address_config s) (assets s) (f (app_data s)) (oracle s) (markets s) (upgrades s) (tx_context s) (events s).
Definition on_oracle (f : OracleState -> OracleState) (s : State) : State :=
  mk_state (accounts s) (bridge s) (fees s) (authority s) (ibc s) (address_config s) (assets s) (app_data s) (f (oracle s)) (markets s) (upgrades s) (tx_context s) (events s).
Definition on_markets (f : MarketsState -> MarketsState) (s : State) : State :=
  mk_state (accounts s) (bridge s) (fees s) (authority s) (ibc s) (address_config s) (assets s) (app_data s) (oracle s) (f (markets s)) (upgrades s) (tx_context s) (events s).
Definition on_upgrades (f : gmap (string * string) ChangeInfo -> gmap (string * string) ChangeInfo) (s : State) : State :=
  mk_state (accounts s) (bridge s) (fees s) (authority s) (ibc s) (address_config s) (assets s) (app_data s) (oracle s) (markets s) (f (upgrades s)) (tx_context s) (events s).
Definition on_tx_context (f : option TransactionContext -> option TransactionContext) (s : State) : State :=
  mk_state (accounts s) (bridge s) (fees s) (authority s) (ibc s) (address_config s) (assets s) (app_data s) (oracle s) (markets s) (upgrades s) (f (tx_context s)) (events s).
Definition on_events (f : list Event -> list Event) (s : State) : State :=
  mk_state (accounts s) (bridge s) (fees s) (authority s) (ibc s) (address_config s) (assets s) (app_data s) (oracle s) (markets s) (upgrades s) (tx_context s) (f (events s)).

(** ** Outcomes

    A report is an error with its context, the outermost message first. *)
Abbreviation Report := (list string).
Inductive outcome (A : Type) :=
| Done (a : A)
| Fail (e : Report)
| Crash.
Arguments Done {A} _.
Arguments Fail {A} _.
Arguments Crash {A}.

Definition M (A : Type) : Type := State -> outcome A * State.

#[export] Instance M_ret : MRet M := fun A a s => (Done a, s).
#[export] Instance M_bind : MBind M := fun A B f m s =>
  match m s with
  | (Done a, s') => f a s'
  | (Fail e, s') => (Fail e, s')
  | (Crash, s') => (Crash, s')
  end.

Definition gets {A} (f : State -> A) : M A := fun s => (Done (f s), s).
Definition modify (f : State -> State) : M unit := fun s => (Done tt, f s).

(** [bail!(msg)] and [return Err(eyre!(msg))] *)
Definition bail {A} (msg : string) : M A := fun s => (Fail [msg], s).
(** [ensure!(b, msg)] *)
Definition ensure_that (b : bool) (msg : string) : M unit :=
  if b then mret tt else bail msg.
(** [o.ok_or_eyre(msg)] *)
Definition ok_or_eyre {A} (o : option A) (msg : string) : M A :=
  match o with Some a => mret a | None => bail msg end.
(** [o.expect(..)] *)
Definition expect {A} (o : option A) : M A :=
  match o with Some a => mret a | None => fun s => (Crash, s) end.
(** [r.wrap_err(msg)] and [r.context(msg)] *)
Definition wrap_err {A} (msg : string) (m : M A) : M A := fun s =>
  match m s with
  | (Fail e, s') => (Fail (msg :: e), s')
  | r => r
  end.
(** [for x in l { f(x)? }] *)
Fixpoint for_each {A} (f : A -> M unit) (l : list A) : M unit :=
  match l with
  | [] => mret tt
  | x :: l' => f x;; for_each f l'
  end.
(** [iter.try_fold(acc, f)], a loop that updates a local variable. *)
Fixpoint fold_each {A B} (f : B -> A -> M B) (acc : B) (l : list A) : M B :=
  match l with
  | [] => mret acc
  | x :: l' => acc' ← f acc x; fold_each f acc' l'
  end.

(** *** Reasoning about runs that succeed *)
Lemma bind_done {A B} (m : M A) (f : A -> M B) s b s' :
  (m ≫= f) s = (Done b, s') <-> exists a s1, m s = (Done a, s1) /\ f a s1 = (Done b, s').
Proof.
  unfold mbind, M_bind. destruct (m s) as [[] ?]; naive_solver.
Qed.
Lemma mret_done {A} (a b : A) s s' : @mret M _ _ a s = (Done b, s') <-> a = b /\ s' = s.
Proof. unfold mret, M_ret. naive_solver. Qed.
Lemma gets_done {A} (f : State -> A) s a s' : gets f s = (Done a, s') <-> a = f s /\ s' = s.
Proof. unfold gets. naive_solver. Qed.
Lemma modify_done f s u s' : modify f s = (Done u, s') <-> s' = f s.
Proof. unfold modify. destruct u. naive_solver. Qed.
Lemma bail_done {A} msg s (a : A) s' : bail msg s = (Done a, s') <-> False.
Proof. unfold bail. naive_solver. Qed.
Lemma ensure_done b msg s u s' : ensure_that b msg s = (Done u, s') <-> b = true /\ s' = s.
Proof.
  unfold ensure_that, bail, mret, M_ret. destruct u. destruct b; naive_solver.
Qed.
Lemma ok_or_done {A} (o : option A) msg s a s' :
  ok_or_eyre o msg s = (Done a, s') <-> o = Some a /\ s' = s.
Proof. unfold ok_or_eyre, bail, mret, M_ret. destruct o; naive_solver. Qed.
Lemma expect_done {A} (o : option A) s a s' :
  expect o s = (Done a, s') <-> o = Some a /\ s' = s.
Proof. unfold expect, mret, M_ret. destruct o; naive_solver. Qed.
Lemma wrap_err_done {A} msg (m : M A) s a s' :
  wrap_err msg m s = (Done a, s') <-> m s = (Done a, s').
Proof. unfold wrap_err. destruct (m s) as [[] ?]; naive_solver. Qed.

Create Rewrite HintDb run.
#[export] Hint Rewrite @bind_done @mret_done @gets_done modify_done @bail_done
  ensure_done @ok_or_done @expect_done @wrap_err_done : run.

(** Turn a hypothesis about a run that ended in [Done] into what it did. *)
Ltac run_step H :=
  progress autorewrite with run in H.
Ltac run_inv H :=
  try run_step H;
  lazymatch type of H with
  | False => destruct H
  | ex _ => let x := fresh "x" in destruct H as [x H]; run_inv H
  | _ /\ _ =>
      let H' := fresh "H" in destruct H as [H' H]; run_inv H'; run_inv H
  | _ => idtac
  end.

(** Evaluate a run. *)
Ltac run_eval :=
  cbv [mbind M_bind mret M_ret gets modify ensure_that ok_or_eyre expect wrap_err bail].

(** *** Computations that only look *)
Definition reads {A} (m : M A) : Prop := forall s, (m s).2 = s.

Lemma reads_done {A} (m : M A) s a s' : reads m -> m s = (Done a, s') -> s' = s.
Proof. intros Hm Hs. specialize (Hm s). by rewrite Hs in Hm. Qed.
Lemma reads_bind {A B} (m : M A) (f : A -> M B) :
  reads m -> (forall a, reads (f a)) -> reads (m ≫= f).
Proof.
  intros Hm Hf s. specialize (Hm s). unfold mbind, M_bind.
  destruct (m s) as [[a| |] s1]; simpl in *; subst; [apply Hf|done..].
Qed.
Lemma reads_ret {A} (a : A) : reads (mret a : M A).
Proof. done. Qed.
Lemma reads_gets {A} (f : State -> A) : reads (gets f).
Proof. done. Qed.
Lemma reads_bail {A} msg : reads (bail msg : M A).
Proof. done. Qed.
Lemma reads_ensure b msg : reads (ensure_that b msg).
Proof. by destruct b. Qed.
Lemma reads_ok_or {A} (o : option A) msg : reads (ok_or_eyre o msg).
Proof. by destruct o. Qed.
Lemma reads_expect {A} (o : option A) : reads (expect o).
Proof. by destruct o. Qed.
Lemma reads_wrap {A} msg (m : M A) : reads m -> reads (wrap_err msg m).
Proof.
  intros Hm s. specialize (Hm s). unfold wrap_err. by destruct (m s) as [[] ?].
Qed.
#[export] Hint Resolve reads_bind reads_ret reads_gets reads_bail reads_ensure reads_ok_or
  reads_expect reads_wrap : astria.
