(* ===== verification/Chain.v ===== *)
(** * Chain-wide state

    The state accessors of the app, address, assets, upgrades and transaction
    components: [app/state_ext.rs], [address/state_ext.rs],
    [assets/state_ext.rs], [upgrades/state_ext.rs], [transaction/state_ext.rs]. *)
From S2P Require Import Prelude Denom Types State.
From stdpp Require Import base list option strings gmap pretty.
From Stdlib Require Import ZArith Lia Ascii String.
Open Scope string_scope.

(** ** app/state_ext.rs *)
Definition get_chain_id : M string :=
  o ← gets (fun s => chain_id (app_data s)); ok_or_eyre o "chain id not found in state".
Definition get_revision_number : M Z :=
  o ← gets (fun s => revision_number (app_data s));
  ok_or_eyre o "revision number not found in state".
Definition get_block_height : M Z :=
  o ← gets (fun s => block_height (app_data s));
  ok_or_eyre o "block height not found in state".
Definition get_block_timestamp : M Time :=
  o ← gets (fun s => block_timestamp (app_data s));
  ok_or_eyre o "block timestamp not found".
Definition get_storage_version_by_height (height : Z) : M Z :=
  o ← gets (fun s => storage_versions (app_data s) !! height);
  ok_or_eyre o "storage version not found".

Definition put_revision_number (n : Z) : M unit :=
  modify (on_app_data (upd_revision_number (fun _ => Some n))).
Definition put_block_height (height : Z) : M unit :=
  modify (on_app_data (upd_block_height (fun _ => Some height))).
Definition put_block_timestamp (t : Time) : M unit :=
  modify (on_app_data (upd_block_timestamp (fun _ => Some t))).
Definition put_storage_version_by_height (height version : Z) : M unit :=
  modify (on_app_data (upd_storage_versions <[height := version]>)).

(** The digits after the last [-] of the chain id, the regex [.*-([0-9]+)$]. *)
Definition digit (c : Ascii.ascii) : bool :=
  let n := Ascii.nat_of_ascii c in (48 <=? n)%nat && (n <=? 57)%nat.
Fixpoint after_last_dash (s : string) : option string :=
  match s with
  | EmptyString => None
  | String c s' =>
      match after_last_dash s' with
      | Some r => Some r
      | None => if Ascii.eqb c "-"%char then Some s' else None
      end
  end.
Fixpoint parse_digits (acc : Z) (s : string) : Z :=
  match s with
  | EmptyString => acc
  | String c s' => parse_digits (10 * acc + (Z.of_nat (Ascii.nat_of_ascii c) - 48)) s'
  end.
(** [regex .. .expect("revision number must be parseable and fit in a u64")] *)
Definition revision_number_from_chain_id (id : string) : run Z :=
  match after_last_dash id with
  | None => Val 0%Z
  | Some ds =>
      if is_empty ds || negb (str_forallb digit ds) then Val 0%Z
      else let n := parse_digits 0 ds in
           if (n <? 2 ^ 64)%Z then Val n else Panic
  end.
Definition put_chain_id_and_revision_number (id : string) : M unit := fun s =>
  match revision_number_from_chain_id id with
  | Val n => (modify (on_app_data (upd_chain_id (fun _ => Some id)));; put_revision_number n) s
  | _ => (Crash, s)
  end.

(** ** address/state_ext.rs *)
Definition get_base_prefix : M string :=
  o ← gets (fun s => base_prefix (address_config s));
  ok_or_eyre o "no base prefix found in state".
Definition get_ibc_compat_prefix : M string :=
  o ← gets (fun s => ibc_compat_prefix (address_config s));
  ok_or_eyre o "no ibc compat prefix found in state".
Definition put_base_prefix (p : string) : M unit :=
  modify (on_address_config (upd_base_prefix (fun _ => Some p))).
Definition put_ibc_compat_prefix (p : string) : M unit :=
  modify (on_address_config (upd_ibc_compat_prefix (fun _ => Some p))).
Definition ensure_base_prefix (a : Address) : M unit :=
  p ← wrap_err "failed to read base prefix from state" get_base_prefix;
  ensure_that (String.eqb p (addr_prefix a))
    ("address has prefix `" ++ addr_prefix a ++ "` but only `" ++ p ++ "` is permitted").

(** ** assets/state_ext.rs *)
Definition get_native_asset : M (option TracePrefixed) :=
  gets (fun s => native_asset (assets s)).
Definition put_native_asset (t : TracePrefixed) : M unit :=
  modify (on_assets (upd_native_asset (fun _ => Some t))).
Section Hashed.
Context `{Sha256}.
Definition has_ibc_asset (t : TracePrefixed) : M bool :=
  gets (fun s => bool_decide (is_Some (ibc_assets (assets s) !! trace_to_ibc_prefixed t))).
Definition map_ibc_to_trace_prefixed_asset (i : IbcPrefixed) : M (option TracePrefixed) :=
  gets (fun s => ibc_assets (assets s) !! i).
Definition put_ibc_asset (t : TracePrefixed) : M unit :=
  modify (on_assets (upd_ibc_assets <[trace_to_ibc_prefixed t := t]>)).

(** ** transaction/state_ext.rs *)
Definition transaction_context_of (tx : Transaction) : TransactionContext :=
  mk_context (tx_address_bytes tx) (tx_id tx) 0%Z.
Definition put_transaction_context (ctx : TransactionContext) : M TransactionContext :=
  modify (on_tx_context (fun _ => Some ctx));; mret ctx.
Definition delete_current_transaction_context : M unit :=
  modify (on_tx_context (fun _ => None)).
Definition get_transaction_context : M (option TransactionContext) := gets tx_context.
End Hashed.

(** [state.get_transaction_context().expect(..)] *)
Definition expect_context : M TransactionContext :=
  o ← get_transaction_context; expect o.

Definition get_consensus_params : M (option ConsensusParams) :=
  gets (fun s => consensus_params (app_data s)).
Definition put_consensus_params (p : ConsensusParams) : M unit :=
  modify (on_app_data (upd_consensus_params (fun _ => Some p))).

(** ** upgrades/state_ext.rs *)
Definition get_upgrade_change_info (upgrade change : string) : M (option ChangeInfo) :=
  gets (fun s => upgrades s !! (upgrade, change)).
Definition put_upgrade_change_info (upgrade : string) (info : ChangeInfo) : M unit :=
  modify (on_upgrades <[(upgrade, change_name info) := info]>).
Definition ASPEN : string := "aspen".
Definition VALIDATOR_UPDATE_ACTION_CHANGE : string := "validator_update_action_change".
Definition IBC_ACKNOWLEDGEMENT_FAILURE_CHANGE : string := "ibc_acknowledgement_failure_change".

(** [StateWrite::record] *)
Definition record (e : Event) : M unit := modify (on_events (fun es => es ++ [e])%list).

(** ** Lemmas *)
Ltac chain_lemma :=
  split; [let E := fresh "E" in intros E; run_inv E; subst; simplify_eq/=; eauto
         |let E := fresh "E" in intros [E ->]; run_eval; simpl; by rewrite E].

Lemma get_base_prefix_done s p s' :
  get_base_prefix s = (Done p, s') <-> base_prefix (address_config s) = Some p /\ s' = s.
Proof. unfold get_base_prefix. chain_lemma. Qed.
Lemma get_chain_id_done s id s' :
  get_chain_id s = (Done id, s') <-> chain_id (app_data s) = Some id /\ s' = s.
Proof. unfold get_chain_id. chain_lemma. Qed.
Lemma get_block_height_done s h s' :
  get_block_height s = (Done h, s') <-> block_height (app_data s) = Some h /\ s' = s.
Proof. unfold get_block_height. chain_lemma. Qed.
Lemma get_block_timestamp_done s t s' :
  get_block_timestamp s = (Done t, s') <-> block_timestamp (app_data s) = Some t /\ s' = s.
Proof. unfold get_block_timestamp. chain_lemma. Qed.
Lemma expect_context_done s c s' :
  expect_context s = (Done c, s') <-> tx_context s = Some c /\ s' = s.
Proof. unfold expect_context, get_transaction_context. chain_lemma. Qed.
#[export] Hint Rewrite get_base_prefix_done get_chain_id_done get_block_height_done
  get_block_timestamp_done expect_context_done : run.

Lemma ensure_base_prefix_done a s u s' :
  ensure_base_prefix a s = (Done u, s') <->
  base_prefix (address_config s) = Some (addr_prefix a) /\ s' = s.
Proof.
  unfold ensure_base_prefix. split.
  - intros H. run_inv H. subst.
    match goal with E : String.eqb _ _ = true |- _ => apply String.eqb_eq in E; by subst end.
  - intros [H ->]. unfold get_base_prefix. run_eval. rewrite H. simpl.
    by rewrite String.eqb_refl; destruct u.
Qed.
#[export] Hint Rewrite ensure_base_prefix_done : run.
