(* ===== verification/Accounts.v ===== *)
(** * Accounts, bridge accounts, IBC state and fees

    [accounts/state_ext.rs]: balances and nonces, and the supply of an asset
    over all accounts, the quantity the theorems on transfers are about;
    [bridge/state_ext.rs]: the keys of bridge accounts, withdrawal events and
    deposits; [ibc/state_ext.rs]: escrow and relayers; [fees/]: the fee components,
    their storage, and what every action pays. *)
From S2P Require Import Prelude Denom Types State Chain.
From stdpp Require Import base list option strings gmap fin_maps pretty.
From Stdlib Require Import ZArith Lia String.
Open Scope string_scope.
Open Scope Z_scope.

Definition get_account_balance (a : address_bytes) (asset : IbcPrefixed) : M Z :=
  gets (fun s => default 0 (balances (accounts s) !! (a, asset))).
Definition get_account_nonce (a : address_bytes) : M Z :=
  gets (fun s => default 0 (nonces (accounts s) !! a)).
Definition put_account_balance (a : address_bytes) (asset : IbcPrefixed) (b : Z) : M unit :=
  modify (on_accounts (upd_balances <[(a, asset) := b]>)).
Definition put_account_nonce (a : address_bytes) (n : Z) : M unit :=
  modify (on_accounts (upd_nonces <[a := n]>)).

Definition increase_balance (a : address_bytes) (asset : IbcPrefixed) (amount : Z) : M unit :=
  balance ← wrap_err "failed to get account balance" (get_account_balance a asset);
  b ← ok_or_eyre (checked_add 128 balance amount)
        "failed to update account balance due to overflow";
  wrap_err "failed to store updated account balance in database"
    (put_account_balance a asset b).

Definition decrease_balance (a : address_bytes) (asset : IbcPrefixed) (amount : Z) : M unit :=
  balance ← wrap_err "failed to get account balance" (get_account_balance a asset);
  b ← ok_or_eyre (checked_sub balance amount)
        "subtracting from account balance failed due to insufficient funds";
  wrap_err "failed to store updated account balance in database"
    (put_account_balance a asset b).

(** ** What the operations do *)
Definition balance_of (s : State) (a : address_bytes) (asset : IbcPrefixed) : Z :=
  default 0 (balances (accounts s) !! (a, asset)).
Definition set_balance (a : address_bytes) (asset : IbcPrefixed) (b : Z) : State -> State :=
  on_accounts (upd_balances <[(a, asset) := b]>).

Lemma get_account_balance_done a asset s b s' :
  get_account_balance a asset s = (Done b, s') <-> b = balance_of s a asset /\ s' = s.
Proof. unfold get_account_balance. by autorewrite with run. Qed.

#[export] Hint Rewrite get_account_balance_done : run.

Lemma increase_balance_done a asset amount s u s' :
  increase_balance a asset amount s = (Done u, s') <->
  balance_of s a asset + amount < 2 ^ 128 /\
  s' = set_balance a asset (balance_of s a asset + amount) s.
Proof.
  unfold increase_balance, set_balance, put_account_balance. split.
  - intros H. run_inv H. subst.
    match goal with E : checked_add _ _ _ = _ |- _ => apply checked_add_Some in E as [-> ?] end.
    done.
  - intros [H ->]. run_eval. unfold get_account_balance. simpl.
    fold (balance_of s a asset). unfold checked_add.
    rewrite (proj2 (Z.ltb_lt _ _) H). by destruct u.
Qed.

Lemma decrease_balance_done a asset amount s u s' :
  decrease_balance a asset amount s = (Done u, s') <->
  amount <= balance_of s a asset /\
  s' = set_balance a asset (balance_of s a asset - amount) s.
Proof.
  unfold decrease_balance, set_balance, put_account_balance. split.
  - intros H. run_inv H. subst.
    match goal with E : checked_sub _ _ = _ |- _ => apply checked_sub_Some in E as [-> ?] end.
    done.
  - intros [H ->]. run_eval. unfold get_account_balance. simpl.
    fold (balance_of s a asset). unfold checked_sub.
    rewrite (proj2 (Z.leb_le _ _) H). by destruct u.
Qed.
#[export] Hint Rewrite increase_balance_done decrease_balance_done : run.

(** A failed update of a balance changes nothing. *)
Lemma increase_balance_fail a asset amount s e s' :
  increase_balance a asset amount s = (Fail e, s') -> s' = s.
Proof.
  unfold increase_balance, put_account_balance, get_account_balance. run_eval.
  destruct (checked_add _ _ _); naive_solver.
Qed.
Lemma decrease_balance_fail a asset amount s e s' :
  decrease_balance a asset amount s = (Fail e, s') -> s' = s.
Proof.
  unfold decrease_balance, put_account_balance, get_account_balance. run_eval.
  destruct (checked_sub _ _); naive_solver.
Qed.

Lemma balance_of_set_balance a asset b s a' asset' :
  balance_of (set_balance a asset b s) a' asset' =
  if decide ((a, asset) = (a', asset')) then b else balance_of s a' asset'.
Proof.
  unfold balance_of, set_balance. simpl.
  destruct (decide _) as [Heq|Hne].
  - by rewrite Heq, lookup_insert_eq.
  - by rewrite lookup_insert_ne.
Qed.

(** ** Supply *)
Section Supply.
Context (asset : IbcPrefixed).

Definition supply_of (m : gmap (address_bytes * IbcPrefixed) Z) : Z :=
  map_fold (fun k v acc => if decide (k.2 = asset) then v + acc else acc) 0 m.

Lemma supply_insert_fresh k v m :
  m !! k = None ->
  supply_of (<[k := v]> m) = (if decide (k.2 = asset) then v else 0) + supply_of m.
Proof.
  intros Hk. unfold supply_of. rewrite map_fold_insert_L; [|by intros; repeat case_decide; lia|done].
  case_decide; lia.
Qed.

Lemma supply_insert k v m :
  supply_of (<[k := v]> m) =
  supply_of m + (if decide (k.2 = asset) then v - default 0 (m !! k) else 0).
Proof.
  destruct (m !! k) as [w|] eqn:Hk; simpl.
  - rewrite <- (insert_id m k w Hk) at 2. rewrite <- (insert_delete_eq m k v),
      <- (insert_delete_eq m k w), !supply_insert_fresh by apply lookup_delete_eq.
    case_decide; lia.
  - rewrite supply_insert_fresh by done. case_decide; lia.
Qed.
End Supply.

Definition supply (asset : IbcPrefixed) (s : State) : Z :=
  supply_of asset (balances (accounts s)).

Lemma supply_set_balance asset a x b s :
  supply asset (set_balance a x b s) =
  supply asset s + (if decide (x = asset) then b - balance_of s a x else 0).
Proof. apply supply_insert. Qed.

(** Balances are 128-bit unsigned integers. *)
Definition balances_ok (s : State) : Prop :=
  map_Forall (fun _ b => uint 128 b) (balances (accounts s)).

Lemma balance_of_uint s a asset : balances_ok s -> uint 128 (balance_of s a asset).
Proof.
  intros Hs. unfold balance_of. destruct (_ !! _) eqn:E; simpl.
  - by apply (Hs _ _ E).
  - unfold uint. lia.
Qed.

Lemma balances_ok_set a asset b s :
  balances_ok s -> uint 128 b -> balances_ok (set_balance a asset b s).
Proof. intros Hs Hb. by apply map_Forall_insert_2. Qed.

(** * Bridge accounts and IBC escrow

    [bridge/state_ext.rs] and [ibc/state_ext.rs]. *)

(** ** bridge/state_ext.rs *)
Definition get_bridge_account_rollup_id (a : address_bytes) : M (option RollupId) :=
  gets (fun s => rollup_ids (bridge s) !! a).
Definition is_a_bridge_account (a : address_bytes) : M bool :=
  maybe_id ← get_bridge_account_rollup_id a; mret (bool_decide (is_Some maybe_id)).
Definition get_bridge_account_ibc_asset (a : address_bytes) : M IbcPrefixed :=
  o ← gets (fun s => asset_ids (bridge s) !! a);
  ok_or_eyre o "bridge account asset ID not found".
Definition get_bridge_account_sudo_address (a : address_bytes) : M (option address_bytes) :=
  gets (fun s => bridge_sudos (bridge s) !! a).
Definition get_bridge_account_withdrawer_address (a : address_bytes) : M (option address_bytes) :=
  gets (fun s => withdrawers (bridge s) !! a).
Definition get_cached_block_deposits : M (gmap RollupId (list Deposit)) :=
  gets (fun s => cached_deposits (bridge s)).
Definition get_deposits (block_hash : string) (r : RollupId) : M (list Deposit) :=
  gets (fun s => default [] (block_deposits (bridge s) !! (block_hash, r))).
Definition get_last_transaction_id_for_bridge_account (a : address_bytes)
    : M (option TransactionId) :=
  gets (fun s => last_tx_ids (bridge s) !! a).

Definition put_bridge_account_rollup_id (a : address_bytes) (r : RollupId) : M unit :=
  modify (on_bridge (upd_rollup_ids <[a := r]>)).
Definition put_bridge_account_ibc_asset (a : address_bytes) (i : IbcPrefixed) : M unit :=
  modify (on_bridge (upd_asset_ids <[a := i]>)).
Definition put_bridge_account_sudo_address (a sudo : address_bytes) : M unit :=
  modify (on_bridge (upd_bridge_sudos <[a := sudo]>)).
Definition put_bridge_account_withdrawer_address (a w : address_bytes) : M unit :=
  modify (on_bridge (upd_withdrawers <[a := w]>)).

Definition check_and_set_withdrawal_event_block_for_bridge_account
    (a : address_bytes) (withdrawal_event_id : string) (block_num : Z) : M unit :=
  existing ← gets (fun s => withdrawal_events (bridge s) !! (a, withdrawal_event_id));
  match existing with
  | Some existing_block_num =>
      bail ("withdrawal event ID " ++ withdrawal_event_id ++ " used by block number "
            ++ pretty existing_block_num)%string
  | None =>
      modify (on_bridge (upd_withdrawal_events <[(a, withdrawal_event_id) := block_num]>))
  end.

Definition push_deposit (d : Deposit) (m : gmap RollupId (list Deposit))
    : gmap RollupId (list Deposit) :=
  <[dep_rollup_id d := (default [] (m !! dep_rollup_id d) ++ [d])%list]> m.
Definition cache_deposit_event (d : Deposit) : M unit :=
  cached ← get_cached_block_deposits;
  modify (on_bridge (upd_cached_deposits (fun _ => push_deposit d cached))).

Definition put_deposits (block_hash : string) (all : gmap RollupId (list Deposit)) : M unit :=
  for_each (fun rd => modify (on_bridge (upd_block_deposits <[(block_hash, rd.1) := rd.2]>)))
           (map_to_list all).
Definition put_last_transaction_id_for_bridge_account (a : address_bytes) (t : TransactionId)
    : M unit :=
  modify (on_bridge (upd_last_tx_ids <[a := t]>)).

(** ** ibc/state_ext.rs *)
Definition get_ibc_channel_balance (c : ChannelId) (asset : IbcPrefixed) : M Z :=
  gets (fun s => default 0 (channel_balances (ibc s) !! (c, asset))).
Definition get_ibc_sudo_address : M address_bytes :=
  o ← gets (fun s => ibc_sudo (ibc s)); ok_or_eyre o "ibc sudo address not found".
Definition is_ibc_relayer (a : address_bytes) : M bool :=
  gets (fun s => bool_decide (a ∈ ibc_relayers (ibc s))).
Definition put_ibc_channel_balance (c : ChannelId) (asset : IbcPrefixed) (b : Z) : M unit :=
  modify (on_ibc (upd_channel_balances <[(c, asset) := b]>)).
Definition decrease_ibc_channel_balance (c : ChannelId) (asset : IbcPrefixed) (amount : Z)
    : M unit :=
  old_balance ← wrap_err "failed to get ibc channel balance" (get_ibc_channel_balance c asset);
  new_balance ← ok_or_eyre (checked_sub old_balance amount) "insufficient funds on ibc channel";
  wrap_err "failed to write new balance to ibc channel"
    (put_ibc_channel_balance c asset new_balance).
Definition put_ibc_sudo_address (a : address_bytes) : M unit :=
  modify (on_ibc (upd_ibc_sudo (fun _ => Some a))).
Definition put_ibc_relayer_address (a : address_bytes) : M unit :=
  modify (on_ibc (upd_ibc_relayers (fun r => {[a]} ∪ r))).
Definition delete_ibc_relayer_address (a : address_bytes) : M unit :=
  modify (on_ibc (upd_ibc_relayers (fun r => r ∖ {[a]}))).

(** ** Lemmas *)
Lemma is_a_bridge_account_done a s b s' :
  is_a_bridge_account a s = (Done b, s') <->
  b = bool_decide (is_Some (rollup_ids (bridge s) !! a)) /\ s' = s.
Proof.
  unfold is_a_bridge_account, get_bridge_account_rollup_id. run_eval. naive_solver.
Qed.
Lemma get_bridge_account_ibc_asset_done a s i s' :
  get_bridge_account_ibc_asset a s = (Done i, s') <->
  asset_ids (bridge s) !! a = Some i /\ s' = s.
Proof. unfold get_bridge_account_ibc_asset. chain_lemma. Qed.
Lemma get_ibc_sudo_address_done s a s' :
  get_ibc_sudo_address s = (Done a, s') <-> ibc_sudo (ibc s) = Some a /\ s' = s.
Proof. unfold get_ibc_sudo_address. chain_lemma. Qed.
Lemma check_and_set_withdrawal_event_done a ev n s u s' :
  check_and_set_withdrawal_event_block_for_bridge_account a ev n s = (Done u, s') <->
  withdrawal_events (bridge s) !! (a, ev) = None /\
  s' = on_bridge (upd_withdrawal_events <[(a, ev) := n]>) s.
Proof.
  unfold check_and_set_withdrawal_event_block_for_bridge_account. run_eval. destruct u.
  destruct (withdrawal_events (bridge s) !! (a, ev)); naive_solver.
Qed.
Lemma decrease_ibc_channel_balance_done c asset amount s u s' :
  decrease_ibc_channel_balance c asset amount s = (Done u, s') <->
  amount <= default 0 (channel_balances (ibc s) !! (c, asset)) /\
  s' = on_ibc (upd_channel_balances
         <[(c, asset) := default 0 (channel_balances (ibc s) !! (c, asset)) - amount]>) s.
Proof.
  unfold decrease_ibc_channel_balance, get_ibc_channel_balance, put_ibc_channel_balance.
  run_eval. destruct u, (checked_sub _ _) eqn:E.
  - apply checked_sub_Some in E. naive_solver.
  - apply checked_sub_None in E. split; [done|]. intros [? _]. lia.
Qed.
#[export] Hint Rewrite is_a_bridge_account_done get_bridge_account_ibc_asset_done
  get_ibc_sudo_address_done check_and_set_withdrawal_event_done
  decrease_ibc_channel_balance_done : run.
#[export] Hint Unfold get_bridge_account_rollup_id get_bridge_account_withdrawer_address
  get_bridge_account_sudo_address get_cached_block_deposits cache_deposit_event
  put_bridge_account_rollup_id put_bridge_account_ibc_asset put_bridge_account_sudo_address
  put_bridge_account_withdrawer_address put_last_transaction_id_for_bridge_account
  get_ibc_channel_balance put_ibc_channel_balance is_ibc_relayer put_ibc_sudo_address
  put_ibc_relayer_address delete_ibc_relayer_address : run.

(** ** Fees

    [fees/state_ext.rs] and [fees/mod.rs]: the fee components of each kind of
    action, the assets fees may be paid in, the fees collected in a block, and
    the class [FeeHandler] with one instance per action. *)
Class FeeHandler (F : Type) := {
  fh_name : string;
  fh_full_name : string;
  fh_snake_case_name : string;
  variable_component : F -> Z;
  fee_asset : F -> option Denom }.
Arguments fh_name F {_}.
Arguments fh_full_name F {_}.
Arguments fh_snake_case_name F {_}.

(** ** fees/state_ext.rs *)
Definition get_block_fees : M (list Fee) := gets (fun s => default [] (block_fees (fees s))).
Definition get_fees (F : Type) `{FeeHandler F} : M (option FeeComponents) :=
  gets (fun s => components (fees s) !! fh_snake_case_name F).
Definition is_allowed_fee_asset (i : IbcPrefixed) : M bool :=
  gets (fun s => bool_decide (i ∈ allowed_assets (fees s))).
Definition allowed_fee_assets : M (list IbcPrefixed) :=
  gets (fun s => elements (allowed_assets (fees s))).
Definition construct_tx_fee_event (f : Fee) : Event := TxFees f.
Definition add_fee_to_block_fees `{Sha256} (F : Type) `{FeeHandler F}
    (asset : Denom) (amount position : Z) : M unit :=
  current_fees ← gets (fun s => block_fees (fees s));
  let fee := mk_fee (fh_full_name F) (Denom_IbcPrefixed (to_ibc_prefixed asset)) amount position in
  record (construct_tx_fee_event fee);;
  let new_fees := match current_fees with
                  | Some l => (l ++ [fee])%list
                  | None => [fee]
                  end in
  modify (on_fees (upd_block_fees (fun _ => Some new_fees))).
Definition put_fees (F : Type) `{FeeHandler F} (f : FeeComponents) : M unit :=
  modify (on_fees (upd_components <[fh_snake_case_name F := f]>)).
Definition delete_allowed_fee_asset (i : IbcPrefixed) : M unit :=
  modify (on_fees (upd_allowed_assets (fun l => l ∖ {[i]}))).
Definition put_allowed_fee_asset (i : IbcPrefixed) : M unit :=
  modify (on_fees (upd_allowed_assets (fun l => {[i]} ∪ l))).

(** ** fees/mod.rs *)
Definition DEPOSIT_BASE_FEE : Z := 16.
Definition base_deposit_fee (asset : Denom) (destination_chain_address : string) : Z :=
  saturating_add 128
    (saturating_add 64 (Z.of_nat (display_len asset))
                       (Z.of_nat (String.length destination_chain_address)))
    DEPOSIT_BASE_FEE.

Definition total_fee (f : FeeComponents) (variable : Z) : Z :=
  saturating_add 128 (base f) (saturating_mul 128 variable (multiplier f)).

Definition check_and_pay_fees `{Sha256} {F : Type} `{FeeHandler F} (act : F) : M unit :=
  o ← wrap_err ("error fetching " ++ fh_name F ++ " fees") (get_fees F);
  f ← ok_or_eyre o (fh_name F ++ " fees not found, so this action is disabled");
  match fee_asset act with
  | None => mret tt
  | Some asset =>
      allowed ← wrap_err "failed to check allowed fee assets in state"
                  (is_allowed_fee_asset (to_ibc_prefixed asset));
      ensure_that allowed "invalid fee asset";;
      let total_fees := total_fee f (variable_component act) in
      ctx ← expect_context;
      add_fee_to_block_fees F asset total_fees (ctx_position ctx);;
      wrap_err "failed to decrease balance for fee payment"
        (decrease_balance (ctx_address_bytes ctx) (to_ibc_prefixed asset) total_fees)
  end.

(** *** The handlers, one per action *)
Definition full_name (name : string) : string := "astria.protocol.transaction.v1." ++ name.
Definition handler {F : Type} (name snake : string) (v : F -> Z) (a : F -> option Denom)
    : FeeHandler F := {|
  fh_name := name; fh_full_name := full_name name; fh_snake_case_name := snake;
  variable_component := v; fee_asset := a |}.

#[export] Instance fee_Transfer : FeeHandler Transfer :=
  handler "Transfer" "transfer" (fun _ => 0) (fun a => Some (tr_fee_asset a)).
#[export] Instance fee_BridgeLock : FeeHandler BridgeLock :=
  handler "BridgeLock" "bridge_lock"
    (fun a => base_deposit_fee (bl_asset a) (bl_destination_chain_address a))
    (fun a => Some (bl_fee_asset a)).
#[export] Instance fee_BridgeSudoChange : FeeHandler BridgeSudoChange :=
  handler "BridgeSudoChange" "bridge_sudo_change" (fun _ => 0) (fun a => Some (bsc_fee_asset a)).
#[export] Instance fee_BridgeUnlock : FeeHandler BridgeUnlock :=
  handler "BridgeUnlock" "bridge_unlock" (fun _ => 0) (fun a => Some (bu_fee_asset a)).
#[export] Instance fee_BridgeTransfer : FeeHandler BridgeTransfer :=
  handler "BridgeTransfer" "bridge_transfer" (fun _ => 0) (fun a => Some (bt_fee_asset a)).
#[export] Instance fee_InitBridgeAccount : FeeHandler InitBridgeAccount :=
  handler "InitBridgeAccount" "init_bridge_account" (fun _ => 0)
    (fun a => Some (iba_fee_asset a)).
#[export] Instance fee_Ics20Withdrawal : FeeHandler Ics20Withdrawal :=
  handler "Ics20Withdrawal" "ics20_withdrawal" (fun _ => 0) (fun a => Some (w_fee_asset a)).
#[export] Instance fee_RollupDataSubmission : FeeHandler RollupDataSubmission :=
  handler "RollupDataSubmission" "rollup_data_submission"
    (fun a => Z.of_nat (String.length (rds_data a))) (fun a => Some (rds_fee_asset a)).
#[export] Instance fee_ValidatorUpdate : FeeHandler ValidatorUpdate :=
  handler "ValidatorUpdate" "validator_update" (fun _ => 0) (fun _ => None).
#[export] Instance fee_SudoAddressChange : FeeHandler SudoAddressChange :=
  handler "SudoAddressChange" "sudo_address_change" (fun _ => 0) (fun _ => None).
#[export] Instance fee_FeeChange : FeeHandler FeeChange :=
  handler "FeeChange" "fee_change" (fun _ => 0) (fun _ => None).
#[export] Instance fee_IbcSudoChange : FeeHandler IbcSudoChange :=
  handler "IbcSudoChange" "ibc_sudo_change" (fun _ => 0) (fun _ => None).
#[export] Instance fee_IbcRelayerChange : FeeHandler IbcRelayerChange :=
  handler "IbcRelayerChange" "ibc_relayer_change" (fun _ => 0) (fun _ => None).
#[export] Instance fee_FeeAssetChange : FeeHandler FeeAssetChange :=
  handler "FeeAssetChange" "fee_asset_change" (fun _ => 0) (fun _ => None).
#[export] Instance fee_IbcRelay : FeeHandler IbcRelay := {|
  fh_name := "IbcRelay"; fh_full_name := "penumbra.core.component.ibc.v1.IbcRelay";
  fh_snake_case_name := "ibc_relay"; variable_component := fun _ => 0;
  fee_asset := fun _ => None |}.
#[export] Instance fee_RecoverIbcClient : FeeHandler RecoverIbcClient :=
  handler "RecoverIbcClient" "recover_ibc_client" (fun _ => 0) (fun _ => None).
#[export] Instance fee_CurrencyPairsChange : FeeHandler CurrencyPairsChange :=
  handler "CurrencyPairsChange" "currency_pairs_change" (fun _ => 0) (fun _ => None).
#[export] Instance fee_MarketsChange : FeeHandler MarketsChange :=
  handler "MarketsChange" "markets_change" (fun _ => 0) (fun _ => None).
