(* ===== verification/Authority.v ===== *)
(** * Authority and oracle

    [authority/mod.rs], [authority/state_ext.rs], [authority/component.rs] and
    the actions of the sudo accounts: [action_handler/impls/]
    [validator_update.rs], [sudo_address_change.rs], [ibc_sudo_change.rs],
    [ibc_relayer_change.rs], [fee_change.rs], [fee_asset_change.rs]; the state of the
    price feed ([oracles/price_feed/]) and the actions on currency pairs and markets,
    [currency_pairs_change.rs] and [markets_change.rs]. *)
From S2P Require Import Prelude Denom Types State Chain Accounts.
From stdpp Require Import base list option strings gmap fin_maps.
From Stdlib Require Import ZArith Lia String.
Open Scope string_scope.
Open Scope Z_scope.

(** The trait [ActionHandler]; the stateless check does not see the state. *)
Class ActionHandler (A : Type) := {
  check_stateless : A -> result Report unit;
  check_and_execute : A -> M unit }.

(** ** authority/mod.rs: validator sets *)
Section Keys.
Context `{Sha256}.
Definition validator_address (u : ValidatorUpdate) : address_bytes :=
  key_address (verification_key u).
Definition new_from_updates (updates : list ValidatorUpdate) : ValidatorSet :=
  foldl (fun m u => <[validator_address u := u]> m) ∅ updates.
Definition validator_set_insert (u : ValidatorUpdate) (set : ValidatorSet) : ValidatorSet :=
  <[validator_address u := u]> set.
End Keys.
Definition validator_set_len (set : ValidatorSet) : Z := Z.of_nat (size set).
Definition validator_set_remove (a : address_bytes) (set : ValidatorSet) : ValidatorSet :=
  delete a set.
Definition apply_update (set : ValidatorSet) (au : address_bytes * ValidatorUpdate)
    : ValidatorSet :=
  if power au.2 =? 0 then delete au.1 set else <[au.1 := au.2]> set.
Definition apply_updates (set updates : ValidatorSet) : ValidatorSet :=
  foldl apply_update set (map_to_list updates).

(** ** authority/state_ext.rs *)
Definition get_sudo_address : M address_bytes :=
  o ← gets (fun s => sudo (authority s)); ok_or_eyre o "sudo key not found".
Definition get_block_validator_updates : M ValidatorSet :=
  gets (fun s => default ∅ (block_updates (authority s))).
Definition get_validator (a : address_bytes) : M (option ValidatorUpdate) :=
  gets (fun s => validators (authority s) !! a).
Definition get_validator_count : M Z :=
  o ← gets (fun s => validator_count (authority s));
  ok_or_eyre o "validator count not found in state".
Definition pre_aspen_get_validator_set : M ValidatorSet :=
  o ← gets (fun s => pre_aspen_set (authority s)); ok_or_eyre o "validator set not found".
Definition put_sudo_address (a : address_bytes) : M unit :=
  modify (on_authority (upd_sudo (fun _ => Some a))).
Definition put_block_validator_updates (set : ValidatorSet) : M unit :=
  modify (on_authority (upd_block_updates (fun _ => Some set))).
Definition clear_block_validator_updates : M unit :=
  modify (on_authority (upd_block_updates (fun _ => None))).
Definition remove_validator (a : address_bytes) : M bool :=
  o ← get_validator a;
  match o with
  | None => mret false
  | Some _ => modify (on_authority (upd_validators (delete a)));; mret true
  end.
Definition put_validator `{Sha256} (u : ValidatorUpdate) : M unit :=
  modify (on_authority (upd_validators <[validator_address u := u]>)).
Definition put_validator_count (n : Z) : M unit :=
  modify (on_authority (upd_validator_count (fun _ => Some n))).
Definition pre_aspen_put_validator_set (set : ValidatorSet) : M unit :=
  modify (on_authority (upd_pre_aspen_set (fun _ => Some set))).
Definition aspen_upgrade_remove_validator_set : M unit :=
  modify (on_authority (upd_pre_aspen_set (fun _ => None))).

(** [sudo_address == from], the guard of the sudo actions *)
Definition ensure_sudo (from : address_bytes) (ctx msg : string) : M unit :=
  sudo_address ← wrap_err ctx get_sudo_address;
  ensure_that (String.eqb sudo_address from) msg.

(** ** The actions *)
Definition use_pre_aspen_validator_updates : M bool :=
  o ← wrap_err "getting upgrade change info for validator update action change failed"
        (get_upgrade_change_info ASPEN VALIDATOR_UPDATE_ACTION_CHANGE);
  mret (bool_decide (o = None)).

Section ValidatorUpdate.
Context `{Sha256}.
Definition remove_validator_action (act : ValidatorUpdate) (validator_count : Z) : M unit :=
  ensure_that (1 <? validator_count) "cannot remove the last validator";;
  removed ← wrap_err "failed to remove validator" (remove_validator (validator_address act));
  ensure_that removed "cannot remove a non-existing validator";;
  put_validator_count (saturating_sub validator_count 1).

Definition put_validator_action (act : ValidatorUpdate) (validator_count : Z) : M unit :=
  existing ← wrap_err "failed to get validator" (get_validator (validator_address act));
  match existing with
  | Some _ => mret tt
  | None => wrap_err "failed to put validator count"
              (put_validator_count (saturating_add 64 validator_count 1))
  end;;
  wrap_err "failed to put validator in state" (put_validator act).

Definition pre_aspen_check (act : ValidatorUpdate) : M unit :=
  if power act =? 0 then
    validator_set ← wrap_err "failed to get validator set from state" pre_aspen_get_validator_set;
    ensure_that (bool_decide (is_Some (validator_set !! validator_address act)))
      "cannot remove a non-existing validator";;
    ensure_that (negb (validator_set_len validator_set =? 1)) "cannot remove the last validator"
  else mret tt.

Definition validator_update_execute (act : ValidatorUpdate) : M unit :=
  ctx ← expect_context;
  ensure_sudo (ctx_address_bytes ctx) "failed to get sudo address from state"
    "signer is not the sudo key";;
  pre ← wrap_err "failed to get upgrade status" use_pre_aspen_validator_updates;
  (if pre : bool then pre_aspen_check act
   else
     validator_count ← wrap_err "failed to get validator count" get_validator_count;
     if power act =? 0 then remove_validator_action act validator_count
     else put_validator_action act validator_count);;
  validator_updates ← wrap_err "failed getting validator updates from state"
                        get_block_validator_updates;
  wrap_err "failed to put validator updates in state"
    (put_block_validator_updates (validator_set_insert act validator_updates)).

#[export] Instance action_ValidatorUpdate : ActionHandler ValidatorUpdate :=
  {| check_stateless := fun _ => Ok tt; check_and_execute := validator_update_execute |}.
End ValidatorUpdate.

Definition sudo_address_change_execute (act : SudoAddressChange) : M unit :=
  ctx ← expect_context;
  wrap_err "desired new sudo address has an unsupported prefix"
    (ensure_base_prefix (sac_new_address act));;
  ensure_sudo (ctx_address_bytes ctx) "failed to get sudo address from state"
    "signer is not the sudo key";;
  wrap_err "failed to put sudo address in state"
    (put_sudo_address (addr_bytes (sac_new_address act))).
#[export] Instance action_SudoAddressChange : ActionHandler SudoAddressChange :=
  {| check_stateless := fun _ => Ok tt; check_and_execute := sudo_address_change_execute |}.

Definition ibc_sudo_change_execute (act : IbcSudoChange) : M unit :=
  ctx ← expect_context;
  wrap_err "desired new ibc sudo address has an unsupported prefix"
    (ensure_base_prefix (isc_new_address act));;
  ensure_sudo (ctx_address_bytes ctx) "failed to get sudo address from state"
    "signer is not the sudo key";;
  wrap_err "failed to put ibc sudo address in state"
    (put_ibc_sudo_address (addr_bytes (isc_new_address act))).
#[export] Instance action_IbcSudoChange : ActionHandler IbcSudoChange :=
  {| check_stateless := fun _ => Ok tt; check_and_execute := ibc_sudo_change_execute |}.

Definition relayer_address (act : IbcRelayerChange) : Address :=
  match act with RelayerAddition a | RelayerRemoval a => a end.
Definition ibc_relayer_change_execute (act : IbcRelayerChange) : M unit :=
  ctx ← expect_context;
  wrap_err "failed check for base prefix of provided address to be added/removed"
    (ensure_base_prefix (relayer_address act));;
  ibc_sudo_address ← wrap_err "failed to get IBC sudo address" get_ibc_sudo_address;
  ensure_that (String.eqb ibc_sudo_address (ctx_address_bytes ctx))
    "unauthorized address for IBC relayer change";;
  match act with
  | RelayerAddition a =>
      wrap_err "failed to put IBC relayer address" (put_ibc_relayer_address (addr_bytes a))
  | RelayerRemoval a => delete_ibc_relayer_address (addr_bytes a)
  end.
#[export] Instance action_IbcRelayerChange : ActionHandler IbcRelayerChange :=
  {| check_stateless := fun _ => Ok tt; check_and_execute := ibc_relayer_change_execute |}.

Definition fee_change_put (act : FeeChange) : M unit :=
  match act with
  | FeeChange_Transfer f => put_fees Transfer f
  | FeeChange_RollupDataSubmission f => put_fees RollupDataSubmission f
  | FeeChange_Ics20Withdrawal f => put_fees Ics20Withdrawal f
  | FeeChange_InitBridgeAccount f => put_fees InitBridgeAccount f
  | FeeChange_BridgeLock f => put_fees BridgeLock f
  | FeeChange_BridgeUnlock f => put_fees BridgeUnlock f
  | FeeChange_BridgeSudoChange f => put_fees BridgeSudoChange f
  | FeeChange_IbcRelay f => put_fees IbcRelay f
  | FeeChange_ValidatorUpdate f => put_fees ValidatorUpdate f
  | FeeChange_FeeAssetChange f => put_fees FeeAssetChange f
  | FeeChange_FeeChange f => put_fees FeeChange f
  | FeeChange_IbcRelayerChange f => put_fees IbcRelayerChange f
  | FeeChange_SudoAddressChange f => put_fees SudoAddressChange f
  | FeeChange_IbcSudoChange f => put_fees IbcSudoChange f
  | FeeChange_BridgeTransfer f => put_fees BridgeTransfer f
  | FeeChange_RecoverIbcClient f => put_fees RecoverIbcClient f
  | FeeChange_CurrencyPairsChange f => put_fees CurrencyPairsChange f
  | FeeChange_MarketsChange f => put_fees MarketsChange f
  end.
Definition fee_change_execute (act : FeeChange) : M unit :=
  ctx ← expect_context;
  ensure_sudo (ctx_address_bytes ctx) "failed to get sudo address from state"
    "signer is not the sudo key";;
  fee_change_put act.
#[export] Instance action_FeeChange : ActionHandler FeeChange :=
  {| check_stateless := fun _ => Ok tt; check_and_execute := fee_change_execute |}.

Definition fee_asset_change_execute `{Sha256} (act : FeeAssetChange) : M unit :=
  ctx ← expect_context;
  ensure_sudo (ctx_address_bytes ctx) "failed to get authority sudo address"
    "unauthorized address for fee asset change";;
  match act with
  | FeeAssetAddition asset =>
      wrap_err "failed to write allowed fee asset to state"
        (put_allowed_fee_asset (to_ibc_prefixed asset))
  | FeeAssetRemoval asset =>
      delete_allowed_fee_asset (to_ibc_prefixed asset);;
      remaining ← allowed_fee_assets;
      ensure_that (bool_decide (remaining <> [])) "cannot remove last allowed fee asset"
  end.
#[export] Instance action_FeeAssetChange `{Sha256} : ActionHandler FeeAssetChange :=
  {| check_stateless := fun _ => Ok tt; check_and_execute := fee_asset_change_execute |}.

(** ** authority/component.rs *)
Section Component.
Context `{Sha256}.
Definition authority_init_chain (sudo_address : Address) (genesis : list ValidatorUpdate)
    : M unit :=
  wrap_err "failed to set sudo key" (put_sudo_address (addr_bytes sudo_address));;
  wrap_err "failed to set validator set"
    (pre_aspen_put_validator_set (new_from_updates genesis)).

Definition handle_aspen_upgrade : M unit :=
  validator_set ← wrap_err "failed to get validator set" pre_aspen_get_validator_set;
  wrap_err "failed to remove validator set" aspen_upgrade_remove_validator_set;;
  wrap_err "failed to put validator count" (put_validator_count (validator_set_len validator_set));;
  for_each (fun av => put_validator av.2) (map_to_list validator_set).

Definition begin_block_remove (address : address_bytes) : M unit :=
  removed ← wrap_err "failed to remove validator" (remove_validator address);
  if removed : bool then
    validator_count ← wrap_err "failed to get validator count" get_validator_count;
    wrap_err "failed to put validator count"
      (put_validator_count (saturating_sub validator_count 1))
  else mret tt.

(** [byzantine]: the addresses of the block's misbehaving validators. *)
Definition authority_begin_block (byzantine : list address_bytes) : M unit :=
  pre ← wrap_err "failed to determine upgrade status" use_pre_aspen_validator_updates;
  if pre : bool then
    current_set ← wrap_err "failed getting validator set" pre_aspen_get_validator_set;
    wrap_err "failed putting validator set"
      (pre_aspen_put_validator_set
         (foldl (fun set a => validator_set_remove a set) current_set byzantine))
  else for_each begin_block_remove byzantine.

Definition authority_end_block : M unit :=
  pre ← wrap_err "failed to determine upgrade status" use_pre_aspen_validator_updates;
  if pre : bool then
    validator_updates ← wrap_err "failed getting validator updates" get_block_validator_updates;
    current_set ← wrap_err "failed getting validator set" pre_aspen_get_validator_set;
    wrap_err "failed putting validator set"
      (pre_aspen_put_validator_set (apply_updates current_set validator_updates))
  else mret tt.
End Component.

(** * Price feed: currency pairs and markets

    [oracles/price_feed/oracle/state_ext.rs],
    [oracles/price_feed/market_map/state_ext.rs] and the actions
    [action_handler/impls/currency_pairs_change.rs], [markets_change.rs]. *)

(** ** oracles/price_feed/oracle/state_ext.rs *)
Definition get_currency_pair_id (p : CurrencyPair) : M (option Z) :=
  gets (fun s => pair_ids (oracle s) !! p).
Definition get_currency_pair (i : Z) : M (option CurrencyPair) :=
  gets (fun s => id_pairs (oracle s) !! i).
Definition get_num_currency_pairs : M Z := gets (fun s => default 0 (num_pairs (oracle s))).
Definition get_currency_pair_state (p : CurrencyPair) : M (option CurrencyPairState) :=
  gets (fun s => pair_states (oracle s) !! p).
Definition get_next_currency_pair_id : M Z :=
  gets (fun s => default 0 (next_pair_id (oracle s))).

Definition put_num_currency_pairs (n : Z) : M unit :=
  modify (on_oracle (upd_num_pairs (fun _ => Some n))).
Definition put_currency_pair_id (p : CurrencyPair) (i : Z) : M unit :=
  modify (on_oracle (upd_pair_ids <[p := i]>)).
Definition put_currency_pair (i : Z) (p : CurrencyPair) : M unit :=
  modify (on_oracle (upd_id_pairs <[i := p]>)).
Definition put_currency_pair_state (p : CurrencyPair) (st : CurrencyPairState) : M unit :=
  modify (on_oracle (upd_pair_states <[p := st]>));;
  wrap_err "failed to put currency pair id" (put_currency_pair_id p (pair_id st));;
  wrap_err "failed to put currency pair" (put_currency_pair (pair_id st) p).
Definition put_next_currency_pair_id (i : Z) : M unit :=
  modify (on_oracle (upd_next_pair_id (fun _ => Some i))).

(** [CurrencyPairId::increment] and [CurrencyPairNonce::increment] *)
Definition increment (n : Z) : option Z := checked_add 64 n 1.

Definition put_price_for_currency_pair (p : CurrencyPair) (price : QuotePrice) : M unit :=
  o ← wrap_err "failed to get currency pair state" (get_currency_pair_state p);
  st ← ok_or_eyre o "currency pair state not found";
  nonce ← ok_or_eyre (increment (pair_nonce st)) "increment nonce overflowed";
  wrap_err "failed to put currency pair state"
    (put_currency_pair_state p (mk_pair_state (Some price) nonce (pair_id st))).

Definition remove_currency_pair (p : CurrencyPair) : M bool :=
  o ← wrap_err "failed to get currency pair ID" (get_currency_pair_id p);
  match o with
  | None => mret false
  | Some i =>
      modify (on_oracle (upd_pair_ids (delete p)));;
      modify (on_oracle (upd_id_pairs (delete i)));;
      modify (on_oracle (upd_pair_states (delete p)));;
      mret true
  end.

(** ** currency_pairs_change.rs *)
Definition validate_signer_is_sudo : M unit :=
  ctx ← expect_context;
  ensure_sudo (ctx_address_bytes ctx) "failed to get sudo address from state"
    "signer is not the sudo key".

(** One turn of the loop over the added pairs; the local variables are the next
    id and the number of pairs. *)
Definition add_pair (vars : Z * Z) (p : CurrencyPair) : M (Z * Z) :=
  let '(next_currency_pair_id, num_currency_pairs) := vars in
  o ← wrap_err "failed to get currency pair state" (get_currency_pair_state p);
  match o with
  | Some _ => mret vars
  | None =>
      wrap_err "failed to put currency pair state"
        (put_currency_pair_state p (mk_pair_state None 0 next_currency_pair_id));;
      num ← ok_or_eyre (checked_add 64 num_currency_pairs 1)
              "overflow when incrementing number of currency pairs";
      next ← ok_or_eyre (increment next_currency_pair_id)
               "overflow when incrementing next currency pair id";
      mret (next, num)
  end.

Definition check_and_execute_currency_pairs_addition (pairs : list CurrencyPair) : M unit :=
  validate_signer_is_sudo;;
  next_currency_pair_id ← wrap_err "failed to get next currency pair id"
                            get_next_currency_pair_id;
  num_currency_pairs ← wrap_err "failed to get number of currency pairs" get_num_currency_pairs;
  vars ← fold_each add_pair (next_currency_pair_id, num_currency_pairs) pairs;
  wrap_err "failed to put next currency pair id" (put_next_currency_pair_id vars.1);;
  wrap_err "failed to put number of currency pairs" (put_num_currency_pairs vars.2).

Definition remove_pair (num_currency_pairs : Z) (p : CurrencyPair) : M Z :=
  removed ← wrap_err "failed to delete currency pair" (remove_currency_pair p);
  if removed : bool then
    ok_or_eyre (checked_sub num_currency_pairs 1) "failed to decrement number of currency pairs"
  else mret num_currency_pairs.

Definition check_and_execute_currency_pairs_removal (pairs : list CurrencyPair) : M unit :=
  validate_signer_is_sudo;;
  num_currency_pairs ← wrap_err "failed to get number of currency pairs" get_num_currency_pairs;
  ensure_that (Z.of_nat (List.length pairs) <=? num_currency_pairs)
    "cannot remove more currency pairs than exist";;
  num ← fold_each remove_pair num_currency_pairs pairs;
  wrap_err "failed to put number of currency pairs" (put_num_currency_pairs num).

Definition currency_pairs_change_execute (act : CurrencyPairsChange) : M unit :=
  match act with
  | PairsAddition pairs => check_and_execute_currency_pairs_addition pairs
  | PairsRemoval pairs => check_and_execute_currency_pairs_removal pairs
  end.
#[export] Instance action_CurrencyPairsChange : ActionHandler CurrencyPairsChange :=
  {| check_stateless := fun _ => Ok tt; check_and_execute := currency_pairs_change_execute |}.

(** ** oracles/price_feed/market_map/state_ext.rs *)
Definition get_market_map : M (option MarketMap) := gets (fun s => market_map (markets s)).
Definition get_market_map_last_updated_height : M Z :=
  gets (fun s => default 0 (market_map_height (markets s))).
Definition put_market_map (m : MarketMap) : M unit :=
  modify (on_markets (upd_market_map (fun _ => Some m))).
Definition put_market_map_last_updated_height (h : Z) : M unit :=
  modify (on_markets (upd_market_map_height (fun _ => Some h))).

(** ** markets_change.rs

    [IndexMap]: [contains_key]/[get], [insert] of a new key at the end,
    [shift_remove] and the assignment through [get_mut]. *)
Fixpoint im_get (k : string) (m : MarketMap) : option Market :=
  match m with
  | [] => None
  | (k', v) :: m' => if String.eqb k k' then Some v else im_get k m'
  end.
Definition im_shift_remove (k : string) (m : MarketMap) : MarketMap :=
  filter (fun kv => kv.1 <> k) m.
Fixpoint im_set (k : string) (v : Market) (m : MarketMap) : MarketMap :=
  match m with
  | [] => []
  | (k', v') :: m' => if String.eqb k k' then (k', v) :: m' else (k', v') :: im_set k v m'
  end.

Definition ticker_key (m : Market) : string :=
  currency_pair_to_string (currency_pair (ticker m)).

Definition create_market (market_map : MarketMap) (market : Market) : M MarketMap :=
  match im_get (ticker_key market) market_map with
  | Some _ => bail ("market for ticker " ++ ticker_key market ++ " already exists")
  | None => mret (market_map ++ [(ticker_key market, market)])%list
  end.
Definition update_market (market_map : MarketMap) (market : Market) : M MarketMap :=
  match im_get (ticker_key market) market_map with
  | None => bail ("market for ticker " ++ ticker_key market ++ " not found in market map")
  | Some _ => mret (im_set (ticker_key market) market market_map)
  end.

Definition markets_change_execute (act : MarketsChange) : M unit :=
  validate_signer_is_sudo;;
  o ← wrap_err "failed to get market map" get_market_map;
  market_map ← ok_or_eyre o "market map not found in state";
  market_map' ←
    match act with
    | MarketsCreation create_markets => fold_each create_market market_map create_markets
    | MarketsRemoval remove_markets =>
        mret (foldl (fun m key => im_shift_remove (ticker_key key) m) market_map remove_markets)
    | MarketsUpdate update_markets =>
        ensure_that (bool_decide (market_map <> [])) "market map is empty";;
        fold_each update_market market_map update_markets
    end;
  wrap_err "failed to put market map into state" (put_market_map market_map');;
  height ← wrap_err "failed to get block height" get_block_height;
  wrap_err "failed to update latest market map height"
    (put_market_map_last_updated_height height).
#[export] Instance action_MarketsChange : ActionHandler MarketsChange :=
  {| check_stateless := fun _ => Ok tt; check_and_execute := markets_change_execute |}.
