(* ===== verification/BridgeActions.v ===== *)
(** * Transfers and bridge actions

    [action_handler/mod.rs] and [action_handler/impls/]: [transfer.rs],
    [bridge_lock.rs], [bridge_unlock.rs], [bridge_transfer.rs],
    [init_bridge_account.rs], [bridge_sudo_change.rs],
    [rollup_data_submission.rs]; [utils.rs] for the deposit event. *)
From S2P Require Import Prelude Denom Types State Chain Accounts Authority.
From stdpp Require Import base list option strings gmap.
From Stdlib Require Import ZArith Lia String.
Open Scope string_scope.
Open Scope Z_scope.

(** [utils.rs] *)
Definition create_deposit_event (d : Deposit) : Event := TxDeposit d.

Section Handlers.
Context `{Sha256}.

(** ** action_handler/mod.rs *)
Definition execute_transfer (action : Transfer) (from : address_bytes) : M unit :=
  wrap_err "failed decreasing `from` account balance"
    (decrease_balance from (to_ibc_prefixed (tr_asset action)) (tr_amount action));;
  wrap_err "failed increasing `to` account balance"
    (increase_balance (addr_bytes (tr_to action)) (to_ibc_prefixed (tr_asset action))
                      (tr_amount action)).

Definition check_transfer (action : Transfer) (from : address_bytes) : M unit :=
  wrap_err "failed ensuring that the destination address matches the permitted base prefix"
    (ensure_base_prefix (tr_to action));;
  is_bridge ← wrap_err "failed to check if from address is a bridge account"
                (is_a_bridge_account from);
  (if is_bridge : bool then
     o ← get_transaction_context;
     ctx ← ok_or_eyre o "failed to get transaction context";
     w ← wrap_err "failed to get bridge account withdrawer address"
           (get_bridge_account_withdrawer_address from);
     withdrawer ← ok_or_eyre w "bridge account must have a withdrawer address set";
     ensure_that (String.eqb (ctx_address_bytes ctx) withdrawer)
       "signer is not the authorized withdrawer for the bridge account"
   else mret tt);;
  from_transfer_balance ← wrap_err "failed to get account balance in transfer check"
    (get_account_balance from (to_ibc_prefixed (tr_asset action)));
  ensure_that (tr_amount action <=? from_transfer_balance) "insufficient funds for transfer".

(** ** transfer.rs *)
Definition transfer_execute (act : Transfer) : M unit :=
  ctx ← expect_context;
  let from := ctx_address_bytes ctx in
  rollup_id ← wrap_err "failed to get bridge account rollup id"
                (get_bridge_account_rollup_id from);
  ensure_that (bool_decide (rollup_id = None))
    "cannot transfer out of bridge account; BridgeUnlock must be used";;
  check_transfer act from;;
  execute_transfer act from.
#[export] Instance action_Transfer : ActionHandler Transfer :=
  {| check_stateless := fun _ => Ok tt; check_and_execute := transfer_execute |}.

(** ** rollup_data_submission.rs *)
#[export] Instance action_RollupDataSubmission : ActionHandler RollupDataSubmission :=
  {| check_stateless := fun act =>
       ensure (negb (is_empty (rds_data act))) ["cannot have empty data for sequence action"];
     check_and_execute := fun _ => mret tt |}.

(** ** bridge_lock.rs *)
Definition execute_bridge_lock (bridge_lock : BridgeLock) : M unit :=
  ctx ← expect_context;
  let from := ctx_address_bytes ctx in
  o ← wrap_err "failed to get bridge account rollup id"
        (get_bridge_account_rollup_id (addr_bytes (bl_to bridge_lock)));
  rollup_id ← ok_or_eyre o "bridge lock must be sent to a bridge account";
  deposit_asset ←
    match bl_asset bridge_lock with
    | Denom_TracePrefixed asset => mret asset
    | Denom_IbcPrefixed asset =>
        t ← wrap_err "failed to map IBC asset to trace prefixed asset"
              (map_ibc_to_trace_prefixed_asset asset);
        ok_or_eyre t "mapping from IBC prefixed bridge asset to trace prefixed not found"
    end;
  let deposit := {|
    dep_bridge_address := bl_to bridge_lock;
    dep_rollup_id := rollup_id;
    dep_amount := bl_amount bridge_lock;
    dep_asset := Denom_TracePrefixed deposit_asset;
    dep_destination_chain_address := bl_destination_chain_address bridge_lock;
    dep_source_transaction_id := ctx_transaction_id ctx;
    dep_source_action_index := ctx_position ctx |} in
  let deposit_abci_event := create_deposit_event deposit in
  let transfer_action := {|
    tr_to := bl_to bridge_lock;
    tr_asset := bl_asset bridge_lock;
    tr_amount := bl_amount bridge_lock;
    tr_fee_asset := bl_fee_asset bridge_lock |} in
  check_transfer transfer_action from;;
  execute_transfer transfer_action from;;
  cache_deposit_event deposit;;
  record deposit_abci_event.

Definition bridge_lock_execute (act : BridgeLock) : M unit :=
  ctx ← expect_context;
  is_bridge ← wrap_err "failed to check if signer is a bridge account"
                (is_a_bridge_account (ctx_address_bytes ctx));
  ensure_that (negb is_bridge) "bridge accounts cannot send bridge locks";;
  wrap_err "failed check for base prefix of destination address"
    (ensure_base_prefix (bl_to act));;
  allowed_asset ←
    wrap_err "failed to get bridge account asset ID; account is not a bridge account"
      (get_bridge_account_ibc_asset (addr_bytes (bl_to act)));
  ensure_that (bool_decide (allowed_asset = to_ibc_prefixed (bl_asset act)))
    "asset ID is not authorized for transfer to bridge account";;
  execute_bridge_lock act.
#[export] Instance action_BridgeLock : ActionHandler BridgeLock :=
  {| check_stateless := fun _ => Ok tt; check_and_execute := bridge_lock_execute |}.

(** ** bridge_unlock.rs *)
Definition bridge_unlock_check_stateless (act : BridgeUnlock) : result Report unit :=
  ensure (0 <? bu_amount act) ["amount must be greater than zero"];;
  ensure (String.length (bu_memo act) <=? 64)%nat ["memo must not be more than 64 bytes"];;
  ensure (negb (is_empty (bu_rollup_withdrawal_event_id act)))
    ["rollup withdrawal event id must be non-empty"];;
  ensure (String.length (bu_rollup_withdrawal_event_id act) <=? 256)%nat
    ["rollup withdrawal event id must not be more than 256 bytes"];;
  ensure (0 <? bu_rollup_block_number act) ["rollup block number must be greater than zero"].

Definition check_bridge_unlock (act : BridgeUnlock) : M unit :=
  wrap_err "failed check for base prefix of destination address"
    (ensure_base_prefix (bu_to act));;
  wrap_err "failed check for base prefix of bridge address"
    (ensure_base_prefix (bu_bridge_address act)).

Definition bridge_unlock_execute (act : BridgeUnlock) : M unit :=
  check_bridge_unlock act;;
  to_is_bridge ← wrap_err "failed to check if `to` address is a bridge account"
                   (is_a_bridge_account (addr_bytes (bu_to act)));
  ensure_that (negb to_is_bridge) "bridge accounts cannot receive bridge unlocks";;
  asset ← wrap_err "failed to get bridge's asset id, must be a bridge account"
            (get_bridge_account_ibc_asset (addr_bytes (bu_bridge_address act)));
  let transfer_action := {|
    tr_to := bu_to act;
    tr_asset := Denom_IbcPrefixed asset;
    tr_amount := bu_amount act;
    tr_fee_asset := bu_fee_asset act |} in
  check_transfer transfer_action (addr_bytes (bu_bridge_address act));;
  wrap_err "withdrawal event already processed"
    (check_and_set_withdrawal_event_block_for_bridge_account
       (addr_bytes (bu_bridge_address act)) (bu_rollup_withdrawal_event_id act)
       (bu_rollup_block_number act));;
  execute_transfer transfer_action (addr_bytes (bu_bridge_address act)).
#[export] Instance action_BridgeUnlock : ActionHandler BridgeUnlock :=
  {| check_stateless := bridge_unlock_check_stateless;
     check_and_execute := bridge_unlock_execute |}.

(** ** bridge_transfer.rs *)
Definition bridge_unlock_of (act : BridgeTransfer) : BridgeUnlock := {|
  bu_to := bt_to act;
  bu_amount := bt_amount act;
  bu_memo := "";
  bu_rollup_withdrawal_event_id := bt_rollup_withdrawal_event_id act;
  bu_rollup_block_number := bt_rollup_block_number act;
  bu_fee_asset := bt_fee_asset act;
  bu_bridge_address := bt_bridge_address act |}.

Definition bridge_transfer_execute (act : BridgeTransfer) : M unit :=
  check_bridge_unlock (bridge_unlock_of act);;
  from_asset ← wrap_err "failed to get bridge's asset id, must be a bridge account"
                 (get_bridge_account_ibc_asset (addr_bytes (bt_bridge_address act)));
  to_asset ← wrap_err "failed to get bridge's asset id, must be a bridge account"
               (get_bridge_account_ibc_asset (addr_bytes (bt_to act)));
  ensure_that (bool_decide (from_asset = to_asset)) "bridge accounts must have the same asset";;
  wrap_err "withdrawal event already processed"
    (check_and_set_withdrawal_event_block_for_bridge_account
       (addr_bytes (bt_bridge_address act)) (bt_rollup_withdrawal_event_id act)
       (bt_rollup_block_number act));;
  execute_bridge_lock {|
    bl_to := bt_to act;
    bl_asset := Denom_IbcPrefixed from_asset;
    bl_amount := bt_amount act;
    bl_fee_asset := bt_fee_asset act;
    bl_destination_chain_address := bt_destination_chain_address act |}.
#[export] Instance action_BridgeTransfer : ActionHandler BridgeTransfer :=
  {| check_stateless := fun act => bridge_unlock_check_stateless (bridge_unlock_of act);
     check_and_execute := bridge_transfer_execute |}.

(** ** init_bridge_account.rs *)
Definition ensure_optional_prefix (ctx : string) (o : option Address) : M unit :=
  match o with
  | Some a => wrap_err ctx (ensure_base_prefix a)
  | None => mret tt
  end.

Definition init_bridge_account_execute (act : InitBridgeAccount) : M unit :=
  ctx ← expect_context;
  let from := ctx_address_bytes ctx in
  ensure_optional_prefix "failed check for base prefix of withdrawer address"
    (iba_withdrawer_address act);;
  ensure_optional_prefix "failed check for base prefix of sudo address" (iba_sudo_address act);;
  existing ← wrap_err "failed getting rollup ID of bridge account"
               (get_bridge_account_rollup_id from);
  ensure_that (bool_decide (existing = None)) "bridge account already exists";;
  wrap_err "failed to put bridge account rollup id"
    (put_bridge_account_rollup_id from (iba_rollup_id act));;
  wrap_err "failed to put asset ID"
    (put_bridge_account_ibc_asset from (to_ibc_prefixed (iba_asset act)));;
  put_bridge_account_sudo_address from (default from (addr_bytes <$> iba_sudo_address act));;
  put_bridge_account_withdrawer_address from
    (default from (addr_bytes <$> iba_withdrawer_address act)).
#[export] Instance action_InitBridgeAccount : ActionHandler InitBridgeAccount :=
  {| check_stateless := fun _ => Ok tt; check_and_execute := init_bridge_account_execute |}.

(** ** bridge_sudo_change.rs *)
Definition bridge_sudo_change_execute (act : BridgeSudoChange) : M unit :=
  ctx ← expect_context;
  let bridge_address := addr_bytes (bsc_bridge_address act) in
  wrap_err "failed check for base prefix of bridge address"
    (ensure_base_prefix (bsc_bridge_address act));;
  ensure_optional_prefix "failed check for base prefix of new sudo address"
    (bsc_new_sudo_address act);;
  ensure_optional_prefix "failed check for base prefix of new withdrawer address"
    (bsc_new_withdrawer_address act);;
  o ← wrap_err "failed to get bridge account sudo address"
        (get_bridge_account_sudo_address bridge_address);
  sudo_address ← ok_or_eyre o "bridge account does not have an associated sudo address";
  ensure_that (String.eqb sudo_address (ctx_address_bytes ctx))
    "unauthorized for bridge sudo change action";;
  match bsc_new_sudo_address act with
  | Some a => wrap_err "failed to put bridge account sudo address"
                (put_bridge_account_sudo_address bridge_address (addr_bytes a))
  | None => mret tt
  end;;
  match bsc_new_withdrawer_address act with
  | Some a => wrap_err "failed to put bridge account withdrawer address"
                (put_bridge_account_withdrawer_address bridge_address (addr_bytes a))
  | None => mret tt
  end.
#[export] Instance action_BridgeSudoChange : ActionHandler BridgeSudoChange :=
  {| check_stateless := fun _ => Ok tt; check_and_execute := bridge_sudo_change_execute |}.
End Handlers.
