(* ===== verification/Ics20.v ===== *)
(** * ICS20 transfers

    [action_handler/impls/ics20_withdrawal.rs] (tokens leaving the sequencer)
    and [ibc/ics20_transfer.rs] (tokens arriving, and refunds), with the parts
    of [astria-core-address] they use.  The JSON, bech32 and IBC libraries are
    the class [External]; a report ends where the library's own message would
    start. *)
From S2P Require Import Prelude Denom Types State Chain Accounts Authority.
From S2P Require Import BridgeActions.
From stdpp Require Import base list option strings gmap pretty.
From Stdlib Require Import ZArith Lia Ascii String.
Open Scope string_scope.
Open Scope Z_scope.

Class External := {
  ext_sha256 :: Sha256;
  ext_from_hex :: FromHex;
  (** bech32: [Hrp::parse] succeeds; [CheckedHrpstring::new] gives the human
      readable part and the bytes; [encode_lower]. *)
  hrp_parse : string -> bool;
  bech32m_decode : string -> option (string * string);
  bech32_decode : string -> option (string * string);
  bech32m_encode : string -> string -> string;
  bech32_encode : string -> string -> string;
  (** serde_json *)
  parse_withdrawal_memo : string -> option Ics20WithdrawalFromRollup;
  parse_deposit_memo : string -> option string;
  packet_data_to_json : FungibleTokenPacketData -> string;
  packet_data_from_json : string -> option FungibleTokenPacketData;
  (** [Some b]: an acknowledgement, successful if [b] *)
  ack_from_json : string -> option bool;
  ack_success : string;
  ack_error : string -> string;
  (** penumbra's IBC state machine *)
  send_packet_check : State -> IBCPacket -> Time -> bool;
  write_acknowledgement_check : State -> Packet -> string -> bool }.

(** ** Text of numbers: [u128::to_string] and [str::parse::<u128>] *)
Fixpoint parse_decimal (acc : Z) (s : string) : option Z :=
  match s with
  | EmptyString => Some acc
  | String c s' =>
      if digit c then
        let n := 10 * acc + (Z.of_nat (nat_of_ascii c) - 48) in
        if n <? 2 ^ 128 then parse_decimal n s' else None
      else None
  end.
Definition parse_u128 (s : string) : option Z :=
  match s with
  | EmptyString => None
  | String c s' =>
      if Ascii.eqb c "+" then match s' with "" => None | _ => parse_decimal 0 s' end
      else parse_decimal 0 s
  end.
Definition u128_to_string (n : Z) : string := pretty n.

Section Ics20.
Context `{External}.

(** ** astria-core-address *)
Definition address_try_build (bs p : string) : option Address :=
  if (String.length bs =? 20)%nat then
    if hrp_parse p then Some (mk_address bs p) else None
  else None.
Definition address_to_prefix (a : Address) (p : string) : option Address :=
  address_try_build (addr_bytes a) p.
Definition address_from_str (decode : string -> option (string * string)) (s : string)
    : option Address :=
  '(hrp, bs) ← decode s; address_try_build bs hrp.
Definition address_display (encode : string -> string -> string) (a : Address) : string :=
  encode (addr_prefix a) (addr_bytes a).

(** ** ics20_withdrawal.rs *)
Definition ics20_withdrawal_check_stateless (act : Ics20Withdrawal) : result Report unit :=
  ensure (negb (w_timeout_time act =? 0)) ["timeout time must be non-zero"];;
  ensure (0 <? w_amount act) ["amount must be greater than zero"];;
  match w_bridge_address act with
  | None => Ok tt
  | Some _ =>
      memo ← ok_or ["failed to parse memo for ICS bound bridge withdrawal"]
               (parse_withdrawal_memo (w_memo act));
      ensure (negb (is_empty (memo_rollup_return_address memo)))
        ["rollup return address must be non-empty"];;
      ensure (String.length (memo_rollup_return_address memo) <=? 256)%nat
        ["rollup return address must be no more than 256 bytes"];;
      ensure (negb (is_empty (memo_rollup_withdrawal_event_id memo)))
        ["rollup withdrawal event id must be non-empty"];;
      ensure (String.length (memo_rollup_withdrawal_event_id memo) <=? 256)%nat
        ["rollup withdrawal event id must be no more than 256 bytes"];;
      ensure (negb (memo_rollup_block_number memo =? 0)) ["rollup block number must be non-zero"]
  end.

Definition PORT_TRANSFER : PortId := "transfer".

Definition create_ibc_packet_from_withdrawal (w : Ics20Withdrawal) : M IBCPacket :=
  sender ←
    (if w_use_compat_address w then
       ibc_compat_prefix ← wrap_err
         "need to construct bech32 compatible address for IBC communication but failed reading required prefix from state"
         get_ibc_compat_prefix;
       a ← ok_or_eyre (address_to_prefix (w_return_address w) ibc_compat_prefix)
             "failed to convert the address to the bech32 compatible prefix";
       mret (address_display bech32_encode a)
     else mret (address_display bech32m_encode (w_return_address w)));
  let packet := {|
    pkt_amount := u128_to_string (w_amount w);
    pkt_denom := denom_display (w_denom w);
    pkt_sender := sender;
    pkt_receiver := w_destination_chain_address w;
    pkt_memo := w_memo w |} in
  mret {| source_port := PORT_TRANSFER;
          source_channel := w_source_channel w;
          packet_timeout_height := w_timeout_height w;
          packet_timeout_time := w_timeout_time w;
          packet_data := packet_data_to_json packet |}.

Definition establish_withdrawal_target (act : Ics20Withdrawal) (from : address_bytes)
    : M address_bytes :=
  match w_bridge_address act with
  | Some bridge_address =>
      o ← wrap_err "failed to get bridge withdrawer"
            (get_bridge_account_withdrawer_address (addr_bytes bridge_address));
      withdrawer ← ok_or_eyre o "bridge address must have a withdrawer address set";
      ensure_that (String.eqb withdrawer from)
        "sender does not match bridge withdrawer address; unauthorized";;
      mret (addr_bytes bridge_address)
  | None =>
      is_bridge ← wrap_err "failed to establish whether the sender is a bridge account"
                    (is_a_bridge_account from);
      ensure_that (negb is_bridge)
        "sender cannot be a bridge address if bridge address is not set";;
      mret from
  end.

Definition is_source (port : PortId) (channel : ChannelId) (asset : Denom) : bool :=
  match asset with
  | Denom_TracePrefixed trace =>
      negb (has_leading_port trace port) || negb (has_leading_channel trace channel)
  | Denom_IbcPrefixed _ => false
  end.

Definition set_withdrawal_event (act : Ics20Withdrawal) (bridge_address : Address) : M unit :=
  wrap_err "failed to verify that bridge address address has permitted base prefix"
    (ensure_base_prefix bridge_address);;
  memo ← ok_or_eyre (parse_withdrawal_memo (w_memo act))
           "failed to parse memo for ICS bound bridge withdrawal";
  wrap_err "withdrawal event already processed"
    (check_and_set_withdrawal_event_block_for_bridge_account (addr_bytes bridge_address)
       (memo_rollup_withdrawal_event_id memo) (memo_rollup_block_number memo)).

Definition escrow_withdrawal (act : Ics20Withdrawal) : M unit :=
  let asset := to_ibc_prefixed (w_denom act) in
  channel_balance ← wrap_err "failed to get channel balance"
                      (get_ibc_channel_balance (w_source_channel act) asset);
  b ← ok_or_eyre (checked_add 128 channel_balance (w_amount act))
        "overflow when adding to channel balance";
  wrap_err "failed to update channel balance"
    (put_ibc_channel_balance (w_source_channel act) asset b).

(** [send_packet_execute] hands the packet to the IBC library. *)
Definition send_packet_execute (p : IBCPacket) : M unit :=
  modify (on_ibc (upd_sent_packets (fun l => l ++ [p])%list)).

Definition ics20_withdrawal_execute (act : Ics20Withdrawal) : M unit :=
  ctx ← expect_context;
  let from := ctx_address_bytes ctx in
  wrap_err "failed to verify that return address has permitted base prefix"
    (ensure_base_prefix (w_return_address act));;
  match w_bridge_address act with
  | Some bridge_address => set_withdrawal_event act bridge_address
  | None => mret tt
  end;;
  withdrawal_target ←
    wrap_err "failed establishing which account to withdraw funds from"
      (establish_withdrawal_target act from);
  current_timestamp ← wrap_err "failed to get block timestamp" get_block_timestamp;
  packet ← wrap_err "failed converting the withdrawal action into IBC packet"
             (create_ibc_packet_from_withdrawal act);
  sendable ← gets (fun s => send_packet_check s packet current_timestamp);
  ensure_that sendable "packet failed send check";;
  wrap_err "failed to decrease sender or bridge balance"
    (decrease_balance withdrawal_target (to_ibc_prefixed (w_denom act)) (w_amount act));;
  (if is_source (source_port packet) (source_channel packet) (w_denom act)
   then escrow_withdrawal act else mret tt);;
  send_packet_execute packet.
#[export] Instance action_Ics20Withdrawal : ActionHandler Ics20Withdrawal :=
  {| check_stateless := ics20_withdrawal_check_stateless;
     check_and_execute := ics20_withdrawal_execute |}.

(** ** ics20_transfer.rs *)
Definition MAX_PACKET_DATA_BYTE_LENGTH : nat := 2048.
Definition MAX_ROLLUP_ADDRESS_BYTE_LENGTH : nat := 256.

Definition is_transfer_source_zone (asset : TracePrefixed) (port : PortId) (channel : ChannelId)
    : bool := has_leading_port asset port && has_leading_channel asset channel.
Definition is_refund_source_zone (asset : TracePrefixed) (port : PortId) (channel : ChannelId)
    : bool := negb (is_transfer_source_zone asset port channel).

Definition recv_packet_check (msg : Packet) : M unit :=
  ensure_that (negb (is_empty (data msg))) "packet data is empty";;
  ensure_that (String.length (data msg) <=? MAX_PACKET_DATA_BYTE_LENGTH)%nat
    "packet data is too long: exceeds MAX_PACKET_DATA_BYTE_LENGTH".

Definition parse_asset (input : string) : M TracePrefixed :=
  d ← match denom_from_str input with
      | Ok d => mret d
      | Err _ => bail "failed parsing input as IBC denomination"
      end;
  match d with
  | Denom_TracePrefixed t => mret t
  | Denom_IbcPrefixed i =>
      o ← wrap_err "failed reading state to map ibc prefixed asset to trace prefixed asset"
            (map_ibc_to_trace_prefixed_asset i);
      ok_or_eyre o "could not find trace prefixed counterpart to ibc prefixed asset in state"
  end.

Definition parse_address_on_sequencer (input : string) : M Address :=
  base_prefix ← wrap_err "failed to read base prefix from state" get_base_prefix;
  compat_prefix ← wrap_err "failed to read ibc compat prefix from state" get_ibc_compat_prefix;
  let as_base := addr ← address_from_str bech32m_decode input;
                 if String.eqb (addr_prefix addr) base_prefix then Some addr else None in
  match as_base with
  | Some addr => mret addr
  | None =>
      addr ← ok_or_eyre (address_from_str bech32_decode input)
               "failed to parse address in bech32/compat format";
      ensure_that (String.eqb (addr_prefix addr) compat_prefix)
        "address prefix is not base prefix stored in state";;
      ok_or_eyre (address_to_prefix addr base_prefix)
        "failed to convert ibc compat prefixed address to standard base prefixed address"
  end.

Definition refund_tokens_check (data : string) (source_port : PortId)
    (source_channel : ChannelId) : M unit :=
  packet_data ← ok_or_eyre (packet_data_from_json data)
                  "failed to decode fungible token packet data json";
  asset ← wrap_err ("failed to read packet.denom `" ++ pkt_denom packet_data
                    ++ "` as trace prefixed asset")
            (parse_asset (pkt_denom packet_data));
  if is_refund_source_zone asset source_port source_channel then
    balance ← wrap_err "failed to get channel balance in refund_tokens_check"
                (get_ibc_channel_balance source_channel (trace_to_ibc_prefixed asset));
    packet_amount ← ok_or_eyre (parse_u128 (pkt_amount packet_data))
                      "failed to parse packet amount as u128";
    ensure_that (packet_amount <=? balance) "insufficient balance to refund tokens to sender"
  else mret tt.

Definition timeout_packet_check (msg : Packet) : M unit :=
  refund_tokens_check (data msg) (port_on_a msg) (chan_on_a msg).
Definition acknowledge_packet_check (msg : Packet) (acknowledgement : string) : M unit :=
  successful ← ok_or_eyre (ack_from_json acknowledgement) "invalid acknowledgement";
  if successful : bool then mret tt
  else refund_tokens_check (data msg) (port_on_a msg) (chan_on_a msg).

Definition emit_deposit (bridge_address : Address) (destination_chain_address : string)
    (asset : TracePrefixed) (amount : Z) : M unit :=
  o ← wrap_err "failed to get bridge account rollup ID from state"
        (get_bridge_account_rollup_id (addr_bytes bridge_address));
  rollup_id ← ok_or_eyre o
    "bridge account rollup ID not found in state; invalid bridge address?";
  allowed_asset ← wrap_err "failed to get bridge account asset ID"
                    (get_bridge_account_ibc_asset (addr_bytes bridge_address));
  ensure_that (bool_decide (allowed_asset = trace_to_ibc_prefixed asset))
    ("asset `" ++ trace_prefixed_display asset ++ "` with ID `"
     ++ ibc_prefixed_display (trace_to_ibc_prefixed asset)
     ++ "` is not authorized for transfer to bridge account");;
  c ← get_transaction_context;
  ctx ← ok_or_eyre c "transaction source should be present in state when executing an action";
  let deposit := {|
    dep_bridge_address := bridge_address;
    dep_rollup_id := rollup_id;
    dep_amount := amount;
    dep_asset := Denom_TracePrefixed asset;
    dep_destination_chain_address := destination_chain_address;
    dep_source_transaction_id := ctx_transaction_id ctx;
    dep_source_action_index := ctx_position ctx |} in
  record (create_deposit_event deposit);;
  cache_deposit_event deposit.

Definition emit_bridge_lock_deposit (bridge_address : Address) (asset : TracePrefixed)
    (amount : Z) (memo : string) : M unit :=
  rollup_deposit_address ← ok_or_eyre (parse_deposit_memo memo)
    "failed to parse memo as Ics20TransferDepositMemo";
  ensure_that (negb (is_empty rollup_deposit_address))
    "rollup deposit address must be set to bridge funds from sequencer to rollup";;
  ensure_that (String.length rollup_deposit_address <=? MAX_ROLLUP_ADDRESS_BYTE_LENGTH)%nat
    "rollup address is too long: exceeds MAX_ROLLUP_ADDRESS_BYTE_LENGTH";;
  emit_deposit bridge_address rollup_deposit_address asset amount.

(** The asset as the sequencer names it once received, and whether it is
    returning to its origin. *)
Definition received_asset (asset : TracePrefixed) (packet : Packet)
    : M (bool * TracePrefixed) :=
  if is_transfer_source_zone asset (port_on_a packet) (chan_on_a packet)
  then mret (true, (pop_leading_port_and_channel asset).1)
  else
    t ← expect (match trace_prefixed_from_str
                        (port_on_b packet ++ "/" ++ chan_on_b packet ++ "/"
                         ++ trace_prefixed_display asset) with
                | Ok t => Some t
                | Err _ => None
                end);
    mret (false, t).

Definition receive_tokens (packet : Packet) : M unit :=
  packet_data ← ok_or_eyre (packet_data_from_json (data packet))
                  "failed to deserialize fungible token packet data";
  amount ← ok_or_eyre (parse_u128 (pkt_amount packet_data))
             "failed to parse packet data amount to u128";
  recipient ← wrap_err ("failed parsing packet.receiver `" ++ pkt_receiver packet_data
                        ++ "` as the recipient address")
                (parse_address_on_sequencer (pkt_receiver packet_data));
  sent_asset ← wrap_err ("failed reading asset `" ++ pkt_denom packet_data
                         ++ "` from packet data")
                 (parse_asset (pkt_denom packet_data));
  '(is_source, asset) ← received_asset sent_asset packet;
  rollup ← wrap_err "failed to get bridge account rollup ID from state"
             (get_bridge_account_rollup_id (addr_bytes recipient));
  match rollup with
  | Some _ =>
      wrap_err "failed to execute ics20 transfer to bridge account"
        (emit_bridge_lock_deposit recipient asset amount (pkt_memo packet_data))
  | None => mret tt
  end;;
  (if is_source : bool then
     wrap_err "failed to deduct funds from IBC escrow account"
       (decrease_ibc_channel_balance (chan_on_b packet) (trace_to_ibc_prefixed asset) amount)
   else
     known ← wrap_err "failed to check if IBC asset exists in state" (has_ibc_asset asset);
     if known : bool then mret tt
     else wrap_err "failed to write IBC asset to state" (put_ibc_asset asset));;
  wrap_err "failed to update user account balance"
    (increase_balance (addr_bytes recipient) (trace_to_ibc_prefixed asset) amount).

Definition does_failed_transfer_come_from_rollup (packet_data : FungibleTokenPacketData)
    : option Ics20WithdrawalFromRollup := parse_withdrawal_memo (pkt_memo packet_data).

Definition refund_tokens_to_sequencer_address (recipient : Address) (asset : TracePrefixed)
    (amount : Z) (source_port : PortId) (source_channel : ChannelId) : M unit :=
  (if is_refund_source_zone asset source_port source_channel then
     wrap_err "failed to withdraw refund amount from escrow account"
       (decrease_ibc_channel_balance source_channel (trace_to_ibc_prefixed asset) amount)
   else mret tt);;
  wrap_err "failed to update user account balance when refunding"
    (increase_balance (addr_bytes recipient) (trace_to_ibc_prefixed asset) amount).

Definition refund_tokens (packet : Packet) : M unit :=
  packet_data ← ok_or_eyre (packet_data_from_json (data packet))
                  "failed to deserialize fungible token packet data";
  amount ← ok_or_eyre (parse_u128 (pkt_amount packet_data))
             "failed to parse packet data amount to u128";
  receiver ← wrap_err ("failed parsing packet.sender `" ++ pkt_sender packet_data
                       ++ "` as the return address")
               (parse_address_on_sequencer (pkt_sender packet_data));
  asset ← wrap_err ("failed parsing packet.asset `" ++ pkt_denom packet_data ++ "`")
            (parse_asset (pkt_denom packet_data));
  match does_failed_transfer_come_from_rollup packet_data with
  | Some memo =>
      wrap_err "failed to emit deposit for refunding tokens to rollup"
        (emit_deposit receiver (memo_rollup_return_address memo) asset amount)
  | None => mret tt
  end;;
  wrap_err "failed to refund a sequencer address"
    (refund_tokens_to_sequencer_address receiver asset amount (port_on_a packet)
       (chan_on_a packet)).

(** [format!("{e:#}")]: the messages of the report in one line *)
Definition format_report (e : Report) : string := String.concat ": " e.

(** [write_acknowledgement] hands the acknowledgement to the IBC library. *)
Definition write_acknowledgement (packet : Packet) (ack : string) : M unit :=
  writable ← gets (fun s => write_acknowledgement_check s packet ack);
  ensure_that writable "failed to write acknowledgement";;
  modify (on_ibc (upd_acks (fun l => l ++ [(packet, ack)])%list)).

(** [match receive_tokens(..).await { Ok(()) => .., Err(e) => .. }]: what
    [receive_tokens] wrote before an error stays in the state. *)
Definition receive_or_report (packet : Packet) : M (option Report) := fun s =>
  match receive_tokens packet s with
  | (Done _, s') => (Done None, s')
  | (Fail e, s') => (Done (Some e), s')
  | (Crash, s') => (Crash, s')
  end.

Definition recv_packet_execute (packet : Packet) : M unit :=
  change ← wrap_err "failed to read upgrade info"
             (get_upgrade_change_info ASPEN IBC_ACKNOWLEDGEMENT_FAILURE_CHANGE);
  failure ← receive_or_report packet;
  let ack := match failure with
             | None => ack_success
             | Some e =>
                 ack_error (if bool_decide (is_Some change) then "ics20 transfer failed"
                            else format_report e)
             end in
  write_acknowledgement packet ack.

Definition timeout_packet_execute (packet : Packet) : M unit :=
  wrap_err "failed to refund tokens during timeout_packet_execute" (refund_tokens packet).
Definition acknowledge_packet_execute (packet : Packet) (acknowledgement : string) : M unit :=
  successful ← ok_or_eyre (ack_from_json acknowledgement)
                 "failed to deserialize token transfer acknowledgement";
  if successful : bool then mret tt
  else wrap_err "failed to refund tokens" (refund_tokens packet).
End Ics20.
