(* ===== verification/Relay.v ===== *)
(** * Relayed messages and client recovery

    The IBC library runs a relayed message around the handlers of
    [ibc/ics20_transfer.rs], and [action_handler/impls/recover_ibc_client.rs] works on
    its client store.  The library's messages, checks and writes are the class
    [Relay]; what it writes goes to its own entries of the store. *)
From S2P Require Import Prelude Denom Types State Chain Accounts Authority BridgeActions Ics20.
From stdpp Require Import base list option strings gmap fin_maps pretty.
From Stdlib Require Import ZArith Lia String.
Open Scope string_scope.
Open Scope Z_scope.

(** [penumbra_ibc::IbcRelay], as far as the handlers look at it *)
Inductive RelayedMessage :=
| MsgChannelOpenInit (unordered : bool) (version_proposal : string)
| MsgChannelOpenTry (unordered : bool) (version_supported_on_a : string)
| MsgChannelOpenAck (version_on_b : string)
| MsgChannelOpenConfirm
| MsgChannelCloseInit
| MsgChannelCloseConfirm
| MsgRecvPacket (packet : Packet)
| MsgAcknowledgement (packet : Packet) (acknowledgement : string)
| MsgTimeout (packet : Packet)
| OtherMessage.

(** [ibc_types::lightclients::tendermint::client_state::ClientState] *)
Definition Height : Type := Z * Z.
Definition height_ltb (a b : Height) : bool := (a.1 <? b.1) || ((a.1 =? b.1) && (a.2 <? b.2)).
Inductive ClientStatus := Active | Frozen | Expired | Unknown | Unauthorized.
#[export] Instance ClientStatus_eq_dec : EqDecision ClientStatus.
Proof. solve_decision. Defined.
Record ClientState := mk_client_state {
  client_chain_id : string;
  trust_level : Z * Z;
  trusting_period : Z;
  unbonding_period : Z;
  max_clock_drift : Z;
  latest_height : Height;
  proof_specs : string;
  upgrade_path : list string;
  allow_update : bool * bool;
  frozen_height : option Height }.

(** The library: what a message is, its checks before the handler (proofs,
    sequence numbers, timeouts), and the entries it has afterwards with the events it
    records; its work at both ends of a block; and its client store. *)
Class Relay := {
  relay_check_stateless : IbcRelay -> bool;
  relay_message : IbcRelay -> RelayedMessage;
  relay_checks : IbcRelay -> State -> result Report unit;
  relay_writes : IbcRelay -> State -> gmap string string * list Event;
  ibc_begin_block : State -> gmap string string;
  ibc_end_block : State -> gmap string string;
  get_client_status : State -> string -> Time -> ClientStatus;
  get_client_state : State -> string -> option ClientState;
  get_verified_consensus_state : State -> Height -> string -> option string;
  put_verified_consensus_state : State -> Height -> string -> string -> option (gmap string string);
  put_client : State -> string -> ClientState -> gmap string string }.

Section Relay.
Context `{External, Relay}.

(** What the library writes to its entries *)
Definition library_put (f : State -> gmap string string) : M unit :=
  modify (fun s => on_ibc (upd_library (fun _ => f s)) s).

(** ** ics20_transfer.rs: [AppHandlerCheck] and [AppHandlerExecute] *)
Definition ics20_version : string := "ics20-1".
Definition handler_check (msg : RelayedMessage) : M unit :=
  match msg with
  | MsgChannelOpenInit unordered version =>
      ensure_that unordered "channel order must be unordered for Ics20 transfer";;
      ensure_that (String.eqb version ics20_version) "channel version must be ics20-1 for Ics20 transfer"
  | MsgChannelOpenTry unordered version =>
      ensure_that unordered "channel order must be unordered for Ics20 transfer";;
      ensure_that (String.eqb version ics20_version) "counterparty version must be ics20-1 for Ics20 transfer"
  | MsgChannelOpenAck version =>
      ensure_that (String.eqb version ics20_version) "counterparty version must be ics20-1 for Ics20 transfer"
  | MsgChannelCloseInit => bail "ics20 always aborts on chan_close_init"
  | MsgRecvPacket packet => recv_packet_check packet
  | MsgAcknowledgement packet acknowledgement => acknowledge_packet_check packet acknowledgement
  | MsgTimeout packet => timeout_packet_check packet
  | MsgChannelOpenConfirm | MsgChannelCloseConfirm | OtherMessage => mret tt
  end.
Definition handler_execute (msg : RelayedMessage) : M unit :=
  match msg with
  | MsgRecvPacket packet => recv_packet_execute packet
  | MsgAcknowledgement packet acknowledgement => acknowledge_packet_execute packet acknowledgement
  | MsgTimeout packet => timeout_packet_execute packet
  | _ => mret tt
  end.
(** The library calls the handler's check after its own, and its execution after its
    own writes. *)
Definition relay_check_and_execute (act : IbcRelay) : M unit :=
  checked ← gets (relay_checks act);
  match checked with Ok _ => mret tt | Err e => fun s => (Fail e, s) end;;
  handler_check (relay_message act);;
  written ← gets (relay_writes act);
  library_put (fun _ => written.1);;
  modify (on_events (fun l => l ++ written.2)%list);;
  handler_execute (relay_message act).

(** ** recover_ibc_client.rs *)
Definition ensure_required_client_state_fields_match (client_state replacement_client_state : ClientState) : M unit :=
  ensure_that (bool_decide (trust_level client_state = trust_level replacement_client_state))
    "substitute client trust level must match subject client trust level";;
  ensure_that (unbonding_period client_state =? unbonding_period replacement_client_state)
    "substitute client unbonding period must match subject client unbonding period";;
  ensure_that (max_clock_drift client_state =? max_clock_drift replacement_client_state)
    "substitute client max clock drift must match subject client max clock drift";;
  ensure_that (String.eqb (proof_specs client_state) (proof_specs replacement_client_state))
    "substitute client proof specs must match subject client proof specs";;
  ensure_that (bool_decide (upgrade_path client_state = upgrade_path replacement_client_state))
    "substitute client upgrade path must match subject client upgrade path".
Definition recovered_client (client_state replacement_client_state : ClientState) : ClientState :=
  mk_client_state (client_chain_id replacement_client_state) (trust_level client_state)
    (trusting_period replacement_client_state) (unbonding_period client_state) (max_clock_drift client_state)
    (latest_height replacement_client_state) (proof_specs client_state) (upgrade_path client_state)
    (allow_update client_state) (frozen_height client_state).
Definition recover_ibc_client_execute (act : RecoverIbcClient) : M unit :=
  ctx ← expect_context;
  ensure_sudo (ctx_address_bytes ctx) "failed to get sudo address"
    "only the sudo address can recover a client";;
  timestamp ← wrap_err "failed to get timestamp" get_block_timestamp;
  client_status ← gets (fun s => get_client_status s (client_id act) timestamp);
  ensure_that (negb (bool_decide (client_status = Active))) "cannot recover an active client";;
  replacement_client_status ← gets (fun s => get_client_status s (replacement_client_id act) timestamp);
  ensure_that (bool_decide (replacement_client_status = Active)) "substitute client must be active";;
  o ← gets (fun s => get_client_state s (client_id act));
  client_state ← ok_or_eyre o "subject client state not found";
  o ← gets (fun s => get_client_state s (replacement_client_id act));
  replacement_client_state ← ok_or_eyre o "substitute client state not found";
  ensure_that (height_ltb (latest_height client_state) (latest_height replacement_client_state))
    "substitute client must have a higher height than that of subject client";;
  ensure_required_client_state_fields_match client_state replacement_client_state;;
  o ← gets (fun s => get_verified_consensus_state s (latest_height replacement_client_state) (replacement_client_id act));
  substitute_consensus_state ← ok_or_eyre o "failed to get verified consensus state";
  o ← gets (fun s => put_verified_consensus_state s (latest_height replacement_client_state) (client_id act)
                       substitute_consensus_state);
  written ← ok_or_eyre o "failed to put verified consensus state";
  library_put (fun _ => written);;
  library_put (fun s => put_client s (client_id act) (recovered_client client_state replacement_client_state)).
#[export] Instance action_RecoverIbcClient : ActionHandler RecoverIbcClient :=
  {| check_stateless := fun _ => Ok tt; check_and_execute := recover_ibc_client_execute |}.
End Relay.
