(* ===== verification/Transact.v ===== *)
(** * Executing a transaction

    [fees/query.rs] and [transaction/checks.rs] (the cost of a transaction),
    [action_handler/impls/transaction.rs] (its execution), and
    [App::execute_transaction], [App::begin_block] and [App::end_block] of
    [app/mod.rs]. *)
From S2P Require Import Prelude Denom Types State Chain Accounts Authority.
From S2P Require Import BridgeActions Ics20 Relay.
From stdpp Require Import base list option strings gmap fin_maps pretty.
From Stdlib Require Import ZArith Lia String.
Open Scope string_scope.
Open Scope Z_scope.

Section Transact.
Context `{External, Relay}.

(** ** fees/query.rs *)
Definition add_cost (asset : IbcPrefixed) (amount : Z) (m : gmap IbcPrefixed Z)
    : gmap IbcPrefixed Z :=
  match m !! asset with
  | Some amt => <[asset := saturating_add 128 amt amount]> m
  | None => <[asset := amount]> m
  end.

Definition calculate_and_add_fees {F} `{FeeHandler F} (action : F)
    (fees_by_asset : gmap IbcPrefixed Z) (f : FeeComponents) : gmap IbcPrefixed Z :=
  match to_ibc_prefixed <$> fee_asset action with
  | None => fees_by_asset
  | Some asset =>
      let total_fees :=
        saturating_add 128 (base f) (saturating_mul 128 (multiplier f) (variable_component action)) in
      add_cost asset total_fees fees_by_asset
  end.

Definition get_or_init_fees (F : Type) `{FeeHandler F} : M FeeComponents :=
  o ← wrap_err ("failed to get fees for `" ++ fh_snake_case_name F ++ "` action") (get_fees F);
  ok_or_eyre o ("fees not found for `" ++ fh_snake_case_name F
                ++ "` action, hence it is disabled").

Definition add_fees_for {F} `{FeeHandler F} (act : F) (m : gmap IbcPrefixed Z)
    : M (gmap IbcPrefixed Z) :=
  f ← get_or_init_fees F; mret (calculate_and_add_fees act m f).

Definition add_action_fees (m : gmap IbcPrefixed Z) (action : Action) : M (gmap IbcPrefixed Z) :=
  match action with
  | Action_Transfer act => add_fees_for act m
  | Action_RollupDataSubmission act => add_fees_for act m
  | Action_Ics20Withdrawal act => add_fees_for act m
  | Action_InitBridgeAccount act => add_fees_for act m
  | Action_BridgeLock act => add_fees_for act m
  | Action_BridgeUnlock act => add_fees_for act m
  | Action_BridgeTransfer act => add_fees_for act m
  | Action_BridgeSudoChange act => add_fees_for act m
  | Action_ValidatorUpdate act => add_fees_for act m
  | Action_SudoAddressChange act => add_fees_for act m
  | Action_IbcSudoChange act => add_fees_for act m
  | Action_Ibc act => add_fees_for act m
  | Action_IbcRelayerChange act => add_fees_for act m
  | Action_FeeAssetChange act => add_fees_for act m
  | Action_FeeChange act => add_fees_for act m
  | Action_RecoverIbcClient act => add_fees_for act m
  | Action_CurrencyPairsChange act => add_fees_for act m
  | Action_MarketsChange act => add_fees_for act m
  end.
Definition get_fees_for_transaction (actions : list Action) : M (gmap IbcPrefixed Z) :=
  fold_each add_action_fees ∅ actions.

(** ** transaction/checks.rs *)
Definition add_action_transfers (cost : gmap IbcPrefixed Z) (action : Action)
    : M (gmap IbcPrefixed Z) :=
  match action with
  | Action_Transfer act => mret (add_cost (to_ibc_prefixed (tr_asset act)) (tr_amount act) cost)
  | Action_Ics20Withdrawal act =>
      mret (add_cost (to_ibc_prefixed (w_denom act)) (w_amount act) cost)
  | Action_BridgeLock act => mret (add_cost (to_ibc_prefixed (bl_asset act)) (bl_amount act) cost)
  | Action_BridgeUnlock act =>
      asset ← wrap_err "failed to get bridge account asset id"
                (get_bridge_account_ibc_asset (addr_bytes (bu_bridge_address act)));
      mret (add_cost asset (bu_amount act) cost)
  | Action_BridgeTransfer act =>
      asset ← wrap_err "failed to get bridge account asset id"
                (get_bridge_account_ibc_asset (addr_bytes (bt_bridge_address act)));
      mret (add_cost asset (bt_amount act) cost)
  | _ => mret cost
  end.
Definition add_total_transfers_for_transaction (tx : Transaction) (cost : gmap IbcPrefixed Z)
    : M (gmap IbcPrefixed Z) := fold_each add_action_transfers cost (tx_actions tx).

Definition get_total_transaction_cost (tx : Transaction) : M (gmap IbcPrefixed Z) :=
  cost_by_asset ← wrap_err "failed to get fees for transaction"
                    (get_fees_for_transaction (tx_actions tx));
  wrap_err "failed to add total transfers for transaction"
    (add_total_transfers_for_transaction tx cost_by_asset).

Definition check_balance_for_total_fees_and_transfers (tx : Transaction) : M unit :=
  cost_by_asset ← wrap_err "failed to get transaction costs" (get_total_transaction_cost tx);
  for_each (fun af =>
    balance ← wrap_err "failed to get account balance"
                (get_account_balance (tx_address_bytes tx) af.1);
    ensure_that (af.2 <=? balance)
      ("insufficient funds for asset " ++ ibc_prefixed_display af.1)) (map_to_list cost_by_asset).

Definition check_chain_id_mempool (tx : Transaction) : M unit :=
  id ← wrap_err "failed to get chain id" get_chain_id;
  ensure_that (String.eqb (tx_chain_id tx) id) "chain id mismatch".

(** ** transaction.rs *)
Definition check_action_stateless (action : Action) : result Report unit :=
  let ctx msg r := map_err (cons msg) r in
  match action with
  | Action_Transfer act => ctx "stateless check failed for Transfer action" (check_stateless act)
  | Action_RollupDataSubmission act =>
      ctx "stateless check failed for RollupDataSubmission action" (check_stateless act)
  | Action_ValidatorUpdate act =>
      ctx "stateless check failed for ValidatorUpdate action" (check_stateless act)
  | Action_SudoAddressChange act =>
      ctx "stateless check failed for SudoAddressChange action" (check_stateless act)
  | Action_IbcSudoChange act =>
      ctx "stateless check failed for IbcSudoChange action" (check_stateless act)
  | Action_FeeChange act => ctx "stateless check failed for FeeChange action" (check_stateless act)
  | Action_Ibc act =>
      ensure (relay_check_stateless act) ["stateless check failed for Ibc action"]
  | Action_Ics20Withdrawal act =>
      ctx "stateless check failed for Ics20Withdrawal action" (check_stateless act)
  | Action_IbcRelayerChange act =>
      ctx "stateless check failed for IbcRelayerChange action" (check_stateless act)
  | Action_FeeAssetChange act =>
      ctx "stateless check failed for FeeAssetChange action" (check_stateless act)
  | Action_InitBridgeAccount act =>
      ctx "stateless check failed for InitBridgeAccount action" (check_stateless act)
  | Action_BridgeLock act =>
      ctx "stateless check failed for BridgeLock action" (check_stateless act)
  | Action_BridgeUnlock act =>
      ctx "stateless check failed for BridgeUnlock action" (check_stateless act)
  | Action_BridgeTransfer act =>
      ctx "stateless check failed for BridgeTransfer action" (check_stateless act)
  | Action_BridgeSudoChange act =>
      ctx "stateless check failed for BridgeSudoChange action" (check_stateless act)
  | Action_RecoverIbcClient act =>
      ctx "stateless check failed for RecoverIbcClient action" (check_stateless act)
  | Action_CurrencyPairsChange act =>
      ctx "stateless check failed for CurrencyPairsChange action" (check_stateless act)
  | Action_MarketsChange act =>
      ctx "stateless check failed for MarketsChange action" (check_stateless act)
  end.
Fixpoint check_actions_stateless (l : list Action) : result Report unit :=
  match l with
  | [] => Ok tt
  | a :: l' => check_action_stateless a;; check_actions_stateless l'
  end.
Definition transaction_check_stateless (tx : Transaction) : result Report unit :=
  ensure (bool_decide (tx_actions tx <> [])) ["must have at least one action"];;
  check_actions_stateless (tx_actions tx).

Definition check_execute_and_pay_fees {F} `{ActionHandler F, FeeHandler F} (action : F) : M unit :=
  check_and_execute action;; check_and_pay_fees action.

Definition execute_action (tx : Transaction) (action : Action) : M unit :=
  match action with
  | Action_Transfer act =>
      wrap_err "executing transfer action failed" (check_execute_and_pay_fees act)
  | Action_RollupDataSubmission act =>
      wrap_err "executing sequence action failed" (check_execute_and_pay_fees act)
  | Action_ValidatorUpdate act =>
      wrap_err "executing validor update" (check_execute_and_pay_fees act)
  | Action_SudoAddressChange act =>
      wrap_err "executing sudo address change failed" (check_execute_and_pay_fees act)
  | Action_IbcSudoChange act =>
      wrap_err "executing ibc sudo change failed" (check_execute_and_pay_fees act)
  | Action_FeeChange act =>
      wrap_err "executing fee change failed" (check_execute_and_pay_fees act)
  | Action_Ibc act =>
      relayer ← wrap_err "failed to check if address is IBC relayer"
                  (is_ibc_relayer (tx_address_bytes tx));
      ensure_that relayer "only IBC sudo address can execute IBC actions";;
      wrap_err "failed executing ibc action" (relay_check_and_execute act)
  | Action_Ics20Withdrawal act =>
      wrap_err "failed executing ics20 withdrawal" (check_execute_and_pay_fees act)
  | Action_IbcRelayerChange act =>
      wrap_err "failed executing ibc relayer change" (check_execute_and_pay_fees act)
  | Action_FeeAssetChange act =>
      wrap_err "failed executing fee asseet change" (check_execute_and_pay_fees act)
  | Action_InitBridgeAccount act =>
      wrap_err "failed executing init bridge account" (check_execute_and_pay_fees act)
  | Action_BridgeLock act =>
      wrap_err "failed executing bridge lock" (check_execute_and_pay_fees act)
  | Action_BridgeUnlock act =>
      wrap_err "failed executing bridge unlock" (check_execute_and_pay_fees act)
  | Action_BridgeTransfer act =>
      wrap_err "failed executing bridge transfer" (check_execute_and_pay_fees act)
  | Action_BridgeSudoChange act =>
      wrap_err "failed executing bridge sudo change" (check_execute_and_pay_fees act)
  | Action_RecoverIbcClient act =>
      wrap_err "failed executing recover ibc client" (check_execute_and_pay_fees act)
  | Action_CurrencyPairsChange act =>
      wrap_err "failed executing currency pairs change" (check_execute_and_pay_fees act)
  | Action_MarketsChange act =>
      wrap_err "failed executing markets change" (check_execute_and_pay_fees act)
  end.

(** The loop over the actions, from position [i]. *)
Fixpoint execute_actions (tx : Transaction) (ctx : TransactionContext) (i : Z) (l : list Action)
    : M unit :=
  match l with
  | [] => mret tt
  | action :: l' =>
      put_transaction_context (mk_context (ctx_address_bytes ctx) (ctx_transaction_id ctx) i);;
      execute_action tx action;;
      execute_actions tx ctx (i + 1) l'
  end.

Definition transaction_check_and_execute (tx : Transaction) : M unit :=
  transaction_context ← put_transaction_context (transaction_context_of tx);
  id ← get_chain_id;
  ensure_that (String.eqb (tx_chain_id tx) id)
    ("provided chain id " ++ tx_chain_id tx ++ " does not match expected chain id");;
  curr_nonce ← wrap_err "failed to get nonce for transaction signer"
                 (get_account_nonce (tx_address_bytes tx));
  ensure_that (curr_nonce =? tx_nonce tx)
    ("provided nonce " ++ pretty (tx_nonce tx) ++ " does not match expected next nonce");;
  wrap_err "failed to check balance for total fees and transfers"
    (check_balance_for_total_fees_and_transfers tx);;
  rollup ← wrap_err "failed to check account rollup id"
             (get_bridge_account_rollup_id (tx_address_bytes tx));
  match rollup with
  | Some _ =>
      wrap_err "failed to put last transaction id for bridge account"
        (put_last_transaction_id_for_bridge_account (tx_address_bytes tx)
           (ctx_transaction_id transaction_context))
  | None => mret tt
  end;;
  from_nonce ← wrap_err "failed getting nonce of transaction signer"
                 (get_account_nonce (tx_address_bytes tx));
  next_nonce ← ok_or_eyre (checked_add 32 from_nonce 1)
                 "overflow occurred incrementing stored nonce";
  wrap_err "failed updating `from` nonce" (put_account_nonce (tx_address_bytes tx) next_nonce);;
  execute_actions tx transaction_context 0 (tx_actions tx);;
  delete_current_transaction_context.

(** ** app/mod.rs

    [execute_transaction] works on a delta over the state, which is applied
    only when the execution succeeds.  The events are returned and not kept. *)
Definition execute_transaction (tx : Transaction) (s : State) : outcome (list Event) * State :=
  match transaction_check_stateless tx with
  | Err e => (Fail ("stateless check failed" :: e), s)
  | Ok _ =>
      match transaction_check_and_execute tx (on_events (fun _ => []) s) with
      | (Done _, s') => (Done (events s'), on_events (fun _ => events s) s')
      | (Fail e, _) => (Fail ("failed executing transaction" :: e), s)
      | (Crash, _) => (Crash, s)
      end
  end.

Definition app_begin_block (height : Z) (time : Time) (byzantine : list address_bytes) : M unit :=
  wrap_err "failed to put block height" (put_block_height height);;
  wrap_err "failed to put block timestamp" (put_block_timestamp time);;
  wrap_err "begin_block failed on AuthorityComponent" (authority_begin_block byzantine);;
  library_put ibc_begin_block.

Definition pay_block_fees (fee_recipient : address_bytes) (l : list Fee) : M unit :=
  for_each (fun fee =>
    wrap_err "failed to increase fee recipient balance"
      (increase_balance fee_recipient (to_ibc_prefixed (fee_denom fee)) (fee_amount fee))) l.

(** Returns the validator updates of the block; their conversion for CometBFT, whose
    keys are 32 bytes and whose powers are [u32]s, cannot fail.  The components of
    accounts and fees do nothing at either end of a block. *)
Definition app_end_block (fee_recipient : address_bytes) : M ValidatorSet :=
  validator_updates ← get_block_validator_updates;
  l ← get_block_fees;
  wrap_err "end_block failed on AuthorityComponent" authority_end_block;;
  library_put ibc_end_block;;
  clear_block_validator_updates;;
  pay_block_fees fee_recipient l;;
  mret validator_updates.
End Transact.
