(* ===== verification/Conservation.v ===== *)
(** * Effects of successful runs

    A small program logic: [ensures R m] says that a run of [m] that succeeds
    takes the state along the relation [R].  For a preorder [R] it composes
    along the monad, so a fact about a whole transaction follows from the facts
    about the few writes that matter to it. *)
From S2P Require Import Prelude Denom Types State Chain Accounts Authority BridgeActions.
From S2P Require Import Ics20 Relay Transact.
From stdpp Require Import base list option strings gmap fin_maps.
From Stdlib Require Import ZArith Lia String RelationClasses.
Open Scope Z_scope.

Definition ensures (R : State -> State -> Prop) {A} (m : M A) : Prop :=
  forall s a s', m s = (Done a, s') -> R s s'.

Section Ensures.
Context (R : State -> State -> Prop) `{!PreOrder R}.

Lemma ensures_reads {A} (m : M A) : reads m -> ensures R m.
Proof. intros Hm s a s' Hs. by rewrite (reads_done m s a s' Hm Hs). Qed.
Lemma ensures_bind {A B} (m : M A) (f : A -> M B) :
  ensures R m -> (forall a, ensures R (f a)) -> ensures R (m ≫= f).
Proof.
  intros Hm Hf s b s' Hs. apply bind_done in Hs as (a & s1 & Ha & Hb).
  transitivity s1; [by eapply Hm|by eapply Hf].
Qed.
Lemma ensures_modify f : (forall s, R s (f s)) -> ensures R (modify f).
Proof. intros Hf s a s' Hs. apply modify_done in Hs as ->. apply Hf. Qed.
Lemma ensures_wrap {A} msg (m : M A) : ensures R m -> ensures R (wrap_err msg m).
Proof. intros Hm s a s' Hs. apply wrap_err_done in Hs. by eapply Hm. Qed.
Lemma ensures_for_each {A} (f : A -> M unit) l :
  (forall x, ensures R (f x)) -> ensures R (for_each f l).
Proof.
  intros Hf. induction l as [|x l IH]; simpl; [by apply ensures_reads|].
  apply ensures_bind; [apply Hf|done].
Qed.
Lemma ensures_fold_each {A B} (f : B -> A -> M B) acc l :
  (forall b x, ensures R (f b x)) -> ensures R (fold_each f acc l).
Proof.
  intros Hf. revert acc. induction l as [|x l IH]; simpl; intros acc; [by apply ensures_reads|].
  apply ensures_bind; [apply Hf|intros b; apply IH].
Qed.
End Ensures.

Lemma ensures_mono (R R' : State -> State -> Prop) {A} (m : M A) :
  (forall s s', R s s' -> R' s s') -> ensures R m -> ensures R' m.
Proof. intros HR Hm s a s' Hs. eapply HR, Hm, Hs. Qed.

(** A component or quantity [f] of the state is left as it is. *)
Definition same {B} (f : State -> B) (s s' : State) : Prop := f s' = f s.
#[export] Instance same_preorder {B} (f : State -> B) : PreOrder (same f).
Proof. split; [intros s|intros s1 s2 s3]; unfold same; congruence. Qed.

(** Whatever a component is computed from keeps it too. *)
Lemma ensures_same_compose {B C} (f : State -> B) (g : B -> C) {A} (m : M A) :
  ensures (same f) m -> ensures (same (fun s => g (f s))) m.
Proof. apply ensures_mono. unfold same. intros s s' ->. done. Qed.

(** Values that only grow: what is recorded stays recorded. *)
Definition grows {K V} `{Countable K} (f : State -> gmap K V) (s s' : State) : Prop :=
  f s ⊆ f s'.
#[export] Instance grows_preorder {K V} `{Countable K} (f : State -> gmap K V) :
  PreOrder (grows f).
Proof.
  split; [intros s|intros s1 s2 s3]; unfold grows; [reflexivity|intros; by etrans].
Qed.

(** An invariant as a relation. *)
Definition keeps_inv (P : State -> Prop) (s s' : State) : Prop := P s -> P s'.
#[export] Instance keeps_inv_preorder P : PreOrder (keeps_inv P).
Proof. split; [intros s|intros s1 s2 s3]; unfold keeps_inv; auto. Qed.

(** Going through a computation: sequencing, reading, branching and writing.
    Writes are left to the caller unless they are trivially in the relation. *)
Create HintDb ensures.
Ltac open_action :=
  cbv [check_and_execute action_RollupDataSubmission action_Transfer action_ValidatorUpdate
       action_SudoAddressChange action_IbcSudoChange action_Ics20Withdrawal
       action_IbcRelayerChange action_FeeAssetChange action_InitBridgeAccount action_BridgeLock
       action_BridgeUnlock action_BridgeSudoChange action_BridgeTransfer action_FeeChange
       action_RecoverIbcClient action_CurrencyPairsChange action_MarketsChange].
Ltac ensures_step :=
  match goal with
  | |- ensures _ _ => solve [auto with ensures nocore]
  | |- ensures _ (_ ≫= _) => apply ensures_bind; [typeclasses eauto| |intros ?]
  | |- ensures _ (wrap_err _ _) => apply ensures_wrap
  | |- ensures _ (mret _) => apply ensures_reads; [typeclasses eauto|apply reads_ret]
  | |- ensures _ (gets _) => apply ensures_reads; [typeclasses eauto|apply reads_gets]
  | |- ensures _ (bail _) => apply ensures_reads; [typeclasses eauto|apply reads_bail]
  | |- ensures _ (ensure_that _ _) => apply ensures_reads; [typeclasses eauto|apply reads_ensure]
  | |- ensures _ (ok_or_eyre _ _) => apply ensures_reads; [typeclasses eauto|apply reads_ok_or]
  | |- ensures _ (expect _) => apply ensures_reads; [typeclasses eauto|apply reads_expect]
  | |- ensures _ (for_each _ _) => apply ensures_for_each; [typeclasses eauto|intros ?]
  | |- ensures _ (fold_each _ _ _) => apply ensures_fold_each; [typeclasses eauto|intros ? ?]
  | |- ensures _ (modify _) => apply ensures_modify; intros ?; try done; try solve [unfold grows; simpl; reflexivity]
  | |- ensures _ (match ?x with _ => _ end) => destruct x
  | |- ensures _ (let '(_, _) := ?x in _) => destruct x
  | |- ensures _ (check_and_execute _) => open_action
  | |- ensures _ ?m => let h := head_of m in unfold h
  end
with head_of t := match t with ?f _ => head_of f | _ => t end.
Ltac ensures_tac := repeat ensures_step.


(** Replace a run in [Hs] by the relation [R] it goes along. *)
Ltac along R Hs :=
  match type of Hs with
  | ?m ?s = (Done ?a, ?s') =>
      let E := fresh "E" in assert (ensures R m) as E; [|apply E in Hs; clear E]
  end.

(** * Funds are neither created nor destroyed

    The quantity [value]: an asset's supply over the accounts, plus the fees
    collected in the block, plus the IBC escrow.  Every action keeps it, apart
    from the withdrawal of a foreign asset, which burns the amount. *)

(** The part of the state that holds funds. *)
Definition ledger (s : State) :=
  (accounts s, block_fees (fees s), channel_balances (ibc s)).

Definition fees_of (asset : IbcPrefixed) (l : list Fee) : Z :=
  foldr (fun f acc =>
    if decide (fee_denom f = Denom_IbcPrefixed asset) then fee_amount f + acc else acc) 0 l.
Definition block_fees_total (asset : IbcPrefixed) (s : State) : Z :=
  fees_of asset (default [] (block_fees (fees s))).
Definition escrow (asset : IbcPrefixed) (s : State) : Z :=
  supply_of asset (channel_balances (ibc s)).
Definition value (asset : IbcPrefixed) (s : State) : Z :=
  supply asset s + block_fees_total asset s + escrow asset s.

Lemma fees_of_snoc asset l f :
  fees_of asset (l ++ [f]) =
  fees_of asset l + (if decide (fee_denom f = Denom_IbcPrefixed asset) then fee_amount f else 0).
Proof.
  induction l as [|g l IH]; simpl; [by repeat case_decide; lia|].
  rewrite IH. repeat case_decide; lia.
Qed.

Lemma value_ledger asset {A} (m : M A) :
  ensures (same ledger) m -> ensures (same (value asset)) m.
Proof.
  apply ensures_mono. unfold same, value, supply, block_fees_total, escrow, ledger.
  intros s s' [= -> -> ->]. done.
Qed.

(** ** Actions that hold no funds *)
Section Quiet.
Context `{External}.

Lemma quiet_validator_update act : ensures (same ledger) (validator_update_execute act).
Proof. ensures_tac. Qed.
Lemma quiet_sudo_address_change act : ensures (same ledger) (sudo_address_change_execute act).
Proof. ensures_tac. Qed.
Lemma quiet_ibc_sudo_change act : ensures (same ledger) (ibc_sudo_change_execute act).
Proof. ensures_tac. Qed.
Lemma quiet_ibc_relayer_change act : ensures (same ledger) (ibc_relayer_change_execute act).
Proof. ensures_tac. Qed.
Lemma quiet_fee_change act : ensures (same ledger) (fee_change_execute act).
Proof. ensures_tac. Qed.
Lemma quiet_fee_asset_change act : ensures (same ledger) (fee_asset_change_execute act).
Proof. ensures_tac. Qed.
Lemma quiet_currency_pairs_change act : ensures (same ledger) (currency_pairs_change_execute act).
Proof. ensures_tac. Qed.
Lemma quiet_markets_change act : ensures (same ledger) (markets_change_execute act).
Proof. ensures_tac. Qed.
Lemma quiet_init_bridge_account act : ensures (same ledger) (init_bridge_account_execute act).
Proof. ensures_tac. Qed.
Lemma quiet_bridge_sudo_change act : ensures (same ledger) (bridge_sudo_change_execute act).
Proof. ensures_tac. Qed.
End Quiet.

(** ** Actions that move funds *)
Section Moves.
Context `{External} (asset : IbcPrefixed).

Lemma value_set_balance a x b s :
  value asset (set_balance a x b s) =
  value asset s + (if decide (x = asset) then b - balance_of s a x else 0).
Proof.
  unfold value. rewrite supply_set_balance.
  unfold block_fees_total, escrow, set_balance. simpl. lia.
Qed.

Lemma value_execute_transfer act from :
  ensures (same (value asset)) (execute_transfer act from).
Proof.
  intros s u s' Hs. unfold execute_transfer in Hs. run_inv Hs. subst. unfold same.
  rewrite !value_set_balance, balance_of_set_balance.
  repeat case_decide; simplify_eq; lia.
Qed.
#[local] Hint Resolve value_execute_transfer : ensures.

Lemma value_fees act_fees a x amount s :
  block_fees (fees s) = act_fees ->
  forall name pos s1,
  s1 = on_fees (upd_block_fees (fun _ => Some
         (default [] act_fees ++ [mk_fee name (Denom_IbcPrefixed x) amount pos])%list)) s ->
  value asset (set_balance a x (balance_of s1 a x - amount) s1) = value asset s.
Proof.
  intros Hf name pos s1 ->. rewrite value_set_balance.
  unfold value, supply, escrow, block_fees_total, balance_of. simpl.
  rewrite Hf, fees_of_snoc. simpl.
  repeat case_decide; simplify_eq; lia.
Qed.

Lemma value_check_and_pay_fees {F} `{FeeHandler F} (act : F) :
  ensures (same (value asset)) (check_and_pay_fees act).
Proof.
  intros s u s' Hs. unfold check_and_pay_fees in Hs.
  apply bind_done in Hs as (o & s1 & Ho & Hs). unfold get_fees in Ho. run_inv Ho. subst.
  apply bind_done in Hs as (f & s1 & Hf & Hs). run_inv Hf. subst.
  destruct (fee_asset act) as [x|]; [|by run_inv Hs; subst].
  unfold is_allowed_fee_asset, add_fee_to_block_fees, record in Hs.
  run_inv Hs. subst. unfold same.
  set (s1 := on_events _ s). change (value asset s) with (value asset s1).
  eapply value_fees; [reflexivity|].
  simpl. by destruct (block_fees (fees s)).
Qed.

Lemma value_cache_deposit d : ensures (same (value asset)) (cache_deposit_event d).
Proof. apply value_ledger. ensures_tac. Qed.
Lemma value_record e : ensures (same (value asset)) (record e).
Proof. apply value_ledger. ensures_tac. Qed.
Lemma value_check_transfer act from : ensures (same (value asset)) (check_transfer act from).
Proof. ensures_tac. Qed.
Lemma value_ensure_prefix a : ensures (same (value asset)) (ensure_base_prefix a).
Proof. ensures_tac. Qed.
Lemma value_set_event a ev n :
  ensures (same (value asset)) (check_and_set_withdrawal_event_block_for_bridge_account a ev n).
Proof. apply value_ledger. ensures_tac. Qed.
#[local] Hint Resolve value_cache_deposit value_record value_check_transfer value_ensure_prefix
  value_set_event : ensures.

Lemma value_transfer act : ensures (same (value asset)) (transfer_execute act).
Proof. ensures_tac. Qed.
Lemma value_execute_bridge_lock act : ensures (same (value asset)) (execute_bridge_lock act).
Proof. ensures_tac. Qed.
#[local] Hint Resolve value_execute_bridge_lock : ensures.
Lemma value_bridge_lock act : ensures (same (value asset)) (bridge_lock_execute act).
Proof. ensures_tac. Qed.
Lemma value_bridge_unlock act : ensures (same (value asset)) (bridge_unlock_execute act).
Proof. ensures_tac. Qed.
Lemma value_bridge_transfer act : ensures (same (value asset)) (bridge_transfer_execute act).
Proof. ensures_tac. Qed.

(** A withdrawal moves the amount to the channel's escrow when the sequencer
    is the source of the asset, and burns it otherwise. *)
Definition burned_by (act : Ics20Withdrawal) : Z :=
  if decide (to_ibc_prefixed (w_denom act) = asset) then
    if is_source PORT_TRANSFER (w_source_channel act) (w_denom act) then 0 else w_amount act
  else 0.

Lemma value_escrow c x b s :
  value asset (on_ibc (upd_channel_balances <[(c, x) := b]>) s) =
  value asset s +
  (if decide (x = asset) then b - default 0 (channel_balances (ibc s) !! (c, x)) else 0).
Proof.
  unfold value, escrow, supply, block_fees_total. simpl. rewrite supply_insert. simpl. lia.
Qed.

Lemma packet_of_withdrawal act s p s' :
  create_ibc_packet_from_withdrawal act s = (Done p, s') ->
  source_port p = PORT_TRANSFER /\ source_channel p = w_source_channel act /\ s' = s.
Proof.
  intros Hp. assert (s' = s) as ->.
  { eapply reads_done; [|exact Hp]. intros s0. clear.
    unfold create_ibc_packet_from_withdrawal, get_ibc_compat_prefix.
    run_eval. simpl. repeat (case_match; simplify_eq/=; try done). }
  unfold create_ibc_packet_from_withdrawal in Hp.
  apply bind_done in Hp as (x & s1 & _ & Hp). run_inv Hp. by subst.
Qed.

Lemma value_escrow_withdrawal act s u s' :
  escrow_withdrawal act s = (Done u, s') ->
  value asset s' = value asset s +
    (if decide (to_ibc_prefixed (w_denom act) = asset) then w_amount act else 0).
Proof.
  intros Hs. unfold escrow_withdrawal, get_ibc_channel_balance, put_ibc_channel_balance in Hs.
  run_inv Hs. subst.
  match goal with E : checked_add _ _ _ = _ |- _ => apply checked_add_Some in E as [-> ?] end.
  rewrite value_escrow. case_decide; lia.
Qed.

Lemma value_ics20_withdrawal act s u s' :
  ics20_withdrawal_execute act s = (Done u, s') ->
  value asset s' + burned_by act = value asset s.
Proof.
  intros Hs. unfold ics20_withdrawal_execute in Hs.
  apply bind_done in Hs as (ctx & s0 & Hc & Hs). apply expect_context_done in Hc as [_ ->].
  apply bind_done in Hs as (u1 & s1 & K1 & Hs).
  apply (ensures_wrap (same (value asset))) in K1; [|apply value_ensure_prefix].
  apply bind_done in Hs as (u2 & s2 & K2 & Hs).
  assert (value asset s2 = value asset s1) as E2.
  { destruct (w_bridge_address act) as [b|]; [|by run_inv K2; subst].
    along (same (value asset)) K2; [|done]. unfold set_withdrawal_event. ensures_tac. }
  apply bind_done in Hs as (target & s3 & K3 & Hs).
  assert (s3 = s2) as ->.
  { eapply reads_done; [|exact K3]. apply reads_wrap. intros s0. clear.
    unfold establish_withdrawal_target, get_bridge_account_withdrawer_address, is_a_bridge_account,
      get_bridge_account_rollup_id. run_eval. simpl.
    repeat (case_match; simplify_eq/=; try done). }
  apply bind_done in Hs as (ts & s4 & K4 & Hs). run_inv K4. subst.
  apply bind_done in Hs as (p & s4 & K4 & Hs). rewrite wrap_err_done in K4.
  apply packet_of_withdrawal in K4 as (Hport & Hchan & ->).
  rewrite Hport, Hchan in Hs.
  apply bind_done in Hs as (ok & s4 & K4 & Hs). run_inv K4. subst.
  apply bind_done in Hs as (u5 & s4 & K4 & Hs). run_inv K4. subst.
  apply bind_done in Hs as (u5' & s4 & K4 & Hs). run_inv K4.
  apply bind_done in Hs as (u6 & s5 & K5 & Hs). unfold send_packet_execute in Hs.
  run_inv Hs. subst. unfold burned_by.
  change (value asset (on_ibc _ s5)) with (value asset s5).
  assert (value asset (set_balance target (to_ibc_prefixed (w_denom act))
            (balance_of s2 target (to_ibc_prefixed (w_denom act)) - w_amount act) s2)
          = value asset s2 -
            (if decide (to_ibc_prefixed (w_denom act) = asset) then w_amount act else 0)) as E4.
  { rewrite value_set_balance. case_decide; lia. }
  unfold same in K1. destruct (is_source _ _ _).
  - apply value_escrow_withdrawal in K5. case_decide; lia.
  - run_inv K5. subst. case_decide; lia.
Qed.
End Moves.
