(* ===== verification/RelayLemmas.v ===== *)
(** * What relayed messages and client recoveries do to the state

    A receipt that fails keeps what it wrote before the error, so that the logic of
    [Conservation] is not enough: [preserves R m] says that a run of [m] takes the
    state along [R] however it ends.  Relayed messages credit accounts and release
    escrow; beside this they touch nothing but deposits, known assets and what belongs
    to the IBC library. *)
From S2P Require Import Prelude Denom Types State Chain Accounts Authority BridgeActions.
From S2P Require Import Ics20 Relay Transact Conservation.
From stdpp Require Import base list option strings gmap fin_maps.
From Stdlib Require Import ZArith Lia Ascii String RelationClasses.
Open Scope string_scope.
Open Scope Z_scope.

Definition preserves (R : State -> State -> Prop) {A} (m : M A) : Prop := forall s, R s (m s).2.

Section Preserves.
Context (R : State -> State -> Prop) `{!PreOrder R}.
Lemma preserves_ensures {A} (m : M A) : preserves R m -> ensures R m.
Proof. intros Hm s a s' Hs. specialize (Hm s). by rewrite Hs in Hm. Qed.
Lemma preserves_reads {A} (m : M A) : reads m -> preserves R m.
Proof. intros Hm s. by rewrite Hm. Qed.
Lemma preserves_bind {A B} (m : M A) (f : A -> M B) :
  preserves R m -> (forall a, preserves R (f a)) -> preserves R (m ≫= f).
Proof.
  intros Hm Hf s. specialize (Hm s). unfold mbind, M_bind. destruct (m s) as [[a|e|] s1]; cbn in *; [|done..].
  transitivity s1; [done|apply Hf].
Qed.
Lemma preserves_modify f : (forall s, R s (f s)) -> preserves R (modify f).
Proof. intros Hf s. apply Hf. Qed.
Lemma preserves_wrap {A} msg (m : M A) : preserves R m -> preserves R (wrap_err msg m).
Proof. intros Hm s. specialize (Hm s). unfold wrap_err. by destruct (m s) as [[]]. Qed.
(** A computation that writes last *)
Lemma preserves_last {A} (m : M A) :
  ensures R m -> (forall s, match m s with (Done _, _) => True | (_, s') => s' = s end) -> preserves R m.
Proof.
  intros He Hl s. specialize (Hl s). destruct (m s) as [[a|e|] s'] eqn:E; [by eapply He|by subst..].
Qed.
End Preserves.

(** An amount that was parsed is a [u128]. *)
Lemma parse_decimal_range s : forall acc n, uint 128 acc -> parse_decimal acc s = Some n -> uint 128 n.
Proof.
  induction s as [|c s IH]; intros acc n Ha Hn; cbn [parse_decimal] in Hn; [by simplify_eq|].
  destruct (digit c) eqn:Hd; [|done]. destruct (_ <? _) eqn:Hlt in Hn; [|done]. apply Z.ltb_lt in Hlt.
  eapply IH; [|exact Hn]. split; [|done]. destruct Ha as [Ha _].
  unfold digit in Hd. apply andb_true_iff in Hd as [Hd _]. apply Nat.leb_le in Hd. lia.
Qed.
Lemma parse_u128_range s n : parse_u128 s = Some n -> uint 128 n.
Proof.
  assert (uint 128 0) as H0 by done. unfold parse_u128. destruct s as [|c s]; [done|].
  destruct (Ascii.eqb c "+"); [destruct s as [|c' s]; [done|]|]; by apply parse_decimal_range.
Qed.

Section Relayed.
Context `{External, Relay}.

(** What a relayed message leaves alone *)
Definition untouched (s : State) :=
  (nonces (accounts s),
   (rollup_ids (bridge s), asset_ids (bridge s), bridge_sudos (bridge s), withdrawers (bridge s),
    withdrawal_events (bridge s), block_deposits (bridge s), last_tx_ids (bridge s)),
   fees s, authority s, (ibc_sudo (ibc s), ibc_relayers (ibc s), sent_packets (ibc s)),
   address_config s, native_asset (assets s), app_data s, oracle s, markets s, upgrades s, tx_context s).
(** The same with balances and escrow *)
Definition still (s : State) :=
  (accounts s,
   (rollup_ids (bridge s), asset_ids (bridge s), bridge_sudos (bridge s), withdrawers (bridge s),
    withdrawal_events (bridge s), block_deposits (bridge s), last_tx_ids (bridge s)),
   fees s, authority s,
   (ibc_sudo (ibc s), ibc_relayers (ibc s), channel_balances (ibc s), sent_packets (ibc s)),
   address_config s, native_asset (assets s), app_data s, oracle s, markets s, upgrades s, tx_context s).

Context (R : State -> State -> Prop) `{!PreOrder R}.
Hypothesis Hstill : forall s s', same still s s' -> R s s'.
Hypothesis Hincrease : forall a x amount, uint 128 amount -> ensures R (increase_balance a x amount).
Hypothesis Hdecrease : forall c x amount, uint 128 amount -> ensures R (decrease_ibc_channel_balance c x amount).

Lemma preserves_increase a x amount : uint 128 amount -> preserves R (increase_balance a x amount).
Proof.
  intros Ha. apply preserves_last; [typeclasses eauto|by apply Hincrease|].
  intros s. unfold increase_balance, get_account_balance. run_eval. by destruct (checked_add _ _ _).
Qed.
Lemma preserves_decrease c x amount : uint 128 amount -> preserves R (decrease_ibc_channel_balance c x amount).
Proof.
  intros Ha. apply preserves_last; [typeclasses eauto|by apply Hdecrease|].
  intros s. unfold decrease_ibc_channel_balance, get_ibc_channel_balance. run_eval. by destruct (checked_sub _ _).
Qed.
Ltac preserves_step :=
  match goal with
  | |- preserves _ (increase_balance _ _ _) => apply preserves_increase; assumption
  | |- preserves _ (decrease_ibc_channel_balance _ _ _) => apply preserves_decrease; assumption
  | |- preserves _ (_ ≫= _) => apply preserves_bind; [typeclasses eauto| |intros ?]
  | |- preserves _ (wrap_err _ _) => apply preserves_wrap
  | |- preserves _ (mret _) => apply preserves_reads; [typeclasses eauto|apply reads_ret]
  | |- preserves _ (gets _) => apply preserves_reads; [typeclasses eauto|apply reads_gets]
  | |- preserves _ (bail _) => apply preserves_reads; [typeclasses eauto|apply reads_bail]
  | |- preserves _ (ensure_that _ _) => apply preserves_reads; [typeclasses eauto|apply reads_ensure]
  | |- preserves _ (ok_or_eyre _ _) => apply preserves_reads; [typeclasses eauto|apply reads_ok_or]
  | |- preserves _ (expect _) => apply preserves_reads; [typeclasses eauto|apply reads_expect]
  | |- preserves _ (modify _) => apply preserves_modify; intros ?; apply Hstill; done
  | |- preserves _ (match ?x with _ => _ end) => destruct x
  | |- preserves _ (let '(_, _) := ?x in _) => destruct x
  | |- preserves _ ?m => let h := head_of m in unfold h
  end
with head_of t := match t with ?f _ => head_of f | _ => t end.

(** Binding an amount that was parsed *)
Lemma preserves_amount {A} msg text (k : Z -> M A) :
  (forall amount, uint 128 amount -> preserves R (k amount)) ->
  preserves R (ok_or_eyre (parse_u128 text) msg ≫= k).
Proof.
  intros Hk. destruct (parse_u128 text) as [n|] eqn:E; [apply (Hk n), (parse_u128_range _ _ E)|].
  intros s. cbn. reflexivity.
Qed.
Ltac preserves_tac := repeat first [apply preserves_amount; intros ? ?|preserves_step].

Lemma preserves_receive packet : preserves R (receive_tokens packet).
Proof. preserves_tac. Qed.
Lemma preserves_refund packet : preserves R (refund_tokens packet).
Proof. preserves_tac. Qed.
Lemma preserves_receive_or_report packet : preserves R (receive_or_report packet).
Proof.
  intros s. pose proof (preserves_receive packet s) as Hp. unfold receive_or_report.
  by destruct (receive_tokens packet s) as [[]].
Qed.
Lemma preserves_relay act : preserves R (relay_check_and_execute act).
Proof.
  unfold relay_check_and_execute. preserves_step; [preserves_tac|].
  preserves_step; [destruct a; [preserves_tac|by intros s]|].
  preserves_step; [unfold handler_check; preserves_tac|].
  do 3 (preserves_step; [preserves_tac|]).
  unfold handler_execute. destruct (relay_message act); try solve [preserves_tac].
  unfold recv_packet_execute. preserves_step; [preserves_tac|].
  preserves_step; [apply preserves_receive_or_report|preserves_tac].
Qed.
Lemma ensures_relay act : ensures R (relay_check_and_execute act).
Proof. apply preserves_ensures, preserves_relay. Qed.
End Relayed.

(** ** What the library is asked to respect, and does *)
Section Frame.
Context `{External, Relay}.
Definition relay_ensures (R : State -> State -> Prop) : Prop :=
  forall act, ensures R (relay_check_and_execute act).

Lemma untouched_still s s' : same still s s' -> same untouched s s'.
Proof. unfold same, still, untouched. intros [=]. congruence. Qed.
Lemma relay_untouched : relay_ensures (same untouched).
Proof.
  intros act. apply ensures_relay; [typeclasses eauto|exact untouched_still|..].
  - intros a x n _. ensures_tac.
  - intros c x n _. ensures_tac.
Qed.
(** Whatever is computed from the rest of the state is kept. *)
Lemma relay_same {B} (f : State -> B) :
  (forall s s', untouched s' = untouched s -> f s' = f s) -> relay_ensures (same f).
Proof. intros Hf act. eapply ensures_mono; [|apply relay_untouched]. intros s s'. apply Hf. Qed.
End Frame.
Ltac relay_tac :=
  apply relay_same; unfold untouched; cbv beta; intros ? ? [=];
  first [congruence | match goal with |- ?f _ = _ => unfold f; congruence end].
#[export] Hint Extern 0 (ensures (same _) (relay_check_and_execute _)) => relay_tac : ensures.
