(* ===== verification/TransactTheorems.v ===== *)
(** * Theorems on transactions

    What the dispatch of the actions, the fees and the checks of a transaction do
    to each component of the state, as the theorems on whole transactions need it. *)
From S2P Require Import Prelude Denom Types State Chain Accounts Authority BridgeActions.
From S2P Require Import Ics20 Relay Transact Conservation RelayLemmas.
From stdpp Require Import base list option strings gmap fin_maps.
From Stdlib Require Import ZArith Lia String RelationClasses.
Open Scope Z_scope.

(** ** Reading the cost of a transaction changes nothing *)
Section Reads.
Context `{External, Relay}.

Lemma reads_for_each {A} (f : A -> M unit) l : (forall x, reads (f x)) -> reads (for_each f l).
Proof.
  intros Hf. induction l as [|x l IH]; simpl; [apply reads_ret|by apply reads_bind].
Qed.
Lemma reads_fold_each {A B} (f : B -> A -> M B) b l :
  (forall b x, reads (f b x)) -> reads (fold_each f b l).
Proof.
  intros Hf. revert b. induction l as [|x l IH]; simpl; intros b; [apply reads_ret|].
  apply reads_bind; [apply Hf|intros b'; apply IH].
Qed.
Lemma reads_add_fees_for {F} `{FeeHandler F} (act : F) m : reads (add_fees_for act m).
Proof. apply reads_bind; [|intros; apply reads_ret]. unfold get_or_init_fees, get_fees. auto with astria. Qed.
Lemma reads_add_action_fees m a : reads (add_action_fees m a).
Proof. destruct a; apply reads_add_fees_for. Qed.
Lemma reads_bridge_asset a : reads (get_bridge_account_ibc_asset a).
Proof. unfold get_bridge_account_ibc_asset. auto with astria. Qed.
Lemma reads_add_action_transfers m a : reads (add_action_transfers m a).
Proof.
  destruct a; simpl; try apply reads_ret;
    (apply reads_bind; [apply reads_wrap, reads_bridge_asset|intros; apply reads_ret]).
Qed.
Lemma reads_total_cost tx : reads (get_total_transaction_cost tx).
Proof.
  unfold get_total_transaction_cost, get_fees_for_transaction, add_total_transfers_for_transaction.
  apply reads_bind; [|intros m]; apply reads_wrap, reads_fold_each; intros.
  - apply reads_add_action_fees.
  - apply reads_add_action_transfers.
Qed.
Lemma reads_check_balance tx : reads (check_balance_for_total_fees_and_transfers tx).
Proof.
  unfold check_balance_for_total_fees_and_transfers, get_account_balance.
  apply reads_bind; [apply reads_wrap, reads_total_cost|intros m].
  apply reads_for_each. intros x. auto with astria.
Qed.
End Reads.

(** ** The steps of a successful transaction *)
Section Steps.
Context `{External, Relay}.

Definition put_nonce (a : address_bytes) (n : Z) : State -> State :=
  on_accounts (upd_nonces <[a := n]>).
Definition nonce_of (s : State) (a : address_bytes) : Z := default 0 (nonces (accounts s) !! a).

(** The state in which the actions of a transaction start to execute. *)
Definition start_actions (tx : Transaction) (s : State) : State :=
  let s1 := on_tx_context (fun _ => Some (transaction_context_of tx)) s in
  let s2 := match rollup_ids (bridge s) !! tx_address_bytes tx with
            | Some _ => on_bridge (upd_last_tx_ids <[tx_address_bytes tx := tx_id tx]>) s1
            | None => s1
            end in
  put_nonce (tx_address_bytes tx) (nonce_of s (tx_address_bytes tx) + 1) s2.

Lemma transaction_done tx s u s' :
  transaction_check_and_execute tx s = (Done u, s') ->
  chain_id (app_data s) = Some (tx_chain_id tx) /\
  nonce_of s (tx_address_bytes tx) = tx_nonce tx /\
  nonce_of s (tx_address_bytes tx) + 1 < 2 ^ 32 /\
  exists s1, execute_actions tx (transaction_context_of tx) 0 (tx_actions tx) (start_actions tx s)
             = (Done tt, s1) /\ s' = on_tx_context (fun _ => None) s1.
Proof.
  intros Hs. unfold transaction_check_and_execute, put_transaction_context in Hs.
  apply bind_done in Hs as (c & s1 & E1 & Hs). run_inv E1. subst.
  apply bind_done in Hs as (id & s1 & E1 & Hs). run_inv E1. subst.
  apply bind_done in Hs as (u1 & s1 & E1 & Hs). run_inv E1. subst.
  match goal with E : String.eqb _ _ = true |- _ => apply String.eqb_eq in E; subst end.
  apply bind_done in Hs as (n & s1 & E1 & Hs). unfold get_account_nonce in E1. run_inv E1. subst.
  apply bind_done in Hs as (u2 & s1 & E1 & Hs). run_inv E1. subst.
  match goal with E : (_ =? _) = true |- _ => apply Z.eqb_eq in E end.
  apply bind_done in Hs as (u3 & s1 & E1 & Hs). rewrite wrap_err_done in E1.
  apply (reads_done _ _ _ _ (reads_check_balance tx)) in E1 as ->.
  apply bind_done in Hs as (r & s1 & E1 & Hs).
  unfold get_bridge_account_rollup_id in E1. run_inv E1. subst.
  apply bind_done in Hs as (u4 & s1 & E1 & Hs).
  unfold get_account_nonce, put_account_nonce, delete_current_transaction_context in Hs.
  apply bind_done in Hs as (n2 & s2 & E2 & Hs). run_inv E2. subst.
  apply bind_done in Hs as (n3 & s2 & E2 & Hs). run_inv E2. subst.
  match goal with E : checked_add _ _ _ = _ |- _ => apply checked_add_Some in E as [-> ?] end.
  apply bind_done in Hs as (u5 & s2 & E2 & Hs). run_inv E2. subst.
  apply bind_done in Hs as ([] & s2 & E2 & Hs). run_inv Hs. subst.
  simpl in *. split; [done|]. split; [done|].
  assert (nonces (accounts s1) = nonces (accounts s)) as En.
  { unfold put_last_transaction_id_for_bridge_account in E1.
    destruct (rollup_ids (bridge s) !! tx_address_bytes tx); run_inv E1; by subst. }
  unfold nonce_of in *. rewrite En in *. split; [done|]. eexists _. split; [|done].
  rewrite <- E2. f_equal. unfold start_actions, put_nonce, nonce_of. f_equal.
  unfold put_last_transaction_id_for_bridge_account in E1.
  destruct (rollup_ids (bridge s) !! tx_address_bytes tx); run_inv E1; by subst.
Qed.

Lemma execute_transaction_done tx s evs s' :
  execute_transaction tx s = (Done evs, s') ->
  transaction_check_stateless tx = Ok tt /\
  exists s1, transaction_check_and_execute tx (on_events (fun _ => []) s) = (Done tt, s1) /\
             s' = on_events (fun _ => events s) s1.
Proof.
  unfold execute_transaction. destruct (transaction_check_stateless tx) as [[]|]; [|done].
  destruct (transaction_check_and_execute _ _) as [[[]| |] s1]; naive_solver.
Qed.

(** Contexts of the transaction. *)
Definition context_of (tx : Transaction) (c : option TransactionContext) : Prop :=
  match c with
  | Some c => ctx_address_bytes c = tx_address_bytes tx
  | None => True
  end.

(** A relation that holds along the bookkeeping and along every action holds
    along the transaction. *)
Lemma execute_actions_ensures (R : State -> State -> Prop) `{!PreOrder R} tx ctx i l :
  ctx_address_bytes ctx = tx_address_bytes tx ->
  (forall c s, context_of tx c -> R s (on_tx_context (fun _ => c) s)) ->
  Forall (fun a => ensures R (execute_action tx a)) l ->
  ensures R (execute_actions tx ctx i l).
Proof.
  intros Hctx Hc Hl. revert i. induction Hl as [|a l Ha Hl IH]; intros i; simpl.
  - apply ensures_reads; [done|apply reads_ret].
  - apply ensures_bind; [done| |intros _].
    + unfold put_transaction_context. apply ensures_bind; [done| |intros _].
      * apply ensures_modify. intros s. by apply Hc.
      * apply ensures_reads; [done|apply reads_ret].
    + apply ensures_bind; [done|done|intros _; apply IH].
Qed.

(** A transaction that fails leaves the state as it was. *)
Lemma execute_transaction_undone tx s r s' :
  execute_transaction tx s = (r, s') -> match r with Done _ => True | Fail _ | Crash => s' = s end.
Proof.
  unfold execute_transaction. destruct (transaction_check_stateless tx); [|by intros [= <- <-]].
  destruct (transaction_check_and_execute _ _) as [[] ?]; by intros [= <- <-].
Qed.
Lemma execute_transaction_ensures (R : State -> State -> Prop) `{!PreOrder R} tx :
  (forall c s, context_of tx c -> R s (on_tx_context (fun _ => c) s)) ->
  (forall f s, R s (on_events f s)) ->
  (forall f s, R s (on_bridge (upd_last_tx_ids f) s)) ->
  (forall s, R s (put_nonce (tx_address_bytes tx) (nonce_of s (tx_address_bytes tx) + 1) s)) ->
  Forall (fun a => ensures R (execute_action tx a)) (tx_actions tx) ->
  forall s evs s', execute_transaction tx s = (Done evs, s') -> R s s'.
Proof.
  intros Hc He Hb Hn Hl s evs s' Hs.
  apply execute_transaction_done in Hs as (_ & s1 & Hs & ->).
  apply transaction_done in Hs as (_ & _ & _ & s2 & Hs & ->).
  apply (execute_actions_ensures R) in Hs; [|done..].
  transitivity (on_events (fun _ => []) s); [apply He|].
  transitivity s2; [|etransitivity; [by apply (Hc None)|apply He]].
  transitivity (start_actions tx (on_events (fun _ => []) s)); [|done].
  unfold start_actions. set (s0 := on_events _ s).
  change (nonce_of s0) with (nonce_of (on_tx_context (fun _ => Some (transaction_context_of tx)) s0)).
  etransitivity; [by apply (Hc (Some (transaction_context_of tx)))|].
  destruct (rollup_ids _ !! _).
  - etransitivity; [apply (Hb <[tx_address_bytes tx := tx_id tx]>)|].
    etransitivity; [apply Hn|]. reflexivity.
  - etransitivity; [apply Hn|]. reflexivity.
Qed.
End Steps.

(** ** Effects of the actions *)
Definition local (action : Action) : bool :=
  match action with
  | Action_Ibc _ => false
  | _ => true
  end.
Definition burned (asset : IbcPrefixed) `{External} (action : Action) : Z :=
  match action with
  | Action_Ics20Withdrawal act => burned_by asset act
  | _ => 0
  end.
Definition total_burned (asset : IbcPrefixed) `{External} (l : list Action) : Z :=
  foldr (fun a acc => burned asset a + acc) 0 l.

Section Effects.
Context `{External, Relay}.

Lemma pay_done {F} `{ActionHandler F, FeeHandler F} (act : F) s u s' :
  check_execute_and_pay_fees act s = (Done u, s') <->
  exists s1, check_and_execute act s = (Done tt, s1) /\ check_and_pay_fees act s1 = (Done u, s').
Proof.
  unfold check_execute_and_pay_fees. rewrite bind_done. split.
  - intros ([] & s1 & ?). eauto.
  - intros (s1 & ?). eauto.
Qed.

(** Going along an action that is executed and paid for. *)
Lemma ensures_pay (R : State -> State -> Prop) `{!PreOrder R} {F} `{ActionHandler F, FeeHandler F}
    msg (act : F) :
  ensures R (check_and_execute act) -> ensures R (check_and_pay_fees act) ->
  ensures R (wrap_err msg (check_execute_and_pay_fees act)).
Proof. intros He Hp. by apply ensures_wrap, ensures_bind. Qed.

Lemma value_pay asset {F} `{ActionHandler F, FeeHandler F} msg (act : F) s u s' :
  ensures (same (value asset)) (check_and_execute act) ->
  wrap_err msg (check_execute_and_pay_fees act) s = (Done u, s') ->
  value asset s' = value asset s.
Proof.
  intros He Hs. eapply (ensures_pay (same (value asset))); [done| |exact Hs].
  apply value_check_and_pay_fees.
Qed.

Lemma value_execute_action asset tx action s u s' :
  local action = true -> execute_action tx action s = (Done u, s') ->
  value asset s' + burned asset action = value asset s.
Proof.
  intros Hl Hs. destruct action; try done; unfold burned.
  6: { simpl in Hs. rewrite wrap_err_done, pay_done in Hs. destruct Hs as (s1 & Hs1 & Hs).
       apply value_ics20_withdrawal with (asset := asset) in Hs1.
       apply (value_check_and_pay_fees asset) in Hs. unfold same in Hs. lia. }
  all: apply value_pay with (asset := asset) in Hs; [lia|]; simpl.
  - ensures_tac.
  - apply value_transfer.
  - apply value_ledger, quiet_validator_update.
  - apply value_ledger, quiet_sudo_address_change.
  - apply value_ledger, quiet_ibc_sudo_change.
  - apply value_ledger, quiet_ibc_relayer_change.
  - apply value_ledger, quiet_fee_asset_change.
  - apply value_ledger, quiet_init_bridge_account.
  - apply value_bridge_lock.
  - apply value_bridge_unlock.
  - apply value_ledger, quiet_bridge_sudo_change.
  - apply value_bridge_transfer.
  - apply value_ledger, quiet_fee_change.
  - apply value_ledger. ensures_tac.
  - apply value_ledger, quiet_currency_pairs_change.
  - apply value_ledger, quiet_markets_change.
Qed.
End Effects.

(** ** What each action leaves alone *)
Section Frames.
Context `{External, Relay}.

Lemma start_actions_value asset tx s : value asset (start_actions tx s) = value asset s.
Proof. unfold start_actions. by destruct (rollup_ids (bridge s) !! tx_address_bytes tx). Qed.

Lemma value_execute_actions asset tx ctx l i s u s' :
  forallb local l = true -> execute_actions tx ctx i l s = (Done u, s') ->
  value asset s' + total_burned asset l = value asset s.
Proof.
  revert i s. induction l as [|a l IH]; intros i s Hl Hs; simpl in *.
  - run_inv Hs. subst. lia.
  - apply andb_prop in Hl as [Ha Hl].
    apply bind_done in Hs as (c & s1 & E1 & Hs). unfold put_transaction_context in E1.
    run_inv E1. subst.
    apply bind_done in Hs as ([] & s2 & E2 & Hs).
    apply value_execute_action with (asset := asset) in E2; [|done].
    apply IH in Hs; [|done].
    change (value asset (on_tx_context _ s)) with (value asset s) in E2. lia.
Qed.

(** Going through an action *)
Ltac frame_tac :=
  intros action; destruct action; simpl; ensures_tac.

Lemma frame_nonces tx :
  forall action, ensures (same (fun s => nonces (accounts s))) (execute_action tx action).
Proof. frame_tac. Qed.

Lemma frame_context tx :
  forall action, ensures (same tx_context) (execute_action tx action).
Proof. frame_tac. Qed.

Lemma frame_events tx :
  forall action, ensures (grows (fun s => withdrawal_events (bridge s))) (execute_action tx action).
Proof.
  assert (forall a ev n, ensures (grows (fun s => withdrawal_events (bridge s)))
    (check_and_set_withdrawal_event_block_for_bridge_account a ev n)) as Hset.
  { intros a ev n s u s' Hs. run_inv Hs. subst. unfold grows. simpl. by apply insert_subseteq. }
  assert (forall act, ensures (grows (fun s => withdrawal_events (bridge s))) (relay_check_and_execute act)) as Hrelay.
  { intros act. apply (ensures_mono (same (fun s => withdrawal_events (bridge s)))); [|auto with ensures].
    unfold same, grows. by intros s s' ->. }
  intros action. destruct action; simpl;
    repeat first [apply Hset | apply Hrelay | ensures_step].
Qed.
End Frames.

(** ** The sudo account *)
Section Admin.
Context `{External, Relay}.

Lemma ensure_sudo_done from c m s u s' :
  ensure_sudo from c m s = (Done u, s') <-> sudo (authority s) = Some from /\ s' = s.
Proof.
  unfold ensure_sudo, get_sudo_address. split.
  - intros Hs. run_inv Hs. subst.
    match goal with E : String.eqb _ _ = true |- _ => apply String.eqb_eq in E; by subst end.
  - intros [Hs ->]. run_eval. rewrite Hs. simpl. rewrite String.eqb_refl. by destruct u.
Qed.

(** The parameters of the chain. *)
Definition parameters (s : State) :=
  (authority s, components (fees s), allowed_assets (fees s), oracle s, markets s, ibc_sudo (ibc s)).

(** A step of a signer that changes the parameters only as the sudo account. *)
Definition by_sudo (signer : address_bytes) (s s' : State) : Prop :=
  parameters s' = parameters s \/ sudo (authority s) = Some signer.
#[export] Instance by_sudo_preorder signer : PreOrder (by_sudo signer).
Proof.
  split; [intros s|intros s1 s2 s3]; unfold by_sudo; [by left|].
  intros [E1|?] [E2|E2]; [left; congruence|right|by right..].
  unfold parameters in E1. congruence.
Qed.

Lemma guarded_by_sudo {A} (pre : M unit) from c m (k : M A) s a s' :
  reads pre -> (pre;; ensure_sudo from c m;; k) s = (Done a, s') ->
  sudo (authority s) = Some from.
Proof.
  intros Hp Hs. apply bind_done in Hs as (u & s1 & E & Hs).
  apply (reads_done _ _ _ _ Hp) in E as ->.
  apply bind_done in Hs as (u1 & s1 & E & _). by apply ensure_sudo_done in E as [? _].
Qed.
Lemma guarded_by_sudo_first {A} from c m (k : M A) s a s' :
  (ensure_sudo from c m;; k) s = (Done a, s') -> sudo (authority s) = Some from.
Proof. intros Hs. apply bind_done in Hs as (u1 & s1 & E & _). by apply ensure_sudo_done in E as [? _]. Qed.

Lemma reads_ensure_prefix a : reads (ensure_base_prefix a).
Proof. unfold ensure_base_prefix, get_base_prefix. auto with astria. Qed.

Lemma by_sudo_fees signer {F} `{FeeHandler F} (act : F) : ensures (by_sudo signer) (check_and_pay_fees act).
Proof.
  apply (ensures_mono (same parameters)); [by left|]. ensures_tac.
Qed.

(** A sudo action, executed and paid for. *)
Ltac sudo_action Hs c Hc :=
  rewrite wrap_err_done, pay_done in Hs;
  let s1 := fresh "s1" in let E := fresh "E" in
  destruct Hs as (s1 & E & _); right; revert E; open_action; intros E;
  match type of E with ?m _ = _ => let h := head_of m in unfold h in E end;
  try (match type of E with ?m _ = _ => let h := head_of m in
         match h with mbind => idtac | _ => unfold h in E end end);
  apply bind_done in E as (?ctx & ?s0 & [?Ec ->]%expect_context_done & E);
  first [ apply guarded_by_sudo_first in E
        | apply guarded_by_sudo in E; [|apply reads_wrap, reads_ensure_prefix] ];
  congruence.

Lemma validated_by_sudo {A} (k : M A) s a s' c :
  tx_context s = Some c -> (validate_signer_is_sudo;; k) s = (Done a, s') ->
  sudo (authority s) = Some (ctx_address_bytes c).
Proof.
  intros Hc Hs. apply bind_done in Hs as (u & s1 & E & _). unfold validate_signer_is_sudo in E.
  apply bind_done in E as (c' & s2 & [Ec ->]%expect_context_done & E).
  apply ensure_sudo_done in E as [E _]. congruence.
Qed.

Lemma parameters_action tx action s c u s' :
  tx_context s = Some c -> execute_action tx action s = (Done u, s') ->
  by_sudo (ctx_address_bytes c) s s'.
Proof.
  intros Hc Hs.
  assert (ensures (same parameters) (execute_action tx action) ->
          by_sudo (ctx_address_bytes c) s s') as Hquiet
    by (intros Hq; left; by eapply Hq).
  destruct action; simpl in Hs.
  3,4,6,9,15: sudo_action Hs c Hc.
  all: try solve [apply Hquiet; simpl; ensures_tac].
  all: rewrite wrap_err_done, pay_done in Hs; destruct Hs as (s1 & E & _); right;
    revert E; open_action; intros E.
  - destruct act; by eapply validated_by_sudo in E.
  - by eapply validated_by_sudo in E.
Qed.
End Admin.

(** * Lemmas on bridge accounts and withdrawal events *)

Section Bridge.
Context `{External, Relay}.

Definition events_of (s : State) := withdrawal_events (bridge s).

(** The bridge account and event id that an action marks as paid out. *)
Definition uses_event (action : Action) : option (address_bytes * string) :=
  match action with
  | Action_BridgeUnlock act =>
      Some (addr_bytes (bu_bridge_address act), bu_rollup_withdrawal_event_id act)
  | Action_BridgeTransfer act =>
      Some (addr_bytes (bt_bridge_address act), bt_rollup_withdrawal_event_id act)
  | Action_Ics20Withdrawal act =>
      b ← w_bridge_address act; memo ← parse_withdrawal_memo (w_memo act);
      Some (addr_bytes b, memo_rollup_withdrawal_event_id memo)
  | _ => None
  end.

Lemma reads_check_transfer act from : reads (check_transfer act from).
Proof.
  unfold check_transfer, is_a_bridge_account, get_bridge_account_rollup_id,
    get_transaction_context, get_bridge_account_withdrawer_address, get_account_balance.
  apply reads_bind; [apply reads_wrap, reads_ensure_prefix|intros _].
  apply reads_bind; [auto with astria|intros b].
  apply reads_bind; [destruct b; auto 8 with astria|intros _]. auto with astria.
Qed.
Lemma reads_check_bridge_unlock act : reads (check_bridge_unlock act).
Proof.
  unfold check_bridge_unlock.
  apply reads_bind; [|intros _]; apply reads_wrap, reads_ensure_prefix.
Qed.

Lemma grows_lookup {K V} `{Countable K} (f : State -> gmap K V) s s' k :
  grows f s s' -> is_Some (f s !! k) -> is_Some (f s' !! k).
Proof. intros Hg [v Hv]. exists v. by eapply lookup_weaken. Qed.

(** Marking an event, then going on with something that only adds events. *)
Lemma marks {A} msg a ev n (k : M A) s x s' :
  ensures (grows events_of) k ->
  (wrap_err msg (check_and_set_withdrawal_event_block_for_bridge_account a ev n);; k) s
    = (Done x, s') ->
  events_of s !! (a, ev) = None /\ is_Some (events_of s' !! (a, ev)).
Proof.
  intros Hk Hs. apply bind_done in Hs as (u & s1 & E & Hs). run_inv E. subst.
  split; [done|]. eapply grows_lookup; [by eapply Hk|]. unfold events_of. simpl.
  rewrite lookup_insert_eq. eauto.
Qed.

(** Looking first does not matter. *)
Lemma looks {A B} (m : M A) (k : A -> M B) s b s' (P : State -> Prop) :
  reads m -> (forall a, k a s = (Done b, s') -> P s) -> (m ≫= k) s = (Done b, s') -> P s.
Proof.
  intros Hm Hk Hs. apply bind_done in Hs as (a & s1 & E & Hs).
  apply (reads_done _ _ _ _ Hm) in E as ->. eauto.
Qed.

Lemma reads_is_bridge a : reads (is_a_bridge_account a).
Proof. unfold is_a_bridge_account, get_bridge_account_rollup_id. auto with astria. Qed.
Lemma reads_expect_context : reads expect_context.
Proof. unfold expect_context, get_transaction_context. auto with astria. Qed.
#[local] Hint Resolve reads_check_transfer reads_check_bridge_unlock reads_is_bridge
  reads_bridge_asset reads_ensure_prefix reads_expect_context : astria.

Lemma grows_execute_transfer act from : ensures (grows events_of) (execute_transfer act from).
Proof. ensures_tac. Qed.
Lemma grows_bridge_lock act : ensures (grows events_of) (execute_bridge_lock act).
Proof. ensures_tac. Qed.

Lemma unlock_uses_event act s u s' :
  bridge_unlock_execute act s = (Done u, s') ->
  events_of s !! (addr_bytes (bu_bridge_address act), bu_rollup_withdrawal_event_id act) = None /\
  is_Some (events_of s' !! (addr_bytes (bu_bridge_address act), bu_rollup_withdrawal_event_id act)).
Proof.
  unfold bridge_unlock_execute.
  do 5 (eapply (looks _ _ s _ _ (fun s => _)); [auto with astria|intros ?]).
  apply marks, grows_execute_transfer.
Qed.

Lemma bridge_transfer_uses_event act s u s' :
  bridge_transfer_execute act s = (Done u, s') ->
  events_of s !! (addr_bytes (bt_bridge_address act), bt_rollup_withdrawal_event_id act) = None /\
  is_Some (events_of s' !! (addr_bytes (bt_bridge_address act), bt_rollup_withdrawal_event_id act)).
Proof.
  unfold bridge_transfer_execute.
  do 4 (eapply (looks _ _ s _ _ (fun s => _)); [auto with astria|intros ?]).
  apply marks, grows_bridge_lock.
Qed.

Lemma withdrawal_uses_event act b memo s u s' :
  w_bridge_address act = Some b -> parse_withdrawal_memo (w_memo act) = Some memo ->
  ics20_withdrawal_execute act s = (Done u, s') ->
  events_of s !! (addr_bytes b, memo_rollup_withdrawal_event_id memo) = None /\
  is_Some (events_of s' !! (addr_bytes b, memo_rollup_withdrawal_event_id memo)).
Proof.
  intros Hb Hm. unfold ics20_withdrawal_execute. rewrite Hb.
  do 2 (eapply (looks _ _ s _ _ (fun s => _)); [auto with astria|intros ?]).
  intros Hs. apply bind_done in Hs as ([] & s1 & E & Hs).
  unfold set_withdrawal_event in E. rewrite Hm in E. run_inv E. simplify_eq.
  along (grows events_of) Hs; [ensures_tac|]. split; [done|].
  eapply grows_lookup; [exact Hs|]. unfold events_of. simpl. rewrite lookup_insert_eq. eauto.
Qed.

Lemma action_uses_event tx action k s u s' :
  uses_event action = Some k -> execute_action tx action s = (Done u, s') ->
  events_of s !! k = None /\ is_Some (events_of s' !! k).
Proof.
  intros Hk Hs.
  destruct action; try done; simpl in Hk, Hs; rewrite wrap_err_done, pay_done in Hs;
    destruct Hs as (s1 & E & Hs);
    (along (same events_of) Hs; [ensures_tac|rewrite Hs; revert E; open_action; intros E]).
  - destruct (w_bridge_address act) as [b|] eqn:Hb; [|done]. simpl in Hk.
    destruct (parse_withdrawal_memo (w_memo act)) as [memo|] eqn:Hm; [|done].
    simpl in Hk. injection Hk as <-. by eapply withdrawal_uses_event.
  - injection Hk as <-. by eapply unlock_uses_event.
  - injection Hk as <-. by eapply bridge_transfer_uses_event.
Qed.

(** ** Registration of bridge accounts *)
(** The rollup and the asset of a registered bridge account. *)
Definition bridge_fixed (s s' : State) : Prop :=
  forall a r, rollup_ids (bridge s) !! a = Some r ->
  rollup_ids (bridge s') !! a = Some r /\ asset_ids (bridge s') !! a = asset_ids (bridge s) !! a.
#[export] Instance bridge_fixed_preorder : PreOrder bridge_fixed.
Proof.
  split; [intros s|intros s1 s2 s3]; unfold bridge_fixed; [done|].
  intros H12 H23 a r Ha. destruct (H12 a r Ha) as [Ha2 E2].
  destruct (H23 a r Ha2) as [Ha3 E3]. split; congruence.
Qed.

Definition registration (s : State) := (rollup_ids (bridge s), asset_ids (bridge s)).
Lemma registration_fixed {A} (m : M A) : ensures (same registration) m -> ensures bridge_fixed m.
Proof.
  apply ensures_mono. unfold same, registration, bridge_fixed. intros s s' [= -> ->]. done.
Qed.

Lemma fixed_init act : ensures bridge_fixed (init_bridge_account_execute act).
Proof.
  intros s u s'. unfold init_bridge_account_execute.
  do 3 (eapply (looks _ _ s _ _ (fun s => bridge_fixed s s'));
        [unfold ensure_optional_prefix; try case_match; auto with astria|intros ?]).
  intros Hs. unfold get_bridge_account_rollup_id, put_bridge_account_rollup_id,
    put_bridge_account_ibc_asset, put_bridge_account_sudo_address,
    put_bridge_account_withdrawer_address in Hs.
  run_inv Hs. subst.
  match goal with E : bool_decide _ = true |- _ => apply bool_decide_eq_true in E end.
  intros b r Hb. simpl. rewrite !lookup_insert_ne; [done|congruence..].
Qed.
End Bridge.
