(* ===== verification/Demo.v ===== *)
(** * A concrete chain

    Instances of the library functions and small states, on which the theorems
    are applied.  SHA-256 is replaced by the identity, JSON and bech32 by the
    slash-separated hex of the fields. *)
From S2P Require Import Prelude Denom Types State Chain Accounts Authority.
From S2P Require Import BridgeActions Ics20 Relay Transact.
From stdpp Require Import base list option strings gmap.
From Stdlib Require Import ZArith Lia Ascii String.
Open Scope string_scope.
Open Scope Z_scope.

Definition encode_fields (l : list string) : string := Denom.join (map hex_encode l).
Definition decode_fields (s : string) : list string := map unhex (split_slash s).

Lemma decode_encode l : l <> [] -> decode_fields (encode_fields l) = l.
Proof.
  intros Hl. unfold decode_fields, encode_fields. rewrite split_join.
  - rewrite map_map. rewrite <- (map_id l) at 2. apply map_ext, unhex_encode.
  - by destruct l.
  - clear Hl. induction l as [|x l IH]; simpl; [done|]. by rewrite hex_encode_no_slash.
Qed.

Definition demo_packet_to_json (p : FungibleTokenPacketData) : string :=
  encode_fields [pkt_amount p; pkt_denom p; pkt_sender p; pkt_receiver p; pkt_memo p].
Definition demo_packet_from_json (s : string) : option FungibleTokenPacketData :=
  match decode_fields s with
  | [a; d; f; t; m] => Some (mk_packet_data a d f t m)
  | _ => None
  end.
Definition demo_address_encode (hrp bs : string) : string := encode_fields [hrp; bs].
Definition demo_address_decode (s : string) : option (string * string) :=
  match decode_fields s with [hrp; bs] => Some (hrp, bs) | _ => None end.
(** A withdrawal memo: [block/event/return/memo], the block as one byte. *)
Definition demo_withdrawal_memo (s : string) : option Ics20WithdrawalFromRollup :=
  match decode_fields s with
  | [String b ""; ev; ret; memo] =>
      Some (mk_withdrawal_memo (Z.of_nat (nat_of_ascii b)) ev ret memo)
  | _ => None
  end.

#[export] Instance demo : External := {|
  ext_sha256 := fun s => s;
  ext_from_hex := toy_from_hex;
  hrp_parse := fun _ => true;
  bech32m_decode := demo_address_decode;
  bech32_decode := demo_address_decode;
  bech32m_encode := demo_address_encode;
  bech32_encode := demo_address_encode;
  parse_withdrawal_memo := demo_withdrawal_memo;
  parse_deposit_memo := fun s => if is_empty s then None else Some s;
  packet_data_to_json := demo_packet_to_json;
  packet_data_from_json := demo_packet_from_json;
  ack_from_json := fun s => Some (String.eqb s "ok");
  ack_success := "ok";
  ack_error := fun s => "error: " ++ s;
  send_packet_check := fun _ _ _ => true;
  write_acknowledgement_check := fun _ _ _ => true |}.

(** A library that relays packets as slash-separated hex, without checks *)
Definition demo_message (act : IbcRelay) : RelayedMessage :=
  match decode_fields (raw_action act) with
  | ["recv"; pa; ca; pb; cb; d] => MsgRecvPacket (mk_in_packet pa ca pb cb d)
  | ["timeout"; pa; ca; pb; cb; d] => MsgTimeout (mk_in_packet pa ca pb cb d)
  | _ => OtherMessage
  end.
#[export] Instance demo_relay : Relay := {|
  relay_check_stateless := fun _ => true;
  relay_message := demo_message;
  relay_checks := fun _ _ => Ok tt;
  relay_writes := fun act s => (<[raw_action act := "relayed"]> (library (ibc s)), []);
  ibc_begin_block := fun s => library (ibc s);
  ibc_end_block := fun s => library (ibc s);
  get_client_status := fun _ id _ => if String.eqb id "expired" then Expired else Active;
  get_client_state := fun s id => None;
  get_verified_consensus_state := fun _ _ _ => None;
  put_verified_consensus_state := fun _ _ _ _ => None;
  put_client := fun s _ _ => library (ibc s) |}.

(** ** Accounts and assets *)
Definition alice : address_bytes := "alice_______________".
Definition bob : address_bytes := "bob_________________".
Definition carol : address_bytes := "carol_______________".
Definition on_chain (a : address_bytes) : Address := mk_address a "astria".
Definition nria : TracePrefixed := mk_trace [] "nria".
Definition nria_denom : Denom := Denom_TracePrefixed nria.
Definition nria_id : IbcPrefixed := trace_to_ibc_prefixed nria.

(** ** States *)
Definition empty_state : State :=
  mk_state (mk_accounts ∅ ∅) (mk_bridge ∅ ∅ ∅ ∅ ∅ ∅ ∅ ∅) (mk_fees ∅ ∅ None)
    (mk_authority None None ∅ None None) (mk_ibc None ∅ ∅ [] [] ∅)
    (mk_addressconfig None None) (mk_assets None ∅) (mk_appdata None None None None ∅ None)
    (mk_oracle ∅ ∅ ∅ None None) (mk_markets None None) ∅ None [].

(** A chain on which Alice, the sudo account, holds 1000 nria and every action
    costs a base fee of 10. *)
Definition demo_state : State :=
  mk_state
    (mk_accounts {[ (alice, nria_id) := 1000 ]} ∅)
    (mk_bridge ∅ ∅ ∅ ∅ ∅ ∅ ∅ ∅)
    (mk_fees (list_to_map (map (fun n => (n, mk_components 10 0))
       ["transfer"; "bridge_lock"; "bridge_unlock"; "bridge_transfer"; "init_bridge_account";
        "bridge_sudo_change"; "ics20_withdrawal"; "rollup_data_submission"; "validator_update";
        "sudo_address_change"; "fee_change"; "fee_asset_change"; "ibc_sudo_change";
        "ibc_relayer_change"; "ibc_relay"; "recover_ibc_client"; "currency_pairs_change";
        "markets_change"])) {[ nria_id ]} None)
    (mk_authority (Some alice) (Some ∅) ∅ None None)
    (mk_ibc (Some alice) ∅ ∅ [] [] ∅)
    (mk_addressconfig (Some "astria") (Some "astriacompat"))
    (mk_assets (Some nria) {[ nria_id := nria ]})
    (mk_appdata (Some "astria-1") (Some 1) (Some 1) (Some 0) ∅ None)
    (mk_oracle ∅ ∅ ∅ None None) (mk_markets None None) ∅ None [].

Definition demo_tx (signer : address_bytes) (nonce : Z) (actions : list Action) : Transaction :=
  mk_transaction "tx" signer "astria-1" nonce actions "tx".

(** The state after a transaction, and whether it succeeded. *)
Definition after (tx : Transaction) (s : State) : State := (execute_transaction tx s).2.
Definition executed (tx : Transaction) (s : State) : bool :=
  match (execute_transaction tx s).1 with Done _ => true | _ => false end.

Lemma after_done tx s : executed tx s = true -> exists evs, execute_transaction tx s = (Done evs, after tx s).
Proof. unfold executed, after. destruct (execute_transaction tx s) as [[] ?]; naive_solver. Qed.

(** In a context of execution. *)
Definition in_context (signer : address_bytes) (s : State) : State :=
  on_tx_context (fun _ => Some (mk_context signer "tx" 0)) s.
