(* ===== verification/LedgerTheorems.v ===== *)
(** * Properties of transaction execution

    The theorems on whole transactions, and their instances on the concrete
    chain of [Demo]. *)
From S2P Require Import Prelude Denom Types State Chain Accounts Authority.
From S2P Require Import BridgeActions Ics20 Relay Transact Conservation RelayLemmas TransactTheorems.
From S2P Require Import Demo.
From stdpp Require Import base list option strings gmap fin_maps.
From Stdlib Require Import ZArith Lia String RelationClasses.
Open Scope string_scope.
Open Scope Z_scope.

(** States reached by submitting transactions, which may fail. *)
Inductive reaches `{External, Relay} : State -> State -> Prop :=
| reaches_refl s : reaches s s
| reaches_tx s tx s' : reaches (execute_transaction tx s).2 s' -> reaches s s'.

Section Helpers.
Context `{External, Relay}.

Lemma failed_unchanged tx s : (forall evs s', execute_transaction tx s <> (Done evs, s')) ->
  (execute_transaction tx s).2 = s.
Proof.
  unfold execute_transaction. destruct (transaction_check_stateless tx); [|done].
  destruct (transaction_check_and_execute _ _) as [[] ?]; naive_solver.
Qed.

(** What holds along every successful transaction holds along submissions. *)
Lemma reaches_along (R : State -> State -> Prop) `{!PreOrder R} s s' :
  (forall tx s evs s', execute_transaction tx s = (Done evs, s') -> R s s') ->
  reaches s s' -> R s s'.
Proof.
  intros HR. induction 1 as [s|s tx s' _ IH]; [done|]. etransitivity; [|exact IH].
  destruct (execute_transaction tx s) as [[evs| |] s1] eqn:E; simpl; [by eapply HR|..];
    (assert ((execute_transaction tx s).2 = s) as Es by (apply failed_unchanged; rewrite E; done));
    rewrite E in Es; simpl in Es; by subst.
Qed.

Lemma nonces_after tx s evs s' :
  execute_transaction tx s = (Done evs, s') ->
  nonce_of s (tx_address_bytes tx) = tx_nonce tx /\
  nonces (accounts s') = <[tx_address_bytes tx := tx_nonce tx + 1]> (nonces (accounts s)).
Proof.
  intros Hs. apply execute_transaction_done in Hs as (_ & s1 & Hs & ->).
  apply transaction_done in Hs as (_ & Hn & _ & s2 & Hs & ->).
  apply (execute_actions_ensures (same (fun s => nonces (accounts s)))) in Hs; [|done|done|].
  - change (nonce_of s (tx_address_bytes tx) = tx_nonce tx) in Hn. split; [done|].
    unfold same in Hs. simpl. rewrite Hs. unfold start_actions.
    destruct (rollup_ids _ !! _); simpl; by rewrite <- Hn.
  - apply Forall_forall. intros. by apply frame_nonces.
Qed.

Lemma nonce_grows tx s evs s' a :
  execute_transaction tx s = (Done evs, s') -> nonce_of s a <= nonce_of s' a.
Proof.
  intros Hs. apply nonces_after in Hs as [Hn Hs]. unfold nonce_of in *.
  rewrite Hs. destruct (decide (a = tx_address_bytes tx)) as [->|].
  - rewrite lookup_insert_eq. simpl. lia.
  - by rewrite lookup_insert_ne.
Qed.

Definition nonce_le (a : address_bytes) (s s' : State) : Prop := nonce_of s a <= nonce_of s' a.
#[export] Instance nonce_le_preorder a : PreOrder (nonce_le a).
Proof. split; [intros s|intros s1 s2 s3]; unfold nonce_le; lia. Qed.

Lemma execute_actions_uses_event tx ctx i l action k s u s' :
  action ∈ l -> uses_event action = Some k ->
  execute_actions tx ctx i l s = (Done u, s') ->
  events_of s !! k = None /\ is_Some (events_of s' !! k).
Proof.
  intros Hin Hk. revert i s. induction l as [|a l IH]; intros i s Hs; [by apply not_elem_of_nil in Hin|].
  simpl in Hs. apply bind_done in Hs as (c & s1 & E1 & Hs).
  unfold put_transaction_context in E1. run_inv E1. subst.
  apply bind_done in Hs as ([] & s2 & E2 & Hs).
  pose proof (frame_events tx a _ _ _ E2) as Hg.
  assert (ensures (grows events_of) (execute_actions tx ctx (i + 1) l)) as Hgl.
  { clear. generalize (i + 1). induction l as [|b l IHl]; intros j; simpl.
    - ensures_tac.
    - apply ensures_bind; [apply grows_preorder|ensures_tac|intros _].
      apply ensures_bind; [apply grows_preorder|by apply frame_events|intros _; apply IHl]. }
  apply elem_of_cons in Hin as [<-|Hin].
  - apply (action_uses_event _ _ k) in E2 as [Hn Hd]; [|done].
    split; [done|]. by eapply grows_lookup; [eapply Hgl|].
  - apply IH in Hs as [Hn Hd]; [|done]. split; [|done].
    change (events_of s) with (events_of (on_tx_context (fun _ => Some
      (mk_context (ctx_address_bytes ctx) (ctx_transaction_id ctx) i)) s)).
    by eapply lookup_weaken_None.
Qed.

Lemma transaction_uses_event tx action k s evs s' :
  action ∈ tx_actions tx -> uses_event action = Some k ->
  execute_transaction tx s = (Done evs, s') ->
  events_of s !! k = None /\ is_Some (events_of s' !! k).
Proof.
  intros Hin Hk Hs. apply execute_transaction_done in Hs as (_ & s1 & Hs & ->).
  apply transaction_done in Hs as (_ & _ & _ & s2 & Hs & ->).
  eapply execute_actions_uses_event in Hs as [Hn Hd]; [|done..]. split; [|done].
  unfold start_actions in Hn. by destruct (rollup_ids _ !! _).
Qed.

Lemma events_grow tx s evs s' :
  execute_transaction tx s = (Done evs, s') -> grows events_of s s'.
Proof.
  apply (execute_transaction_ensures (grows events_of)); try done;
    try (intros; unfold grows; simpl; reflexivity).
  apply Forall_forall. intros. by apply frame_events.
Qed.

Lemma parameters_execute_actions tx ctx l i s u s' :
  execute_actions tx ctx i l s = (Done u, s') -> by_sudo (ctx_address_bytes ctx) s s'.
Proof.
  revert i s. induction l as [|a l IH]; intros i s Hs; simpl in Hs.
  - run_inv Hs. by subst.
  - apply bind_done in Hs as (c & s1 & E1 & Hs).
    unfold put_transaction_context in E1. run_inv E1. subst.
    apply bind_done in Hs as ([] & s2 & E2 & Hs). apply IH in Hs.
    apply parameters_action with (c := mk_context (ctx_address_bytes ctx) (ctx_transaction_id ctx) i)
      in E2; [|done].
    etransitivity; [|exact Hs]. exact E2.
Qed.

Lemma fixed_action tx action :
  ensures bridge_fixed (execute_action tx action).
Proof.
  destruct action; simpl.
  all: lazymatch goal with
       | act : InitBridgeAccount |- _ =>
           apply ensures_pay; [typeclasses eauto|exact (fixed_init act)|apply registration_fixed; ensures_tac]
       | _ => apply registration_fixed; ensures_tac
       end.
Qed.
End Helpers.

(** ** Theorems *)

(** C1. Funds are conserved by transactions.  For every asset, the supply over
    all accounts plus the fees collected in the block plus the IBC escrow is the
    same after an executed transaction as before, less exactly what its withdrawals of
    foreign assets burned.  The transaction relays no IBC messages, which mint the
    assets of other chains. *)
Theorem transaction_conserves_funds `{External, Relay} tx s evs s' (asset : IbcPrefixed)
    (Hlocal : forallb local (tx_actions tx) = true)
    (Hs : execute_transaction tx s = (Done evs, s')) :
  value asset s' + total_burned asset (tx_actions tx) = value asset s.
Proof.
  apply execute_transaction_done in Hs as (_ & s1 & Hs & ->).
  apply transaction_done in Hs as (_ & _ & _ & s2 & Hs & ->).
  apply value_execute_actions with (asset := asset) in Hs; [|done].
  rewrite start_actions_value in Hs. exact Hs.
Qed.

Definition pay_bob : Transaction :=
  demo_tx alice 0 [Action_Transfer (mk_transfer (on_chain bob) 100 nria_denom nria_denom)].

Lemma transaction_conserves_funds_witness :
  balance_of (after pay_bob demo_state) bob nria_id = 100 /\
  block_fees_total nria_id (after pay_bob demo_state) = 10 /\
  value nria_id (after pay_bob demo_state) + 0 = value nria_id demo_state.
Proof.
  split; [reflexivity|]. split; [reflexivity|].
  destruct (after_done pay_bob demo_state) as [evs E]; [vm_compute; reflexivity|].
  apply (transaction_conserves_funds pay_bob demo_state evs); [reflexivity|exact E].
Defined.

(** An executed transaction carries the signer's next nonce and uses it up; no
    other account's nonce changes. *)
Theorem transaction_uses_nonce `{External, Relay} tx s evs s'
    (Hs : execute_transaction tx s = (Done evs, s')) :
  nonce_of s (tx_address_bytes tx) = tx_nonce tx /\
  forall a, nonce_of s' a = if decide (a = tx_address_bytes tx) then tx_nonce tx + 1
                            else nonce_of s a.
Proof.
  apply nonces_after in Hs as [Hn Hs]. split; [done|]. intros a.
  unfold nonce_of in *. rewrite Hs. case_decide; subst.
  - by rewrite lookup_insert_eq.
  - by rewrite lookup_insert_ne.
Qed.

Lemma transaction_uses_nonce_witness : nonce_of (after pay_bob demo_state) alice = 1.
Proof.
  destruct (after_done pay_bob demo_state) as [evs E]; [vm_compute; reflexivity|].
  destruct (transaction_uses_nonce pay_bob demo_state evs (after pay_bob demo_state)) as [_ Hn].
  - exact E.
  - rewrite Hn. reflexivity.
Defined.

(** C3. An executed transaction can never be executed again, whatever transactions
    are submitted in between. *)
Theorem no_replay `{External, Relay} tx s evs s1 s2
    (Hs : execute_transaction tx s = (Done evs, s1)) (Hreach : reaches s1 s2) :
  forall evs' s', execute_transaction tx s2 <> (Done evs', s').
Proof.
  intros evs' s' Hs2. apply nonces_after in Hs2 as [Hn2 _].
  apply (reaches_along (nonce_le (tx_address_bytes tx))) in Hreach.
  - apply nonces_after in Hs as [Hn Hs]. unfold nonce_le, nonce_of at 1 in Hreach.
    rewrite Hs, lookup_insert_eq in Hreach. simpl in Hreach. lia.
  - intros. by eapply nonce_grows.
Qed.

Lemma no_replay_witness :
  executed pay_bob demo_state = true /\
  forall evs s', execute_transaction pay_bob (after pay_bob (after pay_bob demo_state)) <> (Done evs, s').
Proof.
  split; [vm_compute; reflexivity|].
  destruct (after_done pay_bob demo_state) as [evs E]; [vm_compute; reflexivity|].
  apply (no_replay pay_bob demo_state evs (after pay_bob demo_state)).
  - exact E.
  - eapply (reaches_tx _ pay_bob). apply reaches_refl.
Defined.

(** C4. Only the sudo account changes the chain's parameters: the validators, the
    sudo and IBC sudo keys, the fees and fee assets, the currency pairs and the
    markets.  A transaction of any other signer leaves all of them as they are. *)
Theorem only_sudo_changes_parameters `{External, Relay} tx s evs s'
    (Hs : execute_transaction tx s = (Done evs, s'))
    (Hsigner : sudo (authority s) <> Some (tx_address_bytes tx)) :
  parameters s' = parameters s.
Proof.
  apply execute_transaction_done in Hs as (_ & s1 & Hs & ->).
  apply transaction_done in Hs as (_ & _ & _ & s2 & Hs & ->).
  apply parameters_execute_actions in Hs.
  assert (parameters (start_actions tx (on_events (fun _ => []) s)) = parameters s) as E.
  { unfold start_actions. by destruct (rollup_ids _ !! _). }
  destruct Hs as [Hs|Hs]; [by rewrite <- E|].
  destruct Hsigner. apply (f_equal (fun p => sudo p.1.1.1.1.1)) in E.
  etransitivity; [symmetry; exact E|exact Hs].
Qed.

Definition bob_submits : Transaction :=
  demo_tx bob 0 [Action_RollupDataSubmission (mk_submission "rollup" "data" nria_denom)].

Lemma only_sudo_changes_parameters_witness :
  parameters (after bob_submits (after pay_bob demo_state)) = parameters (after pay_bob demo_state).
Proof.
  destruct (after_done bob_submits (after pay_bob demo_state)) as [evs E]; [vm_compute; reflexivity|].
  apply (only_sudo_changes_parameters bob_submits (after pay_bob demo_state) evs).
  - exact E.
  - vm_compute. discriminate.
Defined.

(** The rollup and the asset a bridge account was registered with stay as they
    are, whatever transactions are submitted. *)
Theorem bridge_accounts_are_permanent `{External, Relay} s s' (a : address_bytes) (r : RollupId)
    (Hreach : reaches s s') (Ha : rollup_ids (bridge s) !! a = Some r) :
  rollup_ids (bridge s') !! a = Some r /\
  asset_ids (bridge s') !! a = asset_ids (bridge s) !! a.
Proof.
  revert Ha. apply (reaches_along bridge_fixed); [|done].
  intros tx. apply (execute_transaction_ensures bridge_fixed); try done.
  apply Forall_forall. intros. by apply fixed_action.
Qed.

Definition open_bridge : Transaction :=
  demo_tx bob 0 [Action_InitBridgeAccount (mk_init "rollup" nria_denom nria_denom None (Some (on_chain carol)))].
Definition bridged_state : State := after open_bridge (after pay_bob demo_state).

Lemma bridge_accounts_are_permanent_witness :
  rollup_ids (bridge (after pay_bob bridged_state)) !! bob = Some "rollup".
Proof.
  apply (bridge_accounts_are_permanent bridged_state _ bob "rollup").
  - eapply (reaches_tx _ pay_bob). apply reaches_refl.
  - vm_compute. reflexivity.
Defined.

(** A withdrawal event is paid out at most once: after a transaction that used
    the event of a rollup's bridge account, no transaction with an unlock, a
    bridge transfer or a withdrawal for the same event is executed. *)
Theorem withdrawal_event_used_once `{External, Relay} tx1 tx2 a1 a2 k s evs s1 s2
    (Hs : execute_transaction tx1 s = (Done evs, s1))
    (H1 : a1 ∈ tx_actions tx1) (Hk1 : uses_event a1 = Some k) (Hreach : reaches s1 s2)
    (H2 : a2 ∈ tx_actions tx2) (Hk2 : uses_event a2 = Some k) :
  forall evs' s', execute_transaction tx2 s2 <> (Done evs', s').
Proof.
  intros evs' s' Hs2.
  destruct (transaction_uses_event tx1 a1 k s evs s1) as [_ Hd]; [done..|].
  destruct (transaction_uses_event tx2 a2 k s2 evs' s') as [Hn _]; [done..|].
  apply (reaches_along (grows events_of)) in Hreach.
  - eapply grows_lookup in Hd; [|exact Hreach]. rewrite Hn in Hd. by destruct Hd.
  - intros. by eapply events_grow.
Qed.

(** Alice locks 200 into Bob's bridge account; Carol, its withdrawer, unlocks. *)
Definition lock : Transaction :=
  demo_tx alice 1 [Action_BridgeLock (mk_lock (on_chain bob) 200 nria_denom nria_denom "0xdest");
                   Action_Transfer (mk_transfer (on_chain carol) 300 nria_denom nria_denom)].
Definition unlock_action (event : string) : Action :=
  Action_BridgeUnlock (mk_unlock (on_chain alice) 50 nria_denom (on_chain bob) "" 7 event).
Definition unlock (n : Z) (event : string) : Transaction := demo_tx carol n [unlock_action event].
Definition unlocked_state : State := after (unlock 0 "event") (after lock bridged_state).

Lemma withdrawal_event_used_once_witness :
  executed (unlock 0 "event") (after lock bridged_state) = true /\
  executed (unlock 1 "other") unlocked_state = true /\
  forall evs s', execute_transaction (unlock 1 "event") unlocked_state <> (Done evs, s').
Proof.
  split; [vm_compute; reflexivity|]. split; [vm_compute; reflexivity|].
  destruct (after_done (unlock 0 "event") (after lock bridged_state)) as [evs E];
    [vm_compute; reflexivity|].
  apply (withdrawal_event_used_once (unlock 0 "event") (unlock 1 "event")
           (unlock_action "event") (unlock_action "event") (bob, "event")
           (after lock bridged_state) evs unlocked_state).
  - exact E.
  - apply elem_of_cons. left. reflexivity.
  - reflexivity.
  - apply reaches_refl.
  - apply elem_of_cons. left. reflexivity.
  - reflexivity.
Defined.
