(* ===== verification/ActionTheorems.v ===== *)
(** * Properties of single actions

    What a transfer does, exactly; whose funds a bridge transfer moves; what a
    withdrawer must hold; and the invariants that the sudo actions keep. *)
From S2P Require Import Prelude Denom Types State Chain Accounts Authority.
From S2P Require Import BridgeActions Ics20 Relay Transact Conservation TransactTheorems.
From S2P Require Import Demo.
From stdpp Require Import base list option strings gmap fin_maps.
From Stdlib Require Import ZArith Lia String RelationClasses.
Open Scope string_scope.
Open Scope Z_scope.

(** ** Transfers *)
(** The state after moving [amount] of [asset]: first the debit, then the credit. *)
Definition moved (from to : address_bytes) (asset : IbcPrefixed) (amount : Z) (s : State) : State :=
  let s1 := set_balance from asset (balance_of s from asset - amount) s in
  set_balance to asset (balance_of s1 to asset + amount) s1.
Definition movable (from to : address_bytes) (asset : IbcPrefixed) (amount : Z) (s : State) : Prop :=
  amount <= balance_of s from asset /\
  balance_of (set_balance from asset (balance_of s from asset - amount) s) to asset + amount
    < 2 ^ 128.

Section Transfers.
Context `{External, Relay}.

Lemma execute_transfer_done act from s u s' :
  execute_transfer act from s = (Done u, s') <->
  movable from (addr_bytes (tr_to act)) (to_ibc_prefixed (tr_asset act)) (tr_amount act) s /\
  s' = moved from (addr_bytes (tr_to act)) (to_ibc_prefixed (tr_asset act)) (tr_amount act) s.
Proof.
  unfold execute_transfer, movable, moved. rewrite bind_done. split.
  - intros (u1 & s1 & E & Hs). rewrite wrap_err_done in E, Hs. run_inv E. run_inv Hs. by subst.
  - intros [[Ha Hb] ->]. eexists tt, _. rewrite !wrap_err_done.
    by rewrite decrease_balance_done, increase_balance_done.
Qed.

Lemma balance_of_moved from to asset amount s a x :
  balance_of (moved from to asset amount s) a x =
  balance_of s a x + (if decide (x = asset /\ a = to) then amount else 0)
                   - (if decide (x = asset /\ a = from) then amount else 0).
Proof.
  unfold moved. rewrite !balance_of_set_balance.
  repeat case_decide; destruct_and?; simplify_eq; try lia; tauto.
Qed.

(** The check of a transfer out of an account that is not a bridge account. *)
Lemma check_transfer_plain act from s :
  rollup_ids (bridge s) !! from = None ->
  forall u s', check_transfer act from s = (Done u, s') <->
  base_prefix (address_config s) = Some (addr_prefix (tr_to act)) /\
  tr_amount act <= balance_of s from (to_ibc_prefixed (tr_asset act)) /\ s' = s.
Proof.
  intros Hr u s'. unfold check_transfer. split.
  - intros Hs. apply bind_done in Hs as (u1 & s1 & E & Hs). run_inv E. subst.
    apply bind_done in Hs as (b & s1 & E & Hs). run_inv E. subst.
    rewrite bool_decide_eq_false_2 in Hs by (rewrite Hr; by intros []).
    run_inv Hs. subst. match goal with E : (_ <=? _) = true |- _ => apply Z.leb_le in E end. done.
  - intros (Hp & Ha & ->). apply bind_done. exists tt, s. rewrite wrap_err_done,
      ensure_base_prefix_done. split; [done|].
    apply bind_done. exists false, s. rewrite wrap_err_done, is_a_bridge_account_done.
    rewrite bool_decide_eq_false_2 by (rewrite Hr; by intros []). split; [done|].
    apply bind_done. exists tt, s. split; [done|].
    apply bind_done. eexists _, s. rewrite wrap_err_done, get_account_balance_done. split; [done|].
    rewrite ensure_done. by rewrite Z.leb_le.
Qed.
End Transfers.

(** A transfer succeeds exactly when it is executed in a transaction whose
    signer is not a bridge account, the recipient has the chain's address
    prefix, the signer holds the amount and the recipient's balance stays below
    2^128; it then moves the amount and does nothing else. *)
Theorem transfer_exact `{External} (act : Transfer) s s' :
  transfer_execute act s = (Done tt, s') <->
  exists c, tx_context s = Some c /\
  rollup_ids (bridge s) !! ctx_address_bytes c = None /\
  base_prefix (address_config s) = Some (addr_prefix (tr_to act)) /\
  movable (ctx_address_bytes c) (addr_bytes (tr_to act)) (to_ibc_prefixed (tr_asset act))
    (tr_amount act) s /\
  s' = moved (ctx_address_bytes c) (addr_bytes (tr_to act)) (to_ibc_prefixed (tr_asset act))
         (tr_amount act) s.
Proof.
  unfold transfer_execute. split.
  - intros Hs. apply bind_done in Hs as (c & s1 & [Hc ->]%expect_context_done & Hs).
    exists c. unfold get_bridge_account_rollup_id in Hs.
    apply bind_done in Hs as (r & s1 & E & Hs). run_inv E. subst.
    apply bind_done in Hs as (u & s1 & E & Hs). run_inv E. subst.
    match goal with E : bool_decide _ = true |- _ => apply bool_decide_eq_true in E as Hr end.
    apply bind_done in Hs as ([] & s1 & E & Hs).
    apply check_transfer_plain in E as (Hp & Ha & ->); [|done].
    by apply execute_transfer_done in Hs as [Hm ->].
  - intros (c & Hc & Hr & Hp & Hm & ->). run_eval. unfold expect_context, get_transaction_context.
    run_eval. rewrite Hc. unfold get_bridge_account_rollup_id. run_eval.
    rewrite bool_decide_eq_true_2 by done.
    rewrite (proj2 (check_transfer_plain act (ctx_address_bytes c) s Hr tt s)) by
      (split_and!; [done|apply Hm|done]).
    by rewrite (proj2 (execute_transfer_done act _ s tt _) (conj Hm eq_refl)).
Qed.

Lemma transfer_exact_witness :
  transfer_execute (mk_transfer (on_chain bob) 100 nria_denom nria_denom) (in_context alice demo_state)
  = (Done tt, moved alice bob nria_id 100 (in_context alice demo_state)).
Proof.
  apply transfer_exact. exists (mk_context alice "tx" 0). unfold movable.
  split_and!; try reflexivity; vm_compute; (discriminate || reflexivity).
Defined.

(** ** Bridge transfers and unlocks *)
Section BridgeMoves.
Context `{External, Relay}.

(** A bridge lock that is executed moves the amount from the signer. *)
Lemma execute_bridge_lock_done act s u s' c :
  tx_context s = Some c -> execute_bridge_lock act s = (Done u, s') ->
  let from := ctx_address_bytes c in
  let to := addr_bytes (bl_to act) in
  let asset := to_ibc_prefixed (bl_asset act) in
  movable from to asset (bl_amount act) s /\
  accounts s' = accounts (moved from to asset (bl_amount act) s).
Proof.
  intros Hc Hs. unfold execute_bridge_lock in Hs.
  apply bind_done in Hs as (c' & s1 & [Hc' ->]%expect_context_done & Hs). simplify_eq.
  unfold get_bridge_account_rollup_id, map_ibc_to_trace_prefixed_asset in Hs.
  apply bind_done in Hs as (o & s1 & E & Hs). run_inv E. subst.
  apply bind_done in Hs as (r & s1 & E & Hs). run_inv E. subst.
  apply bind_done in Hs as (d & s1 & E & Hs).
  assert (s1 = s) as -> by (destruct (bl_asset act); run_inv E; by subst).
  apply bind_done in Hs as (u1 & s1 & Ec & Hs).
  apply (reads_done _ _ _ _ (reads_check_transfer _ _)) in Ec as ->.
  apply bind_done in Hs as ([] & s1 & Et & Hs).
  apply execute_transfer_done in Et as [Hm ->]. simpl in Hm, Hs. split; [done|].
  along (same accounts) Hs; [ensures_tac|]. exact Hs.
Qed.

(** The cost check compares every asset's total cost with the signer's balance. *)
Lemma for_each_reads_done {A} (f : A -> M unit) l s u s' :
  (forall x, reads (f x)) -> for_each f l s = (Done u, s') ->
  forall x, x ∈ l -> f x s = (Done tt, s).
Proof.
  intros Hf. induction l as [|y l IH]; simpl; intros Hs x Hx; [by apply not_elem_of_nil in Hx|].
  apply bind_done in Hs as ([] & s1 & E & Hs).
  pose proof (reads_done _ _ _ _ (Hf y) E) as ->.
  apply elem_of_cons in Hx as [->|Hx]; [done|]. by apply IH.
Qed.

Lemma check_balance_covers tx s u s' :
  check_balance_for_total_fees_and_transfers tx s = (Done u, s') ->
  exists cost, get_total_transaction_cost tx s = (Done cost, s) /\
  forall asset v, cost !! asset = Some v -> v <= balance_of s (tx_address_bytes tx) asset.
Proof.
  intros Hs. unfold check_balance_for_total_fees_and_transfers in Hs.
  apply bind_done in Hs as (cost & s1 & E & Hs). rewrite wrap_err_done in E.
  pose proof (reads_done _ _ _ _ (reads_total_cost tx) E) as ->.
  exists cost. split; [done|]. intros asset v Hv.
  eapply (for_each_reads_done _ _ _ _ _) with (x := (asset, v)) in Hs.
  - run_inv Hs. subst. by apply Z.leb_le.
  - intros x. unfold get_account_balance. auto with astria.
  - by apply elem_of_map_to_list.
Qed.

Lemma add_cost_lookup asset x amount m :
  default 0 (m !! x) <= umax 128 -> 0 <= default 0 (m !! x) -> 0 <= amount <= umax 128 ->
  exists v, add_cost x amount m !! x = Some v /\ amount <= v /\
  (asset <> x -> add_cost x amount m !! asset = m !! asset).
Proof.
  intros Hm Hm0 Ha. unfold add_cost, saturating_add. destruct (m !! x) as [w|]; simpl in *.
  - exists (Z.min (w + amount) (umax 128)). rewrite lookup_insert_eq.
    split; [done|]. split; [lia|]. intros. by rewrite lookup_insert_ne.
  - exists amount. rewrite lookup_insert_eq. split; [done|]. split; [lia|].
    intros. by rewrite lookup_insert_ne.
Qed.
End BridgeMoves.

Section Checked.
Context `{External, Relay}.

Lemma transaction_checked tx s u s' :
  transaction_check_and_execute tx s = (Done u, s') ->
  let s1 := on_tx_context (fun _ => Some (transaction_context_of tx)) s in
  check_balance_for_total_fees_and_transfers tx s1 = (Done tt, s1).
Proof.
  intros Hs. unfold transaction_check_and_execute, put_transaction_context in Hs.
  apply bind_done in Hs as (c & s1 & E1 & Hs). run_inv E1. subst.
  apply bind_done in Hs as (id & s1 & E1 & Hs). run_inv E1. subst.
  apply bind_done in Hs as (u1 & s1 & E1 & Hs). run_inv E1. subst.
  apply bind_done in Hs as (n & s1 & E1 & Hs). unfold get_account_nonce in E1. run_inv E1. subst.
  apply bind_done in Hs as (u2 & s1 & E1 & Hs). run_inv E1. subst.
  apply bind_done in Hs as ([] & s1 & E1 & Hs). rewrite wrap_err_done in E1.
  pose proof (reads_done _ _ _ _ (reads_check_balance tx) E1) as ->. exact E1.
Qed.

Lemma unlock_cost act tx s cost s' asset :
  tx_actions tx = [Action_BridgeUnlock act] ->
  asset_ids (bridge s) !! addr_bytes (bu_bridge_address act) = Some asset ->
  (forall f, components (fees s) !! "bridge_unlock" = Some f -> 0 <= base f /\ 0 <= multiplier f) ->
  0 <= bu_amount act <= umax 128 ->
  get_total_transaction_cost tx s = (Done cost, s') ->
  exists v, cost !! asset = Some v /\ bu_amount act <= v.
Proof.
  intros Htx Hasset Hfees Ha Hs.
  unfold get_total_transaction_cost, get_fees_for_transaction,
    add_total_transfers_for_transaction in Hs. rewrite Htx in Hs. simpl in Hs.
  apply bind_done in Hs as (m & s1 & E & Hs). rewrite wrap_err_done in E, Hs.
  unfold add_fees_for, get_or_init_fees, get_fees in E. run_inv E. subst.
  match goal with E : components (fees s) !! _ = Some ?f |- _ => destruct (Hfees f E) as [? ?] end.
  run_inv Hs. simplify_eq.
  match goal with |- context [add_cost _ _ ?m] => destruct (add_cost_lookup asset asset (bu_amount act) m)
    as (v & Hv & Hle & _) end; try done; [..|by exists v];
  unfold calculate_and_add_fees; simpl; unfold add_cost; rewrite lookup_empty;
  match goal with |- context [<[?k := ?v]> _ !! _] =>
    destruct (decide (k = asset)) as [->|]; [rewrite lookup_insert_eq|rewrite lookup_insert_ne, lookup_empty by done]
  end; simpl; unfold saturating_add, saturating_mul, umax; assert (0 < 2 ^ 128) by done; lia.
Qed.
End Checked.

(** ** Theorems on bridge accounts *)

(** A bridge transfer does not touch the funds of the bridge account it names.
    The amount is taken from the signer, who need not have anything to do with
    that account, and the account's withdrawal event is marked as paid out. *)
Theorem bridge_transfer_takes_from_signer `{External} act s s' c
    (Hc : tx_context s = Some c)
    (Hs : bridge_transfer_execute act s = (Done tt, s'))
    (Hsigner : addr_bytes (bt_bridge_address act) <> ctx_address_bytes c)
    (Hto : addr_bytes (bt_bridge_address act) <> addr_bytes (bt_to act)) :
  (forall x, balance_of s' (addr_bytes (bt_bridge_address act)) x
             = balance_of s (addr_bytes (bt_bridge_address act)) x) /\
  (exists asset, asset_ids (bridge s) !! addr_bytes (bt_bridge_address act) = Some asset /\
     bt_amount act <= balance_of s (ctx_address_bytes c) asset) /\
  is_Some (withdrawal_events (bridge s')
           !! (addr_bytes (bt_bridge_address act), bt_rollup_withdrawal_event_id act)).
Proof.
  split_and!; [| |by apply bridge_transfer_uses_event in Hs as [_ ?]];
    unfold bridge_transfer_execute in Hs;
    apply bind_done in Hs as (u1 & s1 & E & Hs);
    apply (reads_done _ _ _ _ (reads_check_bridge_unlock _)) in E as ->;
    apply bind_done in Hs as (asset & s1 & E & Hs); run_inv E; subst;
    apply bind_done in Hs as (asset' & s1 & E & Hs); run_inv E; subst;
    apply bind_done in Hs as (u2 & s1 & E & Hs); run_inv E; subst;
    apply bind_done in Hs as (u3 & s1 & E & Hs); run_inv E; subst;
    apply execute_bridge_lock_done with (c := c) in Hs as [Hm Hs]; try done.
  - intros x. unfold balance_of at 1. rewrite Hs.
    change (balance_of (moved (ctx_address_bytes c) (addr_bytes (bt_to act)) asset (bt_amount act) s)
      (addr_bytes (bt_bridge_address act)) x = balance_of s (addr_bytes (bt_bridge_address act)) x).
    rewrite balance_of_moved. repeat case_decide; destruct_and?; congruence || lia.
  - exists asset. split; [done|]. apply Hm.
Qed.

Definition dave : address_bytes := "dave________________".
(** Bob and Dave have bridge accounts; Carol withdraws from Bob's. *)
Definition two_bridges : State :=
  on_bridge (fun _ => mk_bridge {[ bob := "rollup_b"; dave := "rollup_d" ]}
    {[ bob := nria_id; dave := nria_id ]} ∅ {[ bob := carol; dave := dave ]} ∅ ∅ ∅ ∅)
    (set_balance bob nria_id 500 demo_state).
Definition alices_bridge_transfer : BridgeTransfer :=
  mk_bridge_transfer (on_chain dave) 100 nria_denom "0xdest" (on_chain bob) 7 "event".

Lemma bridge_transfer_takes_from_signer_witness :
  let s' := (bridge_transfer_execute alices_bridge_transfer (in_context alice two_bridges)).2 in
  executed (demo_tx alice 0 [Action_BridgeTransfer alices_bridge_transfer]) two_bridges = true /\
  balance_of s' alice nria_id = 900 /\
  forall x, balance_of s' bob x = balance_of (in_context alice two_bridges) bob x.
Proof.
  split; [vm_compute; reflexivity|]. split; [vm_compute; reflexivity|].
  apply (bridge_transfer_takes_from_signer alices_bridge_transfer (in_context alice two_bridges) _
           (mk_context alice "tx" 0)).
  - reflexivity.
  - vm_compute. reflexivity.
  - discriminate.
  - discriminate.
Defined.

(** An unlock is charged to the signer as well as to the bridge account: a
    withdrawer whose own balance of the bridged asset is below the amount
    cannot unlock it, whatever the bridge account holds. *)
Theorem unlock_needs_signer_funds `{External, Relay} tx act s asset
    (Htx : tx_actions tx = [Action_BridgeUnlock act])
    (Hasset : asset_ids (bridge s) !! addr_bytes (bu_bridge_address act) = Some asset)
    (Hfees : forall f, components (fees s) !! "bridge_unlock" = Some f ->
             0 <= base f /\ 0 <= multiplier f)
    (Hamount : uint 128 (bu_amount act))
    (Hpoor : balance_of s (tx_address_bytes tx) asset < bu_amount act) :
  forall evs s', execute_transaction tx s <> (Done evs, s').
Proof.
  intros evs s' Hs. apply execute_transaction_done in Hs as (_ & s1 & Hs & ->).
  apply transaction_checked, check_balance_covers in Hs as (cost & Hcost & Hle).
  eapply (unlock_cost act tx _ cost _ asset) in Hcost as (v & Hv & Hav); [|done|done|done|].
  - apply Hle in Hv. change (v <= balance_of s (tx_address_bytes tx) asset) in Hv. lia.
  - unfold uint, umax in *. lia.
Qed.

Lemma unlock_needs_signer_funds_witness :
  balance_of two_bridges bob nria_id = 500 /\
  forall evs s', execute_transaction (demo_tx carol 0 [Action_BridgeUnlock
    (mk_unlock (on_chain alice) 50 nria_denom (on_chain bob) "" 7 "event")]) two_bridges
  <> (Done evs, s').
Proof.
  split; [reflexivity|].
  apply (unlock_needs_signer_funds _ (mk_unlock (on_chain alice) 50 nria_denom (on_chain bob) "" 7 "event")
           two_bridges nria_id).
  - reflexivity.
  - reflexivity.
  - vm_compute. intros f [= <-]. split; discriminate.
  - unfold uint. simpl. lia.
  - vm_compute. reflexivity.
Defined.
