(* ===== verification/AuthorityTheorems.v ===== *)
(** * Properties of the validator set

    Validator updates before and after the Aspen upgrade: the count of validators is
    the number of stored ones and never falls to zero after it; before it, one block
    can remove them all; and the upgrade moves every validator. *)
From S2P Require Import Prelude Denom Types State Chain Accounts Authority.
From S2P Require Import BridgeActions Ics20 Relay Transact Conservation RelayLemmas TransactTheorems Demo.
From stdpp Require Import base list option strings gmap fin_maps.
From Stdlib Require Import ZArith Lia String RelationClasses.
Open Scope string_scope.
Open Scope Z_scope.

(** ** Updates of a set *)
Lemma apply_updates_list (l : list (address_bytes * ValidatorUpdate)) set a :
  NoDup l.*1 ->
  foldl apply_update set l !! a =
  match (list_to_map l : ValidatorSet) !! a with
  | Some u => if power u =? 0 then None else Some u
  | None => set !! a
  end.
Proof.
  revert set. induction l as [|[b u] l IH]; intros set Hnd; simpl in *; [by rewrite lookup_empty|].
  apply NoDup_cons in Hnd as [Hb Hnd]. rewrite IH by done. unfold apply_update. simpl.
  destruct (decide (b = a)) as [->|Hne].
  - rewrite lookup_insert_eq, (not_elem_of_list_to_map_1 (M := gmap address_bytes) l a Hb).
    destruct (power u =? 0); [by rewrite lookup_delete_eq|by rewrite lookup_insert_eq].
  - rewrite lookup_insert_ne by done. destruct (list_to_map l !! a); [done|].
    destruct (power u =? 0); [by rewrite lookup_delete_ne|by rewrite lookup_insert_ne].
Qed.

(** The set after the updates of a block: an updated validator has its new
    entry, or none if its power is zero; the others are as before. *)
Theorem apply_updates_spec (set updates : ValidatorSet) a :
  apply_updates set updates !! a =
  match updates !! a with
  | Some u => if power u =? 0 then None else Some u
  | None => set !! a
  end.
Proof.
  unfold apply_updates. rewrite apply_updates_list by apply NoDup_fst_map_to_list.
  by rewrite list_to_map_to_list.
Qed.

(** ** The validator count *)
(** After the Aspen upgrade the count is the number of stored validators. *)
Definition post_aspen (s : State) : Prop :=
  is_Some (upgrades s !! (ASPEN, VALIDATOR_UPDATE_ACTION_CHANGE)).
Definition count_ok (s : State) : Prop :=
  validator_count (authority s) = Some (Z.of_nat (size (validators (authority s)))).
Definition has_validator (s : State) : Prop := validators (authority s) <> ∅.

Section Count.
Context `{ext : External}.

Lemma use_pre_aspen_done s b s' :
  use_pre_aspen_validator_updates s = (Done b, s') <->
  b = bool_decide (upgrades s !! (ASPEN, VALIDATOR_UPDATE_ACTION_CHANGE) = None) /\ s' = s.
Proof.
  unfold use_pre_aspen_validator_updates, get_upgrade_change_info. run_eval. naive_solver.
Qed.

Lemma remove_validator_done a s b s' :
  remove_validator a s = (Done b, s') ->
  match validators (authority s) !! a with
  | None => b = false /\ s' = s
  | Some _ => b = true /\ s' = on_authority (upd_validators (delete a)) s
  end.
Proof.
  unfold remove_validator, get_validator. run_eval.
  destruct (validators (authority s) !! a); naive_solver.
Qed.

Lemma get_validator_count_done s n s' :
  get_validator_count s = (Done n, s') <-> validator_count (authority s) = Some n /\ s' = s.
Proof. unfold get_validator_count. chain_lemma. Qed.

Lemma size_delete_Z (m : ValidatorSet) a u :
  m !! a = Some u -> Z.of_nat (size (delete a m)) = Z.of_nat (size m) - 1.
Proof.
  intros Hm. rewrite map_size_delete, Hm.
  assert (size m <> 0%nat) as Hne by (intros E; apply map_size_empty_inv in E; by subst).
  lia.
Qed.

Lemma count_ok_remove s a u n :
  count_ok s -> validators (authority s) !! a = Some u ->
  validator_count (authority s) = Some n ->
  count_ok (on_authority (upd_validator_count (fun _ => Some (saturating_sub n 1)))
             (on_authority (upd_validators (delete a)) s)).
Proof.
  unfold count_ok. simpl. intros Hc Hu Hn. rewrite Hn in Hc. injection Hc as ->.
  rewrite (size_delete_Z _ a u Hu). unfold saturating_sub.
  assert (size (validators (authority s)) <> 0%nat).
  { intros E. apply map_size_empty_inv in E. by rewrite E in Hu. }
  f_equal. lia.
Qed.

(** One validator update, or none, went from a state to the next. *)
Definition num_validators (s : State) : Z := Z.of_nat (size (validators (authority s))).
Definition kept (s s' : State) : Prop :=
  has_validator s' /\ count_ok s' /\ num_validators s' <= num_validators s + 1.

Lemma has_validator_num s : has_validator s <-> 0 < num_validators s.
Proof.
  unfold has_validator, num_validators. split; intros Hv.
  - assert (size (validators (authority s)) <> 0%nat); [|lia].
    intros E. by apply map_size_empty_inv in E.
  - intros E. rewrite E, map_size_empty in Hv. lia.
Qed.

Lemma remove_action_keeps act n s u s' :
  count_ok s -> validator_count (authority s) = Some n ->
  remove_validator_action act n s = (Done u, s') -> kept s s'.
Proof.
  intros Hc Hn Hs. unfold remove_validator_action in Hs.
  apply bind_done in Hs as (u1 & s1 & E & Hs). rewrite ensure_done in E. destruct E as [Hgt ->].
  apply bind_done in Hs as (b & s1 & E & Hs). rewrite wrap_err_done in E.
  apply remove_validator_done in E. destruct (validators (authority s) !! _) as [w|] eqn:Hw;
    destruct E as [-> ->]; unfold put_validator_count in Hs; run_inv Hs; [subst|done].
  unfold kept. rewrite has_validator_num.
  assert (count_ok (on_authority (upd_validator_count (fun _ => Some (saturating_sub n 1)))
            (on_authority (upd_validators (delete (validator_address act))) s)))
    by (by eapply count_ok_remove).
  apply Z.ltb_lt in Hgt. unfold num_validators in *. simpl in *. rewrite (size_delete_Z _ _ w) by done.
  unfold count_ok in Hc. rewrite Hn in Hc. injection Hc as ->. split; [lia|]. split; [done|lia].
Qed.

Lemma put_action_keeps act n s u s' :
  count_ok s -> validator_count (authority s) = Some n -> n + 1 < 2 ^ 64 ->
  put_validator_action act n s = (Done u, s') -> kept s s'.
Proof.
  intros Hc Hn Hmax Hs. unfold put_validator_action, get_validator, put_validator_count,
    put_validator in Hs.
  apply bind_done in Hs as (o & s1 & E & Hs). run_inv E. subst.
  apply bind_done in Hs as (u1 & s1 & E & Hs). run_inv Hs. subst.
  split; [apply insert_non_empty|]. unfold count_ok, num_validators in *. rewrite Hn in Hc.
  injection Hc as ->.
  destruct (validators (authority s) !! validator_address act) eqn:Ho; run_inv E; subst; simpl.
  - rewrite map_size_insert_Some by (by eexists). split; [done|lia].
  - rewrite map_size_insert_None by done. unfold saturating_add, umax. split; [f_equal|]; lia.
Qed.

Lemma validator_update_counts act s u s' :
  post_aspen s -> count_ok s -> num_validators s + 1 < 2 ^ 64 ->
  validator_update_execute act s = (Done u, s') -> kept s s'.
Proof.
  intros [i Hi] Hc Hmax Hs. unfold validator_update_execute in Hs.
  apply bind_done in Hs as (c & s1 & [_ ->]%expect_context_done & Hs).
  apply bind_done in Hs as (u1 & s1 & [_ ->]%ensure_sudo_done & Hs).
  apply bind_done in Hs as (pre & s1 & E & Hs). rewrite wrap_err_done, use_pre_aspen_done in E.
  destruct E as [-> ->]. rewrite bool_decide_eq_false_2 in Hs by (by rewrite Hi).
  apply bind_done in Hs as (u2 & s1 & E & Hs).
  apply bind_done in E as (n & s2 & En & E). rewrite wrap_err_done, get_validator_count_done in En.
  destruct En as [Hn ->].
  assert (n = num_validators s) as -> by (unfold count_ok, num_validators in *; congruence).
  assert (kept s s1) as Hk.
  { destruct (power act =? 0); [by eapply remove_action_keeps|by eapply put_action_keeps]. }
  along (same (fun s => (validators (authority s), validator_count (authority s)))) Hs; [ensures_tac|].
  unfold same in Hs. injection Hs as E1 E2.
  unfold kept, count_ok, has_validator, num_validators in *. by rewrite E1, E2.
Qed.

(** The other actions do not touch the validators. *)
Definition validator_data (s : State) :=
  (validators (authority s), validator_count (authority s), upgrades s).
Definition is_validator_update (action : Action) : bool :=
  match action with Action_ValidatorUpdate _ => true | _ => false end.

Lemma validator_data_frame `{Relay} tx action :
  is_validator_update action = false ->
  ensures (same validator_data) (execute_action tx action).
Proof. intros Ha. destruct action; try done; simpl; ensures_tac. Qed.

Lemma upgrades_frame `{Relay} tx action :
  ensures (same upgrades) (execute_action tx action).
Proof. destruct action; simpl; ensures_tac. Qed.

Lemma kept_data s1 s :
  validator_data s1 = validator_data s -> count_ok s -> 
  count_ok s1 /\ num_validators s1 = num_validators s /\ (has_validator s -> has_validator s1)
  /\ (post_aspen s -> post_aspen s1).
Proof.
  unfold validator_data, count_ok, num_validators, has_validator, post_aspen.
  intros [= -> -> ->]. done.
Qed.

Lemma validators_execute_actions `{Relay} tx ctx i (l : list Action) s u s' :
  post_aspen s -> count_ok s -> has_validator s ->
  num_validators s + Z.of_nat (List.length l) < 2 ^ 64 ->
  execute_actions tx ctx i l s = (Done u, s') -> count_ok s' /\ has_validator s'.
Proof.
  revert i s. induction l as [|a l IH]; intros i s Ha Hc Hv Hn Hs; simpl in Hs.
  - run_inv Hs. by subst.
  - apply bind_done in Hs as (c & s1 & E1 & Hs). unfold put_transaction_context in E1.
    run_inv E1. subst. apply bind_done in Hs as ([] & s2 & E2 & Hs). simpl in Hn.
    assert (post_aspen s2) as Ha2.
    { unfold post_aspen. rewrite (upgrades_frame _ _ _ _ _ E2). done. }
    enough (kept s s2) as (? & ? & ?) by (apply IH in Hs; try done; lia).
    destruct (is_validator_update a) eqn:Hu.
    + destruct a; try done. simpl in E2. rewrite wrap_err_done, pay_done in E2.
      destruct E2 as (s3 & E2 & E3).
      apply validator_update_counts in E2; [|done|done|unfold num_validators in *; simpl; lia].
      along (same validator_data) E3; [ensures_tac|].
      destruct E2 as (? & ? & ?). destruct (kept_data _ _ E3) as (? & En & ? & ?); [done|].
      unfold kept. rewrite En. auto.
    + apply validator_data_frame in E2; [|done].
      destruct (kept_data s2 s E2 Hc) as (? & En & ? & ?). unfold kept. rewrite En. split_and!; auto; lia.
Qed.

(** ** The upgrade *)
Lemma put_validators_done (l : list (address_bytes * ValidatorUpdate)) s u s' :
  for_each (fun av => put_validator av.2) l s = (Done u, s') ->
  s' = on_authority (upd_validators (fun m =>
         foldl (fun m av => <[validator_address av.2 := av.2]> m) m l)) s.
Proof.
  revert s. induction l as [|[a v] l IH]; intros s Hs; simpl in *.
  - run_inv Hs. subst. by destruct s as [? ? ? [] ? ? ? ? ? ? ? ? ?].
  - apply bind_done in Hs as (u1 & s1 & E & Hs). unfold put_validator in E. run_inv E. subst.
    by apply IH in Hs.
Qed.

Lemma insert_list_keys (l : list (address_bytes * ValidatorUpdate)) (m : ValidatorSet) :
  Forall (fun av => av.1 = validator_address av.2) l ->
  foldl (fun m av => <[validator_address av.2 := av.2]> m) m l =
  foldl (fun m av => <[av.1 := av.2]> m) m l.
Proof.
  intros Hl. revert m. induction Hl as [|[a v] l Ha Hl IH]; intros m; simpl in *; [done|].
  by rewrite IH, <- Ha.
Qed.

Lemma foldl_insert_lookup (l : list (address_bytes * ValidatorUpdate)) (m : ValidatorSet) a :
  NoDup l.*1 ->
  foldl (fun m av => <[av.1 := av.2]> m) m l !! a =
  match (list_to_map l : ValidatorSet) !! a with Some v => Some v | None => m !! a end.
Proof.
  revert m. induction l as [|[b u] l IH]; intros m Hnd; simpl in *; [by rewrite lookup_empty|].
  apply NoDup_cons in Hnd as [Hb Hnd]. rewrite IH by done.
  destruct (decide (b = a)) as [->|Hne].
  - by rewrite (not_elem_of_list_to_map_1 (M := gmap address_bytes) l a Hb), !lookup_insert_eq.
  - by rewrite !lookup_insert_ne by done.
Qed.

Lemma foldl_insert_map (set : ValidatorSet) :
  foldl (fun m av => <[av.1 := av.2]> m) (∅ : ValidatorSet) (map_to_list set) = set.
Proof.
  apply map_eq. intros a. rewrite foldl_insert_lookup by apply NoDup_fst_map_to_list.
  rewrite list_to_map_to_list, lookup_empty. by destruct (set !! a).
Qed.

Lemma aspen_upgrade_done set s u s' :
  pre_aspen_set (authority s) = Some set -> validators (authority s) = ∅ ->
  map_Forall (fun a v => a = validator_address v) set ->
  handle_aspen_upgrade s = (Done u, s') ->
  validators (authority s') = set /\ count_ok s' /\ pre_aspen_set (authority s') = None.
Proof.
  intros Hset Hnone Hkeys Hs. unfold handle_aspen_upgrade, pre_aspen_get_validator_set,
    aspen_upgrade_remove_validator_set, put_validator_count in Hs.
  apply bind_done in Hs as (set' & s1 & E & Hs). run_inv E. simplify_eq.
  apply bind_done in Hs as (u1 & s1 & E & Hs). run_inv E. subst.
  apply bind_done in Hs as (u2 & s1 & E & Hs). run_inv E. subst.
  apply put_validators_done in Hs as ->. simpl. unfold count_ok. simpl.
  rewrite insert_list_keys, Hnone, foldl_insert_map; [done|].
  apply Forall_forall. intros [a v] Hav. apply elem_of_map_to_list in Hav. by apply (Hkeys a v).
Qed.
End Count.

(** ** Theorems *)

(** After the Aspen upgrade, transactions keep the validator count equal to the
    number of stored validators, and never leave the chain without a validator.
    (Room for one more validator per action is asked for, since the 64-bit count
    saturates.) *)
Theorem transactions_keep_validators `{External, Relay} tx s evs s'
    (Haspen : post_aspen s) (Hcount : count_ok s) (Hset : has_validator s)
    (Hroom : num_validators s + Z.of_nat (List.length (tx_actions tx)) < 2 ^ 64)
    (Hs : execute_transaction tx s = (Done evs, s')) :
  count_ok s' /\ has_validator s'.
Proof.
  apply execute_transaction_done in Hs as (_ & s1 & Hs & ->).
  apply transaction_done in Hs as (_ & _ & _ & s2 & Hs & ->).
  eapply validators_execute_actions in Hs; [exact Hs|..].
  all: assert (validator_data (start_actions tx (on_events (fun _ => []) s)) = validator_data s) as E
    by (unfold start_actions; by destruct (rollup_ids _ !! _)).
  all: destruct (kept_data _ _ E Hcount) as (? & En & ? & ?); auto. by rewrite En.
Qed.

(** A chain after the upgrade, with two validators; its sudo account adds a
    third one and removes the first. *)
Definition val (key : string) (p : Z) : ValidatorUpdate := mk_validator p key "".
Definition two_validators : ValidatorSet := {[ alice := val alice 10; bob := val bob 20 ]}.
Definition aspen_state : State :=
  on_upgrades (fun _ => {[ (ASPEN, VALIDATOR_UPDATE_ACTION_CHANGE) :=
                            mk_change 1 VALIDATOR_UPDATE_ACTION_CHANGE 2 "" ]})
    (on_authority (fun _ => mk_authority (Some alice) None two_validators (Some 2) None) demo_state).
Definition change_validators : Transaction :=
  demo_tx alice 0 [Action_ValidatorUpdate (val carol 30); Action_ValidatorUpdate (val alice 0)].

Lemma transactions_keep_validators_witness :
  validators (authority (after change_validators aspen_state)) !! alice = None /\
  validators (authority (after change_validators aspen_state)) !! carol = Some (val carol 30) /\
  count_ok (after change_validators aspen_state) /\ has_validator (after change_validators aspen_state).
Proof.
  split; [vm_compute; reflexivity|]. split; [vm_compute; reflexivity|].
  destruct (after_done change_validators aspen_state) as [evs E]; [vm_compute; reflexivity|].
  apply (transactions_keep_validators change_validators aspen_state evs).
  - eexists. vm_compute. reflexivity.
  - vm_compute. reflexivity.
  - apply has_validator_num. vm_compute. reflexivity.
  - vm_compute. reflexivity.
  - exact E.
Defined.

(** The Aspen upgrade moves the whole validator set to the new keys: every
    validator is stored under its address, the count is set, and the old set is
    removed. *)
Theorem aspen_upgrade_moves_validators `{External} set s u s'
    (Hset : pre_aspen_set (authority s) = Some set) (Hnone : validators (authority s) = ∅)
    (Hkeys : map_Forall (fun a v => a = validator_address v) set)
    (Hs : handle_aspen_upgrade s = (Done u, s')) :
  validators (authority s') = set /\ count_ok s' /\ pre_aspen_set (authority s') = None.
Proof. by eapply aspen_upgrade_done. Qed.

Definition old_state : State :=
  on_authority (fun _ => mk_authority (Some alice) (Some two_validators) ∅ None None) demo_state.

Lemma aspen_upgrade_moves_validators_witness :
  validators (authority (handle_aspen_upgrade old_state).2) = two_validators.
Proof.
  apply (aspen_upgrade_moves_validators two_validators old_state tt).
  - reflexivity.
  - reflexivity.
  - intros a v Ha. unfold two_validators in Ha.
    apply lookup_insert_Some in Ha as [[<- <-]|[_ Ha]]; [reflexivity|].
    apply lookup_singleton_Some in Ha as [<- <-]. reflexivity.
  - vm_compute. reflexivity.
Defined.

(** Before the upgrade the check against removing the last validator looks at
    the set of the last block, not at the updates collected since: one
    transaction that removes both validators is executed, and the end of the
    block leaves no validator at all. *)
Theorem pre_aspen_removes_all_validators :
  let tx := demo_tx alice 0 [Action_ValidatorUpdate (val alice 0);
                             Action_ValidatorUpdate (val bob 0)] in
  executed tx old_state = true /\
  pre_aspen_set (authority (authority_end_block (after tx old_state)).2) = Some ∅.
Proof. split; vm_compute; reflexivity. Qed.
