(* ===== verification/IcsTheorems.v ===== *)
(** * Properties of ICS20 transfers

    The text of amounts reads back, refunds undo withdrawals, received packets
    release escrow or mint vouchers and nothing else, and what goes wrong with
    withdrawals of native tokens by their hash and with failed receives. *)
From S2P Require Import Prelude Denom Types State Chain Accounts Authority.
From S2P Require Import BridgeActions Ics20 Relay Transact Conservation TransactTheorems.
From S2P Require Import Demo.
From stdpp Require Import base list option strings gmap fin_maps pretty.
From Stdlib Require Import ZArith Lia Ascii String RelationClasses.
Open Scope string_scope.
Open Scope Z_scope.

(** ** Amounts *)
Lemma pretty_digit (k : N) :
  (k < 10)%N -> digit (pretty_N_char k) = true /\
  Z.of_nat (nat_of_ascii (pretty_N_char k)) - 48 = Z.of_N k.
Proof.
  intros Hk. assert (k = 0 \/ k = 1 \/ k = 2 \/ k = 3 \/ k = 4 \/ k = 5 \/ k = 6 \/ k = 7
    \/ k = 8 \/ k = 9)%N as Hc by lia.
  repeat destruct Hc as [->|Hc]; try (split; reflexivity). subst. split; reflexivity.
Qed.

Lemma parse_pretty_go (x : N) (s : string) :
  Z.of_N x < 2 ^ 128 -> parse_decimal 0 (pretty_N_go x s) = parse_decimal (Z.of_N x) s.
Proof.
  revert s. induction (N.lt_wf_0 x) as [x _ IH]. intros s Hx.
  destruct (decide (0 < x)%N) as [Hp|Hp].
  - rewrite pretty_N_go_step by done.
    assert (x / 10 < x)%N as Hd by (apply N.div_lt; lia).
    rewrite IH by (done || lia). cbn [parse_decimal].
    destruct (pretty_digit (x mod 10)) as [-> Hv]; [by apply N.mod_lt|].
    replace (10 * Z.of_N (x / 10) + (Z.of_nat (nat_of_ascii (pretty_N_char (x mod 10))) - 48))
      with (Z.of_N x).
    + by rewrite (proj2 (Z.ltb_lt _ _) Hx).
    + rewrite Hv. rewrite (N.div_mod x 10 ltac:(done)) at 1.
      by rewrite N2Z.inj_add, N2Z.inj_mul.
  - assert (x = 0%N) as -> by lia. by rewrite pretty_N_go_0.
Qed.

Lemma pretty_go_digit (x : N) (s : string) :
  (0 < x)%N -> exists c s', pretty_N_go x s = String c s' /\ digit c = true.
Proof.
  revert s. induction (N.lt_wf_0 x) as [x _ IH]. intros s Hp.
  rewrite pretty_N_go_step by done. destruct (decide (0 < x / 10)%N) as [Hd|Hd].
  - apply IH; [apply N.div_lt; lia|done].
  - assert (x / 10 = 0)%N as -> by (by apply N.le_0_r, N.nlt_ge). rewrite pretty_N_go_0. eexists _, _. split; [done|].
    apply pretty_digit. by apply N.mod_lt.
Qed.

(** [u128::to_string] and [str::parse::<u128>] *)
Lemma parse_u128_to_string (n : Z) : uint 128 n -> parse_u128 (u128_to_string n) = Some n.
Proof.
  intros [Hn Hm]. unfold u128_to_string. destruct n as [|p|p]; [reflexivity| |lia].
  change (pretty (Z.pos p)) with (pretty (N.pos p)). unfold pretty, pretty_N.
  rewrite decide_False by done. unfold parse_u128.
  destruct (pretty_go_digit (N.pos p) "") as (c & s & E & Hc); [lia|]. rewrite E.
  destruct (Ascii.eqb_spec c "+") as [->|_]; [done|]. rewrite <- E.
  by rewrite parse_pretty_go.
Qed.

(** ** Refunds *)
Lemma bind_eval {A B} (m : M A) (f : A -> M B) s a s1 :
  m s = (Done a, s1) -> (m ≫= f) s = f a s1.
Proof. unfold mbind, M_bind. by intros ->. Qed.

Section Refund.
Context `{External}.

(** The packet as the counterparty chain returns it. *)
Definition returned (p : IBCPacket) (port_b : PortId) (chan_b : ChannelId) : Packet :=
  mk_in_packet (source_port p) (source_channel p) port_b chan_b (packet_data p).

(** Funds as an observer sees them: a missing entry is zero. *)
Definition escrow_of (s : State) (c : ChannelId) (x : IbcPrefixed) : Z :=
  default 0 (channel_balances (ibc s) !! (c, x)).
Definition same_funds (s s' : State) : Prop :=
  (forall a x, balance_of s' a x = balance_of s a x) /\
  (forall c x, escrow_of s' c x = escrow_of s c x).

Definition withdrawal_packet (act : Ics20Withdrawal) (sender : string) : IBCPacket :=
  {| source_port := PORT_TRANSFER; source_channel := w_source_channel act;
     packet_timeout_height := w_timeout_height act; packet_timeout_time := w_timeout_time act;
     packet_data := packet_data_to_json {|
       pkt_amount := u128_to_string (w_amount act);
       pkt_denom := denom_display (w_denom act);
       pkt_sender := sender;
       pkt_receiver := w_destination_chain_address act;
       pkt_memo := w_memo act |} |}.

(** The state after a withdrawal of [x] from [from]. *)
Definition withdrawn (act : Ics20Withdrawal) (from : address_bytes) (p : IBCPacket) (s : State)
    : State :=
  let x := to_ibc_prefixed (w_denom act) in
  let s0 := set_balance from x (balance_of s from x - w_amount act) s in
  let s1 := if is_source PORT_TRANSFER (w_source_channel act) (w_denom act)
            then on_ibc (upd_channel_balances <[(w_source_channel act, x) :=
                   escrow_of s (w_source_channel act) x + w_amount act]>) s0
            else s0 in
  on_ibc (upd_sent_packets (fun l => l ++ [p])%list) s1.

Lemma withdrawal_done act s s' c :
  tx_context s = Some c -> w_bridge_address act = None -> w_use_compat_address act = false ->
  ics20_withdrawal_execute act s = (Done tt, s') ->
  let x := to_ibc_prefixed (w_denom act) in
  base_prefix (address_config s) = Some (addr_prefix (w_return_address act)) /\
  w_amount act <= balance_of s (ctx_address_bytes c) x /\
  s' = withdrawn act (ctx_address_bytes c)
         (withdrawal_packet act (address_display bech32m_encode (w_return_address act))) s.
Proof.
  intros Hc Hb Hcompat Hs. unfold ics20_withdrawal_execute, establish_withdrawal_target,
    create_ibc_packet_from_withdrawal in Hs. rewrite Hb, Hcompat in Hs.
  apply bind_done in Hs as (ctx & s1 & [E ->]%expect_context_done & Hs). simplify_eq.
  apply bind_done in Hs as (u1 & s1 & E1 & Hs). run_inv E1. subst.
  apply bind_done in Hs as (u2 & s1 & E1 & Hs). run_inv E1. subst.
  apply bind_done in Hs as (target & s1 & E1 & Hs). run_inv E1. subst.
  apply bind_done in Hs as (ts & s1 & E1 & Hs). run_inv E1. subst.
  apply bind_done in Hs as (p & s1 & E1 & Hs). run_inv E1. subst.
  apply bind_done in Hs as (ok & s1 & E1 & Hs). run_inv E1. subst.
  apply bind_done in Hs as (u5 & s1 & E1 & Hs). run_inv E1. subst.
  apply bind_done in Hs as (u6 & s1 & E1 & Hs). run_inv E1. subst.
  apply bind_done in Hs as (u7 & s1 & E1 & Hs). cbn [source_port source_channel] in E1.
  unfold send_packet_execute in Hs. run_inv Hs. subst. split; [done|]. split; [done|].
  unfold withdrawn. fold (withdrawal_packet act (address_display bech32m_encode (w_return_address act))).
  destruct (is_source _ _ _).
  - unfold escrow_withdrawal, get_ibc_channel_balance, put_ibc_channel_balance in E1. run_inv E1.
    subst. match goal with E : checked_add _ _ _ = _ |- _ => apply checked_add_Some in E as [-> ?] end.
    done.
  - run_inv E1. by subst.
Qed.

Lemma parse_asset_trace t s :
  wf_trace t = true -> has_leading_port t "ibc" = false ->
  parse_asset (denom_display (Denom_TracePrefixed t)) s = (Done t, s).
Proof.
  intros Ht Hp. unfold parse_asset, denom_from_str. simpl.
  rewrite display_not_ibc by done. by rewrite (proj2 (trace_from_str_ok _ t)).
Qed.

Lemma parse_own_address a s :
  base_prefix (address_config s) = Some (addr_prefix a) ->
  is_Some (ibc_compat_prefix (address_config s)) ->
  address_from_str bech32m_decode (address_display bech32m_encode a) = Some a ->
  parse_address_on_sequencer (address_display bech32m_encode a) s = (Done a, s).
Proof.
  intros Hb [q Hq] Ha. unfold parse_address_on_sequencer, get_base_prefix, get_ibc_compat_prefix.
  run_eval. rewrite Hb, Hq. simpl. rewrite Ha. simpl. by rewrite String.eqb_refl.
Qed.

Lemma is_source_refund t port chan :
  is_source port chan (Denom_TracePrefixed t) = is_refund_source_zone t port chan.
Proof.
  unfold is_source, is_refund_source_zone, is_transfer_source_zone. by rewrite negb_andb.
Qed.

Lemma refund_of_withdrawn act t from s p :
  w_denom act = Denom_TracePrefixed t ->
  let x := trace_to_ibc_prefixed t in
  balance_of s from x < 2 ^ 128 -> w_amount act <= balance_of s from x ->
  addr_bytes (w_return_address act) = from ->
  0 <= escrow_of s (w_source_channel act) x ->
  exists s2, refund_tokens_to_sequencer_address (w_return_address act) t (w_amount act)
    PORT_TRANSFER (w_source_channel act) (withdrawn act from p s) = (Done tt, s2) /\ same_funds s s2.
Proof.
  intros Hd x Hmax Hle <- Hesc. set (from := addr_bytes (w_return_address act)) in *.
  unfold withdrawn. rewrite Hd, is_source_refund. simpl to_ibc_prefixed. fold x.
  set (s0 := set_balance from x (balance_of s from x - w_amount act) s).
  set (s1 := on_ibc (upd_sent_packets _) _).
  assert (exists s2, (if is_refund_source_zone t PORT_TRANSFER (w_source_channel act)
    then wrap_err "failed to withdraw refund amount from escrow account"
           (decrease_ibc_channel_balance (w_source_channel act) x (w_amount act))
    else mret tt) s1 = (Done tt, s2) /\ accounts s2 = accounts s0 /\
    forall c y, escrow_of s2 c y = escrow_of s c y) as (s2 & E2 & Ha & He).
  { subst s1. destruct (is_refund_source_zone t _ _).
    - eexists. rewrite wrap_err_done, decrease_ibc_channel_balance_done. simpl.
      rewrite lookup_insert_eq. simpl. split; [split; [unfold escrow_of in *; simpl; lia|reflexivity]|].
      split; [done|]. intros c y. unfold escrow_of. simpl.
      destruct (decide ((w_source_channel act, x) = (c, y))) as [Ec|Hne].
      + rewrite <- Ec, lookup_insert_eq. simpl. lia.
      + by rewrite !lookup_insert_ne.
    - eexists. split; [reflexivity|]. split; [done|]. intros c y. done. }
  assert (forall a y, balance_of s2 a y = balance_of s0 a y) as Hb by (intros; unfold balance_of; by rewrite Ha).
  exists (set_balance from x (balance_of s from x) s2). split.
  - unfold refund_tokens_to_sequencer_address. rewrite bind_done. exists tt, s2. split; [exact E2|].
    rewrite wrap_err_done, increase_balance_done. fold x from.
    rewrite Hb. subst s0. rewrite balance_of_set_balance, decide_True by done.
    split; [lia|]. f_equal. lia.
  - split; [|done]. intros a y. rewrite balance_of_set_balance, Hb. subst s0.
    rewrite balance_of_set_balance. case_decide; [by simplify_eq|done].
Qed.
End Refund.

(** ** Receiving *)
Section Receive.
Context `{External}.

(** The port and channel are valid segments of a denomination, as the IBC
    library's identifiers are. *)
Definition valid_destination (packet : Packet) : Prop :=
  no_slash (port_on_b packet) = true /\ no_slash (chan_on_b packet) = true.

Lemma prefixed_asset p c (u t : TracePrefixed) :
  no_slash p = true -> no_slash c = true ->
  trace_prefixed_from_str (p ++ "/" ++ c ++ "/" ++ trace_prefixed_display u) = Ok t ->
  is_transfer_source_zone t p c = true.
Proof.
  intros Hp Hc Ht. apply trace_from_str_ok in Ht as [Hwf Ht].
  unfold wf_trace in Hwf. apply andb_prop in Hwf as [Hseg Hb].
  rewrite display_join in Ht. apply (f_equal split_slash) in Ht.
  rewrite split_app, split_app in Ht by done.
  rewrite split_join in Ht.
  - destruct t as [[|[p' c'] segs] base]; simpl in Ht.
    + by injection Ht as -> Ht.
    + injection Ht as -> -> _. unfold is_transfer_source_zone, has_leading_port, has_leading_channel.
      simpl. by rewrite !bool_decide_true.
  - by destruct (pieces (trace t)).
  - rewrite forallb_app. simpl. apply piece_spec in Hb as (_ & _ & ->). rewrite !andb_true_r.
    clear -Hseg. induction (trace t) as [|[a b] l IH]; simpl in *; [done|].
    unfold wf_segment in Hseg. simpl in Hseg. rewrite !andb_true_iff, !piece_spec in Hseg.
    destruct Hseg as (((_ & _ & ->) & _ & _ & ->) & Hl). by apply IH.
Qed.

Lemma reads_parse_asset input : reads (parse_asset input).
Proof.
  unfold parse_asset, map_ibc_to_trace_prefixed_asset.
  apply reads_bind; [destruct (denom_from_str input); auto with astria|].
  intros []; auto with astria.
Qed.
Lemma reads_parse_address input : reads (parse_address_on_sequencer input).
Proof.
  unfold parse_address_on_sequencer, get_base_prefix, get_ibc_compat_prefix.
  do 2 (apply reads_bind; [auto with astria|intros ?]). destruct (_ ≫= _); auto with astria.
Qed.
Lemma received_asset_done asset packet s src t s' :
  received_asset asset packet s = (Done (src, t), s') ->
  s' = s /\ (src = false -> valid_destination packet ->
             is_transfer_source_zone t (port_on_b packet) (chan_on_b packet) = true).
Proof.
  unfold received_asset. destruct (is_transfer_source_zone asset _ _).
  - intros Hs. run_inv Hs. naive_solver.
  - intros Hs. apply bind_done in Hs as (t' & s1 & E & Hs). run_inv E. run_inv Hs. simplify_eq.
    split; [done|]. intros _ [Hp Hc]. destruct (trace_prefixed_from_str _) eqn:Ht; [|done].
    simplify_eq. by eapply prefixed_asset.
Qed.

Lemma value_emit_deposit x b m t amount memo :
  ensures (same (value x)) (wrap_err m (emit_bridge_lock_deposit b t amount memo)).
Proof. apply value_ledger. ensures_tac. Qed.

(** What a received packet does to the funds: the amount comes out of escrow, or
    a voucher of that amount is minted. *)
Lemma receive_tokens_value packet s s' :
  receive_tokens packet s = (Done tt, s') ->
  exists (src : bool) (t : TracePrefixed) (amount : Z),
    (src = false -> valid_destination packet ->
     is_transfer_source_zone t (port_on_b packet) (chan_on_b packet) = true) /\
    forall x, value x s' = value x s +
      (if src then 0 else if decide (trace_to_ibc_prefixed t = x) then amount else 0).
Proof.
  intros Hs. unfold receive_tokens in Hs.
  apply bind_done in Hs as (d & s1 & [_ ->]%ok_or_done & Hs).
  apply bind_done in Hs as (amount & s1 & [_ ->]%ok_or_done & Hs).
  apply bind_done in Hs as (recipient & s1 & E & Hs).
  apply (reads_done _ _ _ _ (reads_wrap _ _ (reads_parse_address _))) in E as ->.
  apply bind_done in Hs as (u & s1 & E & Hs).
  apply (reads_done _ _ _ _ (reads_wrap _ _ (reads_parse_asset _))) in E as ->.
  apply bind_done in Hs as ([src t] & s1 & E & Hs). apply received_asset_done in E as [-> Ht].
  exists src, t, amount. split; [done|]. intros x.
  apply bind_done in Hs as (r & s1 & E & Hs). unfold get_bridge_account_rollup_id in E.
  run_inv E. subst.
  apply bind_done in Hs as (u1 & s1 & E & Hs).
  assert (value x s1 = value x s) as E1.
  { destruct (rollup_ids (bridge s) !! _); [exact (value_emit_deposit x _ _ _ _ _ _ _ _ E)|]. run_inv E. by subst. }
  apply bind_done in Hs as (u2 & s2 & E2 & Hs).
  rewrite wrap_err_done, increase_balance_done in Hs. destruct Hs as [_ ->].
  rewrite value_set_balance.
  assert (value x s2 + (if src then if decide (trace_to_ibc_prefixed t = x) then amount else 0 else 0)
          = value x s1 /\ accounts s2 = accounts s1) as [E3 _].
  { destruct src.
    - rewrite wrap_err_done, decrease_ibc_channel_balance_done in E2. destruct E2 as [_ ->].
      rewrite value_escrow. split; [case_decide; lia|done].
    - along (same ledger) E2; [unfold has_ibc_asset, put_ibc_asset; ensures_tac|].
      unfold same, ledger in E2. injection E2 as Ha Hf Hc. split; [|done].
      unfold value, supply, block_fees_total, escrow. rewrite Ha, Hf, Hc. lia. }
  destruct src; case_decide; lia.
Qed.
End Receive.

(** ** Theorems *)

(** C35. C. A withdrawal that times out is undone: the refund of the returned packet
    succeeds, and every balance and every escrow is what it was before the
    withdrawal. This is a withdrawal of an asset named by its trace, that the signer
    makes on its own behalf: it names no bridge address, its return address is the
    signer's, in the usual format, and its memo is not that of a rollup. *)
Theorem refund_restores_withdrawal `{External} act t s s1 c port_b chan_b
    (Hjson : forall d, packet_data_from_json (packet_data_to_json d) = Some d)
    (Haddr : address_from_str bech32m_decode (address_display bech32m_encode (w_return_address act))
             = Some (w_return_address act))
    (Hbalances : balances_ok s)
    (Hescrow : 0 <= escrow_of s (w_source_channel act) (trace_to_ibc_prefixed t))
    (Hamount : uint 128 (w_amount act))
    (Hcompat : is_Some (ibc_compat_prefix (address_config s)))
    (Hdenom : w_denom act = Denom_TracePrefixed t)
    (Hwf : wf_trace t = true) (Hibc : has_leading_port t "ibc" = false)
    (Hc : tx_context s = Some c) (Hbridge : w_bridge_address act = None)
    (Hformat : w_use_compat_address act = false)
    (Hreturn : addr_bytes (w_return_address act) = ctx_address_bytes c)
    (Hmemo : parse_withdrawal_memo (w_memo act) = None)
    (Hs : ics20_withdrawal_execute act s = (Done tt, s1)) :
  exists p s2, last (sent_packets (ibc s1)) = Some p /\
    timeout_packet_execute (returned p port_b chan_b) s1 = (Done tt, s2) /\ same_funds s s2.
Proof.
  apply withdrawal_done with (c := c) in Hs as (Hb & Hle & ->); [|done..].
  set (p := withdrawal_packet _ _). exists p. rewrite Hdenom in Hle. simpl in Hle.
  pose proof (balance_of_uint s (ctx_address_bytes c) (trace_to_ibc_prefixed t) Hbalances) as [_ Hmax].
  destruct (refund_of_withdrawn act t (ctx_address_bytes c) s p) as (s2 & E & Hsame); [done..|].
  exists s2. split; [|split; [|done]].
  - unfold withdrawn. destruct (is_source _ _ _); simpl; apply last_snoc.
  - unfold timeout_packet_execute, refund_tokens. rewrite wrap_err_done.
    set (s1 := withdrawn _ _ _ _).
    assert (address_config s1 = address_config s) as Ec by (unfold s1, withdrawn; by destruct (is_source _ _ _)).
    erewrite bind_eval; [|apply ok_or_done; split; [apply Hjson|reflexivity]].
    erewrite bind_eval; [|apply ok_or_done; split; [by apply parse_u128_to_string|reflexivity]].
    erewrite bind_eval; [|apply wrap_err_done, parse_own_address; congruence].
    cbn [pkt_denom]. rewrite Hdenom.
    erewrite bind_eval; [|by apply wrap_err_done, parse_asset_trace].
    unfold does_failed_transfer_come_from_rollup. cbn [pkt_memo]. rewrite Hmemo.
    erewrite bind_eval; [|reflexivity]. by apply wrap_err_done.
Qed.

Definition withdraw : Ics20Withdrawal :=
  mk_withdrawal 100 nria_denom "cosmos1dest" (on_chain alice) (1, 100) 1000 "channel-0" nria_denom
    "memo" None false.

Lemma refund_restores_withdrawal_witness :
  let s := in_context alice demo_state in
  let s1 := (ics20_withdrawal_execute withdraw s).2 in
  balance_of s1 alice nria_id = 900 /\ escrow_of s1 "channel-0" nria_id = 100 /\
  exists p s2, last (sent_packets (ibc s1)) = Some p /\
    timeout_packet_execute (returned p "transfer" "channel-7") s1 = (Done tt, s2) /\ same_funds s s2.
Proof.
  split; [vm_compute; reflexivity|]. split; [vm_compute; reflexivity|].
  apply (refund_restores_withdrawal withdraw nria (in_context alice demo_state) _ (mk_context alice "tx" 0)).
  - intros [a d f t m]. unfold packet_data_from_json, packet_data_to_json. simpl.
    unfold demo_packet_from_json, demo_packet_to_json. by rewrite Demo.decode_encode.
  - vm_compute. reflexivity.
  - apply map_Forall_singleton. split; reflexivity || discriminate.
  - vm_compute. discriminate.
  - split; [discriminate|reflexivity].
  - by eexists.
  - reflexivity.
  - reflexivity.
  - reflexivity.
  - reflexivity.
  - reflexivity.
  - reflexivity.
  - reflexivity.
  - reflexivity.
  - vm_compute. reflexivity.
Defined.

(** C36. A received packet cannot create tokens other than vouchers of the channel it
    came over: for every asset that is not one whose trace starts with the
    destination port and channel, what the receiver gets comes out of escrow, so
    that the asset's total is unchanged. *)
Theorem receive_cannot_mint `{External} packet s s' (x : IbcPrefixed)
    (Hvalid : valid_destination packet)
    (Hother : forall t, is_transfer_source_zone t (port_on_b packet) (chan_on_b packet) = true ->
              trace_to_ibc_prefixed t <> x)
    (Hs : receive_tokens packet s = (Done tt, s')) :
  value x s' = value x s.
Proof.
  apply receive_tokens_value in Hs as (src & t & amount & Ht & Hv). rewrite Hv.
  destruct src; [lia|]. rewrite decide_False by (by apply Hother, Ht). lia.
Qed.

(** Tokens coming back over the channel they left by. *)
Definition coming_back (receiver : address_bytes) (amount memo : string) : Packet :=
  mk_in_packet "transfer" "channel-7" "transfer" "channel-0"
    (packet_data_to_json (mk_packet_data amount "transfer/channel-7/nria" "cosmos1src"
       (address_display bech32m_encode (on_chain receiver)) memo)).
Definition escrowed_state : State :=
  on_ibc (upd_channel_balances (fun _ => {[ ("channel-0", nria_id) := 100 ]})) demo_state.

Lemma receive_cannot_mint_witness :
  let s' := (receive_tokens (coming_back bob "60" "") escrowed_state).2 in
  balance_of s' bob nria_id = 60 /\ escrow_of s' "channel-0" nria_id = 40 /\
  value nria_id s' = value nria_id escrowed_state.
Proof.
  split; [vm_compute; reflexivity|]. split; [vm_compute; reflexivity|].
  apply (receive_cannot_mint (coming_back bob "60" "")).
  - split; reflexivity.
  - intros [[|[p c] segs] b]; [done|]. unfold is_transfer_source_zone, has_leading_port,
      has_leading_channel. simpl. intros [Hp%bool_decide_eq_true _]%andb_prop. injection Hp as ->.
    intros E. rewrite trace_hash_display in E. vm_compute in E. discriminate.
  - vm_compute. reflexivity.
Defined.

(** A withdrawal that names a token of this chain by its hash burns the amount,
    where the same token named by its trace is moved to escrow.  The packet then
    cannot be refunded: unless the escrow holds the amount from other
    withdrawals, the check of a timeout of the packet fails, so that the tokens
    are lost. *)
Theorem withdrawal_by_hash_is_lost `{External} act i t s s1 c port_b chan_b
    (Hjson : forall d, packet_data_from_json (packet_data_to_json d) = Some d)
    (Hhex : from_hex32 (hex_encode (id i)) = Some (id i))
    (Hdenom : w_denom act = Denom_IbcPrefixed i)
    (Ht : trace_to_ibc_prefixed t = i) (Hmap : ibc_assets (assets s) !! i = Some t)
    (Hnative : is_source PORT_TRANSFER (w_source_channel act) (Denom_TracePrefixed t) = true)
    (Hescrow : escrow_of s (w_source_channel act) i < w_amount act)
    (Hamount : uint 128 (w_amount act))
    (Hc : tx_context s = Some c) (Hbridge : w_bridge_address act = None)
    (Hformat : w_use_compat_address act = false)
    (Hs : ics20_withdrawal_execute act s = (Done tt, s1)) :
  value i s1 = value i s - w_amount act /\
  exists p e, last (sent_packets (ibc s1)) = Some p /\
    timeout_packet_check (returned p port_b chan_b) s1 = (Fail e, s1).
Proof.
  split.
  { apply (value_ics20_withdrawal i) in Hs. unfold burned_by in Hs. rewrite Hdenom in Hs.
    simpl in Hs. rewrite decide_True in Hs by done. lia. }
  apply withdrawal_done with (c := c) in Hs as (_ & _ & ->); [|done..].
  unfold withdrawn. rewrite Hdenom. cbn [to_ibc_prefixed is_source].
  set (p := withdrawal_packet _ _). set (s1 := on_ibc _ _). exists p. eexists.
  split; [apply last_snoc|]. unfold timeout_packet_check, refund_tokens_check.
  erewrite bind_eval; [|apply ok_or_done; split; [apply Hjson|reflexivity]].
  cbn [pkt_denom]. rewrite Hdenom.
  erewrite bind_eval; [|apply wrap_err_done; unfold parse_asset; simpl denom_display;
    rewrite ibc_parse_display by done; unfold map_ibc_to_trace_prefixed_asset; run_eval;
    simpl; rewrite Hmap; reflexivity].
  rewrite is_source_refund in Hnative. cbn [returned port_on_a chan_on_a source_port source_channel p withdrawal_packet].
  rewrite Hnative. cbn [pkt_amount]. rewrite parse_u128_to_string by done. unfold get_ibc_channel_balance.
  run_eval. subst s1. simpl. rewrite Ht. fold (escrow_of s (w_source_channel act) i).
  by rewrite (proj2 (Z.leb_gt _ _) Hescrow).
Qed.

Definition withdraw_by_hash : Ics20Withdrawal :=
  mk_withdrawal 100 (Denom_IbcPrefixed nria_id) "cosmos1dest" (on_chain alice) (1, 100) 1000
    "channel-0" nria_denom "memo" None false.

Lemma withdrawal_by_hash_is_lost_witness :
  let s1 := (ics20_withdrawal_execute withdraw_by_hash (in_context alice demo_state)).2 in
  value nria_id s1 = 900 /\
  exists p e, last (sent_packets (ibc s1)) = Some p /\
    timeout_packet_check (returned p "transfer" "channel-7") s1 = (Fail e, s1).
Proof.
  apply (withdrawal_by_hash_is_lost withdraw_by_hash nria_id nria (in_context alice demo_state) _
           (mk_context alice "tx" 0)).
  - intros [a d f t m]. unfold packet_data_from_json, packet_data_to_json. simpl.
    unfold demo_packet_from_json, demo_packet_to_json. by rewrite Demo.decode_encode.
  - vm_compute. reflexivity.
  - reflexivity.
  - reflexivity.
  - vm_compute. reflexivity.
  - reflexivity.
  - vm_compute. reflexivity.
  - split; [discriminate|reflexivity].
  - reflexivity.
  - reflexivity.
  - reflexivity.
  - vm_compute. reflexivity.
Defined.

(** A packet to a bridge account that fails after its deposit was recorded: the
    acknowledgement reports the error and no funds arrive, but the deposit stays
    in the block's deposits, for the rollup to credit. *)
Theorem failed_receive_leaves_deposit :
  let packet := coming_back bob "60" "0xdest" in
  let s := in_context carol
    (on_bridge (fun _ => mk_bridge {[ bob := "rollup" ]} {[ bob := nria_id ]} ∅ ∅ ∅ ∅ ∅ ∅) demo_state) in
  let s' := (recv_packet_execute packet s).2 in
  (recv_packet_execute packet s).1 = Done tt /\
  (exists e, last (acks (ibc s')) = Some (packet, ack_error e)) /\
  balance_of s' bob nria_id = 0 /\ value nria_id s' = value nria_id s /\
  cached_deposits (bridge s') !! "rollup" =
    Some [mk_deposit (on_chain bob) "rollup" 60 nria_denom "0xdest" "tx" 0].
Proof.
  split; [vm_compute; reflexivity|]. split; [eexists; vm_compute; reflexivity|].
  split; [vm_compute; reflexivity|]. split; vm_compute; reflexivity.
Qed.
