(* ===== verification/Invariants.v ===== *)
(** * Invariants of the state

    Quantities stay in their machine range, at least one fee asset is allowed,
    and the four maps of the currency pairs agree, over every transaction; the
    end of a block pays the collected fees to the proposer. *)
From S2P Require Import Prelude Denom Types State Chain Accounts Authority.
From S2P Require Import BridgeActions Ics20 Relay Transact Conservation RelayLemmas TransactTheorems Demo.
From stdpp Require Import base list option strings gmap fin_maps fin_sets.
From Stdlib Require Import ZArith Lia String RelationClasses.
Open Scope string_scope.
Open Scope Z_scope.

(** ** Invariants along transactions *)
(** An invariant that looks only at parts that the bookkeeping of a transaction
    does not touch. *)
Definition bookkeeping_free (P : State -> Prop) : Prop :=
  (forall c s, P s -> P (on_tx_context c s)) /\ (forall f s, P s -> P (on_events f s)) /\
  (forall f s, P s -> P (on_bridge f s)) /\ (forall f s, P s -> P (on_accounts (upd_nonces f) s)).

Lemma transaction_keeps `{External, Relay} (P : State -> Prop) tx s evs s' :
  bookkeeping_free P ->
  Forall (fun a => ensures (keeps_inv P) (execute_action tx a)) (tx_actions tx) ->
  P s -> execute_transaction tx s = (Done evs, s') -> P s'.
Proof.
  intros (Hc & He & Hb & Hn) Hl Hs Htx. revert Hs. change (keeps_inv P s s').
  eapply (execute_transaction_ensures (keeps_inv P)); [..|exact Hl|exact Htx];
    intros; intros HP.
  - by apply Hc.
  - by apply He.
  - by apply Hb.
  - by apply Hn.
Qed.

(** *** Fee assets *)
Definition has_fee_asset (s : State) : Prop := allowed_assets (fees s) <> ∅.

Section FeeAssets.
Context `{External, Relay}.
Lemma fee_asset_change_keeps act :
  ensures (keeps_inv has_fee_asset) (fee_asset_change_execute act).
Proof.
  intros s u s' Hs _. unfold fee_asset_change_execute in Hs.
  apply bind_done in Hs as (c & s1 & [_ ->]%expect_context_done & Hs).
  apply bind_done in Hs as (u1 & s1 & [_ ->]%ensure_sudo_done & Hs). destruct act.
  - unfold put_allowed_fee_asset in Hs. run_inv Hs. subst. unfold has_fee_asset. simpl. set_solver.
  - unfold delete_allowed_fee_asset, allowed_fee_assets in Hs. run_inv Hs. subst.
    match goal with E : bool_decide _ = true |- _ => apply bool_decide_eq_true in E; rename E into K end.
    unfold has_fee_asset. intros E. apply K. simpl in *. rewrite E. apply elements_empty.
Qed.

Lemma fee_assets_keep tx action :
  ensures (keeps_inv has_fee_asset) (execute_action tx action).
Proof.
  assert (forall A (m : M A), ensures (same (fun s => allowed_assets (fees s))) m ->
          ensures (keeps_inv has_fee_asset) m) as Hsame.
  { intros A m. apply ensures_mono. unfold same, keeps_inv, has_fee_asset. by intros s s' ->. }
  destruct action; simpl.
  9: { apply ensures_pay; [typeclasses eauto|apply fee_asset_change_keeps|].
       apply Hsame. ensures_tac. }
  all: apply Hsame; ensures_tac.
Qed.
End FeeAssets.

(** *** Ranges *)
(** Balances, escrow, fee components and the fees of a block are 128-bit unsigned integers. *)
Definition components_ok (f : FeeComponents) : Prop := uint 128 (base f) /\ uint 128 (multiplier f).
Definition ranges_ok (s : State) : Prop :=
  balances_ok s /\ map_Forall (fun _ b => uint 128 b) (channel_balances (ibc s)) /\
  map_Forall (fun _ f => components_ok f) (components (fees s)) /\
  Forall (fun f => uint 128 (fee_amount f)) (default [] (block_fees (fees s))).

Definition fee_change_components (act : FeeChange) : FeeComponents :=
  match act with
  | FeeChange_Transfer f | FeeChange_RollupDataSubmission f | FeeChange_Ics20Withdrawal f
  | FeeChange_InitBridgeAccount f | FeeChange_BridgeLock f | FeeChange_BridgeUnlock f
  | FeeChange_BridgeSudoChange f | FeeChange_IbcRelay f | FeeChange_ValidatorUpdate f
  | FeeChange_FeeAssetChange f | FeeChange_FeeChange f | FeeChange_IbcRelayerChange f
  | FeeChange_SudoAddressChange f | FeeChange_IbcSudoChange f | FeeChange_BridgeTransfer f
  | FeeChange_RecoverIbcClient f | FeeChange_CurrencyPairsChange f | FeeChange_MarketsChange f => f
  end.
(** The numbers in an action are 128-bit unsigned integers. *)
Definition action_ok (a : Action) : Prop :=
  match a with
  | Action_Transfer act => uint 128 (tr_amount act)
  | Action_Ics20Withdrawal act => uint 128 (w_amount act)
  | Action_BridgeLock act => uint 128 (bl_amount act)
  | Action_BridgeUnlock act => uint 128 (bu_amount act)
  | Action_BridgeTransfer act => uint 128 (bt_amount act)
  | Action_FeeChange act => components_ok (fee_change_components act)
  | _ => True
  end.

Section Ranges.
Context `{External, Relay}.

Lemma range_increase a x amount : 0 <= amount -> ensures (keeps_inv ranges_ok) (increase_balance a x amount).
Proof.
  intros Ha s u s' Hs (Hb & Hrest). apply increase_balance_done in Hs as [Hlt ->].
  split; [|done]. apply balances_ok_set; [done|].
  destruct (balance_of_uint s a x Hb). split; [lia|done].
Qed.
Lemma range_decrease a x amount : 0 <= amount -> ensures (keeps_inv ranges_ok) (decrease_balance a x amount).
Proof.
  intros Ha s u s' Hs (Hb & Hrest). apply decrease_balance_done in Hs as [Hle ->].
  split; [|done]. apply balances_ok_set; [done|].
  destruct (balance_of_uint s a x Hb). split; lia.
Qed.

(** What leaves the balances, the escrow and the fee components alone. *)
Definition ranged (s : State) :=
  (balances (accounts s), channel_balances (ibc s), components (fees s), block_fees (fees s)).
Lemma range_same {A} (m : M A) : ensures (same ranged) m -> ensures (keeps_inv ranges_ok) m.
Proof.
  apply ensures_mono. unfold same, ranged, keeps_inv, ranges_ok, balances_ok.
  intros s s' [= -> -> -> ->]. done.
Qed.
Lemma range_add_fee {F} `{FeeHandler F} asset amount position :
  uint 128 amount -> ensures (keeps_inv ranges_ok) (add_fee_to_block_fees F asset amount position).
Proof.
  intros Ha s u s' Hs (Hb & He & Hc & Hf). unfold add_fee_to_block_fees, record in Hs. run_inv Hs. subst.
  split; [done|]. split; [done|]. split; [done|]. cbn.
  destruct (block_fees (fees s)); [apply Forall_app_2; [done|]|]; by constructor.
Qed.

Lemma variable_nonneg_pay {F} `{FeeHandler F} (act : F) :
  0 <= variable_component act -> ensures (keeps_inv ranges_ok) (check_and_pay_fees act).
Proof.
  intros Hv s u s' Hs Hok. unfold check_and_pay_fees, get_fees in Hs.
  apply bind_done in Hs as (o & s1 & E & Hs). run_inv E. subst.
  apply bind_done in Hs as (f & s1 & E & Hs). run_inv E. subst.
  match goal with E : components (fees s) !! _ = Some f |- _ => rename E into Hf end.
  destruct Hok as (Hb & He & Hc & Hfees). destruct (Hc _ _ Hf) as [[Hb0 _] [Hm0 _]].
  assert (uint 128 (total_fee f (variable_component act))) as Ht.
  { unfold total_fee, saturating_add, saturating_mul, umax, uint. lia. }
  revert s' Hs. cut (ensures (keeps_inv ranges_ok)
    (match fee_asset act with
     | Some asset =>
         allowed ← wrap_err "failed to check allowed fee assets in state"
                     (is_allowed_fee_asset (to_ibc_prefixed asset));
         ensure_that allowed "invalid fee asset";;
         ctx ← expect_context;
         add_fee_to_block_fees F asset (total_fee f (variable_component act)) (ctx_position ctx);;
         wrap_err "failed to decrease balance for fee payment"
           (decrease_balance (ctx_address_bytes ctx) (to_ibc_prefixed asset)
              (total_fee f (variable_component act)))
     | None => mret tt
     end)); [intros Hk s' Hs; by eapply Hk|].
  assert (forall A (m : M A), ensures (same ranged) m -> ensures (keeps_inv ranges_ok) m) as Hq
    by (intros; by apply range_same).
  destruct (fee_asset act); [|apply Hq; ensures_tac].
  do 3 (apply ensures_bind; [typeclasses eauto|apply Hq; ensures_tac|intros ?]).
  apply ensures_bind; [typeclasses eauto|by apply range_add_fee|intros _].
  apply ensures_wrap, range_decrease, Ht.
Qed.

Lemma range_execute_transfer act from :
  uint 128 (tr_amount act) -> ensures (keeps_inv ranges_ok) (execute_transfer act from).
Proof.
  intros [Ha _]. unfold execute_transfer.
  apply ensures_bind; [typeclasses eauto|by apply ensures_wrap, range_decrease|intros _].
  by apply ensures_wrap, range_increase.
Qed.

Lemma range_escrow act : uint 128 (w_amount act) -> ensures (keeps_inv ranges_ok) (escrow_withdrawal act).
Proof.
  intros [Ha _] s u s' Hs (Hb & He & Hf).
  unfold escrow_withdrawal, get_ibc_channel_balance, put_ibc_channel_balance in Hs.
  run_inv Hs. subst.
  match goal with E : checked_add _ _ _ = _ |- _ => apply checked_add_Some in E as [-> ?] end.
  split; [done|]. split; [|done]. apply map_Forall_insert_2; [|done].
  assert (0 <= default 0 (channel_balances (ibc s) !! (w_source_channel act, to_ibc_prefixed (w_denom act)))).
  { destruct (_ !! _) eqn:E; simpl; [|done]. by apply (He _ _ E). }
  split; [lia|done].
Qed.

Lemma range_release channel x amount :
  uint 128 amount -> ensures (keeps_inv ranges_ok) (decrease_ibc_channel_balance channel x amount).
Proof.
  intros [Ha _] s u s' Hs (Hb & He & Hf).
  unfold decrease_ibc_channel_balance, get_ibc_channel_balance, put_ibc_channel_balance in Hs.
  run_inv Hs. subst.
  match goal with E : checked_sub _ _ = _ |- _ => apply checked_sub_Some in E as [-> ?] end.
  split; [done|]. split; [|done]. apply map_Forall_insert_2; [|done].
  assert (uint 128 (default 0 (channel_balances (ibc s) !! (channel, x)))) as Hc.
  { destruct (_ !! _) eqn:E; simpl; [|done]. by apply (He _ _ E). }
  unfold uint in *. lia.
Qed.
Lemma range_relay : relay_ensures (keeps_inv ranges_ok).
Proof.
  intros act. apply ensures_relay; [typeclasses eauto|..].
  - unfold same, still, keeps_inv, ranges_ok, balances_ok. intros s s' [=]. congruence.
  - intros a x n [Hn _]. by apply range_increase.
  - apply range_release.
Qed.

Lemma range_put_fees F `{FeeHandler F} f : components_ok f -> ensures (keeps_inv ranges_ok) (put_fees F f).
Proof.
  intros Hf s u s' Hs (Hb & He & Hc & Hrest). unfold put_fees in Hs. run_inv Hs. subst.
  split; [done|]. split; [done|]. split; [|done]. by apply map_Forall_insert_2.
Qed.

Ltac range_step Ha :=
  lazymatch goal with
  | |- ensures _ (execute_transfer _ _) => apply range_execute_transfer; exact Ha
  | |- ensures _ (escrow_withdrawal _) => apply range_escrow; exact Ha
  | |- ensures _ (decrease_balance _ _ _) => apply range_decrease; apply Ha
  | |- ensures _ (put_fees _ _) => apply range_put_fees; exact Ha
  | |- ensures _ (relay_check_and_execute _) => apply range_relay
  | |- keeps_inv _ _ _ => let K := fresh in intros K; exact K
  | |- _ => ensures_step
  end.

Lemma base_deposit_fee_nonneg asset dest : 0 <= base_deposit_fee asset dest.
Proof.
  unfold base_deposit_fee, DEPOSIT_BASE_FEE, saturating_add, umax.
  assert (0 < 2 ^ 64) by done. assert (0 < 2 ^ 128) by done. lia.
Qed.

Lemma ranges_keep tx action :
  action_ok action ->
  ensures (keeps_inv ranges_ok) (execute_action tx action).
Proof.
  intros Ha.
  destruct action; cbn [execute_action action_ok] in *;
    first [ apply ensures_pay; [typeclasses eauto| |apply variable_nonneg_pay] | idtac ].
  all: try (simpl; first [lia | apply base_deposit_fee_nonneg]).
  all: open_action.
  all: lazymatch goal with
       | act : Types.Transfer |- _ => repeat range_step Ha
       | act : Types.Ics20Withdrawal |- _ => repeat range_step Ha
       | act : Types.BridgeLock |- _ => repeat range_step Ha
       | act : Types.BridgeUnlock |- _ => repeat range_step Ha
       | act : Types.BridgeTransfer |- _ => repeat range_step Ha
       | act : Types.FeeChange |- _ => idtac
       | act : IbcRelay |- _ => repeat range_step Ha
       | _ => apply range_same; ensures_tac
       end.
  destruct act; unfold fee_change_execute; repeat range_step Ha.
Qed.
End Ranges.

(** ** The currency pairs *)
(** The maps of the oracle agree: the count is the number of pairs, every pair
    has the id its state names, ids and pairs are in bijection, and the ids in
    use are below the next one. *)
Record pairs_inv (o : OracleState) (next num : Z) : Prop := {
  pairs_num : num = Z.of_nat (size (pair_states o));
  pairs_state : forall p, pair_ids o !! p = pair_id <$> pair_states o !! p;
  pairs_inverse : forall p i, pair_ids o !! p = Some i <-> id_pairs o !! i = Some p;
  pairs_below : forall p i, pair_ids o !! p = Some i -> i < next }.
Definition pairs_ok (s : State) : Prop :=
  pairs_inv (oracle s) (default 0 (next_pair_id (oracle s))) (default 0 (num_pairs (oracle s))).

Section Pairs.
Context `{External}.

Lemma put_pair_inv o next num p st :
  pairs_inv o next num -> pair_states o !! p = None -> pair_id st = next ->
  pairs_inv (upd_id_pairs <[next := p]> (upd_pair_ids <[p := next]> (upd_pair_states <[p := st]> o)))
    (next + 1) (num + 1).
Proof.
  intros Ho Hp Hst. split; simpl.
  - rewrite map_size_insert_None, (pairs_num _ _ _ Ho) by done. lia.
  - intros q. destruct (decide (p = q)) as [<-|Hne].
    + by rewrite !lookup_insert_eq, <- Hst.
    + rewrite !lookup_insert_ne by done. apply Ho.
  - intros q i. destruct (decide (p = q)) as [<-|Hne]; destruct (decide (next = i)) as [<-|Hni];
      rewrite ?lookup_insert_eq, ?lookup_insert_ne by done.
    + done.
    + split; [by intros [= ->]|]. intros Hi. apply Ho in Hi. rewrite (pairs_state _ _ _ Ho), Hp in Hi.
      done.
    + split; [|by intros [= ->]]. intros Hi. apply (pairs_below _ _ _ Ho) in Hi. lia.
    + apply Ho.
  - intros q i. destruct (decide (p = q)) as [<-|Hne].
    + rewrite lookup_insert_eq. intros [= <-]. lia.
    + rewrite lookup_insert_ne by done. intros Hi%(pairs_below _ _ _ Ho). lia.
Qed.

Lemma add_pair_inv next num p s v s' :
  pairs_inv (oracle s) next num -> add_pair (next, num) p s = (Done v, s') ->
  pairs_inv (oracle s') v.1 v.2.
Proof.
  intros Ho Hs. unfold add_pair, get_currency_pair_state, put_currency_pair_state,
    put_currency_pair_id, put_currency_pair in Hs.
  apply bind_done in Hs as (o & s1 & E & Hs). run_inv E. subst.
  destruct (pair_states (oracle s) !! p) eqn:Hp; run_inv Hs; subst; [done|].
  unfold increment in *. repeat match goal with
  | E : checked_add _ _ _ = Some _ |- _ => apply checked_add_Some in E as [-> _] end.
  by apply (put_pair_inv _ _ _ p (mk_pair_state None 0 next)).
Qed.

Lemma add_pairs_inv l next num s v s' :
  pairs_inv (oracle s) next num -> fold_each add_pair (next, num) l s = (Done v, s') ->
  pairs_inv (oracle s') v.1 v.2.
Proof.
  revert next num s. induction l as [|p l IH]; intros next num s Ho Hs; simpl in Hs.
  - run_inv Hs. by subst.
  - apply bind_done in Hs as ([next1 num1] & s1 & E & Hs). apply add_pair_inv in E; [|done].
    by eapply IH.
Qed.

Lemma remove_pair_inv next num p s n s' :
  pairs_inv (oracle s) next num -> remove_pair num p s = (Done n, s') ->
  pairs_inv (oracle s') next n /\ next_pair_id (oracle s') = next_pair_id (oracle s).
Proof.
  intros Ho Hs. unfold remove_pair, remove_currency_pair, get_currency_pair_id in Hs.
  apply bind_done in Hs as (b & s1 & E & Hs). rewrite wrap_err_done in E.
  apply bind_done in E as (o & s2 & Eo & E). run_inv Eo. subst.
  destruct (pair_ids (oracle s) !! p) as [i|] eqn:Hi; run_inv E; subst; run_inv Hs; subst; [|done].
  match goal with E : checked_sub _ _ = Some _ |- _ => apply checked_sub_Some in E as [-> _] end.
  pose proof (pairs_state _ _ _ Ho p) as Hst. rewrite Hi in Hst.
  destruct (pair_states (oracle s) !! p) as [st|] eqn:Hp; [|done].
  split; [|done]. split; simpl.
  - rewrite map_size_delete, Hp, (pairs_num _ _ _ Ho).
    assert (size (pair_states (oracle s)) <> 0%nat); [|lia].
    intros E0. apply map_size_empty_inv in E0. by rewrite E0 in Hp.
  - intros q. destruct (decide (p = q)) as [<-|Hne].
    + by rewrite !lookup_delete_eq.
    + rewrite !lookup_delete_ne by done. apply Ho.
  - intros q j. destruct (decide (p = q)) as [<-|Hne].
    + rewrite lookup_delete_eq. split; [done|]. intros Hj.
      destruct (decide (i = j)) as [<-|Hij]; [by rewrite lookup_delete_eq in Hj|].
      rewrite lookup_delete_ne in Hj by done. apply Ho in Hj. congruence.
    + rewrite lookup_delete_ne by done. destruct (decide (i = j)) as [<-|Hij].
      * rewrite lookup_delete_eq. split; [|done]. intros Hq. apply Ho in Hi, Hq. congruence.
      * rewrite lookup_delete_ne by done. apply Ho.
  - intros q j. destruct (decide (p = q)) as [<-|Hne]; [by rewrite lookup_delete_eq|].
    rewrite lookup_delete_ne by done. apply Ho.
Qed.

Lemma remove_pairs_inv l next num s n s' :
  pairs_inv (oracle s) next num -> fold_each remove_pair num l s = (Done n, s') ->
  pairs_inv (oracle s') next n /\ next_pair_id (oracle s') = next_pair_id (oracle s).
Proof.
  revert num s. induction l as [|p l IH]; intros num s Ho Hs; simpl in Hs.
  - run_inv Hs. by subst.
  - apply bind_done in Hs as (num1 & s1 & E & Hs). apply (remove_pair_inv next) in E as [Ho1 En]; [|done].
    apply IH in Hs as [Ho' En']; [|done]. split; [done|congruence].
Qed.

Lemma validate_signer_done s u s' : validate_signer_is_sudo s = (Done u, s') -> s' = s.
Proof.
  intros Hs. unfold validate_signer_is_sudo in Hs.
  apply bind_done in Hs as (c & s1 & [_ ->]%expect_context_done & Hs).
  by apply ensure_sudo_done in Hs as [_ ->].
Qed.

Lemma pairs_change_keeps act : ensures (keeps_inv pairs_ok) (currency_pairs_change_execute act).
Proof.
  intros s u s' Hs Ho. unfold currency_pairs_change_execute,
    check_and_execute_currency_pairs_addition, check_and_execute_currency_pairs_removal,
    get_next_currency_pair_id, get_num_currency_pairs, put_next_currency_pair_id,
    put_num_currency_pairs in Hs.
  destruct act as [l|l]; apply bind_done in Hs as (u1 & s1 & ->%validate_signer_done & Hs).
  - apply bind_done in Hs as (next & s1 & E & Hs). run_inv E. subst.
    apply bind_done in Hs as (num & s1 & E & Hs). run_inv E. subst.
    apply bind_done in Hs as (v & s1 & E & Hs). apply add_pairs_inv in E; [|done].
    run_inv Hs. subst. destruct E. by split.
  - apply bind_done in Hs as (num & s1 & E & Hs). run_inv E. subst.
    apply bind_done in Hs as (u2 & s1 & E & Hs). run_inv E. subst.
    apply bind_done in Hs as (n & s1 & E & Hs).
    apply remove_pairs_inv with (next := default 0 (next_pair_id (oracle s))) in E as [E En]; [|done].
    run_inv Hs. subst. unfold pairs_ok. simpl. rewrite En. destruct E. by split.
Qed.

Lemma pairs_keep `{Relay} tx action :
  ensures (keeps_inv pairs_ok) (execute_action tx action).
Proof.
  assert (forall A (m : M A), ensures (same oracle) m -> ensures (keeps_inv pairs_ok) m) as Hsame.
  { intros A m. apply ensures_mono. unfold same, keeps_inv, pairs_ok. by intros s s' ->. }
  destruct action; simpl.
  17: { apply ensures_pay; [typeclasses eauto|apply pairs_change_keeps|]. apply Hsame. ensures_tac. }
  all: apply Hsame; ensures_tac.
Qed.
End Pairs.

(** ** The end of a block *)
(** The fees collected in an asset, as they are paid out. *)
Definition fees_due `{Sha256} (x : IbcPrefixed) (l : list Fee) : Z :=
  foldr (fun f acc =>
    if decide (to_ibc_prefixed (fee_denom f) = x) then fee_amount f + acc else acc) 0 l.

Lemma pay_block_fees_done `{External} recipient l s u s' :
  pay_block_fees recipient l s = (Done u, s') ->
  (forall a x, balance_of s' a x =
     balance_of s a x + (if decide (a = recipient) then fees_due x l else 0)) /\
  authority s' = authority s.
Proof.
  unfold pay_block_fees. revert s. induction l as [|f l IH]; intros s Hs; simpl in Hs.
  - run_inv Hs. subst. split; [|done]. intros a x. case_decide; simpl; lia.
  - apply bind_done in Hs as (u1 & s1 & E & Hs). rewrite wrap_err_done, increase_balance_done in E.
    destruct E as [_ ->]. apply IH in Hs as [Hs Ha]. split; [|by rewrite Ha].
    intros a x. rewrite Hs, balance_of_set_balance. simpl.
    repeat case_decide; simplify_eq; lia || congruence.
Qed.

Lemma end_block_done `{External, Relay} recipient s updates s' :
  app_end_block recipient s = (Done updates, s') ->
  exists s1, accounts s1 = accounts s /\ updates = default ∅ (block_updates (authority s)) /\
    block_updates (authority s1) = None /\
    pay_block_fees recipient (default [] (block_fees (fees s))) s1 = (Done tt, s').
Proof.
  intros Hs. unfold app_end_block, get_block_validator_updates, get_block_fees,
    clear_block_validator_updates in Hs.
  apply bind_done in Hs as (v & s1 & E & Hs). run_inv E. subst.
  apply bind_done in Hs as (l & s1 & E & Hs). run_inv E. subst.
  apply bind_done in Hs as (u1 & s1 & E & Hs). rewrite wrap_err_done in E.
  assert (ensures (same accounts) authority_end_block) as Hq by ensures_tac. apply Hq in E.
  apply bind_done in Hs as (u3 & s3 & E3 & Hs). unfold library_put in E3. run_inv E3. subst.
  apply bind_done in Hs as (u2 & s2 & E2 & Hs). run_inv E2. subst.
  apply bind_done in Hs as ([] & s2 & E2 & Hs). run_inv Hs. subst.
  eexists. split; [|split; [reflexivity|split; [|exact E2]]]; done.
Qed.

(** ** Theorems *)

(** Transactions keep every balance, every channel's escrow, every fee
    component and every fee collected in the block in the range of its 128-bit unsigned type, so that no stored
    quantity ever wraps around. *)
Theorem quantities_in_range `{External, Relay} tx s evs s'
    (Hactions : Forall action_ok (tx_actions tx)) (Hok : ranges_ok s)
    (Hs : execute_transaction tx s = (Done evs, s')) : ranges_ok s'.
Proof.
  eapply (transaction_keeps ranges_ok); [|eapply Forall_impl; [exact Hactions|]|exact Hok|exact Hs].
  - split; [|split; [|split]]; done.
  - intros a Ha. by apply ranges_keep.
Qed.

Definition pay_and_set_fee : Transaction :=
  demo_tx alice 0 [Action_Transfer (mk_transfer (on_chain bob) 100 nria_denom nria_denom);
                   Action_RollupDataSubmission (mk_submission "rollup" "data" nria_denom)].

Lemma quantities_in_range_witness : ranges_ok (after pay_and_set_fee demo_state).
Proof.
  destruct (after_done pay_and_set_fee demo_state) as [evs E]; [vm_compute; reflexivity|].
  apply (quantities_in_range pay_and_set_fee demo_state evs).
  - repeat constructor; discriminate.
  - split; [|split; [|split; [|constructor]]].
    + apply map_Forall_singleton. split; [discriminate|reflexivity].
    + apply map_Forall_empty.
    + intros k f Hf. apply elem_of_list_to_map_2, list_elem_of_fmap in Hf as (n & [= -> ->] & _).
      repeat split; reflexivity || discriminate.
  - exact E.
Defined.

(** There is always an asset in which fees can be paid: no transaction removes
    the last one. *)
Theorem fee_assets_never_empty `{External, Relay} tx s evs s'
    (Hok : has_fee_asset s) (Hs : execute_transaction tx s = (Done evs, s')) : has_fee_asset s'.
Proof.
  eapply (transaction_keeps has_fee_asset); [| |exact Hok|exact Hs].
  - split; [|split; [|split]]; done.
  - apply Forall_forall. intros a _. by apply fee_assets_keep.
Qed.

Definition swap_fee_asset : Transaction :=
  demo_tx alice 0 [Action_FeeAssetChange (FeeAssetAddition (Denom_TracePrefixed (mk_trace [] "utia")));
                   Action_FeeAssetChange (FeeAssetRemoval nria_denom)].

Lemma fee_assets_never_empty_witness :
  executed (demo_tx alice 0 [Action_FeeAssetChange (FeeAssetRemoval nria_denom)]) demo_state = false /\
  has_fee_asset (after swap_fee_asset demo_state).
Proof.
  split; [vm_compute; reflexivity|].
  destruct (after_done swap_fee_asset demo_state) as [evs E]; [vm_compute; reflexivity|].
  apply (fee_assets_never_empty swap_fee_asset demo_state evs).
  - apply (non_empty_singleton_L (C := gset IbcPrefixed) nria_id).
  - exact E.
Defined.

(** Transactions keep the oracle's maps in agreement: the stored count is the
    number of currency pairs, each pair has one id and each id one pair, and no
    id in use is handed out again. *)
Theorem currency_pairs_agree `{External, Relay} tx s evs s'
    (Hok : pairs_ok s) (Hs : execute_transaction tx s = (Done evs, s')) : pairs_ok s'.
Proof.
  eapply (transaction_keeps pairs_ok); [| |exact Hok|exact Hs].
  - split; [|split; [|split]]; done.
  - apply Forall_forall. intros a _. by apply pairs_keep.
Qed.

Definition btc_usd := mk_pair "BTC" "USD".
Definition eth_usd := mk_pair "ETH" "USD".
Definition change_pairs : Transaction :=
  demo_tx alice 0 [Action_CurrencyPairsChange (PairsAddition [btc_usd; eth_usd; btc_usd]);
                   Action_CurrencyPairsChange (PairsRemoval [btc_usd]);
                   Action_CurrencyPairsChange (PairsAddition [btc_usd])].

Lemma currency_pairs_agree_witness :
  pair_ids (oracle (after change_pairs demo_state)) !! btc_usd = Some 2 /\
  num_pairs (oracle (after change_pairs demo_state)) = Some 2 /\
  pairs_ok (after change_pairs demo_state).
Proof.
  split; [vm_compute; reflexivity|]. split; [vm_compute; reflexivity|].
  destruct (after_done change_pairs demo_state) as [evs E]; [vm_compute; reflexivity|].
  apply (currency_pairs_agree change_pairs demo_state evs).
  - split; simpl; intros; rewrite ?lookup_empty in *; done.
  - exact E.
Defined.

(** The end of a block pays out the collected fees: the proposer's balance of
    every asset grows by exactly the fees collected in it, no other balance
    changes, and the collected validator updates are handed to consensus and
    cleared. *)
Theorem block_fees_are_paid `{External, Relay} recipient s updates s'
    (Hs : app_end_block recipient s = (Done updates, s')) :
  (forall a x, balance_of s' a x = balance_of s a x +
     (if decide (a = recipient) then fees_due x (default [] (block_fees (fees s))) else 0)) /\
  updates = default ∅ (block_updates (authority s)) /\ block_updates (authority s') = None.
Proof.
  apply end_block_done in Hs as (s1 & Ha & -> & Hu & Hs).
  apply pay_block_fees_done in Hs as [Hb Hauth]. split; [|split; [done|by rewrite Hauth]].
  intros a x. rewrite Hb. unfold balance_of. by rewrite Ha.
Qed.

Lemma block_fees_are_paid_witness :
  let s := after pay_and_set_fee demo_state in
  (app_end_block bob s).1 = Done ∅ /\
  balance_of (app_end_block bob s).2 bob nria_id = balance_of s bob nria_id + 20.
Proof.
  assert ((app_end_block bob (after pay_and_set_fee demo_state)).1 = Done ∅) as E1
    by (vm_compute; reflexivity).
  assert (app_end_block bob (after pay_and_set_fee demo_state) =
    (Done ∅, (app_end_block bob (after pay_and_set_fee demo_state)).2)) as E
    by (rewrite <- E1; apply surjective_pairing).
  split; [exact E1|].
  destruct (block_fees_are_paid bob (after pay_and_set_fee demo_state) ∅ _ E) as [Hb _].
  rewrite Hb. reflexivity.
Defined.
