(* ===== verification/BridgeSafety.v ===== *)
(** * The funds of bridge accounts

    Who can take funds out of a bridge account: the account itself, its sudo
    account and its withdrawer.  A transaction of anyone else leaves its keys as
    they are and none of its balances lower. *)
From S2P Require Import Prelude Denom Types State Chain Accounts Authority.
From S2P Require Import BridgeActions Ics20 Relay Transact Conservation RelayLemmas TransactTheorems.
From S2P Require Import Demo ActionTheorems Invariants LedgerTheorems.
From stdpp Require Import base list option strings gmap fin_maps.
From Stdlib Require Import ZArith Lia String RelationClasses.
Open Scope string_scope.
Open Scope Z_scope.

Section Safety.
Context `{External, Relay} (signer bridge_account : address_bytes).

(** The bridge account is registered, and the signer of the transaction being
    executed has no rights to it. *)
Definition stranger (s : State) : Prop :=
  signer <> bridge_account /\ is_Some (rollup_ids (bridge s) !! bridge_account) /\
  (forall c, tx_context s = Some c -> ctx_address_bytes c = signer) /\
  bridge_sudos (bridge s) !! bridge_account <> Some signer /\
  withdrawers (bridge s) !! bridge_account <> Some signer.
Definition keys_of (s : State) :=
  (bridge_sudos (bridge s) !! bridge_account, withdrawers (bridge s) !! bridge_account).
Definition not_lower (s s' : State) : Prop :=
  stranger s -> stranger s' /\ keys_of s' = keys_of s /\
  forall x, balance_of s bridge_account x <= balance_of s' bridge_account x.
#[export] Instance not_lower_preorder : PreOrder not_lower.
Proof.
  split; [intros s; unfold not_lower; intros K; split; [done|split; [done|lia]]|].
  intros s1 s2 s3 H12 H23 K. destruct (H12 K) as (K2 & L2 & E2), (H23 K2) as (K3 & L3 & E3).
  split; [done|]. split; [congruence|]. intros x. specialize (E2 x). specialize (E3 x). lia.
Qed.

(** What the rights are read from. *)
Definition rights (s : State) :=
  (tx_context s, rollup_ids (bridge s), bridge_sudos (bridge s), withdrawers (bridge s)).
Lemma stranger_same s s' : same rights s s' -> stranger s -> stranger s'.
Proof. unfold same, rights, stranger. by intros [= -> -> -> ->]. Qed.
Lemma quiet_not_lower {A} (m : M A) :
  ensures (same (fun s => (rights s, balances (accounts s)))) m -> ensures not_lower m.
Proof.
  apply ensures_mono. unfold same, not_lower. intros s s' [= E1 E2 E3 E4 E5] K. split; [|split].
  - apply (stranger_same s s'); [unfold same, rights; congruence|done].
  - unfold keys_of. by rewrite E3, E4.
  - intros x. unfold balance_of. rewrite E5. lia.
Qed.
Lemma credit_not_lower a x b s :
  (a = bridge_account -> balance_of s a x <= b) -> not_lower s (set_balance a x b s).
Proof.
  intros Hb K. do 2 (split; [done|]). intros y. rewrite balance_of_set_balance.
  case_decide; simplify_eq; [by apply Hb|lia].
Qed.

Lemma safe_execute_transfer act from :
  0 <= tr_amount act -> from <> bridge_account -> ensures not_lower (execute_transfer act from).
Proof.
  intros Ha Hf s u s' Hs. apply execute_transfer_done in Hs as [_ ->]. intros K. do 2 (split; [done|]).
  intros x. rewrite balance_of_moved. repeat case_decide; destruct_and?; simplify_eq; lia.
Qed.
(** Reading the transaction's signer. *)
Lemma safe_context {A} (k : TransactionContext -> M A) :
  (forall c, ctx_address_bytes c = signer -> signer <> bridge_account -> ensures not_lower (k c)) ->
  ensures not_lower (expect_context ≫= k).
Proof.
  intros Hk s a s' Hs K. apply bind_done in Hs as (c & s1 & [Hc ->]%expect_context_done & Hs).
  pose proof K as (Hne & _ & Hctx & _). by eapply (Hk c (Hctx c Hc) Hne).
Qed.
Lemma safe_check_and_pay_fees {F} `{FeeHandler F} (act : F) : ensures not_lower (check_and_pay_fees act).
Proof.
  unfold check_and_pay_fees. do 2 (ensures_step; [ensures_tac|]).
  destruct (fee_asset act) as [asset|]; [|ensures_tac].
  do 2 (ensures_step; [ensures_tac|]). apply safe_context. intros c Hc Hne.
  ensures_step; [apply quiet_not_lower; ensures_tac|]. apply ensures_wrap. intros s u s' Hs.
  apply decrease_balance_done in Hs as [_ ->]. apply credit_not_lower. congruence.
Qed.

Lemma safe_reads {A} (m : M A) : reads m -> ensures not_lower m.
Proof. apply ensures_reads. typeclasses eauto. Qed.
#[local] Hint Resolve reads_check_transfer reads_check_bridge_unlock reads_is_bridge
  reads_bridge_asset reads_ensure_prefix reads_expect_context : astria.
Lemma safe_transfer act : 0 <= tr_amount act -> ensures not_lower (transfer_execute act).
Proof.
  intros Ha. unfold transfer_execute. apply safe_context. intros c Hc Hne.
  do 2 (ensures_step; [ensures_tac|]).
  ensures_step; [apply safe_reads, reads_check_transfer|]. apply safe_execute_transfer; congruence.
Qed.
Lemma safe_execute_bridge_lock act : 0 <= bl_amount act -> ensures not_lower (execute_bridge_lock act).
Proof.
  intros Ha. unfold execute_bridge_lock. apply safe_context. intros c Hc Hne.
  do 2 (ensures_step; [ensures_tac|]).
  ensures_step; [apply safe_reads; destruct (bl_asset act); unfold map_ibc_to_trace_prefixed_asset; auto with astria|].
  ensures_step; [apply safe_reads, reads_check_transfer|].
  ensures_step; [apply safe_execute_transfer; [done|congruence]|]. apply quiet_not_lower. ensures_tac.
Qed.
Lemma safe_bridge_lock act : 0 <= bl_amount act -> ensures not_lower (bridge_lock_execute act).
Proof.
  intros Ha. unfold bridge_lock_execute. ensures_step; [apply safe_reads; auto with astria|].
  repeat (ensures_step; [apply safe_reads; auto with astria|]). by apply safe_execute_bridge_lock.
Qed.
Lemma safe_bridge_transfer act : 0 <= bt_amount act -> ensures not_lower (bridge_transfer_execute act).
Proof.
  intros Ha. unfold bridge_transfer_execute.
  do 4 (ensures_step; [apply safe_reads; auto with astria|]).
  ensures_step; [apply quiet_not_lower; ensures_tac|]. by apply safe_execute_bridge_lock.
Qed.

(** The check before an unlock: of a bridge account the signer is the withdrawer. *)
Lemma check_transfer_withdrawer act from s u s' :
  check_transfer act from s = (Done u, s') -> is_Some (rollup_ids (bridge s) !! from) ->
  exists c, tx_context s = Some c /\ withdrawers (bridge s) !! from = Some (ctx_address_bytes c).
Proof.
  intros Hs Hr. unfold check_transfer, is_a_bridge_account, get_bridge_account_rollup_id in Hs.
  apply bind_done in Hs as (u1 & s1 & E & Hs). run_inv E. subst.
  apply bind_done in Hs as (b & s1 & E & Hs). run_inv E. subst. rewrite bool_decide_eq_true_2 in Hs by done.
  apply bind_done in Hs as (u2 & s1 & E & _). unfold get_transaction_context, get_bridge_account_withdrawer_address in E.
  run_inv E. subst. match goal with E : String.eqb _ _ = true |- _ => apply String.eqb_eq in E; subst end.
  eauto.
Qed.
Lemma not_the_withdrawer s from :
  stranger s -> (exists c, tx_context s = Some c /\ withdrawers (bridge s) !! from = Some (ctx_address_bytes c)) ->
  from <> bridge_account.
Proof.
  intros (_ & _ & Hctx & _ & Hw) (c & Hc & Hfrom) ->. apply Hw. by rewrite Hfrom, (Hctx c Hc).
Qed.

Lemma safe_bridge_unlock act : 0 <= bu_amount act -> ensures not_lower (bridge_unlock_execute act).
Proof.
  intros Ha. unfold bridge_unlock_execute.
  do 4 (ensures_step; [apply safe_reads; auto with astria|]). intros s u s' Hs K.
  apply bind_done in Hs as (u1 & s1 & E & Hs).
  pose proof (reads_done _ _ _ _ (reads_check_transfer _ _) E) as ->.
  assert (addr_bytes (bu_bridge_address act) <> bridge_account) as Hne.
  { intros Heq. pose proof K as (_ & Hr & _). rewrite <- Heq in Hr.
    by destruct (not_the_withdrawer s _ K (check_transfer_withdrawer _ _ _ _ _ E Hr)). }
  clear E. revert s u s' Hs K. match goal with |- forall s u s', ?m s = _ -> _ => change (ensures not_lower m) end.
  ensures_step; [apply quiet_not_lower; ensures_tac|]. by apply safe_execute_transfer.
Qed.

Lemma safe_withdrawal act : ensures not_lower (ics20_withdrawal_execute act).
Proof.
  unfold ics20_withdrawal_execute. apply safe_context. intros c Hc Hne.
  ensures_step; [apply safe_reads; auto with astria|].
  ensures_step; [apply quiet_not_lower; destruct (w_bridge_address act); unfold set_withdrawal_event; ensures_tac|].
  intros s u s' Hs K. apply bind_done in Hs as (target & s1 & E & Hs). rewrite wrap_err_done in E.
  assert (s1 = s /\ target <> bridge_account) as [-> Ht].
  { unfold establish_withdrawal_target, get_bridge_account_withdrawer_address, is_a_bridge_account,
      get_bridge_account_rollup_id in E.
    destruct (w_bridge_address act) as [b|]; run_inv E; subst; (split; [done|]); [|congruence].
    match goal with E : String.eqb _ _ = true |- _ => apply String.eqb_eq in E; subst end.
    pose proof K as (_ & _ & _ & _ & Hw). intros Heq. apply Hw. congruence. }
  clear E. revert s u s' Hs K. match goal with |- forall s u s', ?m s = _ -> _ => change (ensures not_lower m) end.
  do 2 (ensures_step; [apply quiet_not_lower; ensures_tac|]).
  do 2 (ensures_step; [apply quiet_not_lower; ensures_tac|]).
  ensures_step; [|apply quiet_not_lower; unfold escrow_withdrawal; ensures_tac].
  apply ensures_wrap. intros s u s' Hs.
  apply decrease_balance_done in Hs as [_ ->]. apply credit_not_lower. congruence.
Qed.

Lemma safe_init_bridge_account act : ensures not_lower (init_bridge_account_execute act).
Proof.
  unfold init_bridge_account_execute. apply safe_context. intros c Hc Hne.
  do 4 (ensures_step; [apply safe_reads; unfold ensure_optional_prefix, get_bridge_account_rollup_id;
    try case_match; auto with astria|]).
  intros s u s' Hs (K1 & K2 & K3 & K4 & K5). unfold put_bridge_account_rollup_id, put_bridge_account_ibc_asset,
    put_bridge_account_sudo_address, put_bridge_account_withdrawer_address in Hs. run_inv Hs. subst.
  unfold stranger, keys_of. simpl. rewrite !lookup_insert_ne by congruence. done.
Qed.
Lemma safe_bridge_sudo_change act : ensures not_lower (bridge_sudo_change_execute act).
Proof.
  unfold bridge_sudo_change_execute. apply safe_context. intros c Hc Hne.
  do 3 (ensures_step; [apply safe_reads; unfold ensure_optional_prefix; try case_match; auto with astria|]).
  intros s u s' Hs (K1 & K2 & K3 & K4 & K5). unfold get_bridge_account_sudo_address in Hs.
  apply bind_done in Hs as (o & s1 & E & Hs). run_inv E. subst.
  apply bind_done in Hs as (sd & s1 & E & Hs). run_inv E. subst.
  apply bind_done in Hs as (u1 & s1 & E & Hs). run_inv E. subst.
  match goal with E : String.eqb _ _ = true |- _ => apply String.eqb_eq in E; subst end.
  assert (addr_bytes (bsc_bridge_address act) <> bridge_account) as Ho by (intros Heq; apply K4; congruence).
  unfold put_bridge_account_sudo_address, put_bridge_account_withdrawer_address in Hs.
  destruct (bsc_new_sudo_address act), (bsc_new_withdrawer_address act); run_inv Hs; subst;
    unfold stranger, keys_of; simpl; rewrite ?lookup_insert_ne by congruence; done.
Qed.

(** A relayed message only credits accounts. *)
Lemma safe_relay act : ensures not_lower (relay_check_and_execute act).
Proof.
  apply ensures_relay; [typeclasses eauto|..].
  - intros s s' Hs. unfold same, still in Hs. injection Hs as Ha Hr _ Hsu Hw _ _ _ _ _ _ _ _ _ _ _ _ _ _ _ Hc.
    intros K. split; [|split].
    + apply (stranger_same s s'); [unfold same, rights; congruence|done].
    + unfold keys_of. congruence.
    + intros x. unfold balance_of. rewrite Ha. lia.
  - intros a x n [Hn _] s u s' Hs. apply increase_balance_done in Hs as [_ ->].
    apply credit_not_lower. intros _. lia.
  - intros c x n _. apply quiet_not_lower. ensures_tac.
Qed.
Lemma safe_action tx action : action_ok action -> ensures not_lower (execute_action tx action).
Proof.
  intros Ha. destruct action; simpl in Ha |- *;
    lazymatch goal with
    | |- context [relay_check_and_execute _] => idtac
    | _ => apply ensures_pay; [typeclasses eauto| |apply safe_check_and_pay_fees]
    end.
  5: { ensures_step; [ensures_tac|]. ensures_step; [apply quiet_not_lower; ensures_tac|].
       apply ensures_wrap, safe_relay. }
  2: apply safe_transfer; apply Ha.
  all: try apply safe_withdrawal.
  all: try apply safe_init_bridge_account.
  all: try (apply safe_bridge_lock; apply Ha).
  all: try (apply safe_bridge_unlock; apply Ha).
  all: try apply safe_bridge_sudo_change.
  all: try (apply safe_bridge_transfer; apply Ha).
  all: apply quiet_not_lower; ensures_tac.
Qed.
End Safety.

(** ** Theorem *)

(** C2. Nobody but the account itself, its sudo account and its withdrawer can take
    funds out of a bridge account: a transaction that any other account signs
    leaves none of its balances lower, and its sudo account and withdrawer as
    they are, whatever its actions are, relayed IBC messages included. *)
Theorem bridge_funds_are_safe `{External, Relay} tx s evs s' (b : address_bytes)
    (Hok : Forall action_ok (tx_actions tx))
    (Hctx : tx_context s = None)
    (Hb : is_Some (rollup_ids (bridge s) !! b))
    (Hself : tx_address_bytes tx <> b)
    (Hsudo : bridge_sudos (bridge s) !! b <> Some (tx_address_bytes tx))
    (Hw : withdrawers (bridge s) !! b <> Some (tx_address_bytes tx))
    (Hs : execute_transaction tx s = (Done evs, s')) :
  (forall x, balance_of s b x <= balance_of s' b x) /\
  bridge_sudos (bridge s') !! b = bridge_sudos (bridge s) !! b /\
  withdrawers (bridge s') !! b = withdrawers (bridge s) !! b.
Proof.
  set (signer := tx_address_bytes tx) in *.
  assert (not_lower signer b s s') as Hn.
  { eapply (execute_transaction_ensures (not_lower signer b)); [..|exact Hs].
    - intros c s0 Hc (K1 & K2 & K3 & K4). split; [|done]. split; [done|]. split; [done|].
      split; [|done]. intros c' [= ->]. exact Hc.
    - intros f s0 K. by split.
    - intros f s0 K. by split.
    - intros s0 K. by split.
    - eapply list.Forall_impl; [exact Hok|]. intros a. apply safe_action. }
  destruct Hn as (_ & [= -> ->] & Hle); [|done].
  split; [done|]. split; [done|]. split; [|done]. by rewrite Hctx.
Qed.

(** Carol withdraws from Bob's bridge account; Alice cannot, but can lock more. *)
Definition lock_more : Transaction :=
  demo_tx alice 2 [Action_BridgeLock (mk_lock (on_chain bob) 100 nria_denom nria_denom "0xdest")].
Lemma bridge_funds_are_safe_witness :
  executed (demo_tx alice 2 [unlock_action "event"]) (after lock bridged_state) = false /\
  forall x, balance_of (after lock bridged_state) bob x <=
            balance_of (after lock_more (after lock bridged_state)) bob x.
Proof.
  split; [vm_compute; reflexivity|].
  destruct (after_done lock_more (after lock bridged_state)) as [evs E]; [vm_compute; reflexivity|].
  apply (bridge_funds_are_safe lock_more (after lock bridged_state) evs
           (after lock_more (after lock bridged_state)) bob).
  - repeat constructor; vm_compute; discriminate.
  - vm_compute. reflexivity.
  - vm_compute. eauto.
  - discriminate.
  - vm_compute. discriminate.
  - vm_compute. discriminate.
  - exact E.
Defined.
