(* ===== verification/BTree.v ===== *)
(** * Ordered maps

    A [BTreeMap<u64, _>] as the list of its entries in ascending order of the
    keys, with the laws its clients (the mempool and the conductor's block
    cache) use. *)
From S2P Require Import Prelude.
From stdpp Require Import base list option gmap fin_maps sorting.
From Stdlib Require Import ZArith Lia String.
Open Scope Z_scope.

Abbreviation BTree V := (list (Z * V)).
Section BTree.
Context {V : Type}.
Fixpoint bt_get (k : Z) (l : BTree V) : option V :=
  match l with
  | [] => None
  | (k', v) :: l' => if k =? k' then Some v else bt_get k l'
  end.
Fixpoint bt_insert (k : Z) (v : V) (l : BTree V) : BTree V :=
  match l with
  | [] => [(k, v)]
  | (k', v') :: l' =>
      if k <? k' then (k, v) :: l
      else if k =? k' then (k, v) :: l'
      else (k', v') :: bt_insert k v l'
  end.
(** [split_off(k)]: what stays, and what is returned. *)
Definition bt_split_off (k : Z) (l : BTree V) : BTree V * BTree V :=
  (filter (fun kv => kv.1 < k) l, filter (fun kv => k <= kv.1) l).
End BTree.

(** ** Its laws *)
Section BTreeLemmas.
Context {V : Type}.
Implicit Types l : BTree V.

Definition keys l : list Z := l.*1.
Definition sorted_keys l : Prop := StronglySorted Z.lt (keys l).

Lemma bt_get_None k l : bt_get k l = None <-> k ∉ keys l.
Proof.
  induction l as [|[k' v] l IH]; simpl; [split; [intros _; apply not_elem_of_nil|done]|].
  rewrite not_elem_of_cons. destruct (Z.eqb_spec k k'); [naive_solver|]. rewrite IH. naive_solver.
Qed.
Lemma bt_get_elem k l : is_Some (bt_get k l) <-> k ∈ keys l.
Proof.
  rewrite <- not_eq_None_Some, bt_get_None. split; [|by intros ? ?].
  intros Hn. destruct (decide (k ∈ keys l)); [done|]. by destruct Hn.
Qed.

Lemma bt_insert_perm k v l : k ∉ keys l -> bt_insert k v l ≡ₚ (k, v) :: l.
Proof.
  induction l as [|[k' v'] l IH]; simpl; [done|]. rewrite not_elem_of_cons. intros [Hk Hl].
  destruct (k <? k'); [done|]. rewrite (proj2 (Z.eqb_neq k k')) by done.
  rewrite (IH Hl). apply perm_swap.
Qed.
Lemma bt_insert_keys k v l : k ∉ keys l -> keys (bt_insert k v l) ≡ₚ k :: keys l.
Proof. intros Hk. unfold keys. by rewrite bt_insert_perm. Qed.
Lemma bt_insert_ne k v l : bt_insert k v l <> [].
Proof. destruct l as [|[k' v'] l]; simpl; [done|]. by repeat case_match. Qed.

Lemma bt_insert_sorted k v l : k ∉ keys l -> sorted_keys l -> sorted_keys (bt_insert k v l).
Proof.
  unfold sorted_keys, keys.
  induction l as [|[k' v'] l IH]; intros Hk Hs; simpl in *; [repeat constructor|].
  apply not_elem_of_cons in Hk as [Hne Hk]. apply StronglySorted_inv in Hs as [Hs Hf].
  destruct (Z.ltb_spec k k').
  - simpl. constructor; [by constructor|]. constructor; [done|].
    eapply Forall_impl; [exact Hf|]. simpl. lia.
  - rewrite (proj2 (Z.eqb_neq k k')) by done. simpl. constructor; [by apply IH|].
    fold (keys (bt_insert k v l)). rewrite bt_insert_keys by done. constructor; [lia|done].
Qed.

(** A key above all the others goes to the end. *)
Lemma bt_insert_last k v l : Forall (fun k' => k' < k) (keys l) -> bt_insert k v l = (l ++ [(k, v)])%list.
Proof.
  induction l as [|[k' v'] l IH]; simpl; [done|]. intros [Hk Hl]%Forall_cons.
  rewrite (proj2 (Z.ltb_ge k k')) by lia. rewrite (proj2 (Z.eqb_neq k k')) by lia.
  by rewrite IH.
Qed.

Lemma split_off_perm k l : (bt_split_off k l).1 ++ (bt_split_off k l).2 ≡ₚ l.
Proof.
  unfold bt_split_off. cbn [fst snd]. induction l as [|[k' v] l IH]; [done|].
  rewrite !filter_cons. cbn [fst snd]. destruct (decide (k' < k)), (decide (k <= k')); try lia.
  - simpl. by rewrite IH.
  - rewrite <- Permutation_middle. by rewrite IH.
Qed.
Lemma split_off_below k l kv : kv ∈ (bt_split_off k l).1 <-> kv ∈ l /\ kv.1 < k.
Proof. unfold bt_split_off. cbn [fst snd]. rewrite list_elem_of_filter. tauto. Qed.
Lemma split_off_above k l kv : kv ∈ (bt_split_off k l).2 <-> kv ∈ l /\ k <= kv.1.
Proof. unfold bt_split_off. cbn [fst snd]. rewrite list_elem_of_filter. tauto. Qed.

Lemma sorted_filter (P : Z * V -> Prop) `{forall x, Decision (P x)} l :
  sorted_keys l -> sorted_keys (filter P l).
Proof.
  unfold sorted_keys, keys. induction l as [|[k v] l IH]; [done|]. simpl. intros Hs.
  apply StronglySorted_inv in Hs as [Hs Hf]. rewrite filter_cons.
  case_decide; [|by apply IH]. simpl. constructor; [by apply IH|].
  apply Forall_forall. intros k' Hk'. rewrite Forall_forall in Hf. apply Hf.
  apply list_elem_of_fmap in Hk' as (kv & -> & Hkv). apply list_elem_of_filter in Hkv as [_ Hkv].
  by apply list_elem_of_fmap_2.
Qed.

Lemma sorted_keys_inj k v v' l : sorted_keys l -> (k, v) ∈ l -> (k, v') ∈ l -> v = v'.
Proof.
  unfold sorted_keys, keys. induction l as [|[k0 v0] l IH]; simpl; intros Hs Hv Hv'.
  - by apply not_elem_of_nil in Hv.
  - apply StronglySorted_inv in Hs as [Hs Hf]. rewrite Forall_forall in Hf.
    rewrite elem_of_cons in Hv, Hv'.
    destruct Hv as [[= -> ->]|Hv], Hv' as [[= ->]|Hv']; simplify_eq; try done.
    + apply (list_elem_of_fmap_2 fst) in Hv'. apply Hf in Hv'. simpl in Hv'. lia.
    + apply (list_elem_of_fmap_2 fst) in Hv. apply Hf in Hv. simpl in Hv. lia.
    + by apply IH.
Qed.

(** Splitting a sorted map by a bound between two of its keys. *)
Lemma split_off_app s p q :
  Forall (fun k => k < s) (keys p) -> Forall (fun k => s <= k) (keys q) ->
  bt_split_off s (p ++ q)%list = (p, q).
Proof.
  unfold bt_split_off, keys. intros Hp Hq.
  assert (filter (fun kv : Z * V => kv.1 < s) q = [] /\ filter (fun kv : Z * V => s <= kv.1) q = q)
    as [E1 E2].
  { induction q as [|[k v] q IH]; [done|]. simpl in Hq. apply Forall_cons in Hq as [Hk Hq].
    rewrite !filter_cons. cbn [fst]. rewrite decide_False by lia. rewrite decide_True by done.
    destruct (IH Hq) as [-> ->]. done. }
  induction p as [|[k v] p IH]; [rewrite app_nil_l; by rewrite E1, E2|]. simpl in Hp.
  apply Forall_cons in Hp as [Hk Hp]. specialize (IH Hp). injection IH as IH1 IH2.
  rewrite <- app_comm_cons, !filter_cons. cbn [fst]. rewrite decide_True by done.
  rewrite decide_False by lia. by rewrite IH1, IH2.
Qed.
End BTreeLemmas.
