(* ===== verification/Mempool.v ===== *)
(** * The mempool

    [mempool/transactions_container.rs] and [mempool/mod.rs]: transactions that
    wait to be included in a block, per account, split into those ready to be
    executed (pending) and those that may become so (parked).

    A [BTreeMap<u32, _>] is a list of entries in ascending order of the keys, a
    [HashMap] a [gmap]; what is computed by going through a [HashMap] goes
    through [map_to_list].  Times are [Z], and the current time is an argument.
    Each operation is one function on the mempool, and takes effect at once.  In
    the code the locks of the two queues are held while the queues change; removal
    and maintenance release them before they update the removal cache and the tracked
    hashes, and what another task may see in between is not modelled. *)
From S2P Require Import Prelude Denom Types State Chain Accounts Relay Transact Ics20 BTree.
From stdpp Require Import base list option strings gmap fin_maps sorting.
From Stdlib Require Import ZArith Lia String.
Open Scope Z_scope.

Abbreviation Costs := (gmap IbcPrefixed Z).
Abbreviation Hash := TransactionId.

(** ** transactions_container.rs *)
Record TimemarkedTransaction := mk_ttx {
  signed_tx : Transaction;
  time_first_seen : Z;
  cost : Costs }.

Inductive InsertionError :=
| AlreadyPresent | NonceTooLow | NonceTaken | NonceGap | AccountSizeLimit
| AccountBalanceTooLow | ParkedSizeLimit.

Inductive RemovalReason :=
| Expired
| NonceStale
| LowerNonceInvalidated
| FailedPrepareProposal (reason : string).

(** An entry of a cost map, taken off the balances. *)
Definition deduct_entry (balances : Costs) (dc : IbcPrefixed * Z) : option Costs :=
  if dc.2 =? 0 then Some balances
  else
    current_balance ← balances !! dc.1;
    new_balance ← checked_sub current_balance dc.2;
    Some (<[dc.1 := new_balance]> balances).
Fixpoint deduct_entries (balances : Costs) (l : list (IbcPrefixed * Z)) : option Costs :=
  match l with
  | [] => Some balances
  | dc :: l' => b ← deduct_entry balances dc; deduct_entries b l'
  end.

Record TransactionPriority := mk_priority {
  nonce_diff : Z;
  prio_time : Z;
  prio_group : Group }.

(** [Ord::cmp], the greatest first to be executed. *)
Definition priority_cmp (a b : TransactionPriority) : comparison :=
  match group_cmp (prio_group a) (prio_group b) with
  | Eq =>
      match CompOpp (Z.compare (nonce_diff a) (nonce_diff b)) with
      | Eq => CompOpp (Z.compare (prio_time a) (prio_time b))
      | c => c
      end
  | c => c
  end.

Section Accounts.
Context `{External}.

Definition tx_hash (t : TimemarkedTransaction) : Hash := tx_id (signed_tx t).
Definition ttx_nonce (t : TimemarkedTransaction) : Z := tx_nonce (signed_tx t).
Definition ttx_address (t : TimemarkedTransaction) : address_bytes :=
  tx_address_bytes (signed_tx t).
Definition priority (t : TimemarkedTransaction) (current_account_nonce : Z)
    : option TransactionPriority :=
  d ← checked_sub (ttx_nonce t) current_account_nonce;
  Some (mk_priority d (time_first_seen t) (transaction_group (signed_tx t))).
Definition deduct_costs (t : TimemarkedTransaction) (available_balances : Costs) : option Costs :=
  deduct_entries available_balances (map_to_list (cost t)).
Definition set_cost_map (c : Costs) (t : TimemarkedTransaction) : TimemarkedTransaction :=
  mk_ttx (signed_tx t) (time_first_seen t) c.
Definition is_expired (now ttl : Z) (t : TimemarkedTransaction) : bool :=
  ttl <? saturating_sub now (time_first_seen t).

(** *** Transactions of one account *)
Record PendingTransactionsForAccount := mk_pending { pending_txs : BTree TimemarkedTransaction }.
Record ParkedTransactionsForAccount := mk_parked { parked_txs : BTree TimemarkedTransaction }.

Definition pending_account_nonce (a : PendingTransactionsForAccount) : option Z :=
  (fun nt => saturating_add 32 nt.1 1) <$> last (pending_txs a).
Definition current_account_nonce (a : PendingTransactionsForAccount) : option Z :=
  fst <$> head (pending_txs a).

(** The loop of [find_demotables]: where to split. *)
Fixpoint demotion_split (split_at : Z) (available_balances : Costs)
    (l : BTree TimemarkedTransaction) : Z :=
  match l with
  | [] => split_at
  | (nonce, tx) :: l' =>
      match deduct_costs tx available_balances with
      | None => split_at
      | Some b => demotion_split (saturating_add 32 nonce 1) b l'
      end
  end.
Definition account_find_demotables (available_balances : Costs) (a : PendingTransactionsForAccount)
    : list TimemarkedTransaction * PendingTransactionsForAccount :=
  let '(kept, off) := bt_split_off (demotion_split 0 available_balances (pending_txs a))
                        (pending_txs a) in
  (off.*2, mk_pending kept).

(** [subtract_contained_costs]: a cost that is not covered leaves zero, or
    nothing if the account has no balance in it. *)
Definition subtract_entry (balances : Costs) (dc : IbcPrefixed * Z) : Costs :=
  if dc.2 =? 0 then balances
  else match balances !! dc.1 with
       | None => balances
       | Some current => <[dc.1 := default 0 (checked_sub current dc.2)]> balances
       end.
Definition account_subtract_contained_costs (a : PendingTransactionsForAccount) (balances : Costs)
    : Costs :=
  foldl (fun b nt => foldl subtract_entry b (map_to_list (cost nt.2))) balances (pending_txs a).

(** The loop of [find_promotables]: where to split, or everything. *)
Fixpoint promotion_split (target_nonce split_at : Z) (available_balances : Costs)
    (l : BTree TimemarkedTransaction) : option Z :=
  match l with
  | [] => Some split_at
  | (nonce, ttx) :: l' =>
      if nonce =? target_nonce then
        match deduct_costs ttx available_balances with
        | None => Some split_at
        | Some b =>
            match checked_add 32 target_nonce 1 with
            | None => None
            | Some next_target => promotion_split next_target next_target b l'
            end
        end
      else Some split_at
  end.
Definition account_find_promotables (target_nonce : Z) (available_balances : Costs)
    (a : ParkedTransactionsForAccount) : list TimemarkedTransaction * ParkedTransactionsForAccount :=
  match promotion_split target_nonce 0 available_balances (parked_txs a) with
  | None => ((parked_txs a).*2, mk_parked [])
  | Some split_at =>
      let '(promoted, kept) := bt_split_off split_at (parked_txs a) in
      (promoted.*2, mk_parked kept)
  end.

(** [trait TransactionsForAccount] *)
Class TransactionsForAccount (T : Type) := {
  txs : T -> BTree TimemarkedTransaction;
  of_txs : BTree TimemarkedTransaction -> T;
  is_at_tx_limit : T -> bool;
  is_sequential_nonce_precondition_met : T -> TimemarkedTransaction -> Z -> bool;
  has_balance_to_cover : T -> TimemarkedTransaction -> Costs -> bool }.

(** [try_for_each(|ttx| ttx.deduct_costs(..))] *)
Fixpoint deduct_all (balances : Costs) (l : list TimemarkedTransaction) : option Costs :=
  match l with
  | [] => Some balances
  | t :: l' => b ← deduct_costs t balances; deduct_all b l'
  end.

#[export] Instance pending_account : TransactionsForAccount PendingTransactionsForAccount := {|
  txs := pending_txs;
  of_txs := mk_pending;
  is_at_tx_limit := fun _ => false;
  is_sequential_nonce_precondition_met := fun a ttx current_account_nonce =>
    match checked_sub (ttx_nonce ttx) 1 with
    | None => current_account_nonce =? 0
    | Some previous_nonce =>
        bool_decide (is_Some (bt_get previous_nonce (pending_txs a)))
        || (ttx_nonce ttx =? current_account_nonce)
    end;
  has_balance_to_cover := fun a ttx current_account_balances =>
    bool_decide (is_Some (deduct_all current_account_balances ((pending_txs a).*2 ++ [ttx]))) |}.

Definition MAX_PARKED_TXS_PER_ACCOUNT : Z := 15.
#[export] Instance parked_account : TransactionsForAccount ParkedTransactionsForAccount := {|
  txs := parked_txs;
  of_txs := mk_parked;
  is_at_tx_limit := fun a =>
    MAX_PARKED_TXS_PER_ACCOUNT <=? Z.of_nat (List.length (parked_txs a));
  is_sequential_nonce_precondition_met := fun _ _ _ => true;
  has_balance_to_cover := fun _ _ _ => true |}.

Section Account.
Context {T : Type} `{TransactionsForAccount T}.
Definition account_add (ttx : TimemarkedTransaction) (current_account_nonce : Z)
    (current_account_balances : Costs) (a : T) : result InsertionError T :=
  if is_at_tx_limit a then Err AccountSizeLimit
  else if ttx_nonce ttx <? current_account_nonce then Err NonceTooLow
  else match bt_get (ttx_nonce ttx) (txs a) with
  | Some existing_ttx =>
      Err (if String.eqb (tx_hash existing_ttx) (tx_hash ttx) then AlreadyPresent else NonceTaken)
  | None =>
      if negb (is_sequential_nonce_precondition_met a ttx current_account_nonce) then Err NonceGap
      else if negb (has_balance_to_cover a ttx current_account_balances)
      then Err AccountBalanceTooLow
      else Ok (of_txs (bt_insert (ttx_nonce ttx) ttx (txs a)))
  end.

(** The hashes of the removed transactions, and what remains. *)
Definition account_remove (nonce : Z) (a : T) : list Hash * T :=
  match bt_get nonce (txs a) with
  | None => ([], a)
  | Some _ =>
      let '(kept, off) := bt_split_off nonce (txs a) in
      (map tx_hash off.*2, of_txs kept)
  end.
End Account.

(** *** Containers for many accounts *)
Record PendingTransactions := mk_pending_all {
  pending_accounts : gmap address_bytes PendingTransactionsForAccount;
  pending_ttl : Z }.
Record ParkedTransactions := mk_parked_all {
  parked_accounts : gmap address_bytes ParkedTransactionsForAccount;
  parked_ttl : Z;
  max_tx_count : Z }.

(** [trait TransactionsContainer] *)
Class TransactionsContainer (C T : Type) `{TransactionsForAccount T} := {
  accounts_in : C -> gmap address_bytes T;
  with_accounts : gmap address_bytes T -> C -> C;
  tx_ttl : C -> Z;
  check_total_tx_count : C -> result InsertionError unit }.

#[export] Instance pending_container
    : TransactionsContainer PendingTransactions PendingTransactionsForAccount := {|
  accounts_in := pending_accounts;
  with_accounts := fun m c => mk_pending_all m (pending_ttl c);
  tx_ttl := pending_ttl;
  check_total_tx_count := fun _ => Ok tt |}.

Definition count_txs {T} `{TransactionsForAccount T} (m : gmap address_bytes T) : Z :=
  map_fold (fun _ a acc => Z.of_nat (List.length (txs a)) + acc) 0 m.

#[export] Instance parked_container
    : TransactionsContainer ParkedTransactions ParkedTransactionsForAccount := {|
  accounts_in := parked_accounts;
  with_accounts := fun m c => mk_parked_all m (parked_ttl c) (max_tx_count c);
  tx_ttl := parked_ttl;
  check_total_tx_count := fun c =>
    if max_tx_count c <=? count_txs (parked_accounts c) then Err ParkedSizeLimit else Ok tt |}.

Section Container.
Context {C T : Type} `{TransactionsContainer C T}.

Definition container_len (c : C) : Z := count_txs (accounts_in c).

(** [Re-add the collection to `self` if it's not empty.] *)
Definition re_add (address : address_bytes) (a : T) (c : C) : C :=
  if bool_decide (txs a = []) then c else with_accounts (<[address := a]> (accounts_in c)) c.
Definition take_account (address : address_bytes) (c : C) : C :=
  with_accounts (delete address (accounts_in c)) c.

Definition container_add (ttx : TimemarkedTransaction) (current_account_nonce : Z)
    (current_account_balances : Costs) (c : C) : result InsertionError C :=
  check_total_tx_count c;;
  let account := default (of_txs []) (accounts_in c !! ttx_address ttx) in
  a ← account_add ttx current_account_nonce current_account_balances account;
  Ok (with_accounts (<[ttx_address ttx := a]> (accounts_in c)) c).

(** [None]: the transaction was not found. *)
Definition container_remove (tx : Transaction) (c : C) : option (list Hash) * C :=
  let address := tx_address_bytes tx in
  match accounts_in c !! address with
  | None => (None, c)
  | Some account_txs =>
      let '(removed, account_txs') := account_remove (tx_nonce tx) account_txs in
      let c' := re_add address account_txs' (take_account address c) in
      (match removed with [] => None | _ => Some removed end, c')
  end.

Definition clear_account (address : address_bytes) (c : C) : list Hash * C :=
  (match accounts_in c !! address with
   | None => []
   | Some account_txs => map tx_hash (txs account_txs).*2
   end, take_account address c).

Definition clean_account_stale_expired (now : Z) (address : address_bytes)
    (current_account_nonce : Z) (c : C) : list (Hash * RemovalReason) * C :=
  match accounts_in c !! address with
  | None => ([], c)
  | Some account_txs =>
      let '(stale, kept) := bt_split_off current_account_nonce (txs account_txs) in
      let removed_stale := map (fun ttx => (tx_hash ttx, NonceStale)) stale.*2 in
      let '(removed_expired, kept') :=
        match kept with
        | [] => ([], kept)
        | (_, first_tx) :: rest =>
            if is_expired now (tx_ttl c) first_tx then
              ((tx_hash first_tx, Expired) ::
               map (fun ttx => (tx_hash ttx, LowerNonceInvalidated)) rest.*2, [])
            else ([], kept)
        end in
      ((removed_stale ++ removed_expired)%list, re_add address (of_txs kept') (take_account address c))
  end.

(** [recost] gives the new cost of a transaction, if it can be computed. *)
Definition recost_transactions (recost : Transaction -> option Costs) (address : address_bytes)
    (c : C) : C :=
  match accounts_in c !! address with
  | None => c
  | Some account =>
      let recosted := map (fun kv =>
        (kv.1, match recost (signed_tx kv.2) with
               | Some new_cost => set_cost_map new_cost kv.2
               | None => kv.2
               end)) (txs account) in
      with_accounts (<[address := of_txs recosted]> (accounts_in c)) c
  end.
End Container.

(** *** PendingTransactions and ParkedTransactions *)
Definition find_demotables (address : address_bytes) (current_balances : Costs)
    (c : PendingTransactions) : list TimemarkedTransaction * PendingTransactions :=
  match pending_accounts c !! address with
  | None => ([], c)
  | Some account =>
      let '(demoted, account') := account_find_demotables current_balances account in
      (demoted, re_add address account' (take_account address c))
  end.
Definition subtract_contained_costs (address : address_bytes) (current_balances : Costs)
    (c : PendingTransactions) : Costs :=
  match pending_accounts c !! address with
  | None => current_balances
  | Some account => account_subtract_contained_costs account current_balances
  end.
Definition pending_nonce (address : address_bytes) (c : PendingTransactions) : option Z :=
  pending_accounts c !! address ≫= pending_account_nonce.
Definition find_promotables (address : address_bytes) (target_nonce : Z)
    (available_balance : Costs) (c : ParkedTransactions)
    : list TimemarkedTransaction * ParkedTransactions :=
  match parked_accounts c !! address with
  | None => ([], c)
  | Some account_txs =>
      let '(removed, account_txs') :=
        account_find_promotables target_nonce available_balance account_txs in
      (removed, re_add address account_txs' (take_account address c))
  end.

Record QueueEntry := mk_entry {
  entry_tx : Transaction;
  entry_hash : Hash;
  entry_priority : TransactionPriority }.

Definition queue_entries (account_txs : PendingTransactionsForAccount) : list QueueEntry :=
  match current_account_nonce account_txs with
  | None => []
  | Some nonce =>
      omap (fun ttx =>
        p ← priority ttx nonce; Some (mk_entry (signed_tx ttx) (tx_hash ttx) p))
        (pending_txs account_txs).*2
  end.

(** [sort_unstable_by_key] leaves the order of equal entries open; a stable
    sort is one of its results. *)
Definition entry_le (a b : QueueEntry) : Prop :=
  priority_cmp (entry_priority a) (entry_priority b) <> Gt.
#[export] Instance entry_le_dec : RelDecision entry_le.
Proof. intros a b. unfold entry_le. apply _. Defined.
Definition builder_queue (c : PendingTransactions) : list (Hash * Transaction) :=
  let queue := (map_to_list (pending_accounts c)).*2 ≫= queue_entries in
  map (fun e => (entry_hash e, entry_tx e)) (rev (merge_sort entry_le queue)).
End Accounts.

(** ** mod.rs *)

(** *** RemovalCache *)
Record RemovalCache := mk_cache {
  cache : gmap Hash RemovalReason;
  remove_queue : list Hash;
  max_size : Z }.

Definition cache_remove (h : Hash) (c : RemovalCache) : option RemovalReason * RemovalCache :=
  (cache c !! h, mk_cache (delete h (cache c)) (remove_queue c) (max_size c)).

Definition cache_add (h : Hash) (reason : RemovalReason) (c : RemovalCache) : run RemovalCache :=
  match cache c !! h with
  | Some _ => Val c
  | None =>
      '(m, q) ←
        (if Z.of_nat (List.length (remove_queue c)) =? max_size c then
           match remove_queue c with
           | [] => Panic
           | removed_tx :: q => Val (delete removed_tx (cache c), q)
           end
         else Val (cache c, remove_queue c));
      Val (mk_cache (<[h := reason]> m) (q ++ [h])%list (max_size c))
  end.

Record Mempool := mk_mempool {
  pending : PendingTransactions;
  parked : ParkedTransactions;
  comet_bft_removal_cache : RemovalCache;
  contained_txs : gset Hash }.

Definition TX_TTL : Z := 240.
Definition REMOVAL_CACHE_SIZE : Z := 50000.
Definition mempool_new (parked_max_tx_count : Z) : Mempool :=
  mk_mempool (mk_pending_all ∅ TX_TTL) (mk_parked_all ∅ TX_TTL parked_max_tx_count)
    (mk_cache ∅ [] REMOVAL_CACHE_SIZE) ∅.

Definition mempool_len (m : Mempool) : Z := Z.of_nat (size (contained_txs m)).
Definition is_tracked (h : Hash) (m : Mempool) : bool := bool_decide (h ∈ contained_txs m).

Section Mempool.
Context `{External, Relay}.

(** One turn of the loop that promotes transactions; [on_failure] is the hash
    that stops being tracked when it fails. *)
Definition promote (on_failure : TimemarkedTransaction -> Hash) (nonce : Z) (balances : Costs)
    (pc : PendingTransactions * gset Hash) (ttx : TimemarkedTransaction)
    : PendingTransactions * gset Hash :=
  match container_add ttx nonce balances pc.1 with
  | Ok pending' => (pending', pc.2)
  | Err _ => (pc.1, pc.2 ∖ {[on_failure ttx]})
  end.

Definition insert (now : Z) (tx : Transaction) (current_account_nonce : Z)
    (current_account_balances transaction_cost : Costs) (m : Mempool)
    : run (result InsertionError unit * Mempool) :=
  let timemarked_tx := mk_ttx tx now transaction_cost in
  let id := tx_hash timemarked_tx in
  match container_add timemarked_tx current_account_nonce current_account_balances (pending m) with
  | Err NonceGap | Err AccountBalanceTooLow =>
      match container_add timemarked_tx current_account_nonce current_account_balances (parked m) with
      | Ok parked' =>
          Val (Ok tt, mk_mempool (pending m) parked' (comet_bft_removal_cache m)
                        (contained_txs m ∪ {[id]}))
      | Err err => Val (Err err, m)
      end
  | Err error => Val (Err error, m)
  | Ok pending1 =>
      next ← unwrap (checked_add 32 (ttx_nonce timemarked_tx) 1);
      let '(to_promote, parked1) :=
        find_promotables (ttx_address timemarked_tx) next
          (subtract_contained_costs (ttx_address timemarked_tx) current_account_balances pending1)
          (parked m) in
      let '(pending2, contained) :=
        foldl (promote (fun _ => id) current_account_nonce current_account_balances)
          (pending1, contained_txs m) to_promote in
      Val (Ok tt, mk_mempool pending2 parked1 (comet_bft_removal_cache m) (contained ∪ {[id]}))
  end.

(** Adding to the removal cache and untracking, one removed transaction at a time. *)
Fixpoint untrack (removed : list (Hash * RemovalReason)) (c : RemovalCache) (contained : gset Hash)
    : run (RemovalCache * gset Hash) :=
  match removed with
  | [] => Val (c, contained)
  | (h, reason) :: removed' =>
      c' ← cache_add h reason c; untrack removed' c' (contained ∖ {[h]})
  end.

(** In one step, like [run_maintenance]: the code updates the removal cache and the
    tracked hashes after it has released the queues. *)
Definition remove_tx_invalid (tx : Transaction) (reason : RemovalReason) (m : Mempool)
    : run Mempool :=
  let address := tx_address_bytes tx in
  let finish pending' parked' removed_txs :=
    c ← cache_add (tx_id tx) reason (comet_bft_removal_cache m);
    '(c', contained) ← untrack (map (fun h => (h, LowerNonceInvalidated)) removed_txs) c
                         (contained_txs m);
    Val (mk_mempool pending' parked' c' contained) in
  match container_remove tx (pending m) with
  | (Some removed_txs, pending') =>
      let '(cleared, parked') := clear_account address (parked m) in
      finish pending' parked' (removed_txs ++ cleared)%list
  | (None, pending') =>
      match container_remove tx (parked m) with
      | (Some removed_txs, parked') => finish pending' parked' removed_txs
      | (None, parked') =>
          Val (mk_mempool pending' parked' (comet_bft_removal_cache m) (contained_txs m))
      end
  end.

Definition check_removed_comet_bft (h : Hash) (m : Mempool) : option RemovalReason * Mempool :=
  let '(r, c) := cache_remove h (comet_bft_removal_cache m) in
  (r, mk_mempool (pending m) (parked m) c (contained_txs m)).

(** *** Maintenance *)
(** [get_account_balances].  Reading the state does not fail in the model: the code
    logs a failure and leaves the account for the next maintenance. *)
Definition get_account_balances (s : State) (address : address_bytes) : Costs :=
  map_fold (fun k b acc => if decide (k.1 = address) then <[k.2 := b]> acc else acc) ∅
    (balances (accounts s)).
Definition recost_in (s : State) (tx : Transaction) : option Costs :=
  match get_total_transaction_cost tx s with
  | (Done c, _) => Some c
  | _ => None
  end.

Definition demote (nonce : Z) (balances : Costs) (pc : ParkedTransactions * gset Hash)
    (ttx : TimemarkedTransaction) : ParkedTransactions * gset Hash :=
  match container_add ttx nonce balances pc.1 with
  | Ok parked' => (parked', pc.2)
  | Err _ => (pc.1, pc.2 ∖ {[tx_hash ttx]})
  end.

(** The loop body for one account: the containers, the tracked hashes and the
    transactions removed so far. *)
Record Maintained := mk_maintained {
  m_pending : PendingTransactions;
  m_parked : ParkedTransactions;
  m_contained : gset Hash;
  m_removed : list (Hash * RemovalReason) }.

Definition maintain_account (now : Z) (s : State) (recost : bool) (st : Maintained)
    (address : address_bytes) : Maintained :=
  let current_nonce := default 0 (nonces (accounts s) !! address) in
  let current_balances := get_account_balances s address in
  let '(removed1, pending1) := clean_account_stale_expired now address current_nonce (m_pending st) in
  let pending2 := if recost then recost_transactions (recost_in s) address pending1 else pending1 in
  let '(removed2, parked1) := clean_account_stale_expired now address current_nonce (m_parked st) in
  let parked2 := if recost then recost_transactions (recost_in s) address parked1 else parked1 in
  let removed := (m_removed st ++ removed1 ++ removed2)%list in
  let '(demotion_txs, pending3) := find_demotables address current_balances pending2 in
  match demotion_txs with
  | [] =>
      let nonce := default current_nonce (pending_nonce address pending3) in
      let remaining_balances := subtract_contained_costs address current_balances pending3 in
      let '(promotion_txs, parked3) := find_promotables address nonce remaining_balances parked2 in
      let '(pending4, contained) :=
        foldl (promote tx_hash current_nonce current_balances) (pending3, m_contained st)
          promotion_txs in
      mk_maintained pending4 parked3 contained removed
  | _ =>
      let '(parked3, contained) :=
        foldl (demote current_nonce current_balances) (parked2, m_contained st) demotion_txs in
      mk_maintained pending3 parked3 contained removed
  end.

(** In one step: the code holds both queues while it goes through the accounts, and
    releases them before it updates the removal cache and the tracked hashes. *)
Definition run_maintenance (now : Z) (s : State) (recost : bool) (m : Mempool) : run Mempool :=
  let addresses := elements (dom (pending_accounts (pending m)) ∪ dom (parked_accounts (parked m))) in
  let st := foldl (maintain_account now s recost)
              (mk_maintained (pending m) (parked m) (contained_txs m) []) addresses in
  '(c, contained) ← untrack (m_removed st) (comet_bft_removal_cache m) (m_contained st);
  Val (mk_mempool (m_pending st) (m_parked st) c contained).

Definition mempool_builder_queue (m : Mempool) : list (Hash * Transaction) :=
  builder_queue (pending m).
Definition mempool_pending_nonce (address : address_bytes) (m : Mempool) : option Z :=
  pending_nonce address (pending m).
End Mempool.
