(* ===== verification/MempoolLemmas.v ===== *)
(** * Lemmas on the mempool's containers

    What each operation of an account's queue and of a container does to the
    hashes it holds (as multisets) and to the nonces of an account. *)
From S2P Require Import Prelude Denom Types State Chain Accounts Relay Transact Ics20 BTree Mempool.
From stdpp Require Import base list option strings gmap fin_maps sorting.
From Stdlib Require Import ZArith Lia String.
Open Scope Z_scope.

(** ** Hashes held *)
(** What the two kinds of queue and of container promise to the generic code. *)
Class AccountLaws (T : Type) `{TransactionsForAccount T} :=
  txs_of_txs : forall l, txs (of_txs l) = l.
Class ContainerLaws (C T : Type) `{TransactionsContainer C T} :=
  accounts_with : forall m c, accounts_in (with_accounts m c) = m.

Section Hashes.
Context `{External}.

#[export] Instance pending_account_laws : AccountLaws PendingTransactionsForAccount.
Proof. done. Qed.
#[export] Instance parked_account_laws : AccountLaws ParkedTransactionsForAccount.
Proof. done. Qed.
#[export] Instance pending_laws : ContainerLaws PendingTransactions PendingTransactionsForAccount.
Proof. done. Qed.
#[export] Instance parked_laws : ContainerLaws ParkedTransactions ParkedTransactionsForAccount.
Proof. done. Qed.

Definition entry_hashes (l : BTree TimemarkedTransaction) : list Hash := map tx_hash l.*2.

Section Generic.
Context {C T : Type} `{AccountLaws T} `{!TransactionsContainer C T} `{!ContainerLaws C T}.
Implicit Types (c : C) (a : address_bytes).

Definition map_hashes (m : gmap address_bytes T) : list Hash :=
  map_to_list m ≫= (fun kv => entry_hashes (txs kv.2)).
Definition hashes c : list Hash := map_hashes (accounts_in c).
Definition entries_of c a : BTree TimemarkedTransaction :=
  match accounts_in c !! a with Some t => txs t | None => [] end.

Lemma map_hashes_insert m a t :
  map_hashes (<[a := t]> m) ≡ₚ entry_hashes (txs t) ++ map_hashes (delete a m).
Proof.
  unfold map_hashes. rewrite <- insert_delete_eq, map_to_list_insert by apply lookup_delete_eq.
  by rewrite bind_cons.
Qed.
Lemma map_hashes_take m a :
  map_hashes m ≡ₚ entry_hashes (match m !! a with Some t => txs t | None => [] end)
                  ++ map_hashes (delete a m).
Proof.
  destruct (m !! a) as [t|] eqn:E.
  - rewrite <- (insert_id m a t E) at 1. apply map_hashes_insert.
  - by rewrite delete_id.
Qed.
Lemma hashes_take c a : hashes c ≡ₚ entry_hashes (entries_of c a) ++ hashes (take_account a c).
Proof.
  unfold hashes, take_account, entries_of. rewrite accounts_with. apply map_hashes_take.
Qed.

Lemma re_add_hashes a t c :
  accounts_in c !! a = None -> hashes (re_add a t c) ≡ₚ entry_hashes (txs t) ++ hashes c.
Proof.
  intros Ha. unfold re_add, hashes. case_bool_decide as Ht.
  - by rewrite Ht.
  - rewrite accounts_with, map_hashes_insert. by rewrite delete_id.
Qed.
Lemma re_add_take_hashes a t c :
  hashes (re_add a t (take_account a c)) ≡ₚ entry_hashes (txs t) ++ hashes (take_account a c).
Proof.
  apply re_add_hashes. unfold take_account. rewrite accounts_with. apply lookup_delete_eq.
Qed.

(** The queue of an account after an operation. *)
Lemma entries_re_add a t c b :
  entries_of (re_add a t (take_account a c)) b = if decide (a = b) then txs t else entries_of c b.
Proof.
  unfold entries_of, re_add, take_account. case_bool_decide as Ht; rewrite !accounts_with;
    case_decide; simplify_eq; rewrite ?lookup_insert_eq, ?lookup_delete_eq; try done.
  - by rewrite lookup_delete_ne.
  - by rewrite lookup_insert_ne, lookup_delete_ne.
Qed.

(** No account is kept with an empty queue. *)
Definition no_empty c : Prop := forall a t, accounts_in c !! a = Some t -> txs t <> [].
Lemma no_empty_re_add a t c : no_empty c -> no_empty (re_add a t (take_account a c)).
Proof.
  unfold no_empty, re_add, take_account. intros Hc b u. case_bool_decide; rewrite !accounts_with.
  - intros Hb. apply lookup_delete_Some in Hb as [_ Hb]. by apply (Hc b).
  - destruct (decide (a = b)) as [->|]; [rewrite lookup_insert_eq; by intros [= <-]|].
    rewrite lookup_insert_ne, lookup_delete_ne by done. apply Hc.
Qed.

Lemma map_fmap_fst_hash (r : RemovalReason) (l : BTree TimemarkedTransaction) :
  (map (fun ttx => (tx_hash ttx, r)) l.*2).*1 = entry_hashes l.
Proof. unfold entry_hashes. induction l as [|kv l IH]; simpl; [done|]. by f_equal. Qed.

(** *** Adding *)
Lemma account_add_ok ttx n b t t' :
  account_add ttx n b t = Ok t' ->
  is_at_tx_limit t = false /\ n <= ttx_nonce ttx /\ (ttx_nonce ttx ∉ keys (txs t)) /\
  is_sequential_nonce_precondition_met t ttx n = true /\ has_balance_to_cover t ttx b = true /\
  (txs t' = bt_insert (ttx_nonce ttx) ttx (txs t)).
Proof.
  unfold account_add. destruct (is_at_tx_limit t); [done|].
  destruct (Z.ltb_spec (ttx_nonce ttx) n); [done|].
  destruct (bt_get _ _) eqn:Hg; [done|]. apply bt_get_None in Hg.
  destruct (is_sequential_nonce_precondition_met _ _ _); [|done].
  destruct (has_balance_to_cover _ _ _); [|done]. simpl. intros [= <-]. by rewrite txs_of_txs.
Qed.
Lemma account_add_succeeds ttx n b t :
  is_at_tx_limit t = false -> n <= ttx_nonce ttx -> ttx_nonce ttx ∉ keys (txs t) ->
  is_sequential_nonce_precondition_met t ttx n = true -> has_balance_to_cover t ttx b = true ->
  account_add ttx n b t = Ok (of_txs (bt_insert (ttx_nonce ttx) ttx (txs t))).
Proof.
  intros K1 K2 K3 K4 K5. unfold account_add. rewrite K1, K4, K5, (proj2 (bt_get_None _ _)) by done.
  by rewrite (proj2 (Z.ltb_ge _ _)).
Qed.

Definition account_of c a : T := default (of_txs []) (accounts_in c !! a).
Lemma txs_account_of c a : txs (account_of c a) = entries_of c a.
Proof. unfold account_of, entries_of. destruct (accounts_in c !! a); [done|apply txs_of_txs]. Qed.

Lemma container_add_ok ttx n b c c' :
  container_add ttx n b c = Ok c' ->
  let l := entries_of c (ttx_address ttx) in
  n <= ttx_nonce ttx /\ (ttx_nonce ttx ∉ keys l) /\
  is_at_tx_limit (account_of c (ttx_address ttx)) = false /\
  is_sequential_nonce_precondition_met (account_of c (ttx_address ttx)) ttx n = true /\
  has_balance_to_cover (account_of c (ttx_address ttx)) ttx b = true /\
  entries_of c' (ttx_address ttx) = bt_insert (ttx_nonce ttx) ttx l /\
  (forall a, a <> ttx_address ttx -> entries_of c' a = entries_of c a) /\
  (hashes c' ≡ₚ tx_hash ttx :: hashes c) /\ (no_empty c -> no_empty c').
Proof.
  unfold container_add. destruct (check_total_tx_count c) as [[]|]; [|done]. simpl.
  fold (account_of c (ttx_address ttx)).
  destruct (account_add _ _ _ _) as [t|] eqn:Hadd; [|done]. intros [= <-].
  apply account_add_ok in Hadd as (Hl & Hn & Hk & Hs & Hb & Ht).
  rewrite txs_account_of in Hk, Ht. do 5 (split; [done|]). unfold entries_of at 1.
  rewrite accounts_with, lookup_insert_eq. split; [done|]. split.
  { intros a Ha. unfold entries_of. by rewrite accounts_with, lookup_insert_ne. }
  split.
  - unfold hashes. rewrite accounts_with, map_hashes_insert, Ht, (map_hashes_take (accounts_in c) (ttx_address ttx)).
    unfold entries_of in Hk |- *. unfold entry_hashes. rewrite (bt_insert_perm _ _ _ Hk).
    done.
  - intros Hc a u. rewrite accounts_with. destruct (decide (ttx_address ttx = a)) as [<-|].
    + rewrite lookup_insert_eq. intros [= <-]. rewrite Ht. apply bt_insert_ne.
    + rewrite lookup_insert_ne by done. apply Hc.
Qed.

(** *** Removing *)
Lemma entry_hashes_app (p q : BTree TimemarkedTransaction) :
  entry_hashes (p ++ q)%list = (entry_hashes p ++ entry_hashes q)%list.
Proof. unfold entry_hashes. by rewrite fmap_app, map_app. Qed.
Lemma split_hashes k (l : BTree TimemarkedTransaction) :
  entry_hashes (bt_split_off k l).2 ++ entry_hashes (bt_split_off k l).1 ≡ₚ entry_hashes l.
Proof.
  rewrite (Permutation_app_comm (entry_hashes _)), <- entry_hashes_app. unfold entry_hashes.
  by rewrite split_off_perm.
Qed.

(** Taking some hashes out of an account's queue. *)
Lemma take_out_hashes c a (t : T) (out : list Hash) :
  out ++ entry_hashes (txs t) ≡ₚ entry_hashes (entries_of c a) ->
  out ++ hashes (re_add a t (take_account a c)) ≡ₚ hashes c.
Proof.
  intros Hout. rewrite re_add_take_hashes, (hashes_take c a), app_assoc. by rewrite Hout.
Qed.

Lemma container_remove_ok tx c r c' :
  container_remove tx c = (r, c') -> no_empty c ->
  (default [] r ++ hashes c' ≡ₚ hashes c) /\ no_empty c' /\
  (forall a, a <> tx_address_bytes tx -> entries_of c' a = entries_of c a) /\
  (forall kv, kv ∈ entries_of c' (tx_address_bytes tx) ->
     kv ∈ entries_of c (tx_address_bytes tx)) /\
  entries_of c' (tx_address_bytes tx) =
    match r with
    | Some _ => (bt_split_off (tx_nonce tx) (entries_of c (tx_address_bytes tx))).1
    | None => entries_of c (tx_address_bytes tx)
    end.
Proof.
  unfold container_remove. set (a := tx_address_bytes tx). intros Hr Hne.
  destruct (accounts_in c !! a) as [t|] eqn:Ha; [|by simplify_eq].
  assert (entries_of c a = txs t) as He by (unfold entries_of; by rewrite Ha).
  unfold account_remove in Hr. destruct (bt_get (tx_nonce tx) (txs t)) eqn:Hg.
  - assert (tx_nonce tx ∈ keys (txs t)) as Hk by (apply bt_get_elem; eauto).
    apply list_elem_of_fmap in Hk as (kv & Ek & Hkv).
    destruct (bt_split_off (tx_nonce tx) (txs t)) as [kept off] eqn:Hsp.
    assert (kv ∈ off) as Hoff.
    { change off with (kept, off).2. rewrite <- Hsp. apply split_off_above. split; [done|lia]. }
    assert (r = Some (entry_hashes off) /\ c' = re_add a (of_txs kept) (take_account a c)) as [-> ->].
    { unfold entry_hashes in *. destruct off as [|[k1 t1] off]; [by apply not_elem_of_nil in Hoff|].
      simpl in Hr. by simplify_eq. }
    split; [|split; [by apply no_empty_re_add|split; [|split]]].
    + simpl. apply take_out_hashes. rewrite txs_of_txs, He.
      change off with (kept, off).2. change kept with (kept, off).1 at 2. rewrite <- Hsp. apply split_hashes.
    + intros b Hb. rewrite entries_re_add. by rewrite decide_False.
    + rewrite entries_re_add, decide_True, txs_of_txs, He by done.
      intros kv' Hin. change kept with (kept, off).1 in Hin. rewrite <- Hsp in Hin.
      by apply split_off_below in Hin as [? _].
    + rewrite entries_re_add, decide_True, txs_of_txs, He, Hsp by done. done.
  - simpl in Hr. simplify_eq. split; [|split; [by apply no_empty_re_add|split; [|split]]].
    + simpl. apply (take_out_hashes c a t []). by rewrite He.
    + intros b Hb. rewrite entries_re_add. by rewrite decide_False.
    + rewrite entries_re_add, decide_True, He by done. done.
    + by rewrite entries_re_add, decide_True, He.
Qed.

Lemma clear_account_ok a c r c' :
  clear_account a c = (r, c') -> no_empty c ->
  (r ++ hashes c' ≡ₚ hashes c) /\ no_empty c' /\ entries_of c' a = [] /\
  (forall b, b <> a -> entries_of c' b = entries_of c b).
Proof.
  unfold clear_account. intros [= <- <-] Hne. split; [|split; [|split]].
  - rewrite (hashes_take c a). unfold entries_of. by destruct (accounts_in c !! a).
  - intros b t. unfold take_account. rewrite accounts_with. intros [_ Hb]%lookup_delete_Some.
    by apply (Hne b).
  - unfold entries_of, take_account. by rewrite accounts_with, lookup_delete_eq.
  - intros b Hb. unfold entries_of, take_account. by rewrite accounts_with, lookup_delete_ne.
Qed.

(** Cleaning keeps the queue from the account's nonce on, or nothing. *)
Lemma clean_ok now a n c r c' :
  clean_account_stale_expired now a n c = (r, c') -> no_empty c ->
  (r.*1 ++ hashes c' ≡ₚ hashes c) /\ no_empty c' /\
  (forall b, b <> a -> entries_of c' b = entries_of c b) /\
  (entries_of c' a = (bt_split_off n (entries_of c a)).2 \/ entries_of c' a = []).
Proof.
  unfold clean_account_stale_expired. intros Hr Hne.
  destruct (accounts_in c !! a) as [t|] eqn:Ha.
  2: { simplify_eq. simpl. split; [done|]. split; [done|]. split; [done|]. right.
       unfold entries_of. by rewrite Ha. }
  assert (entries_of c a = txs t) as He by (unfold entries_of; by rewrite Ha). rewrite He.
  pose proof (split_hashes n (txs t)) as Hsp.
  destruct (bt_split_off n (txs t)) as [stale kept]. simpl in Hsp.
  set (p := match kept with
            | [] => ([], kept)
            | (_, first_tx) :: rest => if is_expired now (tx_ttl c) first_tx then _ else _ end) in Hr.
  assert ((p.1.*1 ++ entry_hashes p.2 ≡ₚ entry_hashes kept) /\ (p.2 = kept \/ p.2 = [])) as [Hp Hk].
  { subst p. destruct kept as [|[k first_tx] rest]; [by auto|].
    destruct (is_expired _ _ _); [|by auto]. simpl. split; [|by right].
    rewrite app_nil_r. unfold entry_hashes. simpl. by rewrite map_fmap_fst_hash. }
  destruct p as [removed_expired kept']. simpl in *. simplify_eq.
  split; [|split; [by apply no_empty_re_add|split]].
  - apply take_out_hashes. rewrite txs_of_txs, He, <- Hsp, fmap_app, map_fmap_fst_hash.
    rewrite <- app_assoc, Hp. apply Permutation_app_comm.
  - intros b Hb. rewrite entries_re_add. by rewrite decide_False.
  - rewrite entries_re_add, decide_True, txs_of_txs by done. by destruct Hk as [->| ->]; auto.
Qed.

(** A new cost changes no hash and no nonce. *)
Definition same_txs (l l' : BTree TimemarkedTransaction) : Prop :=
  Forall2 (fun kv kv' => kv.1 = kv'.1 /\ signed_tx kv.2 = signed_tx kv'.2) l l'.
Lemma same_txs_hashes l l' : same_txs l l' -> entry_hashes l = entry_hashes l'.
Proof.
  unfold entry_hashes. induction 1 as [|? ? ? ? [_ E] _ IH]; simpl; [done|].
  f_equal; [unfold tx_hash; by rewrite E|exact IH].
Qed.
Lemma recost_ok f a c :
  no_empty c ->
  (hashes (recost_transactions f a c) ≡ₚ hashes c) /\ no_empty (recost_transactions f a c) /\
  (forall b, same_txs (entries_of c b) (entries_of (recost_transactions f a c) b)) /\
  (forall b, b <> a -> entries_of (recost_transactions f a c) b = entries_of c b).
Proof.
  assert (forall l, same_txs l l) as Hrefl
    by (intros l; apply Forall_Forall2_diag, Forall_forall; done).
  intros Hne. unfold recost_transactions. destruct (accounts_in c !! a) as [t|] eqn:Ha; [|done].
  set (l := map _ (txs t)).
  assert (same_txs (txs t) l) as Hl.
  { subst l. apply Forall2_fmap_r, Forall_Forall2_diag, Forall_forall. intros [k v] _. simpl.
    by destruct (f _). }
  split; [|split; [|split]].
  - unfold hashes. rewrite accounts_with, map_hashes_insert, txs_of_txs, (map_hashes_take (accounts_in c) a), Ha.
    by rewrite (same_txs_hashes _ _ Hl).
  - intros b u. rewrite accounts_with. destruct (decide (a = b)) as [<-|].
    + rewrite lookup_insert_eq. intros [= <-]. rewrite txs_of_txs. intros E. rewrite E in Hl.
      apply Forall2_nil_inv_r in Hl. by apply (Hne a t).
    + rewrite lookup_insert_ne by done. apply Hne.
  - intros b. unfold entries_of. rewrite accounts_with. destruct (decide (a = b)) as [<-|].
    + by rewrite lookup_insert_eq, Ha, txs_of_txs.
    + by rewrite lookup_insert_ne.
  - intros b Hb. unfold entries_of. by rewrite accounts_with, lookup_insert_ne.
Qed.
End Generic.

(** ** Moving between pending and parked *)
Lemma find_demotables_ok a b (c c' : PendingTransactions) demoted :
  find_demotables a b c = (demoted, c') -> no_empty c ->
  (map tx_hash demoted ++ hashes c' ≡ₚ hashes c) /\ no_empty c' /\
  (forall a', a' <> a -> entries_of c' a' = entries_of c a') /\
  exists split, bt_split_off split (entries_of c a) = (entries_of c' a, (bt_split_off split (entries_of c a)).2)
    /\ demoted = (bt_split_off split (entries_of c a)).2.*2.
Proof.
  unfold find_demotables. intros Hr Hne.
  destruct (pending_accounts c !! a) as [t|] eqn:Ha.
  2: { simplify_eq. assert (entries_of c' a = []) as -> by (unfold entries_of; simpl; by rewrite Ha).
       split; [done|]. split; [done|]. split; [done|]. by exists 0. }
  assert (entries_of c a = pending_txs t) as He by (unfold entries_of; simpl; by rewrite Ha).
  unfold account_find_demotables in Hr. set (split := demotion_split _ _ _) in Hr.
  pose proof (split_hashes split (pending_txs t)) as Hsp.
  destruct (bt_split_off split (pending_txs t)) as [kept off] eqn:E. simpl in Hsp. simplify_eq.
  split; [|split; [by apply no_empty_re_add|split]].
  - apply (take_out_hashes c a (mk_pending kept) (entry_hashes off)). by rewrite He.
  - intros a' Ha'. rewrite entries_re_add. by rewrite decide_False.
  - exists split. rewrite entries_re_add, decide_True, He, E by done. done.
Qed.

(** The promoted transactions are a run of consecutive nonces at the front of the
    queue, whose costs the balances cover. *)
Fixpoint consecutive (n : Z) (l : BTree TimemarkedTransaction) : Prop :=
  match l with
  | [] => True
  | (k, _) :: l' => k = n /\ consecutive (n + 1) l'
  end.
Definition nonces_ok (l : BTree TimemarkedTransaction) : Prop := Forall (fun k => uint 32 k) (keys l).

Lemma sorted_keys_cons k v (l : BTree TimemarkedTransaction) :
  sorted_keys ((k, v) :: l) <-> sorted_keys l /\ Forall (fun k' => k < k') (keys l).
Proof.
  unfold sorted_keys, keys. simpl. split.
  - by intros [? ?]%StronglySorted_inv.
  - intros [? ?]. by constructor.
Qed.

Lemma promotion_split_ge n s0 b (l : BTree TimemarkedTransaction) s :
  promotion_split n s0 b l = Some s -> s0 = s \/ n + 1 <= s.
Proof.
  revert n s0 b. induction l as [|[k t] l IH]; intros n s0 b; simpl; [intros [= ->]; auto|].
  destruct (k =? n); [|intros [= ->]; auto].
  destruct (deduct_costs t b); [|intros [= ->]; auto].
  destruct (checked_add 32 n 1) as [next|] eqn:Hc; [|done].
  apply checked_add_Some in Hc as [-> _]. intros Hs. apply IH in Hs. lia.
Qed.

Lemma promotion_split_spec n s0 b (l : BTree TimemarkedTransaction) :
  sorted_keys l -> nonces_ok l -> Forall (fun k => s0 <= k) (keys l) ->
  exists p q, l = (p ++ q)%list /\ consecutive n p /\ is_Some (deduct_all b p.*2) /\
    match promotion_split n s0 b l with
    | Some s => Forall (fun k => k < s) (keys p) /\ Forall (fun k => s <= k) (keys q)
    | None => q = []
    end.
Proof.
  revert n s0 b. induction l as [|[k t] l IH]; intros n s0 b Hs Hn Hge; simpl.
  - exists [], []. repeat split; try done.
  - apply sorted_keys_cons in Hs as [Hs Hlt]. apply Forall_cons in Hn as [Hk Hn].
    assert (exists p q, ((k, t) :: l)%list = (p ++ q)%list /\ consecutive n p /\
      is_Some (deduct_all b p.*2) /\ Forall (fun k => k < s0) (keys p) /\ Forall (fun k => s0 <= k) (keys q))
      as Hstop by (exists [], ((k, t) :: l); repeat split; try done; by eexists).
    destruct (Z.eqb_spec k n) as [->|Hne]; [|exact Hstop].
    destruct (deduct_costs t b) as [b'|] eqn:Hd; [|exact Hstop].
    destruct (checked_add 32 n 1) as [next|] eqn:Hc.
    + apply checked_add_Some in Hc as [-> Hmax].
      destruct (IH (n + 1) (n + 1) b' Hs Hn) as (p & q & -> & Hcon & Hded & Hsp).
      { eapply Forall_impl; [exact Hlt|]. simpl. lia. }
      exists ((n, t) :: p), q. split; [done|]. split; [done|]. split.
      { simpl. by rewrite Hd. }
      destruct (promotion_split _ _ _ _) as [s|] eqn:Hps; [|done]. destruct Hsp as [Hp Hq]. split; [|done].
      constructor; [|done]. apply promotion_split_ge in Hps. simpl. lia.
    + apply checked_add_None in Hc. exists [(n, t)], []. destruct Hk as [_ Hk].
      assert (l = []) as ->.
      { destruct l as [|[k' t'] l]; [done|]. apply Forall_cons in Hn as [[_ Hk'] _].
        apply Forall_cons in Hlt as [Hlt _]. lia. }
      split; [done|]. split; [done|]. split; [|done]. simpl. by rewrite Hd.
Qed.

Lemma find_promotables_ok a n b (c c' : ParkedTransactions) promoted :
  find_promotables a n b c = (promoted, c') -> no_empty c ->
  sorted_keys (entries_of c a) -> nonces_ok (entries_of c a) ->
  (map tx_hash promoted ++ hashes c' ≡ₚ hashes c) /\ no_empty c' /\
  (forall a', a' <> a -> entries_of c' a' = entries_of c a') /\
  exists p, entries_of c a = (p ++ entries_of c' a)%list /\ consecutive n p /\
    is_Some (deduct_all b p.*2) /\ promoted = p.*2.
Proof.
  unfold find_promotables. intros Hr Hne.
  destruct (parked_accounts c !! a) as [t|] eqn:Ha.
  2: { simplify_eq. assert (entries_of c' a = []) as -> by (unfold entries_of; simpl; by rewrite Ha).
       intros _ _. split; [done|]. split; [done|]. split; [done|]. exists []. repeat split. by eexists. }
  assert (entries_of c a = parked_txs t) as He by (unfold entries_of; simpl; by rewrite Ha).
  rewrite He. intros Hs Hn.
  destruct (promotion_split_spec n 0 b (parked_txs t) Hs Hn) as (p & q & E & Hcon & Hded & Hsp).
  { eapply Forall_impl; [exact Hn|]. by intros k [? _]. }
  assert (account_find_promotables n b t = (p.*2, mk_parked q)) as Hf.
  { unfold account_find_promotables. destruct (promotion_split _ _ _ _).
    - rewrite E, split_off_app by apply Hsp. done.
    - subst q. rewrite app_nil_r in E. by rewrite E. }
  rewrite Hf in Hr. simplify_eq. split; [|split; [by apply no_empty_re_add|split]].
  - apply (take_out_hashes c a (mk_parked q) (entry_hashes p)). simpl. by rewrite He, E, entry_hashes_app.
  - intros a' Ha'. rewrite entries_re_add. by rewrite decide_False.
  - exists p. rewrite entries_re_add, decide_True by done. done.
Qed.
End Hashes.
