(* ===== verification/MempoolInvariant.v ===== *)
(** * The invariant of the mempool

    Every queue is sorted by nonce and belongs to its account, the pending
    queues have no gaps above the account's nonce, no hash is held twice, and the
    tracked hashes are those held. *)
From S2P Require Import Prelude Denom Types State Chain Accounts Relay Transact Ics20 BTree Mempool.
From S2P Require Import MempoolLemmas.
From stdpp Require Import base list option strings gmap fin_maps sorting.
From Stdlib Require Import ZArith Lia String.
Open Scope Z_scope.

Section Invariant.
Context `{External}.

(** ** Costs *)
Lemma deduct_all_app b (p q : list TimemarkedTransaction) :
  deduct_all b (p ++ q) = b' ← deduct_all b p; deduct_all b' q.
Proof.
  revert b. induction p as [|t p IH]; intros b; [done|]. simpl.
  destruct (deduct_costs t b); [apply IH|done].
Qed.
Lemma deduct_subtract_entries b b' l :
  deduct_entries b l = Some b' -> foldl subtract_entry b l = b'.
Proof.
  revert b. induction l as [|dc l IH]; intros b; simpl; [by intros [= ->]|].
  unfold deduct_entry, subtract_entry. destruct (dc.2 =? 0); [apply IH|].
  destruct (b !! dc.1) as [cur|]; [|done]. simpl.
  destruct (checked_sub cur dc.2); [apply IH|done].
Qed.
(** When the costs are covered, taking them off is the same as deducting them. *)
Lemma deduct_subtract b b' (l : BTree TimemarkedTransaction) :
  deduct_all b l.*2 = Some b' ->
  foldl (fun b nt => foldl subtract_entry b (map_to_list (cost nt.2))) b l = b'.
Proof.
  revert b. induction l as [|[k t] l IH]; intros b; simpl; [by intros [= ->]|].
  unfold deduct_costs. destruct (deduct_entries _ _) as [b1|] eqn:E; [|done]. simpl.
  rewrite (deduct_subtract_entries _ _ _ E). apply IH.
Qed.

(** ** Queues of an account *)
Definition queue_ok (a : address_bytes) (l : BTree TimemarkedTransaction) : Prop :=
  sorted_keys l /\ nonces_ok l /\
  Forall (fun kv => kv.1 = ttx_nonce kv.2 /\ ttx_address kv.2 = a) l.
Definition gapless (n : Z) (ks : list Z) : Prop := forall k, k ∈ ks -> n < k -> (k - 1) ∈ ks.

Lemma queue_ok_nil a : queue_ok a [].
Proof. repeat constructor. Qed.
Lemma queue_ok_filter a (P : Z * TimemarkedTransaction -> Prop) `{forall x, Decision (P x)} l :
  queue_ok a l -> queue_ok a (filter P l).
Proof.
  intros (Hs & Hn & Hf). split; [by apply sorted_filter|]. unfold nonces_ok, keys in *.
  rewrite Forall_fmap in *. rewrite !Forall_forall in *.
  split; intros kv Hkv; apply list_elem_of_filter in Hkv as [_ Hkv]; auto.
Qed.
Lemma queue_ok_split a k l : queue_ok a l -> queue_ok a (bt_split_off k l).1 /\ queue_ok a (bt_split_off k l).2.
Proof. intros Hl. split; by apply queue_ok_filter. Qed.
Lemma queue_ok_insert a t l :
  queue_ok a l -> ttx_address t = a -> uint 32 (ttx_nonce t) -> (ttx_nonce t ∉ keys l) ->
  queue_ok a (bt_insert (ttx_nonce t) t l).
Proof.
  intros (Hs & Hn & Hf) Ha Ht Hk. split; [by apply bt_insert_sorted|].
  unfold nonces_ok. rewrite bt_insert_keys, bt_insert_perm by done. split; by constructor.
Qed.
Lemma queue_ok_same a l l' : queue_ok a l -> same_txs l l' -> queue_ok a l' /\ keys l' = keys l.
Proof.
  intros (Hs & Hn & Hf) Hsame.
  assert (keys l' = keys l) as E.
  { unfold keys. clear -Hsame. induction Hsame as [|kv kv' l l' [E _] _ IH]; [done|].
    rewrite !fmap_cons. by f_equal. }
  split; [|done]. unfold queue_ok, sorted_keys, nonces_ok. rewrite E. split; [done|]. split; [done|].
  clear -Hf Hsame. induction Hsame as [|kv kv' l l' [E1 E2] _ IH]; [done|].
  apply Forall_cons in Hf as [[Hk Ha] Hf]. constructor; [|by apply IH].
  unfold ttx_nonce, ttx_address in *. by rewrite <- E1, <- E2.
Qed.

Lemma split_keys_below k (l : BTree TimemarkedTransaction) k' :
  k' ∈ keys (bt_split_off k l).1 <-> k' ∈ keys l /\ k' < k.
Proof.
  unfold keys. rewrite !list_elem_of_fmap. split.
  - intros (kv & -> & Hkv). apply split_off_below in Hkv as [? ?]. eauto.
  - intros [(kv & -> & Hkv) Hlt]. exists kv. split; [done|]. by apply split_off_below.
Qed.
Lemma split_keys_above k (l : BTree TimemarkedTransaction) k' :
  k' ∈ keys (bt_split_off k l).2 <-> k' ∈ keys l /\ k <= k'.
Proof.
  unfold keys. rewrite !list_elem_of_fmap. split.
  - intros (kv & -> & Hkv). apply split_off_above in Hkv as [? ?]. eauto.
  - intros [(kv & -> & Hkv) Hlt]. exists kv. split; [done|]. by apply split_off_above.
Qed.

Implicit Types l : BTree TimemarkedTransaction.
Lemma gapless_nil n : gapless n [].
Proof. intros k Hk. by apply not_elem_of_nil in Hk. Qed.
Lemma gapless_mono n n' ks : n <= n' -> gapless n ks -> gapless n' ks.
Proof. intros Hn Hg k Hk Hlt. apply Hg; [done|lia]. Qed.
Lemma gapless_below n s l : gapless n (keys l) -> gapless n (keys (bt_split_off s l).1).
Proof.
  intros Hg k Hk Hlt. apply split_keys_below in Hk as [Hk Hs]. apply split_keys_below.
  split; [by apply Hg|lia].
Qed.
Lemma gapless_above n l : gapless n (keys l) -> gapless n (keys (bt_split_off n l).2).
Proof.
  intros Hg k Hk Hlt. apply split_keys_above in Hk as [Hk Hs]. apply split_keys_above.
  split; [by apply Hg|lia].
Qed.
Lemma gapless_insert n t l :
  gapless n (keys l) -> (ttx_nonce t ∉ keys l) -> (ttx_nonce t - 1 ∈ keys l \/ ttx_nonce t <= n) ->
  gapless n (keys (bt_insert (ttx_nonce t) t l)).
Proof.
  intros Hg Hk Hprev k. rewrite bt_insert_keys, !elem_of_cons by done.
  intros [->|Hk'] Hlt.
  - right. destruct Hprev; [done|lia].
  - right. by apply Hg.
Qed.

(** A nonce that a gapless queue does not have, from the account's nonce on, is
    above all those it has. *)
Lemma gapless_above_all n k ks :
  gapless n ks -> n <= k -> k ∉ ks -> Forall (fun k' => k' < k) ks.
Proof.
  intros Hg Hn Hk. apply Forall_forall. intros k' Hk'.
  destruct (Z.lt_ge_cases k' k) as [|Hge]; [done|]. destruct Hk.
  assert (forall d : nat, k' - Z.of_nat d >= k -> (k' - Z.of_nat d) ∈ ks) as Hd.
  { induction d as [|d IH]; intros Hle.
    - by replace (k' - Z.of_nat 0) with k' by lia.
    - replace (k' - Z.of_nat (S d)) with (k' - Z.of_nat d - 1) by lia. apply Hg; [apply IH; lia|lia]. }
  specialize (Hd (Z.to_nat (k' - k))). replace (k' - Z.of_nat (Z.to_nat (k' - k))) with k in Hd by lia.
  apply Hd. lia.
Qed.

Lemma sequential_pending t n (a : PendingTransactionsForAccount) :
  0 <= ttx_nonce t ->
  is_sequential_nonce_precondition_met a t n = true -> ttx_nonce t - 1 ∈ keys (txs a) \/ ttx_nonce t = n.
Proof.
  simpl. intros Ht. destruct (checked_sub (ttx_nonce t) 1) as [p|] eqn:E.
  - apply checked_sub_Some in E as [-> _]. rewrite orb_true_iff, bool_decide_eq_true, bt_get_elem, Z.eqb_eq.
    tauto.
  - apply checked_sub_None in E. rewrite Z.eqb_eq. intros ->. right. lia.
Qed.

(** ** Promotion *)
Lemma promote_one f n b (c : PendingTransactions) S t l b' :
  entries_of c (ttx_address t) = l -> Forall (fun k => k < ttx_nonce t) (keys l) ->
  n <= ttx_nonce t -> 1 <= ttx_nonce t -> (ttx_nonce t - 1 ∈ keys l) ->
  deduct_all b l.*2 = Some b' -> is_Some (deduct_costs t b') ->
  exists c', promote f n b (c, S) t = (c', S) /\ (hashes c' ≡ₚ tx_hash t :: hashes c) /\
    entries_of c' (ttx_address t) = (l ++ [(ttx_nonce t, t)])%list /\
    (forall a, a <> ttx_address t -> entries_of c' a = entries_of c a) /\ (no_empty c -> no_empty c').
Proof.
  intros Hl Hlt Hn H1 Hprev Hb [b'' Hd].
  assert (ttx_nonce t ∉ keys l) as Hk.
  { intros Hk. rewrite Forall_forall in Hlt. apply Hlt in Hk. lia. }
  assert (exists c', container_add t n b c = Ok c') as [c' Hc'].
  { unfold container_add. cbn [check_total_tx_count pending_container mbind result_bind].
    fold (account_of c (ttx_address t)).
    rewrite account_add_succeeds; [by eexists|done|done|..]; rewrite ?txs_account_of, ?Hl; try done.
    - simpl. rewrite (proj2 (checked_sub_Some _ _ (ttx_nonce t - 1))) by (split; [done|lia]).
      rewrite (bool_decide_eq_true_2 (is_Some _)); [done|]. apply bt_get_elem.
      change (pending_txs (account_of c (ttx_address t))) with (txs (account_of c (ttx_address t))).
      by rewrite txs_account_of, Hl.
    - simpl. change (pending_txs (account_of c (ttx_address t))) with (txs (account_of c (ttx_address t))).
      rewrite txs_account_of, Hl, deduct_all_app, Hb. simpl. rewrite Hd. done. }
  pose proof (container_add_ok _ _ _ _ _ Hc') as (_ & _ & _ & _ & _ & He & Hoth & Hh & Hne).
  exists c'. unfold promote. cbn [fst snd]. rewrite Hc'. split; [done|]. split; [done|].
  rewrite He, Hl, bt_insert_last by done. done.
Qed.

Lemma promote_all f n b a n' p (c : PendingTransactions) S l b' :
  entries_of c a = l -> queue_ok a p -> consecutive n' p ->
  Forall (fun k => k < n') (keys l) -> n <= n' -> 1 <= n' -> (n' - 1 ∈ keys l) ->
  deduct_all b l.*2 = Some b' -> is_Some (deduct_all b' p.*2) ->
  exists c', foldl (promote f n b) (c, S) p.*2 = (c', S) /\ (hashes c' ≡ₚ entry_hashes p ++ hashes c) /\
    entries_of c' a = (l ++ p)%list /\
    (forall a', a' <> a -> entries_of c' a' = entries_of c a') /\ (no_empty c -> no_empty c').
Proof.
  revert n' c l b'. induction p as [|[k t] p IH]; intros n' c l b' Hl Hok Hcon Hlt Hn H1 Hprev Hb Hd.
  - exists c. rewrite app_nil_r. done.
  - destruct Hok as (Hs & Hno & Hf). apply sorted_keys_cons in Hs as [Hs _].
    apply Forall_cons in Hno as [_ Hno]. apply Forall_cons in Hf as [[Hk Ha] Hf]. simpl in Hk, Ha, Hcon.
    destruct Hcon as [-> Hcon]. subst n' a. simpl in Hd. destruct Hd as [b''' Hd].
    destruct (deduct_costs t b') as [b''|] eqn:Hdt; [|done].
    destruct (promote_one f n b c S t l b') as (c1 & E1 & Hh1 & He1 & Ho1 & Hne1); [done..|by eexists|].
    simpl. rewrite E1.
    destruct (IH (ttx_nonce t + 1) c1 (l ++ [(ttx_nonce t, t)])%list b'') as (c' & E & Hh & He & Ho & Hne);
      try done.
    + unfold keys. rewrite fmap_app. apply Forall_app. split; [|repeat constructor; simpl; lia].
      eapply Forall_impl; [exact Hlt|]. simpl. lia.
    + lia.
    + lia.
    + replace (ttx_nonce t + 1 - 1) with (ttx_nonce t) by lia. unfold keys. rewrite fmap_app.
      apply elem_of_app. right. by apply list_elem_of_singleton.
    + rewrite fmap_app, deduct_all_app, Hb. simpl. by rewrite Hdt.
    + exists c'. split; [done|]. split; [rewrite Hh, Hh1; symmetry; apply Permutation_middle|].
      split; [by rewrite He, <- app_assoc|]. split; [|by auto].
      intros a' Ha'. by rewrite Ho, Ho1.
Qed.

(** ** The containers and what is tracked

    [R] are the hashes of the transactions that were taken out of the containers
    and are still tracked. *)
Definition queues_ok (N : address_bytes -> Z) (p : PendingTransactions) (k : ParkedTransactions)
    (a : address_bytes) : Prop :=
  queue_ok a (entries_of p a) /\ gapless (N a) (keys (entries_of p a)) /\
  queue_ok a (entries_of k a) /\ Z.of_nat (List.length (entries_of k a)) <= MAX_PARKED_TXS_PER_ACCOUNT.
Definition tracks (p : PendingTransactions) (k : ParkedTransactions) (S : gset Hash) (R : list Hash) : Prop :=
  NoDup (hashes p ++ hashes k ++ R) /\ S = list_to_set (hashes p ++ hashes k ++ R).
Record store_ok (N : address_bytes -> Z) (p : PendingTransactions) (k : ParkedTransactions)
    (S : gset Hash) (R : list Hash) : Prop := {
  ok_pending_ne : no_empty p;
  ok_parked_ne : no_empty k;
  ok_queues : forall a, queues_ok N p k a;
  ok_tracks : tracks p k S R }.

(** A change of the containers that only moves hashes around. *)
Lemma tracks_perm p k S R p' k' R' :
  tracks p k S R -> (hashes p' ++ hashes k' ++ R' ≡ₚ hashes p ++ hashes k ++ R) -> tracks p' k' S R'.
Proof.
  intros [Hn ->] Hp. split; [by rewrite Hp|]. apply list_to_set_perm_L. by symmetry.
Qed.
Lemma tracks_untrack p k S h R : tracks p k S (h :: R) -> tracks p k (S ∖ {[h]}) R.
Proof.
  intros [Hn ->].
  assert (hashes p ++ hashes k ++ h :: R ≡ₚ h :: (hashes p ++ hashes k ++ R)) as E
    by (rewrite !app_assoc; symmetry; apply Permutation_middle).
  rewrite E in Hn. apply NoDup_cons in Hn as [Hh Hn]. split; [done|].
  rewrite (list_to_set_perm_L _ _ E). simpl. apply set_eq. intros x.
  rewrite elem_of_difference, elem_of_union, elem_of_singleton, elem_of_list_to_set.
  split; [naive_solver|]. intros Hx. split; [by right|]. intros ->. done.
Qed.
Lemma tracks_add p k S h R : tracks p k S R -> (h ∉ S) -> tracks p k (S ∪ {[h]}) (h :: R).
Proof.
  intros [Hn ->] Hh. rewrite elem_of_list_to_set in Hh.
  assert (hashes p ++ hashes k ++ h :: R ≡ₚ h :: (hashes p ++ hashes k ++ R)) as E
    by (rewrite !app_assoc; symmetry; apply Permutation_middle).
  split; [rewrite E; by constructor|]. rewrite (list_to_set_perm_L _ _ E). simpl.
  by rewrite (union_comm_L (list_to_set _)).
Qed.

(** Only the queues of one account change. *)
Lemma queues_frame N p k p' k' a :
  (forall b, queues_ok N p k b) ->
  (forall b, b <> a -> entries_of p' b = entries_of p b) ->
  (forall b, b <> a -> entries_of k' b = entries_of k b) ->
  queues_ok N p' k' a -> forall b, queues_ok N p' k' b.
Proof.
  intros Hq Hp Hk Ha b. destruct (decide (b = a)) as [->|Hb]; [done|].
  unfold queues_ok. rewrite Hp, Hk by done. apply Hq.
Qed.
Lemma queues_mono N N' p k a : N a <= N' a -> queues_ok N p k a -> queues_ok N' p k a.
Proof.
  intros Hn (K1 & K2 & K3). split; [done|]. split; [by apply (gapless_mono (N a))|done].
Qed.
End Invariant.

(** * The steps of the mempool's operations keep its invariant *)

Section Steps.
Context `{External}.
Implicit Types (p : PendingTransactions) (k : ParkedTransactions) (R : list Hash).

Lemma tracks_swap p k S h R : tracks p k S (h :: R) -> forall p' k',
  (hashes p' ++ hashes k' ≡ₚ h :: (hashes p ++ hashes k)) -> tracks p' k' S R.
Proof.
  intros Ht p' k' E. apply (tracks_perm p k S (h :: R)); [done|].
  rewrite !app_assoc, E, <- Permutation_middle. done.
Qed.
Lemma store_untrack N p k S h R : store_ok N p k S (h :: R) -> store_ok N p k (S ∖ {[h]}) R.
Proof. intros [? ? ? Ht]. split; [done..|]. by apply tracks_untrack. Qed.
Lemma store_add N p k S h R : store_ok N p k S R -> (h ∉ S) -> store_ok N p k (S ∪ {[h]}) (h :: R).
Proof. intros [? ? ? Ht] Hh. split; [done..|]. by apply tracks_add. Qed.
Lemma store_mono N N' p k S R :
  (forall a, N a <= N' a) -> store_ok N p k S R -> store_ok N' p k S R.
Proof. intros Hn [? ? Hq ?]. split; [done| done| |done]. intros a. by apply (queues_mono N). Qed.

(** ** Adding to a container *)
Lemma park_keeps_store N n b t p k k' S R :
  container_add t n b k = Ok k' -> uint 32 (ttx_nonce t) ->
  store_ok N p k S (tx_hash t :: R) -> store_ok N p k' S R.
Proof.
  intros Hadd Ht [Hp Hk Hq Htr].
  apply container_add_ok in Hadd as (_ & Hkey & Hlim & _ & _ & He & Hoth & Hh & Hne).
  split; [done|by apply Hne| |].
  - apply (queues_frame N p k p k' (ttx_address t)); [done|done|done|].
    destruct (Hq (ttx_address t)) as (K1 & K2 & K3 & K4). split; [done|]. split; [done|].
    rewrite He. split; [by apply queue_ok_insert|].
    change (is_at_tx_limit ?a) with (MAX_PARKED_TXS_PER_ACCOUNT <=? Z.of_nat (List.length (txs a))) in Hlim.
    rewrite txs_account_of in Hlim. apply Z.leb_gt in Hlim.
    rewrite (Permutation_length (bt_insert_perm _ _ _ Hkey)). simpl in *. lia.
  - apply (tracks_swap p k S (tx_hash t)); [done|]. rewrite Hh. symmetry. apply Permutation_middle.
Qed.
Lemma pend_keeps_store N n b t p p' k S R :
  container_add t n b p = Ok p' -> uint 32 (ttx_nonce t) -> n = N (ttx_address t) ->
  store_ok N p k S (tx_hash t :: R) -> store_ok N p' k S R.
Proof.
  intros Hadd Ht -> [Hp Hk Hq Htr].
  apply container_add_ok in Hadd as (Hn & Hkey & _ & Hseq & _ & He & Hoth & Hh & Hne).
  split; [by apply Hne|done| |].
  - apply (queues_frame N p k p' k (ttx_address t)); [done|done|done|].
    destruct (Hq (ttx_address t)) as (K1 & K2 & K3 & K4). unfold queues_ok.
    rewrite He. split; [by apply queue_ok_insert|]. split; [|done].
    apply gapless_insert; [done|done|].
    apply sequential_pending in Hseq as [Hs|Hs]; [|right; lia|by destruct Ht].
    left. by rewrite txs_account_of in Hs.
  - apply (tracks_swap p k S (tx_hash t)); [done|]. by rewrite Hh.
Qed.

Lemma demote_all N n b D p k S R :
  Forall (fun t => uint 32 (ttx_nonce t)) D -> store_ok N p k S (map tx_hash D ++ R) ->
  store_ok N p (foldl (demote n b) (k, S) D).1 (foldl (demote n b) (k, S) D).2 R.
Proof.
  revert k S. induction D as [|t D IH]; intros k S Hf Hs; [done|].
  apply Forall_cons in Hf as [Ht Hf]. cbn [foldl map app] in *. unfold demote at 2 4. cbn [fst snd].
  destruct (container_add t n b k) as [k'|e] eqn:E.
  - apply IH; [done|]. by apply (park_keeps_store N n b t p k).
  - apply IH; [done|]. by apply store_untrack.
Qed.
Lemma promote_keeps N n b D p k S R :
  Forall (fun t => uint 32 (ttx_nonce t) /\ n = N (ttx_address t)) D ->
  store_ok N p k S (map tx_hash D ++ R) ->
  store_ok N (foldl (promote tx_hash n b) (p, S) D).1 k (foldl (promote tx_hash n b) (p, S) D).2 R.
Proof.
  revert p S. induction D as [|t D IH]; intros p S Hf Hs; [done|].
  apply Forall_cons in Hf as [[Ht Hn] Hf]. cbn [foldl map app] in *. unfold promote at 2 4. cbn [fst snd].
  destruct (container_add t n b p) as [p'|e] eqn:E.
  - apply IH; [done|]. by apply (pend_keeps_store N n b t p).
  - apply IH; [done|]. by apply store_untrack.
Qed.

(** ** The removal cache *)
Record cache_ok (c : RemovalCache) : Prop := {
  ok_max : 0 < max_size c;
  ok_queue : Z.of_nat (List.length (remove_queue c)) <= max_size c;
  ok_dom : forall h, is_Some (cache c !! h) -> h ∈ remove_queue c }.
Lemma cache_add_ok h r c : cache_ok c -> exists c', cache_add h r c = Val c' /\ cache_ok c' /\ max_size c' = max_size c.
Proof.
  intros [Hm Hq Hd]. unfold cache_add. destruct (cache c !! h) eqn:E; [by exists c|].
  destruct (Z.eqb_spec (Z.of_nat (List.length (remove_queue c))) (max_size c)) as [Hl|Hl].
  - destruct (remove_queue c) as [|x q] eqn:Eq; [simpl in Hl; lia|]. simpl. eexists. split; [done|].
    split; [|done]. split; simpl in *; [done|rewrite length_app; simpl; lia|].
    intros y Hy. destruct (decide (y = h)) as [->|Hyh]; [set_solver|].
    rewrite lookup_insert_ne in Hy by done. destruct (decide (y = x)) as [->|Hyx].
    { rewrite lookup_delete_eq in Hy. by destruct Hy. }
    rewrite lookup_delete_ne in Hy by done. apply Hd in Hy. set_solver.
  - simpl. eexists. split; [done|]. split; [|done].
    split; simpl; [done|rewrite length_app; simpl; lia|].
    intros y Hy. destruct (decide (y = h)) as [->|Hyh]; [set_solver|].
    rewrite lookup_insert_ne in Hy by done. apply Hd in Hy. set_solver.
Qed.
Lemma cache_remove_ok h c : cache_ok c -> cache_ok (cache_remove h c).2.
Proof.
  intros [Hm Hq Hd]. split; [done|done|]. simpl. intros h' Hh'.
  destruct (decide (h' = h)) as [->|Hne]; [rewrite lookup_delete_eq in Hh'; by destruct Hh'|].
  rewrite lookup_delete_ne in Hh' by done. by apply Hd.
Qed.
Lemma untrack_ok N p k l : forall c S R, cache_ok c -> store_ok N p k S (l.*1 ++ R) ->
  exists c' S', untrack l c S = Val (c', S') /\ cache_ok c' /\ store_ok N p k S' R.
Proof.
  induction l as [|[h r] l IH]; intros c S R Hc Hs; [by exists c, S|]. simpl.
  destruct (cache_add_ok h r c Hc) as (c1 & -> & Hc1 & _). simpl. apply IH; [done|].
  by apply store_untrack.
Qed.
End Steps.
