(* ===== verification/MempoolMaintenance.v ===== *)
(** * The operations of the mempool keep its invariant

    Insertion with the promotions it causes, removal, and the maintenance that
    follows a block, after which what is pending is ready to be executed. *)
From S2P Require Import Prelude Denom Types State Chain Accounts Relay Transact Ics20 BTree Mempool.
From S2P Require Import MempoolLemmas MempoolInvariant.
From stdpp Require Import base list option strings gmap fin_maps sorting.
From Stdlib Require Import ZArith Lia String.
Open Scope Z_scope.

Section MempoolOk.
Context `{External, Relay}.

(** The mempool, for accounts with the nonces [N]: each queue is sorted, holds
    transactions of its account only, and has no gap above the account's nonce
    if it is pending; a parked queue is bounded; no hash is held twice; what is
    tracked is what is held; the removal cache is within its size. *)
Record mem_ok (N : address_bytes -> Z) (m : Mempool) : Prop := {
  ok_store : store_ok N (pending m) (parked m) (contained_txs m) [];
  ok_cache : cache_ok (comet_bft_removal_cache m) }.

Lemma mempool_new_ok N n : mem_ok N (mempool_new n).
Proof.
  split; [|by split; [done|done|intros h [? ?]]]. split; [by intros a t ?..| |].
  - intros a. split; [apply queue_ok_nil|]. split; [apply gapless_nil|]. by split; [apply queue_ok_nil|].
  - split; [constructor|done].
Qed.

(** ** Lemmas *)
Lemma pending_hashes_pairs (l : BTree TimemarkedTransaction) : map tx_hash l.*2 = entry_hashes l.
Proof. done. Qed.
Lemma consecutive_keys n (p : BTree TimemarkedTransaction) :
  consecutive n p -> forall k, k ∈ keys p -> n <= k /\ (k = n \/ k - 1 ∈ keys p).
Proof.
  revert n. induction p as [|[k0 t] p IH]; intros n; simpl; [by intros _ k ?%not_elem_of_nil|].
  intros [-> Hc] k. rewrite !elem_of_cons. intros [->|Hk]; [split; [lia|by left]|].
  destruct (IH _ Hc _ Hk) as [Hle [->|Hin]]; (split; [lia|right]); [left; lia|by right].
Qed.
Lemma find_promotables_parked N p k S R a n b D k' :
  find_promotables a n b k = (D, k') -> store_ok N p k S R ->
  store_ok N p k' S (map tx_hash D ++ R) /\
  Forall (fun t => uint 32 (ttx_nonce t) /\ ttx_address t = a) D.
Proof.
  intros Hf [Hp Hk Hq Ht]. destruct (Hq a) as (K1 & K2 & (Ks & Kn & Kf) & K4).
  destruct (find_promotables_ok _ _ _ _ _ _ Hf Hk Ks Kn) as (Hh & Hne & Hoth & q & E & _ & _ & ->).
  rewrite E in Ks, Kn, Kf, K4. split.
  - split; [done|done| |].
    + apply (queues_frame N p k p k' a); [done|done|done|]. split; [done|]. split; [done|].
      unfold queue_ok, nonces_ok, sorted_keys, keys in *. rewrite fmap_app in Ks, Kn.
      apply Forall_app in Kn as [_ Kn]. apply Forall_app in Kf as [_ Kf].
      apply StronglySorted_app in Ks as (_ & _ & Ks). rewrite length_app in K4. repeat split; try done. lia.
    + eapply tracks_perm; [exact Ht|]. rewrite <- Hh. solve_Permutation.
  - apply Forall_app in Kf as [Kf _]. unfold nonces_ok, keys in Kn. rewrite fmap_app in Kn.
    apply Forall_app in Kn as [Kn _]. rewrite Forall_fmap in Kn.
    apply Forall_fmap. apply Forall_forall. intros kv Hkv. rewrite Forall_forall in Kn, Kf.
    destruct (Kf _ Hkv) as [Ek Ea]. simpl. split; [|done]. rewrite <- Ek. by apply Kn.
Qed.

Lemma promote_fst f g n b D c S S' :
  (foldl (promote f n b) (c, S) D).1 = (foldl (promote g n b) (c, S') D).1.
Proof.
  revert c S S'. induction D as [|t D IH]; intros c S S'; [done|]. simpl.
  unfold promote at 2 4. cbn [fst snd]. by destruct (container_add t n b c).
Qed.
Lemma subtract_contained a b b' (c : PendingTransactions) :
  entries_of c a <> [] -> deduct_all b (entries_of c a).*2 = Some b' ->
  subtract_contained_costs a b c = b'.
Proof.
  unfold entries_of, subtract_contained_costs. change (accounts_in c) with (pending_accounts c).
  destruct (pending_accounts c !! a) as [t|]; [|done]. intros _ Hd. by apply deduct_subtract.
Qed.

(** Once a transaction was added to pending, all that can follow it in the
    parked queue is promoted. *)
Lemma promotion_never_fails N p k S t b p1 D k' :
  container_add t (N (ttx_address t)) b p = Ok p1 -> store_ok N p k S [] -> uint 32 (ttx_nonce t) ->
  find_promotables (ttx_address t) (ttx_nonce t + 1) (subtract_contained_costs (ttx_address t) b p1) k
    = (D, k') ->
  exists p2, forall f S', foldl (promote f (N (ttx_address t)) b) (p1, S') D = (p2, S').
Proof.
  intros Hadd [Hp Hk Hq _] [Ht0 Ht] Hf. set (a := ttx_address t) in *.
  destruct (Hq a) as ((Ps & Pn & Pf) & Hg & (Ks & Kn & Kf) & _).
  destruct (find_promotables_ok _ _ _ _ _ _ Hf Hk Ks Kn) as (_ & _ & _ & q & E & Hcon & Hded & ->).
  pose proof (container_add_ok _ _ _ _ _ Hadd) as (Hn & Hkey & _ & _ & Hbal & He & _ & _ & _). fold a in Hkey, He, Hbal.
  pose proof (gapless_above_all _ _ _ Hg Hn Hkey) as Hlt.
  rewrite bt_insert_last in He by done.
  change (bool_decide (is_Some (deduct_all b ((txs (account_of p a)).*2 ++ [t]))) = true) in Hbal.
  apply bool_decide_eq_true in Hbal as [b' Hb']. rewrite txs_account_of in Hb'.
  assert (deduct_all b (entries_of p1 a).*2 = Some b') as Hb1 by (by rewrite He, fmap_app).
  assert (entries_of p1 a <> []) as Hne by (rewrite He; by destruct (entries_of p a)).
  rewrite (subtract_contained a b b') in Hded by done.
  exists (foldl (promote tx_hash (N a) b) (p1, S) q.*2).1. intros f S'.
  rewrite <- (promote_fst f tx_hash _ _ _ p1 S').
  destruct (promote_all f (N a) b a (ttx_nonce t + 1) q p1 S' _ b' eq_refl) as (p2 & E2 & _);
    try done; [| | | | |by rewrite E2].
  - rewrite E in Ks, Kn, Kf. unfold queue_ok, nonces_ok, sorted_keys, keys in *. rewrite fmap_app in Ks, Kn.
    apply Forall_app in Kn as [Kn _]. apply Forall_app in Kf as [Kf _].
    by apply StronglySorted_app in Ks as (_ & Ks & _).
  - rewrite He. unfold keys in *. rewrite fmap_app. apply Forall_app. split; [|repeat constructor; simpl; lia].
    eapply Forall_impl; [exact Hlt|]. simpl. lia.
  - lia.
  - lia.
  - rewrite He. unfold keys. rewrite fmap_app. apply elem_of_app. right. simpl.
    apply list_elem_of_singleton. lia.
Qed.

(** What an insertion does to the mempool: on an error nothing. *)
Definition inserted (N : address_bytes -> Z) (id : Hash) (m : Mempool)
    (r : result InsertionError unit) (m' : Mempool) : Prop :=
  mem_ok N m' /\
  match r with
  | Ok _ => contained_txs m' = contained_txs m ∪ {[id]}
  | Err _ => m' = m
  end.

Lemma insert_keeps N m now tx b c :
  mem_ok N m -> 0 <= tx_nonce tx < umax 32 -> is_tracked (tx_id tx) m = false ->
  exists r m', Mempool.insert now tx (N (tx_address_bytes tx)) b c m = Val (r, m') /\
    inserted N (tx_id tx) m r m'.
Proof.
  intros Hok [Hn0 Hn] Htr. pose proof Hok as [Hs Hc]. apply bool_decide_eq_false in Htr.
  unfold Mempool.insert, inserted. set (a := tx_address_bytes tx). set (t := mk_ttx tx now c).
  change (tx_hash t) with (tx_id tx). change (ttx_address t) with a.
  assert (uint 32 (ttx_nonce t)) as Hu by (change (ttx_nonce t) with (tx_nonce tx); unfold umax, uint in *; lia).
  pose proof (store_add _ _ _ _ _ _ Hs Htr) as Hs1.
  assert (ttx_nonce t + 1 < 2 ^ 32) as Hu1 by (change (ttx_nonce t) with (tx_nonce tx); unfold umax in Hn; lia).
  destruct (container_add t (N a) b (pending m)) as [p1|e] eqn:E.
  - rewrite (proj2 (checked_add_Some 32 (ttx_nonce t) 1 _) (conj eq_refl Hu1)). cbn [unwrap mbind run_bind].
    destruct (find_promotables _ _ _ _) as [D k'] eqn:Ef.
    destruct (promotion_never_fails N _ _ _ t b p1 D k' E Hs Hu Ef) as [p2 E2].
    rewrite E2. eexists _, _. split; [done|]. split; [|done]. split; [|done]. simpl.
    apply (pend_keeps_store N _ _ _ _ _ _ _ _ E Hu eq_refl) in Hs1.
    destruct (find_promotables_parked _ _ _ _ _ _ _ _ _ _ Ef Hs1) as [Hs2 HD].
    apply (promote_keeps N (N a) b) in Hs2; [by rewrite E2 in Hs2|].
    eapply Forall_impl; [exact HD|]. intros t' [? ->]. done.
  - assert (exists r m', match container_add t (N a) b (parked m) with
      | Ok k' => Val (Ok tt, mk_mempool (pending m) k' (comet_bft_removal_cache m) (contained_txs m ∪ {[tx_id tx]}))
      | Err err => Val (Err err, m)
      end = Val (r, m') /\ mem_ok N m' /\
      match r with Ok _ => contained_txs m' = contained_txs m ∪ {[tx_id tx]} | Err _ => m' = m end) as Hpark.
    { destruct (container_add t (N a) b (parked m)) as [k'|e'] eqn:E1; eexists _, _; (split; [done|]); [|done].
      split; [|done]. split; [|done]. by apply (park_keeps_store N _ _ _ _ _ _ _ _ E1). }
    destruct e; try exact Hpark; by eexists _, _.
Qed.

Lemma take_from_pending N m tx r p' :
  container_remove tx (pending m) = (r, p') -> mem_ok N m ->
  store_ok N p' (parked m) (contained_txs m) (default [] r).
Proof.
  intros E [[Hp Hk Hq Ht] _]. destruct (container_remove_ok _ _ _ _ E Hp) as (Hh & Hne & Hoth & _ & He).
  split; [done|done| |].
  - apply (queues_frame N (pending m) (parked m) _ _ (tx_address_bytes tx)); [done|done|done|].
    destruct (Hq (tx_address_bytes tx)) as (K1 & K2 & K3). unfold queues_ok. rewrite He.
    destruct r; [|done]. split; [by apply queue_ok_split|]. split; [by apply gapless_below|done].
  - eapply tracks_perm; [exact Ht|]. rewrite <- Hh, app_nil_r. solve_Permutation.
Qed.
Lemma take_from_parked N p k S R tx r k' :
  container_remove tx k = (r, k') -> store_ok N p k S R -> store_ok N p k' S (default [] r ++ R).
Proof.
  intros E [Hp Hk Hq Ht]. destruct (container_remove_ok _ _ _ _ E Hk) as (Hh & Hne & Hoth & _ & He).
  split; [done|done| |].
  - apply (queues_frame N p k _ _ (tx_address_bytes tx)); [done|done|done|].
    destruct (Hq (tx_address_bytes tx)) as (K1 & K2 & K3 & K4). unfold queues_ok. rewrite He.
    do 2 (split; [done|]). destruct r; [|done]. split; [by apply queue_ok_split|].
    unfold bt_split_off. cbn [fst]. pose proof (length_filter (fun kv : Z * TimemarkedTransaction => kv.1 < tx_nonce tx)
      (entries_of k (tx_address_bytes tx))). lia.
  - eapply tracks_perm; [exact Ht|]. rewrite <- Hh. solve_Permutation.
Qed.
Lemma clear_parked N p k S R a r k' :
  clear_account a k = (r, k') -> store_ok N p k S R -> store_ok N p k' S (r ++ R).
Proof.
  intros E [Hp Hk Hq Ht]. destruct (clear_account_ok _ _ _ _ E Hk) as (Hh & Hne & He & Hoth).
  split; [done|done| |].
  - apply (queues_frame N p k _ _ a); [done|done|done|]. destruct (Hq a) as (K1 & K2 & _).
    unfold queues_ok. rewrite He. do 2 (split; [done|]). by split; [apply queue_ok_nil|].
  - eapply tracks_perm; [exact Ht|]. rewrite <- Hh. solve_Permutation.
Qed.

Lemma finish_removal N m h r p k out :
  cache_ok (comet_bft_removal_cache m) -> store_ok N p k (contained_txs m) out ->
  exists m', (c ← cache_add h r (comet_bft_removal_cache m);
    '(c', contained) ← untrack (map (fun h => (h, LowerNonceInvalidated)) out) c (contained_txs m);
    Val (mk_mempool p k c' contained)) = Val m' /\ mem_ok N m' /\ pending m' = p /\ parked m' = k.
Proof.
  intros Hc Hs. destruct (cache_add_ok h r _ Hc) as (c1 & -> & Hc1 & _). cbn [mbind run_bind].
  destruct (untrack_ok N p k (map (fun h => (h, LowerNonceInvalidated)) out) c1 (contained_txs m) [] Hc1)
    as (c2 & S' & -> & Hc2 & Hs2).
  { rewrite app_nil_r. replace (map _ out).*1 with out; [done|]. clear. induction out; simpl; [done|by f_equal]. }
  by eexists.
Qed.
Lemma container_remove_found {C T} `{AccountLaws T} `{!TransactionsContainer C T} `{!ContainerLaws C T} tx (c : C) :
  is_Some (container_remove tx c).1 <-> (tx_nonce tx ∈ keys (entries_of c (tx_address_bytes tx))).
Proof.
  rewrite <- bt_get_elem. unfold container_remove, entries_of.
  destruct (accounts_in c !! tx_address_bytes tx) as [t|]; [|simpl; split; intros [? ?]; done].
  unfold account_remove. destruct (bt_get (tx_nonce tx) (txs t)) eqn:Hg.
  - split; [by eexists|]. intros _. destruct (bt_split_off _ _) as [kept off] eqn:Hsp.
    assert (tx_nonce tx ∈ keys (txs t)) as Hk by (apply bt_get_elem; by eexists).
    apply list_elem_of_fmap in Hk as (kv & Ek & Hkv).
    assert (kv ∈ (bt_split_off (tx_nonce tx) (txs t)).2) as Hoff by (apply split_off_above; split; [done|lia]).
    rewrite Hsp in Hoff. destruct off; [by apply not_elem_of_nil in Hoff|]. by eexists.
  - simpl. split; intros [? ?]; done.
Qed.

(** What the removal of a transaction leaves in the two queues of its account:
    if it is pending, the pending ones with lower nonces only; if it is parked,
    the pending ones and the parked ones with lower nonces; else all. *)
Definition left_by_removal (tx : Transaction) (m m' : Mempool) : Prop :=
  let a := tx_address_bytes tx in
  let below l := filter (fun kv : Z * TimemarkedTransaction => kv.1 < tx_nonce tx) l in
  let '(p, k, p', k') :=
    (entries_of (pending m) a, entries_of (parked m) a, entries_of (pending m') a, entries_of (parked m') a) in
  if decide (tx_nonce tx ∈ keys p) then p' = below p /\ k' = []
  else if decide (tx_nonce tx ∈ keys k) then p' = p /\ k' = below k
  else p' = p /\ k' = k.

Lemma remove_keeps N m tx reason :
  mem_ok N m ->
  exists m', remove_tx_invalid tx reason m = Val m' /\ mem_ok N m' /\ left_by_removal tx m m'.
Proof.
  intros Hok. pose proof Hok as [Hs Hc]. unfold remove_tx_invalid, left_by_removal.
  destruct (container_remove tx (pending m)) as [r p'] eqn:E.
  pose proof (container_remove_found tx (pending m)) as Hfound. rewrite E in Hfound. simpl in Hfound.
  destruct (container_remove_ok _ _ _ _ E (ok_pending_ne _ _ _ _ _ Hs)) as (_ & _ & _ & _ & He).
  pose proof (take_from_pending _ _ _ _ _ E Hok) as Hp. destruct r as [out|].
  - destruct (clear_account _ (parked m)) as [out' k'] eqn:E1.
    destruct (clear_account_ok _ _ _ _ E1 (ok_parked_ne _ _ _ _ _ Hs)) as (_ & _ & Hempty & _).
    apply (clear_parked _ _ _ _ _ _ _ _ E1) in Hp.
    destruct (finish_removal N m (tx_id tx) reason p' k' (out ++ out') Hc) as (m' & K & Hm' & E2 & E3).
    + destruct Hp as [? ? ? Ht]. split; [done..|]. eapply tracks_perm; [exact Ht|]. simpl. solve_Permutation.
    + exists m'. split; [exact K|]. rewrite E2, E3, decide_True by (by apply Hfound). done.
  - assert (~ tx_nonce tx ∈ keys (entries_of (pending m) (tx_address_bytes tx))) as Hno
      by (rewrite <- Hfound; by intros [? ?]).
    destruct (container_remove tx (parked m)) as [r k'] eqn:E1.
    pose proof (container_remove_found tx (parked m)) as Hfound1. rewrite E1 in Hfound1. simpl in Hfound1.
    destruct (container_remove_ok _ _ _ _ E1 (ok_parked_ne _ _ _ _ _ Hs)) as (_ & _ & _ & _ & He1).
    apply (take_from_parked _ _ _ _ _ _ _ _ E1) in Hp. simpl in Hp. rewrite app_nil_r in Hp.
    destruct r as [out|].
    + destruct (finish_removal N m (tx_id tx) reason p' k' out Hc Hp) as (m' & K & Hm' & E2 & E3).
      exists m'. split; [exact K|]. rewrite E2, E3, decide_False, decide_True by (done || by apply Hfound1). done.
    + eexists. split; [done|]. split; [done|]. simpl. rewrite decide_False by done.
      rewrite decide_False; [done|]. rewrite <- Hfound1. by intros [? ?].
Qed.

(** ** Maintenance *)
Lemma clean_pending N now p k S R a r p' :
  clean_account_stale_expired now a (N a) p = (r, p') -> store_ok N p k S R ->
  store_ok N p' k S (R ++ r.*1).
Proof.
  intros E [Hp Hk Hq Ht]. destruct (clean_ok _ _ _ _ _ _ E Hp) as (Hh & Hne & Hoth & He).
  split; [done|done| |].
  - apply (queues_frame N p k _ _ a); [done|done|done|]. destruct (Hq a) as (K1 & K2 & K3).
    unfold queues_ok. destruct He as [->| ->].
    + split; [by apply queue_ok_split|]. split; [by apply gapless_above|done].
    + split; [apply queue_ok_nil|]. split; [apply gapless_nil|done].
  - eapply tracks_perm; [exact Ht|]. rewrite <- Hh. solve_Permutation.
Qed.
Lemma clean_parked N n now p k S R a r k' :
  clean_account_stale_expired now a n k = (r, k') -> store_ok N p k S R ->
  store_ok N p k' S (R ++ r.*1).
Proof.
  intros E [Hp Hk Hq Ht]. destruct (clean_ok _ _ _ _ _ _ E Hk) as (Hh & Hne & Hoth & He).
  split; [done|done| |].
  - apply (queues_frame N p k _ _ a); [done|done|done|]. destruct (Hq a) as (K1 & K2 & K3 & K4).
    split; [done|]. split; [done|]. destruct He as [->| ->].
    + split; [by apply queue_ok_split|]. unfold bt_split_off. cbn [snd].
      pose proof (length_filter (fun kv : Z * TimemarkedTransaction => n <= kv.1) (entries_of k a)). lia.
    + by split; [apply queue_ok_nil|].
  - eapply tracks_perm; [exact Ht|]. rewrite <- Hh. solve_Permutation.
Qed.
Lemma recost_keeps N p k S R f a :
  store_ok N p k S R ->
  store_ok N (recost_transactions f a p) k S R /\ store_ok N p (recost_transactions f a k) S R.
Proof.
  intros [Hp Hk Hq Ht].
  destruct (recost_ok f a p Hp) as (Hh1 & Hne1 & Hs1 & _), (recost_ok f a k Hk) as (Hh2 & Hne2 & Hs2 & _).
  split; (split; [done|done| |]).
  - intros b. destruct (Hq b) as (K1 & K2 & K3). unfold queues_ok.
    destruct (queue_ok_same b _ _ K1 (Hs1 b)) as [K1' ->]. done.
  - eapply tracks_perm; [exact Ht|]. by rewrite Hh1.
  - intros b. destruct (Hq b) as (K1 & K2 & K3 & K4).
    destruct (queue_ok_same b _ _ K3 (Hs2 b)) as [K3' _]. do 3 (split; [done|]).
    by rewrite <- (Forall2_length _ _ _ (Hs2 b)).
  - eapply tracks_perm; [exact Ht|]. by rewrite Hh2.
Qed.
Lemma find_demotables_keeps N p k S R a b D p' :
  find_demotables a b p = (D, p') -> store_ok N p k S R ->
  store_ok N p' k S (map tx_hash D ++ R) /\ Forall (fun t => uint 32 (ttx_nonce t)) D.
Proof.
  intros E [Hp Hk Hq Ht]. destruct (find_demotables_ok _ _ _ _ _ E Hp) as (Hh & Hne & Hoth & s & Hsp & ->).
  destruct (Hq a) as (K1 & K2 & K3). assert (entries_of p' a = (bt_split_off s (entries_of p a)).1) as He by (by rewrite Hsp).
  clear Hsp. split.
  - split; [done|done| |].
    + apply (queues_frame N p k _ _ a); [done|done|done|]. unfold queues_ok. rewrite He.
      split; [by apply queue_ok_split|]. split; [by apply gapless_below|done].
    + eapply tracks_perm; [exact Ht|]. rewrite <- Hh. solve_Permutation.
  - apply (queue_ok_split a s) in K1 as [_ (_ & Kn & Kf)]. unfold nonces_ok, keys in Kn. rewrite Forall_fmap in Kn.
    apply Forall_fmap, Forall_forall. intros kv Hkv. rewrite Forall_forall in Kn, Kf.
    destruct (Kf _ Hkv) as [Ek _]. simpl. rewrite <- Ek. by apply Kn.
Qed.

Definition maintained_ok (N : address_bytes -> Z) (st : Maintained) : Prop :=
  store_ok N (m_pending st) (m_parked st) (m_contained st) (m_removed st).*1.
(** *** What is pending is ready *)
(** The transactions of a queue can be executed one after the other, from the
    account's nonce on, and its balances cover all their costs. *)
Definition covered (n : Z) (b : Costs) (l : BTree TimemarkedTransaction) : Prop :=
  Forall (fun k => n <= k) (keys l) /\ is_Some (deduct_all b l.*2).
Definition ready (s : State) (a : address_bytes) (l : BTree TimemarkedTransaction) : Prop :=
  consecutive (default 0 (nonces (accounts s) !! a)) l /\
  is_Some (deduct_all (get_account_balances s a) l.*2).

Lemma gapless_consecutive n (l : BTree TimemarkedTransaction) :
  sorted_keys l -> Forall (fun k => n <= k) (keys l) -> gapless n (keys l) -> consecutive n l.
Proof.
  revert n. induction l as [|[k t] l IH]; intros n Hs Hf Hg; [done|]. simpl.
  apply sorted_keys_cons in Hs as [Hs Hlt]. apply Forall_cons in Hf as [Hk Hf].
  simpl in *. rewrite Forall_forall in Hlt.
  assert (k = n) as ->.
  { destruct (decide (n < k)) as [Hnk|]; [|lia].
    specialize (Hg k (list_elem_of_here _ _) Hnk). apply elem_of_cons in Hg as [|Hg]; [lia|].
    apply Hlt in Hg. lia. }
  split; [done|]. apply IH; [done| |].
  - apply Forall_forall. intros k' Hk'. apply Hlt in Hk'. lia.
  - intros k' Hk' Hnk. specialize (Hg k' (list_elem_of_further _ _ _ Hk') ltac:(lia)).
    apply elem_of_cons in Hg as [|]; [lia|done].
Qed.

Lemma demotion_split_ge s0 b (l : BTree TimemarkedTransaction) :
  sorted_keys l -> nonces_ok l -> Forall (fun k => s0 <= k) (keys l) -> s0 <= demotion_split s0 b l.
Proof.
  revert s0 b. induction l as [|[k t] l IH]; intros s0 b Hs Hn Hf; simpl; [lia|].
  destruct (deduct_costs t b) as [b'|]; [|lia].
  apply sorted_keys_cons in Hs as [Hs Hlt]. apply Forall_cons in Hn as [Hk Hn]. apply Forall_cons in Hf as [Hk0 Hf].
  unfold uint in Hk. simpl in *.
  transitivity (saturating_add 32 k 1); [unfold saturating_add, umax; lia|]. apply IH; [done..|].
  eapply Forall_impl; [exact Hlt|]. unfold saturating_add, umax. simpl. lia.
Qed.
Lemma demotion_covered s0 b (l : BTree TimemarkedTransaction) :
  sorted_keys l -> nonces_ok l -> Forall (fun k => s0 <= k) (keys l) ->
  is_Some (deduct_all b (bt_split_off (demotion_split s0 b l) l).1.*2).
Proof.
  revert s0 b. induction l as [|[k t] l IH]; intros s0 b Hs Hn Hf; simpl; [by eexists|].
  apply sorted_keys_cons in Hs as [Hs Hlt]. apply Forall_cons in Hn as [Hk Hn]. apply Forall_cons in Hf as [Hk0 Hf].
  destruct (deduct_costs t b) as [b'|] eqn:Ed.
  - set (s1 := saturating_add 32 k 1).
    assert (Forall (fun k' => s1 <= k') (keys l)) as Hf1.
    { eapply Forall_impl; [exact Hlt|]. subst s1. unfold saturating_add. simpl. lia. }
    specialize (IH s1 b' Hs Hn Hf1). pose proof (demotion_split_ge s1 b' l Hs Hn Hf1) as Hge.
    unfold bt_split_off in IH |- *. cbn [fst] in *. rewrite filter_cons. cbn [fst].
    case_decide as Hd; [simpl; by rewrite Ed|].
    assert (l = []) as ->; [|by eexists].
    destruct l as [|[k' t'] l]; [done|]. apply Forall_cons in Hn as [[_ Hk'] _]. apply Forall_cons in Hlt as [Hlt _].
    subst s1. unfold saturating_add, umax, uint in *. simpl in *. lia.
  - simpl in Hk0. unfold bt_split_off. cbn [fst]. rewrite filter_cons. cbn [fst]. rewrite decide_False by lia.
    pose proof (split_off_app s0 [] l (List.Forall_nil _) Hf) as E. injection E as E _. rewrite E. by eexists.
Qed.

(** Promotion only ever extends what is covered. *)
Lemma pend_keeps_covered N b t p p' k S R :
  container_add t (N (ttx_address t)) b p = Ok p' -> store_ok N p k S R ->
  covered (N (ttx_address t)) b (entries_of p (ttx_address t)) ->
  covered (N (ttx_address t)) b (entries_of p' (ttx_address t)).
Proof.
  intros Hadd [_ _ Hq _] [Hf Hd]. set (a := ttx_address t) in *.
  destruct (Hq a) as (_ & Hg & _).
  apply container_add_ok in Hadd as (Hn & Hkey & _ & _ & Hbal & He & _). fold a in Hkey, Hbal, He.
  pose proof (gapless_above_all _ _ _ Hg Hn Hkey) as Hlt. rewrite bt_insert_last in He by done.
  change (bool_decide (is_Some (deduct_all b ((txs (account_of p a)).*2 ++ [t]))) = true) in Hbal.
  apply bool_decide_eq_true in Hbal. rewrite txs_account_of in Hbal. unfold covered, keys in *.
  rewrite He, !fmap_app. split; [|done]. apply Forall_app. split; [done|]. by repeat constructor.
Qed.
Lemma promote_covered N b a D p k S R :
  Forall (fun t => uint 32 (ttx_nonce t) /\ ttx_address t = a) D ->
  store_ok N p k S (map tx_hash D ++ R) -> covered (N a) b (entries_of p a) ->
  let p' := (foldl (promote tx_hash (N a) b) (p, S) D).1 in
  covered (N a) b (entries_of p' a) /\ (forall a', a' <> a -> entries_of p' a' = entries_of p a').
Proof.
  revert p S. induction D as [|t D IH]; intros p S Hf Hs Hc; [done|].
  apply Forall_cons in Hf as [[Ht Ha] Hf]. cbn [foldl map app] in *. unfold promote at 2 4. cbn [fst snd].
  destruct (container_add t (N a) b p) as [p'|e] eqn:E.
  - subst a. pose proof (container_add_ok _ _ _ _ _ E) as (_ & _ & _ & _ & _ & _ & Hoth & _ & _).
    destruct (IH p' S Hf) as [IH1 IH2].
    + by apply (pend_keeps_store N _ _ _ _ _ _ _ _ E).
    + by apply (pend_keeps_covered N b t p p' k S (tx_hash t :: map tx_hash D ++ R)).
    + split; [done|]. intros a' Ha'. rewrite IH2 by done. by apply Hoth.
  - apply IH; [done| |done]. by apply store_untrack.
Qed.

Lemma find_demotables_covered a b p p' D :
  find_demotables a b p = (D, p') -> queue_ok a (entries_of p a) ->
  is_Some (deduct_all b (entries_of p' a).*2).
Proof.
  unfold find_demotables. intros E (Hs & Hn & _). change (pending_accounts p) with (accounts_in p) in E.
  unfold entries_of in Hs, Hn. destruct (accounts_in p !! a) as [t|] eqn:Ha.
  - unfold account_find_demotables in E. destruct (bt_split_off _ _) as [kept off] eqn:Esp. simplify_eq.
    rewrite entries_re_add, decide_True by done. change (txs (mk_pending kept)) with (kept, off).1.
    rewrite <- Esp. apply demotion_covered; [done|done|]. eapply Forall_impl; [exact Hn|]. by intros k [? _].
  - simplify_eq. unfold entries_of. rewrite Ha. by eexists.
Qed.

Lemma cleaned_pending N now (recost : bool) f p k S R a r p1 :
  clean_account_stale_expired now a (N a) p = (r, p1) -> store_ok N p k S R ->
  let p2 := if recost then recost_transactions f a p1 else p1 in
  store_ok N p2 k S (R ++ r.*1) /\ Forall (fun k => N a <= k) (keys (entries_of p2 a)) /\
  (forall a', a' <> a -> entries_of p2 a' = entries_of p a').
Proof.
  intros E Hst. destruct (clean_ok _ _ _ _ _ _ E (ok_pending_ne _ _ _ _ _ Hst)) as (_ & _ & Hf & He).
  assert (Forall (fun k => N a <= k) (keys (entries_of p1 a))) as Hge.
  { destruct He as [->| ->]; [|done]. apply Forall_forall. intros x Hx.
    by apply split_keys_above in Hx as [_ ?]. }
  apply (clean_pending _ _ _ _ _ _ _ _ _ E) in Hst. destruct recost; [|done]. simpl.
  destruct (recost_ok f a p1 (ok_pending_ne _ _ _ _ _ Hst)) as (_ & _ & Hsame & Hoth).
  split; [by apply recost_keeps|]. split.
  - destruct (ok_queues _ _ _ _ _ Hst a) as (K1 & _). by destruct (queue_ok_same a _ _ K1 (Hsame a)) as [_ ->].
  - intros a' Ha'. by rewrite Hoth, Hf.
Qed.
Lemma cleaned_parked N n now (recost : bool) f p k S R a r k1 :
  clean_account_stale_expired now a n k = (r, k1) -> store_ok N p k S R ->
  store_ok N p (if recost then recost_transactions f a k1 else k1) S (R ++ r.*1).
Proof.
  intros E Hst. apply (clean_parked _ _ _ _ _ _ _ _ _ _ E) in Hst.
  destruct recost; [by apply recost_keeps|done].
Qed.
Lemma demoted_pending N b p k S R a D p' :
  find_demotables a b p = (D, p') -> store_ok N p k S R ->
  Forall (fun k => N a <= k) (keys (entries_of p a)) ->
  covered (N a) b (entries_of p' a) /\ (forall a', a' <> a -> entries_of p' a' = entries_of p a').
Proof.
  intros E Hst Hge.
  destruct (find_demotables_ok _ _ _ _ _ E (ok_pending_ne _ _ _ _ _ Hst)) as (_ & _ & Hoth & sp & Esp & _).
  split; [|done]. split; [|by apply (find_demotables_covered _ _ _ _ _ E), Hst].
  assert (entries_of p' a = (bt_split_off sp (entries_of p a)).1) as -> by (by rewrite Esp).
  apply Forall_forall. intros x Hx. apply split_keys_below in Hx as [Hx _].
  rewrite Forall_forall in Hge. by apply Hge.
Qed.

Lemma maintain_account_ok N now s recost st a :
  N a = default 0 (nonces (accounts s) !! a) -> maintained_ok N st ->
  let st' := maintain_account now s recost st a in
  maintained_ok N st' /\
  covered (N a) (get_account_balances s a) (entries_of (m_pending st') a) /\
  (forall a', a' <> a -> entries_of (m_pending st') a' = entries_of (m_pending st) a').
Proof.
  intros Hn Hst. unfold maintain_account, maintained_ok in *. rewrite <- Hn.
  destruct (clean_account_stale_expired _ _ _ (m_pending st)) as [r1 p1] eqn:E1.
  destruct (cleaned_pending N now recost (recost_in s) _ _ _ _ a _ _ E1 Hst) as (Hp2 & Hge & Hf2).
  set (p2 := if recost then _ else p1) in *.
  destruct (clean_account_stale_expired _ _ _ (m_parked st)) as [r2 k1] eqn:E2.
  apply (cleaned_parked _ _ _ recost (recost_in s) _ _ _ _ _ _ _ E2) in Hp2.
  set (k2 := if recost then _ else k1) in *.
  rewrite <- app_assoc, <- !fmap_app in Hp2.
  destruct (find_demotables _ _ p2) as [D p3] eqn:E3.
  destruct (find_demotables_keeps _ _ _ _ _ _ _ _ _ E3 Hp2) as [Hp3 HD].
  destruct (demoted_pending _ _ _ _ _ _ _ _ _ E3 Hp2 Hge) as [Hc3 Hf3].
  destruct D as [|t D].
  - destruct (find_promotables _ _ _ k2) as [P k3] eqn:E4.
    destruct (find_promotables_parked _ _ _ _ _ _ _ _ _ _ E4 Hp3) as [Hk3 HP].
    destruct (promote_covered N _ a P p3 k3 _ _ HP Hk3 Hc3) as [Hc4 Hf4].
    apply (promote_keeps N (N a) (get_account_balances s a)) in Hk3;
      [|eapply Forall_impl; [exact HP|]; by intros t [? ->]].
    destruct (foldl _ _ P) as [p4 S4]. split; [done|]. split; [done|].
    intros a' Ha'. simpl in *. by rewrite Hf4, Hf3, Hf2.
  - apply (demote_all N (N a) (get_account_balances s a)) in Hp3; [|done].
    destruct (foldl _ _ (t :: D)). split; [done|]. split; [done|]. intros a' Ha'. simpl. by rewrite Hf3, Hf2.
Qed.

Lemma maintain_all_keeps N now s recost l st :
  (forall a, N a = default 0 (nonces (accounts s) !! a)) -> maintained_ok N st ->
  (forall a, (a ∉ l) -> covered (N a) (get_account_balances s a) (entries_of (m_pending st) a)) ->
  let st' := foldl (maintain_account now s recost) st l in
  maintained_ok N st' /\
  forall a, covered (N a) (get_account_balances s a) (entries_of (m_pending st') a).
Proof.
  intros Hn. revert st. induction l as [|a l IH]; intros st Hst Hc.
  - split; [done|]. intros a. apply Hc, not_elem_of_nil.
  - destruct (maintain_account_ok N now s recost st a (Hn a) Hst) as (Hst1 & Ha & Hf).
    apply IH; [done|]. intros b Hb.
    destruct (decide (b = a)) as [->|Hba]; [done|]. rewrite Hf by done. apply Hc. by apply not_elem_of_cons.
Qed.
Lemma maintenance_keeps N now s recost m :
  mem_ok N m -> (forall a, N a <= default 0 (nonces (accounts s) !! a)) ->
  exists m', run_maintenance now s recost m = Val m' /\
    mem_ok (fun a => default 0 (nonces (accounts s) !! a)) m' /\
    forall a, ready s a (entries_of (pending m') a).
Proof.
  intros [Hs Hc] Hn. unfold run_maintenance. set (N' := fun a => default 0 _) in *.
  set (l := elements _). set (st := foldl _ _ l).
  assert (maintained_ok N' st /\ forall a, covered (N' a) (get_account_balances s a) (entries_of (m_pending st) a)) as [Hst Hr].
  { apply maintain_all_keeps; [done|by apply (store_mono N)|]. intros a Ha. simpl.
    assert (entries_of (pending m) a = []) as ->; [|by split; [constructor|eexists]].
    subst l. rewrite elem_of_elements, elem_of_union in Ha. unfold entries_of.
    change (accounts_in (pending m)) with (pending_accounts (pending m)).
    destruct (pending_accounts (pending m) !! a) eqn:E; [|done]. destruct Ha. left.
    by apply elem_of_dom. }
  pose proof Hst as Hst1. unfold maintained_ok in Hst. rewrite <- (app_nil_r (m_removed st).*1) in Hst.
  destruct (untrack_ok _ _ _ _ _ _ _ Hc Hst) as (c' & S' & -> & Hc' & Hs'). eexists. split; [done|].
  split; [done|]. intros a. destruct (Hr a) as [Hf Hd]. destruct (ok_queues _ _ _ _ _ Hs' a) as ((Ks & _) & Hg & _).
  split; [|done]. by apply gapless_consecutive.
Qed.
End MempoolOk.
