(* ===== verification/MempoolTheorems.v ===== *)
(** * Correctness of the mempool

    The mempool as a state machine, the invariant of every mempool it reaches,
    what its operations do, and the order of the builder's queue. *)
From S2P Require Import Prelude Denom Types State Chain Accounts Relay Transact Ics20 BTree Mempool.
From S2P Require Import MempoolLemmas MempoolInvariant MempoolMaintenance Demo.
From stdpp Require Import base list option strings gmap fin_maps sorting relations.
From Stdlib Require Import ZArith Lia String.
Open Scope Z_scope.

Section Machine.
Context `{External, Relay}.

Definition nonce_in (s : State) (a : address_bytes) : Z := default 0 (nonces (accounts s) !! a).

(** The latest state of the chain, and the mempool. *)
Inductive mempool_step : State * Mempool -> State * Mempool -> Prop :=
| step_commit s s' m :
    (forall a, nonce_in s a <= nonce_in s' a) -> mempool_step (s, m) (s', m)
| step_insert s m now tx balances costs r m' :
    is_tracked (tx_id tx) m = false -> 0 <= tx_nonce tx < umax 32 ->
    Mempool.insert now tx (nonce_in s (tx_address_bytes tx)) balances costs m = Val (r, m') ->
    mempool_step (s, m) (s, m')
| step_remove s m tx reason m' :
    remove_tx_invalid tx reason m = Val m' -> mempool_step (s, m) (s, m')
| step_check_removed s m h :
    mempool_step (s, m) (s, (check_removed_comet_bft h m).2)
| step_maintain s m now recost m' :
    run_maintenance now s recost m = Val m' -> mempool_step (s, m) (s, m').

Definition mempool_reached (s : State) (m : Mempool) : Prop :=
  exists s0 n, rtc mempool_step (s0, mempool_new n) (s, m).

(** ** Lemmas *)
Lemma mem_ok_mono N N' m : (forall a, N a <= N' a) -> mem_ok N m -> mem_ok N' m.
Proof. intros Hn [Hs Hc]. split; [by apply (store_mono N)|done]. Qed.
Lemma step_keeps x y : mempool_step x y -> mem_ok (nonce_in x.1) x.2 -> mem_ok (nonce_in y.1) y.2.
Proof.
  destruct 1 as [s s' m Hn|s m now tx b c r m' Htr Hn E|s m tx reason m' E|s m h|s m now recost m' E]; simpl; intros Hok.
  - by apply (mem_ok_mono (nonce_in s)).
  - destruct (insert_keeps _ m now tx b c Hok Hn Htr) as (r' & m'' & E' & Hok' & _). rewrite E in E'. injection E' as -> ->. exact Hok'.
  - destruct (remove_keeps _ m tx reason Hok) as (m'' & E' & Hok' & _). rewrite E in E'. by injection E' as ->.
  - destruct Hok as [Hs Hc]. split; [done|]. by apply cache_remove_ok.
  - destruct (maintenance_keeps _ now s recost m Hok) as (m'' & E' & Hok' & _); [done|]. rewrite E in E'. by injection E' as ->.
Qed.
Lemma reached_ok s m : mempool_reached s m -> mem_ok (nonce_in s) m.
Proof.
  intros (s0 & n & Hr). change (mem_ok (nonce_in (s, m).1) (s, m).2).
  revert Hr. generalize (s, m) as y. apply rtc_ind_r; [apply mempool_new_ok|].
  intros y z _ Hstep IH. by apply (step_keeps y z).
Qed.

(** *** The builder's queue *)
Lemma priority_cmp_le a b :
  priority_cmp a b <> Gt <->
  group_discriminant (prio_group a) < group_discriminant (prio_group b) \/
  (group_discriminant (prio_group a) = group_discriminant (prio_group b) /\
   (nonce_diff b < nonce_diff a \/ (nonce_diff a = nonce_diff b /\ prio_time b <= prio_time a))).
Proof.
  unfold priority_cmp, group_cmp.
  destruct (Z.compare_spec (group_discriminant (prio_group a)) (group_discriminant (prio_group b)));
    [|split; intros; solve [done|lia|exfalso; lia]..].
  destruct (Z.compare_spec (nonce_diff a) (nonce_diff b)); simpl;
    [|split; intros; solve [done|lia|exfalso; lia]..].
  destruct (Z.compare_spec (prio_time a) (prio_time b)); simpl; split; intros; solve [done|lia|exfalso; lia].
Qed.
#[export] Instance entry_le_total : Total entry_le.
Proof. intros a b. unfold entry_le. rewrite !priority_cmp_le. lia. Qed.
#[export] Instance entry_le_trans : Transitive entry_le.
Proof. intros a b c. unfold entry_le. rewrite !priority_cmp_le. lia. Qed.

Lemma sorted_rev_lookup {A} (R : A -> A -> Prop) l :
  StronglySorted R l -> forall i j x y, (i < j)%nat -> rev l !! i = Some x -> rev l !! j = Some y -> R y x.
Proof.
  induction 1 as [|a l _ IH Hf]; intros i j x y Hij; [done|]. simpl. intros Hx Hy.
  assert (j < List.length (rev l ++ [a]))%nat as Hj by (by eapply lookup_lt_Some).
  rewrite length_app in Hj. simpl in Hj.
  rewrite lookup_app_l in Hx by lia.
  destruct (decide (j < List.length (rev l))%nat) as [Hj'|Hj'].
  - rewrite lookup_app_l in Hy by done. by apply (IH i j).
  - rewrite lookup_app_r in Hy by lia. replace (j - List.length (rev l))%nat with 0%nat in Hy by lia.
    injection Hy as <-. rewrite Forall_forall in Hf. apply Hf.
    apply list_elem_of_lookup_2 in Hx. rewrite list_elem_of_In, <- in_rev in Hx. by apply list_elem_of_In.
Qed.

(** An entry of the queue and the transaction it stands for. *)
Definition entry_for (n : Z) (t : TimemarkedTransaction) : QueueEntry :=
  mk_entry (signed_tx t) (tx_hash t)
    (mk_priority (ttx_nonce t - n) (time_first_seen t) (transaction_group (signed_tx t))).
Lemma queue_entries_all a t :
  queue_ok a (pending_txs t) ->
  queue_entries t = map (entry_for (default 0 (current_account_nonce t))) (pending_txs t).*2.
Proof.
  intros (Hs & _ & Hf). unfold queue_entries, current_account_nonce.
  destruct (pending_txs t) as [|[k t0] l]; [done|]. simpl.
  apply sorted_keys_cons in Hs as [_ Hlt]. apply Forall_cons in Hf as [[Ek _] Hf]. simpl in Ek.
  unfold priority at 1. rewrite (proj2 (checked_sub_Some (ttx_nonce t0) k _)) by (split; [done|lia]).
  simpl. f_equal. clear Ek t0. unfold keys in Hlt. rewrite Forall_fmap in Hlt.
  induction l as [|[k' t'] l IH]; [done|]. simpl.
  apply Forall_cons in Hlt as [Hk Hlt]. apply Forall_cons in Hf as [[Ek _] Hf]. simpl in Hk, Ek.
  unfold priority at 1. rewrite (proj2 (checked_sub_Some (ttx_nonce t') k _)) by (split; [done|lia]).
  simpl. f_equal. by apply IH.
Qed.

Definition all_entries (c : PendingTransactions) : list QueueEntry :=
  (map_to_list (pending_accounts c)).*2 ≫= queue_entries.
Lemma all_entries_hashes c :
  (forall a, queue_ok a (entries_of c a)) -> map entry_hash (all_entries c) = hashes c.
Proof.
  intros Hq. unfold all_entries, hashes, map_hashes. change (accounts_in c) with (pending_accounts c).
  assert (Forall (fun at_ => queue_ok at_.1 (pending_txs at_.2)) (map_to_list (pending_accounts c))) as Hf.
  { apply Forall_forall. intros [a t] Ha%elem_of_map_to_list. specialize (Hq a). unfold entries_of in Hq.
    change (accounts_in c) with (pending_accounts c) in Hq. by rewrite Ha in Hq. }
  induction Hf as [|[a t] l Ht _ IH]; [done|]. rewrite fmap_cons, !bind_cons, map_app, IH. f_equal. cbn [fst snd] in *.
  rewrite (queue_entries_all a t Ht), map_map. unfold entry_hashes. done.
Qed.
Lemma all_entries_for c e :
  (forall a, queue_ok a (entries_of c a)) -> e ∈ all_entries c ->
  exists a t n, e = entry_for n t /\ ttx_address t = a /\ ((ttx_nonce t, t) ∈ entries_of c a) /\
    n = default 0 (fst <$> head (entries_of c a)).
Proof.
  intros Hq He. apply list_elem_of_bind in He as (x & He & Hx).
  apply list_elem_of_fmap in Hx as ([a pt] & -> & Ha%elem_of_map_to_list). simpl in He.
  specialize (Hq a). unfold entries_of in Hq. change (accounts_in c) with (pending_accounts c) in Hq.
  rewrite Ha in Hq. change (txs pt) with (pending_txs pt) in Hq. rewrite (queue_entries_all a pt Hq) in He.
  apply list_elem_of_fmap in He as (t & -> & Ht). apply list_elem_of_fmap in Ht as ([k t'] & -> & Ht).
  destruct Hq as (_ & _ & Hf). rewrite Forall_forall in Hf. destruct (Hf _ Ht) as [Ek Ea]. simpl in Ek, Ea.
  exists a, t', (default 0 (current_account_nonce pt)). unfold entries_of. change (accounts_in c) with (pending_accounts c).
  rewrite Ha. subst k. done.
Qed.
End Machine.

(** ** A concrete mempool *)
Definition pool_tx (id : string) (signer : address_bytes) (nonce : Z) : Transaction :=
  mk_transaction id signer "astria-1" nonce
    [Action_Transfer (mk_transfer (on_chain bob) 1 nria_denom nria_denom)] id.
Definition owning (b : Z) : Costs := {[ nria_id := b ]}.

Fixpoint insert_all (s : State) (b c : Costs) (l : list Transaction) (m : Mempool) : option Mempool :=
  match l with
  | [] => Some m
  | tx :: l' =>
      if negb (is_tracked (tx_id tx) m) && (0 <=? tx_nonce tx) && (tx_nonce tx <? umax 32) then
        match Mempool.insert 0 tx (nonce_in s (tx_address_bytes tx)) b c m with
        | Val (_, m') => insert_all s b c l' m'
        | _ => None
        end
      else None
  end.
Lemma insert_all_reached s b c l m m' :
  insert_all s b c l m = Some m' -> rtc mempool_step (s, m) (s, m').
Proof.
  revert m. induction l as [|tx l IH]; intros m; simpl; [by intros [= ->]|].
  destruct (is_tracked (tx_id tx) m) eqn:Ht; [done|]. simpl.
  destruct (Z.leb_spec 0 (tx_nonce tx)), (Z.ltb_spec (tx_nonce tx) (umax 32)); simpl; try done.
  destruct (Mempool.insert _ _ _ _ _ _) as [[r m1]| |] eqn:E; try done. intros Hr.
  eapply rtc_l; [by eapply (step_insert s m 0 tx b c r m1)|by apply IH].
Qed.

(** Sixteen transactions of Alice, all pending, and a chain where she has nothing. *)
Definition sixteen : list Transaction :=
  map (fun n => pool_tx (String.String (Ascii.ascii_of_nat (97 + n)) "") alice (Z.of_nat n)) (seq 0 16).
Definition full_pool : Mempool :=
  default (mempool_new 100) (insert_all empty_state (owning 100) (owning 1) sixteen (mempool_new 100)).
Lemma default_reached (o : option Mempool) (m : Mempool) :
  match o with Some _ => true | None => false end = true -> o = Some (default m o).
Proof. by destruct o. Qed.
Lemma full_pool_reached : mempool_reached empty_state full_pool.
Proof.
  exists empty_state, 100. apply (insert_all_reached _ (owning 100) (owning 1) sixteen), default_reached.
  vm_compute. reflexivity.
Qed.

(** ** Theorems *)
Section Theorems.
Context `{External, Relay}.

(** C40. C. Every mempool that is reached by the mempool's operations, one after the
    other, and by commits that only raise nonces is well formed, where what is
    inserted is not tracked yet and comes with the current nonce of its account: the
    queues are sorted, hold transactions of their account only, and the pending ones
    have no gap above the account's nonce; no transaction is held twice; what is
    tracked as contained is exactly what the queues hold; at most 15 transactions of
    an account are parked; and the removal cache is within its size. (Requests that
    look and insert at different times escape it, see
    [AppDemo.racing_requests_hold_twice].) *)
Theorem mempool_invariant (s : State) (m : Mempool) :
  mempool_reached s m -> mem_ok (nonce_in s) m.
Proof. apply reached_ok. Qed.

(** C31. C. The insertion into a reached mempool of a transaction that it does not hold,
    with a nonce below the maximum, returns; on an error nothing changes, else the
    transaction is held and every transaction held before still is: none of the
    promotions it causes fails. *)
Theorem insertion_loses_nothing (s : State) (m : Mempool) (now : Z) (tx : Transaction)
    (balances costs : Costs) :
  mempool_reached s m -> is_tracked (tx_id tx) m = false -> 0 <= tx_nonce tx < umax 32 ->
  exists r m', Mempool.insert now tx (nonce_in s (tx_address_bytes tx)) balances costs m = Val (r, m') /\
    match r with
    | Ok _ => hashes (pending m') ++ hashes (parked m') ≡ₚ tx_id tx :: hashes (pending m) ++ hashes (parked m)
    | Err _ => m' = m
    end.
Proof.
  intros Hr Htr Hn. apply reached_ok in Hr.
  destruct (insert_keeps _ m now tx balances costs Hr Hn Htr) as (r & m' & E & Hok & Hres).
  exists r, m'. split; [done|]. destruct r; [|done].
  destruct Hr as [[_ _ _ [Hnd Hs]] _], Hok as [[_ _ _ [Hnd' Hs']] _]. rewrite !app_nil_r in *.
  apply bool_decide_eq_false in Htr. rewrite Hs, elem_of_list_to_set in Htr.
  apply NoDup_Permutation; [done|by constructor|]. intros h.
  assert (h ∈ contained_txs m' <-> h ∈ contained_txs m ∪ {[tx_id tx]}) as Hh by (by rewrite Hres).
  rewrite Hs, Hs', elem_of_union, elem_of_singleton, !elem_of_list_to_set in Hh. rewrite elem_of_cons. tauto.
Qed.

(** The removal of an invalid transaction returns, and leaves of its account's
    queues what does not depend on it: the pending transactions with lower nonces
    and nothing parked if it was pending, the parked ones with lower nonces if it
    was parked. *)
Theorem removal_takes_dependents (s : State) (m : Mempool) (tx : Transaction) (reason : RemovalReason) :
  mempool_reached s m ->
  exists m', remove_tx_invalid tx reason m = Val m' /\ left_by_removal tx m m'.
Proof.
  intros Hr%reached_ok. destruct (remove_keeps _ m tx reason Hr) as (m' & E & _ & Hl). by exists m'.
Qed.

(** C29. Maintenance returns, and after it the pending transactions of every account
    are ready to be executed in order: their nonces count up from the account's
    nonce, and its balances cover the costs of all of them together. *)
Theorem maintenance_leaves_ready (s : State) (m : Mempool) (now : Z) (recost : bool) :
  mempool_reached s m ->
  exists m', run_maintenance now s recost m = Val m' /\
    forall a, ready s a (entries_of (pending m') a).
Proof.
  intros Hr%reached_ok. destruct (maintenance_keeps _ now s recost m Hr) as (m' & E & _ & Hl); [done|].
  by exists m'.
Qed.

(** The builder's queue holds each pending transaction once; of two transactions
    the earlier is of a group that comes first or of the same one, and of two of
    the same account and group the earlier has the lower nonce. *)
Theorem builder_queue_order (s : State) (m : Mempool) :
  mempool_reached s m ->
  ((mempool_builder_queue m).*1 ≡ₚ hashes (pending m)) /\
  forall i j h1 t1 h2 t2, (i < j)%nat ->
    mempool_builder_queue m !! i = Some (h1, t1) -> mempool_builder_queue m !! j = Some (h2, t2) ->
    h1 = tx_id t1 /\
    group_discriminant (transaction_group t2) <= group_discriminant (transaction_group t1) /\
    (transaction_group t1 = transaction_group t2 -> tx_address_bytes t1 = tx_address_bytes t2 ->
     tx_nonce t1 < tx_nonce t2).
Proof.
  intros Hr%reached_ok. destruct Hr as [[_ _ Hq [Hnd _]] _].
  assert (forall a, queue_ok a (entries_of (pending m) a)) as Hqs by (intros a; apply Hq).
  unfold mempool_builder_queue, builder_queue. fold (all_entries (pending m)).
  set (l := merge_sort entry_le (all_entries (pending m))).
  assert (l ≡ₚ all_entries (pending m)) as Hperm by apply merge_sort_Permutation.
  assert ((map (fun e => (entry_hash e, entry_tx e)) (rev l)).*1 ≡ₚ hashes (pending m)) as Hh.
  { rewrite <- (all_entries_hashes _ Hqs), <- Hperm. clear.
    assert (forall q, (map (fun e => (entry_hash e, entry_tx e)) q).*1 = map entry_hash q) as ->;
      [|apply Permutation_map; symmetry; apply Permutation_rev].
    intros q. induction q as [|e q IH]; [done|]. simpl. f_equal. exact IH. }
  split; [exact Hh|]. intros i j h1 t1 h2 t2 Hij Hi Hj.
  assert (i <> j) as Hne by lia. assert (h1 <> h2) as Hh12.
  { intros ->. apply Hne. assert (NoDup (map (fun e => (entry_hash e, entry_tx e)) (rev l)).*1) as Hnd1
      by (rewrite Hh; rewrite !NoDup_app in Hnd; apply Hnd).
    apply (NoDup_lookup _ i j h2 Hnd1); rewrite list_lookup_fmap; [by rewrite Hi|by rewrite Hj]. }
  rewrite list_lookup_fmap in Hi, Hj. apply fmap_Some in Hi as (e1 & Hi & [= -> ->]), Hj as (e2 & Hj & [= -> ->]).
  pose proof (sorted_rev_lookup entry_le l (StronglySorted_merge_sort _ _) _ _ _ _ Hij Hi Hj) as Hle.
  unfold entry_le in Hle. apply priority_cmp_le in Hle.
  assert (forall i e, rev l !! i = Some e -> e ∈ all_entries (pending m)) as Hin.
  { intros i' e He. rewrite <- Hperm, (Permutation_rev l). by eapply list_elem_of_lookup_2. }
  destruct (all_entries_for _ e1 Hqs (Hin _ _ Hi)) as (a1 & x1 & n1 & -> & Ea1 & Hx1 & En1).
  destruct (all_entries_for _ e2 Hqs (Hin _ _ Hj)) as (a2 & x2 & n2 & -> & Ea2 & Hx2 & En2).
  simpl in *. split; [done|]. split; [lia|]. intros Hg Ha.
  change (tx_address_bytes (signed_tx x1)) with (ttx_address x1) in Ha.
  change (tx_address_bytes (signed_tx x2)) with (ttx_address x2) in Ha.
  rewrite Ea1, Ea2 in Ha. rewrite Ha in *. assert (n1 = n2) as -> by congruence. rewrite Hg in Hle.
  destruct (Z.eq_dec (ttx_nonce x1) (ttx_nonce x2)) as [Heq|]; [|unfold ttx_nonce in *; lia].
  destruct Hh12. rewrite Heq in Hx1.
  destruct (Hqs a2) as (Hs & _). by rewrite (sorted_keys_inj _ _ _ _ Hs Hx1 Hx2).
Qed.
End Theorems.

Lemma mempool_invariant_witness : mem_ok (nonce_in empty_state) full_pool.
Proof. exact (mempool_invariant _ _ full_pool_reached). Defined.

Lemma insertion_loses_nothing_witness :
  exists r m', Mempool.insert 5 (pool_tx "new" alice 16) 0 (owning 100) (owning 1) full_pool = Val (r, m') /\
    match r with
    | Ok _ => hashes (pending m') ++ hashes (parked m')
              ≡ₚ "new"%string :: hashes (pending full_pool) ++ hashes (parked full_pool)
    | Err _ => m' = full_pool
    end.
Proof.
  apply (insertion_loses_nothing empty_state full_pool 5 (pool_tx "new" alice 16) (owning 100) (owning 1)
           full_pool_reached); [vm_compute; reflexivity|split; vm_compute; [discriminate|reflexivity]].
Defined.

Lemma removal_takes_dependents_witness :
  exists m', remove_tx_invalid (pool_tx "d" alice 3) Expired full_pool = Val m' /\
    left_by_removal (pool_tx "d" alice 3) full_pool m'.
Proof. exact (removal_takes_dependents _ _ (pool_tx "d" alice 3) Expired full_pool_reached). Defined.

Lemma maintenance_leaves_ready_witness :
  exists m', run_maintenance 7 empty_state false full_pool = Val m' /\
    forall a, ready empty_state a (entries_of (pending m') a).
Proof. exact (maintenance_leaves_ready _ _ 7 false full_pool_reached). Defined.

Lemma builder_queue_order_witness :
  ((mempool_builder_queue full_pool).*1 ≡ₚ hashes (pending full_pool)) /\
  forall i j h1 t1 h2 t2, (i < j)%nat ->
    mempool_builder_queue full_pool !! i = Some (h1, t1) -> mempool_builder_queue full_pool !! j = Some (h2, t2) ->
    h1 = tx_id t1 /\
    group_discriminant (transaction_group t2) <= group_discriminant (transaction_group t1) /\
    (transaction_group t1 = transaction_group t2 -> tx_address_bytes t1 = tx_address_bytes t2 ->
     tx_nonce t1 < tx_nonce t2).
Proof. exact (builder_queue_order _ _ full_pool_reached). Defined.

(** When an account's balance falls, maintenance demotes its transactions, and
    those that the parked queue has no room for are dropped: the last of sixteen
    is no longer tracked, and the removal cache does not know of it, so that it
    is not taken out of CometBFT's mempool. *)
Theorem demotion_drops_silently :
  is_tracked "p" full_pool = true /\
  match run_maintenance 7 empty_state false full_pool with
  | Val m' => is_tracked "o" m' = true /\ is_tracked "p" m' = false /\
              (check_removed_comet_bft "p" m').1 = None
  | _ => False
  end.
Proof. split; [vm_compute; reflexivity|]. vm_compute. repeat split. Qed.

(** The queue that bounds the removal cache keeps the hashes that were taken out
    of the cache: a cache of two that holds one transaction forgets it when
    another one is added, if the first had been cached and taken out before. *)
Theorem removal_cache_forgets_early (a b : Hash) (r : RemovalReason) :
  a <> b ->
  exists c1 c2 c3,
    cache_add a r (mk_cache ∅ [] 2) = Val c1 /\
    cache_add a r (cache_remove a c1).2 = Val c2 /\
    (size (cache c2) = 1%nat /\ max_size c2 = 2 /\ (cache_remove a c2).1 = Some r) /\
    cache_add b r c2 = Val c3 /\ (cache_remove a c3).1 = None.
Proof.
  intros Hab. eexists _, _, _. split; [reflexivity|].
  assert (cache_add a r (mk_cache (delete a {[a := r]}) [a] 2) = Val (mk_cache {[a := r]} [a; a] 2)) as E2.
  { unfold cache_add. cbn [cache remove_queue max_size]. rewrite lookup_delete_eq.
    change (Z.of_nat (List.length [a]) =? 2) with false. cbn [mbind run_bind]. by rewrite insert_delete_eq, insert_singleton_eq. }
  split; [exact E2|]. split.
  { split; [exact (map_size_singleton a r)|]. split; [done|]. exact (lookup_singleton_eq a r). }
  assert (cache_add b r (mk_cache {[a := r]} [a; a] 2) = Val (mk_cache {[b := r]} [a; b] 2)) as E3.
  { unfold cache_add. cbn [cache remove_queue max_size]. rewrite lookup_singleton_ne by done.
    change (Z.of_nat (List.length [a; a]) =? 2) with true. cbn [mbind run_bind]. by rewrite delete_singleton_eq. }
  split; [exact E3|]. simpl. by apply lookup_singleton_ne.
Qed.
Lemma removal_cache_forgets_early_witness :
  exists c1 c2 c3,
    cache_add "a"%string Expired (mk_cache ∅ [] 2) = Val c1 /\
    cache_add "a"%string Expired (cache_remove "a"%string c1).2 = Val c2 /\
    (size (cache c2) = 1%nat /\ max_size c2 = 2 /\ (cache_remove "a"%string c2).1 = Some Expired) /\
    cache_add "b"%string Expired c2 = Val c3 /\ (cache_remove "a"%string c3).1 = None.
Proof. apply (removal_cache_forgets_early "a" "b" Expired). discriminate. Defined.
