(* ===== verification/MerkleIndex.v ===== *)
(** * Index arithmetic of the flat in-order Merkle tree

    Models the free functions of [crates/astria-merkle/src/lib.rs] that
    compute with node indices: leaves sit at even indices, branches at odd
    ones. A [usize] is a 64-bit [Z]; a failed [unwrap] or [assert!] is
    [Panic]. *)
From stdpp Require Import base list option numbers tactics.
From Stdlib Require Import ZArith Lia.
From S2P Require Import Prelude.

Open Scope Z_scope.

(** ** The code *)

(** [!x] on a [usize] *)
Definition usize_not (x : Z) : Z := Z.lxor x (umax 64).

(** [x << 1] on a [usize] *)
Definition usize_shl1 (x : Z) : Z := Z.shiftl x 1 mod 2 ^ 64.

(** [usize::next_power_of_two], which wraps to zero when it overflows *)
Definition next_power_of_two (x : Z) : Z :=
  (if x <=? 1 then 1 else 2 ^ Z.log2_up x) mod 2 ^ 64.

Definition leaf_index_to_tree_index (j : Z) : run Z := unwrap (checked_mul 64 j 2).

Definition last_set_bit (x : Z) : run Z :=
  x_minus_one ← unwrap (checked_sub x 1);
  unwrap (checked_sub x (Z.land x_minus_one x)).

Definition last_zero_bit (x : Z) : run Z :=
  y ← unwrap (checked_add 64 x 1);
  last_set_bit y.

Definition is_branch (i : Z) : bool := Z.land i 1 =? 1.

Definition is_perfect (n : Z) : bool :=
  (n =? 1) || (next_power_of_two n =? wrapping_add 64 n 1).

Definition perfect_parent (i : Z) : run Z :=
  zero ← last_zero_bit i;
  mret (Z.land (Z.lor zero i) (usize_not (usize_shl1 zero))).

Definition perfect_left_child (p : Z) : run Z :=
  _ ← assert_that (is_branch p);
  zero ← last_zero_bit p;
  mret (Z.land p (usize_not (Z.shiftr zero 1))).

Definition perfect_right_child (p : Z) : run Z :=
  _ ← assert_that (is_branch p);
  zero ← last_zero_bit p;
  mret (Z.land (Z.lor p zero) (usize_not (Z.shiftr zero 1))).

Definition perfect_root (n : Z) : run Z :=
  _ ← assert_that (is_perfect n);
  mret (Z.shiftr n 1).

Definition complete_root (n : Z) : run Z :=
  perfect_root (saturating_sub (next_power_of_two (wrapping_add 64 n 1)) 1).

(** The [loop] of [complete_parent]. Every turn moves one level up, and a
    level is at most 64, so 66 turns are enough ([complete_parent_fuel]). *)
Fixpoint complete_parent_loop (fuel : nat) (i n : Z) : run Z :=
  match fuel with
  | O => NoFuel
  | S fuel =>
      i' ← perfect_parent i;
      if i' <? n then mret i' else complete_parent_loop fuel i' n
  end.

Definition complete_parent (i n : Z) : run Z := complete_parent_loop 66 i n.

Definition complete_left_child (p : Z) : run Z := perfect_left_child p.

Definition complete_right_child (i n : Z) : run Z :=
  _ ← assert_that (is_branch i);
  _ ← assert_that (i <? n);
  right_child ← perfect_right_child i;
  if right_child <? n then mret right_child
  else
    i_plus_one ← unwrap (checked_add 64 i 1);
    rest ← unwrap (checked_sub n i_plus_one);
    root ← complete_root rest;
    unwrap (checked_add 64 i_plus_one root).

Definition complete_parent_and_sibling (i n : Z) : run (Z * Z) :=
  _ ← assert_that (i <? n);
  p ← complete_parent i n;
  s ← (if i <? p then complete_right_child p n else complete_left_child p);
  mret (p, s).

Definition is_tree_index_in_tree (i n : Z) : bool := i <? n.

Definition is_leaf_index_in_tree (i n : Z) : run bool :=
  j ← leaf_index_to_tree_index i;
  mret (is_tree_index_in_tree j n).

(** ** Nodes by level and position

    [node d m] is the index of the [m]-th node of level [d] (leaves are
    level 0) of the infinite perfect tree. *)
Definition node (d m : Z) : Z := 2 ^ d - 1 + m * 2 ^ (d + 1).

Example parent_4_of_11 : complete_parent 8 11 = Val 9.
Proof. reflexivity. Qed.
Example parent_10 : complete_parent 10 11 = Val 9.
Proof. reflexivity. Qed.
Example parent_12 : complete_parent 12 13 = Val 11.
Proof. reflexivity. Qed.
Example root_13 : complete_root 13 = Val 7.
Proof. reflexivity. Qed.
Example parent_of_root : complete_parent 7 13 = Panic.
Proof. reflexivity. Qed.

(** ** Bit arithmetic on numbers split at a power of two *)
Section bits.
Implicit Types a b d k : Z.

Lemma testbit_split a b d k :
  0 <= d -> 0 <= b < 2 ^ d -> 0 <= k ->
  Z.testbit (a * 2 ^ d + b) k = if k <? d then Z.testbit b k else Z.testbit a (k - d).
Proof.
  intros Hd Hb Hk. destruct (Z.ltb_spec k d).
  - rewrite <- (Z.mod_pow2_bits_low (a * 2 ^ d + b) d k) by lia.
    rewrite Z.add_comm, Z.mod_add, Z.mod_small by lia. reflexivity.
  - replace k with (k - d + d) at 1 by lia.
    rewrite <- Z.div_pow2_bits by lia.
    rewrite Z.add_comm, Z.div_add, Z.div_small by lia. reflexivity.
Qed.

Lemma bitop_split (f : bool -> bool -> bool) (op : Z -> Z -> Z) a b a' b' d :
  (forall x y k, Z.testbit (op x y) k = f (Z.testbit x k) (Z.testbit y k)) ->
  0 <= d -> 0 <= b < 2 ^ d -> 0 <= b' < 2 ^ d -> 0 <= op b b' < 2 ^ d ->
  op (a * 2 ^ d + b) (a' * 2 ^ d + b') = op a a' * 2 ^ d + op b b'.
Proof.
  intros Hop Hd Hb Hb' Hbb. apply Z.bits_inj'. intros k Hk.
  rewrite Hop, !testbit_split by lia. case_match; rewrite Hop; reflexivity.
Qed.

Lemma land_split a b a' b' d :
  0 <= d -> 0 <= b < 2 ^ d -> 0 <= b' < 2 ^ d -> 0 <= Z.land b b' < 2 ^ d ->
  Z.land (a * 2 ^ d + b) (a' * 2 ^ d + b') = Z.land a a' * 2 ^ d + Z.land b b'.
Proof. apply (bitop_split andb), Z.land_spec. Qed.

Lemma lor_split a b a' b' d :
  0 <= d -> 0 <= b < 2 ^ d -> 0 <= b' < 2 ^ d -> 0 <= Z.lor b b' < 2 ^ d ->
  Z.lor (a * 2 ^ d + b) (a' * 2 ^ d + b') = Z.lor a a' * 2 ^ d + Z.lor b b'.
Proof. apply (bitop_split orb), Z.lor_spec. Qed.

Lemma ldiff_split a b a' b' d :
  0 <= d -> 0 <= b < 2 ^ d -> 0 <= b' < 2 ^ d -> 0 <= Z.ldiff b b' < 2 ^ d ->
  Z.ldiff (a * 2 ^ d + b) (a' * 2 ^ d + b') = Z.ldiff a a' * 2 ^ d + Z.ldiff b b'.
Proof. apply (bitop_split (fun x y => x && negb y)), Z.ldiff_spec. Qed.

Lemma testbit_high x w k : 0 <= x < 2 ^ w -> 0 <= w <= k -> Z.testbit x k = false.
Proof.
  intros Hx Hk. destruct (decide (x = 0)) as [->|]; [apply Z.bits_0|].
  apply Z.bits_above_log2; [lia|].
  apply Z.log2_lt_pow2; [lia|]. eapply Z.lt_le_trans; [apply Hx|].
  apply Z.pow_le_mono_r; lia.
Qed.

(** [x & !y] clears the bits of [y] *)
Lemma land_usize_not x y : uint 64 x -> Z.land x (usize_not y) = Z.ldiff x y.
Proof.
  intros Hx. apply Z.bits_inj'. intros k Hk.
  unfold usize_not, umax. rewrite Z.land_spec, Z.lxor_spec, Z.ldiff_spec.
  replace (2 ^ 64 - 1) with (Z.ones 64) by reflexivity.
  rewrite Z.testbit_ones_nonneg by lia.
  destruct (Z.ltb_spec k 64).
  - by rewrite xorb_true_r.
  - by rewrite (testbit_high x 64 k) by (unfold uint in *; lia).
Qed.

Lemma ldiff_two_odd m : 0 <= m -> Z.ldiff (2 * m + 1) 2 = 4 * (m / 2) + 1.
Proof.
  intros Hm. pose proof (Z.mod_pos_bound m 2). pose proof (Z.div_mod m 2).
  replace (2 * m + 1) with ((m / 2) * 2 ^ 2 + (2 * (m mod 2) + 1)) by lia.
  replace (Z.ldiff _ 2) with (Z.ldiff ((m / 2) * 2 ^ 2 + (2 * (m mod 2) + 1)) (0 * 2 ^ 2 + 2)) by reflexivity.
  assert (m mod 2 = 0 \/ m mod 2 = 1) as [-> | ->] by lia;
    rewrite ldiff_split by (vm_compute; intuition congruence);
    rewrite Z.ldiff_0_r; vm_compute (Z.ldiff _ 2); lia.
Qed.

Lemma lor_even_one m : 0 <= m -> Z.lor 1 (2 * m) = 2 * m + 1.
Proof.
  intros Hm. replace (2 * m) with (m * 2 ^ 1 + 0) at 1 by lia.
  replace 1 with (0 * 2 ^ 1 + 1) at 1 by lia.
  rewrite lor_split by (vm_compute; intuition congruence).
  rewrite Z.lor_0_l, Z.lor_0_r. lia.
Qed.

Lemma land_even_succ m : 0 <= m -> Z.land (2 * m) (2 * m + 1) = 2 * m.
Proof.
  intros Hm. replace (2 * m) with (m * 2 ^ 1 + 0) at 1 by lia.
  replace (2 * m + 1) with (m * 2 ^ 1 + 1) at 1 by lia.
  rewrite land_split by (vm_compute; intuition congruence).
  rewrite Z.land_diag, Z.land_0_l. lia.
Qed.

Lemma ldiff_odd_one m : 0 <= m -> Z.ldiff (2 * m + 1) 1 = 2 * m.
Proof.
  intros Hm. replace (2 * m + 1) with (m * 2 ^ 1 + 1) by lia.
  replace (Z.ldiff _ 1) with (Z.ldiff (m * 2 ^ 1 + 1) (0 * 2 ^ 1 + 1)) by reflexivity.
  rewrite ldiff_split by (vm_compute; intuition congruence).
  rewrite Z.ldiff_0_r, Z.ldiff_diag. lia.
Qed.

Lemma lor_two_odd m : 0 <= m -> Z.lor (4 * m + 1) 2 = 4 * m + 3.
Proof.
  intros Hm. replace (4 * m + 1) with (m * 2 ^ 2 + 1) by lia.
  replace (Z.lor _ 2) with (Z.lor (m * 2 ^ 2 + 1) (0 * 2 ^ 2 + 2)) by reflexivity.
  rewrite lor_split by (vm_compute; intuition congruence).
  rewrite Z.lor_0_r. vm_compute (Z.lor 1 2). lia.
Qed.
End bits.

(** ** The index functions on nodes *)
Section nodes.
Implicit Types d m : Z.

Lemma pow2_S d : 0 <= d -> 2 ^ (d + 1) = 2 * 2 ^ d.
Proof. intros. rewrite Z.pow_add_r by lia. lia. Qed.

Lemma node_split d m : 0 <= d -> node d m = (2 * m) * 2 ^ d + (2 ^ d - 1).
Proof. intros. unfold node. rewrite pow2_S by lia. lia. Qed.

Lemma node_nonneg d m : 0 <= d -> 0 <= m -> 0 <= node d m.
Proof.
  intros. rewrite node_split by lia. assert (0 < 2 ^ d) by (apply Z.pow_pos_nonneg; lia). nia.
Qed.

Lemma last_zero_bit_node d m :
  0 <= d -> 0 <= m -> node d m < 2 ^ 64 - 1 -> last_zero_bit (node d m) = Val (2 ^ d).
Proof.
  intros Hd Hm Hlt. assert (0 < 2 ^ d) by (apply Z.pow_pos_nonneg; lia).
  unfold last_zero_bit, last_set_bit, checked_add, checked_sub. cbn.
  rewrite (proj2 (Z.ltb_lt _ _)) by lia. cbn.
  rewrite (proj2 (Z.leb_le 1 _)) by (pose proof (node_nonneg d m); lia). cbn.
  replace (node d m + 1 - 1) with ((2 * m) * 2 ^ d + (2 ^ d - 1)) by (rewrite node_split; lia).
  replace (node d m + 1) with ((2 * m + 1) * 2 ^ d + 0) by (rewrite node_split; lia).
  rewrite land_split, land_even_succ, Z.land_0_r by (rewrite ?Z.land_0_r; lia).
  rewrite (proj2 (Z.leb_le _ _)) by lia. cbn. f_equal. lia.
Qed.

Lemma node_room d m :
  0 <= d <= 63 -> 0 <= m -> node d m < 2 ^ 64 - 1 ->
  m + 1 <= 2 ^ (63 - d) /\ 2 ^ 64 = 2 * 2 ^ (63 - d) * 2 ^ d /\ 0 < 2 ^ d.
Proof.
  intros Hd Hm Hlt. rewrite node_split in Hlt by lia.
  assert (0 < 2 ^ d) by (apply Z.pow_pos_nonneg; lia).
  assert (2 ^ 64 = 2 * 2 ^ (63 - d) * 2 ^ d) as HK.
  { rewrite <- Z.mul_assoc, <- Z.pow_add_r, <- pow2_S by lia. f_equal. lia. }
  rewrite HK in Hlt. repeat split; [nia|done..].
Qed.

Lemma perfect_parent_node d m :
  0 <= d <= 63 -> 0 <= m -> node d m < 2 ^ 64 - 1 ->
  perfect_parent (node d m) = Val (node (d + 1) (m / 2)).
Proof.
  intros Hd Hm Hlt. unfold perfect_parent. rewrite last_zero_bit_node by lia. cbn. f_equal.
  assert (0 < 2 ^ d) by (apply Z.pow_pos_nonneg; lia).
  assert (2 ^ d <= 2 ^ 63) by (apply Z.pow_le_mono_r; lia).
  assert (Z.lor (2 ^ d) (node d m) = (2 * m + 1) * 2 ^ d + (2 ^ d - 1)) as ->.
  { rewrite node_split by lia. replace (2 ^ d) with (1 * 2 ^ d + 0) at 1 by lia.
    rewrite lor_split, lor_even_one, Z.lor_0_l by (rewrite ?Z.lor_0_l; lia). reflexivity. }
  assert ((2 * m + 1) * 2 ^ d + (2 ^ d - 1) < 2 ^ 64) as Hb.
  { destruct (node_room d m) as (? & -> & ?); [lia..|nia]. }
  rewrite land_usize_not by (unfold uint; lia).
  unfold usize_shl1. rewrite Z.shiftl_mul_pow2 by lia.
  destruct (decide (d = 63)) as [->|].
  - assert (m = 0) as -> by lia. reflexivity.
  - assert (2 ^ d * 2 ^ 1 < 2 ^ 64).
    { rewrite <- Z.pow_add_r by lia. apply Z.pow_lt_mono_r; lia. }
    rewrite Z.mod_small by lia. replace (2 ^ d * 2 ^ 1) with (2 * 2 ^ d + 0) by lia.
    rewrite ldiff_split, ldiff_two_odd, Z.ldiff_0_r by (rewrite ?Z.ldiff_0_r; lia).
    rewrite node_split, !pow2_S by lia. lia.
Qed.

Lemma is_branch_node d m : 0 < d -> 0 <= m -> is_branch (node d m) = true.
Proof.
  intros Hd Hm. unfold is_branch. apply Z.eqb_eq. rewrite node_split by lia.
  assert (2 ^ d = 2 * 2 ^ (d - 1)) as -> by (rewrite <- pow2_S by lia; f_equal; lia).
  etransitivity; [apply (Z.land_ones _ 1); lia|].
  replace (2 * m * (2 * 2 ^ (d - 1)) + (2 * 2 ^ (d - 1) - 1))
    with (1 + (2 * m * 2 ^ (d - 1) + 2 ^ (d - 1) - 1) * 2 ^ 1) by lia.
  by rewrite Z.mod_add by lia.
Qed.

Lemma node_half d m : 0 < d -> 0 <= m ->
  node d m = (4 * m + 1) * 2 ^ (d - 1) + (2 ^ (d - 1) - 1) /\ 2 ^ d = 2 * 2 ^ (d - 1) + 0 /\
  Z.shiftr (2 ^ d) 1 = 1 * 2 ^ (d - 1) + 0.
Proof.
  intros Hd Hm. rewrite node_split by lia.
  assert (2 ^ d = 2 * 2 ^ (d - 1)) as -> by (rewrite <- pow2_S by lia; f_equal; lia).
  repeat split; [lia..|]. rewrite Z.shiftr_div_pow2 by lia. change (2 ^ 1) with 2. rewrite Z.mul_comm, Z.div_mul; lia.
Qed.

Lemma perfect_left_child_node d m :
  0 < d <= 63 -> 0 <= m -> node d m < 2 ^ 64 - 1 ->
  perfect_left_child (node d m) = Val (node (d - 1) (2 * m)).
Proof.
  intros Hd Hm Hlt. unfold perfect_left_child. rewrite is_branch_node, last_zero_bit_node by lia.
  cbn. f_equal. pose proof (node_nonneg d m).
  rewrite land_usize_not by (unfold uint; lia).
  assert (0 < 2 ^ (d - 1)) by (apply Z.pow_pos_nonneg; lia).
  destruct (node_half d m) as (-> & _ & ->); [lia..|].
  rewrite ldiff_split, Z.ldiff_0_r by (rewrite ?Z.ldiff_0_r; lia).
  replace (4 * m + 1) with (2 * (2 * m) + 1) by lia. rewrite ldiff_odd_one by lia.
  rewrite node_split by lia. lia.
Qed.

Lemma perfect_right_child_node d m :
  0 < d <= 62 -> 0 <= m -> node d m < 2 ^ 63 ->
  perfect_right_child (node d m) = Val (node (d - 1) (2 * m + 1)).
Proof.
  intros Hd Hm Hlt. unfold perfect_right_child. rewrite is_branch_node, last_zero_bit_node by lia.
  cbn. f_equal. pose proof (node_nonneg d m).
  assert (0 < 2 ^ (d - 1)) by (apply Z.pow_pos_nonneg; lia).
  assert (2 ^ d <= 2 ^ 62) by (apply Z.pow_le_mono_r; lia).
  destruct (node_half d m) as (Hn & Hp & ->); [lia..|].
  assert (Z.lor (node d m) (2 ^ d) = (4 * m + 3) * 2 ^ (d - 1) + (2 ^ (d - 1) - 1)) as ->.
  { rewrite Hn, Hp.
    rewrite lor_split, lor_two_odd, Z.lor_0_r by (rewrite ?Z.lor_0_r; lia). reflexivity. }
  rewrite land_usize_not by (unfold uint; lia).
  rewrite ldiff_split, Z.ldiff_0_r by (rewrite ?Z.ldiff_0_r; lia).
  replace (4 * m + 3) with (2 * (2 * m + 1) + 1) by lia. rewrite ldiff_odd_one by lia.
  rewrite node_split by lia. lia.
Qed.
End nodes.

(** ** Subtrees of a complete tree

    A tree of [n] leaves has [2 * n - 1] nodes. [subtree n a c] says that the
    [c] leaves from leaf [a] on are the leaves of one of its subtrees: [a] is
    a multiple of the width of the smallest perfect tree with [c] leaves, and
    the subtree is perfect unless it reaches the right edge of the tree. *)
Definition height (c : Z) : Z := Z.log2_up c.
Definition half (c : Z) : Z := 2 ^ (height c - 1).
Definition sub_root (a c : Z) : Z := 2 * a + 2 ^ height c - 1.

Record subtree (n a c : Z) : Prop := Subtree {
  sub_pos : 1 <= c;
  sub_nonneg : 0 <= a;
  sub_in : a + c <= n;
  sub_aligned : (2 ^ height c | a);
  sub_edge : a + c = n \/ c = 2 ^ height c;
}.

(** The largest tree: its node buffer has at most [isize::MAX] bytes, the
    limit of a Rust [Vec]. *)
Definition fits (n : Z) : Prop := 32 * (2 * n - 1) < 2 ^ 63.

Section subtrees.
Implicit Types n a c : Z.

Lemma height_nonneg c : 0 <= height c.
Proof. apply Z.log2_up_nonneg. Qed.

Lemma height_le c : 1 <= c -> c <= 2 ^ height c.
Proof.
  intros. unfold height. destruct (decide (c = 1)) as [->|]; [done|].
  apply Z.log2_up_spec. lia.
Qed.

Lemma height_pos c : 1 < c -> 1 <= height c.
Proof. intros. unfold height. pose proof (Z.log2_up_pos c). lia. Qed.

Lemma pow2_height c : 1 < c -> 2 ^ height c = 2 * half c.
Proof.
  intros Hc. pose proof (height_pos c Hc). unfold half.
  rewrite <- pow2_S by lia. f_equal. lia.
Qed.

Lemma half_bounds c : 1 < c -> 1 <= half c < c /\ c <= 2 * half c.
Proof.
  intros Hc. pose proof (height_pos c Hc). rewrite <- pow2_height by lia.
  pose proof (height_le c). unfold half.
  assert (0 < 2 ^ (height c - 1)) by (apply Z.pow_pos_nonneg; lia).
  assert (2 ^ (height c - 1) < c); [|lia].
  unfold height.
  pose proof (Z.log2_up_spec c Hc) as [Hl _]. by rewrite <- Z.sub_1_r in Hl.
Qed.

Lemma height_half c : 1 < c -> height (half c) = height c - 1.
Proof.
  intros Hc. pose proof (height_pos c Hc). unfold half, height at 1.
  apply Z.log2_up_pow2. lia.
Qed.

Lemma height_rest c : 1 < c -> height (c - half c) <= height c - 1.
Proof.
  intros Hc. pose proof (half_bounds c Hc). rewrite <- height_half by lia.
  apply Z.log2_up_le_mono. lia.
Qed.

Lemma subtree_whole n : 1 <= n -> subtree n 0 n.
Proof. split; try lia. apply Z.divide_0_r. Qed.

Lemma subtree_left n a c : 1 < c -> subtree n a c -> subtree n a (half c).
Proof.
  intros Hc [? ? ? [q ->] ?]. pose proof (half_bounds c Hc).
  split; rewrite ?height_half by lia; fold (half c); try lia.
  rewrite pow2_height by lia. exists (2 * q). lia.
Qed.

Lemma subtree_right n a c : 1 < c -> subtree n a c -> subtree n (a + half c) (c - half c).
Proof.
  intros Hc [? ? ? Hal Hedge]. pose proof (half_bounds c Hc).
  pose proof (height_rest c Hc). pose proof (height_nonneg (c - half c)).
  split; try lia.
  - assert (2 ^ height (c - half c) | half c) as Hd.
    { unfold half at 2. exists (2 ^ (height c - 1 - height (c - half c))).
      rewrite <- Z.pow_add_r by lia. f_equal. lia. }
    apply Z.divide_add_r; [|done]. rewrite pow2_height in Hal by lia.
    etransitivity; [exact Hd|]. etransitivity; [|exact Hal]. apply Z.divide_factor_r.
  - destruct Hedge as [|Hp]; [lia|]. right.
    rewrite pow2_height in Hp by lia.
    replace (c - half c) with (half c) by lia. rewrite height_half by lia. reflexivity.
Qed.

Lemma sub_root_node n a c :
  subtree n a c -> exists q, 0 <= q /\ a = q * 2 ^ height c /\ sub_root a c = node (height c) q.
Proof.
  intros [? ? ? [q ->] ?]. pose proof (height_nonneg c).
  assert (0 < 2 ^ height c) by (apply Z.pow_pos_nonneg; lia).
  exists q. repeat split; [nia|]. unfold sub_root, node. rewrite pow2_S by lia. lia.
Qed.

Lemma sub_root_bounds n a c :
  subtree n a c -> 2 * a <= sub_root a c /\ (c = 1 /\ sub_root a c = 2 * a \/
    1 < c /\ 2 * a < sub_root a c < 2 * (a + c) - 1 /\ sub_root a c = 2 * (a + half c) - 1).
Proof.
  intros [? ? ? ? ?]. unfold sub_root. destruct (decide (c = 1)) as [->|].
  - change (2 ^ height 1) with 1. lia.
  - pose proof (half_bounds c). rewrite pow2_height by lia. lia.
Qed.

Lemma sub_root_in_tree n a c : subtree n a c -> 0 <= sub_root a c < 2 * n - 1.
Proof. intros Hs. pose proof (sub_root_bounds n a c Hs). destruct Hs. lia. Qed.

Lemma height_fits n a c : fits n -> subtree n a c -> height c <= 58.
Proof.
  intros Hf [? ? ? ? ?]. unfold fits in Hf.
  change 58 with (Z.log2_up (2 ^ 58)). apply Z.log2_up_le_mono. lia.
Qed.

Lemma next_power_of_two_double c :
  1 <= c -> c <= 2 ^ 58 -> next_power_of_two (2 * c) = 2 ^ (height c + 1).
Proof.
  intros Hc Hb. unfold next_power_of_two. rewrite (proj2 (Z.leb_gt _ _)) by lia.
  rewrite Z.log2_up_double by lia. fold (height c).
  assert (height c <= 58) by (change 58 with (Z.log2_up (2 ^ 58)); apply Z.log2_up_le_mono; lia).
  pose proof (height_nonneg c). rewrite Z.add_1_r, Z.mod_small; [done|].
  split; [apply Z.pow_nonneg; lia|]. apply Z.pow_lt_mono_r; lia.
Qed.

Lemma is_perfect_pow2 d : 0 <= d <= 60 -> is_perfect (2 ^ (d + 1) - 1) = true.
Proof.
  intros Hd. unfold is_perfect. destruct (decide (d = 0)) as [->|]; [done|].
  apply orb_true_iff. right. apply Z.eqb_eq.
  assert (2 ^ 2 <= 2 ^ (d + 1)) by (apply Z.pow_le_mono_r; lia).
  assert (2 ^ (d + 1) < 2 ^ 64) by (apply Z.pow_lt_mono_r; lia).
  unfold wrapping_add. rewrite Z.sub_add, (Z.mod_small (2 ^ (d + 1))) by lia.
  unfold next_power_of_two. rewrite (proj2 (Z.leb_gt _ _)) by lia.
  rewrite (Z.log2_up_unique _ (d + 1)).
  - apply Z.mod_small; lia.
  - lia.
  - replace (Z.pred (d + 1)) with d by lia. rewrite pow2_S in * by lia. lia.
Qed.

Lemma complete_root_size c :
  1 <= c -> c <= 2 ^ 58 -> complete_root (2 * c - 1) = Val (2 ^ height c - 1).
Proof.
  intros Hc Hb. unfold complete_root, wrapping_add. rewrite Z.sub_add, Z.mod_small by lia.
  rewrite next_power_of_two_double by lia.
  pose proof (height_nonneg c).
  assert (height c <= 58) by (change 58 with (Z.log2_up (2 ^ 58)); apply Z.log2_up_le_mono; lia).
  unfold saturating_sub. assert (0 < 2 ^ height c) by (apply Z.pow_pos_nonneg; lia).
  rewrite Z.max_l by (rewrite pow2_S by lia; lia).
  unfold perfect_root. rewrite is_perfect_pow2 by lia. cbn. f_equal.
  rewrite Z.shiftr_div_pow2, pow2_S by lia. change (2 ^ 1) with 2.
  symmetry. apply (Z.div_unique _ _ _ 1); lia.
Qed.
End subtrees.

(** ** Moving between the nodes of a complete tree *)
Section walks.
Implicit Types n a c d m q : Z.

(** Every index is a node of some level. *)
Lemma index_is_node i : 0 <= i -> exists d m, 0 <= d /\ 0 <= m /\ i = node d m.
Proof.
  induction i as [i IH] using (well_founded_ind (Z.lt_wf 0)). intros Hi. pose proof (Z.div_mod i 2).
  assert (i mod 2 = 0 \/ i mod 2 = 1) as [Hr|Hr] by (pose proof (Z.mod_pos_bound i 2); lia).
  - exists 0, (i / 2). unfold node. change (2 ^ 0) with 1. change (2 ^ (0 + 1)) with 2. lia.
  - destruct (IH (i / 2)) as (d & m & Hd & Hm & Heq); [lia..|].
    exists (d + 1), m. repeat split; [lia..|]. rewrite (node_split (d + 1)) by lia.
    rewrite (node_split d) in Heq by lia. rewrite pow2_S by lia. nia.
Qed.

Lemma node_level_bound d m : 0 <= d -> 0 <= m -> node d m < 2 ^ 64 - 1 -> d <= 63.
Proof.
  intros Hd Hm Hlt. destruct (decide (d <= 63)); [done|]. exfalso.
  assert (2 ^ 64 <= 2 ^ d) by (apply Z.pow_le_mono_r; lia).
  rewrite node_split in Hlt by lia. nia.
Qed.

(** The loop of [complete_parent] ends for every [usize]: it returns or it
    panics once it has climbed past the last index. *)
Lemma complete_parent_loop_total (fuel : nat) d m n :
  0 <= d -> 0 <= m -> node d m < 2 ^ 64 -> 65 - d <= Z.of_nat fuel -> (0 < fuel)%nat ->
  complete_parent_loop fuel (node d m) n <> NoFuel.
Proof.
  revert d m. induction fuel as [|fuel IH]; intros d m Hd Hm Hlt Hfuel Hpos; [lia|]. cbn.
  destruct (decide (node d m = 2 ^ 64 - 1)) as [Hmax|Hmax].
  { rewrite Hmax. unfold perfect_parent. by vm_compute (last_zero_bit _). }
  pose proof (node_level_bound d m).
  rewrite perfect_parent_node by lia. cbn. case_match; [done|].
  assert (node (d + 1) (m / 2) < 2 ^ 64).
  { destruct (node_room d m) as (? & -> & ?); [lia..|].
    assert (m / 2 * 2 <= m) by (pose proof (Z.div_mod m 2); pose proof (Z.mod_pos_bound m 2); lia).
    rewrite node_split, pow2_S by lia. nia. }
  apply IH; try lia. apply Z.div_pos; lia.
Qed.

Lemma complete_parent_fuel i n : uint 64 i -> complete_parent i n <> NoFuel.
Proof.
  intros [Hi Hlt]. destruct (index_is_node i Hi) as (d & m & Hd & Hm & ->).
  apply complete_parent_loop_total; lia.
Qed.

Lemma complete_parent_climb (k : nat) : forall (fuel : nat) d m n,
  (k < fuel)%nat -> 0 <= d -> d + Z.of_nat k <= 60 -> 0 <= m -> n <= 2 ^ 60 ->
  node (d + Z.of_nat k + 1) (m / 2 ^ (Z.of_nat k + 1)) < n -> node d m < 2 ^ 62 ->
  (forall j, 1 <= j <= Z.of_nat k -> n <= node (d + j) (m / 2 ^ j) < 2 ^ 62) ->
  complete_parent_loop fuel (node d m) n = Val (node (d + Z.of_nat k + 1) (m / 2 ^ (Z.of_nat k + 1))).
Proof.
  induction k as [|k IH]; intros fuel d m n Hfuel Hd Hdk Hm Hn Hin Hlt Hout;
    (destruct fuel as [|fuel]; [lia|]); cbn [complete_parent_loop];
    rewrite perfect_parent_node by lia; cbn -[Z.of_nat].
  - rewrite Z.add_0_r in Hin. change (2 ^ (Z.of_nat 0 + 1)) with 2 in *.
    rewrite (proj2 (Z.ltb_lt _ _)) by done. rewrite Z.add_0_r. done.
  - pose proof (Hout 1 ltac:(lia)) as Ho. change (2 ^ 1) with 2 in Ho.
    rewrite (proj2 (Z.ltb_ge _ _)) by lia.
    assert (forall j, 0 <= j -> m / 2 / 2 ^ j = m / 2 ^ (j + 1)) as Hdiv.
    { intros j Hj. rewrite Z.div_div by (try apply Z.pow_nonzero; lia).
      f_equal. rewrite Z.add_comm, Z.pow_add_r by lia. done. }
    rewrite IH; try lia.
    + rewrite Hdiv by lia. do 2 f_equal; [lia|]. do 2 f_equal. lia.
    + apply Z.div_pos; lia.
    + rewrite Hdiv by lia. replace (d + 1 + Z.of_nat k + 1) with (d + Z.of_nat (S k) + 1) by lia.
      replace (Z.of_nat k + 1 + 1) with (Z.of_nat (S k) + 1) by lia. done.
    + intros j Hj. rewrite Hdiv by lia. replace (d + 1 + j) with (d + (j + 1)) by lia.
      apply Hout. lia.
Qed.
End walks.

(** ** Parents and children of subtree roots *)
Section children.
Implicit Types n a c : Z.

Lemma pow2_bounds d : 0 <= d <= 58 -> 1 <= 2 ^ d <= 2 ^ 58.
Proof.
  intros. split; [|apply Z.pow_le_mono_r; lia].
  pose proof (Z.pow_pos_nonneg 2 d). lia.
Qed.

(** The root of the left child is the left child of the root. *)
Lemma left_child_node n a c :
  1 < c -> subtree n a c ->
  exists q, 0 <= q /\ a = q * 2 ^ height c /\ sub_root a c = node (height c) q /\
    sub_root a (half c) = node (height c - 1) (2 * q).
Proof.
  intros Hc Hs. destruct (sub_root_node n a c Hs) as (q & Hq & Ha & Hr).
  exists q. repeat split; try done. pose proof (height_pos c Hc).
  unfold sub_root. rewrite height_half by lia. unfold node. rewrite Ha, pow2_height by lia.
  replace (height c - 1 + 1) with (height c) by lia. rewrite pow2_height by lia.
  unfold half. lia.
Qed.

Lemma sub_root_fits n a c : fits n -> subtree n a c ->
  0 <= sub_root a c < 2 ^ 58 /\ 0 <= height c <= 58 /\ 1 <= c <= 2 ^ 58.
Proof.
  intros Hf Hs. pose proof (sub_root_in_tree n a c Hs). pose proof (height_fits n a c Hf Hs).
  pose proof (height_nonneg c). unfold fits in Hf. destruct Hs. lia.
Qed.

Lemma left_child_sub n a c :
  fits n -> 1 < c -> subtree n a c ->
  complete_left_child (sub_root a c) = Val (sub_root a (half c)).
Proof.
  intros Hf Hc Hs. pose proof (sub_root_fits n a c Hf Hs). pose proof (height_pos c Hc).
  destruct (left_child_node n a c Hc Hs) as (q & Hq & Ha & Hr & ->). rewrite Hr in *.
  unfold complete_left_child. apply perfect_left_child_node; lia.
Qed.

Lemma parent_left n a c :
  fits n -> 1 < c -> subtree n a c ->
  complete_parent (sub_root a (half c)) (2 * n - 1) = Val (sub_root a c).
Proof.
  intros Hf Hc Hs. pose proof (sub_root_fits n a c Hf Hs). pose proof (height_pos c Hc).
  pose proof (sub_root_fits n a (half c) Hf (subtree_left n a c Hc Hs)).
  pose proof (sub_root_in_tree n a c Hs).
  destruct (left_child_node n a c Hc Hs) as (q & Hq & Ha & Hr & Hl). rewrite Hr, Hl in *.
  unfold complete_parent. unfold fits in Hf.
  assert (2 * q / 2 = q) as Hdiv by (rewrite Z.mul_comm; apply Z.div_mul; lia).
  pose proof (complete_parent_climb 0 66 (height c - 1) (2 * q) (2 * n - 1)) as Hclimb.
  replace (height c - 1 + Z.of_nat 0 + 1) with (height c) in Hclimb by lia.
  change (2 ^ (Z.of_nat 0 + 1)) with 2 in Hclimb. rewrite Hdiv in Hclimb. apply Hclimb; lia.
Qed.

Lemma right_child_node n a c :
  1 < c -> subtree n a c ->
  exists q q', 0 <= q /\ 0 <= q' /\ a = q * 2 ^ height c /\
    sub_root a c = node (height c) q /\
    sub_root (a + half c) (c - half c) = node (height (c - half c)) q' /\
    q' = (2 * q + 1) * 2 ^ (height c - 1 - height (c - half c)).
Proof.
  intros Hc Hs. destruct (sub_root_node n a c Hs) as (q & Hq & Ha & Hr).
  destruct (sub_root_node n _ _ (subtree_right n a c Hc Hs)) as (q' & Hq' & Ha' & Hr').
  exists q, q'. repeat split; try done.
  pose proof (height_rest c Hc). pose proof (height_nonneg (c - half c)).
  rewrite pow2_height in Ha by lia.
  assert (half c = 2 ^ (height c - 1 - height (c - half c)) * 2 ^ height (c - half c)) as Hh.
  { rewrite <- Z.pow_add_r by lia. unfold half at 1. f_equal. lia. }
  apply (Z.mul_reg_r _ _ (2 ^ height (c - half c))); [apply Z.pow_nonzero; lia|].
  rewrite <- Ha', Ha. rewrite <- Z.mul_assoc, <- Hh. lia.
Qed.

Lemma parent_right n a c :
  fits n -> 1 < c -> subtree n a c ->
  complete_parent (sub_root (a + half c) (c - half c)) (2 * n - 1) = Val (sub_root a c).
Proof.
  intros Hf Hc Hs. pose proof (subtree_right n a c Hc Hs) as Hs'.
  pose proof (sub_root_fits n a c Hf Hs). pose proof (height_rest c Hc).
  pose proof (sub_root_fits n _ _ Hf Hs'). pose proof (sub_root_in_tree n a c Hs).
  pose proof (half_bounds c Hc). pose proof (height_le (c - half c)).
  assert (2 * (a + half c) <= 2 ^ 59) by (destruct Hs; unfold fits in *; lia).
  destruct (right_child_node n a c Hc Hs) as (q & q' & Hq & Hq0 & Ha & Hr & Hr' & Hq').
  destruct (sub_root_node n _ _ Hs') as (q2 & _ & Ha2 & Hr2).
  set (t := height (c - half c)) in *. set (k := height c - 1 - t) in *.
  assert (a + half c = q' * 2 ^ t) as Ha3.
  { unfold sub_root in Hr'. fold t in Hr'. unfold node in Hr'.
    rewrite pow2_S in Hr' by lia. lia. }
  assert (forall j, 0 <= j <= k -> node (t + j) (q' / 2 ^ j) = 2 * (a + half c) + 2 ^ (t + j) - 1) as Hup.
  { intros j Hj. rewrite Ha3, Hq'. unfold node.
    assert (2 ^ k = 2 ^ (k - j) * 2 ^ j) as -> by (rewrite <- Z.pow_add_r by lia; f_equal; lia).
    rewrite Z.mul_assoc, Z.div_mul by (apply Z.pow_nonzero; lia).
    rewrite (pow2_S (t + j)), !(Z.pow_add_r 2 t j) by lia. lia. }
  assert (q' / 2 ^ (k + 1) = q) as Hq1.
  { rewrite Hq', pow2_S by lia. rewrite Z.div_mul_cancel_r by (try apply Z.pow_nonzero; lia).
    symmetry. apply (Z.div_unique _ _ _ 1); lia. }
  rewrite Hr', Hr in *. unfold complete_parent, fits in *.
  assert (t + Z.of_nat (Z.to_nat k) + 1 = height c) as Ht by lia.
  rewrite (complete_parent_climb (Z.to_nat k)); rewrite ?Ht, ?Z2Nat.id, ?Hq1 by lia; try lia; [done|].
  intros j Hj. rewrite Hup by lia.
  assert (2 ^ (t + j) <= 2 ^ 58) by (apply Z.pow_le_mono_r; lia).
  assert (2 ^ (t + 1) <= 2 ^ (t + j)) as Hjj by (apply Z.pow_le_mono_r; lia).
  rewrite pow2_S in Hjj by lia. destruct Hs as [? ? ? ? [Hedge|Hedge]]; [lia|].
  exfalso. rewrite pow2_height in Hedge by lia.
  assert (t = height c - 1); [|lia]. unfold t. rewrite <- height_half by lia. f_equal. lia.
Qed.

Lemma right_child_sub n a c :
  fits n -> 1 < c -> subtree n a c ->
  complete_right_child (sub_root a c) (2 * n - 1) = Val (sub_root (a + half c) (c - half c)).
Proof.
  intros Hf Hc Hs. pose proof (subtree_right n a c Hc Hs) as Hs'.
  pose proof (sub_root_fits n a c Hf Hs). pose proof (height_rest c Hc).
  pose proof (sub_root_fits n _ _ Hf Hs'). pose proof (sub_root_in_tree n a c Hs).
  pose proof (sub_root_in_tree n _ _ Hs'). pose proof (half_bounds c Hc).
  destruct (sub_root_node n a c Hs) as (q & Hq & Ha & Hr).
  assert (sub_root a c + 1 = 2 * (a + half c)) as Hsucc.
  { destruct (sub_root_bounds n a c Hs) as [_ [?|?]]; lia. }
  assert (node (height c - 1) (2 * q + 1) = 2 * (a + half c) + half c - 1) as Hperf.
  { unfold node, half. rewrite Ha. replace (height c - 1 + 1) with (height c) by lia.
    rewrite pow2_height by lia. unfold half. lia. }
  unfold complete_right_child. rewrite Hr, is_branch_node by lia. rewrite <- Hr.
  rewrite (proj2 (Z.ltb_lt _ _)) by lia. cbn [assert_that mbind run_bind].
  rewrite Hr at 1. rewrite perfect_right_child_node, Hperf by lia. cbn [mbind run_bind].
  unfold fits in Hf. case_match eqn:Hlt.
  - (* the child of the perfect tree is in the tree *)
    cbn. f_equal. unfold sub_root.
    assert (height (c - half c) = height c - 1) as ->; [|unfold half; lia].
    apply Z.ltb_lt in Hlt. destruct Hs as [? ? ? ? [Hedge|Hedge]].
    + pose proof (height_pos c Hc). destruct (decide (height c = 1)) as [He|].
      * unfold half in *. rewrite He in *. change (2 ^ (1 - 1)) with 1 in *.
        replace (c - 1) with 1 by lia. done.
      * unfold height at 1. apply Z.log2_up_unique; [lia|]. fold (half c).
        assert (half c = 2 * 2 ^ Z.pred (height c - 1)) as Hh; [|lia].
        unfold half. rewrite <- pow2_S by lia. f_equal. lia.
    + rewrite pow2_height in Hedge by lia. rewrite <- height_half by lia. f_equal. lia.
  - apply Z.ltb_ge in Hlt. destruct Hs as [? ? ? ? [Hedge|Hedge]];
      [|rewrite pow2_height in Hedge by lia; lia].
    unfold checked_add, checked_sub. rewrite Hsucc, (proj2 (Z.ltb_lt _ _)) by lia. cbn.
    rewrite (proj2 (Z.leb_le _ _)) by lia. cbn.
    replace (2 * n - 1 - 2 * (a + half c)) with (2 * (c - half c) - 1) by lia.
    rewrite complete_root_size by lia. cbn. pose proof (height_nonneg (c - half c)).
    assert (2 ^ height (c - half c) <= 2 ^ 58) by (apply Z.pow_le_mono_r; lia).
    rewrite (proj2 (Z.ltb_lt _ _)) by lia. cbn. f_equal. unfold sub_root. lia.
Qed.
End children.
