(* ===== verification/MerkleTree.v ===== *)
(** * The append-only Merkle tree

    Models [crates/astria-merkle/src/lib.rs]: the node buffer, the leaf
    builder whose drop recomputes the branch hashes, roots and inclusion
    proofs. The specification is the Merkle tree hash and the audit path of
    RFC 6962; the theorems say that the flat tree computes exactly those. *)
From stdpp Require Import base list option numbers tactics.
From Stdlib Require Import ZArith Lia Wf_nat Strings.Byte.
From S2P Require Import Prelude MerkleIndex.

Open Scope Z_scope.

#[export] Instance byte_eq_decision : EqDecision byte := Byte.byte_eq_dec.

(** A node hash, [[u8; 32]] in the code. *)
Abbreviation hash := (list byte).

Section tree.
(** SHA-256 is a dependency; the code relies on digests of 32 bytes. *)
Context (sha256 : list byte -> hash).

(** ** Hashing

    A streaming hasher is the bytes it was fed: [update] appends and
    [finalize] digests them. *)
Definition hasher_new : list byte := [].
Definition hasher_update (h bs : list byte) : list byte := h ++ bs.
Definition hasher_finalize (h : list byte) : hash := sha256 h.

Definition init_leaf_hasher : list byte := hasher_update hasher_new [x00].

Definition hash_leaf (leaf : list byte) : hash :=
  hasher_finalize (hasher_update init_leaf_hasher leaf).

Definition combine (left right : hash) : hash :=
  hasher_finalize (hasher_update (hasher_update (hasher_update hasher_new [x01]) left) right).

(** ** The node buffer *)
Record Tree := MkTree { nodes : list byte }.

Definition tree_new : Tree := MkTree [].
Definition tree_len (t : Tree) : Z := Z.of_nat (length (nodes t)) / 32.
Definition tree_is_empty (t : Tree) : bool := bool_decide (nodes t = []).
Definition is_in_tree (t : Tree) (i : Z) : bool := is_tree_index_in_tree i (tree_len t).
Definition is_leaf_in_tree (t : Tree) (leaf_index : Z) : run bool :=
  is_leaf_index_in_tree leaf_index (tree_len t).

(** [low..high] of the node at index [i] *)
Definition node_range (t : Tree) (i : Z) : run (nat * nat) :=
  _ ← assert_that (is_in_tree t i);
  low ← unwrap (checked_mul 64 i 32);
  next ← unwrap (checked_add 64 i 1);
  high ← unwrap (checked_mul 64 next 32);
  _ ← assert_that (high <=? Z.of_nat (length (nodes t)));
  mret (Z.to_nat low, Z.to_nat high).

Definition get_node (t : Tree) (i : Z) : run hash :=
  '(low, high) ← node_range t i;
  mret (take (high - low) (drop low (nodes t))).

Definition set_node (t : Tree) (i : Z) (val : hash) : run Tree :=
  '(low, high) ← node_range t i;
  mret (MkTree (take low (nodes t) ++ val ++ drop high (nodes t))).

Definition combine_nodes (t : Tree) (i j : Z) : run hash :=
  left ← get_node t i;
  right ← get_node t j;
  mret (combine left right).

(** ** The leaf builder *)
Record LeafBuilder := MkLeafBuilder {
  builder_tree : Tree;
  builder_hasher : option (list byte);
}.

Definition build_leaf (t : Tree) : LeafBuilder := MkLeafBuilder t (Some init_leaf_hasher).

Definition builder_write (b : LeafBuilder) (bs : list byte) : run LeafBuilder :=
  hasher ← unwrap (builder_hasher b);
  mret (MkLeafBuilder (builder_tree b) (Some (hasher_update hasher bs))).

(** The [loop] of [LeafBuilder::drop]; one turn per level. *)
Fixpoint builder_drop_loop (fuel : nat) (t : Tree) (idx size root : Z) : run Tree :=
  match fuel with
  | O => NoFuel
  | S fuel =>
      idx ← complete_parent idx size;
      left ← complete_left_child idx;
      right ← complete_right_child idx size;
      new_value ← combine_nodes t left right;
      t ← set_node t idx new_value;
      if idx =? root then mret t else builder_drop_loop fuel t idx size root
  end.

Definition builder_drop (b : LeafBuilder) : run Tree :=
  hasher ← unwrap (builder_hasher b);
  let leaf_hash := hasher_finalize hasher in
  let t := builder_tree b in
  if tree_is_empty t then mret (MkTree (nodes t ++ leaf_hash))
  else
    let t := MkTree (nodes t ++ replicate 64 x00) in
    let size := tree_len t in
    idx ← unwrap (checked_sub size 1);
    t ← set_node t idx leaf_hash;
    root ← complete_root (tree_len t);
    builder_drop_loop 64 t idx size root.

Definition push (t : Tree) (leaf : list byte) : run Tree :=
  b ← builder_write (build_leaf t) leaf;
  builder_drop b.

Fixpoint push_all (t : Tree) (leaves : list (list byte)) : run Tree :=
  match leaves with
  | [] => mret t
  | leaf :: leaves => t ← push t leaf; push_all t leaves
  end.

Definition from_leaves (leaves : list (list byte)) : run Tree := push_all tree_new leaves.

(** ** Roots, leaves and proofs *)
Definition tree_root (t : Tree) : run hash :=
  if tree_is_empty t then mret (sha256 [])
  else
    i ← complete_root (tree_len t);
    get_node t i.

Definition tree_leaf (t : Tree) (i : Z) : run (option hash) :=
  idx ← leaf_index_to_tree_index i;
  if is_in_tree t idx then h ← get_node t idx; mret (Some h) else mret None.

Record Proof := MkProof {
  audit_path : list byte;
  leaf_index : Z;
  tree_size : Z;
}.

(** The [while] loop of [construct_proof] *)
Fixpoint construct_path (fuel : nat) (t : Tree) (tree_index root size : Z) (path : list byte)
    : run (list byte) :=
  if tree_index =? root then mret path
  else match fuel with
  | O => NoFuel
  | S fuel =>
      '(parent, sibling) ← complete_parent_and_sibling tree_index size;
      h ← get_node t sibling;
      construct_path fuel t parent root size (path ++ h)
  end.

Definition construct_proof (t : Tree) (i : Z) : run (option Proof) :=
  let size := tree_len t in
  if size =? 0 then mret None
  else
    inside ← is_leaf_in_tree t i;
    if negb inside then mret None
    else
      tree_index ← leaf_index_to_tree_index i;
      root ← complete_root size;
      path ← construct_path 64 t tree_index root size [];
      mret (Some (MkProof path i size)).
End tree.

(** ** RFC 6962 *)
Section rfc6962.
Context (sha256 : list byte -> hash).

(** The largest power of two smaller than [n], for [n > 1] *)
Definition split_at {A} (hs : list A) : nat := Z.to_nat (half (Z.of_nat (length hs))).

(** The Merkle tree hash of a non-empty list of leaf hashes *)
Fixpoint mth_fuel (fuel : nat) (hs : list hash) : hash :=
  match fuel, hs with
  | S fuel, h :: _ :: _ =>
      combine sha256 (mth_fuel fuel (take (split_at hs) hs)) (mth_fuel fuel (drop (split_at hs) hs))
  | _, h :: _ => h
  | _, [] => sha256 []
  end.
Definition mth (hs : list hash) : hash := mth_fuel (length hs) hs.

(** The audit path of leaf [i], from the leaf up *)
Fixpoint rfc_path_fuel (fuel : nat) (hs : list hash) (i : nat) : list hash :=
  match fuel, hs with
  | S fuel, _ :: _ :: _ =>
      let k := split_at hs in
      if decide (i < k)%nat
      then rfc_path_fuel fuel (take k hs) i ++ [mth (drop k hs)]
      else rfc_path_fuel fuel (drop k hs) (i - k) ++ [mth (take k hs)]
  | _, _ => []
  end.
Definition rfc_path (hs : list hash) (i : nat) : list hash := rfc_path_fuel (length hs) hs i.

(** The in-order layout of the tree's node hashes *)
Fixpoint flat_fuel (fuel : nat) (hs : list hash) : list hash :=
  match fuel, hs with
  | S fuel, _ :: _ :: _ =>
      flat_fuel fuel (take (split_at hs) hs) ++ [mth hs] ++ flat_fuel fuel (drop (split_at hs) hs)
  | _, _ => hs
  end.
Definition flat (hs : list hash) : list hash := flat_fuel (length hs) hs.

(** [MTH({d0, .., dn})] of RFC 6962 on the leaves themselves *)
Definition rfc_mth (leaves : list (list byte)) : hash := mth (hash_leaf sha256 <$> leaves).
End rfc6962.

(** A toy digest for examples: 32 bytes, sensitive to every input byte. *)
Definition toy_modulus : N := 2147483647%N.
Definition toy_sum (bs : list byte) : N :=
  foldl (fun acc b => (acc * 257 + Byte.to_N b + 1) mod toy_modulus)%N 7%N bs.
Fixpoint toy_bytes (n : nat) (x : N) : list byte :=
  match n with
  | O => []
  | S n => default x00 (Byte.of_N (x mod 256)) :: toy_bytes n (x / 256)%N
  end.
Definition toy_sha (bs : list byte) : hash := toy_bytes 32 (toy_sum bs).

Lemma toy_sha_length bs : length (toy_sha bs) = 32%nat.
Proof. reflexivity. Qed.

Definition toy_leaves : list (list byte) := [[x00]; [x01; x02]; [x03]; []; [x05]; [x06]; [x07]].

Example toy_root :
  (t ← from_leaves toy_sha toy_leaves; tree_root toy_sha t) = Val (rfc_mth toy_sha toy_leaves).
Proof. vm_compute. reflexivity. Qed.
Example toy_flat :
  (t ← from_leaves toy_sha toy_leaves; mret (nodes t)) =
    Val (concat (flat toy_sha (hash_leaf toy_sha <$> toy_leaves))).
Proof. vm_compute. reflexivity. Qed.
Example toy_proof :
  (t ← from_leaves toy_sha toy_leaves; p ← construct_proof t 4; Val (option_map audit_path p)) =
    Val (Some (concat (rfc_path toy_sha (hash_leaf toy_sha <$> toy_leaves) 4))).
Proof. vm_compute. reflexivity. Qed.

(** ** Unfolding the specification *)
Section spec.
Context (sha256 : list byte -> hash).
Implicit Types hs : list hash.

Lemma split_at_bounds {A} (hs : list A) :
  (1 < length hs)%nat ->
  (1 <= split_at hs < length hs)%nat /\ (length hs <= 2 * split_at hs)%nat /\
  Z.of_nat (split_at hs) = half (Z.of_nat (length hs)).
Proof.
  intros Hlen. unfold split_at. pose proof (half_bounds (Z.of_nat (length hs))). lia.
Qed.

Lemma take_drop_length {A} (hs : list A) :
  (1 < length hs)%nat ->
  length (take (split_at hs) hs) = split_at hs /\
  length (drop (split_at hs) hs) = (length hs - split_at hs)%nat.
Proof.
  intros Hlen. pose proof (split_at_bounds hs Hlen). rewrite length_take, length_drop. lia.
Qed.

(** Induction along the splitting of RFC 6962 *)
Lemma split_ind {A} (P : list A -> Prop) :
  P [] -> (forall h, P [h]) ->
  (forall l : list A, (1 < length l)%nat -> P (take (split_at l) l) -> P (drop (split_at l) l) -> P l) ->
  forall l : list A, P l.
Proof.
  intros Hnil Hone Hstep hs.
  induction hs as [hs IH] using (induction_ltof1 _ (@length A)). unfold ltof in IH.
  destruct hs as [|h [|h' hs]]; [done..|].
  pose proof (split_at_bounds (h :: h' :: hs)) as Hb. pose proof (take_drop_length (h :: h' :: hs)) as Hl.
  assert (1 < length (h :: h' :: hs))%nat as Hlen by (cbn; lia).
  apply Hstep; [done|apply IH; lia..].
Qed.

Lemma split_length hs h h' f :
  let l : list hash := h :: h' :: hs in
  (length l <= S f)%nat ->
  (length (take (split_at l) l) <= f /\ length (drop (split_at l) l) <= f /\
   1 <= length (take (split_at l) l) /\ 1 <= length (drop (split_at l) l))%nat.
Proof.
  intros l Hf. pose proof (split_at_bounds l) as Hb. pose proof (take_drop_length l) as Hl.
  assert (1 < length l)%nat by (cbn; lia). lia.
Qed.

Lemma mth_fuel_S f h h' hs (l := h :: h' :: hs) :
  mth_fuel sha256 (S f) l =
    combine sha256 (mth_fuel sha256 f (take (split_at l) l)) (mth_fuel sha256 f (drop (split_at l) l)).
Proof. done. Qed.

Lemma rfc_path_fuel_S f h h' hs i (l := h :: h' :: hs) :
  rfc_path_fuel sha256 (S f) l i =
    if decide (i < split_at l)%nat
    then rfc_path_fuel sha256 f (take (split_at l) l) i ++ [mth sha256 (drop (split_at l) l)]
    else rfc_path_fuel sha256 f (drop (split_at l) l) (i - split_at l) ++ [mth sha256 (take (split_at l) l)].
Proof. done. Qed.

Lemma flat_fuel_S f h h' hs (l := h :: h' :: hs) :
  flat_fuel sha256 (S f) l =
    flat_fuel sha256 f (take (split_at l) l) ++ [mth sha256 l] ++ flat_fuel sha256 f (drop (split_at l) l).
Proof. done. Qed.

Lemma mth_fuel_enough f g hs :
  (length hs <= f)%nat -> (length hs <= g)%nat -> mth_fuel sha256 f hs = mth_fuel sha256 g hs.
Proof.
  revert g hs. induction f as [|f IH]; intros g hs Hf Hg.
  - destruct hs; [|cbn in *; lia]. by destruct g.
  - destruct hs as [|h [|h' hs]]; [by destruct g..|]. destruct g as [|g]; [cbn in *; lia|].
    pose proof (split_length hs h h' f Hf). pose proof (split_length hs h h' g Hg).
    cbn -[split_at take drop]. f_equal; apply IH; tauto.
Qed.

Lemma mth_one h : mth sha256 [h] = h.
Proof. done. Qed.

Lemma mth_split hs :
  (1 < length hs)%nat ->
  mth sha256 hs = combine sha256 (mth sha256 (take (split_at hs) hs)) (mth sha256 (drop (split_at hs) hs)).
Proof.
  intros Hlen. destruct hs as [|h [|h' hs]]; [cbn in *; lia..|].
  pose proof (split_length hs h h' (S (length hs))) as Hl. cbn zeta in Hl.
  etransitivity; [apply (mth_fuel_S (S (length hs)))|].
  f_equal; apply mth_fuel_enough; try lia; apply Hl; cbn; lia.
Qed.

Lemma rfc_path_fuel_enough f g hs i :
  (length hs <= f)%nat -> (length hs <= g)%nat ->
  rfc_path_fuel sha256 f hs i = rfc_path_fuel sha256 g hs i.
Proof.
  revert g hs i. induction f as [|f IH]; intros g hs i Hf Hg.
  - destruct hs; [|cbn in *; lia]. by destruct g.
  - destruct hs as [|h [|h' hs]]; [by destruct g..|]. destruct g as [|g]; [cbn in *; lia|].
    pose proof (split_length hs h h' f Hf). pose proof (split_length hs h h' g Hg).
    cbn -[split_at take drop]. case_decide; f_equal; apply IH; tauto.
Qed.

Lemma rfc_path_one h i : rfc_path sha256 [h] i = [].
Proof. done. Qed.

Lemma rfc_path_split hs i :
  (1 < length hs)%nat ->
  rfc_path sha256 hs i =
    if decide (i < split_at hs)%nat
    then rfc_path sha256 (take (split_at hs) hs) i ++ [mth sha256 (drop (split_at hs) hs)]
    else rfc_path sha256 (drop (split_at hs) hs) (i - split_at hs) ++ [mth sha256 (take (split_at hs) hs)].
Proof.
  intros Hlen. destruct hs as [|h [|h' hs]]; [cbn in *; lia..|].
  pose proof (split_length hs h h' (S (length hs))) as Hl. cbn zeta in Hl.
  etransitivity; [apply (rfc_path_fuel_S (S (length hs)))|].
  case_decide; f_equal; apply rfc_path_fuel_enough; try lia; apply Hl; cbn; lia.
Qed.

Lemma flat_fuel_enough f g hs :
  (length hs <= f)%nat -> (length hs <= g)%nat -> flat_fuel sha256 f hs = flat_fuel sha256 g hs.
Proof.
  revert g hs. induction f as [|f IH]; intros g hs Hf Hg.
  - destruct hs; [|cbn in *; lia]. by destruct g.
  - destruct hs as [|h [|h' hs]]; [by destruct g..|]. destruct g as [|g]; [cbn in *; lia|].
    pose proof (split_length hs h h' f Hf). pose proof (split_length hs h h' g Hg).
    cbn -[split_at take drop]. f_equal; [|f_equal]; apply IH; tauto.
Qed.

Lemma flat_one h : flat sha256 [h] = [h].
Proof. done. Qed.

Lemma flat_split hs :
  (1 < length hs)%nat ->
  flat sha256 hs =
    flat sha256 (take (split_at hs) hs) ++ [mth sha256 hs] ++ flat sha256 (drop (split_at hs) hs).
Proof.
  intros Hlen. destruct hs as [|h [|h' hs]]; [cbn in *; lia..|].
  pose proof (split_length hs h h' (S (length hs))) as Hl. cbn zeta in Hl.
  etransitivity; [apply (flat_fuel_S (S (length hs)))|].
  f_equal; [|f_equal]; apply flat_fuel_enough; try lia; apply Hl; cbn; lia.
Qed.

Lemma flat_length hs : (1 <= length hs)%nat -> length (flat sha256 hs) = (2 * length hs - 1)%nat.
Proof.
  induction hs as [|h|hs Hlen IHl IHr] using split_ind; intros Hpos; [cbn in *; lia|done|].
  pose proof (split_at_bounds hs Hlen). pose proof (take_drop_length hs Hlen).
  rewrite flat_split, !length_app by done. cbn [length]. rewrite IHl, IHr by lia. lia.
Qed.

(** The root of the layout sits where [sub_root] says. *)
Lemma flat_root hs :
  (1 <= length hs)%nat ->
  flat sha256 hs !! Z.to_nat (sub_root 0 (Z.of_nat (length hs))) = Some (mth sha256 hs).
Proof.
  intros Hpos. destruct (decide (length hs = 1%nat)) as [Heq|].
  - destruct hs as [|h [|]]; cbn in Heq; try lia. done.
  - assert (1 < length hs)%nat as Hlen by lia. rewrite flat_split by done.
    destruct (split_at_bounds hs Hlen) as (? & ? & Hz). pose proof (take_drop_length hs Hlen).
    unfold sub_root. rewrite pow2_height, <- Hz by lia.
    rewrite lookup_app_r; rewrite flat_length by lia; [|lia].
    replace (_ - _)%nat with 0%nat by lia. done.
Qed.
End spec.

(** ** The byte buffer as a list of hashes *)
Definition hash_ok (h : hash) : Prop := length h = 32%nat.
Definition tree_of (Bs : list hash) : Tree := MkTree (concat Bs).
(** [Bs] is a node list that fits into a [Vec]. *)
Definition buffer_ok (Bs : list hash) : Prop :=
  Forall hash_ok Bs /\ 32 * Z.of_nat (length Bs) < 2 ^ 63.

Section buffer.
Context (sha256 : list byte -> hash).
Implicit Types Bs : list hash.

Lemma concat_length Bs : Forall hash_ok Bs -> length (concat Bs) = (32 * length Bs)%nat.
Proof.
  induction 1 as [|h Bs Hh _ IH]; [done|]. unfold hash_ok in Hh.
  cbn [concat length]. rewrite length_app. lia.
Qed.

Lemma concat_drop Bs i : Forall hash_ok Bs -> drop (32 * i) (concat Bs) = concat (drop i Bs).
Proof.
  revert i. induction Bs as [|h Bs IH]; intros i Hok; [by cbn; rewrite !drop_nil|].
  apply Forall_cons_1 in Hok as [Hh Hok]. unfold hash_ok in Hh.
  destruct i as [|i]; [done|]. cbn [concat].
  rewrite drop_app_ge, Hh by lia. cbn [drop]. rewrite <- IH by done. f_equal. lia.
Qed.

Lemma concat_take Bs i : Forall hash_ok Bs -> take (32 * i) (concat Bs) = concat (take i Bs).
Proof.
  revert i. induction Bs as [|h Bs IH]; intros i Hok; [by cbn; rewrite !take_nil|].
  apply Forall_cons_1 in Hok as [Hh Hok]. unfold hash_ok in Hh.
  destruct i as [|i]; [done|]. cbn [concat take].
  rewrite take_app_ge, Hh by lia. f_equal. rewrite <- IH by done. f_equal. lia.
Qed.

Lemma tree_len_of Bs : Forall hash_ok Bs -> tree_len (tree_of Bs) = Z.of_nat (length Bs).
Proof.
  intros Hok. unfold tree_len, tree_of. cbn [nodes]. rewrite concat_length by done.
  rewrite Nat2Z.inj_mul, Z.mul_comm. apply Z.div_mul. lia.
Qed.

Lemma node_range_of Bs i :
  buffer_ok Bs -> 0 <= i < Z.of_nat (length Bs) ->
  node_range (tree_of Bs) i = Val (32 * Z.to_nat i, 32 * S (Z.to_nat i))%nat.
Proof.
  intros [Hok Hfit] Hi. unfold node_range, is_in_tree, is_tree_index_in_tree.
  rewrite tree_len_of by done. unfold checked_mul, checked_add, tree_of. cbn [nodes].
  rewrite concat_length by done.
  repeat (rewrite (proj2 (Z.ltb_lt _ _)) by lia; cbn [assert_that unwrap mbind run_bind]).
  rewrite (proj2 (Z.leb_le _ _)) by lia. cbn [assert_that mbind run_bind].
  unfold mret, run_ret. f_equal. f_equal; lia.
Qed.

Lemma get_node_of Bs i h :
  buffer_ok Bs -> 0 <= i -> Bs !! Z.to_nat i = Some h -> get_node (tree_of Bs) i = Val h.
Proof.
  intros Hb Hi Hlook. pose proof (lookup_lt_Some _ _ _ Hlook). unfold get_node.
  rewrite node_range_of by (done || lia). cbn [mbind run_bind]. unfold mret, run_ret.
  f_equal. destruct Hb as [Hok _]. unfold tree_of. cbn [nodes].
  rewrite concat_drop by done. rewrite (drop_S _ _ _ Hlook). cbn [concat].
  pose proof (Forall_lookup_1 _ _ _ _ Hok Hlook) as Hh. unfold hash_ok in Hh.
  rewrite take_app_le by lia. apply take_ge. lia.
Qed.

Lemma set_node_of Bs i v :
  buffer_ok Bs -> 0 <= i < Z.of_nat (length Bs) ->
  set_node (tree_of Bs) i v = Val (tree_of (<[Z.to_nat i := v]> Bs)).
Proof.
  intros Hb Hi. unfold set_node. rewrite node_range_of by done. cbn [mbind run_bind].
  unfold mret, run_ret, tree_of. cbn [nodes]. destruct Hb as [Hok _].
  rewrite concat_take, concat_drop by done. f_equal. f_equal.
  rewrite insert_take_drop by lia. by rewrite concat_app.
Qed.

Lemma combine_nodes_of Bs i j l r :
  buffer_ok Bs -> 0 <= i -> 0 <= j -> Bs !! Z.to_nat i = Some l -> Bs !! Z.to_nat j = Some r ->
  combine_nodes sha256 (tree_of Bs) i j = Val (combine sha256 l r).
Proof.
  intros Hb Hi Hj Hl Hr. unfold combine_nodes.
  rewrite (get_node_of Bs i l), (get_node_of Bs j r) by done. done.
Qed.

Lemma buffer_ok_insert Bs i v : buffer_ok Bs -> hash_ok v -> buffer_ok (<[i := v]> Bs).
Proof.
  intros [Hok Hfit] Hv. split; [by apply Forall_insert|]. by rewrite length_insert.
Qed.
End buffer.
