(* ===== verification/MerkleCorrect.v ===== *)
(** * Correctness of the flat Merkle tree

    The tree of [MerkleTree] computes the Merkle tree hash and the audit
    paths of RFC 6962, for every number of leaves that fits into memory. *)
From stdpp Require Import base list option numbers tactics.
From Stdlib Require Import ZArith Lia Strings.Byte.
From S2P Require Import Prelude MerkleIndex MerkleTree.

Open Scope Z_scope.

(** ** Pushing a leaf *)
Section pushing.
Context (sha256 : list byte -> hash) (sha256_length : forall bs, length (sha256 bs) = 32%nat).
Implicit Types hs Bs pre : list hash.
Implicit Types n a c : Z.

Lemma combine_ok l r : hash_ok (combine sha256 l r).
Proof. apply sha256_length. Qed.

Lemma mth_ok hs : Forall hash_ok hs -> (1 <= length hs)%nat -> hash_ok (mth sha256 hs).
Proof.
  intros Hok Hlen. destruct (decide (1 < length hs)%nat).
  - rewrite mth_split by done. apply combine_ok.
  - destruct hs as [|h [|]]; cbn in *; try lia. by apply Forall_cons_1 in Hok as [Hh _].
Qed.

Lemma flat_ok hs : Forall hash_ok hs -> Forall hash_ok (flat sha256 hs).
Proof.
  induction hs as [|h|hs Hlen IHl IHr] using split_ind; intros Hok; [done..|].
  rewrite flat_split by done. apply Forall_app. split; [by apply IHl, Forall_take|].
  apply Forall_app. split; [|by apply IHr, Forall_drop].
  apply Forall_singleton, mth_ok; [done|lia].
Qed.

Lemma half_unique c j : 0 <= j -> 2 ^ j < c <= 2 * 2 ^ j -> half c = 2 ^ j.
Proof.
  intros Hj Hc. unfold half, height. rewrite (Z.log2_up_unique c (j + 1)).
  - f_equal. lia.
  - lia.
  - rewrite pow2_S by lia. replace (Z.pred (j + 1)) with j by lia. lia.
Qed.

(** Appending a leaf either tops a perfect tree with a new root or
    descends into the right subtree. *)
Lemma split_at_snoc hs h :
  (1 <= length hs)%nat ->
  split_at (hs ++ [h]) = length hs \/
  (1 < length hs)%nat /\ split_at (hs ++ [h]) = split_at hs.
Proof.
  intros Hlen. set (m := Z.of_nat (length hs)).
  assert (Z.of_nat (length (hs ++ [h])) = m + 1) as Hm by (rewrite length_app; cbn; lia).
  unfold split_at. rewrite Hm. fold m.
  pose proof (half_bounds (m + 1)) as Hb. pose proof (height_pos (m + 1)) as Hp.
  destruct (decide (half (m + 1) = m)) as [->|]; [left; lia|]. right.
  assert (half m = half (m + 1)) as ->; [|lia].
  unfold half at 2. apply half_unique; [lia|]. fold (half (m + 1)). lia.
Qed.

Lemma sub_root_shift a c : sub_root a c = 2 * a + sub_root 0 c.
Proof. unfold sub_root. lia. Qed.

Lemma lookup_flat_root pre hs post a :
  length pre = Z.to_nat (2 * a) -> 0 <= a -> (1 <= length hs)%nat ->
  (pre ++ flat sha256 hs ++ post) !! Z.to_nat (sub_root a (Z.of_nat (length hs))) =
    Some (mth sha256 hs).
Proof.
  intros Hpre Ha Hlen. pose proof (flat_root sha256 hs Hlen) as Hr.
  pose proof (height_nonneg (Z.of_nat (length hs))).
  assert (0 < 2 ^ height (Z.of_nat (length hs))) by (apply Z.pow_pos_nonneg; lia).
  rewrite sub_root_shift. unfold sub_root in *.
  rewrite lookup_app_r, lookup_app_l.
  - rewrite <- Hr. f_equal. lia.
  - pose proof (lookup_lt_Some _ _ _ Hr). lia.
  - lia.
Qed.

Definition drop_cont (fuel : nat) (t : Tree) (idx size root : Z) : run Tree :=
  if idx =? root then mret t else builder_drop_loop sha256 fuel t idx size root.

(** One turn of the loop, from the right child of a subtree to its root *)
Lemma drop_step f Bs n a c l r root :
  fits n -> buffer_ok Bs -> Z.of_nat (length Bs) = 2 * n - 1 -> 1 < c -> subtree n a c ->
  Bs !! Z.to_nat (sub_root a (half c)) = Some l ->
  Bs !! Z.to_nat (sub_root (a + half c) (c - half c)) = Some r ->
  root < sub_root (a + half c) (c - half c) ->
  drop_cont (S f) (tree_of Bs) (sub_root (a + half c) (c - half c)) (2 * n - 1) root =
    drop_cont f (tree_of (<[Z.to_nat (sub_root a c) := combine sha256 l r]> Bs)) (sub_root a c)
      (2 * n - 1) root.
Proof.
  intros Hfit Hok Hlen Hc Hs Hl Hr Hroot. unfold drop_cont at 1.
  rewrite (proj2 (Z.eqb_neq _ _)) by lia. cbn [builder_drop_loop].
  rewrite parent_right by done. cbn [mbind run_bind].
  rewrite (left_child_sub n) by done. cbn [mbind run_bind].
  rewrite right_child_sub by done. cbn [mbind run_bind].
  pose proof (sub_root_in_tree n a c Hs).
  pose proof (sub_root_in_tree n _ _ (subtree_left n a c Hc Hs)).
  pose proof (sub_root_in_tree n _ _ (subtree_right n a c Hc Hs)).
  rewrite (combine_nodes_of sha256 Bs _ _ l r) by (done || lia). cbn [mbind run_bind].
  rewrite set_node_of by (done || lia). reflexivity.
Qed.

Lemma drop_walk n z h : fits n -> hash_ok z -> hash_ok h -> forall m hs pre a,
  (length hs <= m)%nat -> (1 <= length hs)%nat ->
  Forall hash_ok pre -> Forall hash_ok hs -> length pre = Z.to_nat (2 * a) ->
  a + Z.of_nat (length hs) + 1 = n -> subtree n a (n - a) -> sub_root 0 n <= sub_root a (n - a) ->
  exists k, (k <= Z.to_nat (height (n - a)))%nat /\ forall f,
    drop_cont (k + f) (tree_of (pre ++ flat sha256 hs ++ [z; h])) (2 * (n - 1)) (2 * n - 1) (sub_root 0 n) =
    drop_cont f (tree_of (pre ++ flat sha256 (hs ++ [h]))) (sub_root a (n - a)) (2 * n - 1) (sub_root 0 n).
Proof.
  intros Hfit Hz Hh. induction m as [|m IH]; intros hs pre a Hm Hlen Hpre Hhs Hplen Hn Hs Hroot; [lia|].
  set (c := n - a) in *.
  assert (Z.of_nat (length (hs ++ [h])) = c) as Hc by (rewrite length_app; cbn; lia).
  assert (1 < c) as Hc1 by lia. assert (0 <= a) as Ha by apply Hs.
  pose proof (half_bounds c Hc1) as Hhalf. pose proof (height_pos c Hc1).
  assert (Z.of_nat (split_at (hs ++ [h])) = half c) as Hsplit.
  { rewrite <- Hc. apply split_at_bounds. lia. }
  pose proof (sub_root_bounds n a c Hs) as [_ [?|(_ & _ & Hroota)]]; [lia|].
  assert (Hbuf : forall X, Z.of_nat (length (pre ++ X)) = 2 * n - 1 -> Forall hash_ok X ->
            buffer_ok (pre ++ X)).
  { intros X HX HXok. split; [by apply Forall_app|]. rewrite HX. exact Hfit. }
  pose proof (flat_length sha256 hs Hlen) as Hflen. pose proof (flat_ok hs Hhs) as Hfok.
  destruct (split_at_snoc hs h Hlen) as [Hperf|[Hlen2 Hdeep]].
  - (* [hs] is the perfect left subtree, the new leaf the right one *)
    assert (half c = Z.of_nat (length hs)) as Hhc by lia.
    exists 1%nat. split; [lia|]. intros f.
    replace (2 * (n - 1)) with (sub_root (a + half c) (c - half c)).
    2:{ replace (c - half c) with 1 by lia. unfold sub_root. change (2 ^ height 1) with 1. lia. }
    assert (buffer_ok (pre ++ flat sha256 hs ++ [z; h])) as Hb.
    { apply Hbuf; [rewrite !length_app; cbn; lia|]. apply Forall_app. split; [done|].
      by repeat constructor. }
    cbn [Nat.add]. rewrite (drop_step f _ n a c (mth sha256 hs) h); try done.
    + do 2 f_equal. rewrite Hroota, insert_app_r_alt by lia. f_equal.
      rewrite insert_app_r_alt by lia.
      replace (_ - _ - _)%nat with 0%nat by lia. cbn [insert list_insert].
      rewrite (flat_split sha256 (hs ++ [h])), (mth_split sha256 (hs ++ [h])) by lia.
      rewrite Hperf, take_app_length, drop_app_length. done.
    + rewrite !length_app. cbn. lia.
    + rewrite Hhc. by apply lookup_flat_root.
    + replace (c - half c) with 1 by lia. unfold sub_root. change (2 ^ height 1) with 1.
      rewrite lookup_app_r, lookup_app_r by lia.
      replace (_ - _ - _)%nat with 1%nat by lia. done.
    + pose proof (sub_root_bounds n _ _ (subtree_right n a c Hc1 Hs)). lia.
  - (* the new leaf goes into the right subtree *)
    set (L := take (split_at hs) hs). set (R := drop (split_at hs) hs).
    pose proof (split_at_bounds hs Hlen2) as (Hsb & _). pose proof (take_drop_length hs Hlen2) as [HL HR].
    fold L R in HL, HR. rewrite Hdeep in Hsplit.
    assert (Forall hash_ok L) as HLok by by apply Forall_take.
    assert (Forall hash_ok R) as HRok by by apply Forall_drop.
    pose proof (flat_ok L HLok). pose proof (flat_length sha256 L) as HfL.
    set (pre' := pre ++ flat sha256 L ++ [mth sha256 hs]).
    assert (Forall hash_ok pre') as Hpre'.
    { apply Forall_app. split; [done|]. apply Forall_app. split; [done|].
      apply Forall_singleton, mth_ok; done || lia. }
    assert (length pre' = Z.to_nat (2 * (a + half c))) as Hplen'.
    { unfold pre'. rewrite !length_app. cbn. lia. }
    pose proof (subtree_right n a c Hc1 Hs) as HsR.
    pose proof (sub_root_bounds n _ _ HsR) as [HrR _].
    replace (c - half c) with (n - (a + half c)) in * by lia.
    destruct (IH R pre' (a + half c)) as (k & Hk & Hwalk); try done || lia.
    exists (k + 1)%nat. pose proof (height_rest c Hc1) as Hhr.
    replace (c - half c) with (n - (a + half c)) in Hhr by lia.
    pose proof (height_nonneg (n - (a + half c))). split; [lia|]. intros f.
    replace (k + 1 + f)%nat with (k + S f)%nat by lia.
    replace (pre ++ flat sha256 hs ++ [z; h]) with (pre' ++ flat sha256 R ++ [z; h]).
    2:{ rewrite (flat_split sha256 hs) by done. unfold pre'. by rewrite <- !app_assoc. }
    rewrite Hwalk.
    assert (take (split_at hs) (hs ++ [h]) = L) as HtL by (apply take_app_le; lia).
    assert (drop (split_at hs) (hs ++ [h]) = R ++ [h]) as HdR by (apply drop_app_le; lia).
    assert (1 <= length (R ++ [h]))%nat as HRlen by (rewrite length_app; cbn; lia).
    pose proof (flat_length sha256 (R ++ [h]) HRlen) as HfR. rewrite length_app in HfR. cbn in HfR.
    replace (n - (a + half c)) with (c - half c) by lia.
    rewrite (drop_step f _ n a c (mth sha256 L) (mth sha256 (R ++ [h]))); try done.
    + do 2 f_equal. rewrite Hroota. unfold pre'. rewrite <- !app_assoc.
      rewrite insert_app_r_alt by lia. f_equal. rewrite insert_app_r_alt by lia.
      replace (_ - _ - _)%nat with 0%nat by lia. cbn [insert list_insert app].
      rewrite (flat_split sha256 (hs ++ [h])), (mth_split sha256 (hs ++ [h])) by lia.
      by rewrite Hdeep, HtL, HdR.
    + split; [|unfold fits in Hfit; rewrite !length_app; cbn; lia].
      apply Forall_app. split; [done|]. apply flat_ok, Forall_app. split; [done|].
      by apply Forall_singleton.
    + rewrite !length_app. lia.
    + unfold pre'. rewrite <- !app_assoc. rewrite <- Hsplit, <- HL.
      apply lookup_flat_root; lia.
    + replace (c - half c) with (Z.of_nat (length (R ++ [h]))) by (rewrite length_app; cbn; lia).
      rewrite <- (app_nil_r (flat _ _)). apply lookup_flat_root; lia.
    + replace (c - half c) with (n - (a + half c)) by lia. lia.
Qed.

Lemma fits_le n m : fits n -> m <= n -> fits m.
Proof. unfold fits. lia. Qed.

Lemma tree_is_empty_flat hs :
  Forall hash_ok hs -> (1 <= length hs)%nat -> tree_is_empty (tree_of (flat sha256 hs)) = false.
Proof.
  intros Hok Hlen. apply bool_decide_eq_false. intros Heq.
  pose proof (concat_length _ (flat_ok hs Hok)) as Hl. unfold tree_of in Heq. cbn in Heq.
  rewrite Heq, flat_length in Hl by done. cbn in Hl. lia.
Qed.

Lemma buffer_ok_flat hs :
  Forall hash_ok hs -> fits (Z.of_nat (length hs)) -> buffer_ok (flat sha256 hs).
Proof.
  intros Hok Hfit. split; [by apply flat_ok|]. unfold fits in Hfit.
  destruct hs as [|h hs]; [done|]. rewrite flat_length by (cbn; lia). cbn [length] in *. lia.
Qed.

Lemma builder_drop_flat hs bs :
  Forall hash_ok hs -> fits (Z.of_nat (length hs) + 1) ->
  builder_drop sha256 (MkLeafBuilder (tree_of (flat sha256 hs)) (Some bs)) =
    Val (tree_of (flat sha256 (hs ++ [sha256 bs]))).
Proof.
  intros Hok Hfit. unfold builder_drop. cbn [builder_hasher builder_tree unwrap mbind run_bind].
  unfold hasher_finalize. destruct (decide (hs = [])) as [->|Hne].
  { cbn. unfold tree_of. cbn. by rewrite app_nil_r. }
  assert (1 <= length hs)%nat as Hlen by (destruct hs; [done|cbn; lia]).
  rewrite tree_is_empty_flat by done.
  set (n := Z.of_nat (length hs) + 1) in *. set (z := replicate 32 x00).
  assert (hash_ok z) as Hz by done.
  pose proof (sha256_length bs) as Hh. pose proof (flat_ok hs Hok) as Hfok.
  pose proof (flat_length sha256 hs Hlen) as Hflen.
  assert (MkTree (nodes (tree_of (flat sha256 hs)) ++ replicate 64 x00) =
    tree_of (flat sha256 hs ++ [z; z])) as ->.
  { unfold tree_of. cbn [nodes]. f_equal. rewrite concat_app. f_equal. }
  assert (Forall hash_ok (flat sha256 hs ++ [z; z])) as Hbok.
  { apply Forall_app. split; [done|]. by repeat constructor. }
  assert (Z.of_nat (length (flat sha256 hs ++ [z; z])) = 2 * n - 1) as Hblen.
  { rewrite length_app, Hflen. cbn. lia. }
  rewrite tree_len_of, Hblen by done. unfold checked_sub.
  rewrite (proj2 (Z.leb_le _ _)) by lia. cbn [unwrap mbind run_bind].
  rewrite set_node_of by (try split; try done; unfold fits in Hfit; lia). cbn [mbind run_bind].
  assert (<[Z.to_nat (2 * n - 1 - 1) := sha256 bs]> (flat sha256 hs ++ [z; z]) =
    flat sha256 hs ++ [z; sha256 bs]) as ->.
  { rewrite insert_app_r_alt by lia. f_equal. replace (_ - _)%nat with 1%nat by lia. done. }
  assert (Z.of_nat (length (flat sha256 hs ++ [z; sha256 bs])) = 2 * n - 1) as Hblen2.
  { rewrite length_app, Hflen. cbn. lia. }
  rewrite tree_len_of, Hblen2; [|apply Forall_app; split; [done|by repeat constructor]].
  pose proof (subtree_whole n ltac:(lia)) as Hs. unfold fits in Hfit.
  rewrite complete_root_size by lia. cbn [mbind run_bind].
  replace (2 ^ height n - 1) with (sub_root 0 n) by (unfold sub_root; lia).
  replace (2 * n - 1 - 1) with (2 * (n - 1)) by lia.
  destruct (drop_walk n z (sha256 bs) Hfit Hz Hh (length hs) hs [] 0) as (k & Hk & Hwalk);
    rewrite ?Z.sub_0_r; try done; try lia.
  rewrite Z.sub_0_r in Hk, Hwalk. specialize (Hwalk (64 - k)%nat). cbn [app] in Hwalk.
  pose proof (height_fits n 0 n Hfit Hs). pose proof (height_pos n).
  replace (k + (64 - k))%nat with 64%nat in Hwalk by lia.
  pose proof (sub_root_bounds n 0 n Hs). unfold drop_cont in Hwalk.
  rewrite (proj2 (Z.eqb_neq _ _)), Z.eqb_refl in Hwalk by lia. exact Hwalk.
Qed.

Lemma push_flat hs leaf :
  Forall hash_ok hs -> fits (Z.of_nat (length hs) + 1) ->
  push sha256 (tree_of (flat sha256 hs)) leaf =
    Val (tree_of (flat sha256 (hs ++ [hash_leaf sha256 leaf]))).
Proof. intros. unfold push. cbn [build_leaf builder_write builder_hasher]. by apply builder_drop_flat. Qed.

Lemma hash_leaves_ok leaves : Forall hash_ok (hash_leaf sha256 <$> leaves).
Proof. apply Forall_fmap, Forall_true. intros leaf. apply sha256_length. Qed.

Lemma push_all_flat leaves hs :
  Forall hash_ok hs -> fits (Z.of_nat (length hs + length leaves)) ->
  push_all sha256 (tree_of (flat sha256 hs)) leaves =
    Val (tree_of (flat sha256 (hs ++ (hash_leaf sha256 <$> leaves)))).
Proof.
  revert hs. induction leaves as [|leaf leaves IH]; intros hs Hok Hfit.
  - cbn. by rewrite app_nil_r.
  - cbn [push_all length] in *. rewrite push_flat; [|done|eapply fits_le; [done|lia]].
    cbn [mbind run_bind]. rewrite IH.
    + by rewrite <- app_assoc.
    + apply Forall_app. split; [done|]. apply Forall_singleton, sha256_length.
    + rewrite length_app. cbn. eapply fits_le; [done|lia].
Qed.

(** Building a tree yields the in-order layout of its RFC 6962 node hashes. *)
Lemma from_leaves_flat leaves :
  fits (Z.of_nat (length leaves)) ->
  from_leaves sha256 leaves = Val (tree_of (flat sha256 (hash_leaf sha256 <$> leaves))).
Proof. intros. by apply (push_all_flat leaves []). Qed.

Lemma tree_root_flat hs :
  Forall hash_ok hs -> fits (Z.of_nat (length hs)) ->
  tree_root sha256 (tree_of (flat sha256 hs)) = Val (mth sha256 hs).
Proof.
  intros Hok Hfit. unfold tree_root. destruct (decide (hs = [])) as [->|Hne].
  { done. }
  assert (1 <= length hs)%nat as Hlen by (destruct hs; [done|cbn; lia]).
  rewrite tree_is_empty_flat, tree_len_of, flat_length by (auto using flat_ok).
  replace (Z.of_nat (2 * length hs - 1)) with (2 * Z.of_nat (length hs) - 1) by lia.
  rewrite complete_root_size by (unfold fits in Hfit; lia). cbn [mbind run_bind].
  pose proof (flat_root sha256 hs Hlen) as Hr. unfold sub_root in Hr.
  pose proof (Z.pow_pos_nonneg 2 (height (Z.of_nat (length hs)))).
  pose proof (height_nonneg (Z.of_nat (length hs))).
  apply get_node_of; [by apply buffer_ok_flat|lia|]. rewrite <- Hr. done.
Qed.
End pushing.
