(* ===== verification/MerkleTheorems.v ===== *)
(** * The guarantees of the Merkle tree

    The properties a user of [astria-merkle] relies on, from the lemmas of
    [MerkleCorrect] and [MerkleAudit]: roots are RFC 6962 roots, constructed
    proofs verify, verified proofs show membership (and the position when the
    path has the right length), and over-long paths panic. *)
From stdpp Require Import base list option numbers tactics.
From Stdlib Require Import ZArith Lia Strings.Byte.
From S2P Require Import Prelude MerkleIndex MerkleTree MerkleCorrect MerkleAudit.
Open Scope Z_scope.

Section chunks.
Lemma chunks32_fuel_enough f g bs :
  (length bs <= f)%nat -> (length bs <= g)%nat -> chunks32_fuel f bs = chunks32_fuel g bs.
Proof.
  revert g bs. induction f as [|f IH]; intros g bs Hf Hg.
  - destruct bs; [|cbn in *; lia]. by destruct g.
  - destruct bs as [|b bs]; [by destruct g|]. destruct g as [|g]; [cbn in *; lia|].
    cbn -[take drop]. f_equal. apply IH; rewrite length_drop; cbn [length] in *; lia.
Qed.

Lemma chunks32_app h bs : hash_ok h -> chunks32 (h ++ bs) = h :: chunks32 bs.
Proof.
  unfold hash_ok. intros Hh. unfold chunks32 at 1. destruct h as [|b h]; [done|].
  cbn [app length chunks32_fuel].
  change (b :: h ++ bs) with ((b :: h) ++ bs).
  rewrite take_app_le, take_ge, drop_app_ge, Hh, drop_0 by lia. f_equal.
  apply chunks32_fuel_enough; rewrite ?length_app; lia.
Qed.

Lemma chunks32_concat p : Forall hash_ok p -> chunks32 (concat p) = p.
Proof. induction 1 as [|h p Hh _ IH]; [done|]. cbn [concat]. by rewrite chunks32_app, IH. Qed.

(** A path whose length is a multiple of 32 is a list of hashes. *)
Lemma path_is_concat bs :
  Z.of_nat (length bs) mod 32 = 0 -> exists p, Forall hash_ok p /\ bs = concat p.
Proof.
  intros Hmod. assert (exists k, length bs = (32 * k)%nat) as [k Hk].
  { exists (Z.to_nat (Z.of_nat (length bs) / 32)). pose proof (Z.div_mod (Z.of_nat (length bs)) 32). lia. }
  clear Hmod. revert bs Hk. induction k as [|k IH]; intros bs Hk.
  - exists []. split; [done|]. destruct bs; [done|cbn in Hk; lia].
  - destruct (IH (drop 32 bs)) as (p & Hp & Heq); [rewrite length_drop; lia|].
    exists (take 32 bs :: p). split.
    + constructor; [unfold hash_ok; rewrite length_take; lia|done].
    + cbn [concat]. by rewrite <- Heq, take_drop.
Qed.
End chunks.

Section walk.
Context (sha256 : list byte -> hash) (sha256_length : forall bs, length (sha256 bs) = 32%nat).
Implicit Types hs p : list hash.
Implicit Types (n a : Z) (i : nat).

(** [ds] are the directions of the walk from leaf [i] of the subtree at [a]
    to its root: they say what the audit computes from an arbitrary leaf
    hash and path, that the RFC path leads to the root hash, and that no
    other leaf hash does. *)
Record walks n hs a i (ds : list bool) : Prop := {
  walks_length : length ds = length (rfc_path sha256 hs i);
  walks_loop p rest h : length p = length ds ->
    reconstruct_loop sha256 (p ++ rest) (2 * (a + Z.of_nat i)) (2 * n - 1) h =
    reconstruct_loop sha256 rest (sub_root a (Z.of_nat (length hs))) (2 * n - 1)
      (climb sha256 h (zip ds p));
  walks_preimages p rest h : length p = length ds ->
    loop_preimages sha256 (p ++ rest) (2 * (a + Z.of_nat i)) (2 * n - 1) h =
    climb_preimages sha256 h (zip ds p) ++
      loop_preimages sha256 rest (sub_root a (Z.of_nat (length hs))) (2 * n - 1)
        (climb sha256 h (zip ds p));
  walks_complete h : hs !! i = Some h ->
    climb sha256 h (zip ds (rfc_path sha256 hs i)) = mth sha256 hs;
  walks_sound p h Q : length p = length ds -> Forall hash_ok p -> hash_ok h ->
    collision_free sha256 Q -> branch_preimages sha256 hs ⊆ Q ->
    climb_preimages sha256 h (zip ds p) ⊆ Q ->
    climb sha256 h (zip ds p) = mth sha256 hs -> hs !! i = Some h;
}.

Lemma sub_root_one a h : sub_root a (Z.of_nat (length [h : hash])) = 2 * (a + Z.of_nat 0).
Proof. unfold sub_root. change (2 ^ height (Z.of_nat (length [h]))) with 1. lia. Qed.

Lemma walks_one n h a : walks n [h] a 0 [].
Proof.
  split.
  - done.
  - intros p rest h' Hp. destruct p; [|done]. cbn [app zip_with climb foldl]. by rewrite sub_root_one.
  - intros p rest h' Hp. destruct p; [|done]. cbn [app zip_with climb foldl]. by rewrite sub_root_one.
  - intros h' Hh'. cbn in Hh'. by simplify_eq.
  - intros p h' Q _ _ _ _ _ _ Heq. cbn in Heq. by rewrite Heq.
Qed.

(** A path of one more step, taken apart at its end *)
Lemma path_snoc {A B} (ds : list A) d (p : list B) :
  length p = length (ds ++ [d]) ->
  exists (p' : list B) (s : B), p = p' ++ [s] /\ length p' = length ds /\ zip (ds ++ [d]) p = zip ds p' ++ [(d, s)].
Proof.
  destruct p as [|s p _] using rev_ind; rewrite !length_app; cbn; intros Hp; [lia|].
  exists p, s. split_and!; [done|lia|]. by rewrite zip_with_app by lia.
Qed.

(** One more step: [acc] is the hash of the child reached, [d] says whether
    it is the left one. *)
Lemma walks_step n hs a i (d : bool) (ds : list bool) (L := take (split_at hs) hs) (R := drop (split_at hs) hs)
    (child := if d then L else R) (sibling := if d then R else L) (ac : Z) (ic : nat) :
  fits n -> (1 < length hs)%nat -> Forall hash_ok hs -> subtree n a (Z.of_nat (length hs)) ->
  ac + Z.of_nat ic = a + Z.of_nat i -> hs !! i = child !! ic ->
  sub_root ac (Z.of_nat (length child)) =
    (if d then sub_root a (half (Z.of_nat (length hs)))
     else sub_root (a + half (Z.of_nat (length hs))) (Z.of_nat (length hs) - half (Z.of_nat (length hs)))) ->
  rfc_path sha256 hs i = rfc_path sha256 child ic ++ [mth sha256 sibling] ->
  walks n child ac ic ds -> walks n hs a i (ds ++ [d]).
Proof.
  intros Hfit Hlen Hok Hs Hpos Hlook Hroot Hpath [Hds Hloop Hpres Hcomp Hsound].
  destruct (split_subtree n a hs Hlen Hs) as (Hc & _ & _ & _ & HL1 & HR1 & _ & _ & _).
  pose proof (branch_preimages_split sha256 hs Hlen) as Hb. cbn zeta in Hb.
  pose proof (mth_split sha256 hs Hlen) as Hmth. fold L R in HL1, HR1, Hb, Hmth.
  assert (Forall hash_ok L) as HLok by by apply Forall_take.
  pose proof (mth_ok sha256 sha256_length L HLok HL1) as HmL.
  pose proof (child_roots n a _ Hc Hs). split.
  - rewrite Hpath, !length_app, Hds. done.
  - intros p rest h Hp. destruct (path_snoc ds d p Hp) as (p' & s & -> & Hp' & ->).
    rewrite <- app_assoc, <- Hpos, Hloop, Hroot, climb_snoc by done. cbn [app reconstruct_loop].
    destruct d; [rewrite parent_left by done|rewrite parent_right by done]; cbn [mbind run_bind];
      [rewrite (proj2 (Z.ltb_lt _ _)) by lia|rewrite (proj2 (Z.ltb_ge _ _)) by lia]; done.
  - intros p rest h Hp. destruct (path_snoc ds d p Hp) as (p' & s & -> & Hp' & ->).
    rewrite <- app_assoc, <- Hpos, Hpres, Hroot, climb_snoc, climb_preimages_snoc, <- app_assoc by done.
    f_equal. cbn [app loop_preimages].
    destruct d; [rewrite parent_left by done|rewrite parent_right by done];
      [rewrite (proj2 (Z.ltb_lt _ _)) by lia|rewrite (proj2 (Z.ltb_ge _ _)) by lia]; done.
  - intros h Hh. rewrite Hpath, zip_with_app by done. cbn [zip_with].
    rewrite climb_snoc, Hcomp, Hmth by congruence. by destruct d.
  - intros p h Q Hp Hpok Hh Hcf HbQ HcQ Heq.
    destruct (path_snoc ds d p Hp) as (p' & s & -> & Hp' & Hzip). rewrite Hzip in Heq, HcQ.
    rewrite climb_snoc, Hmth in Heq. rewrite climb_preimages_snoc in HcQ.
    apply Forall_app in Hpok as [Hpok Hsok]. apply Forall_cons_1 in Hsok as [Hsok _].
    apply Hcf in Heq; [|apply HcQ, elem_of_app; right; by left|apply HbQ; rewrite Hb; left].
    rewrite Hlook. apply (Hsound p' h Q); try done.
    + intros x Hx. apply HbQ. rewrite Hb. right. apply elem_of_app. subst child. destruct d; auto.
    + intros x Hx. apply HcQ, elem_of_app. by left.
    + pose proof (climb_ok sha256 sha256_length h (zip ds p') Hh) as Hcok.
      unfold climb_pre in Heq. subst child. by destruct d; apply node_preimage_inj in Heq as [??].
Qed.

Lemma walk_exists n hs : fits n -> forall a i,
  (i < length hs)%nat -> Forall hash_ok hs -> subtree n a (Z.of_nat (length hs)) ->
  exists ds, walks n hs a i ds.
Proof.
  intros Hfit. induction hs as [|h|hs Hlen IHl IHr] using split_ind; intros a i Hi Hok Hs; [cbn in *; lia| |].
  { cbn in Hi. assert (i = 0%nat) as -> by lia. exists []. apply walks_one. }
  destruct (split_subtree n a hs Hlen Hs) as (Hc & Hk & HL & HR & HL1 & HR1 & Hsl & Hsr & Ha).
  pose proof (rfc_path_split sha256 hs i Hlen) as Hpath.
  pose proof (take_drop (split_at hs) hs) as Htd.
  case_decide as Hik.
  - destruct (IHl a i) as (ds & Hds); [lia|by apply Forall_take|by rewrite HL|].
    exists (ds ++ [true]). apply (walks_step n hs a i true ds a i); try done.
    + rewrite <- Htd at 1. apply lookup_app_l. lia.
    + by rewrite HL.
  - destruct (IHr (a + half (Z.of_nat (length hs))) (i - split_at hs)%nat) as (ds & Hds);
      [lia|by apply Forall_drop|by rewrite HR|].
    exists (ds ++ [false]).
    apply (walks_step n hs a i false ds (a + half (Z.of_nat (length hs))) (i - split_at hs)); try done.
    + lia.
    + rewrite <- Htd at 1. rewrite lookup_app_r by lia. f_equal. lia.
    + by rewrite HR.
Qed.
End walk.

(** ** The properties *)
Section properties.
Context (sha256 : list byte -> hash) (sha256_length : forall bs, length (sha256 bs) = 32%nat).
Implicit Types leaves : list (list byte).

(** Reconstruction from a path of hashes *)
Lemma reconstruct_hashes p i n h :
  0 <= i < 2 ^ 63 -> Forall hash_ok p ->
  reconstruct_root_with_leaf_hash sha256 (MkProof (concat p) i n) h =
    reconstruct_loop sha256 p (i * 2) n h.
Proof.
  intros Hi Hp. unfold reconstruct_root_with_leaf_hash, leaf_index_to_tree_index, checked_mul.
  cbn [leaf_index audit_path tree_size]. rewrite (proj2 (Z.ltb_lt _ _)) by lia.
  cbn [unwrap mbind run_bind]. by rewrite chunks32_concat.
Qed.

Lemma verify_unfold p leaf root :
  verify sha256 p leaf root =
    (r ← reconstruct_root_with_leaf_hash sha256 p (hash_leaf sha256 leaf);
     mret (bool_decide (root = r))).
Proof. done. Qed.

Lemma rfc_path_ok hs i : Forall hash_ok hs -> Forall hash_ok (rfc_path sha256 hs i).
Proof.
  revert i. induction hs as [|h|hs Hlen IHl IHr] using split_ind; intros i Hok; [done..|].
  pose proof (take_drop_length hs Hlen). pose proof (split_at_bounds hs Hlen).
  rewrite rfc_path_split by done.
  case_decide; apply Forall_app; (split; [auto using Forall_take, Forall_drop|]);
    (constructor; [|done]); apply mth_ok; auto using Forall_take, Forall_drop; lia.
Qed.

Lemma leaf_walk leaves i :
  fits (Z.of_nat (length leaves)) -> (i < length leaves)%nat ->
  exists ds, walks sha256 (Z.of_nat (length leaves)) (hash_leaf sha256 <$> leaves) 0 i ds.
Proof.
  intros Hfit Hi. apply walk_exists; rewrite ?length_fmap; try done.
  - by apply hash_leaves_ok.
  - apply subtree_whole. lia.
Qed.

(** C32. The root of a tree built leaf by leaf is the Merkle tree hash of
    RFC 6962, the empty tree's being the digest of the empty string. *)
Theorem tree_root_is_rfc6962 leaves :
  fits (Z.of_nat (length leaves)) ->
  (t ← from_leaves sha256 leaves; tree_root sha256 t) = Val (rfc_mth sha256 leaves).
Proof.
  intros Hfit. rewrite from_leaves_flat by done. cbn [mbind run_bind].
  apply tree_root_flat; rewrite ?length_fmap; auto using hash_leaves_ok.
Qed.

(** The proof of leaf [i] that RFC 6962 prescribes *)
Definition leaf_proof leaves (i : nat) : Proof :=
  MkProof (concat (rfc_path sha256 (hash_leaf sha256 <$> leaves) i)) (Z.of_nat i)
    (2 * Z.of_nat (length leaves) - 1).

Lemma construct_leaf_proof leaves i :
  fits (Z.of_nat (length leaves)) -> (i < length leaves)%nat ->
  construct_proof (tree_of (flat sha256 (hash_leaf sha256 <$> leaves))) (Z.of_nat i) =
    Val (Some (leaf_proof leaves i)).
Proof.
  intros Hfit Hi. unfold fits in *.
  rewrite construct_proof_flat by (rewrite ?length_fmap; auto using hash_leaves_ok with lia).
  by rewrite length_fmap, (proj2 (Z.ltb_lt _ _)), Nat2Z.id by lia.
Qed.

Lemma leaf_proof_valid leaves i :
  fits (Z.of_nat (length leaves)) -> (i < length leaves)%nat ->
  try_into_proof (into_unchecked (leaf_proof leaves i)) = Val (Ok (leaf_proof leaves i)).
Proof.
  intros Hfit Hi. unfold fits in *.
  pose proof (rfc_path_ok _ i (hash_leaves_ok _ sha256_length leaves)) as Hpath.
  unfold try_into_proof, is_leaf_index_in_tree, leaf_index_to_tree_index, checked_mul, is_tree_index_in_tree.
  cbn [leaf_proof into_unchecked unchecked_tree_size unchecked_leaf_index unchecked_audit_path tree_size
    leaf_index audit_path].
  rewrite (proj2 (Z.eqb_neq _ 0)) by lia.
  rewrite (proj2 (Z.ltb_lt _ (2 ^ 64))) by lia. cbn [unwrap mbind run_bind mret run_ret].
  rewrite (proj2 (Z.ltb_lt _ _)) by lia. cbn [negb].
  by rewrite concat_length, Nat2Z.inj_mul, Z.mul_comm, Z.mod_mul by (done || lia).
Qed.

Lemma leaf_proof_verifies leaves i leaf :
  fits (Z.of_nat (length leaves)) -> leaves !! i = Some leaf ->
  verify sha256 (leaf_proof leaves i) leaf (rfc_mth sha256 leaves) = Val true.
Proof.
  intros Hfit Hleaf. pose proof (lookup_lt_Some _ _ _ Hleaf) as Hi. unfold fits in *.
  pose proof (rfc_path_ok _ i (hash_leaves_ok _ sha256_length leaves)) as Hpath.
  destruct (leaf_walk leaves i Hfit Hi) as (ds & [Hds Hloop _ Hcomp _]).
  rewrite verify_unfold. unfold leaf_proof. rewrite reconstruct_hashes by (done || lia).
  rewrite <- (app_nil_r (rfc_path _ _ _)).
  replace (Z.of_nat i * 2) with (2 * (0 + Z.of_nat i)) by lia. rewrite Hloop by done. cbn.
  rewrite Hcomp by (by rewrite list_lookup_fmap, Hleaf).
  by rewrite bool_decide_eq_true_2.
Qed.

(** C34. The proof constructed for a leaf carries the audit path of RFC 6962 and
    verifies against the root. *)
Theorem constructed_proof_verifies leaves i leaf :
  fits (Z.of_nat (length leaves)) -> leaves !! i = Some leaf ->
  exists p,
    (t ← from_leaves sha256 leaves; construct_proof t (Z.of_nat i)) = Val (Some p) /\
    p = MkProof (concat (rfc_path sha256 (hash_leaf sha256 <$> leaves) i)) (Z.of_nat i)
          (2 * Z.of_nat (length leaves) - 1) /\
    try_into_proof (into_unchecked p) = Val (Ok p) /\
    verify sha256 p leaf (rfc_mth sha256 leaves) = Val true.
Proof.
  intros Hfit Hleaf. pose proof (lookup_lt_Some _ _ _ Hleaf) as Hi.
  exists (leaf_proof leaves i). split_and!.
  - rewrite from_leaves_flat by done. by apply construct_leaf_proof.
  - reflexivity.
  - by apply leaf_proof_valid.
  - by apply leaf_proof_verifies.
Qed.

(** The strings hashed to compute the root and to audit the proof *)
Definition audit_queries leaves p leaf := tree_preimages sha256 leaves ++ audit_preimages sha256 p leaf.

Lemma leaf_hash_inj leaves leaf Q l :
  collision_free sha256 Q -> leaf_preimage leaf ∈ Q -> (leaf_preimage <$> leaves) ⊆ Q -> l ∈ leaves ->
  hash_leaf sha256 leaf = hash_leaf sha256 l -> leaf = l.
Proof.
  intros Hcf Hleaf Hleaves Hl Heq.
  assert (leaf_preimage leaf = leaf_preimage l) as Hinj; [|by injection Hinj].
  apply Hcf; [done| |exact Heq]. apply Hleaves, list_elem_of_fmap. eauto.
Qed.

(** What a successful verification says about the walk *)
Lemma verify_true p leaf root :
  0 <= leaf_index p < 2 ^ 63 -> Z.of_nat (length (audit_path p)) mod 32 = 0 ->
  verify sha256 p leaf root = Val true ->
  exists path, Forall hash_ok path /\ audit_path p = concat path /\ chunks32 (audit_path p) = path /\
    reconstruct_loop sha256 path (leaf_index p * 2) (tree_size p) (hash_leaf sha256 leaf) = Val root.
Proof.
  intros Hi Hmod Hv. destruct (path_is_concat _ Hmod) as (path & Hpath & Heq).
  exists path. rewrite Heq, chunks32_concat by done. split_and!; try done.
  rewrite verify_unfold in Hv. destruct p as [bs i n]. cbn in *. subst bs.
  rewrite reconstruct_hashes in Hv by done.
  destruct (reconstruct_loop _ _ _ _ _) as [r| |]; cbn in Hv; try done.
  unfold mret, run_ret in Hv. simplify_eq. apply bool_decide_eq_true in Hv. by subst.
Qed.

Lemma verified_member leaves p leaf :
  leaves <> [] -> 0 <= leaf_index p < 2 ^ 63 -> Z.of_nat (length (audit_path p)) mod 32 = 0 ->
  collision_free sha256 (audit_queries leaves p leaf) ->
  verify sha256 p leaf (rfc_mth sha256 leaves) = Val true -> leaf ∈ leaves.
Proof.
  intros Hne Hi Hmod Hcf Hv.
  destruct (verify_true p leaf _ Hi Hmod Hv) as (path & Hpath & Heq & Hch & Hrec).
  destruct (reconstruct_climb sha256 path _ _ _ _ Hrec) as (ds & Hds & Hroot & Hpre).
  set (hs := hash_leaf sha256 <$> leaves) in *.
  assert (hash_leaf sha256 leaf ∈ hs) as Hin.
  { apply (climb_member sha256 sha256_length leaf (zip ds path) hs (audit_queries leaves p leaf)).
    - unfold hs. rewrite length_fmap. destruct leaves; [done|cbn; lia].
    - by apply hash_leaves_ok.
    - intros h (l & -> & Hl)%list_elem_of_fmap. exists l. split; [done|].
      apply elem_of_app. left. apply elem_of_app. left. apply list_elem_of_fmap. eauto.
    - clear -Hpath Hds. revert ds Hds. induction Hpath as [|s path Hs _ IH]; intros [|d ds] Hds; try done.
      constructor; [exact Hs|]. apply IH. cbn in Hds. lia.
    - done.
    - apply elem_of_app. right. by left.
    - intros x Hx. apply elem_of_app. left. apply elem_of_app. right.
      unfold hs, branch_preimages in Hx. by rewrite length_fmap in Hx.
    - intros x Hx. apply elem_of_app. right. right. by rewrite Hch, Hpre.
    - done. }
  apply list_elem_of_fmap in Hin as (l & Heql & Hl).
  rewrite (leaf_hash_inj leaves leaf (audit_queries leaves p leaf) l); try done.
  - apply elem_of_app. right. by left.
  - intros x Hx. apply elem_of_app. left. apply elem_of_app. by left.
Qed.

(** C33. A leaf whose proof verifies is a leaf of the tree, whatever index, size
    and path the proof claims. *)
Theorem verified_leaf_is_member leaves p leaf :
  leaves <> [] -> 0 <= leaf_index p < 2 ^ 63 -> Z.of_nat (length (audit_path p)) mod 32 = 0 ->
  collision_free sha256 (audit_queries leaves p leaf) ->
  verify sha256 p leaf (rfc_mth sha256 leaves) = Val true -> leaf ∈ leaves.
Proof. apply verified_member. Qed.

(** With a path of the right length the proof also fixes the position. *)
Theorem verified_leaf_position leaves p leaf i :
  fits (Z.of_nat (length leaves)) -> (i < length leaves)%nat ->
  leaf_index p = Z.of_nat i -> tree_size p = 2 * Z.of_nat (length leaves) - 1 ->
  length (audit_path p) = (32 * length (rfc_path sha256 (hash_leaf sha256 <$> leaves) i))%nat ->
  collision_free sha256 (audit_queries leaves p leaf) ->
  verify sha256 p leaf (rfc_mth sha256 leaves) = Val true -> leaves !! i = Some leaf.
Proof.
  intros Hfit Hi Hidx Hsize Hlen Hcf Hv. unfold fits in *.
  destruct (verify_true p leaf (rfc_mth sha256 leaves)) as (path & Hpath & Heq & Hch & Hrec);
    [lia| |done|].
  { rewrite Hlen, Nat2Z.inj_mul, Z.mul_comm. apply Z.mod_mul. lia. }
  destruct (leaf_walk leaves i Hfit Hi) as (ds & [Hds Hloop Hpres _ Hsound]).
  set (hs := hash_leaf sha256 <$> leaves) in *.
  assert (length path = length ds) as Hpl.
  { rewrite Heq, concat_length in Hlen by done. lia. }
  pose proof (Hloop path [] (hash_leaf sha256 leaf) Hpl) as Hl. rewrite app_nil_r in Hl. cbn [reconstruct_loop] in Hl.
  rewrite Hidx, Hsize in Hrec. replace (Z.of_nat i * 2) with (2 * (0 + Z.of_nat i)) in Hrec by lia.
  rewrite Hrec in Hl. injection Hl as Hl.
  assert (loop_preimages sha256 path (leaf_index p * 2) (tree_size p) (hash_leaf sha256 leaf) =
    climb_preimages sha256 (hash_leaf sha256 leaf) (zip ds path)) as Hpre.
  { rewrite Hidx, Hsize. replace (Z.of_nat i * 2) with (2 * (0 + Z.of_nat i)) by lia.
    rewrite <- (app_nil_r path) at 1. rewrite Hpres by done. apply app_nil_r. }
  assert (hs !! i = Some (hash_leaf sha256 leaf)) as Hlook.
  { apply (Hsound path _ (audit_queries leaves p leaf)); try done.
    - apply sha256_length.
    - intros x Hx. apply elem_of_app. left. apply elem_of_app. right.
      unfold hs, branch_preimages in Hx. by rewrite length_fmap in Hx.
    - intros x Hx. apply elem_of_app. right. right. by rewrite Hch, Hpre. }
  unfold hs in Hlook. rewrite list_lookup_fmap in Hlook.
  destruct (leaves !! i) as [l|] eqn:Hli; cbn in Hlook; [|done]. injection Hlook as Heql.
  rewrite (leaf_hash_inj leaves leaf (audit_queries leaves p leaf) l); try done.
  - apply elem_of_app. right. by left.
  - intros x Hx. apply elem_of_app. left. apply elem_of_app. by left.
  - eapply list_elem_of_lookup_2; done.
Qed.

(** Above the root the walk never meets the tree again. *)
Lemma parent_above_root_panics k : forall (fuel : nat) d N,
  (k < fuel)%nat -> 0 <= d -> d + Z.of_nat k = 64 -> N <= 2 ^ (d + 1) - 1 ->
  complete_parent_loop fuel (node d 0) N = Panic.
Proof.
  induction k as [|k IH]; intros fuel d N Hfuel Hd Hdk HN; (destruct fuel as [|fuel]; [lia|]);
    cbn [complete_parent_loop].
  - assert (d = 64) as -> by lia. reflexivity.
  - assert (2 ^ d <= 2 ^ 63) by (apply Z.pow_le_mono_r; lia).
    assert (2 ^ (d + 1) < 2 ^ (d + 1 + 1)) by (apply Z.pow_lt_mono_r; lia).
    rewrite perfect_parent_node by (unfold node in *; lia). cbn [mbind run_bind].
    rewrite Z.div_0_l by lia. rewrite (proj2 (Z.ltb_ge _ _)) by (unfold node; lia).
    apply IH; lia.
Qed.

(** A path with more hashes than the leaf is deep panics: the audit never
    returns a root for it. *)
Theorem overlong_path_panics leaves p leaf root i :
  fits (Z.of_nat (length leaves)) -> (i < length leaves)%nat ->
  leaf_index p = Z.of_nat i -> tree_size p = 2 * Z.of_nat (length leaves) - 1 ->
  Z.of_nat (length (audit_path p)) mod 32 = 0 ->
  (32 * length (rfc_path sha256 (hash_leaf sha256 <$> leaves) i) < length (audit_path p))%nat ->
  verify sha256 p leaf root = Panic.
Proof.
  intros Hfit Hi Hidx Hsize Hmod Hlong.
  destruct (leaf_walk leaves i Hfit Hi) as (ds & [Hds Hloop _ _ _]).
  set (hs := hash_leaf sha256 <$> leaves) in *. set (n := Z.of_nat (length leaves)) in *.
  destruct (path_is_concat _ Hmod) as (path & Hpath & Heq).
  rewrite Heq, concat_length in Hlong by done. rewrite verify_unfold.
  destruct p as [bs idx size]. cbn in *. subst bs idx size. unfold fits in *.
  rewrite reconstruct_hashes by (done || lia).
  rewrite <- (take_drop (length ds) path).
  replace (Z.of_nat i * 2) with (2 * (0 + Z.of_nat i)) by lia.
  rewrite Hloop by (rewrite length_take; lia).
  destruct (drop (length ds) path) as [|s rest] eqn:Hdrop.
  { apply (f_equal length) in Hdrop. rewrite length_drop in Hdrop. cbn in Hdrop. lia. }
  cbn [reconstruct_loop]. unfold hs. rewrite length_fmap. fold n.
  pose proof (subtree_whole n ltac:(lia)) as Hs.
  pose proof (height_fits n 0 n Hfit Hs). pose proof (height_nonneg n).
  pose proof (height_le n ltac:(lia)).
  replace (sub_root 0 n) with (node (height n) 0) by (unfold node, sub_root; lia).
  unfold complete_parent.
  rewrite (parent_above_root_panics (Z.to_nat (64 - height n))); [done|lia..|].
  rewrite pow2_S by lia. lia.
Qed.

(** A path shorter than the leaf is deep can verify at another position:
    the last of three leaves passes as the second one. *)
Theorem short_path_other_position l0 l1 l2 :
  verify sha256 (MkProof (combine sha256 (hash_leaf sha256 l0) (hash_leaf sha256 l1)) 1 5) l2
    (rfc_mth sha256 [l0; l1; l2]) = Val true.
Proof.
  rewrite verify_unfold.
  pose proof (reconstruct_hashes [combine sha256 (hash_leaf sha256 l0) (hash_leaf sha256 l1)] 1 5
    (hash_leaf sha256 l2)) as Hr.
  cbn [concat] in Hr. rewrite app_nil_r in Hr. rewrite Hr; [|lia|by constructor; [apply combine_ok|]].
  cbn [reconstruct_loop]. change (complete_parent (1 * 2) 5) with (@Val Z 1).
  cbn [mbind run_bind mret run_ret]. change (1 * 2 <? 1) with false.
  unfold mret, run_ret. f_equal. by apply bool_decide_eq_true_2.
Qed.
End properties.

(** ** Witnesses *)
Definition collision_freeb (sha256 : list byte -> hash) (Q : list (list byte)) : bool :=
  forallb (fun x => forallb (fun y => implb (bool_decide (sha256 x = sha256 y)) (bool_decide (x = y))) Q) Q.

Lemma collision_freeb_spec sha256 Q : collision_freeb sha256 Q = true -> collision_free sha256 Q.
Proof.
  intros H x y Hx Hy Heq. unfold collision_freeb in H. rewrite forallb_forall in H.
  specialize (H x (proj1 (list_elem_of_In _ _) Hx)). rewrite forallb_forall in H.
  specialize (H y (proj1 (list_elem_of_In _ _) Hy)).
  rewrite (bool_decide_eq_true_2 _ Heq) in H. by apply bool_decide_eq_true in H.
Qed.

Definition toy_proof_of (i : nat) : Proof :=
  MkProof (concat (rfc_path toy_sha (hash_leaf toy_sha <$> toy_leaves) i)) (Z.of_nat i) 13.

Lemma tree_root_is_rfc6962_witness :
  (t ← from_leaves toy_sha toy_leaves; tree_root toy_sha t) = Val (rfc_mth toy_sha toy_leaves).
Proof. apply (tree_root_is_rfc6962 toy_sha toy_sha_length toy_leaves). reflexivity. Defined.

Lemma constructed_proof_verifies_witness :
  exists p, (t ← from_leaves toy_sha toy_leaves; construct_proof t 4) = Val (Some p) /\
    verify toy_sha p [x05] (rfc_mth toy_sha toy_leaves) = Val true.
Proof.
  destruct (constructed_proof_verifies toy_sha toy_sha_length toy_leaves 4 [x05]) as (p & Hp & _ & _ & Hv);
    [reflexivity..|]. exists p. split; [exact Hp|exact Hv].
Defined.

Lemma verified_leaf_is_member_witness : [x05] ∈ toy_leaves.
Proof.
  apply (verified_leaf_is_member toy_sha toy_sha_length toy_leaves (toy_proof_of 4) [x05]).
  - discriminate.
  - split; [discriminate|reflexivity].
  - vm_compute. reflexivity.
  - apply collision_freeb_spec. vm_compute. reflexivity.
  - vm_compute. reflexivity.
Defined.

Lemma verified_leaf_position_witness : toy_leaves !! 4%nat = Some [x05].
Proof.
  apply (verified_leaf_position toy_sha toy_sha_length toy_leaves (toy_proof_of 4) [x05] 4).
  - reflexivity.
  - cbn. lia.
  - reflexivity.
  - reflexivity.
  - vm_compute. reflexivity.
  - apply collision_freeb_spec. vm_compute. reflexivity.
  - vm_compute. reflexivity.
Defined.

Lemma overlong_path_panics_witness :
  verify toy_sha (MkProof (audit_path (toy_proof_of 4) ++ replicate 32 x00) 4 13) [x05]
    (rfc_mth toy_sha toy_leaves) = Panic.
Proof.
  apply (overlong_path_panics toy_sha toy_sha_length toy_leaves _ _ _ 4).
  - reflexivity.
  - cbn. lia.
  - reflexivity.
  - reflexivity.
  - vm_compute. reflexivity.
  - vm_compute. lia.
Defined.

Lemma short_path_other_position_witness :
  verify toy_sha
    (MkProof (combine toy_sha (hash_leaf toy_sha [x01]) (hash_leaf toy_sha [x02])) 1 5) [x03]
    (rfc_mth toy_sha [[x01]; [x02]; [x03]]) = Val true.
Proof. apply (short_path_other_position toy_sha toy_sha_length [x01] [x02] [x03]). Defined.

(** * Merkle roots bind their leaves

    Two lists of leaves with the same root are the same list, as long as the
    digest has no collision among the strings hashed to compute the two
    roots.  The domain separation of leaves and branches is what makes lists
    of different lengths different. *)

Section binding.
Context (sha256 : list byte -> hash) (sha256_length : forall bs, length (sha256 bs) = 32%nat).
Context (Q : list (list byte)) (Hcf : collision_free sha256 Q).
Implicit Types hs : list hash.

Definition leaf_hashes hs : Prop :=
  Forall (fun h => exists l, h = hash_leaf sha256 l /\ leaf_preimage l ∈ Q) hs.

Lemma leaf_hashes_ok hs : leaf_hashes hs -> Forall hash_ok hs.
Proof. apply Forall_impl. intros ? (l & -> & _). apply sha256_length. Qed.

(** A leaf hash is not the hash of a branch. *)
Lemma leaf_not_branch hs h :
  leaf_hashes [h] -> (1 < length hs)%nat -> branch_preimages sha256 hs ⊆ Q -> h <> mth sha256 hs.
Proof.
  intros Hl Hlen Hb. apply Forall_singleton in Hl as (l & -> & Hl). rewrite mth_split by done. intros Heq.
  rewrite branch_preimages_split in Hb by done.
  enough (leaf_preimage l = node_preimage (mth sha256 (take (split_at hs) hs))
    (mth sha256 (drop (split_at hs) hs))) by done.
  apply Hcf; [done|apply Hb; left|exact Heq].
Qed.

Lemma mth_hashes_inj hs1 : forall hs2,
  (1 <= length hs1)%nat -> (1 <= length hs2)%nat -> leaf_hashes hs1 -> leaf_hashes hs2 ->
  branch_preimages sha256 hs1 ⊆ Q -> branch_preimages sha256 hs2 ⊆ Q ->
  mth sha256 hs1 = mth sha256 hs2 -> hs1 = hs2.
Proof.
  induction hs1 as [|h1|hs1 Hlen1 IHl IHr] using split_ind; intros hs2 Hp1 Hp2 Hl1 Hl2 Hb1 Hb2 Heq;
    [cbn in Hp1; lia| |].
  { destruct hs2 as [|h2 [|h2' hs2]]; [cbn in Hp2; lia|cbn in Heq; by subst|].
    rewrite mth_one in Heq. exfalso. eapply leaf_not_branch; [exact Hl1| |exact Hb2|exact Heq]. cbn. lia. }
  destruct hs2 as [|h2 [|h2' hs2']]; [cbn in Hp2; lia| |].
  { rewrite (mth_one sha256 h2) in Heq. exfalso.
    eapply leaf_not_branch; [exact Hl2|exact Hlen1|exact Hb1|by symmetry]. }
  assert (1 < length (h2 :: h2' :: hs2'))%nat as Hlen2 by (cbn; lia).
  set (hs2 := h2 :: h2' :: hs2') in *. clearbody hs2.
  rewrite (mth_split sha256 hs1), (mth_split sha256 hs2) in Heq by done.
  rewrite branch_preimages_split in Hb1, Hb2 by done.
  pose proof (take_drop_length hs1 Hlen1). pose proof (take_drop_length hs2 Hlen2).
  pose proof (split_at_bounds hs1 Hlen1). pose proof (split_at_bounds hs2 Hlen2).
  apply Hcf in Heq; [|apply Hb1; left|apply Hb2; left].
  apply node_preimage_inj in Heq as [HL HR].
  2,3: apply (mth_ok sha256 sha256_length); [by apply leaf_hashes_ok, Forall_take|lia].
  rewrite <- (take_drop (split_at hs1) hs1), <- (take_drop (split_at hs2) hs2). f_equal.
  - apply IHl; [lia|lia|by apply Forall_take|by apply Forall_take| | |done];
      intros x Hx; (apply Hb1 + apply Hb2); right;
      apply elem_of_app; by left.
  - apply IHr; [lia|lia|by apply Forall_drop|by apply Forall_drop| | |done];
      intros x Hx; (apply Hb1 + apply Hb2); right;
      apply elem_of_app; by right.
Qed.

Lemma tree_preimages_split leaves :
  tree_preimages sha256 leaves =
    (leaf_preimage <$> leaves) ++ branch_preimages sha256 (hash_leaf sha256 <$> leaves).
Proof. unfold tree_preimages, branch_preimages. by rewrite length_fmap. Qed.

Lemma leaf_hashes_of leaves :
  tree_preimages sha256 leaves ⊆ Q -> leaf_hashes (hash_leaf sha256 <$> leaves).
Proof.
  rewrite tree_preimages_split. intros Hsub. apply Forall_fmap, list.Forall_forall. intros l Hl. cbn.
  exists l. split; [done|]. apply Hsub, elem_of_app. left. apply list_elem_of_fmap. by exists l.
Qed.

(** The root of no leaves is the root of nothing else. *)
Lemma mth_nil_inj leaves :
  [] ∈ Q -> tree_preimages sha256 leaves ⊆ Q -> sha256 [] = rfc_mth sha256 leaves -> leaves = [].
Proof.
  intros Hnil Hsub. rewrite tree_preimages_split in Hsub. unfold rfc_mth.
  destruct leaves as [|l leaves]; [done|]. destruct (decide (leaves = [])) as [->|Hne]; intros Heq.
  - exfalso. enough ([] = leaf_preimage l) by done. apply Hcf; [done|apply Hsub; left|exact Heq].
  - set (hs := hash_leaf sha256 <$> (l :: leaves)) in *.
    assert (1 < length hs)%nat as Hlen by (destruct leaves; [done|cbn; lia]).
    rewrite mth_split in Heq by done. rewrite branch_preimages_split in Hsub by done.
    exfalso. enough ([] = node_preimage (mth sha256 (take (split_at hs) hs))
      (mth sha256 (drop (split_at hs) hs))) by done.
    apply Hcf; [done|apply Hsub, elem_of_app; right; left|exact Heq].
Qed.

(** The root determines the leaves. *)
Lemma mth_inj leaves1 leaves2 :
  [] ∈ Q -> tree_preimages sha256 leaves1 ⊆ Q -> tree_preimages sha256 leaves2 ⊆ Q ->
  rfc_mth sha256 leaves1 = rfc_mth sha256 leaves2 -> leaves1 = leaves2.
Proof.
  intros Hnil H1 H2 Heq.
  destruct (decide (leaves1 = [])) as [->|Hne1]; [symmetry; by apply mth_nil_inj|].
  destruct (decide (leaves2 = [])) as [->|Hne2]; [by apply mth_nil_inj|].
  pose proof (leaf_hashes_of _ H1) as Hl1. pose proof (leaf_hashes_of _ H2) as Hl2.
  rewrite tree_preimages_split in H1, H2.
  assert (hash_leaf sha256 <$> leaves1 = hash_leaf sha256 <$> leaves2) as Hhs.
  { apply mth_hashes_inj; [destruct leaves1; cbn; (done || lia)|destruct leaves2; cbn; (done || lia)|
      done|done| | |done]; intros x Hx; (apply H1 + apply H2); apply elem_of_app; by right. }
  clear Hne1 Hne2 Hl1 Hl2. assert (forall l, l ∈ leaves1 -> leaf_preimage l ∈ Q) as Hq1.
  { intros l Hl. apply H1, elem_of_app. left. apply list_elem_of_fmap. by exists l. }
  assert (forall l, l ∈ leaves2 -> leaf_preimage l ∈ Q) as Hq2.
  { intros l Hl. apply H2, elem_of_app. left. apply list_elem_of_fmap. by exists l. }
  clear H1 H2. clear Heq. revert leaves2 Hhs Hq2. induction leaves1 as [|l1 leaves1 IH]; intros [|l2 leaves2]; try done.
  cbn. intros [= Hh Heq] Hq2. apply Hcf in Hh; [|apply Hq1; left|apply Hq2; left].
  injection Hh as ->. f_equal. apply IH; [|done|]; intros l Hl; [apply Hq1|apply Hq2]; by right.
Qed.
End binding.
