(* ===== verification/Wire.v ===== *)
(** * Wire formats: the [Protobuf] trait and the primitive messages

    Models [astria-core/src/lib.rs] (the trait [Protobuf]),
    [astria-core/src/primitive/v1] ([Uint128], [Address], [RollupId],
    [TransactionId], [Proof]), [protocol/fees/v1.rs] (fee components) and
    [oracles/price_feed] (currency pairs and markets): the conversions between
    the decoded protobuf messages, records whose message fields are optional,
    and the native types.  The class [ProtobufLaws] states what every
    implementation owes its clients; the instances of this file prove it. *)
From S2P Require Import Prelude Denom Types State Chain Ics20.
From stdpp Require Import base list option strings numbers tactics.
From Stdlib Require Import ZArith Lia Ascii String.
Open Scope string_scope.
Open Scope Z_scope.

(** ** The trait, its associated types as parameters

    [try_from_raw_ref] and [try_from_raw], and [to_raw] and [into_raw], differ
    in ownership only. *)
Class Protobuf (A R E : Type) := {
  to_raw : A -> R;
  try_from_raw : R -> result E A }.
Arguments to_raw {A R E _} _.
Arguments try_from_raw A {R E _} _.

(** What a type promises: [valid] is the invariant of its values, given the
    invariant of the addresses in it; [raw_valid] holds of every message that
    respects the integer widths of the message fields. *)
Class WireType (A : Type) `{Protobuf A R E} := {
  valid : (Address -> Prop) -> A -> Prop;
  raw_valid : R -> Prop }.
Arguments valid {A R E _ _} _ _.
Arguments raw_valid A {R E _ _} _.

(** ** Libraries

    [bech32], [hex], [ed25519_consensus], [ibc-types] and [penumbra-ibc]. *)
Class Wire := {
  wire_external :: External;
  ed25519_key_valid : string -> bool;
  channel_id_valid : string -> bool;
  client_id_valid : string -> bool;
  RawIbcRelay : Type;
  ibc_relay_from_raw : RawIbcRelay -> option IbcRelay;
  ibc_relay_into_raw : IbcRelay -> RawIbcRelay }.

Definition is_upper (c : ascii) : bool :=
  (65 <=? nat_of_ascii c)%nat && (nat_of_ascii c <=? 90)%nat.
Definition is_lower (c : ascii) : bool :=
  (97 <=? nat_of_ascii c)%nat && (nat_of_ascii c <=? 122)%nat.
Definition no_upper (s : string) : bool := str_forallb (fun c => negb (is_upper c)) s.

(** Documented behaviour of these libraries: bech32m decodes what it encodes
    (it prints in lower case), hex decodes to arrays of the right length and
    decodes what it encodes, the relay message survives its own conversion. *)
Class WireLaws `{Wire} : Prop := {
  bech32m_inverse p b : hrp_parse p = true -> no_upper p = true -> String.length b = 20%nat ->
    bech32m_decode (bech32m_encode p b) = Some (p, b);
  hex_inverse s : String.length s = 32%nat -> from_hex32 (hex_encode s) = Some s;
  hex_length s b : from_hex32 s = Some b -> String.length b = 32%nat;
  ibc_relay_inverse r : ibc_relay_from_raw (ibc_relay_into_raw r) = Some r }.

(** An address in the form in which it is printed, and any address the
    builder accepts. *)
Definition address_typed `{Wire} (a : Address) : Prop :=
  String.length (addr_bytes a) = 20%nat /\ hrp_parse (addr_prefix a) = true.
Definition address_canonical `{Wire} (a : Address) : Prop :=
  address_typed a /\ no_upper (addr_prefix a) = true.

Class ProtobufLaws (A : Type) `{Wire, WireType A} : Prop := {
  wire_roundtrip a : valid address_canonical a -> try_from_raw A (to_raw a) = Ok a;
  wire_decoded r a : raw_valid A r -> try_from_raw A r = Ok a -> valid address_typed a }.

(** ** Collecting results *)

(** [o.map(f).transpose()] *)
Definition try_option {E A B} (f : A -> result E B) (o : option A) : result E (option B) :=
  match o with
  | None => Ok None
  | Some a => b ← f a; Ok (Some b)
  end.

(** [iter.map(f).collect::<Result<Vec<_>, _>>()]: the first error wins. *)
Fixpoint try_collect {E A B} (f : A -> result E B) (l : list A) : result E (list B) :=
  match l with
  | [] => Ok []
  | a :: l => b ← f a; bs ← try_collect f l; Ok (b :: bs)
  end.

#[global] Arguments to_raw {A R E _} _ : simpl never.
#[global] Arguments try_from_raw A {R E _} _ : simpl never.
#[global] Arguments valid {A R E _ _} _ _ : simpl never.
#[global] Arguments raw_valid A {R E _ _} _ : simpl never.
#[global] Arguments try_option {E A B} _ !_ /.

(** ** Integers of 128 bits *)
Record RawUint128 := mk_raw_u128 { u128_lo : Z; u128_hi : Z }.
Definition u128_into_raw (n : Z) : RawUint128 :=
  mk_raw_u128 (Z.land n (2 ^ 64 - 1)) (Z.shiftr n 64).
Definition u128_from_raw (r : RawUint128) : Z := Z.lor (Z.shiftl (u128_hi r) 64) (u128_lo r).
Definition raw_u128_valid (r : RawUint128) : Prop := uint 64 (u128_lo r) /\ uint 64 (u128_hi r).

(** Two's complement: the high word of a negative number has its top bit set. *)
Record RawInt128 := mk_raw_i128 { i128_lo : Z; i128_hi : Z }.
Definition i128_into_raw (n : Z) : RawInt128 :=
  mk_raw_i128 (Z.land n (2 ^ 64 - 1)) (Z.land (Z.shiftr n 64) (2 ^ 64 - 1)).
Definition i128_from_raw (r : RawInt128) : Z :=
  let n := Z.lor (Z.shiftl (i128_hi r) 64) (i128_lo r) in
  if n <? 2 ^ 127 then n else n - 2 ^ 128.
Definition i128_valid (n : Z) : Prop := - 2 ^ 127 <= n < 2 ^ 127.
Definition raw_i128_valid (r : RawInt128) : Prop := uint 64 (i128_lo r) /\ uint 64 (i128_hi r).

#[global] Arguments u128_into_raw _ : simpl never.
#[global] Arguments u128_from_raw _ : simpl never.
#[global] Arguments i128_into_raw _ : simpl never.
#[global] Arguments i128_from_raw _ : simpl never.

(** ** Addresses, rollup and transaction ids *)
Record RawAddress := mk_raw_address { raw_bech32m : string }.
Record RawRollupId := mk_raw_rollup_id { raw_rollup_inner : string }.
Record RawTransactionId := mk_raw_transaction_id { raw_transaction_inner : string }.

Inductive AddressError :=
| AddressError_Decode
| AddressError_IncorrectLength (received : nat)
| AddressError_InvalidPrefix.
Inductive IncorrectRollupIdLength := mk_incorrect_length (received : nat).
Inductive TransactionIdError := TransactionIdError_HexDecode.

Definition rollup_id_try_from_slice (bs : string) : result IncorrectRollupIdLength RollupId :=
  if (String.length bs =? 32)%nat then Ok bs else Err (mk_incorrect_length (String.length bs)).
Definition rollup_id_to_raw (r : RollupId) : RawRollupId := mk_raw_rollup_id r.
Definition rollup_id_try_from_raw (r : RawRollupId) : result IncorrectRollupIdLength RollupId :=
  rollup_id_try_from_slice (raw_rollup_inner r).
Definition rollup_id_valid (r : RollupId) : Prop := String.length r = 32%nat.

Section primitives.
Context `{Wire}.

Definition address_builder_try_build (bs prefix : string) : result AddressError Address :=
  if (String.length bs =? 20)%nat then
    if hrp_parse prefix then Ok (mk_address bs prefix) else Err AddressError_InvalidPrefix
  else Err (AddressError_IncorrectLength (String.length bs)).
Definition address_parse (s : string) : result AddressError Address :=
  '(hrp, bs) ← ok_or AddressError_Decode (bech32m_decode s);
  address_builder_try_build bs hrp.

Definition address_to_raw (a : Address) : RawAddress :=
  mk_raw_address (address_display bech32m_encode a).
Definition address_try_from_raw (r : RawAddress) : result AddressError Address :=
  address_parse (raw_bech32m r).
#[export] Instance protobuf_Address : Protobuf Address RawAddress AddressError :=
  {| to_raw := address_to_raw; try_from_raw := address_try_from_raw |}.

Definition transaction_id_to_raw (t : TransactionId) : RawTransactionId :=
  mk_raw_transaction_id (hex_encode t).
Definition transaction_id_try_from_raw (r : RawTransactionId)
    : result TransactionIdError TransactionId :=
  ok_or TransactionIdError_HexDecode (from_hex32 (raw_transaction_inner r)).
End primitives.

(** ** Fee components *)
Record RawFeeComponents := mk_raw_fee_components {
  raw_base : option RawUint128; raw_multiplier : option RawUint128 }.
(** The error also carries the name of the wire type. *)
Inductive FeeComponentError := FeeComponentError_MissingField (field : string).

Definition fee_components_to_raw (f : FeeComponents) : RawFeeComponents :=
  mk_raw_fee_components (Some (u128_into_raw (base f)))
    (Some (u128_into_raw (multiplier f))).
Definition fee_components_try_from_raw (r : RawFeeComponents) : result FeeComponentError FeeComponents :=
  b ← ok_or (FeeComponentError_MissingField "base") (raw_base r);
  m ← ok_or (FeeComponentError_MissingField "multiplier") (raw_multiplier r);
  Ok (mk_components (u128_from_raw b) (u128_from_raw m)).
#[export] Instance protobuf_FeeComponents : Protobuf FeeComponents RawFeeComponents FeeComponentError :=
  {| to_raw := fee_components_to_raw; try_from_raw := fee_components_try_from_raw |}.

(** ** Currency pairs and markets *)
Record RawCurrencyPair := mk_raw_pair { raw_pair_base : string; raw_pair_quote : string }.
Inductive CurrencyPairError :=
| CurrencyPairError_ParseBase (input : string)
| CurrencyPairError_ParseQuote (input : string).

(** The regex [^[a-zA-Z]+$] *)
Definition is_alpha (c : ascii) : bool := is_upper c || is_lower c.
Definition alpha_text (s : string) : bool := negb (is_empty s) && str_forallb is_alpha s.
Definition base_from_str (s : string) : result CurrencyPairError string :=
  if alpha_text s then Ok s else Err (CurrencyPairError_ParseBase s).
Definition quote_from_str (s : string) : result CurrencyPairError string :=
  if alpha_text s then Ok s else Err (CurrencyPairError_ParseQuote s).

Definition currency_pair_to_raw (p : CurrencyPair) : RawCurrencyPair :=
  mk_raw_pair (pair_base p) (pair_quote p).
Definition currency_pair_try_from_raw (r : RawCurrencyPair) : result CurrencyPairError CurrencyPair :=
  b ← base_from_str (raw_pair_base r);
  q ← quote_from_str (raw_pair_quote r);
  Ok (mk_pair b q).
#[export] Instance protobuf_CurrencyPair : Protobuf CurrencyPair RawCurrencyPair CurrencyPairError :=
  {| to_raw := currency_pair_to_raw; try_from_raw := currency_pair_try_from_raw |}.

Record RawTicker := mk_raw_ticker {
  raw_currency_pair : option RawCurrencyPair;
  raw_decimals : Z;
  raw_min_provider_count : Z;
  raw_enabled : bool;
  raw_ticker_metadata : string }.
Inductive TickerError :=
| TickerError_FieldNotSet (name : string)
| TickerError_InvalidCurrencyPair (source : CurrencyPairError)
| TickerError_DecimalsTooLarge.

Definition ticker_to_raw (t : Ticker) : RawTicker :=
  mk_raw_ticker (Some (to_raw (currency_pair t))) (decimals t)
    (min_provider_count t) (enabled t) (ticker_metadata t).
Definition ticker_try_from_raw (r : RawTicker) : result TickerError Ticker :=
  p ← ok_or (TickerError_FieldNotSet "currency_pair") (raw_currency_pair r);
  p ← map_err TickerError_InvalidCurrencyPair (try_from_raw CurrencyPair p);
  ensure (raw_decimals r <? 2 ^ 8) TickerError_DecimalsTooLarge;;
  Ok (mk_ticker p (raw_decimals r) (raw_min_provider_count r) (raw_enabled r)
        (raw_ticker_metadata r)).
#[export] Instance protobuf_Ticker : Protobuf Ticker RawTicker TickerError :=
  {| to_raw := ticker_to_raw; try_from_raw := ticker_try_from_raw |}.

Record RawProviderConfig := mk_raw_provider {
  raw_provider_name : string;
  raw_off_chain_ticker : string;
  raw_normalize_by_pair : option RawCurrencyPair;
  raw_invert : bool;
  raw_provider_metadata : string }.
Inductive ProviderConfigError :=
| ProviderConfigError_InvalidNormalizeByPair (source : CurrencyPairError).

Definition provider_config_to_raw (p : ProviderConfig) : RawProviderConfig :=
  mk_raw_provider (provider_name p) (off_chain_ticker p)
    (option_map to_raw (normalize_by_pair p)) (invert p) (provider_metadata p).
Definition provider_config_try_from_raw (r : RawProviderConfig) : result ProviderConfigError ProviderConfig :=
  n ← map_err ProviderConfigError_InvalidNormalizeByPair
        (try_option (try_from_raw CurrencyPair) (raw_normalize_by_pair r));
  Ok (mk_provider (raw_provider_name r) (raw_off_chain_ticker r) n (raw_invert r)
        (raw_provider_metadata r)).
#[export] Instance protobuf_ProviderConfig : Protobuf ProviderConfig RawProviderConfig ProviderConfigError :=
  {| to_raw := provider_config_to_raw; try_from_raw := provider_config_try_from_raw |}.

Record RawMarket := mk_raw_market {
  raw_ticker : option RawTicker; raw_provider_configs : list RawProviderConfig }.
Inductive MarketError :=
| MarketError_MissingTicker
| MarketError_TickerParseError (source : TickerError)
| MarketError_ProviderConfigParseError (source : ProviderConfigError).

Definition market_to_raw (m : Market) : RawMarket :=
  mk_raw_market (Some (to_raw (ticker m))) (map to_raw (provider_configs m)).
Definition market_try_from_raw (r : RawMarket) : result MarketError Market :=
  t ← map_err MarketError_TickerParseError (try_option (try_from_raw Ticker) (raw_ticker r));
  t ← ok_or MarketError_MissingTicker t;
  ps ← map_err MarketError_ProviderConfigParseError
         (try_collect (try_from_raw ProviderConfig) (raw_provider_configs r));
  Ok (mk_market t ps).
#[export] Instance protobuf_Market : Protobuf Market RawMarket MarketError :=
  {| to_raw := market_to_raw; try_from_raw := market_try_from_raw |}.

(** * Laws of the primitive messages

    Every primitive message type of [Wire] keeps its promise: what is printed
    is read back, and whatever is read satisfies the invariant of its type.
    The tactics [encode] and [decode] are those of the action messages too. *)

(** ** Successful steps *)
Lemma bind_Ok {E A B} (m : result E A) (f : A -> result E B) b :
  m ≫= f = Ok b <-> exists a, m = Ok a /\ f a = Ok b.
Proof. destruct m; cbn; split; [eauto|by intros (? & [= ->] & ?)|done|by intros (? & ? & _)]. Qed.
Lemma ok_or_Ok {E A} (e : E) (o : option A) a : ok_or e o = Ok a <-> o = Some a.
Proof. by destruct o; cbn; split; intros [= ->]. Qed.
Lemma map_err_Ok {E E' A} (f : E -> E') (r : result E A) a : map_err f r = Ok a <-> r = Ok a.
Proof. by destruct r; cbn; split; intros [= ->]. Qed.
Lemma ensure_Ok {E} (b : bool) (e : E) u : ensure b e = Ok u <-> b = true.
Proof. by destruct b, u. Qed.
Lemma try_option_Ok {E A B} (f : A -> result E B) o o' :
  try_option f o = Ok o' <->
  match o with None => o' = None | Some a => exists b, f a = Ok b /\ o' = Some b end.
Proof.
  destruct o as [a|]; cbn; [|by split; [intros [= <-]|intros ->]]. rewrite bind_Ok.
  split; [intros (b & ? & [= <-])|intros (b & ? & ->)]; eauto.
Qed.
Lemma try_collect_Ok {E A B} (f : A -> result E B) l l' :
  try_collect f l = Ok l' <-> Forall2 (fun a b => f a = Ok b) l l'.
Proof.
  revert l'. induction l as [|a l IH]; intros l'; cbn.
  - split; [intros [= <-]; constructor|by intros ->%Forall2_nil_inv_l].
  - rewrite bind_Ok. split.
    + intros (b & Hb & (bs & Hbs & [= <-])%bind_Ok). constructor; [done|by apply IH].
    + intros (b & bs & Hb & Hbs & ->)%Forall2_cons_inv_l. exists b. split; [done|].
      apply bind_Ok. exists bs. split; [by apply IH|done].
Qed.

(** Optional and repeated fields keep the laws of their type. *)
Section collect.
Context `{Wire, ProtobufLaws A}.
Lemma wire_option (o : option A) :
  from_option (valid address_canonical) True o ->
  try_option (try_from_raw A) (option_map to_raw o) = Ok o.
Proof. destruct o as [a|]; cbn; [|done]. intros Ha. by rewrite wire_roundtrip. Qed.
Lemma wire_list (l : list A) :
  Forall (valid address_canonical) l -> try_collect (try_from_raw A) (map to_raw l) = Ok l.
Proof. induction 1 as [|a l Ha _ IH]; cbn; [done|]. by rewrite wire_roundtrip, IH. Qed.
Lemma wire_option_decoded o o' :
  from_option (raw_valid A) True o -> try_option (try_from_raw A) o = Ok o' ->
  from_option (valid address_typed) True o'.
Proof.
  rewrite try_option_Ok. destruct o as [r|]; [|by intros _ ->].
  intros Hr (b & Hb & ->). by eapply wire_decoded.
Qed.
Lemma wire_list_decoded l l' :
  Forall (raw_valid A) l -> try_collect (try_from_raw A) l = Ok l' -> Forall (valid address_typed) l'.
Proof.
  rewrite try_collect_Ok. intros Hl Hf. revert Hl.
  induction Hf; intros Hl; [constructor|]. apply Forall_cons_1 in Hl as []. constructor; [|eauto].
  by eapply wire_decoded.
Qed.
End collect.

(** [decode H] splits a successful chain of steps [H] into its steps. *)
Ltac decode H :=
  repeat match type of H with
  | _ ≫= _ = Ok _ => let a := fresh "a" in let Ha := fresh "Ha" in
      apply bind_Ok in H as (a & Ha & H); cbv beta in H; decode Ha
  | ok_or _ _ = Ok _ => apply ok_or_Ok in H
  | map_err _ _ = Ok _ => apply map_err_Ok in H
  | ensure _ _ = Ok _ => apply ensure_Ok in H
  | mret _ = Ok _ => unfold mret, result_ret in H
  | Ok _ = Ok _ => injection H as H
  end.

(** ** Integers of 128 bits *)
Section integers.
Lemma land_ones64 n : Z.land n (2 ^ 64 - 1) = n mod 2 ^ 64.
Proof. change (2 ^ 64 - 1) with (Z.ones 64). by rewrite Z.land_ones by lia. Qed.
Lemma lor_words hi lo : uint 64 lo -> Z.lor (Z.shiftl hi 64) lo = hi * 2 ^ 64 + lo.
Proof.
  intros Hlo. rewrite Z.shiftl_mul_pow2 by lia. symmetry. rewrite <- Z.lxor_lor; [apply Z.add_nocarry_lxor|].
  all: apply Z.bits_inj'; intros k Hk; rewrite Z.land_spec, Z.bits_0.
  all: destruct (decide (k < 64)).
  all: try (rewrite Z.mul_pow2_bits_low by lia; done).
  all: destruct (decide (lo = 0)) as [->|]; [by rewrite Z.bits_0, andb_false_r|].
  all: rewrite (Z.bits_above_log2 lo), andb_false_r; [done|unfold uint in *; lia|].
  all: enough (Z.log2 lo < 64) by lia; apply Z.log2_lt_pow2; unfold uint in *; lia.
Qed.

Lemma u128_roundtrip n : uint 128 n -> u128_from_raw (u128_into_raw n) = n.
Proof.
  intros Hn. unfold u128_from_raw, u128_into_raw. cbn [u128_lo u128_hi].
  rewrite land_ones64, lor_words, Z.shiftr_div_pow2 by (try apply Z.mod_pos_bound; lia).
  rewrite Z.mul_comm, <- Z.div_mod by lia. done.
Qed.
Lemma u128_decoded r : raw_u128_valid r -> uint 128 (u128_from_raw r).
Proof.
  intros [Hlo Hhi]. unfold u128_from_raw. rewrite lor_words by done. unfold uint in *.
  change (2 ^ 128) with (2 ^ 64 * 2 ^ 64). nia.
Qed.

Lemma i128_roundtrip n : i128_valid n -> i128_from_raw (i128_into_raw n) = n.
Proof.
  intros Hn. unfold i128_from_raw, i128_into_raw, i128_valid in *. cbn [i128_lo i128_hi].
  rewrite !land_ones64, lor_words, Z.shiftr_div_pow2 by (try apply Z.mod_pos_bound; lia).
  pose proof (Z.div_mod n (2 ^ 64) ltac:(lia)). pose proof (Z.mod_pos_bound n (2 ^ 64) ltac:(lia)).
  change (2 ^ 127) with (2 ^ 63 * 2 ^ 64) in *. change (2 ^ 128) with (2 ^ 64 * 2 ^ 64) in *.
  destruct (decide (0 <= n)).
  - rewrite (Z.mod_small (n / 2 ^ 64)) by nia. case_match; lia.
  - replace ((n / 2 ^ 64) mod 2 ^ 64) with (n / 2 ^ 64 + 2 ^ 64).
    + case_match; nia.
    + apply (Z.mod_unique _ _ (-1)); nia.
Qed.
Lemma i128_decoded r : raw_i128_valid r -> i128_valid (i128_from_raw r).
Proof.
  intros [Hlo Hhi]. unfold i128_from_raw, i128_valid. rewrite lor_words by done. unfold uint in *.
  change (2 ^ 127) with (2 ^ 63 * 2 ^ 64) in *. change (2 ^ 128) with (2 ^ 64 * 2 ^ 64) in *.
  case_match; nia.
Qed.
End integers.

(** ** Denominations *)
Lemma prefix_app (p s : string) : String.prefix p (p ++ s) = true.
Proof.
  induction p as [|c p IH]; [by destruct s|].
  change ((String c p ++ s)%string) with (String c (p ++ s)). rewrite Denom.prefix_cons, Ascii.eqb_refl. done.
Qed.

Lemma denom_decoded `{Wire, !WireLaws} s d : denom_from_str s = Ok d -> wf_denom d = true.
Proof.
  unfold denom_from_str. destruct (starts_with "ibc/" s) eqn:Hs; intros Hd.
  - decode Hd. subst d. unfold ibc_prefixed_from_str in *. cbn.
    repeat case_match; simplify_eq. decode Ha. subst. apply Nat.eqb_eq. cbn [id]. exact (hex_length _ _ Ha0).
  - decode Hd. subst d. apply trace_from_str_ok in Ha as [Hwf Hdis]. cbn. rewrite Hwf. cbn.
    unfold has_leading_port, leading_port. destruct a as [[|[p c] segs] base]; [done|]. cbn.
    destruct (decide (p = "ibc")) as [->|]; [|by rewrite bool_decide_eq_false_2 by congruence]. exfalso.
    rewrite <- Hdis in Hs. cbn [trace_prefixed_display foldr trace port channel base_denom] in Hs.
    revert Hs. unfold starts_with. change ("ibc/") with ("ibc" ++ "/")%string.
    rewrite <- str_app_assoc, prefix_app. done.
Qed.

Lemma denom_inverse `{Wire, !WireLaws} d : wf_denom d = true -> denom_from_str (denom_display d) = Ok d.
Proof. apply denom_parse_display. apply hex_inverse. Qed.

(** ** Messages of one or two fields *)
#[export] Instance wire_Address `{Wire} : WireType Address :=
  {| valid P a := P a; raw_valid _ := True |}.
#[export] Instance wire_FeeComponents : WireType FeeComponents := {|
  valid _ f := uint 128 (base f) /\ uint 128 (multiplier f);
  raw_valid (r : RawFeeComponents) :=
    from_option raw_u128_valid True (raw_base r) /\ from_option raw_u128_valid True (raw_multiplier r) |}.
#[export] Instance wire_CurrencyPair : WireType CurrencyPair := {|
  valid _ p := alpha_text (pair_base p) = true /\ alpha_text (pair_quote p) = true;
  raw_valid _ := True |}.
#[export] Instance wire_Ticker : WireType Ticker := {|
  valid P t := valid P (currency_pair t) /\ uint 8 (decimals t) /\ uint 64 (min_provider_count t);
  raw_valid (r : RawTicker) := uint 32 (raw_decimals r) /\ uint 64 (raw_min_provider_count r) |}.
#[export] Instance wire_ProviderConfig : WireType ProviderConfig := {|
  valid P p := from_option (valid P) True (normalize_by_pair p);
  raw_valid _ := True |}.
#[export] Instance wire_Market : WireType Market := {|
  valid P m := valid P (ticker m) /\ Forall (valid P) (provider_configs m);
  raw_valid (r : RawMarket) := from_option (raw_valid Ticker) True (raw_ticker r) |}.

Section laws.
Context `{Wire, !WireLaws}.

#[export] Instance laws_Address : ProtobufLaws Address.
Proof.
  split.
  - intros [b p] [[Hb Hp] Hu]. change (address_parse (bech32m_encode p b) = Ok (mk_address b p)).
    unfold address_parse. cbn in *. rewrite bech32m_inverse by done. cbn.
    unfold address_builder_try_build. by rewrite (proj2 (Nat.eqb_eq _ _) Hb), Hp.
  - intros r a _ Ha. change (address_parse (raw_bech32m r) = Ok a) in Ha. unfold address_parse in Ha.
    decode Ha. destruct a0 as [p b]. unfold address_builder_try_build in Ha.
    destruct (Nat.eqb_spec (String.length b) 20), (hrp_parse p) eqn:Hp; by simplify_eq.
Qed.

#[export] Instance laws_FeeComponents : ProtobufLaws FeeComponents.
Proof.
  split.
  - intros [b m] [Hb Hm]. change (fee_components_try_from_raw (fee_components_to_raw (mk_components b m)) = Ok (mk_components b m)).
    unfold fee_components_try_from_raw, fee_components_to_raw. cbn. by rewrite !u128_roundtrip.
  - intros r f [Hb Hm] Hf. change (fee_components_try_from_raw r = Ok f) in Hf.
    unfold fee_components_try_from_raw in Hf. decode Hf. subst f.
    rewrite Ha in Hb. rewrite Ha0 in Hm. split; by apply u128_decoded.
Qed.

#[export] Instance laws_CurrencyPair : ProtobufLaws CurrencyPair.
Proof.
  split.
  - intros [b q] [Hb Hq]. change (currency_pair_try_from_raw (mk_raw_pair b q) = Ok (mk_pair b q)).
    unfold currency_pair_try_from_raw, base_from_str, quote_from_str. cbn in *. by rewrite Hb, Hq.
  - intros [b q] p _ Hp. change (currency_pair_try_from_raw (mk_raw_pair b q) = Ok p) in Hp.
    unfold currency_pair_try_from_raw, base_from_str, quote_from_str in Hp.
    decode Hp. cbn in *. do 2 case_match; by simplify_eq.
Qed.

#[export] Instance laws_Ticker : ProtobufLaws Ticker.
Proof.
  split.
  - intros t (Hp & Hd & Hm). change (ticker_try_from_raw (ticker_to_raw t) = Ok t).
    unfold ticker_try_from_raw, ticker_to_raw. destruct t. cbn in *. rewrite wire_roundtrip by done. cbn.
    by rewrite (proj2 (Z.ltb_lt _ _)) by (unfold uint in Hd; lia).
  - intros r t [Hd Hm] Ht. change (ticker_try_from_raw r = Ok t) in Ht.
    unfold ticker_try_from_raw in Ht. decode Ht. subst.
    split; [by eapply wire_decoded|]. split; [|done]. cbn in *. unfold uint in *. lia.
Qed.

#[export] Instance laws_ProviderConfig : ProtobufLaws ProviderConfig.
Proof.
  split.
  - intros p Hp. change (provider_config_try_from_raw (provider_config_to_raw p) = Ok p).
    unfold provider_config_try_from_raw, provider_config_to_raw. destruct p. cbn -[try_option option_map].
    by rewrite wire_option.
  - intros r p _ Hp. change (provider_config_try_from_raw r = Ok p) in Hp.
    unfold provider_config_try_from_raw in Hp. decode Hp. subst.
    refine (wire_option_decoded _ _ _ Ha). by destruct raw_normalize_by_pair.
Qed.

#[export] Instance laws_Market : ProtobufLaws Market.
Proof.
  split.
  - intros m [Ht Hps]. change (market_try_from_raw (market_to_raw m) = Ok m).
    unfold market_try_from_raw, market_to_raw. destruct m. cbn in *.
    unfold try_option. rewrite wire_roundtrip by done. cbn. by rewrite wire_list.
  - intros r m Hr Hm. change (market_try_from_raw r = Ok m) in Hm. unfold market_try_from_raw in Hm.
    decode Hm. subst. apply wire_option_decoded in Ha; [|done]. split; [done|].
    refine (wire_list_decoded _ _ _ Ha1). by apply Forall_true.
Qed.

Lemma rollup_id_roundtrip r : rollup_id_valid r -> rollup_id_try_from_raw (rollup_id_to_raw r) = Ok r.
Proof.
  intros Hr. unfold rollup_id_try_from_raw, rollup_id_try_from_slice, rollup_id_to_raw.
  cbn [raw_rollup_inner]. by rewrite (proj2 (Nat.eqb_eq _ _) Hr).
Qed.
Lemma rollup_id_decoded r a : rollup_id_try_from_raw r = Ok a -> rollup_id_valid a.
Proof.
  unfold rollup_id_try_from_raw, rollup_id_try_from_slice.
  destruct (Nat.eqb_spec (String.length (raw_rollup_inner r)) 32); intros; by simplify_eq.
Qed.
Lemma transaction_id_roundtrip t :
  String.length t = 32%nat -> transaction_id_try_from_raw (transaction_id_to_raw t) = Ok t.
Proof. intros Ht. unfold transaction_id_try_from_raw, transaction_id_to_raw. cbn -[hex_encode]. by rewrite hex_inverse. Qed.
Lemma transaction_id_decoded r t :
  transaction_id_try_from_raw r = Ok t -> String.length t = 32%nat.
Proof. intros Ht%ok_or_Ok. by eapply hex_length. Qed.
End laws.
