(* ===== verification/WireActions.v ===== *)
(** * Wire formats of the actions

    Models the [Protobuf] implementations of
    [astria-core/src/protocol/transaction/v1/action/mod.rs]: the decoded
    protobuf message of each action, the errors of its conversion, and the
    conversion in both directions, checks in the order of the code. *)
From S2P Require Import Prelude Denom Types State Chain Ics20 Wire.
From stdpp Require Import base list option strings numbers tactics.
From Stdlib Require Import ZArith Lia Ascii String.
Open Scope string_scope.
Open Scope Z_scope.

(** ** User actions *)
Record RawRollupDataSubmission := mk_raw_submission {
  raw_rds_rollup_id : option RawRollupId; raw_rds_data : string; raw_rds_fee_asset : string }.
Inductive RollupDataSubmissionError :=
| RollupDataSubmissionError_FieldNotSet (field : string)
| RollupDataSubmissionError_RollupIdLength (source : IncorrectRollupIdLength)
| RollupDataSubmissionError_FeeAsset (source : ParseDenomErrorKind).

Record RawTransfer := mk_raw_transfer {
  raw_tr_to : option RawAddress; raw_tr_amount : option RawUint128;
  raw_tr_asset : string; raw_tr_fee_asset : string }.
Inductive TransferError :=
| TransferError_FieldNotSet (field : string)
| TransferError_Address (source : AddressError)
| TransferError_Asset (source : ParseDenomErrorKind)
| TransferError_FeeAsset (source : ParseDenomErrorKind).

(** [ValidatorName]: at most 32 bytes *)
Definition MAX_VALIDATOR_NAME_LENGTH : nat := 32.
Inductive ValidatorNameError := mk_validator_name_error (length : nat).
Definition validator_name_from_str (value : string) : result ValidatorNameError string :=
  if (MAX_VALIDATOR_NAME_LENGTH <? String.length value)%nat
  then Err (mk_validator_name_error (String.length value))
  else Ok value.

Inductive PublicKeySum := PublicKey_Ed25519 (bytes : string) | PublicKey_Secp256k1 (bytes : string).
Record RawPublicKey := mk_raw_public_key { public_key_sum : option PublicKeySum }.
Record RawValidatorUpdate := mk_raw_validator {
  raw_pub_key : option RawPublicKey; raw_power : Z; raw_validator_name : string }.
Inductive ValidatorUpdateError :=
| ValidatorUpdateError_NegativePower (power : Z)
| ValidatorUpdateError_PublicKeyNotSet
| ValidatorUpdateError_Secp256k1NotSupported
| ValidatorUpdateError_VerificationKey
| ValidatorUpdateError_InvalidName (source : ValidatorNameError).

Record RawSudoAddressChange := mk_raw_sudo_change { raw_sac_new_address : option RawAddress }.
Inductive SudoAddressChangeError :=
| SudoAddressChangeError_FieldNotSet (field : string)
| SudoAddressChangeError_Address (source : AddressError).
Record RawIbcSudoChange := mk_raw_ibc_sudo_change { raw_isc_new_address : option RawAddress }.
Inductive IbcSudoChangeError :=
| IbcSudoChangeError_FieldNotSet (field : string)
| IbcSudoChangeError_Address (source : AddressError).

Record RawIbcHeight := mk_raw_ibc_height { raw_revision_number : Z; raw_revision_height : Z }.
Definition ibc_height_to_raw (h : Z * Z) : RawIbcHeight := mk_raw_ibc_height h.1 h.2.
Definition ibc_height_from_raw (r : RawIbcHeight) : Z * Z :=
  (raw_revision_number r, raw_revision_height r).
Record RawIcs20Withdrawal := mk_raw_withdrawal {
  raw_w_amount : option RawUint128;
  raw_w_denom : string;
  raw_w_destination_chain_address : string;
  raw_w_return_address : option RawAddress;
  raw_w_timeout_height : option RawIbcHeight;
  raw_w_timeout_time : Z;
  raw_w_source_channel : string;
  raw_w_fee_asset : string;
  raw_w_memo : string;
  raw_w_bridge_address : option RawAddress;
  raw_w_use_compat_address : bool }.
Inductive Ics20WithdrawalError :=
| Ics20WithdrawalError_FieldNotSet (field : string)
| Ics20WithdrawalError_ReturnAddress (source : AddressError)
| Ics20WithdrawalError_InvalidSourceChannel
| Ics20WithdrawalError_InvalidFeeAsset (source : ParseDenomErrorKind)
| Ics20WithdrawalError_InvalidBridgeAddress (source : AddressError)
| Ics20WithdrawalError_InvalidDenom (source : ParseDenomErrorKind).

Inductive RawIbcRelayerChangeValue :=
| Raw_RelayerAddition (a : RawAddress)
| Raw_RelayerRemoval (a : RawAddress).
Record RawIbcRelayerChange := mk_raw_relayer_change {
  raw_relayer_change : option RawIbcRelayerChangeValue }.
Inductive IbcRelayerChangeError :=
| IbcRelayerChangeError_Address (source : AddressError)
| IbcRelayerChangeError_MissingAddress.

Inductive RawFeeAssetChangeValue :=
| Raw_FeeAssetAddition (asset : string)
| Raw_FeeAssetRemoval (asset : string).
Record RawFeeAssetChange := mk_raw_fee_asset_change {
  raw_fee_asset_change : option RawFeeAssetChangeValue }.
Inductive FeeAssetChangeError :=
| FeeAssetChangeError_InvalidAsset (source : ParseDenomErrorKind)
| FeeAssetChangeError_MissingAsset.

(** ** Bridge actions *)
Record RawInitBridgeAccount := mk_raw_init {
  raw_iba_rollup_id : option RawRollupId;
  raw_iba_asset : string;
  raw_iba_fee_asset : string;
  raw_iba_sudo_address : option RawAddress;
  raw_iba_withdrawer_address : option RawAddress }.
Inductive InitBridgeAccountError :=
| InitBridgeAccountError_FieldNotSet (field : string)
| InitBridgeAccountError_InvalidRollupId (source : IncorrectRollupIdLength)
| InitBridgeAccountError_InvalidAsset (source : ParseDenomErrorKind)
| InitBridgeAccountError_InvalidFeeAsset (source : ParseDenomErrorKind)
| InitBridgeAccountError_InvalidSudoAddress (source : AddressError)
| InitBridgeAccountError_InvalidWithdrawerAddress (source : AddressError).

Record RawBridgeLock := mk_raw_lock {
  raw_bl_to : option RawAddress;
  raw_bl_amount : option RawUint128;
  raw_bl_asset : string;
  raw_bl_fee_asset : string;
  raw_bl_destination_chain_address : string }.
Inductive BridgeLockError :=
| BridgeLockError_FieldNotSet (field : string)
| BridgeLockError_Address (source : AddressError)
| BridgeLockError_MissingAmount
| BridgeLockError_InvalidAsset (source : ParseDenomErrorKind)
| BridgeLockError_InvalidFeeAsset (source : ParseDenomErrorKind).

Record RawBridgeUnlock := mk_raw_unlock {
  raw_bu_to : option RawAddress;
  raw_bu_amount : option RawUint128;
  raw_bu_fee_asset : string;
  raw_bu_bridge_address : option RawAddress;
  raw_bu_memo : string;
  raw_bu_rollup_block_number : Z;
  raw_bu_rollup_withdrawal_event_id : string }.
Inductive BridgeUnlockError :=
| BridgeUnlockError_FieldNotSet (field : string)
| BridgeUnlockError_Address (source : AddressError)
| BridgeUnlockError_FeeAsset (source : ParseDenomErrorKind)
| BridgeUnlockError_BridgeAddress (source : AddressError).

Record RawBridgeSudoChange := mk_raw_bridge_sudo_change {
  raw_bsc_bridge_address : option RawAddress;
  raw_bsc_new_sudo_address : option RawAddress;
  raw_bsc_new_withdrawer_address : option RawAddress;
  raw_bsc_fee_asset : string }.
Inductive BridgeSudoChangeError :=
| BridgeSudoChangeError_FieldNotSet (field : string)
| BridgeSudoChangeError_InvalidBridgeAddress (source : AddressError)
| BridgeSudoChangeError_InvalidNewSudoAddress (source : AddressError)
| BridgeSudoChangeError_InvalidNewWithdrawerAddress (source : AddressError)
| BridgeSudoChangeError_InvalidFeeAsset (source : ParseDenomErrorKind).

Record RawBridgeTransfer := mk_raw_bridge_transfer {
  raw_bt_to : option RawAddress;
  raw_bt_amount : option RawUint128;
  raw_bt_fee_asset : string;
  raw_bt_destination_chain_address : string;
  raw_bt_bridge_address : option RawAddress;
  raw_bt_rollup_block_number : Z;
  raw_bt_rollup_withdrawal_event_id : string }.
Inductive BridgeTransferError :=
| BridgeTransferError_FieldNotSet (field : string)
| BridgeTransferError_Address (source : AddressError)
| BridgeTransferError_FeeAsset (source : ParseDenomErrorKind)
| BridgeTransferError_BridgeAddress (source : AddressError).

(** ** Sudo actions of the chain *)
Inductive RawFeeChangeComponents :=
| RawFeeChange_Transfer (f : RawFeeComponents)
| RawFeeChange_RollupDataSubmission (f : RawFeeComponents)
| RawFeeChange_Ics20Withdrawal (f : RawFeeComponents)
| RawFeeChange_InitBridgeAccount (f : RawFeeComponents)
| RawFeeChange_BridgeLock (f : RawFeeComponents)
| RawFeeChange_BridgeUnlock (f : RawFeeComponents)
| RawFeeChange_BridgeSudoChange (f : RawFeeComponents)
| RawFeeChange_IbcRelay (f : RawFeeComponents)
| RawFeeChange_ValidatorUpdate (f : RawFeeComponents)
| RawFeeChange_FeeAssetChange (f : RawFeeComponents)
| RawFeeChange_FeeChange (f : RawFeeComponents)
| RawFeeChange_IbcRelayerChange (f : RawFeeComponents)
| RawFeeChange_SudoAddressChange (f : RawFeeComponents)
| RawFeeChange_IbcSudoChange (f : RawFeeComponents)
| RawFeeChange_BridgeTransfer (f : RawFeeComponents)
| RawFeeChange_RecoverIbcClient (f : RawFeeComponents)
| RawFeeChange_CurrencyPairsChange (f : RawFeeComponents)
| RawFeeChange_MarketsChange (f : RawFeeComponents).
Record RawFeeChange := mk_raw_fee_change { raw_fee_components : option RawFeeChangeComponents }.
Inductive FeeChangeError :=
| FeeChangeError_FeeComponent (source : FeeComponentError)
| FeeChangeError_FieldUnset (name : string).

Record RawRecoverIbcClient := mk_raw_recover {
  raw_client_id : string; raw_replacement_client_id : string }.
Inductive RecoverIbcClientError :=
| RecoverIbcClientError_InvalidSubjectClientId
| RecoverIbcClientError_InvalidSubstituteClientId.

Record RawCurrencyPairs := mk_raw_pairs { raw_pairs : list RawCurrencyPair }.
Inductive RawCurrencyPairsChangeValue :=
| Raw_PairsAddition (pairs : RawCurrencyPairs)
| Raw_PairsRemoval (pairs : RawCurrencyPairs).
Record RawCurrencyPairsChange := mk_raw_pairs_change {
  raw_pairs_change : option RawCurrencyPairsChangeValue }.
Inductive CurrencyPairsChangeError :=
| CurrencyPairsChangeError_Unset
| CurrencyPairsChangeError_InvalidCurrencyPair (source : CurrencyPairError).

Record RawMarkets := mk_raw_markets { raw_markets : list RawMarket }.
Inductive RawMarketsChangeAction :=
| Raw_MarketsCreation (markets : RawMarkets)
| Raw_MarketsRemoval (markets : RawMarkets)
| Raw_MarketsUpdate (markets : RawMarkets).
Record RawMarketsChange := mk_raw_markets_change {
  raw_markets_change : option RawMarketsChangeAction }.
Inductive MarketsChangeError :=
| MarketsChangeError_InvalidMarket (source : MarketError)
| MarketsChangeError_MissingMarkets.

Section conversions.
Context `{Wire}.
Local Abbreviation parse_denom := denom_from_str.
Local Abbreviation address_of := (try_from_raw Address).

Definition submission_to_raw (act : RollupDataSubmission) : RawRollupDataSubmission :=
  mk_raw_submission (Some (rollup_id_to_raw (rds_rollup_id act))) (rds_data act)
    (denom_display (rds_fee_asset act)).
Definition submission_try_from_raw (r : RawRollupDataSubmission)
    : result RollupDataSubmissionError RollupDataSubmission :=
  id ← ok_or (RollupDataSubmissionError_FieldNotSet "rollup_id") (raw_rds_rollup_id r);
  id ← map_err RollupDataSubmissionError_RollupIdLength (rollup_id_try_from_raw id);
  fee ← map_err RollupDataSubmissionError_FeeAsset (parse_denom (raw_rds_fee_asset r));
  Ok (mk_submission id (raw_rds_data r) fee).
#[export] Instance protobuf_RollupDataSubmission : Protobuf RollupDataSubmission _ _ :=
  {| to_raw := submission_to_raw; try_from_raw := submission_try_from_raw |}.

(** An amount that is not set is zero here. *)
Definition transfer_to_raw (act : Transfer) : RawTransfer :=
  mk_raw_transfer (Some (to_raw (tr_to act))) (Some (u128_into_raw (tr_amount act)))
    (denom_display (tr_asset act)) (denom_display (tr_fee_asset act)).
Definition transfer_try_from_raw (r : RawTransfer) : result TransferError Transfer :=
  to ← ok_or (TransferError_FieldNotSet "to") (raw_tr_to r);
  to ← map_err TransferError_Address (address_of to);
  let amount := from_option u128_from_raw 0 (raw_tr_amount r) in
  asset ← map_err TransferError_Asset (parse_denom (raw_tr_asset r));
  fee ← map_err TransferError_FeeAsset (parse_denom (raw_tr_fee_asset r));
  Ok (mk_transfer to amount asset fee).
#[export] Instance protobuf_Transfer : Protobuf Transfer _ _ :=
  {| to_raw := transfer_to_raw; try_from_raw := transfer_try_from_raw |}.

(** [i64] to [u32] fails for negative powers and for those above [u32::MAX]. *)
Definition validator_update_to_raw (act : ValidatorUpdate) : RawValidatorUpdate :=
  mk_raw_validator (Some (mk_raw_public_key (Some (PublicKey_Ed25519 (verification_key act)))))
    (power act) (validator_name act).
Definition validator_update_try_from_raw (r : RawValidatorUpdate)
    : result ValidatorUpdateError ValidatorUpdate :=
  name ← map_err ValidatorUpdateError_InvalidName (validator_name_from_str (raw_validator_name r));
  ensure ((0 <=? raw_power r) && (raw_power r <? 2 ^ 32))
    (ValidatorUpdateError_NegativePower (raw_power r));;
  key ← match raw_pub_key r with
        | None | Some (mk_raw_public_key None) => Err ValidatorUpdateError_PublicKeyNotSet
        | Some (mk_raw_public_key (Some (PublicKey_Secp256k1 _))) =>
            Err ValidatorUpdateError_Secp256k1NotSupported
        | Some (mk_raw_public_key (Some (PublicKey_Ed25519 bytes))) =>
            if ed25519_key_valid bytes then Ok bytes else Err ValidatorUpdateError_VerificationKey
        end;
  Ok (mk_validator (raw_power r) key name).
#[export] Instance protobuf_ValidatorUpdate : Protobuf ValidatorUpdate _ _ :=
  {| to_raw := validator_update_to_raw; try_from_raw := validator_update_try_from_raw |}.

Definition sudo_change_to_raw (act : SudoAddressChange) : RawSudoAddressChange :=
  mk_raw_sudo_change (Some (to_raw (sac_new_address act))).
Definition sudo_change_try_from_raw (r : RawSudoAddressChange)
    : result SudoAddressChangeError SudoAddressChange :=
  a ← ok_or (SudoAddressChangeError_FieldNotSet "new_address") (raw_sac_new_address r);
  a ← map_err SudoAddressChangeError_Address (address_of a);
  Ok (mk_sudo_change a).
#[export] Instance protobuf_SudoAddressChange : Protobuf SudoAddressChange _ _ :=
  {| to_raw := sudo_change_to_raw; try_from_raw := sudo_change_try_from_raw |}.

Definition ibc_sudo_change_to_raw (act : IbcSudoChange) : RawIbcSudoChange :=
  mk_raw_ibc_sudo_change (Some (to_raw (isc_new_address act))).
Definition ibc_sudo_change_try_from_raw (r : RawIbcSudoChange)
    : result IbcSudoChangeError IbcSudoChange :=
  a ← ok_or (IbcSudoChangeError_FieldNotSet "new_address") (raw_isc_new_address r);
  a ← map_err IbcSudoChangeError_Address (address_of a);
  Ok (mk_ibc_sudo_change a).
#[export] Instance protobuf_IbcSudoChange : Protobuf IbcSudoChange _ _ :=
  {| to_raw := ibc_sudo_change_to_raw; try_from_raw := ibc_sudo_change_try_from_raw |}.

Definition withdrawal_to_raw (act : Ics20Withdrawal) : RawIcs20Withdrawal :=
  mk_raw_withdrawal (Some (u128_into_raw (w_amount act))) (denom_display (w_denom act))
    (w_destination_chain_address act) (Some (to_raw (w_return_address act)))
    (Some (ibc_height_to_raw (w_timeout_height act))) (w_timeout_time act)
    (w_source_channel act) (denom_display (w_fee_asset act)) (w_memo act)
    (option_map to_raw (w_bridge_address act)) (w_use_compat_address act).
Definition withdrawal_try_from_raw (r : RawIcs20Withdrawal)
    : result Ics20WithdrawalError Ics20Withdrawal :=
  amount ← ok_or (Ics20WithdrawalError_FieldNotSet "amount") (raw_w_amount r);
  ret ← ok_or (Ics20WithdrawalError_FieldNotSet "return_address") (raw_w_return_address r);
  ret ← map_err Ics20WithdrawalError_ReturnAddress (address_of ret);
  height ← ok_or (Ics20WithdrawalError_FieldNotSet "timeout_height") (raw_w_timeout_height r);
  bridge ← map_err Ics20WithdrawalError_InvalidBridgeAddress
             (try_option address_of (raw_w_bridge_address r));
  denom ← map_err Ics20WithdrawalError_InvalidDenom (parse_denom (raw_w_denom r));
  ensure (channel_id_valid (raw_w_source_channel r)) Ics20WithdrawalError_InvalidSourceChannel;;
  fee ← map_err Ics20WithdrawalError_InvalidFeeAsset (parse_denom (raw_w_fee_asset r));
  Ok (mk_withdrawal (u128_from_raw amount) denom (raw_w_destination_chain_address r) ret
        (ibc_height_from_raw height) (raw_w_timeout_time r) (raw_w_source_channel r) fee
        (raw_w_memo r) bridge (raw_w_use_compat_address r)).
#[export] Instance protobuf_Ics20Withdrawal : Protobuf Ics20Withdrawal _ _ :=
  {| to_raw := withdrawal_to_raw; try_from_raw := withdrawal_try_from_raw |}.

Definition relayer_change_to_raw (act : IbcRelayerChange) : RawIbcRelayerChange :=
  match act with
  | RelayerAddition a => mk_raw_relayer_change (Some (Raw_RelayerAddition (to_raw a)))
  | RelayerRemoval a => mk_raw_relayer_change (Some (Raw_RelayerRemoval (to_raw a)))
  end.
Definition relayer_change_try_from_raw (r : RawIbcRelayerChange)
    : result IbcRelayerChangeError IbcRelayerChange :=
  match raw_relayer_change r with
  | Some (Raw_RelayerAddition a) =>
      a ← map_err IbcRelayerChangeError_Address (address_of a); Ok (RelayerAddition a)
  | Some (Raw_RelayerRemoval a) =>
      a ← map_err IbcRelayerChangeError_Address (address_of a); Ok (RelayerRemoval a)
  | None => Err IbcRelayerChangeError_MissingAddress
  end.
#[export] Instance protobuf_IbcRelayerChange : Protobuf IbcRelayerChange _ _ :=
  {| to_raw := relayer_change_to_raw; try_from_raw := relayer_change_try_from_raw |}.

Definition fee_asset_change_to_raw (act : FeeAssetChange) : RawFeeAssetChange :=
  match act with
  | FeeAssetAddition d => mk_raw_fee_asset_change (Some (Raw_FeeAssetAddition (denom_display d)))
  | FeeAssetRemoval d => mk_raw_fee_asset_change (Some (Raw_FeeAssetRemoval (denom_display d)))
  end.
Definition fee_asset_change_try_from_raw (r : RawFeeAssetChange)
    : result FeeAssetChangeError FeeAssetChange :=
  match raw_fee_asset_change r with
  | Some (Raw_FeeAssetAddition d) =>
      d ← map_err FeeAssetChangeError_InvalidAsset (parse_denom d); Ok (FeeAssetAddition d)
  | Some (Raw_FeeAssetRemoval d) =>
      d ← map_err FeeAssetChangeError_InvalidAsset (parse_denom d); Ok (FeeAssetRemoval d)
  | None => Err FeeAssetChangeError_MissingAsset
  end.
#[export] Instance protobuf_FeeAssetChange : Protobuf FeeAssetChange _ _ :=
  {| to_raw := fee_asset_change_to_raw; try_from_raw := fee_asset_change_try_from_raw |}.

Definition init_to_raw (act : InitBridgeAccount) : RawInitBridgeAccount :=
  mk_raw_init (Some (rollup_id_to_raw (iba_rollup_id act))) (denom_display (iba_asset act))
    (denom_display (iba_fee_asset act)) (option_map to_raw (iba_sudo_address act))
    (option_map to_raw (iba_withdrawer_address act)).
Definition init_try_from_raw (r : RawInitBridgeAccount)
    : result InitBridgeAccountError InitBridgeAccount :=
  id ← ok_or (InitBridgeAccountError_FieldNotSet "rollup_id") (raw_iba_rollup_id r);
  id ← map_err InitBridgeAccountError_InvalidRollupId (rollup_id_try_from_raw id);
  asset ← map_err InitBridgeAccountError_InvalidAsset (parse_denom (raw_iba_asset r));
  fee ← map_err InitBridgeAccountError_InvalidFeeAsset (parse_denom (raw_iba_fee_asset r));
  sudo ← map_err InitBridgeAccountError_InvalidSudoAddress
           (try_option address_of (raw_iba_sudo_address r));
  withdrawer ← map_err InitBridgeAccountError_InvalidWithdrawerAddress
                 (try_option address_of (raw_iba_withdrawer_address r));
  Ok (mk_init id asset fee sudo withdrawer).
#[export] Instance protobuf_InitBridgeAccount : Protobuf InitBridgeAccount _ _ :=
  {| to_raw := init_to_raw; try_from_raw := init_try_from_raw |}.

Definition lock_to_raw (act : BridgeLock) : RawBridgeLock :=
  mk_raw_lock (Some (to_raw (bl_to act))) (Some (u128_into_raw (bl_amount act)))
    (denom_display (bl_asset act)) (denom_display (bl_fee_asset act))
    (bl_destination_chain_address act).
Definition lock_try_from_raw (r : RawBridgeLock) : result BridgeLockError BridgeLock :=
  to ← ok_or (BridgeLockError_FieldNotSet "to") (raw_bl_to r);
  to ← map_err BridgeLockError_Address (address_of to);
  amount ← ok_or BridgeLockError_MissingAmount (raw_bl_amount r);
  asset ← map_err BridgeLockError_InvalidAsset (parse_denom (raw_bl_asset r));
  fee ← map_err BridgeLockError_InvalidFeeAsset (parse_denom (raw_bl_fee_asset r));
  Ok (mk_lock to (u128_from_raw amount) asset fee (raw_bl_destination_chain_address r)).
#[export] Instance protobuf_BridgeLock : Protobuf BridgeLock _ _ :=
  {| to_raw := lock_to_raw; try_from_raw := lock_try_from_raw |}.

Definition unlock_to_raw (act : BridgeUnlock) : RawBridgeUnlock :=
  mk_raw_unlock (Some (to_raw (bu_to act))) (Some (u128_into_raw (bu_amount act)))
    (denom_display (bu_fee_asset act)) (Some (to_raw (bu_bridge_address act))) (bu_memo act)
    (bu_rollup_block_number act) (bu_rollup_withdrawal_event_id act).
Definition unlock_try_from_raw (r : RawBridgeUnlock) : result BridgeUnlockError BridgeUnlock :=
  to ← ok_or (BridgeUnlockError_FieldNotSet "to") (raw_bu_to r);
  to ← map_err BridgeUnlockError_Address (address_of to);
  amount ← ok_or (BridgeUnlockError_FieldNotSet "amount") (raw_bu_amount r);
  fee ← map_err BridgeUnlockError_FeeAsset (parse_denom (raw_bu_fee_asset r));
  bridge ← ok_or (BridgeUnlockError_FieldNotSet "bridge_address") (raw_bu_bridge_address r);
  bridge ← map_err BridgeUnlockError_BridgeAddress (address_of bridge);
  Ok (mk_unlock to (u128_from_raw amount) fee bridge (raw_bu_memo r)
        (raw_bu_rollup_block_number r) (raw_bu_rollup_withdrawal_event_id r)).
#[export] Instance protobuf_BridgeUnlock : Protobuf BridgeUnlock _ _ :=
  {| to_raw := unlock_to_raw; try_from_raw := unlock_try_from_raw |}.

Definition bridge_sudo_change_to_raw (act : BridgeSudoChange) : RawBridgeSudoChange :=
  mk_raw_bridge_sudo_change (Some (to_raw (bsc_bridge_address act)))
    (option_map to_raw (bsc_new_sudo_address act))
    (option_map to_raw (bsc_new_withdrawer_address act)) (denom_display (bsc_fee_asset act)).
Definition bridge_sudo_change_try_from_raw (r : RawBridgeSudoChange)
    : result BridgeSudoChangeError BridgeSudoChange :=
  bridge ← ok_or (BridgeSudoChangeError_FieldNotSet "bridge_address") (raw_bsc_bridge_address r);
  bridge ← map_err BridgeSudoChangeError_InvalidBridgeAddress (address_of bridge);
  sudo ← map_err BridgeSudoChangeError_InvalidNewSudoAddress
           (try_option address_of (raw_bsc_new_sudo_address r));
  withdrawer ← map_err BridgeSudoChangeError_InvalidNewWithdrawerAddress
                 (try_option address_of (raw_bsc_new_withdrawer_address r));
  fee ← map_err BridgeSudoChangeError_InvalidFeeAsset (parse_denom (raw_bsc_fee_asset r));
  Ok (mk_bridge_sudo_change bridge sudo withdrawer fee).
#[export] Instance protobuf_BridgeSudoChange : Protobuf BridgeSudoChange _ _ :=
  {| to_raw := bridge_sudo_change_to_raw; try_from_raw := bridge_sudo_change_try_from_raw |}.

Definition bridge_transfer_to_raw (act : BridgeTransfer) : RawBridgeTransfer :=
  mk_raw_bridge_transfer (Some (to_raw (bt_to act))) (Some (u128_into_raw (bt_amount act)))
    (denom_display (bt_fee_asset act)) (bt_destination_chain_address act)
    (Some (to_raw (bt_bridge_address act))) (bt_rollup_block_number act)
    (bt_rollup_withdrawal_event_id act).
Definition bridge_transfer_try_from_raw (r : RawBridgeTransfer)
    : result BridgeTransferError BridgeTransfer :=
  to ← ok_or (BridgeTransferError_FieldNotSet "to") (raw_bt_to r);
  to ← map_err BridgeTransferError_Address (address_of to);
  amount ← ok_or (BridgeTransferError_FieldNotSet "amount") (raw_bt_amount r);
  fee ← map_err BridgeTransferError_FeeAsset (parse_denom (raw_bt_fee_asset r));
  ensure (negb (is_empty (raw_bt_destination_chain_address r)))
    (BridgeTransferError_FieldNotSet "destination_chain_address");;
  bridge ← ok_or (BridgeTransferError_FieldNotSet "bridge_address") (raw_bt_bridge_address r);
  bridge ← map_err BridgeTransferError_BridgeAddress (address_of bridge);
  Ok (mk_bridge_transfer to (u128_from_raw amount) fee (raw_bt_destination_chain_address r) bridge
        (raw_bt_rollup_block_number r) (raw_bt_rollup_withdrawal_event_id r)).
#[export] Instance protobuf_BridgeTransfer : Protobuf BridgeTransfer _ _ :=
  {| to_raw := bridge_transfer_to_raw; try_from_raw := bridge_transfer_try_from_raw |}.

Definition fee_change_to_raw (act : FeeChange) : RawFeeChange :=
  mk_raw_fee_change (Some
    match act with
    | FeeChange_Transfer f => RawFeeChange_Transfer (to_raw f)
    | FeeChange_RollupDataSubmission f => RawFeeChange_RollupDataSubmission (to_raw f)
    | FeeChange_Ics20Withdrawal f => RawFeeChange_Ics20Withdrawal (to_raw f)
    | FeeChange_InitBridgeAccount f => RawFeeChange_InitBridgeAccount (to_raw f)
    | FeeChange_BridgeLock f => RawFeeChange_BridgeLock (to_raw f)
    | FeeChange_BridgeUnlock f => RawFeeChange_BridgeUnlock (to_raw f)
    | FeeChange_BridgeSudoChange f => RawFeeChange_BridgeSudoChange (to_raw f)
    | FeeChange_IbcRelay f => RawFeeChange_IbcRelay (to_raw f)
    | FeeChange_ValidatorUpdate f => RawFeeChange_ValidatorUpdate (to_raw f)
    | FeeChange_FeeAssetChange f => RawFeeChange_FeeAssetChange (to_raw f)
    | FeeChange_FeeChange f => RawFeeChange_FeeChange (to_raw f)
    | FeeChange_IbcRelayerChange f => RawFeeChange_IbcRelayerChange (to_raw f)
    | FeeChange_SudoAddressChange f => RawFeeChange_SudoAddressChange (to_raw f)
    | FeeChange_IbcSudoChange f => RawFeeChange_IbcSudoChange (to_raw f)
    | FeeChange_BridgeTransfer f => RawFeeChange_BridgeTransfer (to_raw f)
    | FeeChange_RecoverIbcClient f => RawFeeChange_RecoverIbcClient (to_raw f)
    | FeeChange_CurrencyPairsChange f => RawFeeChange_CurrencyPairsChange (to_raw f)
    | FeeChange_MarketsChange f => RawFeeChange_MarketsChange (to_raw f)
    end).
Definition fee_change_try_from_raw (r : RawFeeChange) : result FeeChangeError FeeChange :=
  let components f := map_err FeeChangeError_FeeComponent (try_from_raw FeeComponents f) in
  match raw_fee_components r with
  | None => Err (FeeChangeError_FieldUnset "fee_components")
  | Some (RawFeeChange_Transfer f) => f ← components f; Ok (FeeChange_Transfer f)
  | Some (RawFeeChange_RollupDataSubmission f) => f ← components f; Ok (FeeChange_RollupDataSubmission f)
  | Some (RawFeeChange_Ics20Withdrawal f) => f ← components f; Ok (FeeChange_Ics20Withdrawal f)
  | Some (RawFeeChange_InitBridgeAccount f) => f ← components f; Ok (FeeChange_InitBridgeAccount f)
  | Some (RawFeeChange_BridgeLock f) => f ← components f; Ok (FeeChange_BridgeLock f)
  | Some (RawFeeChange_BridgeUnlock f) => f ← components f; Ok (FeeChange_BridgeUnlock f)
  | Some (RawFeeChange_BridgeSudoChange f) => f ← components f; Ok (FeeChange_BridgeSudoChange f)
  | Some (RawFeeChange_IbcRelay f) => f ← components f; Ok (FeeChange_IbcRelay f)
  | Some (RawFeeChange_ValidatorUpdate f) => f ← components f; Ok (FeeChange_ValidatorUpdate f)
  | Some (RawFeeChange_FeeAssetChange f) => f ← components f; Ok (FeeChange_FeeAssetChange f)
  | Some (RawFeeChange_FeeChange f) => f ← components f; Ok (FeeChange_FeeChange f)
  | Some (RawFeeChange_IbcRelayerChange f) => f ← components f; Ok (FeeChange_IbcRelayerChange f)
  | Some (RawFeeChange_SudoAddressChange f) => f ← components f; Ok (FeeChange_SudoAddressChange f)
  | Some (RawFeeChange_IbcSudoChange f) => f ← components f; Ok (FeeChange_IbcSudoChange f)
  | Some (RawFeeChange_BridgeTransfer f) => f ← components f; Ok (FeeChange_BridgeTransfer f)
  | Some (RawFeeChange_RecoverIbcClient f) => f ← components f; Ok (FeeChange_RecoverIbcClient f)
  | Some (RawFeeChange_CurrencyPairsChange f) => f ← components f; Ok (FeeChange_CurrencyPairsChange f)
  | Some (RawFeeChange_MarketsChange f) => f ← components f; Ok (FeeChange_MarketsChange f)
  end.
#[export] Instance protobuf_FeeChange : Protobuf FeeChange _ _ :=
  {| to_raw := fee_change_to_raw; try_from_raw := fee_change_try_from_raw |}.

Definition recover_to_raw (act : RecoverIbcClient) : RawRecoverIbcClient :=
  mk_raw_recover (client_id act) (replacement_client_id act).
Definition recover_try_from_raw (r : RawRecoverIbcClient)
    : result RecoverIbcClientError RecoverIbcClient :=
  ensure (client_id_valid (raw_client_id r)) RecoverIbcClientError_InvalidSubjectClientId;;
  ensure (client_id_valid (raw_replacement_client_id r))
    RecoverIbcClientError_InvalidSubstituteClientId;;
  Ok (mk_recover (raw_client_id r) (raw_replacement_client_id r)).
#[export] Instance protobuf_RecoverIbcClient : Protobuf RecoverIbcClient _ _ :=
  {| to_raw := recover_to_raw; try_from_raw := recover_try_from_raw |}.

Definition pairs_change_to_raw (act : CurrencyPairsChange) : RawCurrencyPairsChange :=
  mk_raw_pairs_change (Some
    match act with
    | PairsAddition ps => Raw_PairsAddition (mk_raw_pairs (map to_raw ps))
    | PairsRemoval ps => Raw_PairsRemoval (mk_raw_pairs (map to_raw ps))
    end).
Definition pairs_change_try_from_raw (r : RawCurrencyPairsChange)
    : result CurrencyPairsChangeError CurrencyPairsChange :=
  let pairs ps := map_err CurrencyPairsChangeError_InvalidCurrencyPair
                    (try_collect (try_from_raw CurrencyPair) (raw_pairs ps)) in
  match raw_pairs_change r with
  | Some (Raw_PairsAddition ps) => ps ← pairs ps; Ok (PairsAddition ps)
  | Some (Raw_PairsRemoval ps) => ps ← pairs ps; Ok (PairsRemoval ps)
  | None => Err CurrencyPairsChangeError_Unset
  end.
#[export] Instance protobuf_CurrencyPairsChange : Protobuf CurrencyPairsChange _ _ :=
  {| to_raw := pairs_change_to_raw; try_from_raw := pairs_change_try_from_raw |}.

Definition markets_change_to_raw (act : MarketsChange) : RawMarketsChange :=
  mk_raw_markets_change (Some
    match act with
    | MarketsCreation ms => Raw_MarketsCreation (mk_raw_markets (map to_raw ms))
    | MarketsRemoval ms => Raw_MarketsRemoval (mk_raw_markets (map to_raw ms))
    | MarketsUpdate ms => Raw_MarketsUpdate (mk_raw_markets (map to_raw ms))
    end).
Definition markets_change_try_from_raw (r : RawMarketsChange)
    : result MarketsChangeError MarketsChange :=
  let markets ms := map_err MarketsChangeError_InvalidMarket
                      (try_collect (try_from_raw Market) (raw_markets ms)) in
  match raw_markets_change r with
  | Some (Raw_MarketsCreation ms) => ms ← markets ms; Ok (MarketsCreation ms)
  | Some (Raw_MarketsRemoval ms) => ms ← markets ms; Ok (MarketsRemoval ms)
  | Some (Raw_MarketsUpdate ms) => ms ← markets ms; Ok (MarketsUpdate ms)
  | None => Err MarketsChangeError_MissingMarkets
  end.
#[export] Instance protobuf_MarketsChange : Protobuf MarketsChange _ _ :=
  {| to_raw := markets_change_to_raw; try_from_raw := markets_change_try_from_raw |}.
End conversions.

(** ** Any action *)
Inductive RawActionValue `{Wire} :=
| RawAction_RollupDataSubmission (act : RawRollupDataSubmission)
| RawAction_Transfer (act : RawTransfer)
| RawAction_ValidatorUpdate (act : RawValidatorUpdate)
| RawAction_SudoAddressChange (act : RawSudoAddressChange)
| RawAction_Ibc (act : RawIbcRelay)
| RawAction_IbcSudoChange (act : RawIbcSudoChange)
| RawAction_Ics20Withdrawal (act : RawIcs20Withdrawal)
| RawAction_IbcRelayerChange (act : RawIbcRelayerChange)
| RawAction_FeeAssetChange (act : RawFeeAssetChange)
| RawAction_InitBridgeAccount (act : RawInitBridgeAccount)
| RawAction_BridgeLock (act : RawBridgeLock)
| RawAction_BridgeUnlock (act : RawBridgeUnlock)
| RawAction_BridgeSudoChange (act : RawBridgeSudoChange)
| RawAction_BridgeTransfer (act : RawBridgeTransfer)
| RawAction_FeeChange (act : RawFeeChange)
| RawAction_RecoverIbcClient (act : RawRecoverIbcClient)
| RawAction_CurrencyPairsChange (act : RawCurrencyPairsChange)
| RawAction_MarketsChange (act : RawMarketsChange).
Record RawAction `{Wire} := mk_raw_action { raw_action_value : option RawActionValue }.
Arguments mk_raw_action {_} _.
Inductive ActionError :=
| ActionError_Unset
| ActionError_RollupDataSubmission (source : RollupDataSubmissionError)
| ActionError_Transfer (source : TransferError)
| ActionError_ValidatorUpdate (source : ValidatorUpdateError)
| ActionError_SudoAddressChange (source : SudoAddressChangeError)
| ActionError_Ibc
| ActionError_IbcSudoChange (source : IbcSudoChangeError)
| ActionError_Ics20Withdrawal (source : Ics20WithdrawalError)
| ActionError_IbcRelayerChange (source : IbcRelayerChangeError)
| ActionError_FeeAssetChange (source : FeeAssetChangeError)
| ActionError_InitBridgeAccount (source : InitBridgeAccountError)
| ActionError_BridgeLock (source : BridgeLockError)
| ActionError_BridgeUnlock (source : BridgeUnlockError)
| ActionError_BridgeSudoChange (source : BridgeSudoChangeError)
| ActionError_BridgeTransfer (source : BridgeTransferError)
| ActionError_FeeChange (source : FeeChangeError)
| ActionError_RecoverIbcClient (source : RecoverIbcClientError)
| ActionError_CurrencyPairsChange (source : CurrencyPairsChangeError)
| ActionError_MarketsChange (source : MarketsChangeError).

Section actions.
Context `{Wire}.
Definition action_to_raw (act : Action) : RawAction :=
  mk_raw_action (Some
    match act with
    | Action_RollupDataSubmission act => RawAction_RollupDataSubmission (to_raw act)
    | Action_Transfer act => RawAction_Transfer (to_raw act)
    | Action_ValidatorUpdate act => RawAction_ValidatorUpdate (to_raw act)
    | Action_SudoAddressChange act => RawAction_SudoAddressChange (to_raw act)
    | Action_Ibc act => RawAction_Ibc (ibc_relay_into_raw act)
    | Action_IbcSudoChange act => RawAction_IbcSudoChange (to_raw act)
    | Action_Ics20Withdrawal act => RawAction_Ics20Withdrawal (to_raw act)
    | Action_IbcRelayerChange act => RawAction_IbcRelayerChange (to_raw act)
    | Action_FeeAssetChange act => RawAction_FeeAssetChange (to_raw act)
    | Action_InitBridgeAccount act => RawAction_InitBridgeAccount (to_raw act)
    | Action_BridgeLock act => RawAction_BridgeLock (to_raw act)
    | Action_BridgeUnlock act => RawAction_BridgeUnlock (to_raw act)
    | Action_BridgeSudoChange act => RawAction_BridgeSudoChange (to_raw act)
    | Action_BridgeTransfer act => RawAction_BridgeTransfer (to_raw act)
    | Action_FeeChange act => RawAction_FeeChange (to_raw act)
    | Action_RecoverIbcClient act => RawAction_RecoverIbcClient (to_raw act)
    | Action_CurrencyPairsChange act => RawAction_CurrencyPairsChange (to_raw act)
    | Action_MarketsChange act => RawAction_MarketsChange (to_raw act)
    end).
Definition action_try_from_raw (r : RawAction) : result ActionError Action :=
  match raw_action_value r with
  | None => Err ActionError_Unset
  | Some (RawAction_RollupDataSubmission act) =>
      act ← map_err ActionError_RollupDataSubmission (try_from_raw RollupDataSubmission act); Ok (Action_RollupDataSubmission act)
  | Some (RawAction_Transfer act) =>
      act ← map_err ActionError_Transfer (try_from_raw Transfer act); Ok (Action_Transfer act)
  | Some (RawAction_ValidatorUpdate act) =>
      act ← map_err ActionError_ValidatorUpdate (try_from_raw ValidatorUpdate act); Ok (Action_ValidatorUpdate act)
  | Some (RawAction_SudoAddressChange act) =>
      act ← map_err ActionError_SudoAddressChange (try_from_raw SudoAddressChange act); Ok (Action_SudoAddressChange act)
  | Some (RawAction_Ibc act) =>
      act ← ok_or ActionError_Ibc (ibc_relay_from_raw act); Ok (Action_Ibc act)
  | Some (RawAction_IbcSudoChange act) =>
      act ← map_err ActionError_IbcSudoChange (try_from_raw IbcSudoChange act); Ok (Action_IbcSudoChange act)
  | Some (RawAction_Ics20Withdrawal act) =>
      act ← map_err ActionError_Ics20Withdrawal (try_from_raw Ics20Withdrawal act); Ok (Action_Ics20Withdrawal act)
  | Some (RawAction_IbcRelayerChange act) =>
      act ← map_err ActionError_IbcRelayerChange (try_from_raw IbcRelayerChange act); Ok (Action_IbcRelayerChange act)
  | Some (RawAction_FeeAssetChange act) =>
      act ← map_err ActionError_FeeAssetChange (try_from_raw FeeAssetChange act); Ok (Action_FeeAssetChange act)
  | Some (RawAction_InitBridgeAccount act) =>
      act ← map_err ActionError_InitBridgeAccount (try_from_raw InitBridgeAccount act); Ok (Action_InitBridgeAccount act)
  | Some (RawAction_BridgeLock act) =>
      act ← map_err ActionError_BridgeLock (try_from_raw BridgeLock act); Ok (Action_BridgeLock act)
  | Some (RawAction_BridgeUnlock act) =>
      act ← map_err ActionError_BridgeUnlock (try_from_raw BridgeUnlock act); Ok (Action_BridgeUnlock act)
  | Some (RawAction_BridgeSudoChange act) =>
      act ← map_err ActionError_BridgeSudoChange (try_from_raw BridgeSudoChange act); Ok (Action_BridgeSudoChange act)
  | Some (RawAction_BridgeTransfer act) =>
      act ← map_err ActionError_BridgeTransfer (try_from_raw BridgeTransfer act); Ok (Action_BridgeTransfer act)
  | Some (RawAction_FeeChange act) =>
      act ← map_err ActionError_FeeChange (try_from_raw FeeChange act); Ok (Action_FeeChange act)
  | Some (RawAction_RecoverIbcClient act) =>
      act ← map_err ActionError_RecoverIbcClient (try_from_raw RecoverIbcClient act); Ok (Action_RecoverIbcClient act)
  | Some (RawAction_CurrencyPairsChange act) =>
      act ← map_err ActionError_CurrencyPairsChange (try_from_raw CurrencyPairsChange act); Ok (Action_CurrencyPairsChange act)
  | Some (RawAction_MarketsChange act) =>
      act ← map_err ActionError_MarketsChange (try_from_raw MarketsChange act); Ok (Action_MarketsChange act)
  end.
#[export] Instance protobuf_Action : Protobuf Action _ _ :=
  {| to_raw := action_to_raw; try_from_raw := action_try_from_raw |}.
End actions.
