(* ===== verification/WireLaws.v ===== *)
(** * Laws of the action messages

    Every action keeps the promises of [ProtobufLaws]: its message is read
    back as the action it was made from, and an action read from any message
    has amounts, heights and powers in the range of their machine types,
    addresses of twenty bytes, rollup ids of thirty-two bytes, well-formed
    denominations and identifiers, and names and texts within their limits. *)
From S2P Require Import Prelude Denom Types State Chain Ics20 Wire WireActions.
From stdpp Require Import base list option strings numbers tactics.
From Stdlib Require Import ZArith Lia Ascii String.
Open Scope string_scope.
Open Scope Z_scope.

Abbreviation opt_valid P := (from_option P True).

Definition fee_change_components (f : FeeChange) : FeeComponents :=
  match f with
  | FeeChange_Transfer c
  | FeeChange_RollupDataSubmission c
  | FeeChange_Ics20Withdrawal c
  | FeeChange_InitBridgeAccount c
  | FeeChange_BridgeLock c
  | FeeChange_BridgeUnlock c
  | FeeChange_BridgeSudoChange c
  | FeeChange_IbcRelay c
  | FeeChange_ValidatorUpdate c
  | FeeChange_FeeAssetChange c
  | FeeChange_FeeChange c
  | FeeChange_IbcRelayerChange c
  | FeeChange_SudoAddressChange c
  | FeeChange_IbcSudoChange c
  | FeeChange_BridgeTransfer c
  | FeeChange_RecoverIbcClient c
  | FeeChange_CurrencyPairsChange c
  | FeeChange_MarketsChange c => c
  end.
Definition raw_fee_change_components (f : RawFeeChangeComponents) : RawFeeComponents :=
  match f with
  | RawFeeChange_Transfer c
  | RawFeeChange_RollupDataSubmission c
  | RawFeeChange_Ics20Withdrawal c
  | RawFeeChange_InitBridgeAccount c
  | RawFeeChange_BridgeLock c
  | RawFeeChange_BridgeUnlock c
  | RawFeeChange_BridgeSudoChange c
  | RawFeeChange_IbcRelay c
  | RawFeeChange_ValidatorUpdate c
  | RawFeeChange_FeeAssetChange c
  | RawFeeChange_FeeChange c
  | RawFeeChange_IbcRelayerChange c
  | RawFeeChange_SudoAddressChange c
  | RawFeeChange_IbcSudoChange c
  | RawFeeChange_BridgeTransfer c
  | RawFeeChange_RecoverIbcClient c
  | RawFeeChange_CurrencyPairsChange c
  | RawFeeChange_MarketsChange c => c
  end.

Section invariants.
Context `{Wire}.
Definition submission_valid (P : Address -> Prop) (a : RollupDataSubmission) : Prop :=
    rollup_id_valid (rds_rollup_id a) /\ wf_denom (rds_fee_asset a) = true.
Definition raw_submission_valid (_ : RawRollupDataSubmission) : Prop :=
    True.
#[export] Instance wire_RollupDataSubmission : WireType RollupDataSubmission :=
  {| valid := submission_valid; raw_valid := raw_submission_valid |}.
Definition transfer_valid (P : Address -> Prop) (a : Transfer) : Prop :=
    P (tr_to a) /\ uint 128 (tr_amount a) /\ wf_denom (tr_asset a) = true /\ wf_denom (tr_fee_asset a) = true.
Definition raw_transfer_valid (r : RawTransfer) : Prop :=
    opt_valid raw_u128_valid (raw_tr_amount r).
#[export] Instance wire_Transfer : WireType Transfer :=
  {| valid := transfer_valid; raw_valid := raw_transfer_valid |}.
Definition validator_update_valid (P : Address -> Prop) (a : ValidatorUpdate) : Prop :=
    uint 32 (power a) /\ ed25519_key_valid (verification_key a) = true /\
    (String.length (validator_name a) <= MAX_VALIDATOR_NAME_LENGTH)%nat.
Definition raw_validator_update_valid (_ : RawValidatorUpdate) : Prop :=
    True.
#[export] Instance wire_ValidatorUpdate : WireType ValidatorUpdate :=
  {| valid := validator_update_valid; raw_valid := raw_validator_update_valid |}.
Definition sudo_change_valid (P : Address -> Prop) (a : SudoAddressChange) : Prop :=
    P (sac_new_address a).
Definition raw_sudo_change_valid (_ : RawSudoAddressChange) : Prop :=
    True.
#[export] Instance wire_SudoAddressChange : WireType SudoAddressChange :=
  {| valid := sudo_change_valid; raw_valid := raw_sudo_change_valid |}.
Definition ibc_sudo_change_valid (P : Address -> Prop) (a : IbcSudoChange) : Prop :=
    P (isc_new_address a).
Definition raw_ibc_sudo_change_valid (_ : RawIbcSudoChange) : Prop :=
    True.
#[export] Instance wire_IbcSudoChange : WireType IbcSudoChange :=
  {| valid := ibc_sudo_change_valid; raw_valid := raw_ibc_sudo_change_valid |}.
Definition withdrawal_valid (P : Address -> Prop) (a : Ics20Withdrawal) : Prop :=
    uint 128 (w_amount a) /\ wf_denom (w_denom a) = true /\ P (w_return_address a) /\
    (uint 64 (w_timeout_height a).1 /\ uint 64 (w_timeout_height a).2) /\ uint 64 (w_timeout_time a) /\
    channel_id_valid (w_source_channel a) = true /\ wf_denom (w_fee_asset a) = true /\
    opt_valid P (w_bridge_address a).
Definition raw_withdrawal_valid (r : RawIcs20Withdrawal) : Prop :=
    opt_valid raw_u128_valid (raw_w_amount r) /\ uint 64 (raw_w_timeout_time r) /\
    opt_valid (fun h => uint 64 (raw_revision_number h) /\ uint 64 (raw_revision_height h)) (raw_w_timeout_height r).
#[export] Instance wire_Ics20Withdrawal : WireType Ics20Withdrawal :=
  {| valid := withdrawal_valid; raw_valid := raw_withdrawal_valid |}.
Definition relayer_change_valid (P : Address -> Prop) (a : IbcRelayerChange) : Prop :=
    match a with RelayerAddition a | RelayerRemoval a => P a end.
Definition raw_relayer_change_valid (_ : RawIbcRelayerChange) : Prop :=
    True.
#[export] Instance wire_IbcRelayerChange : WireType IbcRelayerChange :=
  {| valid := relayer_change_valid; raw_valid := raw_relayer_change_valid |}.
Definition fee_asset_change_valid (P : Address -> Prop) (a : FeeAssetChange) : Prop :=
    match a with FeeAssetAddition d | FeeAssetRemoval d => wf_denom d = true end.
Definition raw_fee_asset_change_valid (_ : RawFeeAssetChange) : Prop :=
    True.
#[export] Instance wire_FeeAssetChange : WireType FeeAssetChange :=
  {| valid := fee_asset_change_valid; raw_valid := raw_fee_asset_change_valid |}.
Definition init_valid (P : Address -> Prop) (a : InitBridgeAccount) : Prop :=
    rollup_id_valid (iba_rollup_id a) /\ wf_denom (iba_asset a) = true /\
    wf_denom (iba_fee_asset a) = true /\ opt_valid P (iba_sudo_address a) /\
    opt_valid P (iba_withdrawer_address a).
Definition raw_init_valid (_ : RawInitBridgeAccount) : Prop :=
    True.
#[export] Instance wire_InitBridgeAccount : WireType InitBridgeAccount :=
  {| valid := init_valid; raw_valid := raw_init_valid |}.
Definition lock_valid (P : Address -> Prop) (a : BridgeLock) : Prop :=
    P (bl_to a) /\ uint 128 (bl_amount a) /\ wf_denom (bl_asset a) = true /\ wf_denom (bl_fee_asset a) = true.
Definition raw_lock_valid (r : RawBridgeLock) : Prop :=
    opt_valid raw_u128_valid (raw_bl_amount r).
#[export] Instance wire_BridgeLock : WireType BridgeLock :=
  {| valid := lock_valid; raw_valid := raw_lock_valid |}.
Definition unlock_valid (P : Address -> Prop) (a : BridgeUnlock) : Prop :=
    P (bu_to a) /\ uint 128 (bu_amount a) /\ wf_denom (bu_fee_asset a) = true /\ P (bu_bridge_address a) /\
    uint 64 (bu_rollup_block_number a).
Definition raw_unlock_valid (r : RawBridgeUnlock) : Prop :=
    opt_valid raw_u128_valid (raw_bu_amount r) /\ uint 64 (raw_bu_rollup_block_number r).
#[export] Instance wire_BridgeUnlock : WireType BridgeUnlock :=
  {| valid := unlock_valid; raw_valid := raw_unlock_valid |}.
Definition bridge_sudo_change_valid (P : Address -> Prop) (a : BridgeSudoChange) : Prop :=
    P (bsc_bridge_address a) /\ opt_valid P (bsc_new_sudo_address a) /\
    opt_valid P (bsc_new_withdrawer_address a) /\ wf_denom (bsc_fee_asset a) = true.
Definition raw_bridge_sudo_change_valid (_ : RawBridgeSudoChange) : Prop :=
    True.
#[export] Instance wire_BridgeSudoChange : WireType BridgeSudoChange :=
  {| valid := bridge_sudo_change_valid; raw_valid := raw_bridge_sudo_change_valid |}.
Definition bridge_transfer_valid (P : Address -> Prop) (a : BridgeTransfer) : Prop :=
    P (bt_to a) /\ uint 128 (bt_amount a) /\ wf_denom (bt_fee_asset a) = true /\ P (bt_bridge_address a) /\
    is_empty (bt_destination_chain_address a) = false /\ uint 64 (bt_rollup_block_number a).
Definition raw_bridge_transfer_valid (r : RawBridgeTransfer) : Prop :=
    opt_valid raw_u128_valid (raw_bt_amount r) /\ uint 64 (raw_bt_rollup_block_number r).
#[export] Instance wire_BridgeTransfer : WireType BridgeTransfer :=
  {| valid := bridge_transfer_valid; raw_valid := raw_bridge_transfer_valid |}.
Definition fee_change_valid (P : Address -> Prop) (a : FeeChange) : Prop :=
    valid P (fee_change_components a).
Definition raw_fee_change_valid (r : RawFeeChange) : Prop :=
    match raw_fee_components r with None => True | Some c => raw_valid FeeComponents (raw_fee_change_components c) end.
#[export] Instance wire_FeeChange : WireType FeeChange :=
  {| valid := fee_change_valid; raw_valid := raw_fee_change_valid |}.
Definition recover_valid (P : Address -> Prop) (a : RecoverIbcClient) : Prop :=
    client_id_valid (client_id a) = true /\ client_id_valid (replacement_client_id a) = true.
Definition raw_recover_valid (_ : RawRecoverIbcClient) : Prop :=
    True.
#[export] Instance wire_RecoverIbcClient : WireType RecoverIbcClient :=
  {| valid := recover_valid; raw_valid := raw_recover_valid |}.
Definition pairs_change_valid (P : Address -> Prop) (a : CurrencyPairsChange) : Prop :=
    match a with PairsAddition ps | PairsRemoval ps => Forall (valid P) ps end.
Definition raw_pairs_change_valid (_ : RawCurrencyPairsChange) : Prop :=
    True.
#[export] Instance wire_CurrencyPairsChange : WireType CurrencyPairsChange :=
  {| valid := pairs_change_valid; raw_valid := raw_pairs_change_valid |}.
Definition markets_change_valid (P : Address -> Prop) (a : MarketsChange) : Prop :=
    match a with MarketsCreation ms | MarketsRemoval ms | MarketsUpdate ms => Forall (valid P) ms end.
Definition raw_markets_change_valid (r : RawMarketsChange) : Prop :=
    match raw_markets_change r with
    | None => True
    | Some (Raw_MarketsCreation ms | Raw_MarketsRemoval ms | Raw_MarketsUpdate ms) =>
        Forall (raw_valid Market) (raw_markets ms)
    end.
#[export] Instance wire_MarketsChange : WireType MarketsChange :=
  {| valid := markets_change_valid; raw_valid := raw_markets_change_valid |}.
#[export] Instance wire_Action : WireType Action := {|
  valid P a :=
    match a with
    | Action_RollupDataSubmission act => valid P act
    | Action_Transfer act => valid P act
    | Action_ValidatorUpdate act => valid P act
    | Action_SudoAddressChange act => valid P act
    | Action_Ibc act => True
    | Action_IbcSudoChange act => valid P act
    | Action_Ics20Withdrawal act => valid P act
    | Action_IbcRelayerChange act => valid P act
    | Action_FeeAssetChange act => valid P act
    | Action_InitBridgeAccount act => valid P act
    | Action_BridgeLock act => valid P act
    | Action_BridgeUnlock act => valid P act
    | Action_BridgeSudoChange act => valid P act
    | Action_BridgeTransfer act => valid P act
    | Action_FeeChange act => valid P act
    | Action_RecoverIbcClient act => valid P act
    | Action_CurrencyPairsChange act => valid P act
    | Action_MarketsChange act => valid P act
    end;
  raw_valid r :=
    match raw_action_value r with
    | None => True
    | Some (RawAction_RollupDataSubmission act) => raw_valid RollupDataSubmission act
    | Some (RawAction_Transfer act) => raw_valid Transfer act
    | Some (RawAction_ValidatorUpdate act) => raw_valid ValidatorUpdate act
    | Some (RawAction_SudoAddressChange act) => raw_valid SudoAddressChange act
    | Some (RawAction_Ibc act) => True
    | Some (RawAction_IbcSudoChange act) => raw_valid IbcSudoChange act
    | Some (RawAction_Ics20Withdrawal act) => raw_valid Ics20Withdrawal act
    | Some (RawAction_IbcRelayerChange act) => raw_valid IbcRelayerChange act
    | Some (RawAction_FeeAssetChange act) => raw_valid FeeAssetChange act
    | Some (RawAction_InitBridgeAccount act) => raw_valid InitBridgeAccount act
    | Some (RawAction_BridgeLock act) => raw_valid BridgeLock act
    | Some (RawAction_BridgeUnlock act) => raw_valid BridgeUnlock act
    | Some (RawAction_BridgeSudoChange act) => raw_valid BridgeSudoChange act
    | Some (RawAction_BridgeTransfer act) => raw_valid BridgeTransfer act
    | Some (RawAction_FeeChange act) => raw_valid FeeChange act
    | Some (RawAction_RecoverIbcClient act) => raw_valid RecoverIbcClient act
    | Some (RawAction_CurrencyPairsChange act) => raw_valid CurrencyPairsChange act
    | Some (RawAction_MarketsChange act) => raw_valid MarketsChange act
    end |}.
End invariants.

(** ** The laws

    [encode] rewrites with the laws of the parts, [decoded] applies them. *)
Lemma address_decoded `{Wire, !WireLaws} r a : try_from_raw Address r = Ok a -> address_typed a.
Proof. exact (wire_decoded (A := Address) r a I). Qed.
Lemma addresses_decoded `{Wire, !WireLaws} o o' :
  try_option (try_from_raw Address) o = Ok o' -> opt_valid address_typed o'.
Proof. refine (wire_option_decoded (A := Address) o o' _). by destruct o. Qed.
Lemma amount_decoded o :
  opt_valid raw_u128_valid o -> uint 128 (from_option u128_from_raw 0 o).
Proof. destruct o; [apply u128_decoded|by split]. Qed.
Lemma ibc_height_roundtrip h : ibc_height_from_raw (ibc_height_to_raw h) = h.
Proof. by destruct h. Qed.
Create HintDb wire.
#[export] Hint Resolve u128_decoded denom_decoded rollup_id_decoded address_decoded
  addresses_decoded amount_decoded : wire.
#[export] Hint Extern 1 (valid address_typed _) => eapply wire_decoded; [|eassumption] : wire.
#[export] Hint Extern 1 (Forall (valid address_typed) _) =>
  eapply wire_list_decoded; [|eassumption] : wire.
#[export] Hint Extern 1 (Forall (raw_valid CurrencyPair) _) => by apply Forall_true : wire.
#[export] Hint Extern 1 (_ = false) => apply negb_true_iff : wire.

Ltac is_bool_value v := first [constr_eq v true | constr_eq v false].
Ltac encode_step :=
  first [ rewrite wire_roundtrip by done | rewrite u128_roundtrip by done
        | rewrite denom_inverse by done | rewrite rollup_id_roundtrip by done
        | rewrite ibc_height_roundtrip | rewrite wire_option by done | rewrite wire_list by done
        | match goal with E : ?b = ?v |- context [?b] => is_bool_value v; rewrite E end ].
Ltac encode := repeat (encode_step; cbn -[option_map map]).

(** The two laws of a message type: [hnf] opens its conversions and its
    invariants, those of its parts stay closed. *)
Ltac encode_message :=
  let a := fresh "a" in let Ha := fresh "Ha" in
  intros a Ha;
  match goal with
  | |- @try_from_raw ?A ?R ?E ?p (to_raw a) = _ =>
      let f := eval hnf in (@try_from_raw A R E p) in
      let g := eval hnf in (@to_raw A R E p) in change (f (g a) = Ok a)
  end;
  match type of Ha with
  | @valid ?A ?R ?E ?p ?w ?P a =>
      let v := eval hnf in (@valid A R E p w) in change (v P a) in Ha
  end;
  destruct a; cbn in Ha; destruct_and?; cbn -[option_map map]; encode; try done.
Ltac decode_message :=
  let r := fresh "r" in let a := fresh "a" in let Hr := fresh "Hr" in let Ha := fresh "Ha" in
  intros r a Hr Ha;
  match type of Ha with
  | @try_from_raw ?A ?R ?E ?p r = _ =>
      let f := eval hnf in (@try_from_raw A R E p) in change (f r = Ok a) in Ha
  end;
  match type of Hr with
  | @raw_valid ?A ?R ?E ?p ?w r =>
      let v := eval hnf in (@raw_valid A R E p w) in change (v r) in Hr
  end;
  match goal with
  | |- @valid ?A ?R ?E ?p ?w ?P a =>
      let v := eval hnf in (@valid A R E p w) in change (v P a)
  end;
  destruct r; cbn in Hr, Ha; repeat (case_match; cbn in Hr, Ha; try discriminate Ha);
  decode Ha; subst; simplify_eq; cbn in *; destruct_and?; split_and?; eauto with wire.

Section laws.
Context `{Wire, !WireLaws}.

#[export] Instance laws_RollupDataSubmission : ProtobufLaws RollupDataSubmission.
Proof. split; [encode_message|decode_message]. Qed.

#[export] Instance laws_Transfer : ProtobufLaws Transfer.
Proof. split; [encode_message|decode_message]. Qed.

#[export] Instance laws_ValidatorUpdate : ProtobufLaws ValidatorUpdate.
Proof.
  split.
  - encode_message.
    unfold validator_name_from_str. rewrite (proj2 (Nat.ltb_ge _ _)) by done. cbn.
    unfold uint in *. rewrite (proj2 (Z.leb_le _ _)), (proj2 (Z.ltb_lt _ _)) by lia. cbn.
    by replace (ed25519_key_valid verification_key) with true.
  - intros r a _ Ha. change (validator_update_try_from_raw r = Ok a) in Ha.
    unfold validator_update_try_from_raw in Ha. decode Ha. subst a.
    unfold validator_name_from_str in Ha0.
    destruct (Nat.ltb_spec MAX_VALIDATOR_NAME_LENGTH (String.length (raw_validator_name r))); [done|].
    injection Ha0 as <-. split_and!; cbn.
    + unfold uint. lia.
    + by repeat case_match; simplify_eq.
    + done.
Qed.

#[export] Instance laws_SudoAddressChange : ProtobufLaws SudoAddressChange.
Proof. split; [encode_message|decode_message]. Qed.

#[export] Instance laws_IbcSudoChange : ProtobufLaws IbcSudoChange.
Proof. split; [encode_message|decode_message]. Qed.

#[export] Instance laws_Ics20Withdrawal : ProtobufLaws Ics20Withdrawal.
Proof. split; [encode_message|decode_message]. Qed.

#[export] Instance laws_IbcRelayerChange : ProtobufLaws IbcRelayerChange.
Proof. split; [encode_message|decode_message]. Qed.

#[export] Instance laws_FeeAssetChange : ProtobufLaws FeeAssetChange.
Proof. split; [encode_message|decode_message]. Qed.

#[export] Instance laws_InitBridgeAccount : ProtobufLaws InitBridgeAccount.
Proof. split; [encode_message|decode_message]. Qed.

#[export] Instance laws_BridgeLock : ProtobufLaws BridgeLock.
Proof. split; [encode_message|decode_message]. Qed.

#[export] Instance laws_BridgeUnlock : ProtobufLaws BridgeUnlock.
Proof. split; [encode_message|decode_message]. Qed.

#[export] Instance laws_BridgeSudoChange : ProtobufLaws BridgeSudoChange.
Proof. split; [encode_message|decode_message]. Qed.

#[export] Instance laws_BridgeTransfer : ProtobufLaws BridgeTransfer.
Proof. split; [encode_message|decode_message]. Qed.

#[export] Instance laws_FeeChange : ProtobufLaws FeeChange.
Proof. split; [encode_message|decode_message]. Qed.

#[export] Instance laws_RecoverIbcClient : ProtobufLaws RecoverIbcClient.
Proof. split; [encode_message|decode_message]. Qed.

#[export] Instance laws_CurrencyPairsChange : ProtobufLaws CurrencyPairsChange.
Proof. split; [encode_message|decode_message]. Qed.

#[export] Instance laws_MarketsChange : ProtobufLaws MarketsChange.
Proof. split; [encode_message|decode_message]. Qed.

#[export] Instance laws_Action : ProtobufLaws Action.
Proof.
  split.
  - intros a Ha. change (action_try_from_raw (action_to_raw a) = Ok a).
    unfold action_try_from_raw, action_to_raw. cbn.
    destruct a; hnf in Ha; cbn; first [rewrite wire_roundtrip by done|rewrite ibc_relay_inverse]; done.
  - intros r a Hr Ha. change (action_try_from_raw r = Ok a) in Ha. destruct r as [[v|]]; [|done].
    unfold action_try_from_raw in Ha. cbn in Ha. destruct v; decode Ha; subst; try done.
    all: match goal with
         | E : try_from_raw ?X ?r = Ok ?x |- _ => exact (wire_decoded (A := X) r x Hr E)
         end.
Qed.
End laws.
