(* ===== verification/WireTransaction.v ===== *)
(** * Signed transactions on the wire

    Models [astria-core/src/protocol/transaction/v1/mod.rs]: transaction
    bodies, their builder, signing, and the conversion of signed transactions
    from and to their messages.  A transaction that was read is authentic: its
    signature covers the very bytes its body was decoded from.  [ledger_tx]
    is the transaction as the ledger of [Transact] sees it. *)
From S2P Require Import Prelude Denom Types State Chain Ics20.
From S2P Require Import Wire WireActions WireLaws.
From stdpp Require Import base list option strings numbers tactics.
From Stdlib Require Import ZArith Lia Ascii String.
Open Scope string_scope.
Open Scope Z_scope.

(** ** Bodies *)
Record TransactionParams := mk_params { params_nonce : Z; params_chain_id : string }.
Record TransactionBody := mk_body { body_actions : Actions; body_params : TransactionParams }.
Record RawTransactionParams := mk_raw_params { raw_nonce : Z; raw_chain_id : string }.
Record RawTransactionBody `{Wire} := mk_raw_body {
  raw_params : option RawTransactionParams; raw_actions : list RawAction }.
Arguments mk_raw_body {_} _ _.

(** [google.protobuf.Any] *)
Record Any := mk_any { type_url : string; any_value : string }.
Definition body_type_url : string := "/astria.protocol.transaction.v1.TransactionBody".

Inductive TransactionBodyError :=
| TransactionBodyError_Action (source : ActionError)
| TransactionBodyError_UnsetParams
| TransactionBodyError_InvalidTypeUrl (got : string)
| TransactionBodyError_DecodeAny
| TransactionBodyError_Group (source : GroupErrorKind).

(** ** Signed transactions *)
Record SignedTransaction := mk_signed {
  signature : string;
  signed_key : string;
  signed_body : TransactionBody;
  body_bytes : string }.
Record RawTransaction := mk_raw_transaction {
  raw_signature : string; raw_public_key : string; raw_body : option Any }.

Inductive TransactionError :=
| TransactionError_UnsetBody
| TransactionError_Signature
| TransactionError_Body (source : TransactionBodyError)
| TransactionError_VerificationKey
| TransactionError_Verification.

(** Its integers have their widths. *)
Definition raw_body_valid `{Wire} (r : RawTransactionBody) : Prop :=
  opt_valid (fun p => uint 32 (raw_nonce p)) (raw_params r) /\
  Forall (raw_valid Action) (raw_actions r).

(** ** Libraries: prost and ed25519 *)
Class Signing := {
  signing_wire :: Wire;
  encode_body : RawTransactionBody -> string;
  decode_body : string -> option RawTransactionBody;
  encode_transaction : RawTransaction -> string;
  decode_transaction : string -> option RawTransaction;
  ed25519_signature_valid : string -> bool;
  (** [verify key signature message] *)
  ed25519_verify : string -> string -> string -> bool;
  (** of a signing key: [sign key message] and the verification key *)
  ed25519_sign : string -> string -> string;
  ed25519_public : string -> string }.

(** Documented behaviour: prost reads integers of the declared widths, and a
    signature verifies with the key of its signer. *)
Class SigningLaws `{Signing} : Prop := {
  signing_wire_laws :: WireLaws;
  body_widths bytes r : decode_body bytes = Some r -> raw_body_valid r;
  signature_verifies k m : ed25519_verify (ed25519_public k) (ed25519_sign k m) m = true;
  signature_accepted k m : ed25519_signature_valid (ed25519_sign k m) = true;
  public_key_accepted k : ed25519_key_valid (ed25519_public k) = true }.

Section transactions.
Context `{Signing}.

Definition params_to_raw (p : TransactionParams) : RawTransactionParams :=
  mk_raw_params (params_nonce p) (params_chain_id p).
Definition params_from_raw (r : RawTransactionParams) : TransactionParams :=
  mk_params (raw_nonce r) (raw_chain_id r).

(** [TransactionBodyBuilder] *)
Record TransactionBodyBuilder := mk_builder {
  builder_nonce : Z; builder_chain_id : string; builder_actions : list Action }.
Definition builder_new : TransactionBodyBuilder := mk_builder 0 "" [].
Definition with_actions (b : TransactionBodyBuilder) (l : list Action) : TransactionBodyBuilder :=
  mk_builder (builder_nonce b) (builder_chain_id b) l.
Definition with_chain_id (b : TransactionBodyBuilder) (id : string) : TransactionBodyBuilder :=
  mk_builder (builder_nonce b) id (builder_actions b).
Definition with_nonce (b : TransactionBodyBuilder) (n : Z) : TransactionBodyBuilder :=
  mk_builder n (builder_chain_id b) (builder_actions b).
Definition body_try_build (b : TransactionBodyBuilder) : result GroupErrorKind TransactionBody :=
  actions ← try_from_list_of_actions (builder_actions b);
  Ok (mk_body actions (mk_params (builder_nonce b) (builder_chain_id b))).

Definition body_to_raw (b : TransactionBody) : RawTransactionBody :=
  mk_raw_body (Some (params_to_raw (body_params b))) (map to_raw (inner (body_actions b))).
Definition body_try_from_raw (r : RawTransactionBody)
    : result TransactionBodyError TransactionBody :=
  params ← ok_or TransactionBodyError_UnsetParams (raw_params r);
  let params := params_from_raw params in
  actions ← map_err TransactionBodyError_Action (try_collect (try_from_raw Action) (raw_actions r));
  map_err TransactionBodyError_Group
    (body_try_build
       (with_nonce (with_chain_id (with_actions builder_new actions) (params_chain_id params))
          (params_nonce params))).
#[export] Instance protobuf_TransactionBody : Protobuf TransactionBody _ _ :=
  {| to_raw := body_to_raw; try_from_raw := body_try_from_raw |}.

Definition body_into_any (b : TransactionBody) : Any := mk_any body_type_url (encode_body (to_raw b)).
Definition body_try_from_any (any : Any) : result TransactionBodyError TransactionBody :=
  ensure (String.eqb (type_url any) body_type_url)
    (TransactionBodyError_InvalidTypeUrl (type_url any));;
  raw ← ok_or TransactionBodyError_DecodeAny (decode_body (any_value any));
  try_from_raw TransactionBody raw.

(** [TransactionBody::sign] *)
Definition sign (b : TransactionBody) (signing_key : string) : SignedTransaction :=
  let bytes := encode_body (to_raw b) in
  mk_signed (ed25519_sign signing_key bytes) (ed25519_public signing_key) b bytes.

Definition transaction_to_raw (tx : SignedTransaction) : RawTransaction :=
  mk_raw_transaction (signature tx) (signed_key tx) (Some (mk_any body_type_url (body_bytes tx))).
Definition transaction_try_from_raw (r : RawTransaction) : result TransactionError SignedTransaction :=
  ensure (ed25519_signature_valid (raw_signature r)) TransactionError_Signature;;
  ensure (ed25519_key_valid (raw_public_key r)) TransactionError_VerificationKey;;
  body ← ok_or TransactionError_UnsetBody (raw_body r);
  let bytes := any_value body in
  ensure (ed25519_verify (raw_public_key r) (raw_signature r) bytes) TransactionError_Verification;;
  transaction ← map_err TransactionError_Body (body_try_from_any body);
  Ok (mk_signed (raw_signature r) (raw_public_key r) transaction bytes).
#[export] Instance protobuf_SignedTransaction : Protobuf SignedTransaction _ _ :=
  {| to_raw := transaction_to_raw; try_from_raw := transaction_try_from_raw |}.

(** [Transaction::id] *)
Definition raw_transaction_hash (r : RawTransaction) : TransactionId := sha256 (encode_transaction r).
Definition transaction_id (tx : SignedTransaction) : TransactionId := raw_transaction_hash (to_raw tx).

(** The transaction of the ledger model *)
Definition ledger_tx (tx : SignedTransaction) : Transaction :=
  mk_transaction (transaction_id tx) (signed_key tx)
    (params_chain_id (body_params (signed_body tx))) (params_nonce (body_params (signed_body tx)))
    (inner (body_actions (signed_body tx))) (encode_transaction (to_raw tx)).
End transactions.

(** ** Invariants *)
Section laws.
Context `{Signing, !SigningLaws}.

(** The nonce is a [u32], the actions are valid and of their group. *)
Definition body_valid (P : Address -> Prop) (b : TransactionBody) : Prop :=
  uint 32 (params_nonce (body_params b)) /\ Forall (valid P) (inner (body_actions b)) /\
  try_from_list_of_actions (inner (body_actions b)) = Ok (body_actions b).
#[export] Instance wire_TransactionBody : WireType TransactionBody :=
  {| valid := body_valid; raw_valid := raw_body_valid |}.

Lemma actions_inner l acts : try_from_list_of_actions l = Ok acts -> inner acts = l.
Proof.
  destruct l as [|a l]; [done|]. cbn. case_match; [done|]. intros (u & _ & [= <-])%bind_Ok. done.
Qed.

#[export] Instance laws_TransactionBody : ProtobufLaws TransactionBody.
Proof.
  split.
  - intros b (_ & Hacts & Hgroup). change (body_try_from_raw (body_to_raw b) = Ok b).
    unfold body_try_from_raw, body_to_raw. destruct b as [acts [n c]]. cbn -[try_collect map] in *.
    rewrite wire_list by done. cbn. unfold body_try_build. cbn -[try_from_list_of_actions].
    by rewrite Hgroup.
  - intros r b [Hn Hacts] Hb. change (body_try_from_raw r = Ok b) in Hb.
    unfold body_try_from_raw, body_try_build in Hb. decode Hb. cbn in *. decode Hb.
    destruct r as [p acts]. cbn in *. subst. apply wire_list_decoded in Ha0; [|done].
    pose proof (actions_inner _ _ Ha1) as Hin. split_and!; cbn; [done|by rewrite Hin|by rewrite Hin].
Qed.

Lemma body_any_roundtrip b :
  decode_body (encode_body (to_raw b)) = Some (to_raw b) ->
  valid address_canonical b -> body_try_from_any (body_into_any b) = Ok b.
Proof.
  intros Hinv Hb. unfold body_try_from_any, body_into_any. cbn -[String.eqb].
  rewrite String.eqb_refl, Hinv. cbn. by apply wire_roundtrip.
Qed.
End laws.
