(* ===== verification/WireTheorems.v ===== *)
(** * Guarantees of the wire formats

    The laws of [WireLaws] as the reader of a transaction needs them: actions
    survive the wire, whatever is read is in range, signed transactions are
    read back, and accepted transactions are authentic. *)
From S2P Require Import Prelude Denom Types State Chain Accounts Authority.
From S2P Require Import BridgeActions Ics20 Relay Transact Demo.
From S2P Require Import Wire WireActions WireLaws WireTransaction.
From stdpp Require Import base list option strings numbers tactics.
From Stdlib Require Import ZArith Lia Ascii String.
Open Scope string_scope.
Open Scope Z_scope.

Section theorems.
Context `{Signing, !SigningLaws}.

(** What is read is authentic. *)
Lemma transaction_decoded r tx :
  try_from_raw SignedTransaction r = Ok tx ->
  to_raw tx = r /\ ed25519_key_valid (signed_key tx) = true /\
  ed25519_verify (signed_key tx) (signature tx) (body_bytes tx) = true /\
  exists raw, decode_body (body_bytes tx) = Some raw /\
    try_from_raw TransactionBody raw = Ok (signed_body tx).
Proof.
  intros Htx. change (transaction_try_from_raw r = Ok tx) in Htx.
  unfold transaction_try_from_raw in Htx. decode Htx. unfold body_try_from_any in Ha3. decode Ha3.
  apply String.eqb_eq in Ha4. subst tx. cbn. destruct r as [sig key body], a1 as [url v]. cbn in *.
  subst. eauto 10.
Qed.

(** C38. C. Every action that is valid is read back from its message: its addresses are
    what their text is read as, its denominations and currency pairs are well
    formed, its numbers and names are within their ranges, and a bridge transfer
    names a destination. *)
Theorem action_roundtrip (act : Action) :
  valid address_canonical act -> try_from_raw Action (to_raw act) = Ok act.
Proof. apply wire_roundtrip. Qed.

(** C39. An action read from any message is in range: its amounts have 128 bits, its
    powers 32 and its heights 64, addresses have twenty bytes and a prefix
    that bech32 permits, rollup ids have thirty-two bytes, denominations and
    currency pairs are well formed, validator names have at most thirty-two
    bytes, and a bridge transfer names a destination. *)
Theorem decoded_action_in_range (r : RawAction) (act : Action) :
  raw_valid Action r -> try_from_raw Action r = Ok act -> valid address_typed act.
Proof. apply wire_decoded. Qed.

(** A signed transaction is read back from its message, by the ledger too. *)
Theorem signed_transaction_roundtrip (b : TransactionBody) (key : string)
    (Hinv : decode_body (encode_body (to_raw b)) = Some (to_raw b)) :
  valid address_canonical b ->
  try_from_raw SignedTransaction (to_raw (sign b key)) = Ok (sign b key).
Proof.
  intros Hb. change (transaction_try_from_raw (transaction_to_raw (sign b key)) = Ok (sign b key)).
  unfold transaction_try_from_raw, transaction_to_raw, sign. cbn -[body_try_from_any].
  rewrite signature_accepted, public_key_accepted, signature_verifies. cbn -[body_try_from_any].
  change (mk_any body_type_url (encode_body (to_raw b))) with (body_into_any b).
  by rewrite body_any_roundtrip.
Qed.

(** C28. An accepted transaction is authentic and well formed: it prints as the
    message it was read from, its signature verifies under its key for the
    bytes its body is decoded from, its nonce has 32 bits, and its actions are
    in range and form a group. *)
Theorem accepted_transaction_is_authentic (r : RawTransaction) (tx : SignedTransaction) :
  try_from_raw SignedTransaction r = Ok tx ->
  to_raw tx = r /\
  ed25519_verify (signed_key tx) (signature tx) (body_bytes tx) = true /\
  (exists raw, decode_body (body_bytes tx) = Some raw /\
     try_from_raw TransactionBody raw = Ok (signed_body tx)) /\
  uint 32 (tx_nonce (ledger_tx tx)) /\
  Forall (valid address_typed) (tx_actions (ledger_tx tx)) /\
  try_from_list_of_actions (tx_actions (ledger_tx tx)) = Ok (body_actions (signed_body tx)).
Proof.
  intros (Hr & _ & Hv & raw & Hd & Hb)%transaction_decoded. split_and!; eauto.
  all: assert (valid address_typed (signed_body tx)) as (? & ? & ?);
    [eapply wire_decoded; [exact (body_widths _ _ Hd)|exact Hb]|done].
Qed.

(** Accepted transactions with the same id are the same transaction, unless
    they are a collision of the hash. *)
Theorem transaction_id_identifies (r1 r2 : RawTransaction) (tx1 tx2 : SignedTransaction)
    (Hinv : forall r, r ∈ [r1; r2] -> decode_transaction (encode_transaction r) = Some r) :
  try_from_raw SignedTransaction r1 = Ok tx1 -> try_from_raw SignedTransaction r2 = Ok tx2 ->
  transaction_id tx1 = transaction_id tx2 ->
  tx1 = tx2 \/ (raw_transaction_hash r1 = raw_transaction_hash r2 /\
                encode_transaction r1 <> encode_transaction r2).
Proof.
  intros H1 H2. pose proof (transaction_decoded _ _ H1) as (E1 & _).
  pose proof (transaction_decoded _ _ H2) as (E2 & _). unfold transaction_id. rewrite E1, E2.
  intros Hid. destruct (decide (encode_transaction r1 = encode_transaction r2)) as [He|]; [left|by right].
  apply (f_equal decode_transaction) in He. rewrite !Hinv in He by (rewrite !elem_of_cons; auto).
  injection He as ->. congruence.
Qed.

(** A power that does not fit into 32 bits is reported as negative. *)
Lemma large_power_reported_negative (r : RawValidatorUpdate) :
  2 ^ 32 <= raw_power r -> (String.length (raw_validator_name r) <= 32)%nat ->
  try_from_raw ValidatorUpdate r = Err (ValidatorUpdateError_NegativePower (raw_power r)).
Proof.
  intros Hp Hn. change (validator_update_try_from_raw r = Err (ValidatorUpdateError_NegativePower (raw_power r))).
  unfold validator_update_try_from_raw, validator_name_from_str.
  rewrite (proj2 (Nat.ltb_ge _ _)) by done. cbn.
  rewrite (proj2 (Z.ltb_ge (raw_power r) _)), andb_false_r by lia. done.
Qed.

(** A transfer whose amount is not set is read as a transfer of nothing. *)
Lemma transfer_without_amount (t : Transfer) :
  valid address_canonical t ->
  try_from_raw Transfer
    (mk_raw_transfer (Some (to_raw (tr_to t))) None (denom_display (tr_asset t))
       (denom_display (tr_fee_asset t))) =
  Ok (mk_transfer (tr_to t) 0 (tr_asset t) (tr_fee_asset t)).
Proof.
  intros (Hto & _ & Ha & Hf).
  change (transfer_try_from_raw
    (mk_raw_transfer (Some (to_raw (tr_to t))) None (denom_display (tr_asset t))
       (denom_display (tr_fee_asset t))) = Ok (mk_transfer (tr_to t) 0 (tr_asset t) (tr_fee_asset t))).
  unfold transfer_try_from_raw. cbn.
  rewrite wire_roundtrip by done. cbn. rewrite denom_inverse by done. cbn. by rewrite denom_inverse.
Qed.
End theorems.

(** ** A concrete wire

    Hex decodes texts of sixty-four characters, a signature is the key followed
    by the message, messages are not encoded but for the demonstrated body. *)
Definition wire_from_hex : FromHex := fun s =>
  if (String.length s =? 64)%nat then Some (unhex s) else None.
Definition wire_demo_external : External := {|
  ext_sha256 := fun s => s;
  ext_from_hex := wire_from_hex;
  hrp_parse := fun p => negb (is_empty p);
  bech32m_decode := demo_address_decode;
  bech32_decode := demo_address_decode;
  bech32m_encode := demo_address_encode;
  bech32_encode := demo_address_encode;
  parse_withdrawal_memo := demo_withdrawal_memo;
  parse_deposit_memo := fun s => if is_empty s then None else Some s;
  packet_data_to_json := demo_packet_to_json;
  packet_data_from_json := demo_packet_from_json;
  ack_from_json := fun s => Some (String.eqb s "ok");
  ack_success := "ok";
  ack_error := fun s => "error: " ++ s;
  send_packet_check := fun _ _ _ => true;
  write_acknowledgement_check := fun _ _ _ => true |}.
Definition wire_demo : Wire := {|
  wire_external := wire_demo_external;
  ed25519_key_valid := fun _ => true;
  channel_id_valid := fun s => negb (is_empty s);
  client_id_valid := fun s => negb (is_empty s);
  RawIbcRelay := string;
  ibc_relay_from_raw := fun s => Some (mk_relay s);
  ibc_relay_into_raw := raw_action |}.

Lemma length_unhex n s : String.length s = (2 * n)%nat -> String.length (unhex s) = n.
Proof.
  revert s. induction n as [|n IH]; intros s Hs; [by destruct s|].
  destruct s as [|a [|b s]]; cbn in Hs; try lia. cbn. f_equal. apply IH. lia.
Qed.
Lemma wire_demo_laws : @WireLaws wire_demo.
Proof.
  split.
  - intros p b _ _ _. change (demo_address_decode (demo_address_encode p b) = Some (p, b)).
    unfold demo_address_decode, demo_address_encode. by rewrite decode_encode.
  - intros s Hs. change (wire_from_hex (hex_encode s) = Some s). unfold wire_from_hex.
    by rewrite hex_encode_length, Hs, unhex_encode.
  - intros s b Hb. change (wire_from_hex s = Some b) in Hb. unfold wire_from_hex in Hb.
    destruct (Nat.eqb_spec (String.length s) 64) as [Hl|]; [|done]. injection Hb as <-.
    by apply (length_unhex 32).
  - by intros [].
Qed.

(** An unlock and its body *)
Definition demo_unlock : Action :=
  Action_BridgeUnlock (mk_unlock (on_chain bob) 7 nria_denom (on_chain carol) "memo" 3 "event").
Definition demo_body : TransactionBody :=
  mk_body (mk_actions BundleableGeneral [demo_unlock]) (mk_params 5 "astria-1").
Definition demo_raw_body : @RawTransactionBody wire_demo :=
  mk_raw_body (Some (mk_raw_params 5 "astria-1")) [@action_to_raw wire_demo demo_unlock].
Definition signing_demo : Signing := {|
  signing_wire := wire_demo;
  encode_body := fun _ => "body";
  decode_body := fun s => if String.eqb s "body" then Some demo_raw_body else None;
  encode_transaction := fun r => raw_signature r ++ raw_public_key r;
  decode_transaction := fun _ => None;
  ed25519_signature_valid := fun _ => true;
  ed25519_verify := fun k s m => String.eqb s (k ++ m);
  ed25519_sign := fun k m => k ++ m;
  ed25519_public := fun k => k |}.

Lemma signing_demo_laws : @SigningLaws signing_demo.
Proof.
  split.
  - apply wire_demo_laws.
  - intros s r Hr. change ((if String.eqb s "body" then Some demo_raw_body else None) = Some r) in Hr.
    destruct (String.eqb s "body"); [|done]. injection Hr as <-. split; [by split|].
    repeat constructor; vm_compute; by intros.
  - intros k m. apply String.eqb_refl.
  - done.
  - done.
Qed.

Lemma demo_unlock_valid : @valid Action _ _ _ (@wire_Action wire_demo) (@address_canonical wire_demo) demo_unlock.
Proof. by vm_compute. Qed.

Lemma action_roundtrip_witness :
  @try_from_raw Action _ _ (@protobuf_Action wire_demo) (@action_to_raw wire_demo demo_unlock) =
  Ok demo_unlock.
Proof. exact (@action_roundtrip signing_demo signing_demo_laws demo_unlock demo_unlock_valid). Defined.

Lemma decoded_action_in_range_witness :
  @valid Action _ _ _ (@wire_Action wire_demo) (@address_typed wire_demo) demo_unlock.
Proof.
  apply (@decoded_action_in_range signing_demo signing_demo_laws (@action_to_raw wire_demo demo_unlock)).
  - by vm_compute.
  - vm_compute. reflexivity.
Defined.

Lemma signed_transaction_roundtrip_witness :
  @transaction_try_from_raw signing_demo (@transaction_to_raw (@sign signing_demo demo_body "key")) =
  Ok (@sign signing_demo demo_body "key").
Proof.
  apply (@signed_transaction_roundtrip signing_demo signing_demo_laws demo_body "key").
  - reflexivity.
  - split_and!; [by split|by repeat constructor; vm_compute|reflexivity].
Defined.

Lemma accepted_transaction_is_authentic_witness :
  let tx := @sign signing_demo demo_body "key" in
  (tx_nonce (@ledger_tx signing_demo tx) = 5) /\
  (@ed25519_verify signing_demo (signed_key tx) (signature tx) (body_bytes tx) = true).
Proof.
  split; [done|].
  apply (@accepted_transaction_is_authentic signing_demo signing_demo_laws
           (@transaction_to_raw (@sign signing_demo demo_body "key"))).
  vm_compute. reflexivity.
Defined.
