(* ===== verification/Collections.v ===== *)
(** * Index maps and partial results

    [attempt E A] is a computation of type [Result<A, E>] that may also panic.
    [IndexMap] models [indexmap::IndexMap] as the association list of its
    insertion order; sorting by keys makes it canonical, so that the order in
    which a map was filled does not matter. *)
From S2P Require Import Prelude Denom Wire.
From stdpp Require Import base list option strings sorting gmap numbers tactics.
From Stdlib Require Import ZArith Lia Ascii String.
Open Scope Z_scope.

(** ** Results of code that may panic *)
Definition attempt (E A : Type) : Type := run (result E A).
#[export] Instance attempt_ret E : MRet (attempt E) := fun A a => Val (Ok a).
#[export] Instance attempt_bind E : MBind (attempt E) := fun A B f m =>
  match m with
  | Val (Ok a) => f a
  | Val (Err e) => Val (Err e)
  | Panic => Panic
  | NoFuel => NoFuel
  end.
Definition running {E A} (r : run A) : attempt E A :=
  match r with Val a => Val (Ok a) | Panic => Panic | NoFuel => NoFuel end.
Definition checked {E A} (r : result E A) : attempt E A := Val r.
(** [r.map_err(f)] of a conversion that may panic *)
Definition attempt_err {E E' A} (f : E -> E') (r : attempt E A) : attempt E' A :=
  match r with Val r => Val (map_err f r) | Panic => Panic | NoFuel => NoFuel end.

Section attempt.
Context {E A B : Type}.
Lemma attempt_bind_Ok (m : attempt E A) (f : A -> attempt E B) b :
  m ≫= f = Val (Ok b) <-> exists a, m = Val (Ok a) /\ f a = Val (Ok b).
Proof.
  destruct m as [[a|e]| |]; cbn; (split; [try done; eauto|]).
  all: intros (a' & Heq & Hf); congruence.
Qed.
Lemma attempt_bind_ret (a : A) (f : A -> attempt E B) : Val (Ok a) ≫= f = f a.
Proof. done. Qed.
Lemma attempt_checked_ret {E'} (e : E' -> E) (a : A) (f : A -> attempt E B) :
  checked (map_err e (Ok a)) ≫= f = f a.
Proof. done. Qed.
Lemma running_Ok (r : run A) a : @running E A r = Val (Ok a) <-> r = Val a.
Proof. by destruct r; cbn; split; intros [= ->]. Qed.
Lemma checked_Ok (r : result E A) a : checked r = Val (Ok a) <-> r = Ok a.
Proof. unfold checked. split; [by intros [= ->]|by intros ->]. Qed.
Lemma attempt_err_Ok {E'} (f : E -> E') (r : attempt E A) a :
  attempt_err f r = Val (Ok a) <-> r = Val (Ok a).
Proof. destruct r as [[]| |]; cbn; split; congruence. Qed.
End attempt.

(** [iter.map(f).collect::<Result<Vec<_>, _>>()] with an [f] that may panic *)
Fixpoint attempt_collect {E A B} (f : A -> attempt E B) (l : list A) : attempt E (list B) :=
  match l with
  | [] => mret []
  | a :: l => b ← f a; bs ← attempt_collect f l; mret (b :: bs)
  end.
(** [o.map(f).transpose()] with an [f] that may panic *)
Definition attempt_option {E A B} (f : A -> attempt E B) (o : option A) : attempt E (option B) :=
  match o with
  | None => mret None
  | Some a => b ← f a; mret (Some b)
  end.

Lemma attempt_collect_Ok {E A B} (f : A -> attempt E B) l l' :
  attempt_collect f l = Val (Ok l') <-> Forall2 (fun a b => f a = Val (Ok b)) l l'.
Proof.
  revert l'. induction l as [|a l IH]; intros l'; cbn.
  - split; [intros [= <-]; constructor|by intros ->%Forall2_nil_inv_l].
  - rewrite attempt_bind_Ok. split.
    + intros (b & Hb & (bs & Hbs & [= <-])%attempt_bind_Ok). constructor; [done|by apply IH].
    + intros (b & bs & Hb & Hbs & ->)%Forall2_cons_inv_l. exists b. split; [done|].
      apply attempt_bind_Ok. exists bs. split; [by apply IH|done].
Qed.
Lemma attempt_option_Ok {E A B} (f : A -> attempt E B) o o' :
  attempt_option f o = Val (Ok o') <->
  match o with None => o' = None | Some a => exists b, f a = Val (Ok b) /\ o' = Some b end.
Proof.
  destruct o as [a|]; cbn; [|by split; [intros [= <-]|intros ->]]. rewrite attempt_bind_Ok.
  split; [intros (b & ? & [= <-])|intros (b & ? & ->)]; eauto.
Qed.

(** ** Index maps *)
Abbreviation IndexMap K V := (list (K * V)).

Section index_map.
Context {K V : Type} `{EqDecision K}.
Implicit Types m : IndexMap K V.

Fixpoint index_get (k : K) m : option V :=
  match m with
  | [] => None
  | (k', v) :: m => if decide (k' = k) then Some v else index_get k m
  end.
(** [insert]: a new value at the place of the old one, or at the end *)
Fixpoint index_insert (k : K) (v : V) m : IndexMap K V :=
  match m with
  | [] => [(k, v)]
  | (k', v') :: m => if decide (k' = k) then (k', v) :: m else (k', v') :: index_insert k v m
  end.
(** [entry(k).or_default()] followed by a change of the value *)
Fixpoint index_update (d : V) (f : V -> V) (k : K) m : IndexMap K V :=
  match m with
  | [] => [(k, f d)]
  | (k', v) :: m => if decide (k' = k) then (k', f v) :: m else (k', v) :: index_update d f k m
  end.
(** [shift_remove]: what remains keeps its order *)
Fixpoint index_shift_remove (k : K) m : IndexMap K V :=
  match m with
  | [] => []
  | (k', v) :: m => if decide (k' = k) then m else (k', v) :: index_shift_remove k m
  end.
(** [collect] into an index map *)
Definition index_collect (l : list (K * V)) : IndexMap K V :=
  fold_left (fun m kv => index_insert kv.1 kv.2 m) l [].

Definition unique m : Prop := NoDup m.*1.

Lemma index_insert_fresh k v m : k ∉ m.*1 -> index_insert k v m = m ++ [(k, v)].
Proof.
  induction m as [|[k' v'] m IH]; cbn; [done|]. rewrite not_elem_of_cons. intros [Hk Hm].
  rewrite decide_False by done. by rewrite IH.
Qed.
Lemma index_collect_app l m : NoDup (m ++ l).*1 -> fold_left (fun m kv => index_insert kv.1 kv.2 m) l m = m ++ l.
Proof.
  revert m. induction l as [|[k v] l IH]; intros m Hm; cbn; [by rewrite app_nil_r|].
  rewrite fmap_app in Hm. apply list.NoDup_app in Hm as (Hm1 & Hdis & Hl). cbn in Hl.
  apply list.NoDup_cons in Hl as [Hk Hl].
  rewrite index_insert_fresh by (intros Hin; apply (Hdis k Hin); left).
  rewrite IH, <- app_assoc; [done|].
  rewrite !fmap_app. cbn. rewrite <- app_assoc. cbn. apply list.NoDup_app. split_and!; [done| |by apply list.NoDup_cons].
  intros x Hx. apply Hdis, Hx.
Qed.
(** Collecting pairs with different keys keeps them as they are. *)
Lemma index_collect_unique l : unique l -> index_collect l = l.
Proof. apply (index_collect_app l []). Qed.

Lemma index_insert_keys k v m :
  (index_insert k v m).*1 = if decide (k ∈ m.*1) then m.*1 else m.*1 ++ [k].
Proof.
  induction m as [|[k' v'] m IH]; cbn; [by rewrite decide_False by set_solver|].
  destruct (decide (k' = k)) as [->|Hk]; cbn; [by rewrite decide_True by set_solver|].
  rewrite IH. repeat case_decide; set_solver.
Qed.
Lemma index_insert_forall (P : K * V -> Prop) k v m : P (k, v) -> Forall P m -> Forall P (index_insert k v m).
Proof.
  intros Hkv. induction 1 as [|[k' v'] m Hv Hm IH]; cbn; [by constructor|].
  case_decide as Hk; constructor; try done. by rewrite Hk.
Qed.
Lemma index_insert_unique k v m : unique m -> unique (index_insert k v m).
Proof.
  unfold unique. rewrite index_insert_keys. intros Hm. case_decide; [done|].
  apply list.NoDup_app. split_and!; [done|set_solver|apply NoDup_singleton].
Qed.
Lemma index_collect_is_unique l : unique (index_collect l).
Proof.
  unfold index_collect. cut (forall m, unique m -> unique (fold_left (fun m kv => index_insert kv.1 kv.2 m) l m)).
  - intros Hcut. apply Hcut. constructor.
  - induction l; intros m Hm; cbn; [done|]. apply IHl. by apply index_insert_unique.
Qed.

Lemma index_update_keys d f k m :
  (index_update d f k m).*1 = if decide (k ∈ m.*1) then m.*1 else m.*1 ++ [k].
Proof.
  induction m as [|[k' v'] m IH]; cbn; [by rewrite decide_False by set_solver|].
  destruct (decide (k' = k)) as [->|Hk]; cbn; [by rewrite decide_True by set_solver|].
  rewrite IH. repeat case_decide; set_solver.
Qed.
Lemma index_update_unique d f k m : unique m -> unique (index_update d f k m).
Proof.
  unfold unique. rewrite index_update_keys. intros Hm. case_decide; [done|].
  apply list.NoDup_app. split_and!; [done|set_solver|apply NoDup_singleton].
Qed.
Lemma index_update_get d f k m k' :
  index_get k' (index_update d f k m) =
  if decide (k = k') then Some (f (default d (index_get k m))) else index_get k' m.
Proof.
  induction m as [|[k1 v] m IH]; cbn.
  - repeat case_decide; congruence.
  - destruct (decide (k1 = k)) as [->|Hk]; cbn; [by repeat case_decide|].
    rewrite IH. repeat case_decide; congruence.
Qed.

Lemma index_get_Some k v m : unique m -> index_get k m = Some v <-> (k, v) ∈ m.
Proof.
  unfold unique. induction m as [|[k' v'] m IH]; cbn; [by split; [|intros ?%not_elem_of_nil]|].
  intros [Hk Hm]%list.NoDup_cons. rewrite elem_of_cons. case_decide as Hd.
  - subst. split; [intros [= ->]; by left|]. intros [[= ->]|Hin]; [done|].
    exfalso. apply Hk. apply list_elem_of_fmap. by exists (k, v).
  - rewrite IH by done. split; [by right|]. intros [[= -> ->]|]; done.
Qed.
Lemma index_get_None k m : index_get k m = None <-> k ∉ m.*1.
Proof.
  induction m as [|[k' v'] m IH]; cbn; [by split; [intros _ ?%not_elem_of_nil|]|].
  rewrite not_elem_of_cons. case_decide; [naive_solver|]. rewrite IH. naive_solver.
Qed.

(** Two maps with the same content are the same up to order. *)
Lemma index_permutation m m' :
  unique m -> unique m' -> (forall k, index_get k m = index_get k m') -> m ≡ₚ m'.
Proof.
  intros Hm Hm' Hget. apply list.NoDup_Permutation.
  - by apply (NoDup_fmap_1 fst).
  - by apply (NoDup_fmap_1 fst).
  - intros [k v]. by rewrite <- !index_get_Some, Hget.
Qed.
Lemma index_get_permutation m m' k : unique m -> m ≡ₚ m' -> index_get k m = index_get k m'.
Proof.
  intros Hm Hp. assert (unique m') as Hm' by (unfold unique in *; by rewrite <- Hp).
  apply option_eq. intros v. by rewrite !index_get_Some, Hp.
Qed.
End index_map.

(** ** Sorting by text keys: [sort_unstable_keys]

    The order of [[u8; 32]] is the lexical one of the bytes. *)
Lemma string_leb_trans s1 s2 s3 :
  String.leb s1 s2 = true -> String.leb s2 s3 = true -> String.leb s1 s3 = true.
Proof.
  unfold String.leb. revert s2 s3. induction s1 as [|a s1 IH]; intros [|b s2] [|c s3]; cbn; try done.
  unfold Ascii.compare. destruct (N.compare_spec (N_of_ascii a) (N_of_ascii b)) as [Hab|Hab|Hab];
    [|destruct (N.compare_spec (N_of_ascii b) (N_of_ascii c)) as [Hbc|Hbc|Hbc]; intros; try done|done].
  - rewrite Hab. destruct (N.compare (N_of_ascii b) (N_of_ascii c)); [apply IH|done..].
  - by rewrite (proj2 (N.compare_lt_iff _ _)) by lia.
  - by rewrite (proj2 (N.compare_lt_iff _ _)) by lia.
Qed.

Section sort_keys.
Context {V : Type}.
Implicit Types m : IndexMap string V.

Definition key_le (a b : string * V) : Prop := String.leb a.1 b.1 = true.
#[export] Instance key_le_dec : RelDecision key_le.
Proof. intros a b. unfold Decision, key_le. destruct (String.leb _ _); [by left|by right]. Defined.
#[export] Instance key_le_total : Total key_le.
Proof. intros a b. apply String.leb_total. Qed.
#[export] Instance key_le_trans : Transitive key_le.
Proof. intros a b c. apply string_leb_trans. Qed.

Definition sort_unstable_keys m : IndexMap string V := merge_sort key_le m.

Lemma sort_keys_permutation m : sort_unstable_keys m ≡ₚ m.
Proof. apply merge_sort_Permutation. Qed.
Lemma sort_keys_sorted m : StronglySorted key_le (sort_unstable_keys m).
Proof. apply StronglySorted_merge_sort; apply _. Qed.
Lemma sort_keys_unique m : unique m -> unique (sort_unstable_keys m).
Proof. unfold unique. by rewrite sort_keys_permutation. Qed.

Lemma sorted_unique_eq m m' :
  unique m -> StronglySorted key_le m -> StronglySorted key_le m' -> m ≡ₚ m' -> m = m'.
Proof.
  intros Hm Hs Hs' Hp. apply (StronglySorted_unique_strong key_le); [|done..].
  intros [k v] [k' v'] H1 H2 Hle Hge. rewrite <- Hp in H2.
  assert (k = k') as <- by exact (String.leb_antisym _ _ Hle Hge). f_equal.
  apply index_get_Some in H1, H2; [congruence|done..].
Qed.
(** The sorted map does not depend on the order of insertion. *)
Lemma sort_keys_canonical m m' :
  unique m -> m ≡ₚ m' -> sort_unstable_keys m = sort_unstable_keys m'.
Proof.
  intros Hm Hp. apply sorted_unique_eq.
  - by apply sort_keys_unique.
  - apply sort_keys_sorted.
  - apply sort_keys_sorted.
  - by rewrite !sort_keys_permutation.
Qed.
Lemma sort_keys_sorted_id m : unique m -> StronglySorted key_le m -> sort_unstable_keys m = m.
Proof.
  intros Hm Hs. apply sorted_unique_eq; [by apply sort_keys_unique|apply sort_keys_sorted|done|].
  apply sort_keys_permutation.
Qed.
Lemma sort_keys_get m k : unique m -> index_get k (sort_unstable_keys m) = index_get k m.
Proof. intros Hm. apply index_get_permutation; [by apply sort_keys_unique|apply sort_keys_permutation]. Qed.
End sort_keys.
