(* ===== verification/Block.v ===== *)
(** * Sequencer blocks: data and messages

    The data of [astria-core/src/sequencerblock/v1/block/mod.rs] with the
    messages and errors of their conversions: block headers, rollup
    transactions, deposits, prices and rollup data, change hashes, extended
    commit infos.  Byte strings are [string]s; the Merkle tree works on lists
    of bytes, [bytes_of] and [text_of] convert at its boundary. *)
From S2P Require Import Prelude Denom Types State Chain Ics20 Wire WireActions.
From S2P Require Import WireLaws WireTransaction Collections MerkleIndex MerkleTree MerkleAudit.
From stdpp Require Import base list option strings numbers tactics.
From Stdlib Require Import ZArith Lia Ascii String Strings.Byte.
Open Scope string_scope.
Open Scope Z_scope.

(** ** Bytes *)
Definition bytes_of (s : string) : list byte := list_byte_of_string s.
Definition text_of (l : list byte) : string := string_of_list_byte l.

(** [Sha256::digest] on lists of bytes *)
Definition digest `{Sha256} (bs : list byte) : hash := bytes_of (sha256 (text_of bs)).

(** [<[u8; 32]>::try_from] *)
Definition hash_of {E} (e : nat -> E) (s : string) : result E hash :=
  if (String.length s =? 32)%nat then Ok (bytes_of s) else Err (e (String.length s)).

(** ** Merkle proofs as messages *)
Record RawProof := mk_raw_proof {
  raw_audit_path : string; raw_leaf_index : Z; raw_tree_size : Z }.
Definition proof_into_raw (p : Proof) : RawProof :=
  let u := into_unchecked p in
  mk_raw_proof (text_of (unchecked_audit_path u)) (unchecked_leaf_index u) (unchecked_tree_size u).
Definition proof_try_from_raw (r : RawProof) : attempt InvalidProofKind Proof :=
  try_into_proof
    (with_tree_size (with_leaf_index (with_audit_path unchecked (bytes_of (raw_audit_path r)))
       (raw_leaf_index r)) (raw_tree_size r)).

(** ** Change hashes: [upgrades/v1/change_hash.rs] *)
Inductive ChangeHashError := InvalidChangeHashLength (expected actual : nat).
Definition change_hash_try_from (bs : string) : result ChangeHashError hash :=
  hash_of (InvalidChangeHashLength 32) bs.

(** ** Rollup transactions *)
Record RollupTransactions := mk_rollup_txs {
  rt_rollup_id : RollupId; rt_transactions : list string; rt_proof : Proof }.
Record RawRollupTransactions := mk_raw_rollup_txs {
  raw_rt_rollup_id : option RawRollupId;
  raw_rt_transactions : list string;
  raw_rt_proof : option RawProof }.
Inductive RollupTransactionsError :=
| RollupTransactionsError_RollupId (source : IncorrectRollupIdLength)
| RollupTransactionsError_FieldNotSet (field : string)
| RollupTransactionsError_ProofInvalid (source : InvalidProofKind).

Definition rollup_transactions_into_raw (t : RollupTransactions) : RawRollupTransactions :=
  mk_raw_rollup_txs (Some (rollup_id_to_raw (rt_rollup_id t))) (rt_transactions t)
    (Some (proof_into_raw (rt_proof t))).
Definition rollup_transactions_try_from_raw (r : RawRollupTransactions)
    : attempt RollupTransactionsError RollupTransactions :=
  id ← checked (ok_or (RollupTransactionsError_FieldNotSet "rollup_id") (raw_rt_rollup_id r));
  id ← checked (map_err RollupTransactionsError_RollupId (rollup_id_try_from_raw id));
  proof ← checked (ok_or (RollupTransactionsError_FieldNotSet "proof") (raw_rt_proof r));
  proof ← attempt_err RollupTransactionsError_ProofInvalid (proof_try_from_raw proof);
  mret (mk_rollup_txs id (raw_rt_transactions r) proof).

(** ** Headers: the chain id, height, time and proposer are [tendermint]'s *)
Record SequencerBlockHeader := mk_header {
  header_chain_id : string;
  header_height : Z;
  header_time : Time;
  header_rollup_transactions_root : hash;
  header_data_hash : hash;
  header_proposer_address : string }.
Record RawTimestamp := mk_timestamp { ts_seconds : Z; ts_nanos : Z }.
Record RawSequencerBlockHeader := mk_raw_header {
  raw_header_chain_id : string;
  raw_header_height : Z;
  raw_header_time : option RawTimestamp;
  raw_header_rollup_transactions_root : string;
  raw_header_data_hash : string;
  raw_header_proposer_address : string }.
Inductive SequencerBlockHeaderError :=
| SequencerBlockHeaderError_InvalidChainId
| SequencerBlockHeaderError_InvalidHeight
| SequencerBlockHeaderError_FieldNotSet (field : string)
| SequencerBlockHeaderError_Time
| SequencerBlockHeaderError_IncorrectRollupTransactionsRootLength (len : nat)
| SequencerBlockHeaderError_ProposerAddress.

Class Tendermint := {
  tm_signing :: Signing;
  tm_chain_id_valid : string -> bool;
  tm_height_valid : Z -> bool;
  tm_time_from : RawTimestamp -> option Time;
  tm_time_into : Time -> RawTimestamp;
  tm_account_valid : string -> bool;
  RawTmCommitInfo : Type;
  tm_commit_from_raw : RawTmCommitInfo -> option ExtendedCommitInfo;
  tm_commit_into_raw : ExtendedCommitInfo -> RawTmCommitInfo }.

Section header.
Context `{Tendermint}.
Definition header_into_raw (h : SequencerBlockHeader) : RawSequencerBlockHeader :=
  mk_raw_header (header_chain_id h) (header_height h) (Some (tm_time_into (header_time h)))
    (text_of (header_rollup_transactions_root h)) (text_of (header_data_hash h))
    (header_proposer_address h).
Definition header_try_from_raw (r : RawSequencerBlockHeader)
    : result SequencerBlockHeaderError SequencerBlockHeader :=
  ensure (tm_chain_id_valid (raw_header_chain_id r)) SequencerBlockHeaderError_InvalidChainId;;
  ensure (tm_height_valid (raw_header_height r)) SequencerBlockHeaderError_InvalidHeight;;
  time ← ok_or (SequencerBlockHeaderError_FieldNotSet "time") (raw_header_time r);
  time ← ok_or SequencerBlockHeaderError_Time (tm_time_from time);
  root ← hash_of SequencerBlockHeaderError_IncorrectRollupTransactionsRootLength
           (raw_header_rollup_transactions_root r);
  data_hash ← hash_of SequencerBlockHeaderError_IncorrectRollupTransactionsRootLength
                (raw_header_data_hash r);
  ensure (tm_account_valid (raw_header_proposer_address r))
    SequencerBlockHeaderError_ProposerAddress;;
  Ok (mk_header (raw_header_chain_id r) (raw_header_height r) time root data_hash
        (raw_header_proposer_address r)).
End header.

(** ** Rollup data: what the rollups read *)
Record RawDeposit := mk_raw_deposit {
  raw_dep_bridge_address : option RawAddress;
  raw_dep_rollup_id : option RawRollupId;
  raw_dep_amount : option RawUint128;
  raw_dep_asset : string;
  raw_dep_destination_chain_address : string;
  raw_dep_source_transaction_id : option RawTransactionId;
  raw_dep_source_action_index : Z }.
Inductive DepositError :=
| DepositError_Address (source : AddressError)
| DepositError_FieldNotSet (field : string)
| DepositError_IncorrectRollupIdLength (source : IncorrectRollupIdLength)
| DepositError_IncorrectAsset (source : ParseDenomErrorKind)
| DepositError_TransactionIdError (source : TransactionIdError).

Record Price := mk_price { price_pair : CurrencyPair; price_value : Z; price_decimals : Z }.
Record RawPrice := mk_raw_price {
  raw_price_pair : option RawCurrencyPair;
  raw_price_value : option RawInt128;
  raw_price_decimals : Z }.
Inductive PriceError :=
| PriceError_FieldNotSet (field : string)
| PriceError_Currency (source : CurrencyPairError)
| PriceError_DecimalsTooLarge.
Record PriceFeedData := mk_price_feed { prices : list Price }.
Record RawPriceFeedData := mk_raw_price_feed { raw_prices : list RawPrice }.
Inductive PriceFeedDataError := PriceFeedDataError_Prices (source : PriceError).

Inductive RollupData :=
| RollupData_SequencedData (data : string)
| RollupData_Deposit (d : Deposit)
| RollupData_PriceFeedData (d : PriceFeedData).
Inductive RawRollupDataValue :=
| RawRollupData_SequencedData (data : string)
| RawRollupData_Deposit (d : RawDeposit)
| RawRollupData_PriceFeedData (d : RawPriceFeedData).
Record RawRollupData := mk_raw_rollup_data { raw_rollup_data_value : option RawRollupDataValue }.
Inductive RollupDataError :=
| RollupDataError_FieldNotSet (field : string)
| RollupDataError_Deposit (source : DepositError)
| RollupDataError_PriceFeedData (source : PriceFeedDataError).

Section rollup_data.
Context `{Wire}.

Definition deposit_to_raw (d : Deposit) : RawDeposit :=
  mk_raw_deposit (Some (to_raw (dep_bridge_address d))) (Some (rollup_id_to_raw (dep_rollup_id d)))
    (Some (u128_into_raw (dep_amount d))) (denom_display (dep_asset d))
    (dep_destination_chain_address d)
    (Some (transaction_id_to_raw (dep_source_transaction_id d))) (dep_source_action_index d).
Definition deposit_try_from_raw (r : RawDeposit) : result DepositError Deposit :=
  bridge ← ok_or (DepositError_FieldNotSet "bridge_address") (raw_dep_bridge_address r);
  bridge ← map_err DepositError_Address (try_from_raw Address bridge);
  amount ← ok_or (DepositError_FieldNotSet "amount") (raw_dep_amount r);
  id ← ok_or (DepositError_FieldNotSet "rollup_id") (raw_dep_rollup_id r);
  id ← map_err DepositError_IncorrectRollupIdLength (rollup_id_try_from_raw id);
  asset ← map_err DepositError_IncorrectAsset (denom_from_str (raw_dep_asset r));
  tx ← ok_or (DepositError_FieldNotSet "transaction_id") (raw_dep_source_transaction_id r);
  tx ← map_err DepositError_TransactionIdError (transaction_id_try_from_raw tx);
  Ok (mk_deposit bridge id (u128_from_raw amount) asset (raw_dep_destination_chain_address r) tx
        (raw_dep_source_action_index r)).
#[export] Instance protobuf_Deposit : Protobuf Deposit _ _ :=
  {| to_raw := deposit_to_raw; try_from_raw := deposit_try_from_raw |}.

Definition price_to_raw (p : Price) : RawPrice :=
  mk_raw_price (Some (to_raw (price_pair p))) (Some (i128_into_raw (price_value p)))
    (price_decimals p).
Definition price_try_from_raw (r : RawPrice) : result PriceError Price :=
  p ← ok_or (PriceError_FieldNotSet "currency_pair") (raw_price_pair r);
  p ← map_err PriceError_Currency (try_from_raw CurrencyPair p);
  v ← ok_or (PriceError_FieldNotSet "price") (raw_price_value r);
  ensure (raw_price_decimals r <? 2 ^ 8) PriceError_DecimalsTooLarge;;
  Ok (mk_price p (i128_from_raw v) (raw_price_decimals r)).
#[export] Instance protobuf_Price : Protobuf Price _ _ :=
  {| to_raw := price_to_raw; try_from_raw := price_try_from_raw |}.

Definition price_feed_to_raw (d : PriceFeedData) : RawPriceFeedData :=
  mk_raw_price_feed (map to_raw (prices d)).
Definition price_feed_try_from_raw (r : RawPriceFeedData) : result PriceFeedDataError PriceFeedData :=
  ps ← map_err PriceFeedDataError_Prices (try_collect (try_from_raw Price) (raw_prices r));
  Ok (mk_price_feed ps).
#[export] Instance protobuf_PriceFeedData : Protobuf PriceFeedData _ _ :=
  {| to_raw := price_feed_to_raw; try_from_raw := price_feed_try_from_raw |}.

Definition rollup_data_to_raw (d : RollupData) : RawRollupData :=
  mk_raw_rollup_data (Some
    match d with
    | RollupData_SequencedData data => RawRollupData_SequencedData data
    | RollupData_Deposit d => RawRollupData_Deposit (to_raw d)
    | RollupData_PriceFeedData d => RawRollupData_PriceFeedData (to_raw d)
    end).
Definition rollup_data_try_from_raw (r : RawRollupData) : result RollupDataError RollupData :=
  match raw_rollup_data_value r with
  | Some (RawRollupData_SequencedData data) => Ok (RollupData_SequencedData data)
  | Some (RawRollupData_Deposit d) =>
      d ← map_err RollupDataError_Deposit (try_from_raw Deposit d); Ok (RollupData_Deposit d)
  | Some (RawRollupData_PriceFeedData d) =>
      d ← map_err RollupDataError_PriceFeedData (try_from_raw PriceFeedData d);
      Ok (RollupData_PriceFeedData d)
  | None => Err (RollupDataError_FieldNotSet "data")
  end.
#[export] Instance protobuf_RollupData : Protobuf RollupData _ _ :=
  {| to_raw := rollup_data_to_raw; try_from_raw := rollup_data_try_from_raw |}.
End rollup_data.

(** * Sequencer blocks: inclusion checks, data items and extended commit infos

    [sequencerblock/v1/mod.rs] (the inclusion checks), [primitive/v1/mod.rs]
    (the tree of the rollup transactions), [protocol/price_feed.rs] and the
    parts of [sequencerblock/v1/block/mod.rs] that read the [data] of a
    CometBFT block. *)

(** ** Messages *)
Record CurrencyPairInfo := mk_pair_info { info_pair : CurrencyPair; info_decimals : Z }.
Record RawIdWithCurrencyPair := mk_raw_id_pair {
  raw_idp_id : Z; raw_idp_pair : option RawCurrencyPair; raw_idp_decimals : Z }.
Record RawCommitMapping `{Tendermint} := mk_raw_mapping {
  raw_commit_info : option RawTmCommitInfo; raw_id_to_pair : list RawIdWithCurrencyPair }.
Record CommitMapping `{Tendermint} := mk_mapping {
  commit_info : ExtendedCommitInfo; id_to_pair : IndexMap Z CurrencyPairInfo }.
Arguments mk_raw_mapping {_} _ _.
Arguments mk_mapping {_} _ _.
Inductive CommitMappingError :=
| CommitMappingError_FieldNotSet (field : string)
| CommitMappingError_CurrencyPair (source : CurrencyPairError)
| CommitMappingError_ExtendedCommitInfo
| CommitMappingError_DecimalsTooLarge (decimals : Z).

Record ExtendedCommitInfoWithProof `{Tendermint} := mk_commit_proof {
  ecp_info : CommitMapping; ecp_encoded : string; ecp_proof : Proof }.
Arguments mk_commit_proof {_} _ _ _.
Record RawExtendedCommitInfoWithProof := mk_raw_commit_proof {
  raw_ecp_info : string; raw_ecp_proof : option RawProof }.
Inductive ExtendedCommitInfoError :=
| ExtendedCommitInfoError_ProofNotSet
| ExtendedCommitInfoError_InvalidProof (source : InvalidProofKind)
| ExtendedCommitInfoError_NotInSequencerBlock
| ExtendedCommitInfoError_Decode
| ExtendedCommitInfoError_Invalid (source : CommitMappingError).

(** [DataItem] and its message *)
Inductive DataItem :=
| DataItem_RollupTransactionsRoot (root : hash)
| DataItem_RollupIdsRoot (root : hash)
| DataItem_UpgradeChangeHashes (hashes : list hash)
| DataItem_ExtendedCommitInfo (info : string).
Inductive RawDataItemValue :=
| RawDataItem_RollupTransactionsRoot (root : string)
| RawDataItem_RollupIdsRoot (root : string)
| RawDataItem_UpgradeChangeHashes (hashes : list string)
| RawDataItem_ExtendedCommitInfo (info : string).
Record RawDataItem := mk_raw_data_item { raw_data_item_value : option RawDataItemValue }.
Inductive DataItemError :=
| DataItemError_Decode (index : nat)
| DataItemError_FieldNotSet (field : string)
| DataItemError_IncorrectHashLength (name : string) (actual : nat)
| DataItemError_Mismatch (index : nat) (expected actual : string).

(** prost, for the messages inside of blocks *)
Class BlockCodec := {
  codec_tendermint :: Tendermint;
  encode_rollup_data : RawRollupData -> string;
  encode_data_item : RawDataItem -> string;
  decode_data_item : string -> option RawDataItem;
  decode_commit_mapping : string -> option RawCommitMapping }.

(** ** Extended commit infos *)
Section commit_info.
Context `{BlockCodec}.

Definition pair_info_try_from_raw (r : RawIdWithCurrencyPair)
    : result CommitMappingError (Z * CurrencyPairInfo) :=
  p ← ok_or (CommitMappingError_FieldNotSet "currency_pair") (raw_idp_pair r);
  p ← map_err CommitMappingError_CurrencyPair (try_from_raw CurrencyPair p);
  ensure (raw_idp_decimals r <? 2 ^ 8) (CommitMappingError_DecimalsTooLarge (raw_idp_decimals r));;
  Ok (raw_idp_id r, mk_pair_info p (raw_idp_decimals r)).
Definition mapping_try_from_raw (r : RawCommitMapping) : result CommitMappingError CommitMapping :=
  info ← ok_or (CommitMappingError_FieldNotSet "extended_commit_info") (raw_commit_info r);
  info ← ok_or CommitMappingError_ExtendedCommitInfo (tm_commit_from_raw info);
  pairs ← try_collect pair_info_try_from_raw (raw_id_to_pair r);
  Ok (mk_mapping info (index_collect pairs)).
Definition mapping_into_raw (m : CommitMapping) : RawCommitMapping :=
  mk_raw_mapping (Some (tm_commit_into_raw (commit_info m)))
    (map (fun kv => mk_raw_id_pair kv.1 (Some (to_raw (info_pair kv.2))) (info_decimals kv.2))
       (id_to_pair m)).

Definition commit_proof_into_raw (e : ExtendedCommitInfoWithProof) : RawExtendedCommitInfoWithProof :=
  mk_raw_commit_proof (ecp_encoded e) (Some (proof_into_raw (ecp_proof e))).
Definition commit_proof_try_from_raw (r : RawExtendedCommitInfoWithProof) (data_hash : hash)
    : attempt ExtendedCommitInfoError ExtendedCommitInfoWithProof :=
  proof ← checked (ok_or ExtendedCommitInfoError_ProofNotSet (raw_ecp_proof r));
  proof ← attempt_err ExtendedCommitInfoError_InvalidProof (proof_try_from_raw proof);
  included ← running (verify digest proof (digest (bytes_of (raw_ecp_info r))) data_hash);
  checked (ensure included ExtendedCommitInfoError_NotInSequencerBlock);;
  raw ← checked (ok_or ExtendedCommitInfoError_Decode (decode_commit_mapping (raw_ecp_info r)));
  info ← checked (map_err ExtendedCommitInfoError_Invalid (mapping_try_from_raw raw));
  mret (mk_commit_proof info (raw_ecp_info r) proof).
End commit_info.

(** ** Inclusion checks *)
Section inclusion.
Context `{Sha256}.

(** [derive_merkle_tree_from_rollup_txs]: the leaf of a rollup is its id and
    the root of its transactions, written in two pieces. *)
Fixpoint derive_tree_loop (l : list (RollupId * list string)) (tree : Tree) : run Tree :=
  match l with
  | [] => mret tree
  | (rollup_id, txs) :: l =>
      txs_tree ← from_leaves digest (bytes_of <$> txs);
      root ← tree_root digest txs_tree;
      b ← builder_write (build_leaf tree) (bytes_of rollup_id);
      b ← builder_write b root;
      tree ← builder_drop digest b;
      derive_tree_loop l tree
  end.
Definition derive_merkle_tree_from_rollup_txs (l : list (RollupId * list string)) : run Tree :=
  derive_tree_loop l tree_new.

Definition are_rollup_ids_included (ids : list RollupId) (proof : Proof) (data_hash : hash) : run bool :=
  tree ← from_leaves digest (bytes_of <$> ids);
  root ← tree_root digest tree;
  verify digest proof (digest root) data_hash.
Definition are_rollup_txs_included (datas : IndexMap RollupId RollupTransactions) (proof : Proof)
    (data_hash : hash) : run bool :=
  tree ← derive_merkle_tree_from_rollup_txs ((fun kv => (kv.1, rt_transactions kv.2)) <$> datas);
  root ← tree_root digest tree;
  verify digest proof (digest root) data_hash.
Definition do_rollup_transactions_match_root (t : RollupTransactions) (root : hash) : run bool :=
  tree ← from_leaves digest (bytes_of <$> rt_transactions t);
  txs_root ← tree_root digest tree;
  let builder := with_leaf_builder (with_root (audit (rt_proof t)) root) in
  perform digest
    (finish_leaf digest (audit_write (audit_write builder (bytes_of (rt_rollup_id t))) txs_root)).

(** [merkle_tree_from_data] *)
Definition merkle_tree_from_data (l : list string) : run Tree :=
  from_leaves digest ((fun item => digest (bytes_of item)) <$> l).
End inclusion.

(** ** Data items *)
Section data_items.
Context `{BlockCodec}.

Definition variant_name (i : DataItem) : string :=
  match i with
  | DataItem_RollupTransactionsRoot _ => "rollup transactions root"
  | DataItem_RollupIdsRoot _ => "rollup ids root"
  | DataItem_UpgradeChangeHashes _ => "upgrade change hashes"
  | DataItem_ExtendedCommitInfo _ => "extended commit info"
  end.
Definition data_item_to_raw (i : DataItem) : RawDataItem :=
  mk_raw_data_item (Some
    match i with
    | DataItem_RollupTransactionsRoot root => RawDataItem_RollupTransactionsRoot (text_of root)
    | DataItem_RollupIdsRoot root => RawDataItem_RollupIdsRoot (text_of root)
    | DataItem_UpgradeChangeHashes hs => RawDataItem_UpgradeChangeHashes (map text_of hs)
    | DataItem_ExtendedCommitInfo info => RawDataItem_ExtendedCommitInfo info
    end).
Definition data_item_encode (i : DataItem) : string := encode_data_item (data_item_to_raw i).
Definition data_item_decode (index : nat) (bs : string) : result DataItemError DataItem :=
  raw ← ok_or (DataItemError_Decode index) (decode_data_item bs);
  value ← ok_or (DataItemError_FieldNotSet "value") (raw_data_item_value raw);
  match value with
  | RawDataItem_RollupTransactionsRoot root =>
      root ← hash_of (DataItemError_IncorrectHashLength "rollup_transactions_root") root;
      Ok (DataItem_RollupTransactionsRoot root)
  | RawDataItem_RollupIdsRoot root =>
      root ← hash_of (DataItemError_IncorrectHashLength "rollup_ids_root") root;
      Ok (DataItem_RollupIdsRoot root)
  | RawDataItem_UpgradeChangeHashes hs =>
      hs ← try_collect (hash_of (DataItemError_IncorrectHashLength "upgrade_change_hash")) hs;
      Ok (DataItem_UpgradeChangeHashes hs)
  | RawDataItem_ExtendedCommitInfo info => Ok (DataItem_ExtendedCommitInfo info)
  end.

Definition mismatch (index : nat) (expected : string) (i : DataItem) {A} : result DataItemError A :=
  Err (DataItemError_Mismatch index expected (variant_name i)).
Definition into_rollup_transactions_root (index : nat) (i : DataItem) : result DataItemError hash :=
  match i with
  | DataItem_RollupTransactionsRoot root => Ok root
  | _ => mismatch index "rollup transactions root" i
  end.
Definition into_rollup_ids_root (index : nat) (i : DataItem) : result DataItemError hash :=
  match i with DataItem_RollupIdsRoot root => Ok root | _ => mismatch index "rollup ids root" i end.
Definition into_upgrade_change_hashes (index : nat) (i : DataItem) : result DataItemError (list hash) :=
  match i with
  | DataItem_UpgradeChangeHashes hs => Ok hs
  | _ => mismatch index "upgrade change hashes" i
  end.
Definition into_extended_commit_info (index : nat) (i : DataItem) : result DataItemError string :=
  match i with
  | DataItem_ExtendedCommitInfo info => Ok info
  | _ => mismatch index "extended commit info" i
  end.
End data_items.
