(* ===== verification/SequencerBlock.v ===== *)
(** * Sequencer blocks: construction, filtering and verification

    The operations of [astria-core/src/sequencerblock/v1/block/mod.rs]: the
    expansion of a CometBFT block's data, [SequencerBlockBuilder::try_build],
    the conversions of whole and filtered blocks, which verify every commitment, and the
    metadata and rollup data that a block is split into for Celestia
    ([astria-core/src/sequencerblock/v1/celestia.rs]). *)
From S2P Require Import Prelude Denom Types State Chain Ics20 Wire WireActions WireLaws.
From S2P Require Import WireTransaction Collections MerkleIndex MerkleTree MerkleAudit Block.
From stdpp Require Import base list option strings numbers tactics.
From Stdlib Require Import ZArith Lia Ascii String Strings.Byte.
Open Scope string_scope.
Open Scope Z_scope.

Inductive SequencerBlockError :=
| SequencerBlockError_InvalidBlockHash (len : nat)
| SequencerBlockError_FieldNotSet (field : string)
| SequencerBlockError_Header (source : SequencerBlockHeaderError)
| SequencerBlockError_ParseRollupTransactions (source : RollupTransactionsError)
| SequencerBlockError_TransactionProofInvalid (source : InvalidProofKind)
| SequencerBlockError_IdProofInvalid (source : InvalidProofKind)
| SequencerBlockError_DataItem (source : DataItemError)
| SequencerBlockError_NoRollupTransactionsRoot
| SequencerBlockError_IncorrectRollupTransactionsRootLength
| SequencerBlockError_NoRollupIdsRoot
| SequencerBlockError_IncorrectRollupIdsRootLength
| SequencerBlockError_NoExtendedCommitInfo
| SequencerBlockError_RollupTransactionsNotInSequencerBlock
| SequencerBlockError_TransactionProtobufDecode
| SequencerBlockError_RawTransactionConversion (source : TransactionError)
| SequencerBlockError_RollupTransactionsRootDoesNotMatchReconstructed
| SequencerBlockError_RollupIdsRootDoesNotMatchReconstructed
| SequencerBlockError_InvalidRollupTransactionsRoot
| SequencerBlockError_InvalidRollupIdsProof
| SequencerBlockError_UpgradeChangeHashes (source : ChangeHashError)
| SequencerBlockError_ExtendedCommitInfo (source : ExtendedCommitInfoError)
| SequencerBlockError_DecodeExtendedCommitInfo
| SequencerBlockError_InvalidExtendedCommitInfo (source : CommitMappingError).

Section block.
Context `{BlockCodec}.

(** ** The data of a CometBFT block *)
Record ExpandedBlockData := mk_expanded {
  ebd_data_root_hash : hash;
  ebd_rollup_transactions_root : hash;
  ebd_rollup_transactions_proof : Proof;
  ebd_rollup_ids_root : hash;
  ebd_rollup_ids_proof : Proof;
  ebd_upgrade_change_hashes : list hash;
  ebd_extended_commit_info : option ExtendedCommitInfoWithProof;
  ebd_user_submitted_transactions : list SignedTransaction }.

(** The transactions after the injected items *)
Definition decode_user_transaction (bs : string) : result SequencerBlockError SignedTransaction :=
  raw ← ok_or SequencerBlockError_TransactionProtobufDecode (decode_transaction bs);
  map_err SequencerBlockError_RawTransactionConversion (try_from_raw SignedTransaction raw).

(** [.construct_proof(index).expect(..)] *)
Definition expect_proof (tree : Tree) (index : Z) : run Proof :=
  p ← construct_proof tree index; unwrap p.

Definition new_from_untyped_data (data : list string) : attempt SequencerBlockError ExpandedBlockData :=
  tree ← running (merkle_tree_from_data data);
  data_root_hash ← running (tree_root digest tree);
  match data with
  | [] => checked (Err SequencerBlockError_NoRollupTransactionsRoot)
  | txs_root :: rest =>
      txs_root ← checked (hash_of (fun _ => SequencerBlockError_IncorrectRollupTransactionsRootLength) txs_root);
      txs_proof ← running (expect_proof tree 0);
      match rest with
      | [] => checked (Err SequencerBlockError_NoRollupIdsRoot)
      | ids_root :: rest =>
          ids_root ← checked (hash_of (fun _ => SequencerBlockError_IncorrectRollupIdsRootLength) ids_root);
          ids_proof ← running (expect_proof tree 1);
          txs ← checked (try_collect decode_user_transaction rest);
          mret (mk_expanded data_root_hash txs_root txs_proof ids_root ids_proof [] None txs)
      end
  end.

(** The third item, if it is a list of change hashes, else nothing *)
Definition take_change_hashes (index : nat) (rest : list string) : list hash * list string * nat :=
  match rest with
  | [] => ([], rest, index)
  | item :: rest' =>
      match data_item_decode index item with
      | Ok (DataItem_UpgradeChangeHashes hs) => (hs, rest', S index)
      | _ => ([], rest, index)
      end
  end.

(** The extended commit info, when it is expected *)
Definition take_commit_info (with_extended_commit_info : bool) (index : nat) (rest : list string)
    : result SequencerBlockError (option (CommitMapping * string) * list string) :=
  if with_extended_commit_info then
    match rest with
    | [] => Err SequencerBlockError_NoExtendedCommitInfo
    | item :: rest =>
        encoded ← map_err SequencerBlockError_DataItem
          (i ← data_item_decode index item; into_extended_commit_info index i);
        raw ← ok_or SequencerBlockError_DecodeExtendedCommitInfo (decode_commit_mapping encoded);
        info ← map_err SequencerBlockError_InvalidExtendedCommitInfo (mapping_try_from_raw raw);
        Ok (Some (info, encoded), rest)
    end
  else Ok (None, rest).

(** The leaves of the data tree are the hashes of the two roots, of the
    extended commit info and of the transactions: the change hashes have no
    leaf, so that the commit info is always the third. *)
Definition new_from_typed_data (data : list string) (with_extended_commit_info : bool)
    : attempt SequencerBlockError ExpandedBlockData :=
  match data with
  | [] => checked (Err SequencerBlockError_NoRollupTransactionsRoot)
  | item :: rest =>
      txs_root ← checked (map_err SequencerBlockError_DataItem
        (i ← data_item_decode 0 item; into_rollup_transactions_root 0 i));
      match rest with
      | [] => checked (Err SequencerBlockError_NoRollupIdsRoot)
      | item :: rest =>
          ids_root ← checked (map_err SequencerBlockError_DataItem
            (i ← data_item_decode 1 item; into_rollup_ids_root 1 i));
          let '(change_hashes, rest, index) := take_change_hashes 2 rest in
          '(info, rest) ← checked (take_commit_info with_extended_commit_info index rest);
          txs ← checked (try_collect decode_user_transaction rest);
          let info_leaf :=
            match info with Some (_, encoded) => [digest (bytes_of encoded)] | None => [] end in
          let leaves := ([digest txs_root; digest ids_root] ++ info_leaf ++
                         ((fun bs => digest (bytes_of bs)) <$> rest))%list in
          tree ← running (from_leaves digest leaves);
          data_root_hash ← running (tree_root digest tree);
          txs_proof ← running (expect_proof tree 0);
          ids_proof ← running (expect_proof tree 1);
          info ← attempt_option (fun '(info, encoded) =>
            proof ← running (expect_proof tree 2); mret (mk_commit_proof info encoded proof)) info;
          mret (mk_expanded data_root_hash txs_root txs_proof ids_root ids_proof change_hashes info txs)
      end
  end.

Definition injected_transaction_count (d : ExpandedBlockData) : Z :=
  let hashes := if bool_decide (ebd_upgrade_change_hashes d = []) then 0 else 1 in
  let info := match ebd_extended_commit_info d with Some _ => 1 | None => 0 end in
  saturating_add 64 (saturating_add 64 2 hashes) info.

(** ** Blocks *)
Record SequencerBlock := mk_block {
  sb_block_hash : hash;
  sb_header : SequencerBlockHeader;
  sb_rollup_transactions : IndexMap RollupId RollupTransactions;
  sb_rollup_transactions_proof : Proof;
  sb_rollup_ids_proof : Proof;
  sb_upgrade_change_hashes : list hash;
  sb_extended_commit_info : option ExtendedCommitInfoWithProof }.
Record RawSequencerBlock := mk_raw_block {
  raw_sb_block_hash : string;
  raw_sb_header : option RawSequencerBlockHeader;
  raw_sb_rollup_transactions : list RawRollupTransactions;
  raw_sb_rollup_transactions_proof : option RawProof;
  raw_sb_rollup_ids_proof : option RawProof;
  raw_sb_upgrade_change_hashes : list string;
  raw_sb_extended_commit_info : option RawExtendedCommitInfoWithProof }.

(** ** [SequencerBlockBuilder] *)
Record SequencerBlockBuilder := mk_block_builder {
  sbb_block_hash : hash;
  sbb_chain_id : string;
  sbb_height : Z;
  sbb_time : Time;
  sbb_proposer_address : string;
  sbb_expanded_block_data : ExpandedBlockData;
  (** a [HashMap]: different rollups, in any order *)
  sbb_deposits : list (RollupId * list Deposit) }.

Definition encode_rollup (d : RollupData) : string := encode_rollup_data (to_raw d).
Definition push_data (datas : IndexMap RollupId (list string)) (id : RollupId) (l : list string)
    : IndexMap RollupId (list string) :=
  index_update [] (fun old => (old ++ l)%list) id datas.

Definition collect_submission (datas : IndexMap RollupId (list string)) (a : Action)
    : IndexMap RollupId (list string) :=
  match a with
  | Action_RollupDataSubmission s =>
      push_data datas (rds_rollup_id s) [encode_rollup (RollupData_SequencedData (rds_data s))]
  | _ => datas
  end.
Definition collect_deposits (datas : IndexMap RollupId (list string)) (d : RollupId * list Deposit)
    : IndexMap RollupId (list string) :=
  push_data datas d.1 ((fun deposit => encode_rollup (RollupData_Deposit deposit)) <$> d.2).
Definition rollup_datas (txs : list SignedTransaction) (deposits : list (RollupId * list Deposit))
    : IndexMap RollupId (list string) :=
  let actions := List.concat ((fun tx => inner (body_actions (signed_body tx))) <$> txs) in
  sort_unstable_keys (fold_left collect_deposits deposits (fold_left collect_submission actions [])).

(** The loop that proves each rollup's transactions *)
Fixpoint prove_rollups (tree : Tree) (i : Z) (datas : list (RollupId * list string))
    : run (IndexMap RollupId RollupTransactions) :=
  match datas with
  | [] => mret []
  | (id, txs) :: datas =>
      proof ← expect_proof tree i;
      rest ← prove_rollups tree (i + 1) datas;
      mret ((id, mk_rollup_txs id txs proof) :: rest)
  end.

Definition try_build (b : SequencerBlockBuilder) : attempt SequencerBlockError SequencerBlock :=
  let d := sbb_expanded_block_data b in
  let datas := rollup_datas (ebd_user_submitted_transactions d) (sbb_deposits b) in
  ids_tree ← running (from_leaves digest (bytes_of <$> datas.*1));
  ids_root ← running (tree_root digest ids_tree);
  checked (ensure (bool_decide (ebd_rollup_ids_root d = ids_root))
    SequencerBlockError_RollupIdsRootDoesNotMatchReconstructed);;
  tree ← running (derive_merkle_tree_from_rollup_txs datas);
  txs_root ← running (tree_root digest tree);
  checked (ensure (bool_decide (ebd_rollup_transactions_root d = txs_root))
    SequencerBlockError_RollupTransactionsRootDoesNotMatchReconstructed);;
  txs ← running (prove_rollups tree 0 datas);
  mret (mk_block (sbb_block_hash b)
    (mk_header (sbb_chain_id b) (sbb_height b) (sbb_time b) (ebd_rollup_transactions_root d)
       (ebd_data_root_hash d) (sbb_proposer_address b))
    (sort_unstable_keys (index_collect txs))
    (ebd_rollup_transactions_proof d) (ebd_rollup_ids_proof d) (ebd_upgrade_change_hashes d)
    (ebd_extended_commit_info d)).

(** ** Conversion of whole blocks *)
Definition block_into_raw (b : SequencerBlock) : RawSequencerBlock :=
  mk_raw_block (text_of (sb_block_hash b)) (Some (header_into_raw (sb_header b)))
    (rollup_transactions_into_raw <$> (sb_rollup_transactions b).*2)
    (Some (proof_into_raw (sb_rollup_transactions_proof b)))
    (Some (proof_into_raw (sb_rollup_ids_proof b)))
    (text_of <$> sb_upgrade_change_hashes b)
    (commit_proof_into_raw <$> sb_extended_commit_info b).

Definition rollup_txs_to_tuple (r : RawRollupTransactions)
    : attempt RollupTransactionsError (RollupId * RollupTransactions) :=
  t ← rollup_transactions_try_from_raw r; mret (rt_rollup_id t, t).

Definition block_try_from_raw (r : RawSequencerBlock) : attempt SequencerBlockError SequencerBlock :=
  block_hash ← checked (hash_of SequencerBlockError_InvalidBlockHash (raw_sb_block_hash r));
  p ← checked (ok_or (SequencerBlockError_FieldNotSet "rollup_transactions_proof")
                 (raw_sb_rollup_transactions_proof r));
  txs_proof ← attempt_err SequencerBlockError_TransactionProofInvalid (proof_try_from_raw p);
  p ← checked (ok_or (SequencerBlockError_FieldNotSet "rollup_ids_proof") (raw_sb_rollup_ids_proof r));
  ids_proof ← attempt_err SequencerBlockError_IdProofInvalid (proof_try_from_raw p);
  h ← checked (ok_or (SequencerBlockError_FieldNotSet "header") (raw_sb_header r));
  header ← checked (map_err SequencerBlockError_Header (header_try_from_raw h));
  txs ← attempt_err SequencerBlockError_ParseRollupTransactions
          (attempt_collect rollup_txs_to_tuple (raw_sb_rollup_transactions r));
  let txs := index_collect txs in
  let data_hash := header_data_hash header in
  ok ← running (verify digest txs_proof (digest (header_rollup_transactions_root header)) data_hash);
  checked (ensure ok SequencerBlockError_InvalidRollupTransactionsRoot);;
  ok ← running (are_rollup_txs_included txs txs_proof data_hash);
  checked (ensure ok SequencerBlockError_RollupTransactionsNotInSequencerBlock);;
  ok ← running (are_rollup_ids_included txs.*1 ids_proof data_hash);
  checked (ensure ok SequencerBlockError_InvalidRollupIdsProof);;
  hashes ← checked (map_err SequencerBlockError_UpgradeChangeHashes
             (try_collect change_hash_try_from (raw_sb_upgrade_change_hashes r)));
  info ← attempt_option (fun e => attempt_err SequencerBlockError_ExtendedCommitInfo
           (commit_proof_try_from_raw e data_hash)) (raw_sb_extended_commit_info r);
  mret (mk_block block_hash header txs txs_proof ids_proof hashes info).
End block.

(** * Filtered sequencer blocks

    [FilteredSequencerBlock] of [sequencerblock/v1/block/mod.rs]: the part of
    a block that a client asked for, with the proofs that let it check the
    rollups' transactions one by one. *)

Inductive FilteredSequencerBlockError :=
| FilteredSequencerBlockError_InvalidBlockHash (len : nat)
| FilteredSequencerBlockError_InvalidHeader (source : SequencerBlockHeaderError)
| FilteredSequencerBlockError_InvalidRollupId (source : IncorrectRollupIdLength)
| FilteredSequencerBlockError_FieldNotSet (field : string)
| FilteredSequencerBlockError_ParseRollupTransactions (source : RollupTransactionsError)
| FilteredSequencerBlockError_RollupTransactionsNotInSequencerBlock
| FilteredSequencerBlockError_RollupTransactionForIdNotInSequencerBlock (id : RollupId)
| FilteredSequencerBlockError_InvalidRollupIdsProof
| FilteredSequencerBlockError_TransactionProofInvalid (source : InvalidProofKind)
| FilteredSequencerBlockError_IdProofInvalid (source : InvalidProofKind)
| FilteredSequencerBlockError_UpgradeChangeHashes (source : ChangeHashError)
| FilteredSequencerBlockError_ExtendedCommitInfo (source : ExtendedCommitInfoError).

Section filtered.
Context `{BlockCodec}.

Record FilteredSequencerBlock := mk_filtered {
  fb_block_hash : hash;
  fb_header : SequencerBlockHeader;
  fb_rollup_transactions : IndexMap RollupId RollupTransactions;
  fb_rollup_transactions_proof : Proof;
  fb_all_rollup_ids : list RollupId;
  fb_rollup_ids_proof : Proof;
  fb_upgrade_change_hashes : list hash;
  fb_extended_commit_info : option ExtendedCommitInfoWithProof }.
Record RawFilteredSequencerBlock := mk_raw_filtered {
  raw_fb_block_hash : string;
  raw_fb_header : option RawSequencerBlockHeader;
  raw_fb_rollup_transactions : list RawRollupTransactions;
  raw_fb_rollup_transactions_proof : option RawProof;
  raw_fb_all_rollup_ids : list RawRollupId;
  raw_fb_rollup_ids_proof : option RawProof;
  raw_fb_upgrade_change_hashes : list string;
  raw_fb_extended_commit_info : option RawExtendedCommitInfoWithProof }.

(** ** Filtering *)
Definition filtered_of (b : SequencerBlock) (txs : IndexMap RollupId RollupTransactions)
    : FilteredSequencerBlock :=
  mk_filtered (sb_block_hash b) (sb_header b) txs (sb_rollup_transactions_proof b)
    (sb_rollup_transactions b).*1 (sb_rollup_ids_proof b) (sb_upgrade_change_hashes b)
    (sb_extended_commit_info b).

(** [into_filtered_block] takes the transactions out of the block's map *)
Fixpoint take_rollups (ids : list RollupId) (from to : IndexMap RollupId RollupTransactions)
    : IndexMap RollupId RollupTransactions :=
  match ids with
  | [] => to
  | id :: ids =>
      match index_get id from with
      | Some txs => take_rollups ids (index_shift_remove id from) (index_insert id txs to)
      | None => take_rollups ids from to
      end
  end.
Definition into_filtered_block (b : SequencerBlock) (ids : list RollupId) : FilteredSequencerBlock :=
  filtered_of b (take_rollups ids (sb_rollup_transactions b) []).

(** [to_filtered_block] copies them *)
Fixpoint copy_rollups (ids : list RollupId) (from to : IndexMap RollupId RollupTransactions)
    : IndexMap RollupId RollupTransactions :=
  match ids with
  | [] => to
  | id :: ids =>
      match index_get id from with
      | Some txs => copy_rollups ids from (index_insert id txs to)
      | None => copy_rollups ids from to
      end
  end.
Definition to_filtered_block (b : SequencerBlock) (ids : list RollupId) : FilteredSequencerBlock :=
  filtered_of b (copy_rollups ids (sb_rollup_transactions b) []).

(** ** Conversion *)
Definition filtered_into_raw (b : FilteredSequencerBlock) : RawFilteredSequencerBlock :=
  mk_raw_filtered (text_of (fb_block_hash b)) (Some (header_into_raw (fb_header b)))
    (rollup_transactions_into_raw <$> (fb_rollup_transactions b).*2)
    (Some (proof_into_raw (fb_rollup_transactions_proof b)))
    (rollup_id_to_raw <$> fb_all_rollup_ids b)
    (Some (proof_into_raw (fb_rollup_ids_proof b)))
    (text_of <$> fb_upgrade_change_hashes b)
    (commit_proof_into_raw <$> fb_extended_commit_info b).

Fixpoint check_rollups (l : list RollupTransactions) (root : hash)
    : attempt FilteredSequencerBlockError unit :=
  match l with
  | [] => mret tt
  | t :: l =>
      ok ← running (do_rollup_transactions_match_root t root);
      checked (ensure ok
        (FilteredSequencerBlockError_RollupTransactionForIdNotInSequencerBlock (rt_rollup_id t)));;
      check_rollups l root
  end.

Definition filtered_try_from_raw (r : RawFilteredSequencerBlock)
    : attempt FilteredSequencerBlockError FilteredSequencerBlock :=
  block_hash ← checked (hash_of FilteredSequencerBlockError_InvalidBlockHash (raw_fb_block_hash r));
  p ← checked (ok_or (FilteredSequencerBlockError_FieldNotSet "rollup_transactions_proof")
                 (raw_fb_rollup_transactions_proof r));
  txs_proof ← attempt_err FilteredSequencerBlockError_TransactionProofInvalid (proof_try_from_raw p);
  p ← checked (ok_or (FilteredSequencerBlockError_FieldNotSet "rollup_ids_proof")
                 (raw_fb_rollup_ids_proof r));
  ids_proof ← attempt_err FilteredSequencerBlockError_IdProofInvalid (proof_try_from_raw p);
  h ← checked (ok_or (FilteredSequencerBlockError_FieldNotSet "header") (raw_fb_header r));
  header ← checked (map_err FilteredSequencerBlockError_InvalidHeader (header_try_from_raw h));
  txs ← attempt_err FilteredSequencerBlockError_ParseRollupTransactions
          (attempt_collect rollup_txs_to_tuple (raw_fb_rollup_transactions r));
  let txs := index_collect txs in
  ids ← checked (map_err FilteredSequencerBlockError_InvalidRollupId
          (try_collect rollup_id_try_from_raw (raw_fb_all_rollup_ids r)));
  let data_hash := header_data_hash header in
  ok ← running (verify digest txs_proof (digest (header_rollup_transactions_root header)) data_hash);
  checked (ensure ok FilteredSequencerBlockError_RollupTransactionsNotInSequencerBlock);;
  check_rollups txs.*2 (header_rollup_transactions_root header);;
  ok ← running (are_rollup_ids_included ids ids_proof data_hash);
  checked (ensure ok FilteredSequencerBlockError_InvalidRollupIdsProof);;
  hashes ← checked (map_err FilteredSequencerBlockError_UpgradeChangeHashes
             (try_collect change_hash_try_from (raw_fb_upgrade_change_hashes r)));
  info ← attempt_option (fun e => attempt_err FilteredSequencerBlockError_ExtendedCommitInfo
           (commit_proof_try_from_raw e data_hash)) (raw_fb_extended_commit_info r);
  mret (mk_filtered block_hash header txs txs_proof ids ids_proof hashes info).
End filtered.

(** * Blocks split for Celestia

    [sequencerblock/v1/celestia.rs]: the metadata of a block and the data of
    its rollups, as the relayer submits them to the data availability layer
    and the conductor reads them back. *)
(** ** Rollup data *)
Record SubmittedRollupData := mk_rollup_blob {
  srd_sequencer_block_hash : hash;
  srd_rollup_id : RollupId;
  srd_transactions : list string;
  srd_proof : Proof }.
Record UncheckedSubmittedRollupData := mk_unchecked_rollup_blob {
  usrd_sequencer_block_hash : hash;
  usrd_rollup_id : RollupId;
  usrd_transactions : list string;
  usrd_proof : Proof }.
Record RawSubmittedRollupData := mk_raw_rollup_blob {
  raw_srd_sequencer_block_hash : string;
  raw_srd_rollup_id : option RawRollupId;
  raw_srd_transactions : list string;
  raw_srd_proof : option RawProof }.
Inductive SubmittedRollupDataError :=
| SubmittedRollupDataError_FieldNotSet (field : string)
| SubmittedRollupDataError_RollupId (source : IncorrectRollupIdLength)
| SubmittedRollupDataError_Proof (source : InvalidProofKind)
| SubmittedRollupDataError_SequencerBlockHash (len : nat).

Definition rollup_from_unchecked (u : UncheckedSubmittedRollupData) : SubmittedRollupData :=
  mk_rollup_blob (usrd_sequencer_block_hash u) (usrd_rollup_id u) (usrd_transactions u) (usrd_proof u).
Definition rollup_into_unchecked (d : SubmittedRollupData) : UncheckedSubmittedRollupData :=
  mk_unchecked_rollup_blob (srd_sequencer_block_hash d) (srd_rollup_id d) (srd_transactions d)
    (srd_proof d).
Definition submitted_rollup_into_raw (d : SubmittedRollupData) : RawSubmittedRollupData :=
  mk_raw_rollup_blob (text_of (srd_sequencer_block_hash d))
    (Some (rollup_id_to_raw (srd_rollup_id d))) (srd_transactions d)
    (Some (proof_into_raw (srd_proof d))).
Definition submitted_rollup_try_from_raw (r : RawSubmittedRollupData)
    : attempt SubmittedRollupDataError SubmittedRollupData :=
  id ← checked (ok_or (SubmittedRollupDataError_FieldNotSet "rollup_id") (raw_srd_rollup_id r));
  id ← checked (map_err SubmittedRollupDataError_RollupId (rollup_id_try_from_raw id));
  h ← checked (hash_of SubmittedRollupDataError_SequencerBlockHash (raw_srd_sequencer_block_hash r));
  p ← checked (ok_or (SubmittedRollupDataError_FieldNotSet "proof") (raw_srd_proof r));
  p ← attempt_err SubmittedRollupDataError_Proof (proof_try_from_raw p);
  mret (mk_rollup_blob h id (raw_srd_transactions r) p).

(** ** Metadata *)
Inductive SubmittedMetadataError :=
| SubmittedMetadataError_BlockHash (len : nat)
| SubmittedMetadataError_Header (source : SequencerBlockHeaderError)
| SubmittedMetadataError_FieldNotSet (field : string)
| SubmittedMetadataError_RollupIds (source : IncorrectRollupIdLength)
| SubmittedMetadataError_RollupTransactionsProof (source : InvalidProofKind)
| SubmittedMetadataError_RollupIdsProof (source : InvalidProofKind)
| SubmittedMetadataError_RollupTransactionsNotInCometBftBlock
| SubmittedMetadataError_RollupIdsNotInCometBftBlock
| SubmittedMetadataError_UpgradeChangeHashes (source : ChangeHashError)
| SubmittedMetadataError_ExtendedCommitInfo (source : ExtendedCommitInfoError).

Section metadata.
Context `{BlockCodec}.

Record UncheckedSubmittedMetadata := mk_unchecked_metadata {
  usm_block_hash : hash;
  usm_header : SequencerBlockHeader;
  usm_rollup_ids : list RollupId;
  usm_rollup_transactions_proof : Proof;
  usm_rollup_ids_proof : Proof;
  usm_upgrade_change_hashes : list hash;
  usm_extended_commit_info : option ExtendedCommitInfoWithProof }.
Record SubmittedMetadata := mk_metadata {
  sm_block_hash : hash;
  sm_header : SequencerBlockHeader;
  sm_rollup_ids : list RollupId;
  sm_rollup_transactions_proof : Proof;
  sm_rollup_ids_proof : Proof;
  sm_upgrade_change_hashes : list hash;
  sm_extended_commit_info : option ExtendedCommitInfoWithProof }.
Record RawSubmittedMetadata := mk_raw_metadata {
  raw_sm_block_hash : string;
  raw_sm_header : option RawSequencerBlockHeader;
  raw_sm_rollup_ids : list RawRollupId;
  raw_sm_rollup_transactions_proof : option RawProof;
  raw_sm_rollup_ids_proof : option RawProof;
  raw_sm_upgrade_change_hashes : list string;
  raw_sm_extended_commit_info : option RawExtendedCommitInfoWithProof }.

Definition contains_rollup_id (m : SubmittedMetadata) (id : RollupId) : bool :=
  bool_decide (id ∈ sm_rollup_ids m).

Definition metadata_into_unchecked (m : SubmittedMetadata) : UncheckedSubmittedMetadata :=
  mk_unchecked_metadata (sm_block_hash m) (sm_header m) (sm_rollup_ids m)
    (sm_rollup_transactions_proof m) (sm_rollup_ids_proof m) (sm_upgrade_change_hashes m)
    (sm_extended_commit_info m).
Definition metadata_try_from_unchecked (u : UncheckedSubmittedMetadata)
    : attempt SubmittedMetadataError SubmittedMetadata :=
  let data_hash := header_data_hash (usm_header u) in
  ok ← running (verify digest (usm_rollup_transactions_proof u)
                  (digest (header_rollup_transactions_root (usm_header u))) data_hash);
  checked (ensure ok SubmittedMetadataError_RollupTransactionsNotInCometBftBlock);;
  ok ← running (are_rollup_ids_included (usm_rollup_ids u) (usm_rollup_ids_proof u) data_hash);
  checked (ensure ok SubmittedMetadataError_RollupIdsNotInCometBftBlock);;
  mret (mk_metadata (usm_block_hash u) (usm_header u) (usm_rollup_ids u)
    (usm_rollup_transactions_proof u) (usm_rollup_ids_proof u) (usm_upgrade_change_hashes u)
    (usm_extended_commit_info u)).

Definition metadata_into_raw (m : SubmittedMetadata) : RawSubmittedMetadata :=
  mk_raw_metadata (text_of (sm_block_hash m)) (Some (header_into_raw (sm_header m)))
    (rollup_id_to_raw <$> sm_rollup_ids m)
    (Some (proof_into_raw (sm_rollup_transactions_proof m)))
    (Some (proof_into_raw (sm_rollup_ids_proof m)))
    (text_of <$> sm_upgrade_change_hashes m)
    (commit_proof_into_raw <$> sm_extended_commit_info m).
Definition unchecked_metadata_try_from_raw (r : RawSubmittedMetadata)
    : attempt SubmittedMetadataError UncheckedSubmittedMetadata :=
  h ← checked (ok_or (SubmittedMetadataError_FieldNotSet "header") (raw_sm_header r));
  header ← checked (map_err SubmittedMetadataError_Header (header_try_from_raw h));
  ids ← checked (map_err SubmittedMetadataError_RollupIds
          (try_collect rollup_id_try_from_raw (raw_sm_rollup_ids r)));
  p ← checked (ok_or (SubmittedMetadataError_FieldNotSet "rollup_transactions_proof")
                 (raw_sm_rollup_transactions_proof r));
  txs_proof ← attempt_err SubmittedMetadataError_RollupTransactionsProof (proof_try_from_raw p);
  p ← checked (ok_or (SubmittedMetadataError_FieldNotSet "rollup_ids_proof")
                 (raw_sm_rollup_ids_proof r));
  ids_proof ← attempt_err SubmittedMetadataError_RollupIdsProof (proof_try_from_raw p);
  block_hash ← checked (hash_of SubmittedMetadataError_BlockHash (raw_sm_block_hash r));
  hashes ← checked (map_err SubmittedMetadataError_UpgradeChangeHashes
             (try_collect change_hash_try_from (raw_sm_upgrade_change_hashes r)));
  info ← attempt_option (fun e => attempt_err SubmittedMetadataError_ExtendedCommitInfo
           (commit_proof_try_from_raw e (header_data_hash header))) (raw_sm_extended_commit_info r);
  mret (mk_unchecked_metadata block_hash header ids txs_proof ids_proof hashes info).
Definition metadata_try_from_raw (r : RawSubmittedMetadata)
    : attempt SubmittedMetadataError SubmittedMetadata :=
  u ← unchecked_metadata_try_from_raw r; metadata_try_from_unchecked u.

(** ** [PreparedBlock] *)
Definition from_sequencer_block (b : SequencerBlock) : SubmittedMetadata * list SubmittedRollupData :=
  (mk_metadata (sb_block_hash b) (sb_header b) (sb_rollup_transactions b).*1
     (sb_rollup_transactions_proof b) (sb_rollup_ids_proof b) (sb_upgrade_change_hashes b)
     (sb_extended_commit_info b),
   (fun kv => mk_rollup_blob (sb_block_hash b) kv.1 (rt_transactions kv.2) (rt_proof kv.2))
     <$> sb_rollup_transactions b).
Definition split_for_celestia (b : SequencerBlock) : SubmittedMetadata * list SubmittedRollupData :=
  from_sequencer_block b.
End metadata.
