(* ===== verification/BlockLemmas.v ===== *)
(** * Sequencer blocks: commitments and well-formed blocks

    [block_ok] is the invariant of the blocks the sequencer builds.  A block
    that has it survives the conversion to messages and back, whole, filtered
    or split for Celestia: every inclusion check succeeds on it. *)
From S2P Require Import Prelude Denom Types State Chain Ics20.
From S2P Require Import Wire WireActions WireLaws WireTransaction Collections.
From S2P Require Import MerkleIndex MerkleTree MerkleCorrect MerkleAudit MerkleTheorems.
From S2P Require Import Block SequencerBlock.
From stdpp Require Import base list option strings numbers tactics.
From Stdlib Require Import ZArith Lia Ascii String Strings.Byte.
Open Scope string_scope.
Open Scope Z_scope.

(** One computed step of an [attempt] *)
Ltac step :=
  cbn [mbind attempt_bind mret attempt_ret running checked attempt_err map_err ensure ok_or
    result_bind result_ret]; cbv zeta.

(** ** Bytes *)
Lemma text_bytes s : text_of (bytes_of s) = s.
Proof. apply string_of_list_byte_of_string. Qed.
Lemma bytes_text l : bytes_of (text_of l) = l.
Proof. apply list_byte_of_string_of_list_byte. Qed.
#[export] Instance bytes_of_inj : Inj (=) (=) bytes_of.
Proof. intros s s' Hs. by rewrite <- (text_bytes s), Hs, text_bytes. Qed.
Lemma length_bytes s : List.length (bytes_of s) = String.length s.
Proof.
  unfold bytes_of, list_byte_of_string. rewrite length_map.
  induction s as [|a s IH]; cbn; [done|by rewrite IH].
Qed.
Lemma length_text l : String.length (text_of l) = List.length l.
Proof. by rewrite <- length_bytes, bytes_text. Qed.
Lemma hash_of_text {E} (e : nat -> E) h : hash_ok h -> hash_of e (text_of h) = Ok h.
Proof. unfold hash_ok, hash_of. intros Hh. by rewrite length_text, Hh, bytes_text. Qed.
Lemma hash_of_Ok {E} (e : nat -> E) s h : hash_of e s = Ok h -> hash_ok h /\ s = text_of h.
Proof.
  unfold hash_of, hash_ok. destruct (Nat.eqb_spec (String.length s) 32); [|done]. intros [= <-].
  by rewrite length_bytes, text_bytes.
Qed.
Lemma change_hashes_roundtrip hs :
  Forall hash_ok hs -> try_collect change_hash_try_from (text_of <$> hs) = Ok hs.
Proof.
  intros Hhs. apply try_collect_Ok. induction Hhs as [|h hs Hh _ IH]; cbn; [constructor|].
  constructor; [|done]. by apply hash_of_text.
Qed.
Lemma change_hashes_Ok l hs :
  try_collect change_hash_try_from l = Ok hs -> Forall hash_ok hs /\ l = text_of <$> hs.
Proof.
  rewrite try_collect_Ok. induction 1 as [|s h l hs Hh _ [IH ->]]; [done|].
  apply hash_of_Ok in Hh as [Hh ->]. by split; [constructor|].
Qed.

(** The libraries' promises to the blocks *)
Class BlockLaws `{BlockCodec} : Prop := {
  block_signing_laws :: SigningLaws;
  sha256_length s : String.length (sha256 s) = 32%nat;
  tm_time_inverse t : tm_time_from (tm_time_into t) = Some t;
  data_item_inverse i : decode_data_item (encode_data_item i) = Some i }.

(** ** Trees *)
Section trees.
Context `{BlockLaws}.

Lemma digest_length bs : List.length (digest bs) = 32%nat.
Proof. unfold digest. rewrite length_bytes. apply sha256_length. Qed.
Local Abbreviation root_of := (rfc_mth digest).
Local Abbreviation tree_over leaves := (tree_of (flat digest (hash_leaf digest <$> leaves))).

Lemma hash_leaf_ok leaves : Forall hash_ok (hash_leaf digest <$> leaves).
Proof. apply hash_leaves_ok, digest_length. Qed.
Lemma root_ok leaves : hash_ok (root_of leaves).
Proof.
  destruct (decide (leaves = [])) as [->|Hne]; [apply digest_length|].
  apply mth_ok; [apply digest_length|apply hash_leaf_ok|].
  rewrite length_fmap. destruct leaves; [done|cbn; lia].
Qed.
Lemma build_tree leaves : fits (Z.of_nat (List.length leaves)) -> from_leaves digest leaves = Val (tree_over leaves).
Proof. apply from_leaves_flat, digest_length. Qed.
Lemma tree_over_root leaves :
  fits (Z.of_nat (List.length leaves)) -> tree_root digest (tree_over leaves) = Val (root_of leaves).
Proof.
  intros Hf. apply tree_root_flat; [apply digest_length|apply hash_leaf_ok|by rewrite length_fmap].
Qed.
Lemma build_root leaves :
  fits (Z.of_nat (List.length leaves)) ->
  (tree ← from_leaves digest leaves; tree_root digest tree) = Val (root_of leaves).
Proof. intros Hf. rewrite build_tree by done. by apply tree_over_root. Qed.
Lemma prove_leaf leaves (i : nat) :
  fits (Z.of_nat (List.length leaves)) -> (i < List.length leaves)%nat ->
  expect_proof (tree_over leaves) (Z.of_nat i) = Val (leaf_proof digest leaves i).
Proof.
  intros Hf Hi. unfold expect_proof. rewrite construct_leaf_proof by (done || apply digest_length). done.
Qed.

(** A proof that survives its conversion *)
Definition proof_sound (p : Proof) : Prop := try_into_proof (into_unchecked p) = Val (Ok p).
Lemma proof_roundtrip p : proof_sound p -> proof_try_from_raw (proof_into_raw p) = Val (Ok p).
Proof.
  intros Hp. unfold proof_try_from_raw, proof_into_raw. cbn [raw_audit_path raw_leaf_index raw_tree_size].
  rewrite bytes_text. destruct p. exact Hp.
Qed.
Lemma leaf_proof_sound leaves i :
  fits (Z.of_nat (List.length leaves)) -> (i < List.length leaves)%nat ->
  proof_sound (leaf_proof digest leaves i).
Proof. apply leaf_proof_valid, digest_length. Qed.

(** ** The tree of the rollups' transactions *)
Definition rollup_leaf (d : RollupId * list string) : list byte :=
  (bytes_of d.1 ++ root_of (bytes_of <$> d.2))%list.
Definition datas_fit (datas : list (RollupId * list string)) : Prop :=
  fits (Z.of_nat (List.length datas)) /\
  Forall (fun d => fits (Z.of_nat (List.length d.2))) datas.

Lemma derive_loop_flat datas : forall pre,
  Forall (fun d => fits (Z.of_nat (List.length d.2))) datas ->
  fits (Z.of_nat (List.length pre + List.length datas)) ->
  derive_tree_loop datas (tree_over pre) = Val (tree_over (pre ++ (rollup_leaf <$> datas))%list).
Proof.
  induction datas as [|[id txs] datas IH]; intros pre Hd Hf; [by rewrite app_nil_r|].
  apply Forall_cons_1 in Hd as [Hd Hds]. cbn [List.length] in Hf. cbn [derive_tree_loop].
  rewrite build_tree by (by rewrite length_fmap). cbn [mbind run_bind].
  rewrite tree_over_root by (by rewrite length_fmap).
  cbn [mbind run_bind builder_write build_leaf builder_hasher unwrap].
  unfold builder_write, build_leaf. cbn [mbind run_bind builder_hasher builder_tree unwrap mret run_ret].
  unfold init_leaf_hasher, hasher_update, hasher_new. cbn [app].
  rewrite builder_drop_flat; [|apply digest_length|apply hash_leaf_ok|].
  - change (rollup_leaf <$> (id, txs) :: datas) with ([rollup_leaf (id, txs)] ++ (rollup_leaf <$> datas))%list.
    rewrite app_assoc. etrans; [|apply (IH (pre ++ [rollup_leaf (id, txs)])%list); [done|]].
    + by rewrite fmap_app.
    + rewrite length_app. cbn [List.length]. eapply fits_le; [exact Hf|lia].
  - rewrite length_fmap. eapply fits_le; [exact Hf|lia].
Qed.
Lemma derive_tree datas :
  datas_fit datas -> derive_merkle_tree_from_rollup_txs datas = Val (tree_over (rollup_leaf <$> datas)).
Proof. intros [Hf Hd]. by apply (derive_loop_flat datas []). Qed.
Lemma derive_root datas :
  datas_fit datas ->
  (tree ← derive_merkle_tree_from_rollup_txs datas; tree_root digest tree) =
    Val (root_of (rollup_leaf <$> datas)).
Proof.
  intros Hd. rewrite derive_tree by done. apply tree_over_root. rewrite length_fmap. apply Hd.
Qed.

(** The inclusion checks, as verifications against the RFC roots *)
Lemma ids_included_spec (ids : list RollupId) p h :
  fits (Z.of_nat (List.length ids)) ->
  are_rollup_ids_included ids p h = verify digest p (digest (root_of (bytes_of <$> ids))) h.
Proof.
  intros Hf. unfold are_rollup_ids_included.
  rewrite build_tree by (by rewrite length_fmap). cbn [mbind run_bind].
  by rewrite tree_over_root by (by rewrite length_fmap).
Qed.
Definition datas_of (txs : IndexMap RollupId RollupTransactions) : list (RollupId * list string) :=
  (fun kv => (kv.1, rt_transactions kv.2)) <$> txs.
Lemma txs_included_spec txs p h :
  datas_fit (datas_of txs) ->
  are_rollup_txs_included txs p h = verify digest p (digest (root_of (rollup_leaf <$> datas_of txs))) h.
Proof.
  intros Hf. unfold are_rollup_txs_included. fold (datas_of txs). rewrite derive_tree by done.
  cbn [mbind run_bind]. rewrite tree_over_root; [done|]. rewrite length_fmap. apply Hf.
Qed.
Lemma match_root_spec t root :
  fits (Z.of_nat (List.length (rt_transactions t))) ->
  do_rollup_transactions_match_root t root =
    verify digest (rt_proof t) (rollup_leaf (rt_rollup_id t, rt_transactions t)) root.
Proof.
  intros Hf. unfold do_rollup_transactions_match_root.
  rewrite build_tree by (by rewrite length_fmap). cbn [mbind run_bind].
  rewrite tree_over_root by (by rewrite length_fmap). reflexivity.
Qed.

(** ** Well-formed parts of blocks *)
Definition header_ok (h : SequencerBlockHeader) : Prop :=
  tm_chain_id_valid (header_chain_id h) = true /\ tm_height_valid (header_height h) = true /\
  tm_account_valid (header_proposer_address h) = true /\
  hash_ok (header_rollup_transactions_root h) /\ hash_ok (header_data_hash h).
Lemma header_roundtrip h : header_ok h -> header_try_from_raw (header_into_raw h) = Ok h.
Proof.
  intros (Hc & Hh & Ha & Hr & Hd). unfold header_try_from_raw, header_into_raw.
  cbn [raw_header_chain_id raw_header_height raw_header_time raw_header_rollup_transactions_root
    raw_header_data_hash raw_header_proposer_address].
  rewrite Hc, Hh, Ha. cbn. rewrite tm_time_inverse. cbn. rewrite !hash_of_text by done. by destruct h.
Qed.

Definition rollup_ok (kv : RollupId * RollupTransactions) : Prop :=
  kv.1 = rt_rollup_id kv.2 /\ rollup_id_valid kv.1 /\ proof_sound (rt_proof kv.2).
Lemma rollup_tuple_roundtrip kv :
  rollup_ok kv -> rollup_txs_to_tuple (rollup_transactions_into_raw kv.2) = Val (Ok kv).
Proof.
  destruct kv as [id t]. intros (Hk & Hid & Hp). cbn in Hk, Hid. subst id.
  unfold rollup_txs_to_tuple, rollup_transactions_try_from_raw, rollup_transactions_into_raw.
  cbn [snd raw_rt_rollup_id raw_rt_transactions raw_rt_proof ok_or]. cbn.
  rewrite rollup_id_roundtrip by done. cbn. rewrite proof_roundtrip by done. by destruct t.
Qed.
Lemma rollup_txs_roundtrip txs :
  Forall rollup_ok txs ->
  attempt_collect rollup_txs_to_tuple (rollup_transactions_into_raw <$> txs.*2) = Val (Ok txs).
Proof.
  intros Htxs. apply attempt_collect_Ok. induction Htxs as [|kv txs Hkv _ IH]; cbn; constructor; [|done].
  by apply rollup_tuple_roundtrip.
Qed.
Lemma rollup_ids_roundtrip ids :
  Forall rollup_id_valid ids -> try_collect rollup_id_try_from_raw (rollup_id_to_raw <$> ids) = Ok ids.
Proof.
  intros Hids. apply try_collect_Ok. induction Hids as [|id ids Hid _ IH]; cbn; [constructor|].
  constructor; [by apply rollup_id_roundtrip|done].
Qed.

Definition info_ok (data_hash : hash) (e : ExtendedCommitInfoWithProof) : Prop :=
  proof_sound (ecp_proof e) /\
  verify digest (ecp_proof e) (digest (bytes_of (ecp_encoded e))) data_hash = Val true /\
  exists raw, decode_commit_mapping (ecp_encoded e) = Some raw /\
    mapping_try_from_raw raw = Ok (ecp_info e).
Lemma info_roundtrip {E} (f : ExtendedCommitInfoError -> E) h o :
  from_option (info_ok h) True o ->
  attempt_option (fun e => attempt_err f (commit_proof_try_from_raw e h)) (commit_proof_into_raw <$> o) =
    Val (Ok o).
Proof.
  destruct o as [e|]; [|done]. intros (Hp & Hv & raw & Hraw & Hinfo). cbn [from_option fmap option_fmap option_map attempt_option].
  unfold commit_proof_try_from_raw, commit_proof_into_raw. cbn [raw_ecp_info raw_ecp_proof ok_or].
  cbn. rewrite proof_roundtrip by done. cbn. rewrite Hv. cbn. rewrite Hraw. cbn. rewrite Hinfo. by destruct e.
Qed.

(** What a block, its filtered versions and its metadata commit to *)
Record commits (block_hash : hash) (h : SequencerBlockHeader) (txs_proof : Proof)
    (ids : list RollupId) (ids_proof : Proof) (hashes : list hash)
    (info : option ExtendedCommitInfoWithProof) : Prop := {
  commits_hash : hash_ok block_hash;
  commits_header : header_ok h;
  commits_txs_sound : proof_sound txs_proof;
  commits_txs : verify digest txs_proof (digest (header_rollup_transactions_root h))
                  (header_data_hash h) = Val true;
  commits_ids_valid : Forall rollup_id_valid ids;
  commits_ids_fit : fits (Z.of_nat (List.length ids));
  commits_ids_sound : proof_sound ids_proof;
  commits_ids : verify digest ids_proof (digest (rfc_mth digest (bytes_of <$> ids)))
                  (header_data_hash h) = Val true;
  commits_changes : Forall hash_ok hashes;
  commits_info : from_option (info_ok (header_data_hash h)) True info }.

(** The invariant of built blocks *)
Record block_ok (b : SequencerBlock) : Prop := {
  block_commits : commits (sb_block_hash b) (sb_header b) (sb_rollup_transactions_proof b)
    (sb_rollup_transactions b).*1 (sb_rollup_ids_proof b) (sb_upgrade_change_hashes b)
    (sb_extended_commit_info b);
  block_rollups : Forall rollup_ok (sb_rollup_transactions b);
  block_unique : unique (sb_rollup_transactions b);
  block_fits : datas_fit (datas_of (sb_rollup_transactions b));
  block_root : header_rollup_transactions_root (sb_header b) =
    rfc_mth digest (rollup_leaf <$> datas_of (sb_rollup_transactions b));
  block_matches : Forall (fun kv => do_rollup_transactions_match_root kv.2
    (header_rollup_transactions_root (sb_header b)) = Val true) (sb_rollup_transactions b) }.

(** The conversion of a block to its message and back *)
Lemma block_roundtrip b : block_ok b -> block_try_from_raw (block_into_raw b) = Val (Ok b).
Proof.
  intros [[] Hrollups Huniq Hfits Hroot _].
  unfold block_try_from_raw, block_into_raw.
  cbn [raw_sb_block_hash raw_sb_header raw_sb_rollup_transactions raw_sb_rollup_transactions_proof
    raw_sb_rollup_ids_proof raw_sb_upgrade_change_hashes raw_sb_extended_commit_info ok_or].
  rewrite hash_of_text by done. step. rewrite !proof_roundtrip by done. step.
  rewrite header_roundtrip by done. step.
  rewrite rollup_txs_roundtrip by done. step. rewrite index_collect_unique, commits_txs0 by done. step.
  rewrite txs_included_spec, <- Hroot, commits_txs0 by done. step.
  rewrite ids_included_spec, commits_ids0 by done. step.
  rewrite change_hashes_roundtrip by done. step. rewrite info_roundtrip by done. by destruct b.
Qed.

(** ** Filtered blocks *)
Record filtered_ok (b : FilteredSequencerBlock) : Prop := {
  filtered_commits : commits (fb_block_hash b) (fb_header b) (fb_rollup_transactions_proof b)
    (fb_all_rollup_ids b) (fb_rollup_ids_proof b) (fb_upgrade_change_hashes b)
    (fb_extended_commit_info b);
  filtered_rollups : Forall rollup_ok (fb_rollup_transactions b);
  filtered_unique : unique (fb_rollup_transactions b);
  filtered_matches : Forall (fun kv => do_rollup_transactions_match_root kv.2
    (header_rollup_transactions_root (fb_header b)) = Val true) (fb_rollup_transactions b) }.

Lemma check_rollups_passes txs root :
  Forall (fun kv : RollupId * RollupTransactions =>
    do_rollup_transactions_match_root kv.2 root = Val true) txs ->
  check_rollups txs.*2 root = Val (Ok tt).
Proof. induction 1 as [|[id t] txs Ht _ IH]; [done|]. cbn in *. rewrite Ht. step. exact IH. Qed.

Lemma filtered_roundtrip b : filtered_ok b -> filtered_try_from_raw (filtered_into_raw b) = Val (Ok b).
Proof.
  intros [[] Hrollups Huniq Hmatch]. unfold filtered_try_from_raw, filtered_into_raw.
  cbn [raw_fb_block_hash raw_fb_header raw_fb_rollup_transactions raw_fb_rollup_transactions_proof
    raw_fb_all_rollup_ids raw_fb_rollup_ids_proof raw_fb_upgrade_change_hashes
    raw_fb_extended_commit_info ok_or].
  rewrite hash_of_text by done. step. rewrite !proof_roundtrip by done. step.
  rewrite header_roundtrip by done. step. rewrite rollup_txs_roundtrip by done. step.
  rewrite index_collect_unique, rollup_ids_roundtrip by done. step. rewrite commits_txs0. step.
  rewrite check_rollups_passes by done. step. rewrite ids_included_spec, commits_ids0 by done. step.
  rewrite change_hashes_roundtrip by done. step. rewrite info_roundtrip by done. by destruct b.
Qed.

(** Filtering keeps some of the rollups. *)
Lemma copy_rollups_unique ids : forall from to, unique to -> unique (copy_rollups ids from to).
Proof.
  induction ids as [|id ids IH]; intros from to Hto; cbn; [done|].
  destruct (index_get id from); apply IH; [by apply index_insert_unique|done].
Qed.
Lemma copy_rollups_forall (P : RollupId * RollupTransactions -> Prop) ids : forall from to,
  unique from -> Forall P from -> Forall P to -> Forall P (copy_rollups ids from to).
Proof.
  induction ids as [|id ids IH]; intros from to Hu Hfrom Hto; cbn; [done|].
  destruct (index_get id from) as [t|] eqn:Ht; apply IH; try done.
  apply index_insert_forall; [|done]. apply index_get_Some in Ht; [|done].
  rewrite list.Forall_forall in Hfrom. by apply Hfrom.
Qed.
Lemma filter_ok b ids : block_ok b -> filtered_ok (to_filtered_block b ids).
Proof.
  intros [Hc Hr Hu Hf Hroot Hm]. split; cbn; try done.
  - by apply copy_rollups_forall.
  - apply copy_rollups_unique. constructor.
  - by apply copy_rollups_forall.
Qed.

(** ** Celestia *)
Lemma metadata_roundtrip m :
  commits (sm_block_hash m) (sm_header m) (sm_rollup_transactions_proof m) (sm_rollup_ids m)
    (sm_rollup_ids_proof m) (sm_upgrade_change_hashes m) (sm_extended_commit_info m) ->
  metadata_try_from_raw (metadata_into_raw m) = Val (Ok m).
Proof.
  intros []. unfold metadata_try_from_raw, unchecked_metadata_try_from_raw, metadata_into_raw.
  cbn [raw_sm_block_hash raw_sm_header raw_sm_rollup_ids raw_sm_rollup_transactions_proof
    raw_sm_rollup_ids_proof raw_sm_upgrade_change_hashes raw_sm_extended_commit_info ok_or]. step.
  rewrite header_roundtrip by done. step. rewrite rollup_ids_roundtrip by done. step.
  rewrite !proof_roundtrip by done. step. rewrite hash_of_text by done. step.
  rewrite change_hashes_roundtrip by done. step. rewrite info_roundtrip by done. step.
  unfold metadata_try_from_unchecked.
  cbn [usm_block_hash usm_header usm_rollup_ids usm_rollup_transactions_proof usm_rollup_ids_proof
    usm_upgrade_change_hashes usm_extended_commit_info]. cbv zeta.
  rewrite commits_txs0. step. rewrite ids_included_spec, commits_ids0 by done. by destruct m.
Qed.
Lemma submitted_rollup_roundtrip d :
  hash_ok (srd_sequencer_block_hash d) -> rollup_id_valid (srd_rollup_id d) -> proof_sound (srd_proof d) ->
  submitted_rollup_try_from_raw (submitted_rollup_into_raw d) = Val (Ok d).
Proof.
  intros Hh Hid Hp. unfold submitted_rollup_try_from_raw, submitted_rollup_into_raw.
  cbn [raw_srd_rollup_id raw_srd_sequencer_block_hash raw_srd_transactions raw_srd_proof ok_or]. step.
  rewrite rollup_id_roundtrip by done. step. rewrite hash_of_text by done. step.
  rewrite proof_roundtrip by done. by destruct d.
Qed.
End trees.
