(* ===== verification/BlockBuild.v ===== *)
(** * Sequencer blocks: the blocks that are built are well formed

    From the data of a CometBFT block ([new_from_typed_data] and
    [new_from_untyped_data]) through [try_build] to the invariant
    [block_ok]; and what the rollups of a block are handed. *)
From S2P Require Import Prelude Denom Types State Chain Ics20 Wire WireActions WireLaws.
From S2P Require Import WireTransaction Collections MerkleIndex MerkleTree MerkleCorrect MerkleAudit.
From S2P Require Import MerkleTheorems Block SequencerBlock BlockLemmas.
From stdpp Require Import base list option strings sorting numbers tactics.
From Stdlib Require Import ZArith Lia Ascii String Strings.Byte.
Open Scope string_scope.
Open Scope Z_scope.

(** ** Steps of [attempt] that succeed *)
Ltac attempt H :=
  repeat match type of H with
  | _ ≫= _ = Val (Ok _) => let a := fresh "a" in let Ha := fresh "Ha" in
      apply attempt_bind_Ok in H as (a & Ha & H); cbv beta in H; attempt Ha
  | running _ = _ => rewrite running_Ok in H
  | checked _ = _ => apply checked_Ok in H; decode H
  | attempt_err _ _ = _ => apply attempt_err_Ok in H
  | mret _ = Val (Ok _) => unfold mret, attempt_ret in H
  | Val (Ok _) = Val (Ok _) => injection H as H
  end.

Section build.
Context `{BlockLaws}.
Local Abbreviation root_of := (rfc_mth digest).
Local Abbreviation tree_over leaves := (tree_of (flat digest (hash_leaf digest <$> leaves))).

(** ** The data of a CometBFT block *)
Record data_ok (d : ExpandedBlockData) : Prop := {
  data_root_ok : hash_ok (ebd_data_root_hash d);
  data_txs_root : hash_ok (ebd_rollup_transactions_root d);
  data_txs_sound : proof_sound (ebd_rollup_transactions_proof d);
  data_txs : verify digest (ebd_rollup_transactions_proof d) (digest (ebd_rollup_transactions_root d))
               (ebd_data_root_hash d) = Val true;
  data_ids_sound : proof_sound (ebd_rollup_ids_proof d);
  data_ids : verify digest (ebd_rollup_ids_proof d) (digest (ebd_rollup_ids_root d))
               (ebd_data_root_hash d) = Val true;
  data_changes : Forall hash_ok (ebd_upgrade_change_hashes d);
  data_info : from_option (info_ok (ebd_data_root_hash d)) True (ebd_extended_commit_info d) }.

Lemma expect_proof_Ok leaves (i : nat) leaf p :
  fits (Z.of_nat (List.length leaves)) -> leaves !! i = Some leaf ->
  expect_proof (tree_over leaves) (Z.of_nat i) = Val p ->
  proof_sound p /\ verify digest p leaf (root_of leaves) = Val true.
Proof.
  intros Hf Hl Hp. pose proof (lookup_lt_Some _ _ _ Hl) as Hi.
  rewrite prove_leaf in Hp by done. injection Hp as <-.
  split; [by apply leaf_proof_sound|]. apply leaf_proof_verifies; [apply digest_length|done..].
Qed.

Lemma untyped_data_ok data d :
  fits (Z.of_nat (List.length data)) -> new_from_untyped_data data = Val (Ok d) -> data_ok d.
Proof.
  intros Hf Hd. unfold new_from_untyped_data, merkle_tree_from_data in Hd.
  set (leaves := (fun item => digest (bytes_of item)) <$> data) in Hd.
  assert (fits (Z.of_nat (List.length leaves))) as Hfl by (unfold leaves; by rewrite length_fmap).
  rewrite build_tree in Hd by done. cbn [running mbind attempt_bind] in Hd.
  rewrite tree_over_root in Hd by done. cbn [running mbind attempt_bind] in Hd.
  destruct data as [|txs [|ids rest]]; attempt Hd; try done.
  subst d. destruct (hash_of_Ok _ _ _ Ha) as [Htxs ->]. destruct (hash_of_Ok _ _ _ Ha1) as [Hids ->].
  apply (expect_proof_Ok leaves 0 (digest a)) in Ha0 as [? ?]; [|done|unfold leaves; cbn; by rewrite bytes_text].
  apply (expect_proof_Ok leaves 1 (digest a1)) in Ha2 as [? ?]; [|done|unfold leaves; cbn; by rewrite bytes_text].
  split; try done. apply root_ok.
Qed.

Lemma data_item_hashes index bs i :
  data_item_decode index bs = Ok i ->
  match i with
  | DataItem_RollupTransactionsRoot root | DataItem_RollupIdsRoot root => hash_ok root
  | DataItem_UpgradeChangeHashes hs => Forall hash_ok hs
  | DataItem_ExtendedCommitInfo _ => True
  end.
Proof.
  unfold data_item_decode. intros Hi. decode Hi.
  destruct a0; decode Hi; subst i; try done.
  - by eapply hash_of_Ok.
  - by eapply hash_of_Ok.
  - rewrite try_collect_Ok in Ha1. clear -Ha1. induction Ha1 as [|? ? ? ? Hh]; constructor; [|done].
    by eapply hash_of_Ok.
Qed.

Lemma take_change_hashes_ok index rest hs rest' index' :
  take_change_hashes index rest = (hs, rest', index') ->
  Forall hash_ok hs /\ (List.length rest' <= List.length rest)%nat.
Proof.
  unfold take_change_hashes. destruct rest as [|item rest]; [by intros [= <- <- <-]|].
  destruct (data_item_decode index item) as [[]|] eqn:Hi; intros [= <- <- <-]; cbn; try (split; [done|lia]).
  split; [exact (data_item_hashes _ _ _ Hi)|lia].
Qed.

Lemma take_commit_info_ok b index rest o rest' :
  take_commit_info b index rest = Ok (o, rest') ->
  (List.length rest' + (if o is Some _ then 1 else 0) <= List.length rest)%nat /\
  from_option (fun ie => exists raw, decode_commit_mapping ie.2 = Some raw /\
    mapping_try_from_raw raw = Ok ie.1) True o.
Proof.
  unfold take_commit_info. destruct b; [|by intros Ht; simplify_eq/=; split; [lia|]].
  destruct rest as [|item rest]; [done|]. intros Ht. decode Ht. subst o rest'. cbn.
  split; [lia|]. eauto.
Qed.

Lemma typed_data_ok data with_info d :
  fits (Z.of_nat (List.length data)) -> new_from_typed_data data with_info = Val (Ok d) -> data_ok d.
Proof.
  intros Hf Hd. unfold new_from_typed_data in Hd. destruct data as [|item [|item' rest]]; [done|by attempt Hd|].
  apply attempt_bind_Ok in Hd as (txs_root & Htxs & Hd). apply checked_Ok in Htxs. decode Htxs.
  apply data_item_hashes in Ha. destruct a; try done. injection Htxs as ->.
  apply attempt_bind_Ok in Hd as (ids_root & Hids & Hd). apply checked_Ok in Hids. decode Hids.
  apply data_item_hashes in Ha0. destruct a; try done. injection Hids as ->.
  destruct (take_change_hashes 2 rest) as [[hs rest1] index] eqn:Hch.
  apply take_change_hashes_ok in Hch as [Hhs Hlen1].
  apply attempt_bind_Ok in Hd as ([o rest2] & Ho & Hd). apply checked_Ok, take_commit_info_ok in Ho as [Hlen2 Hinfo].
  apply attempt_bind_Ok in Hd as (txs & Htxs & Hd). cbv zeta in Hd.
  set (leaves := ([digest txs_root; digest ids_root] ++ _ ++ _)%list) in Hd.
  assert (List.length leaves <= S (S (List.length rest)))%nat as Hll.
  { unfold leaves. rewrite !length_app, length_fmap. clear -Hlen1 Hlen2. destruct o as [[]|]; simpl in *; lia. }
  assert (fits (Z.of_nat (List.length leaves))) as Hfl by (eapply fits_le; [exact Hf|rewrite !list.length_cons; lia]).
  rewrite build_tree in Hd by done. cbn [running mbind attempt_bind] in Hd.
  rewrite tree_over_root in Hd by done. cbn [running mbind attempt_bind] in Hd.
  apply attempt_bind_Ok in Hd as (p0 & Hp0 & Hd). rewrite running_Ok in Hp0.
  apply attempt_bind_Ok in Hd as (p1 & Hp1 & Hd). rewrite running_Ok in Hp1.
  apply attempt_bind_Ok in Hd as (info & Hi & Hd). injection Hd as <-.
  apply (expect_proof_Ok leaves 0 (digest txs_root)) in Hp0 as [? ?]; [|done..].
  apply (expect_proof_Ok leaves 1 (digest ids_root)) in Hp1 as [? ?]; [|done..].
  split; try done; [apply root_ok|]. apply attempt_option_Ok in Hi.
  destruct o as [[info' encoded]|]; [|by subst info]. destruct Hi as (e & He & ->).
  apply attempt_bind_Ok in He as (p2 & Hp2 & He). rewrite running_Ok in Hp2. injection He as <-.
  by apply (expect_proof_Ok leaves 2 (digest (bytes_of encoded))) in Hp2 as [? ?].
Qed.

(** ** The rollups' transactions *)
Fixpoint proved (leaves : list (list byte)) (i : nat) (datas : list (RollupId * list string))
    : IndexMap RollupId RollupTransactions :=
  match datas with
  | [] => []
  | (id, txs) :: datas =>
      (id, mk_rollup_txs id txs (leaf_proof digest leaves i)) :: proved leaves (S i) datas
  end.
Lemma proved_keys leaves i datas : (proved leaves i datas).*1 = datas.*1.
Proof. revert i. induction datas as [|[id txs] datas IH]; intros i; [done|]. cbn. f_equal. apply IH. Qed.
Lemma proved_datas leaves i datas : datas_of (proved leaves i datas) = datas.
Proof. revert i. induction datas as [|[id txs] datas IH]; intros i; [done|]. cbn. f_equal. apply IH. Qed.

Lemma prove_rollups_spec leaves datas : forall i,
  fits (Z.of_nat (List.length leaves)) -> (i + List.length datas <= List.length leaves)%nat ->
  prove_rollups (tree_over leaves) (Z.of_nat i) datas = Val (proved leaves i datas).
Proof.
  induction datas as [|[id txs] datas IH]; intros i Hf Hi; [done|]. rewrite list.length_cons in Hi.
  cbn [prove_rollups proved]. rewrite prove_leaf by (done || lia). cbn [mbind run_bind].
  replace (Z.of_nat i + 1) with (Z.of_nat (S i)) by lia. by rewrite IH by (done || lia).
Qed.

Lemma proved_ok leaves datas : forall i,
  fits (Z.of_nat (List.length leaves)) -> drop i leaves = rollup_leaf <$> datas ->
  Forall (fun d => fits (Z.of_nat (List.length d.2))) datas -> Forall rollup_id_valid datas.*1 ->
  Forall rollup_ok (proved leaves i datas) /\
  Forall (fun kv => do_rollup_transactions_match_root kv.2 (root_of leaves) = Val true)
    (proved leaves i datas).
Proof.
  induction datas as [|[id txs] datas IH]; intros i Hf Hd Hfits Hids; [done|].
  apply Forall_cons_1 in Hfits as [Ht Hfits]. apply Forall_cons_1 in Hids as [Hid Hids].
  change (rollup_leaf <$> (id, txs) :: datas) with (rollup_leaf (id, txs) :: (rollup_leaf <$> datas)) in Hd.
  assert (leaves !! i = Some (rollup_leaf (id, txs))) as Hl.
  { rewrite <- (Nat.add_0_r i), <- lookup_drop, Hd. done. }
  assert (drop (S i) leaves = rollup_leaf <$> datas) as Hd'.
  { by rewrite <- Nat.add_1_r, <- drop_drop, Hd. }
  pose proof (lookup_lt_Some _ _ _ Hl) as Hi.
  destruct (IH (S i) Hf Hd' Hfits Hids) as [IH1 IH2]. split; (constructor; [|done]).
  - split_and!; [done|done|]. by apply leaf_proof_sound.
  - rewrite match_root_spec by done. apply leaf_proof_verifies; [apply digest_length|done..].
Qed.

(** Sorting depends on the keys alone. *)
Lemma sorted_by_keys {V V'} (m : IndexMap string V) (m' : IndexMap string V') :
  m.*1 = m'.*1 -> StronglySorted key_le m -> StronglySorted key_le m'.
Proof.
  intros Heq Hs. revert m' Heq. induction Hs as [|kv m Hs IH Hall]; intros [|kv' m'] Heq; try done; [constructor|].
  cbn in Heq. injection Heq as Hk Heq. constructor; [by apply IH|].
  apply list.Forall_forall. intros x Hx. unfold key_le in *. rewrite <- Hk.
  assert (x.1 ∈ m.*1) as Hin by (rewrite Heq; apply list_elem_of_fmap; eauto).
  apply list_elem_of_fmap in Hin as (y & -> & Hy). rewrite list.Forall_forall in Hall. by apply Hall.
Qed.

(** [rollup_datas] is a sorted map ... *)
Lemma collect_submissions_unique actions m :
  unique m -> unique (fold_left collect_submission actions m).
Proof.
  revert m. induction actions as [|a actions IH]; intros m Hm; cbn; [done|]. apply IH.
  destruct a; cbn; try done. by apply index_update_unique.
Qed.
Lemma collect_deposits_unique deposits m :
  unique m -> unique (fold_left collect_deposits deposits m).
Proof.
  revert m. induction deposits as [|d deposits IH]; intros m Hm; cbn; [done|]. apply IH.
  by apply index_update_unique.
Qed.
Lemma rollup_datas_unique txs deposits : unique (rollup_datas txs deposits).
Proof.
  apply sort_keys_unique, collect_deposits_unique, collect_submissions_unique. constructor.
Qed.
Lemma rollup_datas_sorted txs deposits : StronglySorted key_le (rollup_datas txs deposits).
Proof. apply sort_keys_sorted. Qed.

(** ** [try_build] *)
Lemma try_build_ok b block :
  let d := sbb_expanded_block_data b in
  let datas := rollup_datas (ebd_user_submitted_transactions d) (sbb_deposits b) in
  data_ok d -> hash_ok (sbb_block_hash b) -> tm_chain_id_valid (sbb_chain_id b) = true ->
  tm_height_valid (sbb_height b) = true -> tm_account_valid (sbb_proposer_address b) = true ->
  datas_fit datas -> Forall rollup_id_valid datas.*1 ->
  try_build b = Val (Ok block) -> block_ok block /\ datas_of (sb_rollup_transactions block) = datas.
Proof.
  intros d datas Hd Hhash Hchain Hheight Hacc Hfit Hids Hb. unfold try_build in Hb. cbv zeta in Hb.
  fold d datas in Hb. destruct Hfit as [Hfit Hfits].
  assert (fits (Z.of_nat (List.length (bytes_of <$> datas.*1)))) as Hfk by (by rewrite !length_fmap).
  assert (fits (Z.of_nat (List.length (rollup_leaf <$> datas)))) as Hfl by (by rewrite length_fmap).
  rewrite build_tree in Hb by done. cbn [running mbind attempt_bind] in Hb.
  rewrite tree_over_root in Hb by done. cbn [running mbind attempt_bind] in Hb.
  apply attempt_bind_Ok in Hb as ([] & Hir & Hb). apply checked_Ok, ensure_Ok, bool_decide_eq_true in Hir.
  rewrite derive_tree in Hb by done. cbn [running mbind attempt_bind] in Hb.
  rewrite tree_over_root in Hb by done. cbn [running mbind attempt_bind] in Hb.
  apply attempt_bind_Ok in Hb as ([] & Htr & Hb). apply checked_Ok, ensure_Ok, bool_decide_eq_true in Htr.
  change 0 with (Z.of_nat 0) in Hb.
  rewrite prove_rollups_spec in Hb by (rewrite ?length_fmap; done).
  cbn [running mbind attempt_bind] in Hb. injection Hb as <-.
  set (txs := proved (rollup_leaf <$> datas) 0 datas).
  assert (unique txs) as Hu by (unfold unique, txs; rewrite proved_keys; apply rollup_datas_unique).
  rewrite index_collect_unique, sort_keys_sorted_id; [|done| |done].
  2:{ eapply sorted_by_keys; [symmetry; apply proved_keys|apply rollup_datas_sorted]. }
  destruct (proved_ok (rollup_leaf <$> datas) datas 0) as [Hok Hmatch]; [done..|].
  split; [|apply proved_datas]. destruct Hd. split; cbn [sb_block_hash sb_header sb_rollup_transactions
    sb_rollup_transactions_proof sb_rollup_ids_proof sb_upgrade_change_hashes sb_extended_commit_info
    header_rollup_transactions_root]; try done.
  - unfold txs. rewrite proved_keys. split; try done.
    + by rewrite length_fmap.
    + by rewrite <- Hir.
  - unfold txs. by rewrite proved_datas.
  - unfold txs. by rewrite proved_datas.
  - by rewrite Htr.
Qed.
End build.

(** * The commitment to the rollups' data

    [sequencer/src/proposal/commitment.rs] and the grouping of submissions in
    [core/src/protocol/mod.rs].  What the proposer commits to is what
    [try_build] reconstructs, in whatever order the deposits are stored. *)

Section commitment.
Context `{BlockCodec}.

(** [group_rollup_data_submissions_in_signed_transaction_transactions_by_rollup_id] *)
Definition group_rollup_data_submissions (txs : list Transaction) : IndexMap RollupId (list string) :=
  let actions := List.concat (tx_actions <$> txs) in
  sort_unstable_keys (fold_left collect_submission actions []).

Record GeneratedCommitments := mk_commitments {
  gc_rollup_datas_root : hash;
  gc_rollup_ids_root : hash }.

Definition generate_rollup_datas_commitment (txs : list Transaction)
    (deposits : list (RollupId * list Deposit)) : run GeneratedCommitments :=
  let datas := sort_unstable_keys (fold_left collect_deposits deposits (group_rollup_data_submissions txs)) in
  ids_tree ← from_leaves digest (bytes_of <$> datas.*1);
  ids_root ← tree_root digest ids_tree;
  tree ← derive_merkle_tree_from_rollup_txs datas;
  root ← tree_root digest tree;
  mret (mk_commitments root ids_root).

(** The items at the start of a block: [GeneratedCommitments::into_iter] *)
Definition commitments_into_iter (uses_data_item_enum : bool) (c : GeneratedCommitments) : list string :=
  if uses_data_item_enum then
    [data_item_encode (DataItem_RollupTransactionsRoot (gc_rollup_datas_root c));
     data_item_encode (DataItem_RollupIdsRoot (gc_rollup_ids_root c))]
  else [text_of (gc_rollup_datas_root c); text_of (gc_rollup_ids_root c)].
End commitment.

(** ** The content of the groups *)
Section content.
Context `{BlockLaws}.

(** The data a list of actions submits to a rollup *)
Definition submissions (id : RollupId) (actions : list Action) : list string :=
  omap (fun a => match a with
    | Action_RollupDataSubmission s =>
        if decide (rds_rollup_id s = id) then Some (encode_rollup (RollupData_SequencedData (rds_data s)))
        else None
    | _ => None
    end) actions.
Definition encode_deposits (l : list Deposit) : list string :=
  (fun d => encode_rollup (RollupData_Deposit d)) <$> l.

Lemma submissions_get id actions m :
  index_get id (fold_left collect_submission actions m) =
  if decide (submissions id actions = []) then index_get id m
  else Some (default [] (index_get id m) ++ submissions id actions)%list.
Proof.
  revert m. induction actions as [|a actions IH]; intros m; [done|].
  cbn [fold_left]. rewrite IH. destruct a; try done.
  all: match goal with |- context [collect_submission _ (Action_RollupDataSubmission ?s)] => rename s into sub end.
  cbn [collect_submission]. unfold push_data. rewrite index_update_get.
  change (submissions id (Action_RollupDataSubmission sub :: actions)) with
    (match (if decide (rds_rollup_id sub = id)
            then Some (encode_rollup (RollupData_SequencedData (rds_data sub))) else None) with
     | Some x => x :: submissions id actions
     | None => submissions id actions
     end).
  destruct (decide (rds_rollup_id sub = id)) as [Heq|]; [|done].
  rewrite (decide_False (P := _ :: _ = [])) by done. case_decide as Hnil.
  - by rewrite Heq, Hnil.
  - cbn. rewrite Heq. by rewrite <- app_assoc.
Qed.

Lemma deposits_get id deposits m :
  unique deposits ->
  index_get id (fold_left collect_deposits deposits m) =
  match index_get id deposits with
  | Some l => Some (default [] (index_get id m) ++ encode_deposits l)%list
  | None => index_get id m
  end.
Proof.
  unfold unique. revert m. induction deposits as [|[id' l] deposits IH]; intros m; [done|]. cbn [fmap list_fmap].
  intros [Hid Hd]%list.NoDup_cons. cbn [fold_left]. rewrite IH by done.
  unfold collect_deposits at 1 2, push_data. cbn [fst snd index_get]. rewrite index_update_get.
  case_decide as Heq; [|done]. cbn in Heq. subst id'.
  rewrite (proj2 (index_get_None id deposits)) by done. done.
Qed.

Definition actions_of (txs : list SignedTransaction) : list Action :=
  List.concat ((fun tx => inner (body_actions (signed_body tx))) <$> txs).
Lemma actions_of_ledger txs : List.concat (tx_actions <$> (ledger_tx <$> txs)) = actions_of txs.
Proof. by rewrite <- list_fmap_compose. Qed.

(** What a rollup is handed: the data submitted to it, in the order of the
    transactions, then its deposits *)
Definition rollup_content (txs : list SignedTransaction) (deposits : list (RollupId * list Deposit))
    (id : RollupId) : option (list string) :=
  match submissions id (actions_of txs), index_get id deposits with
  | [], None => None
  | l, ds => Some (l ++ encode_deposits (default [] ds))%list
  end.

Lemma rollup_datas_get txs deposits id :
  unique deposits -> index_get id (rollup_datas txs deposits) = rollup_content txs deposits id.
Proof.
  intros Hu. unfold rollup_datas. rewrite sort_keys_get.
  2:{ apply collect_deposits_unique, collect_submissions_unique. constructor. }
  rewrite deposits_get, submissions_get by done. fold (actions_of txs). unfold rollup_content.
  destruct (submissions id (actions_of txs)), (index_get id deposits); cbn; try done.
  by rewrite app_nil_r.
Qed.

Lemma grouped_deposits txs deposits :
  unique deposits ->
  sort_unstable_keys (fold_left collect_deposits deposits
    (group_rollup_data_submissions (ledger_tx <$> txs))) = rollup_datas txs deposits.
Proof.
  intros Hu. assert (unique (fold_left collect_submission (actions_of txs) [])) as Hs.
  { apply collect_submissions_unique. constructor. }
  unfold group_rollup_data_submissions. rewrite actions_of_ledger. cbv zeta.
  apply sort_keys_canonical; [by apply collect_deposits_unique, sort_keys_unique|].
  apply index_permutation; [by apply collect_deposits_unique, sort_keys_unique|by apply collect_deposits_unique|].
  intros id. rewrite !deposits_get by done. by rewrite sort_keys_get.
Qed.

Lemma rollup_datas_permutation txs deposits deposits' :
  unique deposits -> deposits ≡ₚ deposits' -> rollup_datas txs deposits = rollup_datas txs deposits'.
Proof.
  intros Hu Hp. assert (unique deposits') as Hu' by (unfold unique in *; by rewrite <- Hp).
  assert (unique (fold_left collect_submission (actions_of txs) [])) as Hs.
  { apply collect_submissions_unique. constructor. }
  apply sort_keys_canonical; [by apply collect_deposits_unique|].
  apply index_permutation; [by apply collect_deposits_unique..|].
  intros id. rewrite !deposits_get by done. by rewrite (index_get_permutation deposits deposits').
Qed.

(** The proposer's commitments are the roots of those groups. *)
Lemma generated_commitments txs deposits :
  unique deposits -> datas_fit (rollup_datas txs deposits) ->
  generate_rollup_datas_commitment (ledger_tx <$> txs) deposits =
    Val (mk_commitments (rfc_mth digest (rollup_leaf <$> rollup_datas txs deposits))
           (rfc_mth digest (bytes_of <$> (rollup_datas txs deposits).*1))).
Proof.
  intros Hu Hf. unfold generate_rollup_datas_commitment. rewrite grouped_deposits by done.
  set (datas := rollup_datas txs deposits) in *.
  rewrite build_tree by (rewrite !length_fmap; apply Hf). cbn [mbind run_bind].
  rewrite tree_over_root by (rewrite !length_fmap; apply Hf). cbn [mbind run_bind].
  rewrite derive_tree by done. cbn [mbind run_bind].
  rewrite tree_over_root by (rewrite length_fmap; apply Hf). done.
Qed.
End content.
