(* ===== verification/BlockTheorems.v ===== *)
(** * The guarantees of sequencer blocks

    What the proposer writes into a block is parsed back, reconstructed and
    verified by everyone else, whole, filtered or split for Celestia; what a
    filtered block hands to a rollup is what the header commits to; and the
    two places where a block is less than its documentation promises. *)
From S2P Require Import Prelude Denom Types State Chain Ics20.
From S2P Require Import Wire WireActions WireLaws WireTransaction Collections.
From S2P Require Import MerkleIndex MerkleTree MerkleCorrect MerkleAudit MerkleTheorems.
From S2P Require Import Block SequencerBlock BlockLemmas BlockBuild.
From stdpp Require Import base list option strings sorting numbers tactics.
From Stdlib Require Import ZArith Lia Ascii String Strings.Byte.
Open Scope string_scope.
Open Scope Z_scope.

Section parsing.
Context `{BlockLaws}.

(** The data of a proposed block: the commitments, the change hashes if there
    are any, the extended commit info if it is enabled, the transactions *)
Definition proposal_data (c : GeneratedCommitments) (hashes : list hash) (info : option string)
    (txs : list string) : list string :=
  (commitments_into_iter true c ++
   (if decide (hashes = []) then [] else [data_item_encode (DataItem_UpgradeChangeHashes hashes)]) ++
   (match info with Some i => [data_item_encode (DataItem_ExtendedCommitInfo i)] | None => [] end) ++
   txs)%list.

Lemma data_item_roundtrip index i :
  match i with
  | DataItem_RollupTransactionsRoot root | DataItem_RollupIdsRoot root => hash_ok root
  | DataItem_UpgradeChangeHashes hs => Forall hash_ok hs
  | DataItem_ExtendedCommitInfo _ => True
  end -> data_item_decode index (data_item_encode i) = Ok i.
Proof.
  intros Hi. unfold data_item_decode, data_item_encode. rewrite data_item_inverse.
  destruct i; cbn; [by rewrite hash_of_text..| |done].
  enough (try_collect (hash_of (DataItemError_IncorrectHashLength "upgrade_change_hash"))
    (map text_of hashes) = Ok hashes) as -> by done.
  apply try_collect_Ok. induction Hi; cbn; constructor; [by apply hash_of_text|done].
Qed.

(** The third item is read as change hashes exactly when there are some. *)
Lemma take_change_hashes_of hashes info txs :
  Forall hash_ok hashes ->
  (info = None -> forall bs hs, head txs = Some bs ->
     data_item_decode 2 bs <> Ok (DataItem_UpgradeChangeHashes hs)) ->
  let rest := ((match info with Some i => [data_item_encode (DataItem_ExtendedCommitInfo i)] | None => [] end)
    ++ txs)%list in
  exists index, take_change_hashes 2
    ((if decide (hashes = []) then [] else [data_item_encode (DataItem_UpgradeChangeHashes hashes)]) ++ rest)%list
    = (hashes, rest, index).
Proof.
  intros Hhs Htx rest. case_decide as Hnil.
  - subst hashes. exists 2%nat. cbn [app]. unfold rest. destruct info as [i|]; cbn [app].
    + cbn [take_change_hashes]. by rewrite data_item_roundtrip.
    + destruct txs as [|bs txs]; [done|]. cbn [take_change_hashes].
      destruct (data_item_decode 2 bs) as [[]|] eqn:Hbs; try done. by eapply Htx in Hbs.
  - exists 3%nat. cbn [app take_change_hashes]. by rewrite data_item_roundtrip.
Qed.

Lemma typed_data_parsed c hashes info tx_bytes txs (mapping : option CommitMapping) :
  let data := proposal_data c hashes info tx_bytes in
  fits (Z.of_nat (List.length data)) -> hash_ok (gc_rollup_datas_root c) -> hash_ok (gc_rollup_ids_root c) ->
  Forall hash_ok hashes -> Forall2 (fun bs tx => decode_user_transaction bs = Ok tx) tx_bytes txs ->
  (info = None -> forall bs hs, head tx_bytes = Some bs ->
     data_item_decode 2 bs <> Ok (DataItem_UpgradeChangeHashes hs)) ->
  match info, mapping with
  | Some i, Some m => exists raw, decode_commit_mapping i = Some raw /\ mapping_try_from_raw raw = Ok m
  | None, None => True
  | _, _ => False
  end ->
  exists d, new_from_typed_data data (if info is Some _ then true else false) = Val (Ok d) /\
    ebd_rollup_transactions_root d = gc_rollup_datas_root c /\ ebd_rollup_ids_root d = gc_rollup_ids_root c /\
    ebd_upgrade_change_hashes d = hashes /\ ebd_user_submitted_transactions d = txs /\
    ecp_info <$> ebd_extended_commit_info d = mapping.
Proof.
  intros data Hf Hr Hi Hhs Htxs Hamb Hinfo. unfold data, proposal_data in *. cbn [commitments_into_iter app] in *.
  destruct (take_change_hashes_of hashes info tx_bytes Hhs Hamb) as (index & Htake).
  unfold new_from_typed_data. rewrite !data_item_roundtrip by done. step.
  cbn [into_rollup_transactions_root into_rollup_ids_root map_err]. step. rewrite Htake.
  set (rest := (match info with Some _ => _ | None => _ end ++ tx_bytes)%list) in *.
  assert (exists o, take_commit_info (if info is Some _ then true else false) index rest =
    Ok (o, tx_bytes) /\ (if o is Some _ then 1 else 0)%nat = (if info is Some _ then 1 else 0)%nat /\
    fst <$> o = mapping) as (o & -> & Ho & Hmapping).
  { unfold rest, take_commit_info. destruct info as [i|], mapping as [m|]; try done; [|by exists None].
    destruct Hinfo as (raw & Hraw & Hm). exists (Some (m, i)). cbn [app].
    rewrite data_item_roundtrip by done. cbn. rewrite Hraw. cbn. by rewrite Hm. }
  step. apply try_collect_Ok in Htxs. rewrite Htxs. step.
  set (leaves := ([digest _; digest _] ++ _ ++ _)%list).
  assert (fits (Z.of_nat (List.length leaves))) as Hfl.
  { eapply fits_le; [exact Hf|]. unfold leaves, rest. rewrite !list.length_cons, !length_app, length_fmap.
    clear -Ho. destruct o as [[]|], info; try done; cbn [List.length]; lia. }
  rewrite build_tree by done. step. rewrite tree_over_root by done. step.
  assert (forall i, (i < List.length leaves)%nat ->
    expect_proof (tree_of (flat digest (hash_leaf digest <$> leaves))) (Z.of_nat i) = Val (leaf_proof digest leaves i))
    as Hprove by (intros; by apply prove_leaf).
  assert (List.length leaves = (2 + (if o is Some _ then 1 else 0) + List.length tx_bytes)%nat) as Hl.
  { unfold leaves. rewrite !length_app, length_fmap. by destruct o as [[]|]. }
  clearbody leaves.
  pose proof (Hprove 0%nat ltac:(lia)) as Hp0. pose proof (Hprove 1%nat ltac:(lia)) as Hp1.
  change (Z.of_nat 0) with 0 in Hp0. change (Z.of_nat 1) with 1 in Hp1. rewrite Hp0. step. rewrite Hp1. step.
  destruct o as [[m i]|]; cbn [attempt_option].
  - pose proof (Hprove 2%nat ltac:(lia)) as Hp2. change (Z.of_nat 2) with 2 in Hp2. rewrite Hp2. step.
    by eexists.
  - step. by eexists.
Qed.

Lemma try_build_succeeds b :
  let d := sbb_expanded_block_data b in
  let datas := rollup_datas (ebd_user_submitted_transactions d) (sbb_deposits b) in
  datas_fit datas -> ebd_rollup_transactions_root d = rfc_mth digest (rollup_leaf <$> datas) ->
  ebd_rollup_ids_root d = rfc_mth digest (bytes_of <$> datas.*1) ->
  exists block, try_build b = Val (Ok block).
Proof.
  intros d datas [Hf Hfs] Hroot Hids. unfold try_build. cbv zeta. fold d datas.
  rewrite build_tree by (by rewrite !length_fmap). step. rewrite tree_over_root by (by rewrite !length_fmap). step.
  rewrite bool_decide_eq_true_2 by done. step. rewrite derive_tree by done. step.
  rewrite tree_over_root by (by rewrite length_fmap). step. rewrite bool_decide_eq_true_2 by done. step.
  change 0 with (Z.of_nat 0). rewrite prove_rollups_spec by (rewrite length_fmap; (assumption || lia)).
  step. by eexists.
Qed.

(** Any message that may come from the wire: [leaf_index] is unsigned *)
Definition raw_proof_unsigned (p : RawProof) : Prop := 0 <= raw_leaf_index p.

Lemma proof_sound_bounds p :
  0 <= leaf_index p -> proof_sound p ->
  0 <= leaf_index p < 2 ^ 63 /\ Z.of_nat (List.length (audit_path p)) mod 32 = 0.
Proof.
  intros Hi Hp. unfold proof_sound, try_into_proof in Hp. destruct p as [path i n].
  cbn [into_unchecked unchecked_tree_size unchecked_leaf_index unchecked_audit_path audit_path leaf_index tree_size] in *.
  destruct (n =? 0); [done|].
  unfold is_leaf_index_in_tree, leaf_index_to_tree_index, checked_mul in Hp.
  destruct (Z.ltb_spec (i * 2) (2 ^ 64)); [|done]. cbn [unwrap mbind run_bind mret run_ret] in Hp.
  destruct (is_tree_index_in_tree _ _); [|done]. cbn [negb] in Hp.
  destruct (Z.eqb_spec (Z.of_nat (List.length path) mod 32) 0); [|done]. split; lia.
Qed.

Lemma proof_decoded r p :
  proof_try_from_raw r = Val (Ok p) -> proof_sound p /\ leaf_index p = raw_leaf_index r.
Proof.
  unfold proof_try_from_raw. destruct r as [path i n].
  cbn [raw_audit_path raw_leaf_index raw_tree_size with_tree_size with_leaf_index with_audit_path unchecked
    unchecked_audit_path unchecked_leaf_index unchecked_tree_size].
  set (u := with_tree_size _ _). intros Hp.
  assert (into_unchecked p = u) as Hu; [|split; [unfold proof_sound; by rewrite Hu|by apply (f_equal unchecked_leaf_index) in Hu]].
  revert Hp. unfold try_into_proof. destruct (_ =? 0); [done|].
  destruct (is_leaf_index_in_tree _ _) as [[]| |]; cbn [mbind run_bind negb]; try done.
  destruct (negb _); [done|]. intros [= <-]. done.
Qed.
End parsing.

(** ** The properties *)
Section theorems.
Context `{BlockLaws}.

(** What a proposer puts into a block *)
Record proposal := mk_proposal {
  prop_tx_bytes : list string;
  prop_txs : list SignedTransaction;
  prop_deposits : list (RollupId * list Deposit);
  prop_hashes : list hash;
  prop_info : option string;
  prop_mapping : option CommitMapping }.
(** Its transactions decode, its deposits are those of valid rollups, its
    commit info decodes, and no transaction is mistaken for change hashes. *)
Record proposal_ok (p : proposal) : Prop := {
  proposal_decodes : Forall2 (fun bs tx => decode_user_transaction bs = Ok tx) (prop_tx_bytes p) (prop_txs p);
  proposal_deposits : unique (prop_deposits p);
  proposal_fits : datas_fit (rollup_datas (prop_txs p) (prop_deposits p)) /\
    fits (4 + Z.of_nat (List.length (prop_tx_bytes p)));
  proposal_ids : Forall rollup_id_valid (rollup_datas (prop_txs p) (prop_deposits p)).*1;
  proposal_hashes : Forall hash_ok (prop_hashes p);
  proposal_unambiguous : prop_info p = None -> forall bs hs, head (prop_tx_bytes p) = Some bs ->
    data_item_decode 2 bs <> Ok (DataItem_UpgradeChangeHashes hs);
  proposal_info : match prop_info p, prop_mapping p with
    | Some i, Some m => exists raw, decode_commit_mapping i = Some raw /\ mapping_try_from_raw raw = Ok m
    | None, None => True
    | _, _ => False
    end }.
(** The block's place in the chain, as CometBFT gives it *)
Definition place_ok (block_hash : hash) (chain_id : string) (height : Z) (proposer : string) : Prop :=
  hash_ok block_hash /\ tm_chain_id_valid chain_id = true /\ tm_height_valid height = true /\
  tm_account_valid proposer = true.

(** The block does not depend on the order in which a node holds the deposits. *)
Lemma try_build_permutation block_hash chain_id height time proposer d deposits deposits' :
  unique deposits -> deposits ≡ₚ deposits' ->
  try_build (mk_block_builder block_hash chain_id height time proposer d deposits') =
  try_build (mk_block_builder block_hash chain_id height time proposer d deposits).
Proof.
  intros Hu Hp. unfold try_build. cbn [sbb_expanded_block_data sbb_deposits].
  by rewrite (rollup_datas_permutation _ _ _ Hu Hp).
Qed.

(** C26. Whatever block an honest proposer commits to in the typed data items of the
    Aspen upgrade, every node builds one and the same block of it, whatever the order of its
    deposits, and the block, its filtered versions and its Celestia blobs pass all
    checks of their readers unchanged. *)
Theorem proposed_block_verifies p c block_hash chain_id height time proposer :
  proposal_ok p -> place_ok block_hash chain_id height proposer ->
  generate_rollup_datas_commitment (ledger_tx <$> prop_txs p) (prop_deposits p) = Val c ->
  exists d block,
    new_from_typed_data (proposal_data c (prop_hashes p) (prop_info p) (prop_tx_bytes p))
      (if prop_info p is Some _ then true else false) = Val (Ok d) /\
    (forall deposits, prop_deposits p ≡ₚ deposits ->
       try_build (mk_block_builder block_hash chain_id height time proposer d deposits) = Val (Ok block)) /\
    sb_upgrade_change_hashes block = prop_hashes p /\
    block_try_from_raw (block_into_raw block) = Val (Ok block) /\
    (forall ids, let filtered := to_filtered_block block ids in
       filtered_try_from_raw (filtered_into_raw filtered) = Val (Ok filtered)) /\
    let '(metadata, blobs) := split_for_celestia block in
    metadata_try_from_raw (metadata_into_raw metadata) = Val (Ok metadata) /\
    Forall (fun blob => submitted_rollup_try_from_raw (submitted_rollup_into_raw blob) = Val (Ok blob)) blobs.
Proof.
  intros [Hdec Hu [Hfit Hfits] Hids Hhs Hamb Hinfo] (Hhash & Hchain & Hheight & Hacc) Hc.
  rewrite generated_commitments in Hc by done. injection Hc as <-.
  set (datas := rollup_datas (prop_txs p) (prop_deposits p)) in *.
  assert (fits (Z.of_nat (List.length (proposal_data
    (mk_commitments (rfc_mth digest (rollup_leaf <$> datas)) (rfc_mth digest (bytes_of <$> datas.*1)))
    (prop_hashes p) (prop_info p) (prop_tx_bytes p))))) as Hfd.
  { eapply fits_le; [exact Hfits|]. unfold proposal_data. rewrite !length_app.
    destruct (decide (prop_hashes p = [])), (prop_info p); cbn [List.length commitments_into_iter]; lia. }
  edestruct typed_data_parsed as (d & Hd & Hr & Hi & Hch & Htxs & _);
    [exact Hfd|apply root_ok|apply root_ok|exact Hhs|exact Hdec|exact Hamb|exact Hinfo|].
  exists d. set (b := mk_block_builder block_hash chain_id height time proposer d (prop_deposits p)).
  destruct (try_build_succeeds b) as (block & Hb); [unfold b; cbn [sbb_expanded_block_data sbb_deposits]; rewrite Htxs; done..|].
  pose proof (typed_data_ok _ _ _ Hfd Hd) as Hok.
  assert (rollup_datas (ebd_user_submitted_transactions (sbb_expanded_block_data b)) (sbb_deposits b) = datas)
    as Hdd by (unfold b; cbn [sbb_expanded_block_data sbb_deposits]; by rewrite Htxs).
  destruct (try_build_ok b block) as [Hblock Hdo]; rewrite ?Hdd in *; try assumption.
  exists block. split_and!; [done| | |by apply block_roundtrip| |].
  - intros deposits Hperm. by rewrite (try_build_permutation _ _ _ _ _ _ (prop_deposits p)).
  - unfold try_build in Hb. attempt Hb. subst block. exact Hch.
  - intros ids filtered. by apply filtered_roundtrip, filter_ok.
  - unfold split_for_celestia, from_sequencer_block. split; [apply metadata_roundtrip; by destruct Hblock|].
    apply Forall_fmap. destruct Hblock as [[] Hrok _ _ _ _]. eapply list.Forall_impl; [exact Hrok|].
    intros kv (Hk & Hid & Hp). cbv beta delta [compose]. by apply submitted_rollup_roundtrip.
Qed.

(** A block that was built hands every rollup the data submitted to it in
    the order of the transactions, followed by its deposits. *)
Theorem block_hands_over_content b data with_info block id :
  let d := sbb_expanded_block_data b in
  let datas := rollup_datas (ebd_user_submitted_transactions d) (sbb_deposits b) in
  new_from_typed_data data with_info = Val (Ok d) -> fits (Z.of_nat (List.length data)) ->
  place_ok (sbb_block_hash b) (sbb_chain_id b) (sbb_height b) (sbb_proposer_address b) ->
  datas_fit datas -> Forall rollup_id_valid datas.*1 -> unique (sbb_deposits b) ->
  try_build b = Val (Ok block) ->
  rt_transactions <$> index_get id (sb_rollup_transactions block) =
    rollup_content (ebd_user_submitted_transactions d) (sbb_deposits b) id /\
  header_rollup_transactions_root (sb_header block) =
    rfc_mth digest (rollup_leaf <$> datas_of (sb_rollup_transactions block)).
Proof.
  intros d datas Hd Hfd (Hhash & Hchain & Hheight & Hacc) Hfit Hids Hu Hb.
  pose proof (typed_data_ok _ _ _ Hfd Hd) as Hok.
  destruct (try_build_ok b block) as [Hblock Hdo]; [done..|]. split; [|by apply block_root].
  rewrite <- rollup_datas_get by done. fold d in Hdo. rewrite <- Hdo. clear.
  induction (sb_rollup_transactions block) as [|[id' t] l IH]; [done|]. cbn. case_decide; [done|exact IH].
Qed.

Lemma rollup_tuple_decoded r kv :
  0 <= (if raw_rt_proof r is Some p then raw_leaf_index p else 0) ->
  rollup_txs_to_tuple r = Val (Ok kv) -> rollup_ok kv /\ 0 <= leaf_index (rt_proof kv.2).
Proof.
  intros Hi Hkv. unfold rollup_txs_to_tuple, rollup_transactions_try_from_raw in Hkv. attempt Hkv.
  subst. match goal with
  | Hset : raw_rt_proof r = Some _, Hproof : proof_try_from_raw _ = _ |- _ =>
      rewrite Hset in Hi; destruct (proof_decoded _ _ Hproof) as [Hp Hidx]
  end.
  split; [|cbn in *; by rewrite Hidx]. split_and!; [done| |done]. cbn. by eapply rollup_id_decoded.
Qed.
Lemma index_collect_forall {K V} `{EqDecision K} (P : K * V -> Prop) l : Forall P l -> Forall P (index_collect l).
Proof.
  unfold index_collect. cut (forall m, Forall P m -> Forall P l ->
    Forall P (fold_left (fun m kv => index_insert kv.1 kv.2 m) l m)); [intros Hcut; apply Hcut; constructor|].
  induction l as [|[k v] l IH]; intros m Hm Hl; [done|]. apply Forall_cons_1 in Hl as [Hkv Hl].
  apply IH; [|done]. by apply index_insert_forall.
Qed.
Lemma check_rollups_Ok l root u :
  check_rollups l root = Val (Ok u) -> Forall (fun t => do_rollup_transactions_match_root t root = Val true) l.
Proof.
  induction l as [|t l IH]; [constructor|]. cbn [check_rollups]. intros Hc.
  apply attempt_bind_Ok in Hc as (b & Hb & Hc). rewrite running_Ok in Hb.
  apply attempt_bind_Ok in Hc as ([] & Ht & Hc). apply checked_Ok, ensure_Ok in Ht. subst b.
  constructor; [done|by apply IH].
Qed.

(** Everything hashed to compute the rollups' root and to audit one of them *)
Definition rollup_queries (datas : list (RollupId * list string)) (t : RollupTransactions) : list (list byte) :=
  [] :: (tree_preimages digest (bytes_of <$> rt_transactions t) ++
    mjoin ((fun d => tree_preimages digest (bytes_of <$> d.2)) <$> datas) ++
    audit_queries digest (rollup_leaf <$> datas) (rt_proof t)
      (rollup_leaf (rt_rollup_id t, rt_transactions t)))%list.

Lemma rollup_leaf_inj datas t d :
  collision_free digest (rollup_queries datas t) -> d ∈ datas -> rollup_id_valid d.1 ->
  rollup_id_valid (rt_rollup_id t) -> rollup_leaf (rt_rollup_id t, rt_transactions t) = rollup_leaf d ->
  (rt_rollup_id t, rt_transactions t) = d.
Proof.
  intros Hcf Hin Hd Ht Heq. destruct d as [id l]. unfold rollup_leaf in Heq. cbn [fst snd] in *.
  apply app_inj_1 in Heq as [Hid Hroot]; [|rewrite !length_bytes; congruence].
  apply (f_equal text_of) in Hid. rewrite !text_bytes in Hid. f_equal; [done|].
  apply (mth_inj digest digest_length (rollup_queries datas t)) in Hroot; [|done|by left| |].
  - by apply (inj (fmap bytes_of)) in Hroot.
  - intros x Hx. right. apply elem_of_app. by left.
  - intros x Hx. right. apply elem_of_app. right. apply elem_of_app. left.
    apply list_elem_of_join. eexists. split; [exact Hx|]. apply list_elem_of_fmap. by exists (id, l).
Qed.

(** C27. A filtered block that is accepted under a root hands over, for every
    rollup in it, exactly the transactions the root commits to. *)
Theorem accepted_rollup_is_committed r fb datas id t :
  filtered_try_from_raw r = Val (Ok fb) ->
  Forall (fun raw => 0 <= (if raw_rt_proof raw is Some p then raw_leaf_index p else 0))
    (raw_fb_rollup_transactions r) ->
  header_rollup_transactions_root (fb_header fb) = rfc_mth digest (rollup_leaf <$> datas) ->
  datas <> [] -> Forall rollup_id_valid datas.*1 -> fits (Z.of_nat (List.length (rt_transactions t))) ->
  (id, t) ∈ fb_rollup_transactions fb -> collision_free digest (rollup_queries datas t) ->
  (id, rt_transactions t) ∈ datas.
Proof.
  intros Hfb Hidx Hroot Hne Hids Hfit Hin Hcf. unfold filtered_try_from_raw in Hfb. attempt Hfb. subst fb.
  match goal with
  | Ht : attempt_collect _ _ = Val (Ok ?l), Hc : check_rollups _ _ = _ |- _ =>
      apply attempt_collect_Ok in Ht; rename Ht into Htxs; apply check_rollups_Ok in Hc; rename Hc into Hcheck; rename l into txs
  end.
  cbn [fb_header fb_rollup_transactions] in *.
  assert (Forall (fun kv => rollup_ok kv /\ 0 <= leaf_index (rt_proof kv.2)) (index_collect txs)) as Hok.
  { apply index_collect_forall. clear -Htxs Hidx. revert Hidx.
    induction Htxs as [|raw kv l l' Hkv _ IH]; intros Hidx; [constructor|].
    apply Forall_cons_1 in Hidx as [Hi Hidx]. constructor; [by eapply rollup_tuple_decoded|by apply IH]. }
  rewrite list.Forall_forall in Hok. rewrite list.Forall_forall in Hcheck. destruct (Hok _ Hin) as [(Hk & Hv & Hsound) Hi]. cbn in Hk, Hv. subst id.
  assert (t ∈ (index_collect txs).*2) as Hin2 by (apply list_elem_of_fmap; by exists (rt_rollup_id t, t)).
  apply Hcheck in Hin2. rewrite match_root_spec, Hroot in Hin2 by done.
  destruct (proof_sound_bounds _ Hi Hsound) as [Hb Hm].
  apply (verified_member digest digest_length) in Hin2; [|by destruct datas|done|done|].
  - apply list_elem_of_fmap in Hin2 as (d & Heq & Hd).
    rewrite (rollup_leaf_inj datas t d); [done|done|done| |done|done].
    rewrite list.Forall_forall in Hids. apply Hids, list_elem_of_fmap. by exists d.
  - eapply collision_free_sub; [exact Hcf|]. intros x Hx. right. apply elem_of_app. right. apply elem_of_app. by right.
Qed.

(** Taking rollups out of a block's map or copying them is the same, even when
    an id is asked for twice. *)
Lemma shift_remove_get {K V} `{EqDecision K} (k k' : K) (m : IndexMap K V) :
  unique m -> index_get k' (index_shift_remove k m) = if decide (k = k') then None else index_get k' m.
Proof.
  unfold unique. induction m as [|[k1 v] m IH]; cbn; [by case_decide|].
  intros [Hk Hm]%list.NoDup_cons. destruct (decide (k1 = k)) as [->|]; cbn.
  - case_decide as Hd; [subst; by apply index_get_None|done].
  - rewrite IH by done. repeat case_decide; congruence.
Qed.
Lemma shift_remove_unique {K V} `{EqDecision K} (k : K) (m : IndexMap K V) :
  unique m -> unique (index_shift_remove k m) /\ forall k', k' ∈ (index_shift_remove k m).*1 -> k' ∈ m.*1.
Proof.
  unfold unique. induction m as [|[k1 v] m IH]; cbn; [done|].
  intros [Hk Hm]%list.NoDup_cons. destruct (IH Hm) as [IH1 IH2]. case_decide; cbn.
  - split; [done|]. intros k' Hin. by right.
  - split; [apply list.NoDup_cons; split; [by intros Hin%IH2|done]|].
    intros k' [->|Hin]%elem_of_cons; [by left|right; by apply IH2].
Qed.
Lemma index_insert_same {K V} `{EqDecision K} (k : K) (v : V) m : index_get k m = Some v -> index_insert k v m = m.
Proof.
  induction m as [|[k1 v1] m IH]; cbn; [done|]. case_decide as Hk; [by intros [= ->]|].
  intros Hg. by rewrite IH.
Qed.
Lemma index_insert_get {K V} `{EqDecision K} (k k' : K) (v : V) m :
  index_get k' (index_insert k v m) = if decide (k = k') then Some v else index_get k' m.
Proof.
  induction m as [|[k1 v1] m IH]; cbn; [done|]. destruct (decide (k1 = k)) as [->|]; cbn; [by repeat case_decide|].
  rewrite IH. repeat case_decide; congruence.
Qed.
Lemma take_rollups_copy ids : forall left from to,
  unique left ->
  (forall k t, index_get k to = Some t -> index_get k from = Some t) ->
  (forall k, index_get k left = if index_get k to is Some _ then None else index_get k from) ->
  take_rollups ids left to = copy_rollups ids from to.
Proof.
  induction ids as [|id ids IH]; intros left from to Hu Hto Hleft; [done|]. cbn. rewrite Hleft.
  destruct (index_get id to) as [t|] eqn:Ht.
  - rewrite (Hto _ _ Ht), (index_insert_same _ _ _ Ht). by apply IH.
  - destruct (index_get id from) as [t|] eqn:Hf; [|by apply IH]. apply IH.
    + by apply shift_remove_unique.
    + intros k t'. rewrite index_insert_get. case_decide; [intros [= <-]; congruence|apply Hto].
    + intros k. rewrite shift_remove_get, Hleft, index_insert_get by done. by case_decide.
Qed.

(** Filtering a block by value and by reference give the same block. *)
Theorem filters_agree block ids :
  unique (sb_rollup_transactions block) -> into_filtered_block block ids = to_filtered_block block ids.
Proof.
  intros Hu. unfold into_filtered_block, to_filtered_block. f_equal. by apply take_rollups_copy.
Qed.

(** The change hashes of an accepted block can be replaced by any others of
    the right length: no proof ties them to the block. *)
Theorem change_hashes_are_not_committed r b hashes :
  filtered_try_from_raw r = Val (Ok b) -> Forall hash_ok hashes ->
  filtered_try_from_raw (mk_raw_filtered (raw_fb_block_hash r) (raw_fb_header r)
    (raw_fb_rollup_transactions r) (raw_fb_rollup_transactions_proof r) (raw_fb_all_rollup_ids r)
    (raw_fb_rollup_ids_proof r) (text_of <$> hashes) (raw_fb_extended_commit_info r)) =
  Val (Ok (mk_filtered (fb_block_hash b) (fb_header b) (fb_rollup_transactions b)
    (fb_rollup_transactions_proof b) (fb_all_rollup_ids b) (fb_rollup_ids_proof b) hashes
    (fb_extended_commit_info b))).
Proof.
  intros Hb Hhashes. unfold filtered_try_from_raw in *.
  cbn [raw_fb_block_hash raw_fb_header raw_fb_rollup_transactions raw_fb_rollup_transactions_proof
    raw_fb_all_rollup_ids raw_fb_rollup_ids_proof raw_fb_upgrade_change_hashes raw_fb_extended_commit_info].
  repeat (let x := fresh "x" in let Hx := fresh "Hx" in
    apply attempt_bind_Ok in Hb as (x & Hx & Hb); cbv beta zeta in Hb |- *;
    (rewrite Hx || rewrite change_hashes_roundtrip by done);
    rewrite ?attempt_bind_ret, ?attempt_checked_ret; cbv beta zeta).
  injection Hb as <-. done.
Qed.

(** The empty commit info that [prepare_proposal] falls back to when the
    real one does not fit is rejected by every node, the proposer included. *)
Theorem empty_commit_info_is_rejected c hashes txs :
  decode_commit_mapping "" = Some (mk_raw_mapping None []) ->
  hash_ok (gc_rollup_datas_root c) -> hash_ok (gc_rollup_ids_root c) -> Forall hash_ok hashes ->
  new_from_typed_data (proposal_data c hashes (Some "") txs) true =
    Val (Err (SequencerBlockError_InvalidExtendedCommitInfo
                (CommitMappingError_FieldNotSet "extended_commit_info"))).
Proof.
  intros Hempty Hr Hi Hhs. unfold proposal_data. cbn [commitments_into_iter app].
  destruct (take_change_hashes_of hashes (Some "") txs Hhs) as (index & Htake); [done|].
  unfold new_from_typed_data. rewrite !data_item_roundtrip by done. step.
  cbn [into_rollup_transactions_root into_rollup_ids_root map_err]. step. cbv zeta in Htake. cbn [app] in Htake. rewrite Htake.
  unfold take_commit_info. cbn [app]. rewrite data_item_roundtrip by done. cbn. by rewrite Hempty.
Qed.
End theorems.
