(* ===== verification/BlockDemo.v ===== *)
(** * A concrete block

    An instance of the libraries in which SHA-256 is the toy digest of the
    Merkle tree, messages are slash-separated hex, and one transaction with
    two submissions decodes; the properties of blocks applied to its block. *)
From S2P Require Import Prelude Denom Types State Chain Ics20 Demo.
From S2P Require Import Wire WireActions WireLaws WireTransaction WireTheorems Collections.
From S2P Require Import MerkleIndex MerkleTree MerkleCorrect MerkleAudit MerkleTheorems.
From S2P Require Import Block SequencerBlock BlockLemmas BlockBuild.
From S2P Require Import BlockTheorems.
From stdpp Require Import base list option strings sorting numbers tactics.
From Stdlib Require Import ZArith Lia Ascii String Strings.Byte.
Open Scope string_scope.
Open Scope Z_scope.

Definition block_demo_external : External := {|
  ext_sha256 := fun s => text_of (toy_sha (bytes_of s));
  ext_from_hex := wire_from_hex;
  hrp_parse := fun p => negb (is_empty p);
  bech32m_decode := demo_address_decode;
  bech32_decode := demo_address_decode;
  bech32m_encode := demo_address_encode;
  bech32_encode := demo_address_encode;
  parse_withdrawal_memo := demo_withdrawal_memo;
  parse_deposit_memo := fun s => if is_empty s then None else Some s;
  packet_data_to_json := demo_packet_to_json;
  packet_data_from_json := demo_packet_from_json;
  ack_from_json := fun s => Some (String.eqb s "ok");
  ack_success := "ok";
  ack_error := fun s => "error: " ++ s;
  send_packet_check := fun _ _ _ => true;
  write_acknowledgement_check := fun _ _ _ => true |}.
Definition block_demo_wire : Wire := {|
  wire_external := block_demo_external;
  ed25519_key_valid := fun _ => true;
  channel_id_valid := fun s => negb (is_empty s);
  client_id_valid := fun s => negb (is_empty s);
  RawIbcRelay := string;
  ibc_relay_from_raw := fun s => Some (mk_relay s);
  ibc_relay_into_raw := raw_action |}.
Lemma block_demo_wire_laws : @WireLaws block_demo_wire.
Proof.
  destruct wire_demo_laws as [H1 H2 H3 H4]. split; [exact H1|exact H2|exact H3|].
  by intros [].
Qed.

(** The transaction: data for two rollups *)
Definition rollup_a : RollupId := "rollup a                        ".
Definition rollup_b : RollupId := "rollup b                        ".
Definition block_body : TransactionBody :=
  mk_body (mk_actions BundleableGeneral
    [Action_RollupDataSubmission (mk_submission rollup_b "first" nria_denom);
     Action_RollupDataSubmission (mk_submission rollup_a "second" nria_denom);
     Action_RollupDataSubmission (mk_submission rollup_b "third" nria_denom)]) (mk_params 5 "astria-1").
Definition block_raw_body : @RawTransactionBody block_demo_wire :=
  mk_raw_body (Some (mk_raw_params 5 "astria-1"))
    (map (@action_to_raw block_demo_wire) (inner (body_actions block_body))).
Definition block_raw_tx : RawTransaction :=
  mk_raw_transaction "keybody" "key" (Some (mk_any body_type_url "body")).

Definition block_signing : Signing := {|
  signing_wire := block_demo_wire;
  encode_body := fun _ => "body";
  decode_body := fun s => if String.eqb s "body" then Some block_raw_body else None;
  encode_transaction := fun r => raw_signature r ++ raw_public_key r;
  decode_transaction := fun s => if String.eqb s "tx" then Some block_raw_tx else None;
  ed25519_signature_valid := fun _ => true;
  ed25519_verify := fun k s m => String.eqb s (k ++ m);
  ed25519_sign := fun k m => k ++ m;
  ed25519_public := fun k => k |}.
Definition block_tendermint : Tendermint := {|
  tm_signing := block_signing;
  tm_chain_id_valid := fun s => negb (is_empty s);
  tm_height_valid := fun h => (0 <=? h) && (h <? 2 ^ 63);
  tm_time_from := fun t => Some (ts_seconds t);
  tm_time_into := fun t => mk_timestamp t 0;
  tm_account_valid := fun s => (String.length s =? 20)%nat;
  RawTmCommitInfo := Types.ExtendedCommitInfo;
  tm_commit_from_raw := Some;
  tm_commit_into_raw := fun c => c |}.

(** Data items are tagged lists of fields, the empty list stands for an item
    without a value. *)
Definition demo_encode_item (i : RawDataItem) : string :=
  encode_fields match raw_data_item_value i with
  | None => [""]
  | Some (RawDataItem_RollupTransactionsRoot r) => ["1"; r]
  | Some (RawDataItem_RollupIdsRoot r) => ["2"; r]
  | Some (RawDataItem_UpgradeChangeHashes hs) => "3" :: hs
  | Some (RawDataItem_ExtendedCommitInfo i) => ["4"; i]
  end.
Definition demo_decode_item (s : string) : option RawDataItem :=
  match decode_fields s with
  | [""] => Some (mk_raw_data_item None)
  | ["1"; r] => Some (mk_raw_data_item (Some (RawDataItem_RollupTransactionsRoot r)))
  | ["2"; r] => Some (mk_raw_data_item (Some (RawDataItem_RollupIdsRoot r)))
  | "3" :: hs => Some (mk_raw_data_item (Some (RawDataItem_UpgradeChangeHashes hs)))
  | ["4"; i] => Some (mk_raw_data_item (Some (RawDataItem_ExtendedCommitInfo i)))
  | _ => None
  end.
Definition block_codec : BlockCodec := {|
  codec_tendermint := block_tendermint;
  encode_rollup_data := fun r =>
    match raw_rollup_data_value r with
    | Some (RawRollupData_SequencedData d) => "s" ++ d
    | Some (RawRollupData_Deposit d) => "d" ++ raw_dep_destination_chain_address d
    | _ => ""
    end;
  encode_data_item := demo_encode_item;
  decode_data_item := demo_decode_item;
  decode_commit_mapping := fun s =>
    if String.eqb s "" then Some (@mk_raw_mapping block_tendermint None [])
    else if String.eqb s "info" then Some (@mk_raw_mapping block_tendermint (Some (Types.mk_ext_commit 0 [])) []) else None |}.

Lemma block_signing_laws_demo : @SigningLaws block_signing.
Proof.
  split.
  - apply block_demo_wire_laws.
  - intros s r Hr. change ((if String.eqb s "body" then Some block_raw_body else None) = Some r) in Hr.
    destruct (String.eqb s "body"); [|done]. injection Hr as <-. split; [by split|].
    repeat constructor; vm_compute; by intros.
  - intros k m. apply String.eqb_refl.
  - done.
  - done.
Qed.
Lemma block_demo_laws : @BlockLaws block_codec.
Proof.
  split.
  - apply block_signing_laws_demo.
  - intros s. change (String.length (text_of (toy_sha (bytes_of s))) = 32%nat).
    by rewrite length_text, toy_sha_length.
  - done.
  - intros i. change (demo_decode_item (demo_encode_item i) = Some i).
    unfold demo_decode_item, demo_encode_item.
    rewrite decode_encode by (by destruct i as [[[]|]]). by destruct i as [[[]|]].
Qed.

(** ** The block and its proposal *)
#[local] Existing Instances block_codec block_demo_laws.

Definition block_tx : SignedTransaction :=
  match transaction_try_from_raw block_raw_tx with Ok tx => tx | Err _ => @sign block_signing block_body "key" end.
Definition block_deposit (to : string) : Deposit :=
  mk_deposit (mk_address "bridge_bridge_bridge" "astria") rollup_a 3 nria_denom to
    "deposit transaction id          " 0.
Definition demo_proposal : proposal := {|
  prop_tx_bytes := ["tx"];
  prop_txs := [block_tx];
  prop_deposits := [(rollup_b, [block_deposit "x"; block_deposit "y"]); (rollup_a, [block_deposit "z"])];
  prop_hashes := [toy_sha [x00]];
  prop_info := Some "info";
  prop_mapping := Some (mk_mapping (Types.mk_ext_commit 0 []) []) |}.
Definition block_proposer : string := "proposer_proposer_pr".
Definition block_hash_demo : hash := toy_sha [x01].

Lemma unique_check {V} (m : IndexMap string V) : bool_decide (NoDup m.*1) = true -> unique m.
Proof. apply bool_decide_eq_true. Qed.
Lemma demo_fits n : Z.leb n 1000 = true -> fits n.
Proof. unfold fits. lia. Qed.

Lemma demo_datas_fit :
  datas_fit (rollup_datas (prop_txs demo_proposal) (prop_deposits demo_proposal)) /\
  Forall rollup_id_valid (rollup_datas (prop_txs demo_proposal) (prop_deposits demo_proposal)).*1.
Proof.
  split; [split|].
  - apply demo_fits. by vm_compute.
  - assert (Forall (fun d : RollupId * list string => Z.leb (Z.of_nat (List.length d.2)) 1000 = true)
      (rollup_datas (prop_txs demo_proposal) (prop_deposits demo_proposal))) as Hf by (vm_compute; repeat constructor).
    eapply list.Forall_impl; [exact Hf|]. intros d. apply demo_fits.
  - vm_compute. repeat constructor.
Qed.
Lemma demo_proposal_ok : proposal_ok demo_proposal.
Proof.
  split.
  - constructor; [vm_compute; reflexivity|constructor].
  - apply unique_check. by vm_compute.
  - split; [apply demo_datas_fit|]. apply demo_fits. by vm_compute.
  - apply demo_datas_fit.
  - by repeat constructor.
  - done.
  - exists (@mk_raw_mapping block_tendermint (Some (Types.mk_ext_commit 0 [])) []). by split.
Qed.
Lemma demo_place_ok : place_ok block_hash_demo "astria-1" 7 block_proposer.
Proof. by repeat split. Qed.

(** The value of an attempt that succeeds *)
Definition value_or {E A} (a : A) (m : attempt E A) : A := match m with Val (Ok a) => a | _ => a end.
Definition succeeds {E A} (m : attempt E A) : bool := match m with Val (Ok _) => true | _ => false end.
Lemma value_of {E A} (a : A) (m : attempt E A) : succeeds m = true -> m = Val (Ok (value_or a m)).
Proof. by destruct m as [[]| |]. Qed.

Definition demo_commitments : GeneratedCommitments :=
  match generate_rollup_datas_commitment (ledger_tx <$> prop_txs demo_proposal) (prop_deposits demo_proposal) with
  | Val c => c
  | _ => mk_commitments [] []
  end.
Definition demo_data : list string :=
  proposal_data demo_commitments (prop_hashes demo_proposal) (prop_info demo_proposal)
    (prop_tx_bytes demo_proposal).
Definition demo_expanded : ExpandedBlockData :=
  value_or (mk_expanded [] [] (MkProof [] 0 0) [] (MkProof [] 0 0) [] None [])
    (new_from_typed_data demo_data true).
Definition demo_builder : SequencerBlockBuilder :=
  mk_block_builder block_hash_demo "astria-1" 7 100 block_proposer demo_expanded
    (prop_deposits demo_proposal).
Definition demo_block : SequencerBlock :=
  value_or (mk_block [] (mk_header "" 0 0 [] [] "") [] (MkProof [] 0 0) (MkProof [] 0 0) [] None)
    (try_build demo_builder).
Definition demo_filtered : FilteredSequencerBlock := to_filtered_block demo_block [rollup_b].

Example demo_block_rollups :
  (fun kv => (kv.1, rt_transactions kv.2)) <$> sb_rollup_transactions demo_block =
    [(rollup_a, ["ssecond"; "dz"]); (rollup_b, ["sfirst"; "sthird"; "dx"; "dy"])].
Proof. vm_compute. reflexivity. Qed.

Lemma demo_commitments_ok :
  generate_rollup_datas_commitment (ledger_tx <$> prop_txs demo_proposal) (prop_deposits demo_proposal) = Val demo_commitments.
Proof. vm_compute. reflexivity. Qed.
Lemma demo_expanded_ok : new_from_typed_data demo_data true = Val (Ok demo_expanded).
Proof. apply value_of. by vm_compute. Qed.
Lemma demo_block_ok : try_build demo_builder = Val (Ok demo_block).
Proof. apply value_of. by vm_compute. Qed.
Lemma demo_txs :
  ebd_user_submitted_transactions (sbb_expanded_block_data demo_builder) = prop_txs demo_proposal.
Proof. vm_compute. reflexivity. Qed.
Lemma demo_builder_fits (datas := rollup_datas
    (ebd_user_submitted_transactions (sbb_expanded_block_data demo_builder)) (sbb_deposits demo_builder)) :
  datas_fit datas /\ Forall rollup_id_valid datas.*1.
Proof. subst datas. rewrite demo_txs. exact demo_datas_fit. Qed.
Lemma demo_block_well_formed : block_ok demo_block.
Proof.
  apply (try_build_ok demo_builder demo_block); try apply demo_place_ok; try apply demo_builder_fits.
  - apply (typed_data_ok demo_data true); [apply demo_fits; by vm_compute|exact demo_expanded_ok].
  - exact demo_block_ok.
Qed.
Lemma demo_filtered_ok : filtered_try_from_raw (filtered_into_raw demo_filtered) = Val (Ok demo_filtered).
Proof. apply filtered_roundtrip, filter_ok, demo_block_well_formed. Qed.

(** ** Witnesses *)
Lemma proposed_block_verifies_witness :
  exists d block,
    new_from_typed_data demo_data true = Val (Ok d) /\
    try_build (mk_block_builder block_hash_demo "astria-1" 7 100 block_proposer d
      (prop_deposits demo_proposal)) = Val (Ok block) /\
    try_build (mk_block_builder block_hash_demo "astria-1" 7 100 block_proposer d
      (reverse (prop_deposits demo_proposal))) = Val (Ok block) /\
    block_try_from_raw (block_into_raw block) = Val (Ok block).
Proof.
  destruct (proposed_block_verifies demo_proposal demo_commitments
    block_hash_demo "astria-1" 7 100 block_proposer) as (d & block & Hd & Hb & _ & Hr & _).
  - exact demo_proposal_ok.
  - exact demo_place_ok.
  - exact demo_commitments_ok.
  - exists d, block. split; [exact Hd|split; [by apply Hb|split; [|exact Hr]]].
    apply Hb. symmetry. apply reverse_Permutation.
Defined.

Lemma block_hands_over_content_witness :
  rt_transactions <$> index_get rollup_b (sb_rollup_transactions demo_block) =
    Some ["sfirst"; "sthird"; "dx"; "dy"].
Proof.
  refine (eq_trans (proj1 (block_hands_over_content demo_builder demo_data true demo_block rollup_b
    demo_expanded_ok _ demo_place_ok _ _ _ demo_block_ok)) _).
  - apply demo_fits. by vm_compute.
  - apply demo_builder_fits.
  - apply demo_builder_fits.
  - apply unique_check. by vm_compute.
  - vm_compute. reflexivity.
Defined.

Definition demo_rollup_b : RollupTransactions :=
  default (mk_rollup_txs "" [] (MkProof [] 0 0)) (index_get rollup_b (sb_rollup_transactions demo_block)).
Lemma accepted_rollup_is_committed_witness :
  (rollup_b, rt_transactions demo_rollup_b) ∈ datas_of (sb_rollup_transactions demo_block).
Proof.
  apply (accepted_rollup_is_committed (filtered_into_raw demo_filtered) demo_filtered _ rollup_b demo_rollup_b).
  - exact demo_filtered_ok.
  - vm_compute. by repeat constructor.
  - vm_compute. reflexivity.
  - by vm_compute.
  - vm_compute. by repeat constructor.
  - apply demo_fits. by vm_compute.
  - vm_compute. left.
  - apply collision_freeb_spec. by vm_compute.
Defined.

Lemma filters_agree_witness :
  into_filtered_block demo_block [rollup_b; rollup_b] = to_filtered_block demo_block [rollup_b; rollup_b].
Proof. apply filters_agree, unique_check. by vm_compute. Defined.

Lemma change_hashes_are_not_committed_witness :
  exists r b, filtered_try_from_raw r = Val (Ok b) /\ fb_upgrade_change_hashes b = [toy_sha []] /\
    fb_header b = fb_header demo_filtered.
Proof.
  eexists _, _. split.
  - apply (change_hashes_are_not_committed _ demo_filtered [toy_sha []] demo_filtered_ok). by repeat constructor.
  - split; reflexivity.
Defined.

Lemma empty_commit_info_is_rejected_witness :
  new_from_typed_data (proposal_data demo_commitments [] (Some "") ["tx"]) true =
    Val (Err (SequencerBlockError_InvalidExtendedCommitInfo
                (CommitMappingError_FieldNotSet "extended_commit_info"))).
Proof. apply empty_commit_info_is_rejected; [reflexivity|by vm_compute|by vm_compute|constructor]. Defined.
