(* ===== verification/ExecutionState.v ===== *)
(** * The state machine over the requests of a block

    [app/execution_state.rs]: what a node has prepared and executed in the
    current round, by which [process_proposal] and [finalize_block] decide
    whether the execution of a block can be skipped.  The machine refines
    [Seen], a plain record of what happened since the last reset. *)
From S2P Require Import Prelude Denom Types State.
From stdpp Require Import base list option strings sets numbers tactics.
From Stdlib Require Import ZArith String.
Open Scope string_scope.
Open Scope Z_scope.

Record CachedProposal := mk_cached {
  cp_time : Time;
  cp_proposer_address : address_bytes;
  cp_txs : list string;
  cp_proposed_last_commit : option CommitInfo;
  cp_misbehavior : list Misbehavior;
  cp_next_validators_hash : TmHash;
  cp_height : Z }.
#[export] Instance CachedProposal_eq_dec : EqDecision CachedProposal.
Proof. solve_decision. Defined.

Inductive ExecutionState :=
| Unset
| Prepared (p : CachedProposal)
| PreparedValid (p : CachedProposal)
| CheckedPreparedMismatch (p : CachedProposal)
| ExecutedBlock (cached_block_hash : string) (cached_proposal : option CachedProposal)
| CheckedExecutedBlockMismatch (cached_block_hash : string) (cached_proposal : option CachedProposal).
#[export] Instance ExecutionState_eq_dec : EqDecision ExecutionState.
Proof. solve_decision. Defined.

(** The commit of a [PrepareProposal] request without its vote extensions *)
Definition commit_of_extended (c : ExtendedCommitInfo) : CommitInfo :=
  mk_commit (ext_round c)
    ((fun v => mk_vote (ext_validator v) (ext_sig_info v)) <$> ext_votes c).

Definition prepared_proposal (request : PrepareProposal) (response_txs : list string) : CachedProposal :=
  mk_cached (prep_time request) (prep_proposer_address request) response_txs
    (commit_of_extended <$> prep_local_last_commit request) (prep_misbehavior request)
    (prep_next_validators_hash request) (prep_height request).
Definition processed_proposal (request : ProcessProposal) : CachedProposal :=
  mk_cached (proc_time request) (proc_proposer_address request) (proc_txs request)
    (proc_proposed_last_commit request) (proc_misbehavior request)
    (proc_next_validators_hash request) (proc_height request).

Definition set_prepared_proposal (request : PrepareProposal) (response_txs : list string)
    (st : ExecutionState) : result Report unit * ExecutionState :=
  match st with
  | Unset => (Ok tt, Prepared (prepared_proposal request response_txs))
  | _ => (Err ["execution state already set"], st)
  end.

Definition check_if_prepared_proposal (request : ProcessProposal) (st : ExecutionState)
    : bool * ExecutionState :=
  match st with
  | Unset | CheckedPreparedMismatch _ | CheckedExecutedBlockMismatch _ _ | ExecutedBlock _ _ =>
      (false, st)
  | PreparedValid cached_proposal | Prepared cached_proposal =>
      if decide (cached_proposal = processed_proposal request)
      then (true, PreparedValid cached_proposal)
      else (false, CheckedPreparedMismatch cached_proposal)
  end.

Definition set_executed_block (block_hash : string) (st : ExecutionState)
    : result Report unit * ExecutionState :=
  match st with
  | Unset => (Ok tt, ExecutedBlock block_hash None)
  | PreparedValid cached_proposal => (Ok tt, ExecutedBlock block_hash (Some cached_proposal))
  | Prepared _ =>
      (Err ["executed block state attempted to be set before prepared proposal state validated"], st)
  | ExecutedBlock _ _ => (Err ["executed block state attempted to be set again"], st)
  | CheckedPreparedMismatch _ | CheckedExecutedBlockMismatch _ _ =>
      (Err ["executed block state shouldn't be set after invalid check"], st)
  end.

Definition check_if_executed_block (block_hash : string) (st : ExecutionState)
    : bool * ExecutionState :=
  match st with
  | Unset | CheckedPreparedMismatch _ | CheckedExecutedBlockMismatch _ _ => (false, st)
  | Prepared cached_proposal | PreparedValid cached_proposal =>
      (false, CheckedPreparedMismatch cached_proposal)
  | ExecutedBlock cached_block_hash cached_proposal =>
      if decide (block_hash = cached_block_hash) then (true, st)
      else (false, CheckedExecutedBlockMismatch cached_block_hash cached_proposal)
  end.

(** ** The operations of a round as a list of requests *)
Inductive request :=
| SetPrepared (r : PrepareProposal) (txs : list string)
| CheckPrepared (r : ProcessProposal)
| SetExecuted (block_hash : string)
| CheckExecuted (block_hash : string).

(** What a request is answered: whether a check matched, or a set succeeded *)
Definition machine_step (st : ExecutionState) (r : request) : bool * ExecutionState :=
  match r with
  | SetPrepared r txs => let '(e, st) := set_prepared_proposal r txs st in (is_ok e, st)
  | CheckPrepared r => check_if_prepared_proposal r st
  | SetExecuted h => let '(e, st) := set_executed_block h st in (is_ok e, st)
  | CheckExecuted h => check_if_executed_block h st
  end.
Fixpoint answers {S} (step : S -> request -> bool * S) (s : S) (l : list request) : list bool :=
  match l with
  | [] => []
  | r :: l => let '(b, s) := step s r in b :: answers step s l
  end.

(** ** The specification

    The record keeps what was prepared, whether it was recognised, the block
    that was executed, and whether anything else was ever asked for. *)
Record Seen := mk_seen {
  seen_prepared : option CachedProposal;
  seen_valid : bool;
  seen_executed : option string;
  seen_mismatch : bool }.
#[export] Instance Seen_eq_dec : EqDecision Seen.
Proof. solve_decision. Defined.
Definition nothing_seen : Seen := mk_seen None false None false.
Definition mismatch (s : Seen) : Seen :=
  mk_seen (seen_prepared s) (seen_valid s) (seen_executed s) true.

Definition seen_step (s : Seen) (r : request) : bool * Seen :=
  match r with
  | SetPrepared r txs =>
      if decide (s = nothing_seen)
      then (true, mk_seen (Some (prepared_proposal r txs)) false None false) else (false, s)
  | CheckPrepared r =>
      match seen_prepared s, seen_executed s, seen_mismatch s with
      | Some p, None, false =>
          if decide (p = processed_proposal r) then (true, mk_seen (Some p) true None false)
          else (false, mismatch s)
      | _, _, _ => (false, s)
      end
  | SetExecuted h =>
      match seen_executed s, seen_mismatch s with
      | None, false =>
          if decide (seen_prepared s = None \/ seen_valid s = true)
          then (true, mk_seen (seen_prepared s) (seen_valid s) (Some h) false) else (false, s)
      | _, _ => (false, s)
      end
  | CheckExecuted h =>
      match seen_executed s, seen_mismatch s with
      | Some h', false => if decide (h = h') then (true, s) else (false, mismatch s)
      | None, false => if seen_prepared s is Some _ then (false, mismatch s) else (false, s)
      | _, true => (false, s)
      end
  end.

(** What a state of the machine remembers of the record *)
Inductive remembers : ExecutionState -> Seen -> Prop :=
| remembers_Unset : remembers Unset nothing_seen
| remembers_Prepared p : remembers (Prepared p) (mk_seen (Some p) false None false)
| remembers_PreparedValid p : remembers (PreparedValid p) (mk_seen (Some p) true None false)
| remembers_PreparedMismatch p v : remembers (CheckedPreparedMismatch p) (mk_seen (Some p) v None true)
| remembers_Executed h : remembers (ExecutedBlock h None) (mk_seen None false (Some h) false)
| remembers_ExecutedPrepared h p :
    remembers (ExecutedBlock h (Some p)) (mk_seen (Some p) true (Some h) false)
| remembers_ExecutedMismatch h o v :
    remembers (CheckedExecutedBlockMismatch h o) (mk_seen o v (Some h) true).
#[export] Hint Constructors remembers : astria.

(** One request: the same answer, and related states after it *)
Lemma machine_refines_step st s r :
  remembers st s ->
  (machine_step st r).1 = (seen_step s r).1 /\ remembers (machine_step st r).2 (seen_step s r).2.
Proof.
  intros Hst. destruct r; destruct Hst; cbn; repeat case_decide; cbn;
    first [by (split; [|eauto with astria])|naive_solver|by destruct o; eauto with astria].
Qed.

Lemma machine_refines st s l :
  remembers st s -> answers machine_step st l = answers seen_step s l.
Proof.
  revert st s. induction l as [|r l IH]; intros st s Hst; [done|]. cbn.
  pose proof (machine_refines_step st s r Hst) as [Hb Hst'].
  destruct (machine_step st r), (seen_step s r). cbn in *. subst. f_equal. by apply IH.
Qed.

(** The state after a list of requests *)
Fixpoint after {S} (step : S -> request -> bool * S) (s : S) (l : list request) : S :=
  match l with
  | [] => s
  | r :: l => after step (step s r).2 l
  end.
Lemma after_app {S} (step : S -> request -> bool * S) s l l' :
  after step s (l ++ l') = after step (after step s l) l'.
Proof. revert s. induction l as [|r l IH]; intros s; [done|apply IH]. Qed.

(** Where what the record holds comes from *)
Definition accounted (l : list request) (s : Seen) : Prop :=
  (forall p, seen_prepared s = Some p ->
     exists r txs, SetPrepared r txs ∈ l /\ p = prepared_proposal r txs) /\
  (forall h, seen_executed s = Some h -> SetExecuted h ∈ l).
Lemma seen_step_accounted l s r : accounted l s -> accounted (l ++ [r]) (seen_step s r).2.
Proof.
  intros [Hp Hh].
  assert (accounted (l ++ [r]) s) as Hs.
  { split; [intros p Hs; destruct (Hp p Hs) as (q & txs & ? & ->)|]; set_solver. }
  destruct r; cbn; repeat case_match; cbn; try done.
  all: split; cbn; intros; simplify_eq; first [by apply Hs|set_solver|naive_solver].
Qed.
Lemma machine_accounted l :
  exists s, remembers (after machine_step Unset l) s /\ accounted l s.
Proof.
  induction l as [|r l IH] using rev_ind.
  { exists nothing_seen. split; [constructor|]. by split. }
  destruct IH as (s & Hs & Hl). exists (seen_step s r).2. rewrite after_app. cbn. split.
  - by apply machine_refines_step.
  - by apply seen_step_accounted.
Qed.

(** ** The properties *)

(** C23. Every sequence of requests of a round gets the answers of the record of
    what was prepared and executed: the state machine implements it. *)
Theorem execution_state_refines l :
  answers machine_step Unset l = answers seen_step nothing_seen l.
Proof. apply machine_refines. constructor. Qed.

(** Execution is skipped only for work that was done since the last reset: a
    proposal is recognised only if this node prepared exactly it, a block only
    if this node executed it. *)
Theorem skipped_work_was_done l :
  let st := after machine_step Unset l in
  (forall r, (check_if_prepared_proposal r st).1 = true ->
     exists q txs, SetPrepared q txs ∈ l /\ prepared_proposal q txs = processed_proposal r) /\
  (forall h, (check_if_executed_block h st).1 = true -> SetExecuted h ∈ l).
Proof.
  destruct (machine_accounted l) as (s & Hs & Hp & Hh). cbn. split.
  - intros r. destruct Hs; cbn; try done; case_decide; try done; intros _.
    all: destruct (Hp p eq_refl) as (q & txs & ? & Heq); exists q, txs; split; congruence.
  - intros h'. destruct Hs; cbn; try done; case_decide; try done; intros _; subst; by apply Hh.
Qed.
