(* ===== verification/Upgrades.v ===== *)
(** * Upgrades

    The upgrades of a network ([core/src/upgrades/v1/]) and the handler that
    applies them ([sequencer/src/upgrades/upgrades_handler.rs]), with the
    genesis handlers of the price feed it calls.  The encoding of changes
    ([borsh]) and the consensus parameters CometBFT answers are parameters.  The
    theorems: which upgrades an accepted handler applies, and when. *)
From S2P Require Import Prelude Denom Types State Chain Ics20 Authority Conservation Demo.
From stdpp Require Import base list option strings gmap numbers tactics sorting.
From Stdlib Require Import ZArith Lia Ascii String.
Open Scope string_scope.
Open Scope Z_scope.

(** ** Genesis states of the price feed *)
Record MarketMapGenesis := mk_market_genesis { genesis_market_map : MarketMap; last_updated : Z }.
Record CurrencyPairGenesis := mk_pair_genesis {
  cpg_currency_pair : CurrencyPair;
  cpg_price : option QuotePrice;
  cpg_id : Z;
  cpg_nonce : Z }.
Record OracleGenesis := mk_oracle_genesis {
  currency_pair_genesis : list CurrencyPairGenesis;
  genesis_next_id : Z }.

(** [oracles/price_feed/market_map/mod.rs] *)
Definition market_map_handle_genesis (g : MarketMapGenesis) : M unit :=
  wrap_err "failed to put market map" (put_market_map (genesis_market_map g)).
(** [oracles/price_feed/oracle/mod.rs] *)
Definition oracle_handle_genesis (g : OracleGenesis) : M unit :=
  for_each (fun p =>
    wrap_err "failed to write currency pair to state"
      (put_currency_pair_state (cpg_currency_pair p)
         (mk_pair_state (cpg_price p) (cpg_nonce p) (cpg_id p)))) (currency_pair_genesis g);;
  wrap_err "failed to put next currency pair id" (put_next_currency_pair_id (genesis_next_id g));;
  wrap_err "failed to put number of currency pairs"
    (put_num_currency_pairs (Z.of_nat (List.length (currency_pair_genesis g)))).

(** ** Upgrades and their changes *)
Record Aspen := mk_aspen {
  aspen_activation_height : Z;
  aspen_app_version : Z;
  market_map_genesis : MarketMapGenesis;
  oracle_genesis : OracleGenesis }.
Inductive Upgrade := Upgrade_Aspen (a : Aspen).
(** [Upgrades]: ordered by activation height, lowest first *)
Abbreviation Upgrades := (list Upgrade).

(** A [dyn Change]: its info without the hash, and what [to_vec] gives *)
Record Change := mk_upgrade_change {
  ch_name : string;
  ch_activation_height : Z;
  ch_app_version : Z;
  ch_bytes : string }.

Class Borsh := {
  borsh_price_feed_change : Z -> Z -> MarketMapGenesis -> OracleGenesis -> string;
  borsh_heights : Z -> Z -> string }.

Section upgrades.
Context `{Sha256, Borsh}.

Definition PRICE_FEED_CHANGE : string := "price_feed_change".
Definition aspen_changes (a : Aspen) : list Change :=
  let h := aspen_activation_height a in
  let v := aspen_app_version a in
  [mk_upgrade_change PRICE_FEED_CHANGE h v
     (borsh_price_feed_change h v (market_map_genesis a) (oracle_genesis a));
   mk_upgrade_change VALIDATOR_UPDATE_ACTION_CHANGE h v (borsh_heights h v);
   mk_upgrade_change IBC_ACKNOWLEDGEMENT_FAILURE_CHANGE h v (borsh_heights h v)].

Definition activation_height (u : Upgrade) : Z :=
  match u with Upgrade_Aspen a => aspen_activation_height a end.
Definition app_version (u : Upgrade) : Z :=
  match u with Upgrade_Aspen a => aspen_app_version a end.
Definition shutdown_required (u : Upgrade) : bool :=
  match u with Upgrade_Aspen _ => false end.
Definition upgrade_name (u : Upgrade) : string :=
  match u with Upgrade_Aspen _ => ASPEN end.
Definition changes (u : Upgrade) : list Change :=
  match u with Upgrade_Aspen a => aspen_changes a end.

(** [Change::calculate_hash] and [Change::info] *)
Definition calculate_hash (c : Change) : string := sha256 (ch_bytes c).
Definition change_info (c : Change) : ChangeInfo :=
  mk_change (ch_activation_height c) (ch_name c) (ch_app_version c) (calculate_hash c).

Definition aspen (us : Upgrades) : option Aspen :=
  match us with [] => None | Upgrade_Aspen a :: _ => Some a end.
Fixpoint upgrade_activating_at_height (height : Z) (us : Upgrades) : option Upgrade :=
  match us with
  | [] => None
  | u :: us =>
      if activation_height u =? height then Some u
      else if height <? activation_height u then None
      else upgrade_activating_at_height height us
  end.

(** ** The handler *)
Record UpgradesHandler := mk_upgrades_handler {
  handler_upgrades : Upgrades;
  (** what [get_consensus_params_from_cometbft] answers at a height *)
  cometbft_consensus_params : Z -> option ConsensusParams }.

Inductive ShouldShutDown :=
| ShutDownForUpgrade (upgrade_activation_height : Z) (block_time : Time)
| ContinueRunning.

(** [.unwrap_or_default()] of a reader *)
Definition or_default {A} (d : A) (m : M A) : M A := fun s =>
  match m s with
  | (Done a, s') => (Done a, s')
  | (Fail _, s') => (Done d, s')
  | (Crash, s') => (Crash, s')
  end.
Definition next_block_height : M Z :=
  h ← or_default 0 get_block_height;
  ok_or_eyre (checked_add 64 h 1) "overflowed getting next block height".

Definition ensure_change_applied (u : Upgrade) (c : Change) : M unit :=
  stored ← wrap_err "failed to get upgrade change hash"
             (get_upgrade_change_info (upgrade_name u) (ch_name c));
  match stored with
  | None => bail ("historical upgrade change `" ++ upgrade_name u ++ "/" ++ ch_name c
                  ++ "` has not been applied (wrong upgrade.json file provided?)")
  | Some stored_change_info =>
      ensure_that (bool_decide (change_info c = stored_change_info))
        ("upgrade change does not match stored info for `" ++ upgrade_name u ++ "/" ++ ch_name c ++ "`")
  end.
Fixpoint ensure_applied_before (next_block_height : Z) (us : Upgrades) : M unit :=
  match us with
  | [] => mret tt
  | u :: us =>
      if next_block_height <=? activation_height u then mret tt
      else for_each (ensure_change_applied u) (changes u);;
           ensure_applied_before next_block_height us
  end.
Definition ensure_historical_upgrades_applied (h : UpgradesHandler) : M unit :=
  next ← next_block_height;
  ensure_applied_before next (handler_upgrades h).

Fixpoint shut_down_before (next_block_height : Z) (us : Upgrades) : M ShouldShutDown :=
  match us with
  | [] => mret ContinueRunning
  | u :: us =>
      if activation_height u <? next_block_height then shut_down_before next_block_height us
      else if next_block_height <? activation_height u then mret ContinueRunning
      else if negb (shutdown_required u) then shut_down_before next_block_height us
      else
        block_time ← wrap_err "failed getting latest block time from snapshot" get_block_timestamp;
        mret (ShutDownForUpgrade (activation_height u) block_time)
  end.
Definition should_shut_down (h : UpgradesHandler) : M ShouldShutDown :=
  next ← next_block_height;
  shut_down_before next (handler_upgrades h).

Definition execute_change (u : Upgrade) (c : Change) : M unit :=
  wrap_err "failed to put upgrade change info"
    (put_upgrade_change_info (upgrade_name u) (change_info c)).

(** Returns the hashes of the changes. *)
Definition execute_upgrade_if_due (h : UpgradesHandler) (block_height : Z) : M (list string) :=
  match upgrade_activating_at_height block_height (handler_upgrades h) with
  | None => mret []
  | Some u =>
      for_each (execute_change u) (changes u);;
      match u with
      | Upgrade_Aspen a =>
          wrap_err "failed to handle market map genesis"
            (market_map_handle_genesis (market_map_genesis a));;
          wrap_err "failed to handle oracle genesis" (oracle_handle_genesis (oracle_genesis a));;
          wrap_err "failed to handle authority component aspen upgrade" handle_aspen_upgrade
      end;;
      mret (calculate_hash <$> changes u)
  end.

(** The parameters of last resort *)
Definition hard_coded_consensus_params : ConsensusParams :=
  mk_consensus 1048576 (-1) 1000 4000000 1209600000000000 1048576 ["ed25519"] (Some 0) None.
Definition handler_get_consensus_params (h : UpgradesHandler) (block_height : Z) : M ConsensusParams :=
  stored ← wrap_err "failed to get consensus params from storage" get_consensus_params;
  mret (match stored with
        | Some params => params
        | None => default hard_coded_consensus_params (cometbft_consensus_params h block_height)
        end).

Definition with_version (v : Z) (p : ConsensusParams) : ConsensusParams :=
  mk_consensus (block_max_bytes p) (block_max_gas p) (block_time_iota_ms p)
    (evidence_max_age_num_blocks p) (evidence_max_age_duration p) (evidence_max_bytes p)
    (pub_key_types p) (Some v) (vote_extensions_enable_height p).
Definition with_enable_height (e : Z) (p : ConsensusParams) : ConsensusParams :=
  mk_consensus (block_max_bytes p) (block_max_gas p) (block_time_iota_ms p)
    (evidence_max_age_num_blocks p) (evidence_max_age_duration p) (evidence_max_bytes p)
    (pub_key_types p) (version_app p) (Some e).

(** [Height::increment] panics when the height leaves its range. *)
Definition height_increment (h : Z) : option Z :=
  if h + 1 <? 2 ^ 63 then Some (h + 1) else None.
Definition set_vote_extensions_enable_height_to_next_block_height
    (current_block_height : Z) (p : ConsensusParams) : M ConsensusParams :=
  new_enable_height ← expect (height_increment current_block_height);
  mret (match vote_extensions_enable_height p with
        | Some existing => if negb (existing =? 0) then p else with_enable_height new_enable_height p
        | None => with_enable_height new_enable_height p
        end).

Definition upgrades_end_block (h : UpgradesHandler) (block_height : Z) : M (option ConsensusParams) :=
  match upgrade_activating_at_height block_height (handler_upgrades h) with
  | None => mret None
  | Some u =>
      params ← wrap_err "failed to get consensus params" (handler_get_consensus_params h block_height);
      let params := with_version (app_version u) params in
      params ← match u with
               | Upgrade_Aspen _ =>
                   set_vote_extensions_enable_height_to_next_block_height block_height params
               end;
      wrap_err "failed to put consensus params to storage" (put_consensus_params params);;
      mret (Some params)
  end.
End upgrades.

(** * Properties of upgrades

    An upgrade is found at its height and nowhere else; a chain that applied
    it can be restarted, one that did not cannot; vote extensions are enabled
    once. *)

Section upgrades.
Context `{Sha256, Borsh}.

(** ** Finding an upgrade *)
Definition activates_before (u u' : Upgrade) : Prop := activation_height u < activation_height u'.

Lemma upgrade_found height us u :
  StronglySorted activates_before us ->
  upgrade_activating_at_height height us = Some u <-> u ∈ us /\ activation_height u = height.
Proof.
  induction 1 as [|v us Hs IH Hv]; cbn; [set_solver|].
  rewrite list.Forall_forall in Hv. destruct (Z.eqb_spec (activation_height v) height) as [He|He].
  - split; [intros [= <-]; split; [left|done]|]. intros [[->|Hu]%elem_of_cons Hh]; [done|].
    specialize (Hv u Hu). unfold activates_before in Hv. lia.
  - destruct (Z.ltb_spec height (activation_height v)) as [Hl|Hl].
    + split; [done|]. intros [[->|Hu]%elem_of_cons Hh]; [lia|].
      specialize (Hv u Hu). unfold activates_before in Hv. lia.
    + rewrite IH. set_solver.
Qed.

(** ** What an execution stores *)
Definition stored (s : State) (u : Upgrade) (c : Change) : Prop :=
  upgrades s !! (upgrade_name u, ch_name c) = Some (change_info c).

Lemma execute_changes_done u l s s' :
  for_each (execute_change u) l s = (Done tt, s') ->
  NoDup (ch_name <$> l) ->
  (forall c, c ∈ l -> stored s' u c) /\
  (forall c, ch_name c ∉ ch_name <$> l -> upgrades s' !! (upgrade_name u, ch_name c) = upgrades s !! (upgrade_name u, ch_name c)).
Proof.
  revert s. induction l as [|c l IH]; intros s Hs Hnd; cbn [for_each] in Hs.
  - run_inv Hs. subst. split; [set_solver|done].
  - apply bind_done in Hs as ([] & s1 & Hc & Hs). unfold execute_change, put_upgrade_change_info in Hc.
    run_inv Hc. subst s1. cbn in Hnd. apply list.NoDup_cons in Hnd as [Hn Hnd].
    destruct (IH _ Hs Hnd) as [Hl Hkeep]. split.
    + intros c' [->|Hc']%elem_of_cons; [|by apply Hl]. unfold stored.
      rewrite (Hkeep c Hn). cbn. by rewrite lookup_insert_eq.
    + cbn. intros c' [Hne Hc']%not_elem_of_cons. rewrite (Hkeep c' Hc'). cbn.
      apply lookup_insert_ne. congruence.
Qed.

Lemma same_upgrades_handlers a :
  ensures (same upgrades)
    (market_map_handle_genesis (market_map_genesis a);;
     oracle_handle_genesis (oracle_genesis a);; handle_aspen_upgrade).
Proof. ensures_tac. Qed.

Lemma change_names u : NoDup (ch_name <$> changes u).
Proof. destruct u. cbn. repeat constructor; set_solver. Qed.

Lemma execute_upgrade_done h u s hashes s' :
  upgrade_activating_at_height (activation_height u) (handler_upgrades h) = Some u ->
  execute_upgrade_if_due h (activation_height u) s = (Done hashes, s') ->
  hashes = calculate_hash <$> changes u /\ forall c, c ∈ changes u -> stored s' u c.
Proof.
  intros Hu Hs. unfold execute_upgrade_if_due in Hs. rewrite Hu in Hs.
  apply bind_done in Hs as ([] & s1 & Hc & Hs).
  apply execute_changes_done in Hc as [Hc _]; [|apply change_names].
  apply bind_done in Hs as ([] & s2 & Ha & Hs). run_inv Hs. subst. split; [done|].
  intros c Hin. specialize (Hc c Hin). unfold stored in *. destruct u as [a].
  along (same upgrades) Ha; [ensures_tac|]. by rewrite Ha.
Qed.

(** ** Restarting *)
Lemma next_block_height_at s n :
  block_height (app_data s) = Some n -> n < 2 ^ 64 - 1 -> next_block_height s = (Done (n + 1), s).
Proof.
  intros Hn Hlt. unfold next_block_height, or_default, get_block_height. run_eval. rewrite Hn.
  unfold checked_add. rewrite (proj2 (Z.ltb_lt (n + 1) (2 ^ 64))) by lia. done.
Qed.
Lemma change_applied u c s :
  (stored s u c /\ ensure_change_applied u c s = (Done tt, s)) \/
  (~ stored s u c /\ exists e, ensure_change_applied u c s = (Fail e, s)).
Proof.
  unfold ensure_change_applied, get_upgrade_change_info, stored. run_eval.
  destruct (upgrades s !! _) as [i|]; [|right; split; [done|by eexists]].
  case_bool_decide as Hi; [left; by rewrite Hi|right]. split; [congruence|by eexists].
Qed.
Lemma ensure_changes_applied u l s :
  (forall c, c ∈ l -> stored s u c) -> for_each (ensure_change_applied u) l s = (Done tt, s).
Proof.
  induction l as [|c l IH]; intros Hl; [done|]. cbn [for_each].
  destruct (change_applied u c s) as [[_ He]|[Hn _]]; [|by destruct Hn; apply Hl; left].
  unfold mbind, M_bind. rewrite He. apply IH. set_solver.
Qed.
Lemma ensure_changes_missing u l s c :
  c ∈ l -> ~ stored s u c -> exists e, for_each (ensure_change_applied u) l s = (Fail e, s).
Proof.
  intros Hin Hc. induction l as [|c' l IH]; [set_solver|]. cbn [for_each]. unfold mbind, M_bind.
  destruct (change_applied u c' s) as [[Hs ->]|[_ [e ->]]]; [|by eexists].
  apply elem_of_cons in Hin as [->|Hin]; [done|by apply IH].
Qed.

(** A chain that applies an upgrade at its height stores and returns the
    hashes of all its changes; with the same upgrade file the node restarts at
    every later height, and is refused if any of the changes was not applied. *)
Theorem applied_upgrade_is_recognised h u s hashes s' :
  handler_upgrades h = [u] ->
  execute_upgrade_if_due h (activation_height u) s = (Done hashes, s') ->
  hashes = calculate_hash <$> changes u /\
  forall s2 n, block_height (app_data s2) = Some n -> n < 2 ^ 64 - 1 ->
    (upgrades s2 = upgrades s' -> ensure_historical_upgrades_applied h s2 = (Done tt, s2)) /\
    (forall c, activation_height u <= n -> c ∈ changes u ->
       upgrades s2 !! (upgrade_name u, ch_name c) = None ->
       exists e, ensure_historical_upgrades_applied h s2 = (Fail e, s2)).
Proof.
  intros Hus Hs. apply execute_upgrade_done in Hs as [Hh Hc].
  2: { rewrite Hus. cbn. by rewrite Z.eqb_refl. }
  split; [done|]. intros s2 n Hn Hlt.
  assert (ensure_historical_upgrades_applied h s2 = ensure_applied_before (n + 1) [u] s2) as ->.
  { unfold ensure_historical_upgrades_applied, mbind, M_bind.
    by rewrite (next_block_height_at _ n), Hus. }
  cbn [ensure_applied_before]. destruct (Z.leb_spec (n + 1) (activation_height u)) as [Hle|Hle].
  - split; [done|]. lia.
  - split.
    + intros Heq. unfold mbind, M_bind. rewrite ensure_changes_applied; [done|].
      intros c Hin. unfold stored. rewrite Heq. by apply Hc.
    + intros c _ Hin Hmiss. destruct (ensure_changes_missing u _ s2 c Hin) as [e He].
      { unfold stored. by rewrite Hmiss. }
      exists e. unfold mbind, M_bind. by rewrite He.
Qed.

(** ** Vote extensions *)
Definition enabled_at (p : ConsensusParams) : option Z :=
  match vote_extensions_enable_height p with Some 0 => None | o => o end.

(** Vote extensions are enabled for the height after the upgrade unless they
    were before, in which case their height stays; the application version is
    the upgrade's, and other blocks leave the parameters alone. *)
Theorem vote_extensions_are_enabled_once h block_height s o s' :
  upgrades_end_block h block_height s = (Done o, s') ->
  match upgrade_activating_at_height block_height (handler_upgrades h) with
  | None => o = None /\ s' = s
  | Some u =>
      exists p, o = Some p /\ consensus_params (app_data s') = Some p /\
        version_app p = Some (app_version u) /\
        forall old, consensus_params (app_data s) = Some old ->
          vote_extensions_enable_height p =
            Some (default (block_height + 1) (enabled_at old))
  end.
Proof.
  unfold upgrades_end_block. intros Hs.
  destruct (upgrade_activating_at_height _ _) as [[a]|]; [|by run_inv Hs].
  apply bind_done in Hs as (p & s1 & Hp & Hs).
  unfold handler_get_consensus_params, get_consensus_params in Hp. run_inv Hp. subst.
  apply bind_done in Hs as (p & s2 & Hset & Hs).
  unfold set_vote_extensions_enable_height_to_next_block_height, height_increment in Hset.
  run_inv Hset. destruct (_ <? _); [|done]. simplify_eq.
  unfold put_consensus_params in Hs. run_inv Hs. subst. eexists. split_and!; [done|done| |].
  - destruct (vote_extensions_enable_height _); [|done]. by destruct (negb _).
  - intros old Hold. rewrite Hold. cbn. unfold enabled_at.
    destruct (vote_extensions_enable_height old) as [e|] eqn:He; [|done]. cbn.
    destruct (Z.eqb_spec e 0) as [->|Hz]; [done|]. cbn. rewrite He. by destruct e.
Qed.
End upgrades.

(** ** A network with the Aspen upgrade at height 5 *)
Definition demo_borsh : Borsh := {|
  borsh_price_feed_change := fun _ _ _ _ => "price feed";
  borsh_heights := fun _ _ => "heights" |}.
#[local] Existing Instance demo_borsh.
