(* ===== verification/VoteExtension.v ===== *)
(** * The price feed: votes and their aggregation

    [core/src/oracles/price_feed/]: prices and their encodings
    ([types.rs]), the oracle's answers ([service.rs]), vote extensions
    ([abci.rs]) and the median of the validators' votes ([utils.rs]); and
    [sequencer/src/app/vote_extension.rs], which extends and verifies votes, prunes
    and validates those of a proposal, and applies their prices. *)
From S2P Require Import Prelude Denom Types State Authority Wire Collections Block Chain Ics20.
From S2P Require Import WireActions WireTransaction.
From stdpp Require Import base list option strings sorting numbers pretty tactics gmap.
From Stdlib Require Import ZArith Lia Ascii String.
Open Scope string_scope.
Open Scope Z_scope.

(** ** Prices: [i128] *)
Definition int (w x : Z) : Prop := - 2 ^ (w - 1) <= x < 2 ^ (w - 1).
Definition in_i128 (x : Z) : bool := (- 2 ^ 127 <=? x) && (x <? 2 ^ 127).
Definition price_checked_add (a b : Z) : option Z := if in_i128 (a + b) then Some (a + b) else None.
(** [checked_div] rounds towards zero. *)
Definition price_checked_div (a b : Z) : option Z :=
  if (b =? 0) || negb (in_i128 (Z.quot a b)) then None else Some (Z.quot a b).

(** [i128::from_str]: a sign, then digits *)
Definition digit_value (c : ascii) : option Z :=
  let n := Z.of_nat (nat_of_ascii c) in
  if (48 <=? n) && (n <=? 57) then Some (n - 48) else None.
Fixpoint parse_digits (acc : Z) (s : string) : option Z :=
  match s with
  | EmptyString => Some acc
  | String c s => d ← digit_value c; parse_digits (10 * acc + d) s
  end.
Definition parse_nat (s : string) : option Z :=
  if is_empty s then None else parse_digits 0 s.
Definition price_from_str (s : string) : option Z :=
  n ← match s with
      | String "-" s => Z.opp <$> parse_nat s
      | String "+" s => parse_nat s
      | _ => parse_nat s
      end;
  if in_i128 n then Some n else None.

(** [i128::from_be_bytes] and [to_be_bytes] *)
Fixpoint be_value (acc : Z) (s : string) : Z :=
  match s with
  | EmptyString => acc
  | String c s => be_value (256 * acc + Z.of_nat (nat_of_ascii c)) s
  end.
Definition price_try_from (input : string) : option Z :=
  if (String.length input =? 16)%nat then
    let u := be_value 0 input in
    Some (if u <? 2 ^ 127 then u else u - 2 ^ 128)
  else None.
Fixpoint be_digits (n : nat) (x : Z) (s : string) : string :=
  match n with
  | O => s
  | S n => be_digits n (x / 256) (String (ascii_of_nat (Z.to_nat (x mod 256))) s)
  end.
Definition price_to_be_bytes (p : Z) : string := be_digits 16 (p mod 2 ^ 128) "".

(** ** Currency pairs as text *)
Fixpoint split_once (c : ascii) (s : string) : option (string * string) :=
  match s with
  | EmptyString => None
  | String a s =>
      if Ascii.eqb a c then Some ("", s)
      else '(before, after) ← split_once c s; Some (String a before, after)
  end.
Inductive CurrencyPairParseError :=
| CurrencyPairParseError_InvalidCurrencyPairString (s : string)
| CurrencyPairParseError_Part (source : CurrencyPairError).
Definition currency_pair_from_str (s : string) : result CurrencyPairParseError CurrencyPair :=
  '(b, q) ← ok_or (CurrencyPairParseError_InvalidCurrencyPairString s) (split_once "/" s);
  b ← map_err CurrencyPairParseError_Part (base_from_str b);
  q ← map_err CurrencyPairParseError_Part (quote_from_str q);
  Ok (mk_pair b q).

(** ** service.rs: what the oracle sidecar answers *)
Inductive QueryPricesResponseError :=
| QueryPricesResponseError_ParseCurrencyPair (input : string) (source : CurrencyPairParseError)
| QueryPricesResponseError_ParsePrice (key input : string).
Definition query_price_try_from (kv : string * string)
    : result QueryPricesResponseError (CurrencyPair * Z) :=
  p ← map_err (QueryPricesResponseError_ParseCurrencyPair kv.1) (currency_pair_from_str kv.1);
  price ← ok_or (QueryPricesResponseError_ParsePrice kv.1 kv.2) (price_from_str kv.2);
  Ok (p, price).
Definition query_prices_try_from_raw (raw : list (string * string))
    : result QueryPricesResponseError (IndexMap CurrencyPair Z) :=
  prices ← try_collect query_price_try_from raw; Ok (index_collect prices).

(** ** abci.rs: vote extensions

    The message is a [BTreeMap] from currency pair ids to encoded prices. *)
Abbreviation RawOracleVoteExtension := (list (Z * string)).
Inductive OracleVoteExtensionError := OracleVoteExtensionError_DecodePrice (id : Z).
Definition vote_price_try_from (kv : Z * string) : result OracleVoteExtensionError (Z * Z) :=
  price ← ok_or (OracleVoteExtensionError_DecodePrice kv.1) (price_try_from kv.2); Ok (kv.1, price).
Definition oracle_vote_extension_try_from_raw (raw : RawOracleVoteExtension)
    : result OracleVoteExtensionError (IndexMap Z Z) :=
  prices ← try_collect vote_price_try_from raw; Ok (index_collect prices).
Definition id_le (a b : Z * string) : Prop := a.1 <= b.1.
#[export] Instance id_le_dec a b : Decision (id_le a b).
Proof. unfold id_le. apply _. Defined.
Definition oracle_vote_extension_into_raw (prices : IndexMap Z Z) : RawOracleVoteExtension :=
  merge_sort id_le ((fun kv => (kv.1, price_to_be_bytes kv.2)) <$> prices).

(** ** utils.rs *)
Definition median (price_list : list Z) : run (option Z) :=
  let price_list := merge_sort Z.le price_list in
  let len := List.length price_list in
  let midpoint := (len / 2)%nat in
  if (len mod 2 =? 1)%nat then p ← unwrap (price_list !! midpoint); mret (Some p)
  else if (midpoint =? 0)%nat then mret None
  else
    let lower_index := (midpoint - 1)%nat in
    higher_price ← unwrap (price_list !! midpoint);
    lower_price ← unwrap (price_list !! lower_index);
    half_high ← unwrap (price_checked_div higher_price 2);
    half_low ← unwrap (price_checked_div lower_price 2);
    sum ← unwrap (price_checked_add half_high half_low);
    if (Z.rem higher_price 2 =? 1) && (Z.rem lower_price 2 =? 1)
    then m ← unwrap (price_checked_add sum 1); mret (Some m)
    else mret (Some sum).

#[export] Instance CurrencyPairInfo_eq_dec : EqDecision CurrencyPairInfo.
Proof. solve_decision. Defined.

(** The prices of one vote, and of all votes, under the pairs they are for *)
Definition add_vote_price (id_to_currency_pair : IndexMap Z CurrencyPairInfo)
    (m : IndexMap CurrencyPairInfo (list Z)) (vote : Z * Z) : IndexMap CurrencyPairInfo (list Z) :=
  match index_get vote.1 id_to_currency_pair with
  | None => m
  | Some info => index_update [] (fun l => l ++ [vote.2])%list info m
  end.
Definition price_lists (votes : list (IndexMap Z Z)) (id_to_currency_pair : IndexMap Z CurrencyPairInfo)
    : IndexMap CurrencyPairInfo (list Z) :=
  fold_left (fun m vote => fold_left (add_vote_price id_to_currency_pair) vote m) votes [].
Fixpoint medians (m : IndexMap CurrencyPairInfo (list Z)) : run (list Price) :=
  match m with
  | [] => mret []
  | (info, l) :: m =>
      o ← median l;
      rest ← medians m;
      mret (match o with
            | Some p => mk_price (info_pair info) p (info_decimals info) :: rest
            | None => rest
            end)
  end.
Definition aggregate_oracle_votes (votes : list (IndexMap Z Z))
    (id_to_currency_pair : IndexMap Z CurrencyPairInfo) : run (list Price) :=
  medians (price_lists votes id_to_currency_pair).

(** prost, for vote extensions, and the message that is signed with one *)
Class VoteCodec := {
  decode_vote_extension : string -> option RawOracleVoteExtension;
  encode_vote_extension : RawOracleVoteExtension -> string;
  encode_canonical_vote_extension : string -> Z -> Z -> string -> string }.

Inductive CalculatePricesError :=
| CalculatePricesError_Decode
| CalculatePricesError_InvalidOracleVoteExtension (source : OracleVoteExtensionError).
Definition vote_prices `{VoteCodec} (vote : ExtendedVoteInfo) : result CalculatePricesError (IndexMap Z Z) :=
  raw ← ok_or CalculatePricesError_Decode (decode_vote_extension (ext_vote_extension vote));
  map_err CalculatePricesError_InvalidOracleVoteExtension (oracle_vote_extension_try_from_raw raw).
Definition calculate_prices_from_vote_extensions `{VoteCodec} (info : ExtendedCommitInfo)
    (id_to_currency_pair : IndexMap Z CurrencyPairInfo) : attempt CalculatePricesError (list Price) :=
  votes ← checked (try_collect vote_prices (ext_votes info));
  running (aggregate_oracle_votes votes id_to_currency_pair).

(** * Vote extensions

    [sequencer/src/app/vote_extension.rs]: the validators' prices as CometBFT
    hands them over, from the extension of a vote over the proposal that
    carries the votes of the last block to the prices written to the state.
    A [HashSet] of ids is a [gset]; the order in which it is traversed is
    nowhere observable but in the order of the proposer's mapping. *)

(** [address/state_ext.rs] *)
Definition try_base_prefixed `{External} (slice : string) : M Address :=
  prefix ← wrap_err "failed to read base prefix from state" get_base_prefix;
  ok_or_eyre (address_try_build slice prefix)
    "failed to construct address from byte slice and state-provided base prefix".

(** A computation outside of the state *)
Definition lift {A} (r : result Report A) : M A := fun s =>
  match r with Ok a => (Done a, s) | Err e => (Fail e, s) end.
Definition lift_attempt {E A} (report : E -> Report) (r : attempt E A) : M A := fun s =>
  match r with
  | Val (Ok a) => (Done a, s)
  | Val (Err e) => (Fail (report e), s)
  | Panic | NoFuel => (Crash, s)
  end.

(** [currency_pair_strategy.rs] *)
Definition get_max_num_currency_pairs : M Z :=
  wrap_err "failed to get number of currency pairs" get_num_currency_pairs.

Section vote_extension.
Context `{Tendermint, VoteCodec}.

Definition MAXIMUM_PRICE_BYTE_LEN : nat := 33.

Fixpoint price_ids (ids : gset Z) (prices : RawOracleVoteExtension) : result Report (gset Z) :=
  match prices with
  | [] => Ok ids
  | (i, price) :: prices =>
      ensure (String.length price <=? MAXIMUM_PRICE_BYTE_LEN)%nat
        ["encoded price length exceeded 33 bytes"];;
      price_ids ({[i]} ∪ ids) prices
  end.
Definition verify_vote_extension (bytes : string) (max_num_currency_pairs : Z)
    : result Report (gset Z) :=
  prices ← ok_or ["failed to decode oracle vote extension"] (decode_vote_extension bytes);
  ensure (Z.of_nat (List.length prices) <=? max_num_currency_pairs)
    ["number of oracle vote extension prices exceeds max expected number of currency pairs"];;
  price_ids ∅ prices.

(** ** [Handler]: the two requests about vote extensions

    [prices] is the sidecar's answer to a query, [None] when it has none. *)
Record Handler := mk_handler { oracle_client : option (option (list (string * string))) }.

(** The ids of the pairs that have one *)
Definition add_strategy_price (m : IndexMap Z Z) (kv : CurrencyPair * Z) : M (IndexMap Z Z) :=
  o ← wrap_err ("error fetching currency pair " ++ currency_pair_to_string kv.1)
        (get_currency_pair_id kv.1);
  mret match o with Some i => index_insert i kv.2 m | None => m end.
Definition transform_oracle_service_prices (prices : IndexMap CurrencyPair Z) : M (IndexMap Z Z) :=
  fold_each add_strategy_price [] prices.

Definition extend_vote (h : Handler) : M string :=
  answer ← ok_or_eyre (oracle_client h) "oracle client not set";
  rsp ← ok_or_eyre answer "failed to get prices from oracle sidecar";
  prices ← lift (map_err (fun _ => ["failed to validate prices server response"])
                   (query_prices_try_from_raw rsp));
  prices ← wrap_err "failed to transform oracle service prices" (transform_oracle_service_prices prices);
  mret (encode_vote_extension (oracle_vote_extension_into_raw prices)).

Inductive VerifyVoteExtension := Accept | Reject.
Definition handler_verify_vote_extension (vote_extension : string) : M VerifyVoteExtension :=
  if is_empty vote_extension then mret Accept
  else
    max_num_currency_pairs ← wrap_err "failed to get max number of currency pairs"
                               get_max_num_currency_pairs;
    mret (if is_ok (verify_vote_extension vote_extension max_num_currency_pairs) then Accept else Reject).

(** ** Validation of the votes of the last block *)
Definition validator_verification_key (address : address_bytes) : M string :=
  o ← wrap_err "failed to get validator" (get_validator address);
  v ← ok_or_eyre o "not found in validators";
  mret (verification_key v).

(** What the loop over the votes has summed up *)
Record Tally := mk_tally {
  validators_that_voted : gset address_bytes;
  tally_total : Z;
  tally_submitted : Z }.

Definition tally_vote (chain_id : string) (height round : Z) (t : Tally) (vote : ExtendedVoteInfo)
    : M Tally :=
  let v := ext_validator vote in
  _ ← wrap_err "failed to construct validator address with base prefix"
        (try_base_prefixed (val_address v));
  ensure_that (bool_decide (val_address v ∉ validators_that_voted t)) "voted twice";;
  let voted := {[val_address v]} ∪ validators_that_voted t in
  total ← ok_or_eyre (checked_add 64 (tally_total t) (val_power v))
            "calculating total voting power overflowed";
  if bool_decide (ext_sig_info vote = Flag Commit) then
    signature ← ok_or_eyre (ext_signature vote) "vote extension signature is missing for validator";
    ensure_that (ed25519_signature_valid signature) "failed to create signature";;
    submitted ← ok_or_eyre (checked_add 64 (tally_submitted t) (val_power v))
                  "calculating submitted voting power overflowed";
    key ← wrap_err "failed to get verification key for validator"
            (validator_verification_key (val_address v));
    vote_height ← expect (if height - 1 <? 2 ^ 63 then checked_sub height 1 else None);
    let message := encode_canonical_vote_extension (ext_vote_extension vote) vote_height round chain_id in
    ensure_that (ed25519_verify key signature message)
      "failed to verify signature for vote extension";;
    mret (mk_tally voted total submitted)
  else
    ensure_that (is_empty (ext_vote_extension vote)) "non-commit vote extension present for validator";;
    ensure_that (bool_decide (ext_signature vote = None))
      "non-commit extension signature present for validator";;
    mret (mk_tally voted total (tally_submitted t)).

Definition required_voting_power (total : Z) : option Z :=
  doubled ← checked_mul 64 total 2; checked_add 64 (doubled / 3) 1.

Definition validate_vote_extensions (height : Z) (info : ExtendedCommitInfo) : M unit :=
  chain_id ← wrap_err "failed to get chain id" get_chain_id;
  t ← fold_each (tally_vote chain_id height (ext_round info)) (mk_tally ∅ 0 0) (ext_votes info);
  ensure_that (negb (tally_total t =? 0)) "total voting power is zero";;
  required ← ok_or_eyre (required_voting_power (tally_total t))
               "failed to compute the required voting power";
  ensure_that (required <=? tally_submitted t)
    "submitted voting power is less than required voting power".

Fixpoint check_votes (last : list VoteInfo) (extended : list ExtendedVoteInfo) : result Report unit :=
  match last, extended with
  | v :: last, e :: extended =>
      ensure (bool_decide (val_address (vote_validator v) = val_address (ext_validator e)))
        ["last commit vote address does not match extended commit vote address"];;
      ensure (val_power (vote_validator v) =? val_power (ext_validator e))
        ["last commit vote power does not match extended commit vote power"];;
      (if bool_decide (ext_sig_info e = Flag Absent) && is_empty (ext_vote_extension e) &&
          bool_decide (ext_signature e = None)
       then Ok tt
       else ensure (bool_decide (ext_sig_info e = vote_sig_info v))
              ["last commit vote sig info does not match extended commit vote sig info"]);;
      check_votes last extended
  | _, _ => Ok tt
  end.
Definition validate_extended_commit_against_last_commit (last_commit : CommitInfo)
    (info : ExtendedCommitInfo) : result Report unit :=
  ensure (round last_commit =? ext_round info)
    ["last commit round does not match extended commit round"];;
  ensure (List.length (votes last_commit) =? List.length (ext_votes info))%nat
    ["last commit votes length does not match extended commit votes length"];;
  check_votes (votes last_commit) (ext_votes info).

(** ** The mapping from ids to currency pairs *)
Definition add_id_pair (market_map : MarketMap) (m : IndexMap Z CurrencyPairInfo) (i : Z)
    : M (IndexMap Z CurrencyPairInfo) :=
  o ← get_currency_pair i;
  match o with
  | None => mret m
  | Some p =>
      market ← ok_or_eyre (im_get (currency_pair_to_string p) market_map)
                 "currency pair did not exist in market map";
      mret (index_insert i (mk_pair_info p (decimals (ticker market))) m)
  end.
Definition get_id_to_currency_pair (all_ids : gset Z) : M (IndexMap Z CurrencyPairInfo) :=
  o ← wrap_err "failed to get market map" get_market_map;
  market_map ← ok_or_eyre o "market map was not set";
  fold_each (add_id_pair market_map) [] (elements all_ids).

(** [==] of index maps: the order does not matter. *)
Definition index_map_eqb (m m' : IndexMap Z CurrencyPairInfo) : bool :=
  (List.length m =? List.length m')%nat &&
  forallb (fun kv => bool_decide (index_get kv.1 m' = Some kv.2)) m.

Definition pair_info_display (i : CurrencyPairInfo) : string :=
  "CurrencyPairInfo { currency_pair: " ++ currency_pair_to_string (info_pair i) ++
  ", decimals: " ++ pretty (info_decimals i) ++ " }".
(** [swap_remove]: the last entry takes the place of the removed one. *)
Definition index_swap_remove (k : Z) (m : IndexMap Z CurrencyPairInfo) : IndexMap Z CurrencyPairInfo :=
  match list_find (fun kv => kv.1 = k) m with
  | None => m
  | Some (i, _) =>
      let after := drop (S i) m in
      (take i m ++ match list.last after with Some kv => kv :: removelast after | None => [] end)%list
  end.
Definition mismatch_message (i : Z) (expected actual : CurrencyPairInfo) : string :=
  "mismatch (expected `" ++ pair_info_display expected ++ "` but got `" ++ pair_info_display actual
  ++ "` for id " ++ pretty i ++ ")".
Definition missing_message (i : Z) (expected : CurrencyPairInfo) : string :=
  "missing (expected `" ++ pair_info_display expected ++ "` for id " ++ pretty i ++ ")".
Definition unexpected_message (kv : Z * CurrencyPairInfo) : string :=
  "unexpected (got `" ++ pair_info_display kv.2 ++ "` for id " ++ pretty kv.1 ++ ")".
(** The messages about the expected pairs, then those about what is left *)
Fixpoint mapping_mismatches (expected actual : IndexMap Z CurrencyPairInfo) : list string :=
  match expected with
  | [] => map unexpected_message actual
  | (i, e) :: expected =>
      match index_get i actual with
      | Some a =>
          let msgs := mapping_mismatches expected (index_swap_remove i actual) in
          if bool_decide (e = a) then msgs else mismatch_message i e a :: msgs
      | None => missing_message i e :: mapping_mismatches expected actual
      end
  end.
Definition validate_id_to_currency_pair_mapping (all_ids : gset Z)
    (actual : IndexMap Z CurrencyPairInfo) : M unit :=
  expected ← wrap_err "failed to get id to currency pair mapping" (get_id_to_currency_pair all_ids);
  if index_map_eqb expected actual then mret tt
  else
    bail ("failed to validate currency pair mapping: [" ++
          String.concat ", " (mapping_mismatches expected actual) ++ "]").

(** ** [ProposalHandler] *)
Definition prune_vote (v : ExtendedVoteInfo) : ExtendedVoteInfo :=
  mk_ext_vote (ext_validator v) (Flag Absent) "" None.
Fixpoint prune_votes (max_num_currency_pairs : Z) (l : list ExtendedVoteInfo)
    : M (list ExtendedVoteInfo * gset Z) :=
  match l with
  | [] => mret ([], ∅)
  | v :: l =>
      match verify_vote_extension (ext_vote_extension v) max_num_currency_pairs with
      | Ok ids =>
          '(rest, all) ← prune_votes max_num_currency_pairs l;
          mret (v :: rest, ids ∪ all)
      | Err _ =>
          _ ← wrap_err "failed to construct validator address with base prefix"
                (try_base_prefixed (val_address (ext_validator v)));
          '(rest, all) ← prune_votes max_num_currency_pairs l;
          mret (prune_vote v :: rest, all)
      end
  end.
Definition handler_prepare_proposal (height : Z) (info : ExtendedCommitInfo) : M CommitMapping :=
  if height =? 1 then mret (mk_mapping info [])
  else
    max_num_currency_pairs ← wrap_err "failed to get max number of currency pairs"
                               get_max_num_currency_pairs;
    '(pruned, all_ids) ← prune_votes max_num_currency_pairs (ext_votes info);
    let info := mk_ext_commit (ext_round info) pruned in
    wrap_err "failed to validate vote extensions in prepare_proposal"
      (validate_vote_extensions height info);;
    mapping ← wrap_err "failed to get id to currency pair mapping" (get_id_to_currency_pair all_ids);
    mret (mk_mapping info mapping).

Fixpoint vote_ids (max_num_currency_pairs : Z) (ids : gset Z) (l : list ExtendedVoteInfo)
    : result Report (gset Z) :=
  match l with
  | [] => Ok ids
  | v :: l =>
      new ← verify_vote_extension (ext_vote_extension v) max_num_currency_pairs;
      vote_ids max_num_currency_pairs (new ∪ ids) l
  end.
Definition handler_validate_proposal (height : Z) (last_commit : CommitInfo) (m : CommitMapping)
    : M unit :=
  let info := commit_info m in
  if height =? 1 then mret tt
  else if bool_decide (ext_votes info = []) then
    ensure_that (round last_commit =? ext_round info)
      "last commit round does not match extended commit round"
  else
    lift (validate_extended_commit_against_last_commit last_commit info);;
    wrap_err "failed to validate vote extensions in validate_extended_commit_info"
      (validate_vote_extensions height info);;
    max_num_currency_pairs ← wrap_err "failed to get max number of currency pairs"
                               get_max_num_currency_pairs;
    all_ids ← wrap_err "failed to verify vote extension in validate_proposal"
                (lift (vote_ids max_num_currency_pairs ∅ (ext_votes info)));
    validate_id_to_currency_pair_mapping all_ids (id_to_pair m).

(** ** Writing the prices *)
Definition apply_price (timestamp height : Z) (p : Price) : M unit :=
  wrap_err "failed to put price"
    (put_price_for_currency_pair (price_pair p) (mk_quote (price_value p) timestamp height));;
  record (PriceUpdate (price_pair p) (price_value p)).
Definition calculate_error (e : CalculatePricesError) : Report :=
  match e with
  | CalculatePricesError_Decode => ["failed to decode price feed oracle vote extension"]
  | CalculatePricesError_InvalidOracleVoteExtension _ =>
      ["failed to convert raw price feed oracle vote extension to native"]
  end.
Definition apply_prices_from_vote_extensions (m : CommitMapping) (timestamp height : Z) : M unit :=
  prices ← wrap_err "failed to calculate prices from vote extensions"
             (lift_attempt calculate_error
                (calculate_prices_from_vote_extensions (commit_info m) (id_to_pair m)));
  for_each (apply_price timestamp height) prices.
End vote_extension.
