(* ===== verification/VoteTheorems.v ===== *)
(** * Properties of the price feed

    The median is the middle of the votes, whatever their order; validated
    votes are those of a quorum, each with its validator's signature; what a
    proposer makes of the votes it has is what the other nodes accept. *)
From S2P Require Import Prelude Denom Types State Chain Ics20 Authority Wire.
From S2P Require Import WireActions WireTransaction Collections Block VoteExtension.
From S2P Require Import ExecutionState Demo WireTheorems BlockDemo.
From stdpp Require Import base list option strings gmap sorting numbers pretty tactics.
From Stdlib Require Import ZArith Lia Ascii String.
Open Scope string_scope.
Open Scope Z_scope.

(** ** The median *)
Lemma merge_sort_perm (l l' : list Z) : l ≡ₚ l' -> merge_sort Z.le l = merge_sort Z.le l'.
Proof.
  intros Hl. apply (Sorted_unique Z.le); [apply Sorted_merge_sort, _|apply Sorted_merge_sort, _|].
  by rewrite !merge_sort_Permutation.
Qed.

Definition price_range (p : Z) : Prop := 0 <= p < 2 ^ 127.
Lemma price_ops p q : price_range p -> price_range q ->
  price_checked_div p 2 = Some (p / 2) /\
  price_checked_add (p / 2) (q / 2) = Some (p / 2 + q / 2) /\
  (Z.rem p 2 = 1 -> Z.rem q 2 = 1 -> price_checked_add (p / 2 + q / 2) 1 = Some ((p + q) / 2)) /\
  (~ (Z.rem p 2 = 1 /\ Z.rem q 2 = 1) -> p / 2 + q / 2 = (p + q) / 2).
Proof.
  unfold price_range, price_checked_div, price_checked_add, in_i128. intros Hp Hq.
  change (2 ^ 127) with (2 * 2 ^ 126) in *. set (B := 2 ^ 126) in *.
  assert (0 < B) by (unfold B; lia). clearbody B.
  rewrite !Z.rem_mod_nonneg, !Z.quot_div_nonneg by lia.
  split_and!.
  - replace (2 =? 0) with false by done. cbn.
    replace (- (2 * B) <=? p / 2) with true; [|symmetry; apply Z.leb_le; Z.to_euclidean_division_equations; lia].
    replace (p / 2 <? 2 * B) with true; [done|symmetry; apply Z.ltb_lt; Z.to_euclidean_division_equations; lia].
  - rewrite (proj2 (andb_true_iff _ _)); [done|]. split; [apply Z.leb_le|apply Z.ltb_lt]; Z.to_euclidean_division_equations; lia.
  - intros H1 H2. rewrite (proj2 (andb_true_iff _ _)); [f_equal; Z.to_euclidean_division_equations; lia|].
    split; [apply Z.leb_le|apply Z.ltb_lt]; Z.to_euclidean_division_equations; lia.
  - intros H1. Z.to_euclidean_division_equations; lia.
Qed.

Lemma half_length_bounds (n : nat) : (0 < n)%nat ->
  ((n - 1) / 2 < n)%nat /\ (n / 2 < n)%nat /\
  ((n mod 2 = 1)%nat -> ((n - 1) / 2 = n / 2)%nat) /\
  ((n mod 2 <> 1)%nat -> ((n - 1) / 2 = n / 2 - 1)%nat /\ (n / 2 <> 0)%nat).
Proof.
  intros Hn. destruct (Nat.Even_or_Odd n) as [[k ->]|[k ->]].
  - rewrite <- (Nat.div_unique (2 * k - 1) 2 (k - 1) 1) by lia.
    rewrite <- (Nat.div_unique (2 * k) 2 k 0), <- (Nat.mod_unique (2 * k) 2 k 0) by lia.
    split_and!; lia.
  - replace (2 * k + 1 - 1)%nat with (2 * k)%nat by lia.
    rewrite <- (Nat.div_unique (2 * k) 2 k 0), <- (Nat.div_unique (2 * k + 1) 2 k 1) by lia.
    rewrite <- (Nat.mod_unique (2 * k + 1) 2 k 1) by lia. split_and!; lia.
Qed.

(** The median of prices that are not negative is the floor of the mean of
    the two middle ones (of the middle one, if their number is odd), and it
    does not depend on the order of the votes. *)
Theorem median_is_the_middle (l l' : list Z) :
  l <> [] -> Forall price_range l -> l' ≡ₚ l -> Sorted Z.le l' ->
  let n := List.length l in
  median l = Val (Some ((l' !!! ((n - 1) / 2)%nat + l' !!! (n / 2)%nat) / 2)) /\
  forall votes, votes ≡ₚ l -> median votes = median l.
Proof.
  intros Hne Hl Hperm Hs n.
  assert (merge_sort Z.le l = l') as Hsort.
  { apply (Sorted_unique Z.le); [apply Sorted_merge_sort, _|done|].
    by rewrite merge_sort_Permutation. }
  split; [|by intros votes Hv; unfold median; rewrite (merge_sort_perm votes l Hv)].
  unfold median. rewrite Hsort.
  replace (List.length l') with n by (symmetry; by apply Permutation_length).
  assert (0 < n)%nat as Hn by (destruct l; cbn in *; [done|lia]).
  assert (List.length l' = n) as Hlen by (by apply Permutation_length).
  destruct (half_length_bounds n Hn) as (Hlo & Hhi & Hodd & Heven).
  assert (forall i, (i < n)%nat -> l' !! i = Some (l' !!! i) /\ price_range (l' !!! i)) as Hget.
  { intros i Hi. destruct (lookup_lt_is_Some_2 l' i) as [x Hx]; [lia|].
    rewrite (list_lookup_total_correct _ _ _ Hx). split; [done|].
    rewrite <- Hperm in Hl. by apply (Forall_lookup_1 _ _ _ _ Hl Hx). }
  destruct (Hget _ Hhi) as [Ghi Rhi]. destruct (Hget _ Hlo) as [Glo Rlo].
  case_match eqn:Hm.
  - apply Nat.eqb_eq in Hm. rewrite Ghi, (Hodd Hm). cbn. repeat f_equal.
    rewrite Z.add_diag, Z.mul_comm. by rewrite Z.div_mul.
  - apply Nat.eqb_neq in Hm. destruct (Heven Hm) as [Heq Hnz].
    rewrite (proj2 (Nat.eqb_neq _ _) Hnz). cbn zeta. rewrite <- Heq, Ghi, Glo.
    destruct (price_ops _ _ Rhi Rlo) as (Dh & Da & D1 & D2).
    destruct (price_ops _ _ Rlo Rhi) as (Dl & _). rewrite (Z.add_comm (l' !!! ((n - 1) / 2)%nat)).
    cbn [unwrap mbind run_bind]. rewrite Dh, Dl. cbn [unwrap mbind run_bind]. rewrite Da.
    cbn [unwrap mbind run_bind]. case_match eqn:Hb.
    + apply andb_true_iff in Hb as [H1%Z.eqb_eq H2%Z.eqb_eq]. by rewrite (D1 H1 H2).
    + rewrite <- D2; [done|]. intros [H1 H2]. rewrite H1, H2 in Hb. done.
Qed.
Lemma median_is_the_middle_witness :
  [3; 1; 2] ≡ₚ [1; 2; 3] /\ median [3; 1; 2] = Val (Some 2).
Proof.
  assert ([1; 2; 3] ≡ₚ [3; 1; 2]) as Hp by (symmetry; apply (Permutation_cons_append [1; 2] 3)).
  split; [by symmetry|].
  destruct (median_is_the_middle [3; 1; 2] [1; 2; 3]) as [Hm _]; [done| |done|by repeat constructor|].
  - repeat constructor; unfold price_range; lia.
  - by rewrite Hm.
Defined.

(** Of two equal odd negative prices the median is another one: the
    correction for two odd prices tests the remainder against 1, which is -1
    for a negative price. *)
Theorem median_of_negative_prices (p : Z) :
  - 2 ^ 127 < p < 0 -> Z.odd p = true -> median [p; p] = Val (Some (p + 1)).
Proof.
  intros Hp Hodd. unfold median.
  assert (merge_sort Z.le [p; p] = [p; p]) as ->.
  { apply (Sorted_unique Z.le); [apply Sorted_merge_sort, _|repeat constructor; lia|].
    apply merge_sort_Permutation. }
  cbn -[Z.quot Z.rem Z.add Z.eqb]. unfold price_checked_div, price_checked_add, in_i128.
  apply Z.odd_spec in Hodd as [q ->].
  assert (Z.quot (2 * q + 1) 2 = q + 1) as Hq.
  { replace (2 * q + 1) with (- (- q - 1 + (- q - 1) + 1)) by lia.
    rewrite Z.quot_opp_l, Z.quot_div_nonneg by lia.
    rewrite <- (Z.div_unique (- q - 1 + (- q - 1) + 1) 2 (- q - 1) 1) by lia. lia. }
  assert (Z.rem (2 * q + 1) 2 = -1) as Hr by (pose proof (Z.quot_rem' (2 * q + 1) 2); lia).
  rewrite Hq, Hr. set (B := 2 ^ 127) in *. clearbody B.
  replace ((- B <=? q + 1) && (q + 1 <? B)) with true
    by (symmetry; apply andb_true_iff; split; [apply Z.leb_le|apply Z.ltb_lt]; lia).
  cbn -[Z.add]. rewrite (proj2 (andb_true_iff (- B <=? q + 1 + (q + 1)) _))
    by (split; [apply Z.leb_le|apply Z.ltb_lt]; lia).
  cbn -[Z.add]. do 2 f_equal. lia.
Qed.
Lemma median_of_negative_prices_witness : median [-3; -3] = Val (Some (-2)).
Proof. apply (median_of_negative_prices (-3)); [lia|done]. Defined.

(** ** Quorums *)
Section votes.
Context `{Tendermint, VoteCodec}.

Definition voting_power (l : list ExtendedVoteInfo) : Z :=
  foldr (fun v n => val_power (ext_validator v) + n) 0 l.
Definition committed (v : ExtendedVoteInfo) : bool := bool_decide (ext_sig_info v = Flag Commit).
Definition committed_power (l : list ExtendedVoteInfo) : Z :=
  foldr (fun v n => (if committed v then val_power (ext_validator v) else 0) + n) 0 l.

(** A vote for the block carries the signature of its validator over its
    extension, any other vote carries nothing. *)
Definition vote_checked (s : State) (chain_id : string) (height round : Z) (v : ExtendedVoteInfo) : Prop :=
  if committed v then
    exists validator signature,
      validators (authority s) !! val_address (ext_validator v) = Some validator /\
      ext_signature v = Some signature /\
      ed25519_verify (verification_key validator) signature
        (encode_canonical_vote_extension (ext_vote_extension v) (height - 1) round chain_id) = true
  else ext_vote_extension v = "" /\ ext_signature v = None.

Lemma is_empty_true s : is_empty s = true -> s = "".
Proof. by destruct s. Qed.

Lemma tally_vote_done chain_id height round t v s t' s' :
  tally_vote chain_id height round t v s = (Done t', s') ->
  s' = s /\ vote_checked s chain_id height round v /\
  val_address (ext_validator v) ∉ validators_that_voted t /\
  validators_that_voted t' = {[val_address (ext_validator v)]} ∪ validators_that_voted t /\
  tally_total t' = tally_total t + val_power (ext_validator v) /\
  tally_submitted t' = tally_submitted t + (if committed v then val_power (ext_validator v) else 0).
Proof.
  intros Hs. unfold tally_vote, try_base_prefixed, get_base_prefix in Hs.
  unfold vote_checked, committed. run_inv Hs. simplify_eq.
  repeat match goal with H : _ /\ _ |- _ => destruct H end. simplify_eq.
  case_bool_decide as Hsig.
  - unfold validator_verification_key, get_validator in *. run_inv Hs. simplify_eq.
    repeat match goal with
           | H : checked_add _ _ _ = Some _ |- _ => apply checked_add_Some in H as [-> _]
           | H : bool_decide _ = true |- _ => apply bool_decide_eq_true in H
           | H : (if ?b then _ else _) = Some _ |- _ => destruct b; [|done]
           | H : checked_sub _ _ = Some _ |- _ => apply checked_sub_Some in H as [-> _]
           end.
    split_and!; try done. eauto.
  - run_inv Hs. simplify_eq.
    repeat match goal with
           | H : checked_add _ _ _ = Some _ |- _ => apply checked_add_Some in H as [-> _]
           | H : bool_decide _ = true |- _ => apply bool_decide_eq_true in H
           | H : is_empty _ = true |- _ => apply is_empty_true in H
           end.
    split_and!; try done. cbn; lia.
Qed.

Definition addresses (l : list ExtendedVoteInfo) : list address_bytes :=
  (fun v => val_address (ext_validator v)) <$> l.

Lemma tally_votes_done chain_id height round l t s t' s' :
  fold_each (tally_vote chain_id height round) t l s = (Done t', s') ->
  s' = s /\ Forall (vote_checked s chain_id height round) l /\
  NoDup (addresses l) /\ (forall a, a ∈ addresses l -> a ∉ validators_that_voted t) /\
  tally_total t' = tally_total t + voting_power l /\
  tally_submitted t' = tally_submitted t + committed_power l.
Proof.
  revert t. induction l as [|v l IH]; intros t Hs; cbn [fold_each] in Hs.
  - run_inv Hs. subst. split_and!; try done; [constructor|set_solver|cbn; lia..].
  - apply bind_done in Hs as (t1 & s1 & Hv & Hs).
    apply tally_vote_done in Hv as (-> & Hv & Hfresh & Hvoted & Htotal & Hsub).
    apply IH in Hs as (-> & Hl & Hnd & Hdis & Ht & Hc).
    unfold voting_power, committed_power in *. cbn [foldr].
    split_and!; [done|by constructor| | |lia|lia].
    + cbn. apply list.NoDup_cons. split; [|done]. intros Hin. apply (Hdis _ Hin). set_solver.
    + cbn. intros a [->|Hin]%elem_of_cons; [done|]. specialize (Hdis a Hin). set_solver.
Qed.

(** C25. Votes that pass the validation come from different validators, each
    vote for the block signed over its extension with the key the state has
    for the validator, and hold more than two thirds of the voting power. *)
Theorem validated_votes_are_a_quorum height info s s' :
  validate_vote_extensions height info s = (Done tt, s') ->
  exists chain,
    chain_id (app_data s) = Some chain /\
    NoDup (addresses (ext_votes info)) /\
    Forall (vote_checked s chain height (ext_round info)) (ext_votes info) /\
    2 * voting_power (ext_votes info) < 3 * committed_power (ext_votes info).
Proof.
  intros Hs. unfold validate_vote_extensions, get_chain_id in Hs.
  apply bind_done in Hs as (chain & s1 & Hchain & Hs). run_inv Hchain. simplify_eq.
  apply bind_done in Hs as (t & s2 & Ht & Hs).
  apply tally_votes_done in Ht as (-> & Hl & Hnd & _ & Htotal & Hsub).
  apply bind_done in Hs as ([] & s3 & Hz & Hs). run_inv Hz. subst s3.
  apply bind_done in Hs as (required & s4 & Hreq & Hs). run_inv Hreq. subst s4. run_inv Hs.
  exists chain. split_and!; [done..|].
  unfold required_voting_power in *.
  repeat match goal with
         | H : _ ≫= _ = Some _ |- _ => apply bind_Some in H as (? & ? & H)
         | H : checked_mul _ _ _ = Some _ |- _ => apply checked_mul_Some in H as [-> _]
         | H : checked_add _ _ _ = Some _ |- _ => apply checked_add_Some in H as [-> _]
         | H : (_ <=? _) = true |- _ => apply Z.leb_le in H
         end.
  cbn in Htotal, Hsub. rewrite Htotal, Hsub in *. Z.to_euclidean_division_equations; lia.
Qed.

(** ** From the proposer's votes to the other nodes' checks *)
Lemma bind_of_done {A B} (m : M A) (f : A -> M B) s a s1 :
  m s = (Done a, s1) -> (m ≫= f) s = f a s1.
Proof. unfold mbind, M_bind. by intros ->. Qed.
Lemma wrap_of_done {A} msg (m : M A) s a s1 : m s = (Done a, s1) -> wrap_err msg m s = (Done a, s1).
Proof. unfold wrap_err. by intros ->. Qed.

(** What pruning makes of a vote *)
Definition pruned_from (max : Z) (v p : ExtendedVoteInfo) : Prop :=
  (p = v /\ is_ok (verify_vote_extension (ext_vote_extension v) max) = true) \/ p = prune_vote v.

(** prost decodes the empty message. *)
Hypothesis decode_empty : decode_vote_extension "" = Some [].

Lemma prune_votes_done max l s pruned all s' :
  0 <= max -> prune_votes max l s = (Done (pruned, all), s') ->
  s' = s /\ Forall2 (pruned_from max) l pruned /\
  forall ids, vote_ids max ids pruned = Ok (all ∪ ids).
Proof.
  intros Hmax. revert pruned all s'. induction l as [|v l IH]; intros pruned all s' Hs; cbn in Hs.
  - run_inv Hs. simplify_eq. split_and!; [done|constructor|]. intros ids. cbn. do 2 f_equal. set_solver.
  - destruct (verify_vote_extension (ext_vote_extension v) max) as [new|] eqn:Hv.
    + apply bind_done in Hs as ([rest all'] & s1 & (-> & Hrest & Hids)%IH & Hs). run_inv Hs. simplify_eq.
      split_and!; [done| |].
      * constructor; [left; by rewrite Hv|done].
      * intros ids. cbn. rewrite Hv. cbn. rewrite Hids. f_equal. set_solver.
    + apply bind_done in Hs as (a & s1 & Ha & Hs). unfold try_base_prefixed, get_base_prefix in Ha.
      run_inv Ha. subst.
      apply bind_done in Hs as ([rest all'] & s2 & (-> & Hrest & Hids)%IH & Hs). run_inv Hs. simplify_eq.
      split_and!; [done| |].
      * constructor; [by right|done].
      * intros ids. cbn [vote_ids]. unfold verify_vote_extension. cbn [prune_vote ext_vote_extension].
        rewrite decode_empty. cbn [ok_or mbind result_bind List.length Z.of_nat]. rewrite (proj2 (Z.leb_le (Z.of_nat 0) max)) by done. cbn. rewrite Hids.
        f_equal. set_solver.
Qed.

Lemma pruned_votes_match max l pruned :
  Forall2 (pruned_from max) l pruned ->
  check_votes ((fun v => mk_vote (ext_validator v) (ext_sig_info v)) <$> l) pruned = Ok tt.
Proof.
  induction 1 as [|v p l pruned Hv _ IH]; [done|]. cbn [fmap list_fmap check_votes vote_validator vote_sig_info].
  destruct Hv as [[-> _]| ->]; cbn [prune_vote ext_validator ext_sig_info ext_vote_extension ext_signature].
  - rewrite Z.eqb_refl, (bool_decide_true (val_address _ = _)) by done.
    rewrite (bool_decide_true (ext_sig_info v = ext_sig_info v)) by done. cbn [ensure mbind result_bind].
    rewrite IH. by destruct (_ && _ && _).
  - rewrite Z.eqb_refl, (bool_decide_true (val_address _ = _)) by done.
    rewrite (bool_decide_true (Flag Absent = Flag Absent)), (bool_decide_true (None = None)) by done.
    cbn [ensure mbind result_bind is_empty andb]. by rewrite IH.
Qed.

Lemma id_pairs_done market_map l m s m' s' :
  fold_each (add_id_pair market_map) m l s = (Done m', s') -> s' = s /\ (unique m -> unique m').
Proof.
  revert m. induction l as [|i l IH]; intros m Hs; cbn [fold_each] in Hs.
  - run_inv Hs. by subst.
  - apply bind_done in Hs as (m1 & s1 & Hi & Hs). unfold add_id_pair, get_currency_pair in Hi.
    apply bind_done in Hi as (o & s2 & Ho & Hi). run_inv Ho. subst.
    destruct (id_pairs (oracle s) !! i); run_inv Hi; subst;
      apply IH in Hs as [-> Hm]; (split; [done|]); [|done].
    intros Hu. by apply Hm, index_insert_unique.
Qed.
Lemma id_to_currency_pair_done ids s m s' :
  get_id_to_currency_pair ids s = (Done m, s') -> s' = s /\ unique m.
Proof.
  unfold get_id_to_currency_pair, get_market_map. intros Hs.
  apply bind_done in Hs as (o & s1 & Ho & Hs). run_inv Ho. subst.
  apply bind_done in Hs as (mm & s2 & Hmm & Hs). run_inv Hmm. subst.
  apply id_pairs_done in Hs as [-> Hu]. split; [done|]. apply Hu. constructor.
Qed.
Lemma index_map_eqb_refl m : unique m -> index_map_eqb m m = true.
Proof.
  intros Hm. unfold index_map_eqb. rewrite Nat.eqb_refl. cbn. apply forallb_forall.
  intros [k v] Hin%list_elem_of_In. apply bool_decide_eq_true. by apply index_get_Some.
Qed.

(** What a proposer makes of the votes CometBFT gave it, pruning the invalid
    ones, passes the validation of any node with the same state: a proposal is
    never rejected for its extended commit info. *)
Lemma prepared_votes_validate height info s m s' :
  0 <= default 0 (num_pairs (oracle s)) ->
  handler_prepare_proposal height info s = (Done m, s') ->
  s' = s /\ unique (id_to_pair m) /\
  handler_validate_proposal height (commit_of_extended info) m s = (Done tt, s).
Proof.
  intros Hmax Hs. unfold handler_prepare_proposal in Hs. unfold handler_validate_proposal.
  destruct (height =? 1) eqn:Hh; [run_inv Hs; subst; split_and!; [done|constructor|done]|].
  apply bind_done in Hs as (max & s1 & Hm & Hs).
  pose proof Hm as Hm'. unfold get_max_num_currency_pairs, get_num_currency_pairs in Hm'.
  run_inv Hm'. subst max s1.
  apply bind_done in Hs as ([pruned all] & s2 & Hp & Hs).
  apply prune_votes_done in Hp as (-> & Hpruned & Hids); [|done].
  apply bind_done in Hs as ([] & s3 & Hv & Hs).
  assert (s3 = s) as ->.
  { apply wrap_err_done in Hv. unfold validate_vote_extensions, get_chain_id in Hv.
    apply bind_done in Hv as (? & ? & Hc & Hv). run_inv Hc. subst.
    apply bind_done in Hv as (? & ? & Ht & Hv). apply tally_votes_done in Ht as (-> & _).
    run_inv Hv. by subst. }
  apply bind_done in Hs as (mapping & s4 & Hmap & Hs). run_inv Hs. subst.
  apply wrap_err_done in Hmap. pose proof Hmap as [-> Hu]%id_to_currency_pair_done.
  split; [done|]. split; [done|]. cbn [commit_info id_to_pair ext_votes ext_round].
  case_bool_decide as Hempty.
  { unfold ensure_that. cbn [round commit_of_extended]. by rewrite Z.eqb_refl. }
  erewrite bind_of_done.
  2: { unfold lift, validate_extended_commit_against_last_commit. cbn [round votes commit_of_extended ext_round ext_votes].
       rewrite Z.eqb_refl. cbn [ensure mbind result_bind].
       rewrite length_fmap, (list.Forall2_length _ _ _ Hpruned), Nat.eqb_refl. cbn [ensure mbind result_bind].
       by rewrite (pruned_votes_match _ _ _ Hpruned). }
  erewrite bind_of_done by (eapply wrap_of_done, wrap_err_done, Hv).
  erewrite bind_of_done by exact Hm.
  erewrite bind_of_done by (apply wrap_of_done; unfold lift; by rewrite Hids).
  unfold validate_id_to_currency_pair_mapping.
  erewrite bind_of_done by (apply wrap_of_done; rewrite (right_id_L ∅ (∪)); exact Hmap).
  by rewrite index_map_eqb_refl.
Qed.

(** ** Prices that no block can carry *)
Lemma calculate_of_bad_price info pairs vote raw i p :
  vote ∈ ext_votes info -> decode_vote_extension (ext_vote_extension vote) = Some raw ->
  (i, p) ∈ raw -> String.length p <> 16%nat ->
  exists e, calculate_prices_from_vote_extensions info pairs = Val (Err e).
Proof.
  intros Hvote Hraw Hp Hlen. unfold calculate_prices_from_vote_extensions.
  destruct (try_collect vote_prices (ext_votes info)) as [vs|e] eqn:Hc; [|by exists e].
  apply try_collect_Ok in Hc. apply list_elem_of_lookup in Hvote as [k Hk].
  destruct (Forall2_lookup_l _ _ _ _ _ Hc Hk) as (v & _ & Hv).
  unfold vote_prices in Hv. rewrite Hraw in Hv. cbn in Hv.
  unfold oracle_vote_extension_try_from_raw in Hv.
  destruct (try_collect vote_price_try_from raw) as [ps|] eqn:Hps; [|done].
  apply try_collect_Ok in Hps. apply list_elem_of_lookup in Hp as [j Hj].
  destruct (Forall2_lookup_l _ _ _ _ _ Hps Hj) as (q & _ & Hq).
  unfold vote_price_try_from, price_try_from in Hq. cbn [fst snd] in Hq.
  by rewrite (proj2 (Nat.eqb_neq _ _) Hlen) in Hq.
Qed.

(** A vote extension with one price that is not 16 bytes long makes the
    prices of the whole block fail to apply, which [finalize_block] does not
    survive; the validation only asks for at most 33 bytes (see the witness). *)
Theorem price_of_wrong_length_fails m timestamp height s vote raw i p :
  vote ∈ ext_votes (commit_info m) -> decode_vote_extension (ext_vote_extension vote) = Some raw ->
  (i, p) ∈ raw -> String.length p <> 16%nat ->
  exists e, apply_prices_from_vote_extensions m timestamp height s = (Fail e, s).
Proof.
  intros Hvote Hraw Hp Hlen. unfold apply_prices_from_vote_extensions.
  destruct (calculate_of_bad_price _ (id_to_pair m) _ _ _ _ Hvote Hraw Hp Hlen) as [e ->].
  eexists. reflexivity.
Qed.
End votes.

(** * Concrete votes

    A chain with one validator and one currency pair; the properties of the
    price feed applied to its vote extensions.  The toy encoding of a vote is
    the digit of an id followed by a price. *)

Definition vote_codec : VoteCodec := {|
  decode_vote_extension := fun s =>
    match s with
    | EmptyString => Some []
    | String c p => Some [(Z.of_nat (nat_of_ascii c) - 48, p)]
    end;
  encode_vote_extension := fun l =>
    match l with (i, p) :: _ => String (ascii_of_nat (Z.to_nat (i + 48))) p | [] => "" end;
  encode_canonical_vote_extension := fun ext _ _ chain => ext ++ chain |}.
Lemma vote_codec_empty : @decode_vote_extension vote_codec "" = Some [].
Proof. reflexivity. Qed.
#[local] Existing Instance block_tendermint.
#[local] Existing Instance vote_codec.

Definition btc_usd : CurrencyPair := mk_pair "BTC" "USD".
Definition btc_market : Market := mk_market (mk_ticker btc_usd 8 1 true "") [].
Definition vote_state : State :=
  on_authority (fun _ => mk_authority (Some alice) None {[ alice := mk_validator 10 "alicekey" "alice" ]} (Some 1) None)
    (on_oracle (fun _ => mk_oracle {[ btc_usd := mk_pair_state None 0 0 ]} {[ btc_usd := 0 ]}
                           {[ 0 := btc_usd ]} (Some 1) (Some 1))
      (on_markets (fun _ => mk_markets (Some [("BTC/USD", btc_market)]) None) demo_state)).

(** Alice's vote with an extension, signed *)
Definition alices_vote (ext : string) : ExtendedVoteInfo :=
  mk_ext_vote (mk_abci_validator alice 10) (Flag Commit) ext (Some ("alicekey" ++ ext ++ "astria-1")).
Definition alices_commit (ext : string) : ExtendedCommitInfo := mk_ext_commit 0 [alices_vote ext].
Definition btc_mapping : IndexMap Z CurrencyPairInfo := [(0, mk_pair_info btc_usd 8)].

Definition finished {A} (r : outcome A * State) : bool :=
  match r.1 with Done _ => true | _ => false end.
Lemma finished_unit (m : M unit) s :
  finished (m s) = true -> m s = (Done tt, (m s).2).
Proof. unfold finished. by destruct (m s) as [[[]| |] s']. Qed.
Definition done_value {A} (d : A) (r : outcome A * State) : A :=
  match r.1 with Done a => a | _ => d end.
Lemma finished_value {A} (d : A) (m : M A) s :
  finished (m s) = true -> m s = (Done (done_value d (m s)), (m s).2).
Proof. unfold finished, done_value. by destruct (m s) as [[] s']. Qed.

Lemma demo_votes_validate :
  finished (validate_vote_extensions 5 (alices_commit "0price of 16 byte") vote_state) = true.
Proof. by vm_compute. Qed.
Lemma validated_votes_are_a_quorum_witness :
  2 * voting_power [alices_vote "0price of 16 byte"] < 3 * committed_power [alices_vote "0price of 16 byte"].
Proof.
  destruct (validated_votes_are_a_quorum 5 (alices_commit "0price of 16 byte") vote_state _
              (finished_unit _ _ demo_votes_validate)) as (chain & _ & _ & _ & Hq). exact Hq.
Defined.

(** The mapping a run of the handler returns *)
Definition no_mapping : CommitMapping := mk_mapping (mk_ext_commit 0 []) [].
Definition prepared : CommitMapping :=
  done_value no_mapping (handler_prepare_proposal 5 (alices_commit "0price of 16 byte") vote_state).
Lemma prepared_votes_validate_witness :
  id_to_pair prepared = btc_mapping /\
  handler_validate_proposal 5 (commit_of_extended (alices_commit "0price of 16 byte")) prepared vote_state
  = (Done tt, vote_state).
Proof.
  split; [by vm_compute|].
  apply (prepared_votes_validate vote_codec_empty 5 (alices_commit "0price of 16 byte") vote_state prepared
           (handler_prepare_proposal 5 (alices_commit "0price of 16 byte") vote_state).2).
  - by vm_compute.
  - apply (finished_value no_mapping). by vm_compute.
Defined.

(** A price of one byte is validated, and then the prices cannot be applied. *)
Lemma price_of_wrong_length_fails_witness :
  let m := mk_mapping (alices_commit "01") btc_mapping in
  finished (handler_validate_proposal 5 (commit_of_extended (alices_commit "01")) m vote_state) = true /\
  exists e, apply_prices_from_vote_extensions m 7 5 vote_state = (Fail e, vote_state).
Proof.
  split; [by vm_compute|].
  apply (price_of_wrong_length_fails (mk_mapping (alices_commit "01") btc_mapping) 7 5 vote_state
           (alices_vote "01") [(0, "1")] 0 "1"); [by left|reflexivity|by left|done].
Defined.
