(* ===== verification/Proposal.v ===== *)
(** * Executing the transactions of a proposal

    [proposal/block_size_constraints.rs] and the part of [app/mod.rs] that
    runs the transactions of a block: [prepare_proposal_tx_execution] fills a
    block from the mempool, [process_proposal_tx_execution] checks a block
    someone else filled, both through [proposal_checks_and_tx_execution]. *)
From S2P Require Import Prelude Denom Types State Chain Ics20 Relay Transact BTree Mempool.
From stdpp Require Import base list option strings gmap numbers pretty tactics.
From Stdlib Require Import ZArith Lia Ascii String.
Open Scope string_scope.
Open Scope Z_scope.

(** ** block_size_constraints.rs: sizes are [usize] *)
Definition MAX_SEQUENCE_DATA_BYTES_PER_BLOCK : Z := 256000.

Record BlockSizeConstraints := mk_size {
  max_size_sequencer : Z;
  max_size_cometbft : Z;
  current_size_sequencer : Z;
  current_size_cometbft : Z }.

(** [GeneratedCommitments::total_size]: twice a hash, with the two bytes of
    tag and length of a data item where they are used. *)
Definition total_size (uses_data_item_enum : bool) : Z :=
  if uses_data_item_enum then (32 + 2) + (32 + 2) else 64.

Definition block_size_new (cometbft_max_size : Z) (uses_data_item_enum : bool)
    : result Report BlockSizeConstraints :=
  ensure (0 <=? cometbft_max_size) ["failed to convert cometbft_max_size to usize"];;
  ensure (negb (cometbft_max_size <? total_size uses_data_item_enum))
    ["cometbft_max_size must be at least GeneratedCommitments::TOTAL_SIZE"];;
  Ok (mk_size MAX_SEQUENCE_DATA_BYTES_PER_BLOCK cometbft_max_size 0 (total_size uses_data_item_enum)).
Definition new_unlimited_cometbft : BlockSizeConstraints :=
  mk_size MAX_SEQUENCE_DATA_BYTES_PER_BLOCK (umax 64) 0 (total_size true).

Definition sequencer_has_space (size : Z) (c : BlockSizeConstraints) : bool :=
  size <=? saturating_sub (max_size_sequencer c) (current_size_sequencer c).
Definition cometbft_has_space (size : Z) (c : BlockSizeConstraints) : bool :=
  size <=? saturating_sub (max_size_cometbft c) (current_size_cometbft c).
Definition sequencer_checked_add (size : Z) (c : BlockSizeConstraints)
    : result Report BlockSizeConstraints :=
  new_size ← ok_or ["overflow adding to sequencer size"]
               (checked_add 64 (current_size_sequencer c) size);
  ensure (new_size <=? max_size_sequencer c) ["max sequencer size reached"];;
  Ok (mk_size (max_size_sequencer c) (max_size_cometbft c) new_size (current_size_cometbft c)).
Definition cometbft_checked_add (size : Z) (c : BlockSizeConstraints)
    : result Report BlockSizeConstraints :=
  new_size ← ok_or ["overflow adding to cometBFT size"]
               (checked_add 64 (current_size_cometbft c) size);
  ensure (new_size <=? max_size_cometbft c) ["max cometBFT size reached"];;
  Ok (mk_size (max_size_sequencer c) (max_size_cometbft c) (current_size_sequencer c) new_size).

(** ** Results of transactions: [ExecTxResult] and the codes of [protocol/abci.rs] *)
Record ExecTxResult := mk_tx_result {
  result_code : Z;
  result_info : string;
  result_log : Report;
  result_events : list Event }.
Definition default_tx_result : ExecTxResult := mk_tx_result 0 "" [] [].
Definition executed_result (evs : list Event) : ExecTxResult := mk_tx_result 0 "" [] evs.
Definition INTERNAL_ERROR : Z * string := (3, "an internal server error occurred").
Definition INVALID_NONCE : Z * string := (4, "the provided nonce was invalid").

(** [e.downcast_ref::<InvalidNonce>()].  Reports are their messages in the model, so
    that the error is known by the text it prints; no other error of the crate has it. *)
Definition is_invalid_nonce (tx : Transaction) (e : Report) : bool :=
  bool_decide
    (("provided nonce " ++ pretty (tx_nonce tx) ++ " does not match expected next nonce") ∈ e).

(** ** The proposal under construction, or under inspection *)
Inductive Proposal :=
| Prepare (block_size_constraints : BlockSizeConstraints) (validated_txs : list string)
    (included_signed_txs : list Transaction) (failed_tx_count : Z)
    (execution_results : list ExecTxResult) (excluded_txs : Z) (current_tx_group : Group)
    (mempool : Mempool)
| Process (block_size_constraints : BlockSizeConstraints) (execution_results : list ExecTxResult)
    (current_tx_group : Group).

Definition proposal_constraints (p : Proposal) : BlockSizeConstraints :=
  match p with Prepare c _ _ _ _ _ _ _ => c | Process c _ _ => c end.
Definition proposal_group (p : Proposal) : Group :=
  match p with Prepare _ _ _ _ _ _ g _ => g | Process _ _ g => g end.
Definition proposal_results (p : Proposal) : list ExecTxResult :=
  match p with Prepare _ _ _ _ r _ _ _ => r | Process _ r _ => r end.
Definition set_constraints (c : BlockSizeConstraints) (p : Proposal) : Proposal :=
  match p with
  | Prepare _ v i f r x g m => Prepare c v i f r x g m
  | Process _ r g => Process c r g
  end.
Definition set_current_tx_group (g : Group) (p : Proposal) : Proposal :=
  match p with
  | Prepare c v i f r x _ m => Prepare c v i f r x g m
  | Process c r _ => Process c r g
  end.
Definition push_result (res : ExecTxResult) (p : Proposal) : Proposal :=
  match p with
  | Prepare c v i f r x g m => Prepare c v i f (r ++ [res])%list x g m
  | Process c r g => Process c (r ++ [res])%list g
  end.
(** [validated_txs.push(..)] and [included_signed_txs.push(..)] *)
Definition push_included (tx : Transaction) (p : Proposal) : Proposal :=
  match p with
  | Prepare c v i f r x g m => Prepare c (v ++ [tx_encoded tx])%list (i ++ [tx])%list f r x g m
  | Process _ _ _ => p
  end.
Definition exclude (p : Proposal) : Proposal :=
  match p with
  | Prepare c v i f r x g m => Prepare c v i f r (saturating_add 64 x 1) g m
  | Process _ _ _ => p
  end.

Inductive BreakOrContinue := Break | Continue.

(** What the loops work on: the state and the app's [recost_mempool] flag *)
Record Execution := mk_execution { ex_state : State; ex_recost : bool }.

Section proposal.
Context `{External, Relay}.

Definition is_fee_action (a : Action) : bool :=
  match a with Action_FeeAssetChange _ | Action_FeeChange _ => true | _ => false end.
Definition flags_recost (tx : Transaction) : bool :=
  is_bundleable_sudo (transaction_group tx) && existsb is_fee_action (tx_actions tx).
(** [App::execute_transaction] *)
Definition app_execute_transaction (tx : Transaction) (x : Execution)
    : outcome (list Event) * Execution :=
  match execute_transaction tx (ex_state x) with
  | (Done evs, s) => (Done evs, mk_execution s (ex_recost x || flags_recost tx))
  | (Fail e, s) => (Fail e, mk_execution s (ex_recost x))
  | (Crash, s) => (Crash, mk_execution s (ex_recost x))
  end.

Definition sequence_data_bytes (tx : Transaction) : Z :=
  fold_left (fun acc a => match a with
    | Action_RollupDataSubmission s => saturating_add 64 acc (Z.of_nat (String.length (rds_data s)))
    | _ => acc
    end) (tx_actions tx) 0.
Definition tx_len (tx : Transaction) : Z := Z.of_nat (String.length (tx_encoded tx)).

(** The bookkeeping of a transaction that executed *)
Definition include_tx (tx : Transaction) (evs : list Event) (p : Proposal) : result Report Proposal :=
  let p := push_result (executed_result evs) p in
  c ← map_err (cons "error growing sequencer block size")
        (sequencer_checked_add (sequence_data_bytes tx) (proposal_constraints p));
  c ← map_err (cons "error growing cometBFT block size") (cometbft_checked_add (tx_len tx) c);
  Ok (set_current_tx_group (transaction_group tx) (push_included tx (set_constraints c p))).

(** The end of a transaction that failed: in a block that is being prepared it
    leaves the mempool, unless its nonce was wrong. *)
Definition drop_failed (tx : Transaction) (e : Report) (p : Proposal) : outcome Proposal :=
  match p with
  | Prepare c v i f r x _ m =>
      let g := transaction_group tx in
      if is_invalid_nonce tx e then Done (Prepare c v i f r x g m)
      else
        match remove_tx_invalid tx (FailedPrepareProposal (default "" (head e))) m with
        | Val m => Done (Prepare c v i (saturating_add 64 f 1) r x g m)
        | _ => Crash
        end
  | Process _ _ _ => Fail ("transaction failed to execute" :: e)
  end.

Definition proposal_checks_and_tx_execution (tx : Transaction) (p : Proposal) (x : Execution)
    : outcome (BreakOrContinue * Proposal) * Execution :=
  let excluded (b : BreakOrContinue) (msg : string) :=
    match p with
    | Prepare _ _ _ _ _ _ _ _ => (Done (b, exclude p), x)
    | Process _ _ _ => (Fail [msg], x)
    end in
  if match p with
     | Prepare c _ _ _ _ _ _ _ => negb (cometbft_has_space (tx_len tx) c)
     | Process _ _ _ => false
     end then excluded Break ""
  else if negb (sequencer_has_space (sequence_data_bytes tx) (proposal_constraints p)) then
    excluded Continue "max block sequenced data limit passed"
  else if group_discriminant (proposal_group p) <? group_discriminant (transaction_group tx) then
    excluded Continue "transactions have incorrect transaction group ordering"
  else
    match app_execute_transaction tx x with
    | (Done evs, x) =>
        match include_tx tx evs p with
        | Ok p => (Done (Continue, p), x)
        | Err e => (Fail e, x)
        end
    | (Fail e, x) =>
        match drop_failed tx e p with
        | Done p => (Done (Continue, p), x)
        | Fail e => (Fail e, x)
        | Crash => (Crash, x)
        end
    | (Crash, x) => (Crash, x)
    end.

(** The loop over the transactions, in either mode *)
Fixpoint execute_proposal (l : list Transaction) (p : Proposal) (x : Execution)
    : outcome Proposal * Execution :=
  match l with
  | [] => (Done p, x)
  | tx :: l =>
      match proposal_checks_and_tx_execution tx p x with
      | (Done (Break, p), x) => (Done p, x)
      | (Done (Continue, p), x) => execute_proposal l p x
      | (Fail e, x) => (Fail e, x)
      | (Crash, x) => (Crash, x)
      end
  end.

(** The transactions included, their results, and the mempool that is left *)
Record Prepared := mk_prepared {
  prepared_bytes : list string;
  prepared_txs : list Transaction;
  prepared_results : list ExecTxResult;
  prepared_mempool : Mempool }.
Definition prepare_proposal_tx_execution (c : BlockSizeConstraints) (m : Mempool) (x : Execution)
    : outcome Prepared * Execution :=
  match execute_proposal (mempool_builder_queue m).*2
          (Prepare c [] [] 0 [] 0 BundleableGeneral m) x with
  | (Done (Prepare _ v i _ r _ _ m), x) => (Done (mk_prepared v i r m), x)
  | (Done (Process _ _ _), x) => (Fail ["expected `Proposal::Prepare`, received `Proposal::Process`"], x)
  | (Fail e, x) => (Fail e, x)
  | (Crash, x) => (Crash, x)
  end.
Definition process_proposal_tx_execution (txs : list Transaction) (c : BlockSizeConstraints)
    (x : Execution) : outcome (list ExecTxResult) * Execution :=
  match execute_proposal txs (Process c [] BundleableGeneral) x with
  | (Done p, x) => (Done (proposal_results p), x)
  | (Fail e, x) => (Fail e, x)
  | (Crash, x) => (Crash, x)
  end.

(** The loop of [finalize_block]: every transaction is executed, whatever
    happens to it. *)
Fixpoint finalize_tx_execution (txs : list Transaction) (x : Execution)
    : outcome (list ExecTxResult) * Execution :=
  match txs with
  | [] => (Done [], x)
  | tx :: txs =>
      let after (r : ExecTxResult) (x : Execution) :=
        match finalize_tx_execution txs x with
        | (Done rs, x) => (Done (r :: rs), x)
        | (Fail e, x) => (Fail e, x)
        | (Crash, x) => (Crash, x)
        end in
      match app_execute_transaction tx x with
      | (Done evs, x) => after (executed_result evs) x
      | (Fail e, x) =>
          let '(code, info) := if is_invalid_nonce tx e then INVALID_NONCE else INTERNAL_ERROR in
          after (mk_tx_result code info e []) x
      | (Crash, x) => (Crash, x)
      end
  end.
End proposal.
