(* ===== verification/ProposalTheorems.v ===== *)
(** * Properties of proposals

    What a proposer includes is accepted by every other node, with the same
    results and the same state, and fits the block; preparing a block never
    ends in an error. *)
From S2P Require Import Prelude Denom Types State Chain Ics20 Relay Transact BTree Mempool Proposal.
From stdpp Require Import base list option strings sets gmap sorting numbers pretty tactics.
From Stdlib Require Import ZArith Lia Ascii String.
Open Scope string_scope.
Open Scope Z_scope.

Section proposals.
Context `{External, Relay}.

(** ** Sizes *)
(** The invariant of the constraints: nothing exceeds its limit, and no limit
    exceeds the largest [i64] ([usize] for a block that is checked). *)
Record size_ok (c : BlockSizeConstraints) : Prop := {
  size_sequencer : 0 <= current_size_sequencer c <= max_size_sequencer c;
  size_sequencer_max : max_size_sequencer c = MAX_SEQUENCE_DATA_BYTES_PER_BLOCK;
  size_cometbft : 0 <= current_size_cometbft c <= max_size_cometbft c;
  size_cometbft_max : max_size_cometbft c < 2 ^ 64 }.

Lemma block_size_new_ok n uses c :
  n < 2 ^ 63 -> block_size_new n uses = Ok c ->
  size_ok c /\ max_size_cometbft c = n /\ current_size_cometbft c = total_size uses /\
  current_size_sequencer c = 0.
Proof.
  unfold block_size_new. intros Hn Hc. destruct (Z.leb_spec 0 n) as [Hz|]; [|done].
  destruct (Z.ltb_spec n (total_size uses)) as [|Hle]; [done|]. injection Hc as <-.
  split; [|done]. split; cbn; try (unfold MAX_SEQUENCE_DATA_BYTES_PER_BLOCK; lia).
  destruct uses; cbn in *; lia.
Qed.
Lemma unlimited_ok : size_ok new_unlimited_cometbft.
Proof. split; cbn; unfold MAX_SEQUENCE_DATA_BYTES_PER_BLOCK, umax; lia. Qed.
Lemma cometbft_add_ok n c c' :
  0 <= n -> size_ok c -> cometbft_checked_add n c = Ok c' ->
  size_ok c' /\ current_size_cometbft c' = current_size_cometbft c + n /\
  max_size_cometbft c' = max_size_cometbft c /\ current_size_sequencer c' = current_size_sequencer c.
Proof.
  unfold cometbft_checked_add, checked_add. intros Hn [H1 H2 H3 H4] Hc.
  destruct (_ <? _); [cbn in Hc|done]. destruct (Z.leb_spec (current_size_cometbft c + n) (max_size_cometbft c)); [|done].
  cbn in Hc. injection Hc as <-. split; [|done]. split; cbn; lia.
Qed.

Lemma tx_len_nonneg tx : 0 <= tx_len tx.
Proof. unfold tx_len. lia. Qed.
Lemma sequence_data_nonneg tx : 0 <= sequence_data_bytes tx.
Proof.
  unfold sequence_data_bytes. set (f := fun _ _ => _). assert (0 <= 0) as Hz by lia. revert Hz.
  generalize 0 at 2 4 as z. induction (tx_actions tx) as [|a l IH]; intros z Hz; [done|]. cbn.
  apply IH. unfold f. destruct a; try done. unfold saturating_add, umax. lia.
Qed.

(** Taking in a transaction for which there is space *)
Definition take_size (tx : Transaction) (c : BlockSizeConstraints) : BlockSizeConstraints :=
  mk_size (max_size_sequencer c) (max_size_cometbft c)
    (current_size_sequencer c + sequence_data_bytes tx) (current_size_cometbft c + tx_len tx).
Lemma take_size_ok tx c :
  size_ok c -> sequencer_has_space (sequence_data_bytes tx) c = true ->
  current_size_cometbft c + tx_len tx <= max_size_cometbft c ->
  size_ok (take_size tx c) /\
  forall p evs, proposal_constraints p = c ->
    include_tx tx evs p =
    Ok (set_current_tx_group (transaction_group tx)
          (push_included tx (set_constraints (take_size tx c) (push_result (executed_result evs) p)))).
Proof.
  unfold sequencer_has_space, saturating_sub. intros [H1 H2 H3 H4] Hs%Z.leb_le Hc.
  pose proof (sequence_data_nonneg tx). pose proof (tx_len_nonneg tx).
  split; [split; cbn; lia|].
  intros p evs Hp. unfold include_tx.
  assert (proposal_constraints (push_result (executed_result evs) p) = c) as -> by (by destruct p).
  unfold sequencer_checked_add, cometbft_checked_add, checked_add.
  unfold MAX_SEQUENCE_DATA_BYTES_PER_BLOCK in *.
  rewrite (proj2 (Z.ltb_lt (current_size_sequencer c + _) _)) by lia. cbn [ok_or mbind result_bind].
  rewrite (proj2 (Z.leb_le (current_size_sequencer c + _) _)) by lia. cbn [ensure map_err mbind result_bind].
  cbn [current_size_cometbft max_size_cometbft current_size_sequencer max_size_sequencer].
  rewrite (proj2 (Z.ltb_lt (current_size_cometbft c + _) _)) by lia. cbn [ok_or mbind result_bind].
  rewrite (proj2 (Z.leb_le (current_size_cometbft c + _) _)) by lia. done.
Qed.

Lemma execute_failed tx x e x' : app_execute_transaction tx x = (Fail e, x') -> x' = x.
Proof.
  unfold app_execute_transaction, execute_transaction. intros Hx.
  destruct (transaction_check_stateless tx).
  - destruct (transaction_check_and_execute _ _) as [[] ?]; simplify_eq; by destruct x.
  - simplify_eq. by destruct x.
Qed.

(** ** One transaction of a block that is prepared *)
Definition group_le (g g' : Group) : Prop := group_discriminant g <= group_discriminant g'.
Definition total_len (txs : list Transaction) : Z := foldr (fun tx n => tx_len tx + n) 0 txs.

Inductive prepare_step (tx : Transaction) (c : BlockSizeConstraints) (v : list string)
    (i : list Transaction) (r : list ExecTxResult) (g : Group) (e : Execution) :
    outcome (BreakOrContinue * Proposal) * Execution -> Prop :=
| step_leave b f x g' m :
    group_le g' g -> prepare_step tx c v i r g e (Done (b, Prepare c v i f r x g' m), e)
| step_take evs e' f x m :
    app_execute_transaction tx e = (Done evs, e') -> group_le (transaction_group tx) g ->
    sequencer_has_space (sequence_data_bytes tx) c = true ->
    current_size_cometbft c + tx_len tx <= max_size_cometbft c ->
    prepare_step tx c v i r g e
      (Done (Continue, Prepare (take_size tx c) (v ++ [tx_encoded tx])%list (i ++ [tx])%list f
                         (r ++ [executed_result evs])%list x (transaction_group tx) m), e')
| step_crash e' : prepare_step tx c v i r g e (Crash, e').

Lemma group_le_refl g : group_le g g.
Proof. unfold group_le. lia. Qed.
Hint Resolve group_le_refl : core.

Lemma prepare_step_cases tx c v i f r x g m e :
  size_ok c ->
  prepare_step tx c v i r g e
    (proposal_checks_and_tx_execution tx (Prepare c v i f r x g m) e).
Proof.
  intros Hc. unfold proposal_checks_and_tx_execution.
  cbn [proposal_constraints proposal_group exclude].
  destruct (cometbft_has_space (tx_len tx) c) eqn:Hcomet; cbn [negb]; [|by apply step_leave].
  destruct (sequencer_has_space (sequence_data_bytes tx) c) eqn:Hseq; cbn [negb]; [|by apply step_leave].
  destruct (Z.ltb_spec (group_discriminant g) (group_discriminant (transaction_group tx))) as [|Hg];
    [by apply step_leave|].
  destruct (app_execute_transaction tx e) as [[evs|err|] e'] eqn:He; [| |constructor].
  - unfold cometbft_has_space, saturating_sub in Hcomet. apply Z.leb_le in Hcomet.
    assert (current_size_cometbft c + tx_len tx <= max_size_cometbft c) as Hlen
      by (destruct Hc; pose proof (tx_len_nonneg tx); lia).
    destruct (take_size_ok tx c Hc Hseq Hlen) as [_ Hinc].
    rewrite (Hinc _ evs) by done. cbn. by constructor.
  - apply execute_failed in He as ->. cbn [drop_failed]. destruct (is_invalid_nonce tx err); [by apply step_leave|].
    destruct (remove_tx_invalid _ _ _); [by apply step_leave|constructor..].
Qed.

(** ** The transactions of a block

    [runs g n txs res e e']: the transactions execute one after the other,
    their groups do not rise above [g], and their rollup data fits in what [n]
    bytes leave of the limit. *)
Inductive runs : Group -> Z -> list Transaction -> list ExecTxResult -> Execution -> Execution -> Prop :=
| runs_nil g n e : runs g n [] [] e e
| runs_cons g n tx txs evs res e e1 e2 :
    app_execute_transaction tx e = (Done evs, e1) -> group_le (transaction_group tx) g ->
    n + sequence_data_bytes tx <= MAX_SEQUENCE_DATA_BYTES_PER_BLOCK ->
    runs (transaction_group tx) (n + sequence_data_bytes tx) txs res e1 e2 ->
    runs g n (tx :: txs) (executed_result evs :: res) e e2.

Lemma runs_mono g g' n txs res e e' : group_le g g' -> runs g n txs res e e' -> runs g' n txs res e e'.
Proof. intros Hg. destruct 1; econstructor; eauto. unfold group_le in *. lia. Qed.

Lemma prepare_runs l c v i f r x g m e :
  size_ok c ->
  match execute_proposal l (Prepare c v i f r x g m) e with
  | (Done p, e') => exists txs res c' f' x' g' m',
      p = Prepare c' (v ++ (tx_encoded <$> txs)) (i ++ txs) f' (r ++ res) x' g' m' /\
      current_size_cometbft c + total_len txs <= max_size_cometbft c /\
      runs g (current_size_sequencer c) txs res e e' /\ txs ⊆ l
  | (Fail _, _) => False
  | (Crash, _) => True
  end.
Proof.
  revert c v i f r x g m e. induction l as [|tx l IH]; intros c v i f r x g m e Hc; cbn [execute_proposal].
  - exists [], [], c, f, x, g, m. cbn. rewrite !app_nil_r, Z.add_0_r. split_and!; [done|apply Hc|constructor|set_solver].
  - destruct (prepare_step_cases tx c v i f r x g m e Hc)
      as [b f1 x1 g1 m1 Hg|evs e1 f1 x1 m1 He Hg Hseq Hlen|e1]; [| |done].
    + destruct b.
      * exists [], [], c, f1, x1, g1, m1. cbn. rewrite !app_nil_r, Z.add_0_r.
        split_and!; [done|apply Hc|constructor|set_solver].
      * specialize (IH c v i f1 r x1 g1 m1 e Hc). case_match. case_match; [|done..].
        destruct IH as (txs & res & c' & f' & x' & g' & m' & -> & Hl & Hr & Hsub).
        exists txs, res, c', f', x', g', m'. split_and!; [done..| |set_solver]. by eapply runs_mono.
    + destruct (take_size_ok tx c Hc Hseq Hlen) as [Hc1 _].
      specialize (IH (take_size tx c) (v ++ [tx_encoded tx])%list (i ++ [tx])%list f1 (r ++ [executed_result evs])%list
                    x1 (transaction_group tx) m1 e1 Hc1).
      case_match. case_match; [|done..].
      destruct IH as (txs & res & c' & f' & x' & g' & m' & -> & Hl & Hr & Hsub). cbn in Hl, Hr.
      exists (tx :: txs), (executed_result evs :: res), c', f', x', g', m'.
      rewrite <- !app_assoc. cbn [fmap list_fmap app total_len foldr] in *. fold (total_len txs) in *.
      split_and!; [done|lia| |set_solver]. eapply runs_cons; [done|done| |done].
      destruct Hc as [Hs1 Hs2 _ _]. unfold sequencer_has_space, saturating_sub in Hseq.
      apply Z.leb_le in Hseq. pose proof (sequence_data_nonneg tx). lia.
Qed.

Lemma process_runs g n txs res e e' :
  runs g n txs res e e' -> forall c r g',
  size_ok c -> current_size_sequencer c = n -> group_le g g' ->
  current_size_cometbft c + total_len txs <= max_size_cometbft c ->
  exists c' g'', execute_proposal txs (Process c r g') e = (Done (Process c' (r ++ res)%list g''), e').
Proof.
  induction 1 as [g n e|g n tx txs evs res e e1 e2 He Hg Hn Hr IH]; intros c r g' Hc Hsz Hle Hlen.
  - exists c, g'. cbn. by rewrite app_nil_r.
  - cbn [total_len foldr] in Hlen. fold (total_len txs) in Hlen.
    assert (0 <= total_len txs) as Hpos
      by (clear; induction txs as [|t l IH]; cbn; [lia|pose proof (tx_len_nonneg t); unfold total_len in IH; lia]).
    assert (sequencer_has_space (sequence_data_bytes tx) c = true) as Hseq.
    { unfold sequencer_has_space, saturating_sub. apply Z.leb_le. destruct Hc as [? Hm _ _]. lia. }
    destruct (take_size_ok tx c Hc Hseq) as [Hc1 Hinc]; [lia|].
    destruct (IH (take_size tx c) (r ++ [executed_result evs])%list (transaction_group tx))
      as (c' & g'' & Hx); [done|cbn; lia|unfold group_le; lia|cbn; lia|].
    exists c', g''. cbn [execute_proposal]. unfold proposal_checks_and_tx_execution.
    cbn [proposal_constraints proposal_group]. rewrite Hseq. cbn [negb].
    rewrite (proj2 (Z.ltb_ge _ _)) by (unfold group_le in *; lia).
    rewrite He, (Hinc _ evs) by done. cbn [push_result set_constraints push_included set_current_tx_group].
    rewrite Hx. by rewrite <- app_assoc.
Qed.

Lemma finalize_runs g n txs res e e' :
  runs g n txs res e e' -> finalize_tx_execution txs e = (Done res, e').
Proof.
  induction 1 as [|g n tx txs evs res e e1 e2 He Hg Hn Hr IH]; [done|]. cbn. by rewrite He, IH.
Qed.

Lemma include_done tx evs c r g p :
  include_tx tx evs (Process c r g) = Ok p ->
  p = Process (take_size tx c) (r ++ [executed_result evs])%list (transaction_group tx) /\
  current_size_sequencer c + sequence_data_bytes tx <= max_size_sequencer c.
Proof.
  unfold include_tx, sequencer_checked_add, cometbft_checked_add, checked_add, ensure. intros Hp. cbn in Hp.
  repeat (case_match; cbn in Hp; try done). simplify_eq.
  repeat match goal with H : (_ <=? _) = true |- _ => apply Z.leb_le in H end. done.
Qed.

Lemma accepted_runs txs c r g e p e' :
  max_size_sequencer c = MAX_SEQUENCE_DATA_BYTES_PER_BLOCK ->
  execute_proposal txs (Process c r g) e = (Done p, e') ->
  exists res, proposal_results p = (r ++ res)%list /\
    runs g (current_size_sequencer c) txs res e e'.
Proof.
  revert c r g e. induction txs as [|tx txs IH]; intros c r g e Hmax Hp; cbn [execute_proposal] in Hp.
  - simplify_eq. exists []. cbn. rewrite app_nil_r. split; [done|constructor].
  - unfold proposal_checks_and_tx_execution in Hp. cbn [proposal_constraints proposal_group] in Hp.
    destruct (sequencer_has_space _ _); cbn [negb] in Hp; [|done].
    destruct (Z.ltb_spec (group_discriminant g) (group_discriminant (transaction_group tx))) as [|Hg]; [done|].
    destruct (app_execute_transaction tx e) as [[evs|err|] e1] eqn:He; [|done..].
    destruct (include_tx tx evs (Process c r g)) as [p1|] eqn:Hinc; [|done].
    apply include_done in Hinc as [-> Hle].
    apply IH in Hp as (res & Hres & Hr); [|done]. exists (executed_result evs :: res).
    split; [by rewrite Hres, <- app_assoc|]. econstructor; [done|done|lia|exact Hr].
Qed.

(** ** What the transactions of an accepted block have in common *)
Definition block_sequence_data (txs : list Transaction) : Z :=
  foldr (fun tx n => sequence_data_bytes tx + n) 0 txs.
Lemma runs_shape g n txs res e e' :
  runs g n txs res e e' ->
  Forall (fun r => result_code r = 0) res /\ List.length res = List.length txs /\
  StronglySorted (fun a b => group_le (transaction_group b) (transaction_group a)) txs /\
  Forall (fun tx => group_le (transaction_group tx) g) txs /\
  (n <= MAX_SEQUENCE_DATA_BYTES_PER_BLOCK -> n + block_sequence_data txs <= MAX_SEQUENCE_DATA_BYTES_PER_BLOCK).
Proof.
  induction 1 as [g n e|g n tx txs evs res e e1 e2 He Hg Hn Hr (IHc & IHl & IHs & IHg & IHn)].
  - split_and!; try constructor; try done. cbn. lia.
  - cbn [List.length]. split_and!; [by constructor|by f_equal|by constructor| |].
    + constructor; [done|]. eapply list.Forall_impl; [exact IHg|]. unfold group_le in *. cbn. lia.
    + intros _. cbn [block_sequence_data foldr]. specialize (IHn Hn). unfold block_sequence_data in IHn. lia.
Qed.

(** What a proposer includes: transactions of the mempool, which run on an
    unlimited node as they did on its own *)
Lemma prepared_execution c m x p x' :
  size_ok c -> current_size_sequencer c = 0 -> total_size false <= current_size_cometbft c ->
  max_size_cometbft c < 2 ^ 63 ->
  prepare_proposal_tx_execution c m x = (Done p, x') ->
  prepared_bytes p = tx_encoded <$> prepared_txs p /\
  current_size_cometbft c + total_len (prepared_txs p) <= max_size_cometbft c /\
  prepared_txs p ⊆ (mempool_builder_queue m).*2 /\
  runs BundleableGeneral 0 (prepared_txs p) (prepared_results p) x x' /\
  process_proposal_tx_execution (prepared_txs p) new_unlimited_cometbft x = (Done (prepared_results p), x').
Proof.
  intros Hc Hz Hlow Hmax. unfold prepare_proposal_tx_execution.
  pose proof (prepare_runs (mempool_builder_queue m).*2 c [] [] 0 [] 0 BundleableGeneral m x Hc) as Hp.
  destruct (execute_proposal _ _ _) as [[q| |] e]; [|done..].
  destruct Hp as (txs & res & c' & f & x1 & g & m' & -> & Hl & Hr & Hsub). intros [= <- <-].
  cbn [prepared_bytes prepared_txs prepared_results app]. cbn in Hlow. rewrite Hz in Hr.
  destruct (process_runs _ _ _ _ _ _ Hr new_unlimited_cometbft [] BundleableGeneral unlimited_ok) as (c'' & g'' & Hx);
    [done..|cbn; unfold umax; lia|].
  split_and!; [done..|]. unfold process_proposal_tx_execution. by rewrite Hx.
Qed.

(** ** The properties *)

(** C24. The transactions a proposer includes fit the size CometBFT asked for,
    are passed on in their encoded form, and execute on every other node - to
    check the block and, from scratch, to finalize it - with the same results
    and the same state: the transactions it left out have no effect. *)
Theorem prepared_transactions_are_accepted c m x p x' :
  size_ok c -> current_size_sequencer c = 0 -> total_size false <= current_size_cometbft c ->
  max_size_cometbft c < 2 ^ 63 ->
  prepare_proposal_tx_execution c m x = (Done p, x') ->
  prepared_bytes p = tx_encoded <$> prepared_txs p /\
  current_size_cometbft c + total_len (prepared_txs p) <= max_size_cometbft c /\
  process_proposal_tx_execution (prepared_txs p) new_unlimited_cometbft x = (Done (prepared_results p), x') /\
  finalize_tx_execution (prepared_txs p) x = (Done (prepared_results p), x').
Proof.
  intros Hc Hz Hlow Hmax Hp. destruct (prepared_execution _ _ _ _ _ Hc Hz Hlow Hmax Hp) as (? & ? & _ & Hr & ?).
  split_and!; [done..|]. by eapply finalize_runs.
Qed.

(** Filling a block never ends in an error: whatever the mempool holds, the
    outcome is a block (or a panic of the code it calls). *)
Theorem preparation_never_fails c m x e :
  size_ok c -> (prepare_proposal_tx_execution c m x).1 <> Fail e.
Proof.
  intros Hc. unfold prepare_proposal_tx_execution.
  pose proof (prepare_runs (mempool_builder_queue m).*2 c [] [] 0 [] 0 BundleableGeneral m x Hc) as Hp.
  destruct (execute_proposal _ _ _) as [[q| |] e1]; [|done..].
  by destruct Hp as (txs & res & c' & f & x1 & g & m' & -> & _).
Qed.

(** The transactions of a block a node accepts all execute, in groups that
    do not rise, with at most 256000 bytes of rollup data; finalizing the block
    from scratch gives the same results and the same state. *)
Theorem accepted_transactions_finalize txs x res x' :
  process_proposal_tx_execution txs new_unlimited_cometbft x = (Done res, x') ->
  finalize_tx_execution txs x = (Done res, x') /\
  Forall (fun r => result_code r = 0) res /\ List.length res = List.length txs /\
  StronglySorted (fun a b => group_le (transaction_group b) (transaction_group a)) txs /\
  block_sequence_data txs <= MAX_SEQUENCE_DATA_BYTES_PER_BLOCK.
Proof.
  unfold process_proposal_tx_execution. destruct (execute_proposal _ _ _) as [[p| |] e] eqn:Hp; [|done..].
  intros [= <- <-]. apply accepted_runs in Hp as (res & Hres & Hr); [|done].
  rewrite Hres. cbn [app]. pose proof (runs_shape _ _ _ _ _ _ Hr) as (Hc & Hl & Hs & _ & Hn).
  split_and!; [by eapply finalize_runs|done..|]. cbn in Hn. apply Hn. done.
Qed.
End proposals.
