(* ===== verification/BlockStore.v ===== *)
(** * Stored blocks

    [sequencer/src/grpc/state_ext.rs]: a sequencer block is stored in parts,
    under the keys of [grpc/storage/keys.rs], and read back part by part. *)
From S2P Require Import Prelude Denom Types State Chain Ics20.
From S2P Require Import Wire WireActions WireLaws WireTransaction Collections.
From S2P Require Import MerkleIndex MerkleTree MerkleAudit Block SequencerBlock.
From stdpp Require Import base list option strings gmap numbers tactics.
From Stdlib Require Import ZArith Lia Ascii String Strings.Byte.
Open Scope string_scope.
Open Scope Z_scope.

Section store.
Context `{BlockCodec}.

(** One map per kind of key; block hashes are keys as text. *)
Record BlockStore := mk_block_store {
  st_block_hash : gmap Z hash;
  st_block_header : gmap string SequencerBlockHeader;
  st_rollup_ids : gmap string (list RollupId);
  st_rollup_data : gmap (string * RollupId) RollupTransactions;
  st_rollup_txs_proof : gmap string Proof;
  st_rollup_ids_proof : gmap string Proof;
  st_upgrade_change_hashes : gmap string (list hash);
  st_extended_commit_info : gmap string string;
  st_extended_commit_info_proof : gmap string Proof }.
Definition empty_block_store : BlockStore := mk_block_store ∅ ∅ ∅ ∅ ∅ ∅ ∅ ∅ ∅.

Definition put_block_hash (height : Z) (block_hash : hash) (s : BlockStore) : BlockStore :=
  mk_block_store (<[height := block_hash]> (st_block_hash s)) (st_block_header s) (st_rollup_ids s)
    (st_rollup_data s) (st_rollup_txs_proof s) (st_rollup_ids_proof s)
    (st_upgrade_change_hashes s) (st_extended_commit_info s) (st_extended_commit_info_proof s).
Definition put_rollup_ids (k : string) (ids : list RollupId) (s : BlockStore) : BlockStore :=
  mk_block_store (st_block_hash s) (st_block_header s) (<[k := ids]> (st_rollup_ids s))
    (st_rollup_data s) (st_rollup_txs_proof s) (st_rollup_ids_proof s)
    (st_upgrade_change_hashes s) (st_extended_commit_info s) (st_extended_commit_info_proof s).
Definition put_block_header (k : string) (h : SequencerBlockHeader) (s : BlockStore) : BlockStore :=
  mk_block_store (st_block_hash s) (<[k := h]> (st_block_header s)) (st_rollup_ids s)
    (st_rollup_data s) (st_rollup_txs_proof s) (st_rollup_ids_proof s)
    (st_upgrade_change_hashes s) (st_extended_commit_info s) (st_extended_commit_info_proof s).
Definition put_rollup_transactions (k : string) (s : BlockStore) (kv : RollupId * RollupTransactions)
    : BlockStore :=
  mk_block_store (st_block_hash s) (st_block_header s) (st_rollup_ids s)
    (<[(k, kv.1) := kv.2]> (st_rollup_data s)) (st_rollup_txs_proof s) (st_rollup_ids_proof s)
    (st_upgrade_change_hashes s) (st_extended_commit_info s) (st_extended_commit_info_proof s).
Definition put_rollups_transactions (k : string) (l : IndexMap RollupId RollupTransactions)
    (s : BlockStore) : BlockStore := fold_left (put_rollup_transactions k) l s.
Definition put_rollups_transactions_proof (k : string) (p : Proof) (s : BlockStore) : BlockStore :=
  mk_block_store (st_block_hash s) (st_block_header s) (st_rollup_ids s)
    (st_rollup_data s) (<[k := p]> (st_rollup_txs_proof s)) (st_rollup_ids_proof s)
    (st_upgrade_change_hashes s) (st_extended_commit_info s) (st_extended_commit_info_proof s).
Definition put_rollup_ids_proof (k : string) (p : Proof) (s : BlockStore) : BlockStore :=
  mk_block_store (st_block_hash s) (st_block_header s) (st_rollup_ids s)
    (st_rollup_data s) (st_rollup_txs_proof s) (<[k := p]> (st_rollup_ids_proof s))
    (st_upgrade_change_hashes s) (st_extended_commit_info s) (st_extended_commit_info_proof s).
Definition put_upgrade_change_hashes (k : string) (l : list hash) (s : BlockStore) : BlockStore :=
  mk_block_store (st_block_hash s) (st_block_header s) (st_rollup_ids s)
    (st_rollup_data s) (st_rollup_txs_proof s) (st_rollup_ids_proof s)
    (<[k := l]> (st_upgrade_change_hashes s)) (st_extended_commit_info s) (st_extended_commit_info_proof s).
Definition put_extended_commit_info (k info : string) (s : BlockStore) : BlockStore :=
  mk_block_store (st_block_hash s) (st_block_header s) (st_rollup_ids s)
    (st_rollup_data s) (st_rollup_txs_proof s) (st_rollup_ids_proof s)
    (st_upgrade_change_hashes s) (<[k := info]> (st_extended_commit_info s)) (st_extended_commit_info_proof s).
Definition put_extended_commit_info_proof (k : string) (p : Proof) (s : BlockStore) : BlockStore :=
  mk_block_store (st_block_hash s) (st_block_header s) (st_rollup_ids s)
    (st_rollup_data s) (st_rollup_txs_proof s) (st_rollup_ids_proof s)
    (st_upgrade_change_hashes s) (st_extended_commit_info s) (<[k := p]> (st_extended_commit_info_proof s)).

Definition put_sequencer_block (b : SequencerBlock) (s : BlockStore) : BlockStore :=
  let k := text_of (sb_block_hash b) in
  let s := put_block_hash (header_height (sb_header b)) (sb_block_hash b) s in
  let s := put_rollup_ids k (sb_rollup_transactions b).*1 s in
  let s := put_block_header k (sb_header b) s in
  let s := put_rollups_transactions k (sb_rollup_transactions b) s in
  let s := put_rollups_transactions_proof k (sb_rollup_transactions_proof b) s in
  let s := put_rollup_ids_proof k (sb_rollup_ids_proof b) s in
  let s := if bool_decide (sb_upgrade_change_hashes b = []) then s
           else put_upgrade_change_hashes k (sb_upgrade_change_hashes b) s in
  match sb_extended_commit_info b with
  | Some e => put_extended_commit_info_proof k (ecp_proof e) (put_extended_commit_info k (ecp_encoded e) s)
  | None => s
  end.

(** ** Reading: an error report, or a panic on stored data that does not decode *)
Definition found {A} (o : option A) (msg : string) : attempt Report A :=
  checked (ok_or [msg] o).
Definition with_context {A} (msg : string) (m : attempt Report A) : attempt Report A :=
  attempt_err (cons msg) m.

Definition get_block_hash_by_height (height : Z) (s : BlockStore) : attempt Report hash :=
  found (st_block_hash s !! height) "block hash not found for given height".
Definition get_sequencer_block_header_by_hash (k : string) (s : BlockStore)
    : attempt Report SequencerBlockHeader :=
  found (st_block_header s !! k) "header not found for given block hash".
Definition get_rollup_ids_by_block_hash (k : string) (s : BlockStore) : attempt Report (list RollupId) :=
  found (st_rollup_ids s !! k) "rollup IDs not found for given block hash".
Definition get_rollup_data (k : string) (s : BlockStore) (i : RollupId) : attempt Report RollupTransactions :=
  found (st_rollup_data s !! (k, i)) "rollup transactions not found for given block hash and rollup ID".
Definition get_rollup_transactions_proof_by_block_hash (k : string) (s : BlockStore) : attempt Report Proof :=
  found (st_rollup_txs_proof s !! k) "rollup transactions proof not found for given block hash".
Definition get_rollup_ids_proof_by_block_hash (k : string) (s : BlockStore) : attempt Report Proof :=
  found (st_rollup_ids_proof s !! k) "rollup IDs proof not found for given block hash".
Definition get_upgrade_change_hashes (k : string) (s : BlockStore) : list hash :=
  default [] (st_upgrade_change_hashes s !! k).

(** [ExtendedCommitInfoWithProof::unchecked_from_parts] *)
Definition commit_proof_unchecked_from_parts (encoded : string) (proof : Proof)
    : run ExtendedCommitInfoWithProof :=
  raw ← unwrap (decode_commit_mapping encoded);
  match mapping_try_from_raw raw with
  | Ok info => mret (mk_commit_proof info encoded proof)
  | Err _ => Panic
  end.
Definition get_extended_commit_info_with_proof (k : string) (s : BlockStore)
    : attempt Report (option ExtendedCommitInfoWithProof) :=
  match st_extended_commit_info s !! k, st_extended_commit_info_proof s !! k with
  | Some info, Some proof =>
      e ← running (commit_proof_unchecked_from_parts info proof); mret (Some e)
  | None, None => mret None
  | Some _, None => checked (Err ["extended commit info stored without proof"])
  | None, Some _ => checked (Err ["extended commit info not stored, but proof is"])
  end.

Definition get_sequencer_block_by_hash (h : hash) (s : BlockStore) : attempt Report SequencerBlock :=
  let k := text_of h in
  header ← with_context "failed to get sequencer block header by hash"
             (get_sequencer_block_header_by_hash k s);
  rollup_ids ← with_context "failed to get rollup ids by block hash" (get_rollup_ids_by_block_hash k s);
  txs_proof ← with_context "failed to get rollup transactions proof by block hash"
                (get_rollup_transactions_proof_by_block_hash k s);
  ids_proof ← with_context "failed to get rollup ids proof by block hash"
                (get_rollup_ids_proof_by_block_hash k s);
  info ← with_context "failed to get extended commit info with proof"
           (get_extended_commit_info_with_proof k s);
  txs ← attempt_collect (fun i => t ← with_context "failed to get rollup data" (get_rollup_data k s i);
                                  mret (i, t)) rollup_ids;
  mret (mk_block h header (index_collect txs) txs_proof ids_proof (get_upgrade_change_hashes k s) info).
Definition get_sequencer_block_by_height (height : Z) (s : BlockStore) : attempt Report SequencerBlock :=
  h ← with_context "failed to get block hash by height" (get_block_hash_by_height height s);
  with_context "failed to get sequencer block by hash" (get_sequencer_block_by_hash h s).

(** ** What is put is what is read *)
Lemma put_rollups_transactions_lookup k l s :
  unique l ->
  let s' := put_rollups_transactions k l s in
  (forall i t, (i, t) ∈ l -> st_rollup_data s' !! (k, i) = Some t) /\
  (forall i, i ∉ l.*1 -> st_rollup_data s' !! (k, i) = st_rollup_data s !! (k, i)) /\
  s' = mk_block_store (st_block_hash s) (st_block_header s) (st_rollup_ids s) (st_rollup_data s')
         (st_rollup_txs_proof s) (st_rollup_ids_proof s) (st_upgrade_change_hashes s)
         (st_extended_commit_info s) (st_extended_commit_info_proof s).
Proof.
  unfold put_rollups_transactions, unique. revert s.
  induction l as [|[i t] l IH]; intros s Hl; cbn [fold_left].
  - split_and!; [set_solver|done|by destruct s].
  - cbn in Hl. apply list.NoDup_cons in Hl as [Hi Hl].
    destruct (IH (put_rollup_transactions k s (i, t)) Hl) as (Hin & Hout & Heq).
    split_and!; [| |exact Heq].
    + intros j u [[= -> ->]|Hj]%elem_of_cons; [|by apply Hin].
      rewrite (Hout i Hi). cbn. by rewrite lookup_insert_eq.
    + cbn. intros j [Hne Hj]%not_elem_of_cons. rewrite (Hout j Hj). cbn.
      apply lookup_insert_ne. congruence.
Qed.

(** What a block that is stored has to be: its rollups are different, and its
    commit info decodes to what it carries. *)
Definition storable (b : SequencerBlock) : Prop :=
  unique (sb_rollup_transactions b) /\
  forall e, sb_extended_commit_info b = Some e ->
    exists raw, decode_commit_mapping (ecp_encoded e) = Some raw /\ mapping_try_from_raw raw = Ok (ecp_info e).
(** No other block is stored under its hash. *)
Definition unstored (b : SequencerBlock) (s : BlockStore) : Prop :=
  let k := text_of (sb_block_hash b) in
  st_upgrade_change_hashes s !! k = None /\ st_extended_commit_info s !! k = None /\
  st_extended_commit_info_proof s !! k = None.

Lemma put_sequencer_block_parts b s :
  storable b -> unstored b s ->
  let k := text_of (sb_block_hash b) in
  let s' := put_sequencer_block b s in
  st_block_hash s' !! header_height (sb_header b) = Some (sb_block_hash b) /\
  st_block_header s' !! k = Some (sb_header b) /\
  st_rollup_ids s' !! k = Some (sb_rollup_transactions b).*1 /\
  (forall i t, (i, t) ∈ sb_rollup_transactions b -> st_rollup_data s' !! (k, i) = Some t) /\
  st_rollup_txs_proof s' !! k = Some (sb_rollup_transactions_proof b) /\
  st_rollup_ids_proof s' !! k = Some (sb_rollup_ids_proof b) /\
  st_upgrade_change_hashes s' !! k =
    (if bool_decide (sb_upgrade_change_hashes b = []) then None else Some (sb_upgrade_change_hashes b)) /\
  st_extended_commit_info s' !! k = ecp_encoded <$> sb_extended_commit_info b /\
  st_extended_commit_info_proof s' !! k = ecp_proof <$> sb_extended_commit_info b.
Proof.
  intros [Hu _] (Hn1 & Hn2 & Hn3) k. unfold put_sequencer_block. fold k.
  set (s1 := put_block_header _ _ _).
  destruct (put_rollups_transactions_lookup k (sb_rollup_transactions b) s1 Hu) as (Hdata & _ & Heq).
  rewrite Heq. set (data := st_rollup_data _) in *. clearbody data. clear Heq. subst s1.
  destruct (sb_extended_commit_info b); case_bool_decide; cbn; rewrite ?lookup_insert_eq;
    split_and!; done.
Qed.

Lemma read_rollups_back k l s :
  (forall i t, (i, t) ∈ l -> st_rollup_data s !! (k, i) = Some t) ->
  attempt_collect (fun i => t ← with_context "failed to get rollup data" (get_rollup_data k s i);
                            mret (i, t)) l.*1 = Val (Ok l).
Proof.
  intros Hl. apply attempt_collect_Ok. induction l as [|[i t] l IH]; cbn; constructor.
  - unfold get_rollup_data. by rewrite (Hl i t) by left.
  - apply IH. intros j u Hj. apply Hl. by right.
Qed.

Lemma default_unless_empty (h : list hash) :
  default [] (if bool_decide (h = []) then None else Some h) = h.
Proof. case_bool_decide as Hh; [by rewrite Hh|done]. Qed.

(** A stored block is read back, by its height, exactly as it was stored. *)
Theorem stored_block_is_read_back b s :
  storable b -> unstored b s ->
  get_sequencer_block_by_height (header_height (sb_header b)) (put_sequencer_block b s) = Val (Ok b).
Proof.
  intros Hb Hs.
  destruct (put_sequencer_block_parts b s Hb Hs) as (Hh & Hhd & Hids & Hdata & Htp & Hip & Hch & Hi & Hp).
  destruct Hb as [Hu Hinfo]. set (s' := put_sequencer_block b s) in *. clearbody s'.
  unfold get_sequencer_block_by_height, get_block_hash_by_height. rewrite Hh.
  cbn [found ok_or checked with_context attempt_err map_err]. rewrite attempt_bind_ret.
  unfold get_sequencer_block_by_hash, get_sequencer_block_header_by_hash, get_rollup_ids_by_block_hash,
    get_rollup_transactions_proof_by_block_hash, get_rollup_ids_proof_by_block_hash,
    get_extended_commit_info_with_proof, get_upgrade_change_hashes.
  rewrite Hhd, Hids, Htp, Hip, Hch, Hi, Hp.
  cbn [found ok_or checked with_context attempt_err map_err]. rewrite !attempt_bind_ret.
  rewrite default_unless_empty, (read_rollups_back _ _ _ Hdata).
  destruct b as [bh hd txs tp ip ch [[info encoded proof]|]]; cbn in *.
  - destruct (Hinfo _ eq_refl) as (raw & Hraw & Hok). cbn in Hraw, Hok.
    unfold commit_proof_unchecked_from_parts. rewrite Hraw. cbn. rewrite Hok. cbn.
    change (fold_left _ txs []) with (index_collect txs). by rewrite (index_collect_unique _ Hu).
  - change (fold_left _ txs []) with (index_collect txs). by rewrite (index_collect_unique _ Hu).
Qed.
End store.
