(* ===== verification/App.v ===== *)
(** * The application

    [sequencer/src/app/mod.rs]: the state between blocks and the handlers of
    the ABCI requests, from the proposal of a block to its commit.  A handler
    runs in [AppM]: it changes the app and ends with a value, an error or a
    panic.  Storage is the snapshot of the last commit with its blocks. *)
From S2P Require Import Prelude Denom Types State Chain Accounts Ics20 Authority Relay Transact BTree Mempool.
From S2P Require Import Wire WireActions WireLaws WireTransaction Collections.
From S2P Require Import MerkleIndex MerkleTree MerkleAudit Block SequencerBlock BlockBuild.
From S2P Require Import ExecutionState Upgrades VoteExtension Proposal BlockStore.
From stdpp Require Import base list option strings gmap numbers tactics.
From Stdlib Require Import ZArith Lia Ascii String.
Open Scope string_scope.
Open Scope Z_scope.

(** The encoding of commit infos, and the root hash of a store *)
Class AppCodec `{BlockCodec} := {
  encode_commit_mapping : RawCommitMapping -> string;
  root_hash : State -> string }.

(** The data of a block under execution: what the requests have in common *)
Record BlockData := mk_block_data {
  bd_misbehavior : list Misbehavior;
  bd_height : Z;
  bd_time : Time;
  bd_next_validators_hash : TmHash;
  bd_proposer_address : address_bytes }.

Record PostTransactionExecutionResult := mk_post_results {
  post_events : list Event;
  post_tx_results : list ExecTxResult;
  post_validator_updates : ValidatorSet;
  post_consensus_param_updates : option ConsensusParams }.

Record FinalizeBlockResponse := mk_finalize_response {
  fr_events : list Event;
  fr_tx_results : list ExecTxResult;
  fr_validator_updates : ValidatorSet;
  fr_consensus_param_updates : option ConsensusParams;
  fr_app_hash : string }.

Section app.
Context `{AppCodec, VoteCodec, Borsh, Relay}.

(** [InterBlockState]: the store, the stored blocks, and the two results that
    are kept in the ephemeral storage. *)
Record AppState := mk_app_state {
  ledger : State;
  block_store : BlockStore;
  execution_results : option (list ExecTxResult);
  post_execution_result : option PostTransactionExecutionResult }.
Record Storage := mk_storage {
  snapshot : State;
  snapshot_blocks : BlockStore;
  latest_version : Z }.

Record App := mk_app {
  state : AppState;
  app_mempool : Mempool;
  execution_state : ExecutionState;
  recost_mempool : bool;
  write_batch : option (State * BlockStore);
  app_hash : string;
  upgrades_handler : UpgradesHandler;
  vote_extension_handler : Handler;
  storage : Storage }.

Definition upd_state (f : AppState -> AppState) (a : App) : App :=
  mk_app (f (state a)) (app_mempool a) (execution_state a) (recost_mempool a) (write_batch a)
    (app_hash a) (upgrades_handler a) (vote_extension_handler a) (storage a).
Definition upd_app_mempool (f : Mempool -> Mempool) (a : App) : App :=
  mk_app (state a) (f (app_mempool a)) (execution_state a) (recost_mempool a) (write_batch a)
    (app_hash a) (upgrades_handler a) (vote_extension_handler a) (storage a).
Definition upd_execution_state (f : ExecutionState -> ExecutionState) (a : App) : App :=
  mk_app (state a) (app_mempool a) (f (execution_state a)) (recost_mempool a) (write_batch a)
    (app_hash a) (upgrades_handler a) (vote_extension_handler a) (storage a).
Definition upd_recost_mempool (f : bool -> bool) (a : App) : App :=
  mk_app (state a) (app_mempool a) (execution_state a) (f (recost_mempool a)) (write_batch a)
    (app_hash a) (upgrades_handler a) (vote_extension_handler a) (storage a).
Definition upd_write_batch (f : option (State * BlockStore) -> option (State * BlockStore)) (a : App) : App :=
  mk_app (state a) (app_mempool a) (execution_state a) (recost_mempool a) (f (write_batch a))
    (app_hash a) (upgrades_handler a) (vote_extension_handler a) (storage a).
Definition upd_app_hash (f : string -> string) (a : App) : App :=
  mk_app (state a) (app_mempool a) (execution_state a) (recost_mempool a) (write_batch a)
    (f (app_hash a)) (upgrades_handler a) (vote_extension_handler a) (storage a).
Definition upd_storage (f : Storage -> Storage) (a : App) : App :=
  mk_app (state a) (app_mempool a) (execution_state a) (recost_mempool a) (write_batch a)
    (app_hash a) (upgrades_handler a) (vote_extension_handler a) (f (storage a)).
Definition upd_ledger (f : State -> State) (s : AppState) : AppState :=
  mk_app_state (f (ledger s)) (block_store s) (execution_results s) (post_execution_result s).

(** ** The effect of a handler *)
Definition AppM (A : Type) : Type := App -> outcome A * App.
#[export] Instance AppM_ret : MRet AppM := fun A a app => (Done a, app).
#[export] Instance AppM_bind : MBind AppM := fun A B f m app =>
  match m app with
  | (Done a, app) => f a app
  | (Fail e, app) => (Fail e, app)
  | (Crash, app) => (Crash, app)
  end.
Definition app_gets {A} (f : App -> A) : AppM A := fun app => (Done (f app), app).
Definition app_modify (f : App -> App) : AppM unit := fun app => (Done tt, f app).
Definition app_bail {A} (e : Report) : AppM A := fun app => (Fail e, app).
Definition app_ensure (b : bool) (msg : string) : AppM unit := if b then mret tt else app_bail [msg].
Definition app_wrap {A} (msg : string) (m : AppM A) : AppM A := fun app =>
  match m app with
  | (Fail e, app) => (Fail (msg :: e), app)
  | r => r
  end.
Definition app_result {A} (r : result Report A) : AppM A :=
  match r with Ok a => mret a | Err e => app_bail e end.
Definition app_run {A} (r : run A) : AppM A := fun app =>
  match r with Val a => (Done a, app) | Panic | NoFuel => (Crash, app) end.
Definition app_attempt {E A} (report : E -> Report) (r : attempt E A) : AppM A :=
  r ← app_run r; app_result (map_err report r).
Definition app_expect {A} (o : option A) : AppM A := app_run (unwrap o).
(** A computation that only reads the state *)
Definition reading {A} (m : M A) : AppM A := fun app => ((m (ledger (state app))).1, app).
(** A computation on a [StateDelta] over the state that is applied, if it
    succeeds; its events are returned and not kept. *)
Definition on_delta {A} (m : M A) : AppM (A * list Event) := fun app =>
  match m (on_events (fun _ => []) (ledger (state app))) with
  | (Done a, s) =>
      (Done (a, events s),
       upd_state (upd_ledger (fun old => on_events (fun _ => events old) s)) app)
  | (Fail e, _) => (Fail e, app)
  | (Crash, _) => (Crash, app)
  end.

(** ** Rounds *)
(** What a snapshot lacks of the state it is made from: the ephemeral objects *)
Definition clear_ephemeral (s : State) : State :=
  on_bridge (upd_cached_deposits (fun _ => ∅))
    (on_fees (upd_block_fees (fun _ => None)) (on_tx_context (fun _ => None) (on_events (fun _ => []) s))).
Definition latest_snapshot (st : Storage) : AppState :=
  mk_app_state (snapshot st) (snapshot_blocks st) None None.

Definition update_state_for_new_round : AppM unit :=
  app_modify (fun a => upd_state (fun _ => latest_snapshot (storage a)) a);;
  app_modify (upd_execution_state (fun _ => Unset)).

Definition uses_data_item_enum (height : Z) : AppM bool :=
  app_gets (fun a => match aspen (handler_upgrades (upgrades_handler a)) with
                     | Some u => aspen_activation_height u <=? height
                     | None => false
                     end).

Definition params_enable_height (p : ConsensusParams) : Z := default 0 (vote_extensions_enable_height p).
Definition VOTE_EXTENSIONS_DISABLED_HEIGHT : Z := 0.
Definition vote_extensions_enabled (block_height : Z) : AppM bool :=
  o ← app_wrap "failed to get consensus params from storage" (reading get_consensus_params);
  let h := match o with Some p => params_enable_height p | None => 0 end in
  mret (negb (h =? VOTE_EXTENSIONS_DISABLED_HEIGHT) && (h <? block_height)).

(** The delta of the upgrade is dropped when none was due. *)
Definition execute_due_upgrade (height : Z) : AppM (list string) :=
  upgrades_handler ← app_gets upgrades_handler;
  before ← app_gets state;
  '(hashes, _) ← app_wrap "failed to execute upgrade"
                   (on_delta (execute_upgrade_if_due upgrades_handler height));
  (if bool_decide (hashes = []) then app_modify (upd_state (fun _ => before)) else mret tt);;
  mret hashes.
Definition begin_block_delta (d : BlockData) : AppM unit :=
  _ ← app_wrap "begin_block failed"
        (on_delta (app_begin_block (bd_height d) (bd_time d)
           ((fun m => val_address (misbehavior_validator m)) <$> bd_misbehavior d)));
  mret tt.
Definition pre_execute_transactions (d : BlockData) : AppM (list string) :=
  hashes ← execute_due_upgrade (bd_height d);
  _ ← app_wrap "failed to get chain ID from state" (reading get_chain_id);
  app_modify (upd_recost_mempool (fun _ => false));;
  begin_block_delta d;;
  mret hashes.

(** Running the transactions: the ledger and the flag go in and come out. *)
Definition on_execution {A} (m : Execution -> outcome A * Execution) : AppM A := fun app =>
  let '(r, x) := m (mk_execution (ledger (state app)) (recost_mempool app)) in
  (r, upd_recost_mempool (fun _ => ex_recost x) (upd_state (upd_ledger (fun _ => ex_state x)) app)).

Definition cached_block_deposits : AppM (list (RollupId * list Deposit)) :=
  app_gets (fun a => map_to_list (cached_deposits (bridge (ledger (state a))))).

(** ** prepare_proposal *)
Definition item_len (s : string) : Z := Z.of_nat (String.length s).
(** The change hashes as the items of a block *)
Definition encode_change_hashes (hashes : list string) : option string :=
  if bool_decide (hashes = []) then None
  else Some (data_item_encode (DataItem_UpgradeChangeHashes (bytes_of <$> hashes))).
Definition encode_commit_info (m : CommitMapping) : string :=
  data_item_encode (DataItem_ExtendedCommitInfo (encode_commit_mapping (mapping_into_raw m))).

(** The votes CometBFT collected, or none of them when they are not valid *)
Definition proposed_commit_info (height : Z) (last_commit : ExtendedCommitInfo) : AppM CommitMapping :=
  fun app =>
  match handler_prepare_proposal height last_commit (ledger (state app)) with
  | (Done m, _) => (Done m, app)
  | (Fail _, _) => (Done (mk_mapping (mk_ext_commit (ext_round last_commit) []) []), app)
  | (Crash, _) => (Crash, app)
  end.
(** The item of the commit info, an empty one if it does not fit *)
Definition fit_commit_info (m : CommitMapping) (c : BlockSizeConstraints)
    : result Report (string * BlockSizeConstraints) :=
  let encoded := encode_commit_info m in
  match cometbft_checked_add (item_len encoded) c with
  | Ok c => Ok (encoded, c)
  | Err _ =>
      let empty := data_item_encode (DataItem_ExtendedCommitInfo "") in
      c ← map_err (cons "exceeded size limit while adding empty extended commit info")
            (cometbft_checked_add (item_len empty) c);
      Ok (empty, c)
  end.
Definition prepare_commit_info (request : PrepareProposal) (c : BlockSizeConstraints)
    : AppM (option string * BlockSizeConstraints) :=
  enabled ← vote_extensions_enabled (prep_height request);
  if enabled : bool then
    last_commit ← app_result (ok_or ["local last commit is empty; this should not occur"]
                                (prep_local_last_commit request));
    m ← proposed_commit_info (prep_height request) last_commit;
    '(encoded, c) ← app_result (fit_commit_info m c);
    mret (Some encoded, c)
  else mret (None, c).

Definition prepared_block_data (r : PrepareProposal) : BlockData :=
  mk_block_data (prep_misbehavior r) (prep_height r) (prep_time r) (prep_next_validators_hash r)
    (prep_proposer_address r).

Definition start_constraints (request : PrepareProposal) (uses : bool) (hashes : option string)
    : result Report BlockSizeConstraints :=
  c ← map_err (cons "failed to create block size constraints")
        (block_size_new (prep_max_tx_bytes request) uses);
  match hashes with
  | Some bytes => map_err (cons "exceeded size limit while adding upgrade change hashes")
                    (cometbft_checked_add (item_len bytes) c)
  | None => Ok c
  end.

Definition execute_prepared (c : BlockSizeConstraints) : AppM Proposal.Prepared :=
  m ← app_gets app_mempool;
  p ← app_wrap "failed to execute transactions" (on_execution (prepare_proposal_tx_execution c m));
  app_modify (upd_app_mempool (fun _ => prepared_mempool p));;
  app_modify (upd_state (fun s => mk_app_state (ledger s) (block_store s)
                                    (Some (prepared_results p)) (post_execution_result s)));;
  mret p.

Definition prepare_proposal (request : PrepareProposal) : AppM (list string) :=
  update_state_for_new_round;;
  hashes ← app_wrap "failed to prepare for executing block"
             (pre_execute_transactions (prepared_block_data request));
  let encoded_hashes := encode_change_hashes hashes in
  uses ← uses_data_item_enum (prep_height request);
  c ← app_result (start_constraints request uses encoded_hashes);
  '(info, c) ← prepare_commit_info request c;
  p ← execute_prepared c;
  deposits ← cached_block_deposits;
  commitments ← app_run (generate_rollup_datas_commitment (prepared_txs p) deposits);
  let txs := (commitments_into_iter uses commitments ++ option_list encoded_hashes ++ option_list info
              ++ prepared_bytes p)%list in
  st ← app_gets execution_state;
  let '(r, st) := set_prepared_proposal request txs st in
  app_modify (upd_execution_state (fun _ => st));;
  app_wrap "failed to set executed proposal fingerprint, this should not happen" (app_result r);;
  mret txs.

(** ** post_execute_transactions *)
Definition block_hash_of (h : TmHash) : AppM string :=
  match h with
  | Sha256Hash h => mret h
  | NoHash => app_bail ["block hash is empty; this should not occur"]
  end.
(** Errors of blocks are reported by their kind. *)
Definition block_error (e : SequencerBlockError) : Report := ["invalid sequencer block data"].

(** The last delta of a block: its deposits and the consensus parameters *)
Definition finish_block (block_hash : string) (height : Z) (deposits : gmap RollupId (list Deposit))
    (h : UpgradesHandler) : M (option ConsensusParams) :=
  wrap_err "failed to put deposits to state" (put_deposits block_hash deposits);;
  wrap_err "upgrades handler failed to end block" (upgrades_end_block h height).

Definition mark_executed (block_hash : string) : AppM unit :=
  st ← app_gets execution_state;
  let '(r, st) := set_executed_block block_hash st in
  app_modify (upd_execution_state (fun _ => st));;
  app_wrap "failed to set executed proposal fingerprint, this should not happen" (app_result r).

(** The end of the block: its validator updates, the block that is stored, the
    deposits and parameters, and the results that are kept *)
Definition end_and_store_block (block_hash : string) (height : Z) (time : Time)
    (proposer_address : address_bytes) (d : ExpandedBlockData) (tx_results : list ExecTxResult)
    : AppM SequencerBlock :=
  chain ← app_wrap "failed to get chain ID from state" (reading get_chain_id);
  sudo ← app_wrap "failed to get sudo address from state" (reading get_sudo_address);
  _ ← app_expect (if height <? 2 ^ 63 then Some height else None);
  '(validator_updates, end_events) ← on_delta (app_end_block sudo);
  deposits ← app_gets (fun a => cached_deposits (bridge (ledger (state a))));
  let results := (repeat default_tx_result (Z.to_nat (injected_transaction_count d)) ++ tx_results)%list in
  block ← app_wrap "failed to convert block info and data to SequencerBlock"
            (app_attempt block_error
               (try_build (mk_block_builder (bytes_of block_hash) chain height time proposer_address d
                             (map_to_list deposits))));
  h ← app_gets upgrades_handler;
  '(params, _) ← on_delta (finish_block block_hash height deposits h);
  let post := mk_post_results end_events results validator_updates params in
  app_modify (upd_state (fun s => mk_app_state (ledger s) (put_sequencer_block block (block_store s))
                                    (execution_results s) (Some post)));;
  mret block.

Definition post_execute_transactions (block_hash : TmHash) (height : Z) (time : Time)
    (proposer_address : address_bytes) (d : ExpandedBlockData) (tx_results : list ExecTxResult)
    : AppM SequencerBlock :=
  block_hash ← block_hash_of block_hash;
  mark_executed block_hash;;
  end_and_store_block block_hash height time proposer_address d tx_results.

(** ** process_proposal *)
Definition parse_block_data (txs : list string) (height : Z) : AppM ExpandedBlockData :=
  uses ← uses_data_item_enum height;
  d ← (if uses : bool then
         enabled ← vote_extensions_enabled height;
         mret (new_from_typed_data txs enabled)
       else mret (new_from_untyped_data txs) : AppM (attempt SequencerBlockError ExpandedBlockData));
  app_wrap "failed to parse data items" (app_attempt block_error d).

Definition ensure_upgrade_change_hashes_as_expected (d : ExpandedBlockData) (hashes : list string)
    : AppM unit :=
  app_ensure (bool_decide (ebd_upgrade_change_hashes d = bytes_of <$> hashes))
    "upgrade change hashes do not match expected".

Definition validate_commit_info (height : Z) (last_commit : option CommitInfo) (d : ExpandedBlockData)
    : AppM unit :=
  match ebd_extended_commit_info d with
  | None => mret tt
  | Some e =>
      last_commit ← app_result (ok_or ["proposed last commit is empty; this should not occur"] last_commit);
      app_wrap "failed to validate extended commit info"
        (reading (handler_validate_proposal height last_commit (ecp_info e)))
  end.

Definition processed_block_data (r : ProcessProposal) : BlockData :=
  mk_block_data (proc_misbehavior r) (proc_height r) (proc_time r) (proc_next_validators_hash r)
    (proc_proposer_address r).
(** The transactions of a block as the ledger sees them *)
Definition ledger_txs (d : ExpandedBlockData) : list Transaction :=
  ledger_tx <$> ebd_user_submitted_transactions d.

Definition check_commitments (d : ExpandedBlockData) : AppM unit :=
  deposits ← cached_block_deposits;
  c ← app_run (generate_rollup_datas_commitment (ledger_txs d) deposits);
  app_ensure (bool_decide (ebd_rollup_transactions_root d = gc_rollup_datas_root c))
    "rollup transactions commitment does not match expected";;
  app_ensure (bool_decide (ebd_rollup_ids_root d = gc_rollup_ids_root c))
    "rollup IDs commitment does not match expected".

(** Executing a block someone else proposed *)
Definition execute_processed (request : ProcessProposal) (d : ExpandedBlockData)
    : AppM (list ExecTxResult) :=
  update_state_for_new_round;;
  validate_commit_info (proc_height request) (proc_proposed_last_commit request) d;;
  hashes ← app_wrap "failed to prepare for executing block"
             (pre_execute_transactions (processed_block_data request));
  ensure_upgrade_change_hashes_as_expected d hashes;;
  tx_results ← app_wrap "failed to execute transactions"
                 (on_execution (process_proposal_tx_execution (ledger_txs d) new_unlimited_cometbft));
  check_commitments d;;
  mret tx_results.

(** Returns the block that is sent to the event bus. *)
Definition process_proposal (request : ProcessProposal) : AppM SequencerBlock :=
  st ← app_gets execution_state;
  let '(skip_execution, st) := check_if_prepared_proposal request st in
  app_modify (upd_execution_state (fun _ => st));;
  (if st is ExecutionState.Prepared _ then
     app_bail ["prepared proposal fingerprint was not validated, this should not happen"]
   else mret tt);;
  d ← parse_block_data (proc_txs request) (proc_height request);
  tx_results ←
    (if skip_execution : bool then
       cached ← app_gets (fun a => execution_results (state a));
       app_result (ok_or ["execution results must be present after executing transactions"] cached)
     else execute_processed request d);
  app_wrap "failed to run post execute transactions handler"
    (post_execute_transactions (proc_hash request) (proc_height request) (proc_time request)
       (proc_proposer_address request) d tx_results).

(** ** Votes *)
Definition app_extend_vote : AppM string :=
  h ← app_gets vote_extension_handler; reading (extend_vote h).
Definition app_verify_vote_extension (vote_extension : string) : AppM VerifyVoteExtension :=
  reading (handler_verify_vote_extension vote_extension).

(** ** finalize_block *)
Definition apply_prices (d : ExpandedBlockData) (time : Time) (height : Z) : AppM (list Event) :=
  match ebd_extended_commit_info d with
  | None => mret []
  | Some e =>
      '(_, evs) ← app_wrap "failed to apply prices from vote extensions"
                    (on_delta (apply_prices_from_vote_extensions (ecp_info e) time height));
      mret evs
  end.

Definition prepare_commit : AppM string :=
  st ← app_gets storage;
  a ← app_gets state;
  app_modify (upd_state (fun _ => latest_snapshot st));;
  let new_version := wrapping_add 64 (latest_version st) 1 in
  height ← app_expect (block_height (app_data (ledger a)));
  let s := clear_ephemeral
             (on_app_data (upd_storage_versions <[height := new_version]>) (ledger a)) in
  app_modify (upd_write_batch (fun _ => Some (s, block_store a)));;
  mret (root_hash s).

Definition finalized_block_data (r : FinalizeBlock) : BlockData :=
  mk_block_data (fin_misbehavior r) (fin_height r) (fin_time r) (fin_next_validators_hash r)
    (fin_proposer_address r).
Definition execute_finalized (request : FinalizeBlock) (d : ExpandedBlockData) : AppM unit :=
  hashes ← app_wrap "failed to execute block" (pre_execute_transactions (finalized_block_data request));
  ensure_upgrade_change_hashes_as_expected d hashes;;
  tx_results ← on_execution (finalize_tx_execution (ledger_txs d));
  _ ← app_wrap "failed to run post execute transactions handler"
        (post_execute_transactions (fin_hash request) (fin_height request) (fin_time request)
           (fin_proposer_address request) d tx_results);
  mret tt.

(** The response: the events of the prices come before those of the block. *)
Definition respond (price_events : list Event) : AppM FinalizeBlockResponse :=
  cached ← app_gets (fun a => post_execution_result (state a));
  post ← app_expect cached;
  hash ← app_wrap "failed to prepare commit" prepare_commit;
  mret (mk_finalize_response (price_events ++ post_events post)%list (post_tx_results post)
          (post_validator_updates post) (post_consensus_param_updates post) hash).

Definition finalize_block (request : FinalizeBlock) : AppM FinalizeBlockResponse :=
  block_hash ← block_hash_of (fin_hash request);
  st ← app_gets execution_state;
  let '(skip_execution, st) := check_if_executed_block block_hash st in
  app_modify (upd_execution_state (fun _ => st));;
  (if skip_execution : bool then mret tt else update_state_for_new_round);;
  d ← parse_block_data (fin_txs request) (fin_height request);
  price_events ← apply_prices d (fin_time request) (fin_height request);
  (if skip_execution : bool then mret tt else execute_finalized request d);;
  respond price_events.

(** ** commit: [now] is the time of the mempool's maintenance *)
Definition commit (now : Z) : AppM ShouldShutDown :=
  batch ← app_gets write_batch;
  '(s, blocks) ← app_expect batch;
  app_modify (upd_write_batch (fun _ => None));;
  app_modify (upd_storage (fun st => mk_storage s blocks (wrapping_add 64 (latest_version st) 1)));;
  app_modify (upd_app_hash (fun _ => root_hash s));;
  update_state_for_new_round;;
  recost ← app_gets recost_mempool;
  m ← app_gets app_mempool;
  m ← app_run (run_maintenance now s recost m);
  app_modify (upd_app_mempool (fun _ => m));;
  h ← app_gets upgrades_handler;
  reading (should_shut_down h).
End app.
