(* ===== verification/AppLemmas.v ===== *)
(** * What the handlers of the application depend on

    Inversion and step lemmas for [AppM], and the class [Steady]: the
    computations that neither read nor change a part of the app.  By it, the
    execution of a block depends on the state and the handlers alone, and not
    on the mempool, the execution state or earlier rounds. *)
From S2P Require Import Prelude Denom Types State Chain Accounts Ics20 Authority Relay Transact BTree Mempool.
From S2P Require Import Wire WireActions WireTransaction Collections.
From S2P Require Import Block SequencerBlock BlockBuild.
From S2P Require Import ExecutionState Upgrades VoteExtension Proposal ProposalTheorems BlockStore App.
From stdpp Require Import base list option strings gmap numbers tactics.
From Stdlib Require Import ZArith Lia Ascii String.
Open Scope string_scope.
Open Scope Z_scope.

Section monad.
Context `{AppCodec, VoteCodec, Borsh, Relay}.

Lemma app_bind_Done {A B} (m : AppM A) (f : A -> AppM B) a b a' :
  (m ≫= f) a = (Done b, a') <-> exists x a1, m a = (Done x, a1) /\ f x a1 = (Done b, a').
Proof.
  unfold mbind, AppM_bind. split.
  - destruct (m a) as [[x| |] a1]; [eauto|done..].
  - by intros (x & a1 & -> & ?).
Qed.
Lemma app_bind_step {A B} (m : AppM A) (f : A -> AppM B) a x a1 :
  m a = (Done x, a1) -> (m ≫= f) a = f x a1.
Proof. unfold mbind, AppM_bind. by intros ->. Qed.
Lemma app_wrap_Done {A} msg (m : AppM A) a x a1 : app_wrap msg m a = (Done x, a1) <-> m a = (Done x, a1).
Proof. unfold app_wrap. by destruct (m a) as [[] ?]. Qed.
Lemma app_result_Done {A} (r : result Report A) a x a1 : app_result r a = (Done x, a1) <-> r = Ok x /\ a1 = a.
Proof. destruct r; cbn; unfold mret, AppM_ret, app_bail; split; intros; destruct_and?; simplify_eq; done. Qed.
Lemma app_ensure_Done b msg a x a1 : app_ensure b msg a = (Done x, a1) <-> b = true /\ a1 = a.
Proof. destruct b, x; cbn; unfold mret, AppM_ret, app_bail; split; intros; destruct_and?; simplify_eq; done. Qed.
Lemma app_run_Done {A} (r : run A) a x a1 : app_run r a = (Done x, a1) <-> r = Val x /\ a1 = a.
Proof. destruct r; cbn; split; intros; destruct_and?; simplify_eq; done. Qed.
Lemma app_gets_Done {A} (f : App -> A) a x a1 : app_gets f a = (Done x, a1) <-> x = f a /\ a1 = a.
Proof. unfold app_gets. split; intros; destruct_and?; by simplify_eq. Qed.
Lemma app_ret_Done {A} (v : A) a x a1 : (mret v : AppM A) a = (Done x, a1) <-> x = v /\ a1 = a.
Proof. unfold mret, AppM_ret. split; intros; destruct_and?; by simplify_eq. Qed.
Lemma reading_Done {A} (m : M A) a x a1 : reading m a = (Done x, a1) <-> (m (ledger (state a))).1 = Done x /\ a1 = a.
Proof. unfold reading. split; [by intros [= -> <-]|by intros [-> ->]]. Qed.
Lemma block_hash_of_Done h a x a1 : block_hash_of h a = (Done x, a1) <-> h = Sha256Hash x /\ a1 = a.
Proof. destruct h; cbn; unfold mret, AppM_ret, app_bail; split; intros; destruct_and?; by simplify_eq. Qed.

(** ** Computations that leave the app as it is *)
Definition read_only {A} (m : AppM A) : Prop := forall a, (m a).2 = a.
Lemma read_only_bind {A B} (m : AppM A) (f : A -> AppM B) :
  read_only m -> (forall x, read_only (f x)) -> read_only (m ≫= f).
Proof.
  intros Hm Hf a. unfold mbind, AppM_bind. specialize (Hm a).
  destruct (m a) as [[x| |] a1]; cbn in Hm; subst; [apply Hf|done..].
Qed.
Lemma read_only_Done {A} (m : AppM A) a x a1 : read_only m -> m a = (Done x, a1) -> a1 = a.
Proof. intros Hm Hx. specialize (Hm a). by rewrite Hx in Hm. Qed.

(** ** Parts of the app a computation has nothing to do with

    [w] changes such a part: it keeps the ledger and the handlers ([Apart]), or
    the whole state ([Aside]). *)
Class Apart (w : App -> App) : Prop := {
  apart_ledger a : ledger (state (w a)) = ledger (state a);
  apart_upd f a : upd_state (upd_ledger f) (w a) = w (upd_state (upd_ledger f) a);
  apart_upgrades a : upgrades_handler (w a) = upgrades_handler a;
  apart_votes a : vote_extension_handler (w a) = vote_extension_handler a }.
Class Aside (w : App -> App) : Prop := {
  aside_apart :: Apart w;
  aside_state a : state (w a) = state a;
  aside_upd f a : upd_state f (w a) = w (upd_state f a) }.
Class Steady {A} (w : App -> App) (m : AppM A) : Prop :=
  steady a : m (w a) = ((m a).1, w (m a).2).

Section steady.
Context (w : App -> App).
#[export] Instance steady_ret {A} (x : A) : Steady w (mret x).
Proof. done. Qed.
#[export] Instance steady_bind {A B} (m : AppM A) (f : A -> AppM B) :
  Steady w m -> (forall x, Steady w (f x)) -> Steady w (m ≫= f).
Proof.
  intros Hm Hf a. unfold mbind, AppM_bind. rewrite (Hm a).
  destruct (m a) as [[x| |] a1]; cbn; [apply Hf|done..].
Qed.
#[export] Instance steady_bail {A} e : Steady w (app_bail e : AppM A).
Proof. done. Qed.
#[export] Instance steady_wrap {A} msg (m : AppM A) : Steady w m -> Steady w (app_wrap msg m).
Proof. intros Hm a. unfold app_wrap. rewrite (Hm a). by destruct (m a) as [[] ?]. Qed.
#[export] Instance steady_ensure b msg : Steady w (app_ensure b msg).
Proof. by destruct b. Qed.
#[export] Instance steady_result {A} (r : result Report A) : Steady w (app_result r).
Proof. by destruct r. Qed.
#[export] Instance steady_run {A} (r : run A) : Steady w (app_run r).
Proof. by destruct r. Qed.
#[export] Instance steady_attempt {E A} (rep : E -> Report) (r : attempt E A) : Steady w (app_attempt rep r).
Proof. unfold app_attempt. apply _. Qed.
#[export] Instance steady_expect {A} (o : option A) : Steady w (app_expect o).
Proof. unfold app_expect. apply _. Qed.
#[export] Instance steady_hash_of h : Steady w (block_hash_of h).
Proof. destruct h; apply _. Qed.
#[export] Instance steady_if {A} (b : bool) (m m' : AppM A) : Steady w m -> Steady w m' -> Steady w (if b then m else m').
Proof. by destruct b. Qed.
Lemma steady_Done {A} (m : AppM A) `{!Steady w m} a x a1 : m a = (Done x, a1) -> m (w a) = (Done x, w a1).
Proof. intros Hm. by rewrite (steady a), Hm. Qed.

Section apart.
Context {Hw : Apart w}.
#[export] Instance steady_reading {A} (m : M A) : Steady w (reading m).
Proof. intros a. unfold reading. by rewrite apart_ledger. Qed.
#[export] Instance steady_on_delta {A} (m : M A) : Steady w (on_delta m).
Proof. intros a. unfold on_delta. rewrite apart_ledger. destruct (m _) as [[] ?]; [|done..]. by rewrite apart_upd. Qed.
#[export] Instance steady_ledger {A} (f : State -> A) : Steady w (app_gets (fun a => f (ledger (state a)))).
Proof. intros a. unfold app_gets. by rewrite apart_ledger. Qed.
#[export] Instance steady_upgrades {A} (f : UpgradesHandler -> A) : Steady w (app_gets (fun a => f (upgrades_handler a))).
Proof. intros a. unfold app_gets. by rewrite apart_upgrades. Qed.
#[export] Instance steady_gets_upgrades : Steady w (app_gets upgrades_handler).
Proof. exact (steady_upgrades (fun u => u)). Qed.
End apart.

Section aside.
Context {Hw : Aside w}.
#[export] Instance steady_upd f : Steady w (app_modify (upd_state f)).
Proof. intros a. unfold app_modify. by rewrite aside_upd. Qed.
#[export] Instance steady_gets_state : Steady w (app_gets state).
Proof. intros a. unfold app_gets. by rewrite aside_state. Qed.
End aside.
End steady.
End monad.

Ltac steadiness :=
  repeat first [apply _ | apply steady_bind; [|intros ?] | progress case_match].

Section handlers.
Context `{AppCodec, VoteCodec, Borsh, Relay}.
Section aside.
Context (w : App -> App) {Hw : Aside w}.
#[export] Instance uses_data_item_enum_steady height : Steady w (uses_data_item_enum height).
Proof. unfold uses_data_item_enum. 
  exact (steady_upgrades w (fun u => match aspen (handler_upgrades u) with
                                     | Some x => aspen_activation_height x <=? height
                                     | None => false end)).
Qed.
#[export] Instance vote_extensions_enabled_steady height : Steady w (vote_extensions_enabled height).
Proof. unfold vote_extensions_enabled. steadiness. Qed.
#[export] Instance parse_block_data_steady txs height : Steady w (parse_block_data txs height).
Proof. unfold parse_block_data. steadiness. Qed.
#[export] Instance execute_due_upgrade_steady height : Steady w (execute_due_upgrade height).
Proof. unfold execute_due_upgrade. steadiness. Qed.
#[export] Instance begin_block_delta_steady d : Steady w (begin_block_delta d).
Proof. unfold begin_block_delta. steadiness. Qed.
#[export] Instance ensure_hashes_steady d hashes : Steady w (ensure_upgrade_change_hashes_as_expected d hashes).
Proof. unfold ensure_upgrade_change_hashes_as_expected. apply _. Qed.
#[export] Instance validate_commit_info_steady height c d : Steady w (validate_commit_info height c d).
Proof. unfold validate_commit_info. steadiness. Qed.
#[export] Instance cached_block_deposits_steady : Steady w cached_block_deposits.
Proof. exact (steady_ledger w (fun s => map_to_list (cached_deposits (bridge s)))). Qed.
#[export] Instance check_commitments_steady d : Steady w (check_commitments d).
Proof. unfold check_commitments. steadiness. Qed.
#[export] Instance apply_prices_steady d time height : Steady w (apply_prices d time height).
Proof. unfold apply_prices. steadiness. Qed.
End aside.

(** The end of a block does not see what was cached of its transactions. *)
Definition with_results (r : option (list ExecTxResult)) : App -> App :=
  upd_state (fun s => mk_app_state (ledger s) (block_store s) r (post_execution_result s)).
#[export] Instance with_results_apart r : Apart (with_results r).
Proof. by split. Qed.
Lemma end_and_store_block_apart w h height time p d res :
  Apart w ->
  (forall block post, Steady w (app_modify (upd_state (fun s =>
     mk_app_state (ledger s) (put_sequencer_block block (block_store s)) (execution_results s) (Some post))))) ->
  Steady w (end_and_store_block h height time p d res).
Proof.
  intros Hw Hstore. unfold end_and_store_block. steadiness.
  all: try exact (steady_ledger w (fun s => cached_deposits (bridge s))).
Qed.
#[export] Instance end_and_store_block_steady w `{Aside w} h height time p d res :
  Steady w (end_and_store_block h height time p d res).
Proof. apply end_and_store_block_apart; apply _. Qed.
#[export] Instance end_and_store_block_results r h height time p d res :
  Steady (with_results r) (end_and_store_block h height time p d res).
Proof. apply end_and_store_block_apart; [apply _|done]. Qed.

(** The flag of the mempool: the upgrade and the start of a block do not see
    it, and it is reset before a transaction executes. *)
Definition with_recost (r : bool) : App -> App := upd_recost_mempool (fun _ => r).
#[export] Instance with_recost_aside r : Aside (with_recost r).
Proof. split; done. Qed.
Lemma pre_execute_recost r d a hashes a1 :
  pre_execute_transactions d a = (Done hashes, a1) ->
  pre_execute_transactions d (with_recost r a) = (Done hashes, a1).
Proof.
  unfold pre_execute_transactions. rewrite !app_bind_Done. intros (h & a2 & Hu & Hrest).
  exists h, (with_recost r a2). split; [by apply steady_Done; [apply _..|]|].
  rewrite app_bind_Done in *. destruct Hrest as (c & a3 & Hc & Hrest). exists c, (with_recost r a3).
  split; [by apply steady_Done; [apply _..|]|]. exact Hrest.
Qed.

(** Everything else that is a node's own: its mempool, what it has done in the
    round, its pending batch and its last hash *)
Definition on_node (o a : App) : App :=
  mk_app (state a) (app_mempool o) (execution_state o) (recost_mempool a) (write_batch o)
    (app_hash o) (upgrades_handler a) (vote_extension_handler a) (storage a).
#[export] Instance on_node_aside o : Aside (on_node o).
Proof. split; done. Qed.
#[export] Instance on_execution_steady {A} o (m : Execution -> outcome A * Execution) :
  Steady (on_node o) (on_execution m).
Proof. intros a. unfold on_execution. cbn. by destruct (m _). Qed.
#[export] Instance reset_recost_steady o f : Steady (on_node o) (app_modify (upd_recost_mempool f)).
Proof. done. Qed.
#[export] Instance pre_execute_steady o d : Steady (on_node o) (pre_execute_transactions d).
Proof. unfold pre_execute_transactions. steadiness. Qed.

(** Two nodes in the same round: the same storage and handlers *)
Record peers (a b : App) : Prop := {
  peers_storage : storage a = storage b;
  peers_upgrades : upgrades_handler a = upgrades_handler b;
  peers_votes : vote_extension_handler a = vote_extension_handler b }.
(** What the execution of a block leaves on a node: the same on all of them *)
Record same_block (a b : App) : Prop := {
  same_state : state a = state b;
  same_recost : recost_mempool a = recost_mempool b;
  same_peers : peers a b }.
Lemma same_block_on_node a b : same_block a b <-> b = on_node b a.
Proof.
  split.
  - intros [H5 H6 [H7 H8 H9]]. destruct a, b. cbn in *. by subst.
  - intros Hb. rewrite Hb. by repeat split.
Qed.

Lemma same_block_refl a : same_block a a.
Proof. by repeat split. Qed.
Lemma same_block_sym a b : same_block a b -> same_block b a.
Proof. by intros [? ? []]; repeat split. Qed.
Lemma same_block_trans a b c : same_block a b -> same_block b c -> same_block a c.
Proof. intros [? ? []] [? ? []]; repeat split; congruence. Qed.
Lemma same_block_set st a : same_block (upd_execution_state (fun _ => st) a) a.
Proof. by repeat split. Qed.

(** A steady computation does the same on both nodes, and neither changes nor
    sees what they have done in the round. *)
Lemma steady_same {A} (m : AppM A) a b x a1 :
  (forall o, Steady (on_node o) m) -> same_block a b -> m a = (Done x, a1) ->
  exists b1, m b = (Done x, b1) /\ same_block a1 b1 /\
    execution_state a1 = execution_state a /\ execution_state b1 = execution_state b.
Proof.
  intros Hm Hab Hx. pose proof (Hm a a) as Ha. pose proof (Hm b a) as Hb.
  rewrite <- (proj1 (same_block_on_node a a) (same_block_refl a)) in Ha.
  rewrite <- (proj1 (same_block_on_node a b) Hab) in Hb. rewrite Hx in Ha, Hb. cbn in Ha, Hb.
  exists (on_node b a1). split; [done|]. split; [by apply same_block_on_node|]. split; [|done].
  injection Ha as ->. done.
Qed.

Lemma steady_own {A} (m : AppM A) a x a1 :
  (forall o, Steady (on_node o) m) -> m a = (Done x, a1) -> a1 = on_node a a1.
Proof.
  intros Hm Hx. pose proof (Hm a a) as Ha. rewrite <- (proj1 (same_block_on_node a a) (same_block_refl a)), Hx in Ha.
  by injection Ha.
Qed.

(** A round starts in the state of the last commit, whatever came before. *)
Definition round_start (a : App) : App :=
  upd_execution_state (fun _ => Unset) (upd_state (fun _ => latest_snapshot (storage a)) a).
Lemma update_state_run a : update_state_for_new_round a = (Done tt, round_start a).
Proof. done. Qed.
Lemma round_start_peers a b :
  peers a b -> round_start b = on_node (round_start b) (with_recost (recost_mempool b) (round_start a)).
Proof. intros [H5 H6 H7]. destruct a, b. cbn in *. by subst. Qed.

Lemma pre_execute_same d a b hashes a1 :
  peers a b -> pre_execute_transactions d (round_start a) = (Done hashes, a1) ->
  exists b1, pre_execute_transactions d (round_start b) = (Done hashes, b1) /\ same_block a1 b1 /\
    execution_state a1 = Unset /\ execution_state b1 = Unset.
Proof.
  intros Hp Hx. apply (pre_execute_recost (recost_mempool b)) in Hx.
  apply (steady_same _ _ (round_start b)) in Hx as (b1 & Hb & Hs & He & He'); [eauto|apply _|].
  apply same_block_on_node. by apply round_start_peers.
Qed.

(** *** Storage and handlers stay as they are until the commit *)
Class Keeps {A} (m : AppM A) : Prop := keeps a : peers a (m a).2.
Lemma peers_refl a : peers a a.
Proof. by split. Qed.
Lemma peers_sym a b : peers a b -> peers b a.
Proof. by intros []; split. Qed.
Lemma peers_trans a b c : peers a b -> peers b c -> peers a c.
Proof. intros [] []; split; congruence. Qed.
#[export] Instance keeps_bind {A B} (m : AppM A) (f : A -> AppM B) :
  Keeps m -> (forall x, Keeps (f x)) -> Keeps (m ≫= f).
Proof.
  intros Hm Hf a. unfold mbind, AppM_bind. specialize (Hm a). destruct (m a) as [[x| |] a1]; [|done..].
  eapply peers_trans; [exact Hm|apply Hf].
Qed.
Lemma read_only_keeps {A} (m : AppM A) : read_only m -> Keeps m.
Proof. intros Hm a. rewrite Hm. apply peers_refl. Qed.
#[export] Instance keeps_ret {A} (x : A) : Keeps (mret x : AppM A).
Proof. by apply read_only_keeps. Qed.
#[export] Instance keeps_wrap {A} msg (m : AppM A) : Keeps m -> Keeps (app_wrap msg m).
Proof. intros Hm a. specialize (Hm a). unfold app_wrap. by destruct (m a) as [[] ?]. Qed.
#[export] Instance keeps_gets {A} (f : App -> A) : Keeps (app_gets f).
Proof. by apply read_only_keeps. Qed.
#[export] Instance keeps_result {A} (r : result Report A) : Keeps (app_result r).
Proof. apply read_only_keeps. by destruct r. Qed.
#[export] Instance keeps_run {A} (r : run A) : Keeps (app_run r).
Proof. apply read_only_keeps. by destruct r. Qed.
#[export] Instance keeps_attempt {E A} (rep : E -> Report) (r : attempt E A) : Keeps (app_attempt rep r).
Proof. unfold app_attempt. apply _. Qed.
#[export] Instance keeps_expect {A} (o : option A) : Keeps (app_expect o).
Proof. unfold app_expect. apply _. Qed.
#[export] Instance keeps_reading {A} (m : M A) : Keeps (reading m).
Proof. by apply read_only_keeps. Qed.
#[export] Instance keeps_on_delta {A} (m : M A) : Keeps (on_delta m).
Proof. intros a. unfold on_delta. by destruct (m _) as [[] ?]. Qed.
#[export] Instance keeps_on_execution {A} (m : Execution -> outcome A * Execution) : Keeps (on_execution m).
Proof. intros a. unfold on_execution. by destruct (m _). Qed.
#[export] Instance keeps_upd f : Keeps (app_modify (upd_state f)).
Proof. intros a. by split. Qed.
#[export] Instance keeps_recost f : Keeps (app_modify (upd_recost_mempool f)).
Proof. intros a. by split. Qed.
#[export] Instance keeps_if {A} (b : bool) (m m' : AppM A) : Keeps m -> Keeps m' -> Keeps (if b then m else m').
Proof. by destruct b. Qed.
#[export] Instance keeps_execution f : Keeps (app_modify (upd_execution_state f)).
Proof. intros a. by split. Qed.
#[export] Instance keeps_bail {A} e : Keeps (app_bail e : AppM A).
Proof. by apply read_only_keeps. Qed.
#[export] Instance keeps_ensure b msg : Keeps (app_ensure b msg).
Proof. apply read_only_keeps. by destruct b. Qed.
#[export] Instance keeps_new_round : Keeps update_state_for_new_round.
Proof. intros a. by split. Qed.
#[export] Instance pre_execute_keeps d : Keeps (pre_execute_transactions d).
Proof.
  unfold pre_execute_transactions, execute_due_upgrade, begin_block_delta.
  repeat first [apply _ | apply keeps_bind; [|intros ?] | progress case_match].
Qed.
#[export] Instance end_and_store_block_keeps h height time p d res :
  Keeps (end_and_store_block h height time p d res).
Proof.
  unfold end_and_store_block. repeat first [apply _ | apply keeps_bind; [|intros ?] | progress case_match].
Qed.
Lemma keeps_Done {A} (m : AppM A) `{!Keeps m} a x a1 : m a = (Done x, a1) -> peers a a1.
Proof. intros Hm. pose proof (keeps a) as Hk. by rewrite Hm in Hk. Qed.

(** What a block's data is read with *)
Lemma parse_block_data_params txs height a b :
  upgrades_handler a = upgrades_handler b ->
  consensus_params (app_data (ledger (state a))) = consensus_params (app_data (ledger (state b))) ->
  (parse_block_data txs height a).1 = (parse_block_data txs height b).1.
Proof.
  intros Hh Hp. unfold parse_block_data, uses_data_item_enum, vote_extensions_enabled, reading, app_gets, app_wrap.
  unfold mbind, AppM_bind. rewrite Hh. destruct (match aspen _ with Some _ => _ | None => _ end); cbn.
  - rewrite Hp. by destruct (new_from_typed_data _ _) as [[]| |].
  - by destruct (new_from_untyped_data _) as [[]| |].
Qed.

Lemma parse_block_data_read_only txs height : read_only (parse_block_data txs height).
Proof.
  unfold parse_block_data, uses_data_item_enum, vote_extensions_enabled.
  apply read_only_bind; [done|]. intros uses.
  apply read_only_bind.
  - destruct uses; [|done]. apply read_only_bind; [|done]. apply read_only_bind; [|done].
    intros a. unfold app_wrap, reading. by destruct (get_consensus_params _).1.
  - intros r a. unfold app_wrap, app_attempt. destruct r as [[]| |]; done.
Qed.
Lemma ensure_hashes_read_only d hashes : read_only (ensure_upgrade_change_hashes_as_expected d hashes).
Proof. intros a. unfold ensure_upgrade_change_hashes_as_expected, app_ensure. by case_match. Qed.
Lemma check_commitments_read_only d : read_only (check_commitments d).
Proof.
  unfold check_commitments. apply read_only_bind; [done|]. intros deposits.
  apply read_only_bind; [intros a; by destruct (generate_rollup_datas_commitment _ _)|]. intros c.
  apply read_only_bind; intros; intros a; unfold app_ensure; by case_match.
Qed.
Lemma validate_commit_info_read_only height c d : read_only (validate_commit_info height c d).
Proof.
  unfold validate_commit_info. destruct (ebd_extended_commit_info d); [|done].
  apply read_only_bind; [intros a; by destruct c|]. intros c' a. unfold app_wrap, reading.
  by destruct (handler_validate_proposal _ _ _ _).1.
Qed.

(** The check of a proposal leaves storage and handlers alone. *)
#[export] Instance process_proposal_keeps r : Keeps (process_proposal r).
Proof.
  assert (forall d, Keeps (execute_processed r d)).
  { intros d. unfold execute_processed.
    repeat first [apply _ | apply read_only_keeps, validate_commit_info_read_only
                 | apply read_only_keeps, ensure_hashes_read_only
                 | apply read_only_keeps, check_commitments_read_only | apply keeps_bind; [|intros ?]]. }
  assert (forall h, Keeps (block_hash_of h)) by (intros []; apply read_only_keeps; done).
  unfold process_proposal, post_execute_transactions, mark_executed.
  repeat first [apply _ | apply read_only_keeps, parse_block_data_read_only | apply keeps_wrap
               | apply keeps_bind; [|intros ?] | progress case_match].
Qed.
End handlers.
