(* ===== verification/AppTheorems.v ===== *)
(** * Properties of the application

    Nodes agree: a block executes the same on a node that has executed it
    before and on one that has not, and what a proposer computed while
    preparing its block is what every node computes while checking it. *)
From S2P Require Import Prelude Denom Types State Chain Accounts Ics20 Authority Relay Transact BTree Mempool.
From S2P Require Import Conservation RelayLemmas TransactTheorems.
From S2P Require Import Wire WireActions WireTransaction Collections.
From S2P Require Import Block SequencerBlock BlockBuild.
From S2P Require Import ExecutionState Upgrades VoteExtension Proposal ProposalTheorems BlockStore.
From S2P Require Import App AppLemmas.
From stdpp Require Import base list option strings gmap numbers tactics.
From Stdlib Require Import ZArith Lia Ascii String.
Open Scope string_scope.
Open Scope Z_scope.

(** The request that finalizes a block that was processed *)
Definition finalize_request (r : ProcessProposal) : FinalizeBlock :=
  mk_finalize (proc_txs r) (proc_misbehavior r) (proc_hash r) (proc_height r) (proc_time r)
    (proc_next_validators_hash r) (proc_proposer_address r).

Section agreement.
Context `{AppCodec, VoteCodec, Borsh, Relay}.

Record idle (a : App) : Prop := {
  idle_state : state a = latest_snapshot (storage a);
  idle_execution : execution_state a = Unset }.
Lemma idle_round_start a : idle a -> round_start a = a.
Proof. intros [H5 H6]. destruct a. cbn in *. by subst. Qed.

(** ** What transactions leave of the application's data *)
Lemma action_app_data tx action : ensures (same app_data) (execute_action tx action).
Proof. destruct action; cbn [execute_action]; ensures_tac. Qed.
Lemma transaction_app_data tx s evs s' :
  execute_transaction tx s = (Done evs, s') -> app_data s' = app_data s.
Proof.
  apply (execute_transaction_ensures (same app_data)); try done.
  apply Forall_forall. intros a _. apply action_app_data.
Qed.
Lemma proposal_app_data l c x res x' :
  process_proposal_tx_execution l c x = (Done res, x') ->
  app_data (ex_state x') = app_data (ex_state x).
Proof.
  unfold process_proposal_tx_execution. destruct (execute_proposal _ _ _) as [[p| |] y] eqn:Hx; [|done..].
  intros [= _ <-]. revert x Hx. generalize (Process c [] BundleableGeneral) as q.
  induction l as [|tx l IH]; intros q x Hx; cbn in Hx; [by simplify_eq|].
  destruct (proposal_checks_and_tx_execution tx q x) as [[[exit q']| |] z] eqn:Hz; [|done..].
  assert (app_data (ex_state z) = app_data (ex_state x)) as Hd.
  { clear -Hz. unfold proposal_checks_and_tx_execution, app_execute_transaction in Hz.
    destruct (execute_transaction tx (ex_state x)) as [[evs| |] s] eqn:Hs;
      [apply transaction_app_data in Hs|apply execute_transaction_undone in Hs as ->..];
      repeat case_match; simplify_eq/=; done. }
  destruct exit; [by simplify_eq|by apply IH in Hx as ->].
Qed.

(** A block that was begun has its height until it is stored. *)
Lemma on_delta_same {A B} (f : State -> B) (m : M A) a x a' :
  (forall g s, f (on_events g s) = f s) -> ensures (same f) m -> on_delta m a = (Done x, a') ->
  f (ledger (state a')) = f (ledger (state a)).
Proof.
  intros Hev Hm. unfold on_delta. destruct (m _) as [[y| |] s] eqn:Hs; [|done..]. intros [= _ <-].
  change (f (on_events (fun _ => events (ledger (state a))) s) = f (ledger (state a))). apply Hm in Hs. unfold same in Hs. by rewrite Hev, Hs, Hev.
Qed.
Definition height_of (s : State) : option Z := block_height (app_data s).
Lemma begun_height height time l s u s' :
  app_begin_block height time l s = (Done u, s') -> height_of s' = Some height.
Proof.
  unfold app_begin_block. rewrite bind_done. intros ([] & s1 & Hh%wrap_err_done & Hs).
  unfold put_block_height in Hh. apply modify_done in Hh as ->. revert Hs.
  match goal with |- ?m _ = _ -> _ => assert (ensures (same height_of) m) as Hm by ensures_tac end.
  intros Hs%Hm. exact Hs.
Qed.
Lemma pre_execute_height d a hashes a' :
  pre_execute_transactions d a = (Done hashes, a') -> height_of (ledger (state a')) = Some (bd_height d).
Proof.
  unfold pre_execute_transactions. intros Hpre. apply app_bind_Done in Hpre as (hs & a1 & _ & Hpre).
  apply app_bind_Done in Hpre as (c & a2 & _ & Hpre). apply app_bind_Done in Hpre as ([] & a3 & _ & Hpre).
  apply app_bind_Done in Hpre as ([] & a4 & Hb & Hpre). apply app_ret_Done in Hpre as [_ ->].
  unfold begin_block_delta in Hb. apply app_bind_Done in Hb as ([[] evs] & a5 & Hd%app_wrap_Done & Hb).
  apply app_ret_Done in Hb as [_ ->]. unfold on_delta in Hd.
  destruct (app_begin_block _ _ _ _) as [[] s'] eqn:Hs; [|done..]. injection Hd as ? ?; subst. apply begun_height in Hs. exact Hs.
Qed.
Lemma end_and_store_height hash height time proposer d res a block a' :
  end_and_store_block hash height time proposer d res a = (Done block, a') ->
  height_of (ledger (state a')) = height_of (ledger (state a)).
Proof.
  unfold end_and_store_block. intros He.
  apply app_bind_Done in He as (chain & a1 & [_ ->]%app_wrap_Done%reading_Done & He).
  apply app_bind_Done in He as (sudo & a1 & [_ ->]%app_wrap_Done%reading_Done & He).
  apply app_bind_Done in He as (h & a1 & [_ ->]%app_run_Done & He).
  apply app_bind_Done in He as ([updates evs] & a1 & Hd & He).
  apply (on_delta_same height_of) in Hd as <-; [|done|ensures_tac].
  apply app_bind_Done in He as (deposits & a2 & [_ ->]%app_gets_Done & He).
  apply app_bind_Done in He as (blk & a2 & Hblk%app_wrap_Done & He).
  assert (a2 = a1) as ->.
  { unfold app_attempt in Hblk. apply app_bind_Done in Hblk as (v & a3 & [_ ->]%app_run_Done & Hblk).
    by apply app_result_Done in Hblk as [_ ->]. }
  apply app_bind_Done in He as (handler & a2 & [_ ->]%app_gets_Done & He).
  apply app_bind_Done in He as ([params evs'] & a2 & Hd & He).
  apply (on_delta_same height_of) in Hd as <-; [|done|ensures_tac].
  apply app_bind_Done in He as ([] & a3 & Hm & He). injection Hm as <-. by apply app_ret_Done in He as [_ ->].
Qed.

(** ** The pieces of a handler that ran *)
Lemma execute_processed_Done r d a res a2 :
  execute_processed r d a = (Done res, a2) <->
  exists hashes a1,
    validate_commit_info (proc_height r) (proc_proposed_last_commit r) d (round_start a)
      = (Done tt, round_start a) /\
    pre_execute_transactions (processed_block_data r) (round_start a) = (Done hashes, a1) /\
    ebd_upgrade_change_hashes d = bytes_of <$> hashes /\
    on_execution (process_proposal_tx_execution (ledger_txs d) new_unlimited_cometbft) a1 = (Done res, a2) /\
    check_commitments d a2 = (Done tt, a2).
Proof.
  unfold execute_processed. rewrite app_bind_step with (x := tt) (a1 := round_start a) by done.
  rewrite app_bind_Done. split.
  - intros ([] & a0 & Hv & Hr). pose proof (read_only_Done _ _ _ _ (validate_commit_info_read_only _ _ _) Hv) as ->.
    apply app_bind_Done in Hr as (hashes & a1 & Hp%app_wrap_Done & Hr).
    apply app_bind_Done in Hr as ([] & a1' & He & Hr). apply app_ensure_Done in He as [He%bool_decide_eq_true ->].
    apply app_bind_Done in Hr as (res' & a2' & Hx%app_wrap_Done & Hr).
    apply app_bind_Done in Hr as ([] & a3 & Hc & Hr). apply app_ret_Done in Hr as [-> ->].
    pose proof (read_only_Done _ _ _ _ (check_commitments_read_only _) Hc) as ->. by exists hashes, a1.
  - intros (hashes & a1 & Hv & Hp & He & Hx & Hc). exists tt, (round_start a). split; [done|].
    rewrite (app_bind_step _ _ _ hashes a1) by by apply app_wrap_Done.
    rewrite (app_bind_step _ _ _ tt a1) by (apply app_ensure_Done; split; [by apply bool_decide_eq_true|done]).
    rewrite (app_bind_step _ _ _ res a2) by by apply app_wrap_Done.
    by rewrite (app_bind_step _ _ _ tt a2).
Qed.

Lemma on_execution_Done {A} (m : Execution -> outcome A * Execution) a x a1 :
  on_execution m a = (Done x, a1) <->
  exists e, m (mk_execution (ledger (state a)) (recost_mempool a)) = (Done x, e) /\
    a1 = upd_recost_mempool (fun _ => ex_recost e) (upd_state (upd_ledger (fun _ => ex_state e)) a).
Proof.
  unfold on_execution. destruct (m _) as [r e]. split; [intros [= -> <-]; eauto|]. by intros (e' & [= -> ->] & ->).
Qed.

(** The transactions of a block that was accepted run the same from scratch. *)
Lemma accepted_finalize txs a res a1 :
  on_execution (process_proposal_tx_execution txs new_unlimited_cometbft) a = (Done res, a1) ->
  on_execution (finalize_tx_execution txs) a = (Done res, a1).
Proof.
  rewrite !on_execution_Done. intros (e & He & ->). exists e. split; [|done].
  unfold process_proposal_tx_execution in He. destruct (execute_proposal _ _ _) as [[p| |] e'] eqn:Hp; [|done..].
  injection He as <- <-. apply accepted_runs in Hp as (res & Hres & Hr); [|done].
  rewrite Hres. cbn. by eapply finalize_runs.
Qed.

Lemma mark_executed_unset hash a :
  execution_state a = Unset ->
  mark_executed hash a = (Done tt, upd_execution_state (fun _ => ExecutedBlock hash None) a).
Proof. intros Hu. unfold mark_executed, app_gets, mbind, AppM_bind. by rewrite Hu. Qed.
Lemma post_execute_Done hash height time p d res a block a1 :
  post_execute_transactions hash height time p d res a = (Done block, a1) <->
  exists h a0, hash = Sha256Hash h /\ mark_executed h a = (Done tt, a0) /\
    end_and_store_block h height time p d res a0 = (Done block, a1).
Proof.
  unfold post_execute_transactions. rewrite app_bind_Done. split.
  - intros (h & a0 & [-> ->]%block_hash_of_Done & Hr). apply app_bind_Done in Hr as ([] & a0 & Hm & Hr). eauto.
  - intros (h & a0 & -> & Hm & He). exists h, a. split; [by apply block_hash_of_Done|].
    by rewrite (app_bind_step _ _ _ tt a0).
Qed.

(** What is left of [finalize_block] once the block was executed *)
Definition committed (a : App) : State * BlockStore :=
  (clear_ephemeral
     (on_app_data (upd_storage_versions
        <[default 0 (block_height (app_data (ledger (state a)))) := wrapping_add 64 (latest_version (storage a)) 1]>)
        (ledger (state a))), block_store (state a)).
Definition response (evs : list Event) (post : PostTransactionExecutionResult) (a : App) : FinalizeBlockResponse :=
  mk_finalize_response (evs ++ post_events post)%list (post_tx_results post) (post_validator_updates post)
    (post_consensus_param_updates post) (root_hash (committed a).1).
Lemma respond_run evs a post :
  post_execution_result (state a) = Some post -> is_Some (block_height (app_data (ledger (state a)))) ->
  respond evs a =
  (Done (response evs post a),
   upd_write_batch (fun _ => Some (committed a)) (upd_state (fun _ => latest_snapshot (storage a)) a)).
Proof.
  intros Hp [h Hh]. unfold respond, prepare_commit, app_wrap, mbind, AppM_bind, app_gets. rewrite Hp.
  unfold response, committed. cbn -[on_app_data clear_ephemeral upd_storage_versions]. by rewrite Hh.
Qed.
Lemma respond_same evs a b :
  same_block a b -> is_Some (post_execution_result (state a)) ->
  is_Some (block_height (app_data (ledger (state a)))) ->
  exists r a2 b2, respond evs a = (Done r, a2) /\ respond evs b = (Done r, b2) /\
    same_block a2 b2 /\ write_batch a2 = write_batch b2 /\ write_batch a2 = Some (committed a).
Proof.
  intros [Hs Hr [H5 H6 H7]] [post Hp] Hh. rewrite (respond_run evs a post Hp Hh).
  rewrite (respond_run evs b post) by (by rewrite <- Hs).
  assert (committed a = committed b) as Hc by (unfold committed; by rewrite Hs, H5).
  assert (response evs post a = response evs post b) as -> by (unfold response; by rewrite Hc).
  eexists _, _, _. repeat split; cbn; congruence.
Qed.

Lemma end_and_store_block_kept hash height time p d res a block a1 :
  end_and_store_block hash height time p d res a = (Done block, a1) ->
  is_Some (post_execution_result (state a1)).
Proof.
  unfold end_and_store_block. intros Hx.
  repeat match type of Hx with
  | (_ ≫= _) _ = (Done _, _) => apply app_bind_Done in Hx as (? & ? & ? & Hx)
  | (let '(_, _) := ?x in _) _ = _ => destruct x
  end.
  apply app_ret_Done in Hx as [_ ->].
  match goal with H : app_modify _ _ = _ |- _ => injection H as _ <- end. by eexists.
Qed.
(** ** Nodes that executed a block and nodes that did not *)
Lemma process_from_scratch r a block a1 d :
  idle a -> process_proposal r a = (Done block, a1) ->
  (parse_block_data (proc_txs r) (proc_height r) a).1 = Done d ->
  exists h res a2, proc_hash r = Sha256Hash h /\ execute_processed r d a = (Done res, a2) /\
    execution_state a2 = Unset /\
    end_and_store_block h (proc_height r) (proc_time r) (proc_proposer_address r) d res
      (upd_execution_state (fun _ => ExecutedBlock h None) a2) = (Done block, a1).
Proof.
  intros Ha Hp Hd. unfold process_proposal in Hp.
  apply app_bind_Done in Hp as (st & a0 & [-> ->]%app_gets_Done & Hp). rewrite (idle_execution a Ha) in Hp.
  cbn [check_if_prepared_proposal] in Hp.
  apply app_bind_Done in Hp as ([] & a0 & Hm & Hp). injection Hm as <-.
  assert (upd_execution_state (fun _ => Unset) a = a) as Hid by (rewrite <- (idle_execution a Ha); by destruct a).
  rewrite Hid in Hp. apply app_bind_Done in Hp as ([] & a0 & [_ ->]%app_ret_Done & Hp).
  apply app_bind_Done in Hp as (d' & a0 & Hparse & Hp). rewrite Hparse in Hd. injection Hd as ->.
  pose proof (read_only_Done _ _ _ _ (parse_block_data_read_only _ _) Hparse) as ->.
  apply app_bind_Done in Hp as (res & a2 & Hx & Hp). apply app_wrap_Done, post_execute_Done in Hp as (h & a3 & Hh & Hm & He).
  assert (execution_state a2 = Unset) as Hu.
  { apply execute_processed_Done in Hx as (hashes & a4 & _ & Hpre & _ & Hx & _).
    apply pre_execute_same with (b := a) in Hpre as (_ & _ & _ & Hu & _); [|done].
    apply (steady_same _ _ a4) in Hx as (_ & _ & _ & He' & _); [by rewrite He'|apply _|apply same_block_refl]. }
  rewrite (mark_executed_unset h a2 Hu) in Hm. injection Hm as <-. by exists h, res, a2.
Qed.

Lemma parse_app txs height a d :
  (parse_block_data txs height a).1 = Done d -> parse_block_data txs height a = (Done d, a).
Proof.
  intros Hd. pose proof (parse_block_data_read_only txs height a) as Hr.
  destruct (parse_block_data _ _ _) as [r a']. cbn in *. by subst.
Qed.
Lemma same_execution_state st a : execution_state a = st -> upd_execution_state (fun _ => st) a = a.
Proof. intros <-. by destruct a. Qed.
Lemma apply_prices_none d time height a :
  ebd_extended_commit_info d = None -> apply_prices d time height a = (Done [], a).
Proof. unfold apply_prices. by intros ->. Qed.

(** A node that executed the block applies the prices to the state after it. *)
Lemma finalize_executed r h cached a d :
  fin_hash r = Sha256Hash h -> execution_state a = ExecutedBlock h cached ->
  (parse_block_data (fin_txs r) (fin_height r) a).1 = Done d ->
  finalize_block r a = (apply_prices d (fin_time r) (fin_height r) ≫= respond) a.
Proof.
  intros Hh Hs Hd. unfold finalize_block.
  rewrite (app_bind_step _ _ _ h a) by by apply block_hash_of_Done.
  rewrite (app_bind_step _ _ _ (execution_state a) a) by done.
  rewrite Hs. cbn [check_if_executed_block]. rewrite decide_True by done.
  rewrite (app_bind_step _ _ _ tt a) by (unfold app_modify; by rewrite (same_execution_state _ _ Hs)).
  rewrite (app_bind_step _ _ _ tt a) by done.
  by rewrite (app_bind_step _ _ _ d a) by by apply parse_app.
Qed.
(** From scratch, the round starts again and everything is executed. *)
Lemma finalize_scratch r h a response a' :
  fin_hash r = Sha256Hash h -> (check_if_executed_block h (execution_state a)).1 = false ->
  finalize_block r a = (Done response, a') <->
  exists d evs a0 a1,
    parse_block_data (fin_txs r) (fin_height r) (round_start a) = (Done d, round_start a) /\
    apply_prices d (fin_time r) (fin_height r) (round_start a) = (Done evs, a0) /\
    execute_finalized r d a0 = (Done tt, a1) /\ respond evs a1 = (Done response, a').
Proof.
  intros Hh Hs. unfold finalize_block. rewrite (app_bind_step _ _ _ h a) by by apply block_hash_of_Done.
  rewrite (app_bind_step _ _ _ (execution_state a) a) by done.
  destruct (check_if_executed_block h (execution_state a)) as [? st]. cbn in Hs. subst.
  rewrite (app_bind_step _ _ _ tt (upd_execution_state (fun _ => st) a)) by done.
  rewrite (app_bind_step _ _ _ tt (round_start a)) by done. rewrite app_bind_Done. split.
  - intros (d & a0 & Hd & Hr). pose proof (read_only_Done _ _ _ _ (parse_block_data_read_only _ _) Hd) as ->.
    apply app_bind_Done in Hr as (evs & a0 & Hp & Hr). apply app_bind_Done in Hr as ([] & a1 & He & Hr).
    by exists d, evs, a0, a1.
  - intros (d & evs & a0 & a1 & Hd & Hp & He & Hr). exists d, (round_start a). split; [done|].
    rewrite (app_bind_step _ _ _ evs a0) by done. by rewrite (app_bind_step _ _ _ tt a1).
Qed.
Lemma execute_finalized_Done r d a a' :
  execute_finalized r d a = (Done tt, a') <->
  exists hashes a1 res a2 block,
    pre_execute_transactions (finalized_block_data r) a = (Done hashes, a1) /\
    ebd_upgrade_change_hashes d = bytes_of <$> hashes /\
    on_execution (finalize_tx_execution (ledger_txs d)) a1 = (Done res, a2) /\
    post_execute_transactions (fin_hash r) (fin_height r) (fin_time r) (fin_proposer_address r) d res a2
      = (Done block, a').
Proof.
  unfold execute_finalized. rewrite app_bind_Done. split.
  - intros (hashes & a1 & Hp%app_wrap_Done & Hr).
    apply app_bind_Done in Hr as ([] & a1' & [He%bool_decide_eq_true ->]%app_ensure_Done & Hr).
    apply app_bind_Done in Hr as (res & a2 & Hx & Hr). apply app_bind_Done in Hr as (block & a3 & Hb%app_wrap_Done & Hr).
    apply app_ret_Done in Hr as [_ ->]. by exists hashes, a1, res, a2, block.
  - intros (hashes & a1 & res & a2 & block & Hp & He & Hx & Hb). exists hashes, a1. rewrite app_wrap_Done. split; [done|].
    rewrite (app_bind_step _ _ _ tt a1) by (apply app_ensure_Done; split; [by apply bool_decide_eq_true|done]).
    rewrite (app_bind_step _ _ _ res a2) by done.
    by rewrite (app_bind_step _ _ _ block a') by by apply app_wrap_Done.
Qed.

(** C9. C. A block without extended commit info, which leaves the parameters of
    consensus as they are: a node that never saw its proposal and executes it when
    it is decided ends where a node that executed it while checking the proposal
    does, with the same response to CometBFT, the same state to commit and the same
    root hash. *)
Theorem missed_block_finalizes_the_same request a b block a1 d :
  idle a -> execution_state b = Unset -> peers a b ->
  process_proposal request a = (Done block, a1) ->
  (parse_block_data (proc_txs request) (proc_height request) a).1 = Done d ->
  ebd_extended_commit_info d = None ->
  consensus_params (app_data (ledger (state a1))) = consensus_params (app_data (ledger (state a))) ->
  exists response a2 b2,
    finalize_block (finalize_request request) a1 = (Done response, a2) /\
    finalize_block (finalize_request request) b = (Done response, b2) /\
    same_block a2 b2 /\ write_batch a2 = write_batch b2 /\
    write_batch a2 = Some (committed a1) /\ fr_app_hash response = root_hash (committed a1).1.
Proof.
  intros Ha Hb Hpeers Hprocess Hparse Hinfo Hparams.
  destruct (process_from_scratch _ _ _ _ _ Ha Hprocess Hparse) as (h & res & a2 & Hh & Hx & Hu & He).
  apply execute_processed_Done in Hx as (hashes & a3 & _ & Hpre & Hhashes & Hx & _).
  rewrite (idle_round_start a Ha) in Hpre. rewrite <- (idle_round_start a Ha) in Hpre.
  assert (is_Some (block_height (app_data (ledger (state a1))))) as Hheight.
  { fold (height_of (ledger (state a1))). rewrite (end_and_store_height _ _ _ _ _ _ _ _ _ He). cbn.
    apply on_execution_Done in Hx as (x & Hx & ->). apply proposal_app_data in Hx. cbn in Hx |- *.
    unfold height_of. rewrite Hx. apply pre_execute_height in Hpre. by eexists. }
  apply accepted_finalize in Hx.
  destruct (pre_execute_same _ _ _ _ _ Hpeers Hpre) as (b3 & Hpre' & Hs3 & _ & Hu3).
  destruct (steady_same _ _ b3 _ _ _ Hs3 Hx) as (b4 & Hx' & Hs4 & _ & Hu4). rewrite Hu3 in Hu4.
  set (executed := fun _ : ExecutionState => ExecutedBlock h None) in *.
  assert (same_block (upd_execution_state executed a2) (upd_execution_state executed b4)) as Hs4'
    by (destruct Hs4 as [? ? []]; by repeat split).
  destruct (steady_same _ _ _ _ _ _ Hs4' He) as (b5 & He' & Hs5 & Hea & Heb).
  assert (peers a a1) as Hkeep.
  { pose proof (keeps_Done _ _ _ _ Hpre) as []. pose proof (keeps_Done _ _ _ _ Hx) as [].
    pose proof (keeps_Done _ _ _ _ He) as []. cbn in *. split; congruence. }
  destruct (end_and_store_block_kept _ _ _ _ _ _ _ _ _ He) as [post Hpost].
  destruct (respond_same [] a1 b5 Hs5) as (r & a6 & b6 & Ha6 & Hb6 & Hs6 & Hw & Hw'); [by eexists|done|].
  exists r, a6, b6. split_and!; [| |done..|].
  - rewrite (finalize_executed _ h None a1 d), (app_bind_step _ _ _ [] a1); [exact Ha6|by apply apply_prices_none|done|by rewrite Hea|].
    cbn. rewrite <- Hparse. apply parse_block_data_params; [symmetry; apply Hkeep|done].
  - rewrite finalize_scratch by (try done; by rewrite Hb).
    exists d, [], (round_start b), b5. split_and!; [apply parse_app| |apply execute_finalized_Done|done].
    2: by apply apply_prices_none.
    2: { exists hashes, b3, res, b4, block. split_and!; [done..|].
         apply post_execute_Done. exists h, (upd_execution_state executed b4). split_and!; [done| |done].
         apply mark_executed_unset. by rewrite Hu4. }
    cbn. rewrite <- Hparse. apply parse_block_data_params.
    + symmetry. apply Hpeers.
    + rewrite (idle_state a Ha). cbn. by rewrite (peers_storage a b Hpeers).
  - rewrite (respond_run [] a1 post Hpost Hheight) in Ha6. by injection Ha6 as <- _.
Qed.

(** ** Prices of a block *)
Definition prices_of (d : ExpandedBlockData) (prices : list Price) : Prop :=
  exists e, ebd_extended_commit_info d = Some e /\
    calculate_prices_from_vote_extensions (commit_info (ecp_info e)) (id_to_pair (ecp_info e)) = Val (Ok prices).
Lemma apply_prices_run d prices time height a :
  prices_of d prices ->
  apply_prices d time height a =
  ('(_, evs) ← app_wrap "failed to apply prices from vote extensions" (on_delta (for_each (apply_price time height) prices));
   mret evs) a.
Proof.
  intros (e & He & Hp). unfold apply_prices, apply_prices_from_vote_extensions. rewrite He.
  unfold mbind, AppM_bind, app_wrap, on_delta, M_bind, wrap_err at 1, lift_attempt. by rewrite Hp.
Qed.
Lemma apply_price_run time height q s st :
  pair_states (oracle s) !! price_pair q = Some st ->
  match increment (pair_nonce st) with
  | Some nonce => exists s', apply_price time height q s = (Done tt, s') /\
      pair_states (oracle s') =
        <[price_pair q := mk_pair_state (Some (mk_quote (price_value q) time height)) nonce (pair_id st)]> (pair_states (oracle s))
  | None => exists e, apply_price time height q s = (Fail e, s)
  end.
Proof.
  intros Hst. unfold apply_price, put_price_for_currency_pair, get_currency_pair_state, put_currency_pair_state.
  unfold mbind, M_bind, wrap_err, gets. rewrite Hst. cbn. destruct (increment _); by eexists.
Qed.
(** A pair without a state has no room for a price. *)
Lemma no_state_no_price time height p prices s :
  p ∈ price_pair <$> prices -> pair_states (oracle s) !! p = None ->
  exists e s', for_each (apply_price time height) prices s = (Fail e, s').
Proof.
  revert s. induction prices as [|q prices IH]; intros s Hin Hp; [by apply elem_of_nil in Hin|].
  cbn [for_each]. unfold mbind, M_bind. destruct (pair_states (oracle s) !! price_pair q) as [st|] eqn:Hq.
  - pose proof (apply_price_run time height _ _ _ Hq) as Hrun.
    destruct (increment _); [destruct Hrun as (s' & -> & Hs')|destruct Hrun as [e ->]; by eexists _, _].
    cbn in Hin. apply elem_of_cons in Hin as [->|Hin]; [by rewrite Hp in Hq|]. apply IH; [done|].
    rewrite Hs', lookup_insert_ne; [done|]. intros E. by rewrite E, Hp in Hq.
  - unfold apply_price, put_price_for_currency_pair, get_currency_pair_state, mbind, M_bind, wrap_err, gets.
    rewrite Hq. by eexists _, _.
Qed.
(** Pairs that have a state, and room for [n] more prices *)
Definition has_room (n : nat) (s : State) (p : CurrencyPair) : Prop :=
  exists st, pair_states (oracle s) !! p = Some st /\ pair_nonce st + Z.of_nat n < 2 ^ 64.
Lemma states_take_prices time height prices s :
  Forall (has_room (List.length prices) s) (price_pair <$> prices) ->
  exists s', for_each (apply_price time height) prices s = (Done tt, s').
Proof.
  revert s. induction prices as [|q prices IH]; intros s Hall; [by eexists|].
  cbn in Hall. apply list.Forall_cons in Hall as [(st & Hq & Hn) Hall].
  cbn [for_each]. unfold mbind, M_bind. pose proof (apply_price_run time height _ _ _ Hq) as Hrun.
  assert (increment (pair_nonce st) = Some (pair_nonce st + 1)) as Hi by (apply checked_add_Some; lia).
  rewrite Hi in Hrun. destruct Hrun as (s' & -> & Hs').
  apply IH. eapply list.Forall_impl; [exact Hall|]. intros p (st' & Hp & Hn'). unfold has_room. rewrite Hs'.
  destruct (decide (price_pair q = p)) as [<-|Hne].
  - rewrite lookup_insert_eq. eexists. split; [done|]. cbn. lia.
  - rewrite lookup_insert_ne by done. eexists. split; [done|]. lia.
Qed.


(** ** Rounds *)
Lemma respond_Done evs a r a' :
  respond evs a = (Done r, a') ->
  is_Some (post_execution_result (state a)) /\ is_Some (block_height (app_data (ledger (state a)))).
Proof.
  intros Hr. unfold respond in Hr. apply app_bind_Done in Hr as (o & a1 & [-> ->]%app_gets_Done & Hr).
  apply app_bind_Done in Hr as (post & a1 & [Hp ->]%app_run_Done & Hr).
  apply app_bind_Done in Hr as (hash & a2 & Hc%app_wrap_Done & _).
  split; [by destruct (post_execution_result _)|]. unfold prepare_commit in Hc.
  apply app_bind_Done in Hc as (st & a3 & [-> ->]%app_gets_Done & Hc).
  apply app_bind_Done in Hc as (b & a3 & [-> ->]%app_gets_Done & Hc).
  apply app_bind_Done in Hc as ([] & a4 & _ & Hc).
  apply app_bind_Done in Hc as (h & a5 & [Hh _]%app_run_Done & _). by destruct (block_height _).
Qed.
Lemma post_execute_same hash height time p d res a b block a1 :
  same_block a b -> execution_state a = Unset -> execution_state b = Unset ->
  post_execute_transactions hash height time p d res a = (Done block, a1) ->
  exists b1, post_execute_transactions hash height time p d res b = (Done block, b1) /\ same_block a1 b1.
Proof.
  intros Hs Ha Hb. rewrite post_execute_Done. intros (h & a0 & -> & Hm & He).
  rewrite (mark_executed_unset _ _ Ha) in Hm. injection Hm as <-.
  apply (steady_same _ _ (upd_execution_state (fun _ => ExecutedBlock h None) b)) in He as (b1 & He & Hs1 & _);
    [|apply _|by destruct Hs as [? ? []]; repeat split].
  exists b1. split; [|done]. apply post_execute_Done.
  exists h, (upd_execution_state (fun _ => ExecutedBlock h None) b). split_and!; [done| |done].
  by apply mark_executed_unset.
Qed.

(** C10. C. Of two nodes of a chain that have not executed the decided block in this
    round, one finalizes it exactly as the other, its price data included, whatever
    proposals each of them prepared or checked before, accepted or not: but for the
    block itself, rounds leave no trace. *)
Theorem rounds_leave_no_trace r h a b response a1 :
  peers a b -> fin_hash r = Sha256Hash h ->
  (check_if_executed_block h (execution_state a)).1 = false ->
  (check_if_executed_block h (execution_state b)).1 = false ->
  finalize_block r a = (Done response, a1) ->
  exists b1, finalize_block r b = (Done response, b1) /\ same_block a1 b1 /\
    write_batch a1 = write_batch b1.
Proof.
  intros Hp Hh Ha Hb. rewrite (finalize_scratch _ _ _ _ _ Hh Ha).
  intros (d & evs & a2 & a3 & Hd & Hprice & Hx & Hr).
  set (w x := on_node (round_start b) (with_recost (recost_mempool b) x)).
  assert (Aside w) as Hw by (split; done).
  assert (w (round_start a) = round_start b) as Hstart by (symmetry; by apply round_start_peers).
  pose proof Hprice as Hprice'.
  apply (steady_same _ _ (round_start a)) in Hprice' as (_ & _ & _ & Hu2 & _); [|apply _|apply same_block_refl].
  apply (steady_Done w) in Hd, Hprice; [|apply _..]. rewrite Hstart in Hd, Hprice.
  apply execute_finalized_Done in Hx as (hashes & a4 & res & a5 & block & Hpre & Hhashes & Hx & Hpost).
  pose proof Hpre as Hpre'. pose proof Hx as Hx'.
  apply (steady_same _ _ a2) in Hpre' as (_ & _ & _ & Hu4 & _); [|apply _|apply same_block_refl].
  apply (steady_same _ _ a4) in Hx' as (_ & _ & _ & Hu5 & _); [|apply _|apply same_block_refl].
  apply (pre_execute_recost (recost_mempool b)) in Hpre.
  apply (steady_Done (on_node (round_start b))) in Hpre, Hx; [|apply _..].
  apply (post_execute_same _ _ _ _ _ _ _ (on_node (round_start b) a5)) in Hpost as (b3 & Hpost & Hs3);
    [|by apply same_block_on_node|by rewrite Hu5, Hu4, Hu2|done].
  destruct (respond_Done _ _ _ _ Hr) as [Hk1 Hk2].
  destruct (respond_same evs a3 b3 Hs3 Hk1 Hk2) as (resp & a6 & b6 & Ha6 & Hb6 & Hs6 & Hw6 & _).
  rewrite Hr in Ha6. injection Ha6 as <- <-. exists b6. split; [|done].
  apply (finalize_scratch _ h); [done..|]. exists d, evs, (w a2), b3. split_and!; [done..| |done].
  apply execute_finalized_Done. by exists hashes, (on_node (round_start b) a4), res, (on_node (round_start b) a5), block.
Qed.
End agreement.
