(* ===== verification/AppAgreement.v ===== *)
(** * Proposers and validators agree

    The block a proposer built and recognises when it is asked to check it is
    accepted by every other node, which executes it from scratch, with the
    same result. *)
From S2P Require Import Prelude Denom Types State Chain Accounts Ics20 Authority Relay Transact BTree Mempool.
From S2P Require Import Wire WireActions WireTransaction WireLaws Collections.
From S2P Require Import Block SequencerBlock BlockLemmas BlockBuild.
From S2P Require Import ExecutionState Upgrades VoteExtension VoteTheorems Proposal ProposalTheorems BlockStore.
From S2P Require Import App AppLemmas AppTheorems.
From stdpp Require Import base list option strings sets gmap numbers tactics.
From Stdlib Require Import ZArith Lia Ascii String.
Open Scope string_scope.
Open Scope Z_scope.

(** ** Reading back what a proposer wrote *)
Section reading_back.
Context `{BlockLaws}.

Lemma text_inj h h' : text_of h = text_of h' -> h = h'.
Proof. intros Ht. by rewrite <- (bytes_text h), Ht, bytes_text. Qed.
Lemma item_read_back index i j : data_item_decode index (data_item_encode i) = Ok j -> j = i.
Proof.
  unfold data_item_decode, data_item_encode. rewrite data_item_inverse. intros Hj.
  destruct i as [h|h|hs|s]; step; cbn in Hj; decode Hj; subst j; [..|done]; f_equal.
  - apply hash_of_Ok in Ha as [_ Ht]. by apply text_inj.
  - apply hash_of_Ok in Ha as [_ Ht]. by apply text_inj.
  - apply try_collect_Ok in Ha. clear -Ha H0. revert a Ha.
    induction hs as [|h hs IH]; intros l Hl; inversion Hl as [|? ? ? ? Hh Hhs]; [done|]. subst.
    apply hash_of_Ok in Hh as [_ Ht]. f_equal; [symmetry; by apply text_inj|by apply IH].
Qed.

(** The data of a block without change hashes *)
Definition written_data (c : GeneratedCommitments) (info : option string) (tx_bytes : list string) : list string :=
  (commitments_into_iter true c ++
   option_list ((fun i => data_item_encode (DataItem_ExtendedCommitInfo i)) <$> info) ++ tx_bytes)%list.
Definition no_change_hashes (bs : string) : Prop :=
  forall index hs, data_item_decode index bs <> Ok (DataItem_UpgradeChangeHashes hs).

Lemma nothing_taken index rest :
  match head rest with Some bs => no_change_hashes bs | None => True end ->
  take_change_hashes index rest = ([], rest, index).
Proof.
  destruct rest as [|bs rest]; [done|]. cbn. intros Hbs.
  destruct (data_item_decode index bs) as [[]|] eqn:Hd; try done. by apply Hbs in Hd.
Qed.

(** Whoever can read such data reads what was written. *)
Lemma written_data_read c info tx_bytes d :
  (info = None -> match head tx_bytes with Some bs => no_change_hashes bs | None => True end) ->
  new_from_typed_data (written_data c info tx_bytes) (if info is Some _ then true else false) = Val (Ok d) ->
  ebd_rollup_transactions_root d = gc_rollup_datas_root c /\ ebd_rollup_ids_root d = gc_rollup_ids_root c /\
  ebd_upgrade_change_hashes d = [] /\
  Forall2 (fun bs tx => decode_user_transaction bs = Ok tx) tx_bytes (ebd_user_submitted_transactions d) /\
  match info with
  | Some i => exists raw e, decode_commit_mapping i = Some raw /\ ebd_extended_commit_info d = Some e /\
      mapping_try_from_raw raw = Ok (ecp_info e)
  | None => ebd_extended_commit_info d = None
  end.
Proof.
  intros Hamb Hd. unfold new_from_typed_data, written_data in Hd. cbn [commitments_into_iter app] in Hd.
  apply attempt_bind_Ok in Hd as (txs_root & Htxs & Hd). apply checked_Ok in Htxs. decode Htxs.
  apply item_read_back in Ha as ->. injection Htxs as <-.
  apply attempt_bind_Ok in Hd as (ids_root & Hids & Hd). apply checked_Ok in Hids. decode Hids.
  apply item_read_back in Ha as ->. injection Hids as <-.
  rewrite nothing_taken in Hd.
  2: { destruct info as [i|]; cbn; [|by apply Hamb]. intros index hs Hi. by apply item_read_back in Hi. }
  apply attempt_bind_Ok in Hd as ([o rest] & Ho & Hd). apply checked_Ok in Ho.
  apply attempt_bind_Ok in Hd as (txs & Htxs & Hd). cbv zeta in Hd. apply checked_Ok, try_collect_Ok in Htxs.
  apply attempt_bind_Ok in Hd as (tree & _ & Hd). apply attempt_bind_Ok in Hd as (root & _ & Hd).
  apply attempt_bind_Ok in Hd as (p0 & _ & Hd). apply attempt_bind_Ok in Hd as (p1 & _ & Hd).
  apply attempt_bind_Ok in Hd as (o' & Ho' & Hd). injection Hd as <-. apply attempt_option_Ok in Ho'.
  destruct info as [i|]; cbn in Ho.
  - decode Ho. subst o rest.
    match goal with H : data_item_decode _ _ = Ok _ |- _ => apply item_read_back in H as -> end.
    match goal with H : into_extended_commit_info _ _ = Ok _ |- _ => injection H as <- end.
    destruct Ho' as (e & He & ->). apply attempt_bind_Ok in He as (p2 & _ & He). injection He as <-.
    split_and!; try done. by eexists _, _.
  - injection Ho as <- <-. split_and!; try done.
Qed.
End reading_back.

(** The libraries' promises to the application *)
Class AppLaws `{AppCodec, VoteCodec} : Prop := {
  app_block_laws :: BlockLaws;
  tm_commit_inverse c : tm_commit_from_raw (tm_commit_into_raw c) = Some c;
  empty_commit_mapping r : decode_commit_mapping "" = Some r -> raw_commit_info r = None;
  commit_mapping_inverse r : decode_commit_mapping (encode_commit_mapping r) = Some r;
  empty_vote : decode_vote_extension "" = Some [] }.

Section commit_infos.
Context `{AppLaws}.

Lemma pair_read_back p p' : try_from_raw CurrencyPair (to_raw p) = Ok p' -> p' = p.
Proof.
  destruct p as [b q]. intros Hp. change (currency_pair_try_from_raw (mk_raw_pair b q) = Ok p') in Hp.
  unfold currency_pair_try_from_raw, base_from_str, quote_from_str in Hp. decode Hp. cbn in *.
  do 2 case_match; by simplify_eq.
Qed.
Lemma mapping_read_back m m' :
  unique (id_to_pair m) -> mapping_try_from_raw (mapping_into_raw m) = Ok m' -> m' = m.
Proof.
  intros Hu Hm. unfold mapping_try_from_raw, mapping_into_raw in Hm. cbn [raw_commit_info raw_id_to_pair] in Hm.
  decode Hm. injection Ha as <-. rewrite tm_commit_inverse in Ha0. injection Ha0 as <-. subst m'.
  apply try_collect_Ok in Ha1. destruct m as [info pairs]. cbn in *. f_equal.
  assert (a1 = pairs) as ->; [|by apply index_collect_unique].
  clear -Ha1. revert a1 Ha1. induction pairs as [|[i [p d]] pairs IH]; intros l Hl; [by inversion Hl|].
  cbn in Hl. apply Forall2_cons_inv_l in Hl as (x & l' & Hx & Hl & ->). f_equal; [|by apply IH].
  unfold pair_info_try_from_raw in Hx. cbn in Hx. decode Hx. subst.
  by match goal with H : try_from_raw _ _ = Ok _ |- _ => apply pair_read_back in H as -> end.
Qed.
End commit_infos.

(** ** What the checks of the votes depend on

    The height and the time of the block are not among it, nor what the IBC library
    writes when it starts. *)
Definition in_block (height : Z) (time : Time) (written : gmap string string) (s : State) : State :=
  on_ibc (upd_library (fun _ => written))
    (on_app_data (upd_block_timestamp (fun _ => Some time)) (on_app_data (upd_block_height (fun _ => Some height)) s)).
Class Timeless {A} (m : M A) : Prop :=
  timeless height time written s :
    m (in_block height time written s) = ((m s).1, in_block height time written (m s).2).

Section timeless.
#[local] Instance timeless_ret {A} (x : A) : Timeless (mret x).
Proof. done. Qed.
#[local] Instance timeless_bind {A B} (m : M A) (f : A -> M B) :
  Timeless m -> (forall x, Timeless (f x)) -> Timeless (m ≫= f).
Proof.
  intros Hm Hf height time written s. unfold mbind, M_bind. rewrite (Hm height time written s).
  destruct (m s) as [[x| |] s1]; cbn; [apply Hf|done..].
Qed.
#[local] Instance timeless_wrap {A} msg (m : M A) : Timeless m -> Timeless (wrap_err msg m).
Proof. intros Hm height time written s. unfold wrap_err. rewrite (Hm height time written s). by destruct (m s) as [[] ?]. Qed.
#[local] Instance timeless_ensure b msg : Timeless (ensure_that b msg).
Proof. by destruct b. Qed.
#[local] Instance timeless_ok_or {A} (o : option A) msg : Timeless (ok_or_eyre o msg).
Proof. by destruct o. Qed.
#[local] Instance timeless_expect {A} (o : option A) : Timeless (expect o).
Proof. by destruct o. Qed.
#[local] Instance timeless_bail {A} msg : Timeless (bail msg : M A).
Proof. done. Qed.
#[local] Instance timeless_lift {A} (r : result Report A) : Timeless (lift r).
Proof. by destruct r. Qed.
#[local] Instance timeless_fold {A B} (f : B -> A -> M B) acc l :
  (forall b a, Timeless (f b a)) -> Timeless (fold_each f acc l).
Proof. intros Hf. revert acc. induction l as [|x l IH]; intros acc; cbn; apply _. Qed.
Lemma timeless_gets {A} (f : State -> A) :
  (forall height time written s, f (in_block height time written s) = f s) -> Timeless (gets f).
Proof. intros Hf height time written s. unfold gets. by rewrite Hf. Qed.
#[local] Hint Extern 1 (Timeless (gets _)) => (apply timeless_gets; done) : typeclass_instances.

Context `{Tendermint, VoteCodec}.
Ltac timelessness := repeat first [apply _ | apply timeless_bind; [|intros ?] | progress case_match].
#[export] Instance tally_vote_timeless chain_id height round t v : Timeless (tally_vote chain_id height round t v).
Proof.
  unfold tally_vote, try_base_prefixed, get_base_prefix, validator_verification_key, get_validator. timelessness.
Qed.
#[export] Instance validate_votes_timeless height info : Timeless (validate_vote_extensions height info).
Proof. unfold validate_vote_extensions, get_chain_id. timelessness. Qed.
#[export] Instance add_id_pair_timeless market_map m i : Timeless (add_id_pair market_map m i).
Proof. unfold add_id_pair, get_currency_pair. timelessness. Qed.
#[export] Instance id_to_pair_timeless ids : Timeless (get_id_to_currency_pair ids).
Proof. unfold get_id_to_currency_pair, get_market_map. timelessness. Qed.
#[export] Instance validate_proposal_timeless height c m : Timeless (handler_validate_proposal height c m).
Proof.
  unfold handler_validate_proposal, get_max_num_currency_pairs, get_num_currency_pairs,
    validate_id_to_currency_pair_mapping. timelessness.
Qed.
End timeless.

(** ** What a proposer did *)
Section proposer.
Context `{AppLaws, Borsh, Relay}.

(** The app of a proposer: the block it started from, the transactions it
    ran, and what it keeps of them *)
Definition proposer_app (q : PrepareProposal) (txs : list string) (p : Proposal.Prepared) (x : Execution)
    (a : App) : App :=
  upd_execution_state (fun _ => ExecutionState.Prepared (prepared_proposal q txs))
    (with_results (Some (prepared_results p))
       (upd_app_mempool (fun _ => prepared_mempool p)
          (upd_recost_mempool (fun _ => ex_recost x) (upd_state (upd_ledger (fun _ => ex_state x)) a)))).
Definition block_deposits (s : State) : list (RollupId * list Deposit) := map_to_list (cached_deposits (bridge s)).

Lemma prepare_commit_info_read_only q c : read_only (prepare_commit_info q c).
Proof.
  unfold prepare_commit_info, vote_extensions_enabled, reading.
  apply read_only_bind.
  { apply read_only_bind; [|done]. intros a. unfold app_wrap. by destruct (get_consensus_params _).1. }
  intros []; [|done]. apply read_only_bind; [intros a; by destruct (prep_local_last_commit q)|]. intros lc.
  apply read_only_bind; [intros a; unfold proposed_commit_info; by destruct (handler_prepare_proposal _ _ _) as [[] ?]|].
  intros m. apply read_only_bind; [intros a; by destruct (fit_commit_info m c)|]. by intros [].
Qed.

Lemma prepare_proposal_Done q a txs a1 :
  prepare_proposal q a = (Done txs, a1) ->
  exists hashes a0 uses c info c' p x commitments,
    pre_execute_transactions (prepared_block_data q) (round_start a) = (Done hashes, a0) /\
    (uses_data_item_enum (prep_height q) a0).1 = Done uses /\
    start_constraints q uses (encode_change_hashes hashes) = Ok c /\
    prepare_commit_info q c a0 = (Done (info, c'), a0) /\
    prepare_proposal_tx_execution c' (app_mempool a) (mk_execution (ledger (state a0)) (recost_mempool a0))
      = (Done p, x) /\
    generate_rollup_datas_commitment (prepared_txs p) (block_deposits (ex_state x)) = Val commitments /\
    txs = (commitments_into_iter uses commitments ++ option_list (encode_change_hashes hashes) ++
           option_list info ++ prepared_bytes p)%list /\
    a1 = proposer_app q txs p x a0.
Proof.
  intros Hq. unfold prepare_proposal in Hq.
  apply app_bind_Done in Hq as ([] & a' & Hs & Hq). rewrite update_state_run in Hs. injection Hs as <-.
  apply app_bind_Done in Hq as (hashes & a0 & Hpre%app_wrap_Done & Hq).
  apply app_bind_Done in Hq as (uses & a' & Huses & Hq).
  assert (a' = a0) as -> by (unfold uses_data_item_enum in Huses; by apply app_gets_Done in Huses as [_ ->]).
  apply app_bind_Done in Hq as (c & a' & [Hc ->]%app_result_Done & Hq).
  apply app_bind_Done in Hq as ([info c'] & a' & Hi & Hq).
  pose proof (read_only_Done _ _ _ _ (prepare_commit_info_read_only _ _) Hi) as ->.
  apply app_bind_Done in Hq as (p & a2 & Hx & Hq).
  unfold execute_prepared in Hx. apply app_bind_Done in Hx as (m & a' & [-> ->]%app_gets_Done & Hx).
  apply app_bind_Done in Hx as (p' & a3 & Hx%app_wrap_Done & Hp).
  apply on_execution_Done in Hx as (x & Hx & ->).
  assert (p' = p /\ a2 = with_results (Some (prepared_results p')) (upd_app_mempool (fun _ => prepared_mempool p')
    (upd_recost_mempool (fun _ => ex_recost x) (upd_state (upd_ledger (fun _ => ex_state x)) a0)))) as [-> ->].
  { apply app_bind_Done in Hp as ([] & a4 & Hm & Hp). injection Hm as <-.
    apply app_bind_Done in Hp as ([] & a4 & Hm & Hp). injection Hm as <-.
    apply app_ret_Done in Hp as [-> ->]. done. }
  pose proof Hpre as Hpre'. apply pre_execute_same with (b := a) in Hpre' as (_ & _ & _ & Hu & _); [|by split].
  apply steady_own in Hpre as Hown; [|apply _].
  apply app_bind_Done in Hq as (deposits & a' & Hd & Hq). injection Hd as <- <-.
  apply app_bind_Done in Hq as (commitments & a' & [Hg ->]%app_run_Done & Hq).
  apply app_bind_Done in Hq as (st & a' & [-> ->]%app_gets_Done & Hq).
  cbn [execution_state with_results upd_state upd_app_mempool upd_recost_mempool] in Hq. rewrite Hu in Hq.
  cbn [set_prepared_proposal] in Hq.
  apply app_bind_Done in Hq as ([] & a' & Hm & Hq). injection Hm as <-.
  apply app_bind_Done in Hq as ([] & a' & Hw & Hq). apply app_wrap_Done, app_result_Done in Hw as [_ ->].
  apply app_ret_Done in Hq as [-> ->].
  assert (app_mempool a0 = app_mempool a) as Hmem by by rewrite Hown.
  rewrite <- Hmem. exists hashes, a0, uses, c, info, c', p, x, commitments. rewrite Huses. by split_and!.
Qed.

(** *** The start of the block: no upgrade, no misbehaviour *)
Lemma same_validator_set set s :
  pre_aspen_set (authority s) = Some set -> on_authority (upd_pre_aspen_set (fun _ => Some set)) s = s.
Proof. intros Hs. destruct s as [? ? ? [] ?]. cbn in *. by subst. Qed.
Lemma begin_block_nothing height time s u s' :
  app_begin_block height time [] s = (Done u, s') -> exists written, s' = in_block height time written s.
Proof.
  unfold app_begin_block. rewrite bind_done. intros ([] & s1 & Hh%wrap_err_done & Hs).
  unfold put_block_height in Hh. apply modify_done in Hh as ->.
  apply bind_done in Hs as ([] & s2 & Ht%wrap_err_done & Hs).
  unfold put_block_timestamp in Ht. apply modify_done in Ht as ->.
  apply bind_done in Hs as ([] & s5 & Ha%wrap_err_done & Hs).
  unfold library_put in Hs. apply modify_done in Hs as ->.
  cut (s5 = on_app_data (upd_block_timestamp (fun _ => Some time)) (on_app_data (upd_block_height (fun _ => Some height)) s));
    [intros ->; by eexists|].
  unfold authority_begin_block in Ha.
  apply bind_done in Ha as (pre & s3 & Hp & Ha). apply reads_done in Hp as ->.
  2: { unfold use_pre_aspen_validator_updates, get_upgrade_change_info. eauto 10 with astria. }
  destruct pre.
  - apply bind_done in Ha as (set & s4 & Hg%wrap_err_done & Ha). unfold pre_aspen_get_validator_set in Hg.
    run_inv Hg. subst. apply wrap_err_done in Ha. unfold pre_aspen_put_validator_set in Ha.
    apply modify_done in Ha as ->. cbn [foldl]. by apply same_validator_set.
  - cbn in Ha. by apply mret_done in Ha as [_ ->].
Qed.
Lemma events_roundtrip s l : on_events (fun _ => events s) (on_events (fun _ => l) s) = s.
Proof. by destruct s. Qed.
Lemma pre_execute_ledger d a hashes a1 :
  upgrade_activating_at_height (bd_height d) (handler_upgrades (upgrades_handler a)) = None ->
  bd_misbehavior d = [] -> pre_execute_transactions d a = (Done hashes, a1) ->
  hashes = [] /\ exists written, ledger (state a1) = in_block (bd_height d) (bd_time d) written (ledger (state a)).
Proof.
  intros Hup Hmis Hpre. unfold pre_execute_transactions in Hpre.
  apply app_bind_Done in Hpre as (hs & a2 & Hu & Hpre).
  assert (hs = [] /\ state a2 = state a) as [-> Hst].
  { unfold execute_due_upgrade in Hu. apply app_bind_Done in Hu as (u & a3 & [-> ->]%app_gets_Done & Hu).
    apply app_bind_Done in Hu as (before & a3 & [-> ->]%app_gets_Done & Hu).
    apply app_bind_Done in Hu as ([hs' evs] & a3 & Hd%app_wrap_Done & Hu).
    unfold on_delta, execute_upgrade_if_due in Hd. rewrite Hup in Hd. injection Hd as <- <- <-.
    rewrite bool_decide_true in Hu by done. apply app_bind_Done in Hu as ([] & a3 & Hm & Hu).
    injection Hm as <-. by apply app_ret_Done in Hu as [-> ->]. }
  apply app_bind_Done in Hpre as (c & a3 & [_ ->]%app_wrap_Done%reading_Done & Hpre).
  apply app_bind_Done in Hpre as ([] & a3 & Hm & Hpre). injection Hm as <-.
  apply app_bind_Done in Hpre as ([] & a3 & Hb & Hpre). apply app_ret_Done in Hpre as [-> ->]. split; [done|].
  unfold begin_block_delta in Hb. apply app_bind_Done in Hb as ([[] evs] & a4 & Hd%app_wrap_Done & Hb).
  apply app_ret_Done in Hb as [_ ->]. unfold on_delta in Hd. rewrite Hmis in Hd. cbn [fmap list_fmap] in Hd.
  destruct (app_begin_block _ _ _ _) as [[] s'] eqn:Hbegin; [|done..]. apply begin_block_nothing in Hbegin as [written ->].
  injection Hd as ? ?; subst. exists written. cbn -[in_block on_events]. rewrite Hst.
  by destruct (ledger (state a)).
Qed.

(** *** The space of the block *)
Record room (c : BlockSizeConstraints) : Prop := {
  room_ok : size_ok c;
  room_sequencer : current_size_sequencer c = 0;
  room_commitments : total_size false <= current_size_cometbft c;
  room_max : max_size_cometbft c < 2 ^ 63 }.
Lemma room_added n c c' : 0 <= n -> room c -> cometbft_checked_add n c = Ok c' -> room c'.
Proof.
  intros Hn [Hc Hs Hl Hm] Ha. destruct (cometbft_add_ok _ _ _ Hn Hc Ha) as (Hc' & H5 & H6 & H7).
  split; [done|congruence|lia|congruence].
Qed.
Lemma item_len_nonneg s : 0 <= item_len s.
Proof. unfold item_len. lia. Qed.
Lemma start_room q uses hashes c :
  prep_max_tx_bytes q < 2 ^ 63 -> start_constraints q uses hashes = Ok c -> room c.
Proof.
  intros Hq Hc. unfold start_constraints in Hc. decode Hc.
  destruct (block_size_new_ok _ _ _ Hq Ha) as (Hok & Hmax & Hcur & Hseq).
  assert (room a) as Hroom.
  { split; [done..| |lia]. rewrite Hcur. destruct uses; cbn; lia. }
  destruct hashes as [bytes|]; decode Hc; [|by subst]. eapply room_added; [|done..]. apply item_len_nonneg.
Qed.
(** The item of the commit info: the votes, or nothing *)
Lemma fit_commit_info_room m c item c' :
  room c -> fit_commit_info m c = Ok (item, c') ->
  room c' /\ exists i, item = data_item_encode (DataItem_ExtendedCommitInfo i) /\
    (i = "" \/ i = encode_commit_mapping (mapping_into_raw m)).
Proof.
  intros Hc Hf. unfold fit_commit_info in Hf.
  destruct (cometbft_checked_add (item_len (encode_commit_info m)) c) as [c1|] eqn:Hadd.
  - injection Hf as <- <-. split; [|by eauto]. eapply room_added; [|done..]. apply item_len_nonneg.
  - decode Hf. subst item a. split; [|by eauto]. eapply room_added; [|done..]. apply item_len_nonneg.
Qed.

(** What a proposer puts into the block about the votes of the last one *)
Definition proposed_info (q : PrepareProposal) (s : State) (i : string) : Prop :=
  exists last_commit m, prep_local_last_commit q = Some last_commit /\
    (i = "" \/ i = encode_commit_mapping (mapping_into_raw m)) /\
    ((handler_prepare_proposal (prep_height q) last_commit s).1 = Done m \/
     m = mk_mapping (mk_ext_commit (ext_round last_commit) []) []).
Lemma prepare_commit_info_Done q c a info c' a' :
  room c -> prepare_commit_info q c a = (Done (info, c'), a') ->
  room c' /\ exists o, info = (fun i => data_item_encode (DataItem_ExtendedCommitInfo i)) <$> o /\
    (vote_extensions_enabled (prep_height q) a).1 = Done (if o is Some _ then true else false) /\
    from_option (proposed_info q (ledger (state a))) True o.
Proof.
  intros Hc Hi. unfold prepare_commit_info in Hi. apply app_bind_Done in Hi as (enabled & a1 & He & Hi).
  assert (a1 = a) as ->.
  { eapply read_only_Done; [|exact He]. unfold vote_extensions_enabled, reading.
    apply read_only_bind; [|done]. intros b. unfold app_wrap. by destruct (get_consensus_params _).1. }
  destruct enabled.
  - apply app_bind_Done in Hi as (lc & a1 & [Hlc ->]%app_result_Done & Hi).
    apply app_bind_Done in Hi as (m & a1 & Hm & Hi).
    apply app_bind_Done in Hi as ([item c1] & a2 & [Hf ->]%app_result_Done & Hi).
    apply app_ret_Done in Hi as [[= -> ->] ->].
    destruct (fit_commit_info_room _ _ _ _ Hc Hf) as [Hc' (i & -> & Hi)]. split; [done|]. exists (Some i).
    rewrite He. split_and!; [done..|]. exists lc, m. split_and!; [by destruct (prep_local_last_commit q); simplify_eq/=|done|].
    unfold proposed_commit_info in Hm. destruct (handler_prepare_proposal _ _ _) as [[] ?]; simplify_eq; auto.
  - apply app_ret_Done in Hi as [[= -> ->] ->]. split; [done|]. exists None. by rewrite He.
Qed.

(** The votes in a block are valid for every node in the state the proposer
    started from. *)
Lemma proposed_info_valid q height time written s i raw m' :
  0 <= default 0 (num_pairs (oracle s)) -> proposed_info q (in_block height time written s) i ->
  decode_commit_mapping i = Some raw -> mapping_try_from_raw raw = Ok m' ->
  exists c, commit_of_extended <$> prep_local_last_commit q = Some c /\
    (handler_validate_proposal (prep_height q) c m' s).1 = Done tt.
Proof.
  intros Hpairs (lc & m & Hlc & Hi & Hm) Hraw Hm'. exists (commit_of_extended lc). rewrite Hlc. split; [done|].
  destruct Hi as [->| ->].
  { apply empty_commit_mapping in Hraw. unfold mapping_try_from_raw in Hm'. rewrite Hraw in Hm'. done. }
  rewrite commit_mapping_inverse in Hraw. injection Hraw as <-.
  destruct Hm as [Hm| ->].
  - destruct (handler_prepare_proposal _ _ _) as [r s'] eqn:Hp. cbn in Hm. subst r.
    apply (prepared_votes_validate empty_vote) in Hp as (_ & Hu & Hv); [|done].
    apply mapping_read_back in Hm' as ->; [|done]. rewrite timeless in Hv. by injection Hv.
  - apply mapping_read_back in Hm' as ->; [|constructor]. unfold handler_validate_proposal.
    destruct (_ =? 1); [done|]. cbn. by rewrite Z.eqb_refl.
Qed.

(** ** Agreement *)
(** The hypotheses on a round: sizes are machine integers, the Aspen upgrade is
    in the past and no upgrade is due, no misbehaviour is reported, and the mempool's transactions are encoded as prost encodes
    them: they are read back as themselves, and not as a list of change hashes. *)
Record regular_round (q : PrepareProposal) (a : App) : Prop := {
  regular_bytes : prep_max_tx_bytes q < 2 ^ 63;
  regular_aspen : (uses_data_item_enum (prep_height q) a).1 = Done true;
  regular_upgrade : upgrade_activating_at_height (prep_height q) (handler_upgrades (upgrades_handler a)) = None;
  regular_misbehavior : prep_misbehavior q = [];
  regular_pairs : 0 <= default 0 (num_pairs (oracle (snapshot (storage a))));
  regular_mempool tx : tx ∈ (mempool_builder_queue (app_mempool a)).*2 ->
    no_change_hashes (tx_encoded tx) /\
    forall stx, decode_user_transaction (tx_encoded tx) = Ok stx -> ledger_tx stx = tx }.

(** What the proposer's block says to whoever reads it *)
Lemma proposed_data_read q a txs p info o commitments d :
  regular_round q a -> prepared_txs p ⊆ (mempool_builder_queue (app_mempool a)).*2 ->
  prepared_bytes p = tx_encoded <$> prepared_txs p ->
  info = (fun i => data_item_encode (DataItem_ExtendedCommitInfo i)) <$> o ->
  txs = (commitments_into_iter true commitments ++ option_list (encode_change_hashes []) ++
         option_list info ++ prepared_bytes p)%list ->
  new_from_typed_data txs (if o is Some _ then true else false) = Val (Ok d) ->
  ebd_rollup_transactions_root d = gc_rollup_datas_root commitments /\
  ebd_rollup_ids_root d = gc_rollup_ids_root commitments /\
  ebd_upgrade_change_hashes d = [] /\ ledger_txs d = prepared_txs p /\
  match o with
  | Some i => exists raw e, decode_commit_mapping i = Some raw /\ ebd_extended_commit_info d = Some e /\
      mapping_try_from_raw raw = Ok (ecp_info e)
  | None => ebd_extended_commit_info d = None
  end.
Proof.
  intros Hq Hsub Hbytes -> -> Hd. unfold encode_change_hashes in Hd. rewrite bool_decide_true in Hd by done.
  cbn [option_list app] in Hd. apply written_data_read in Hd as (H5 & H6 & H7 & Htxs & H8).
  - split_and!; try done. unfold ledger_txs. rewrite Hbytes in Htxs. clear -Htxs Hsub Hq.
    revert Htxs. generalize (ebd_user_submitted_transactions d) as stxs.
    induction (prepared_txs p) as [|tx l IH]; intros stxs Htxs; [by inversion Htxs|].
    cbn in Htxs. apply Forall2_cons_inv_l in Htxs as (stx & l' & Hstx & Hl & ->). cbn. f_equal.
    + by apply (regular_mempool _ _ Hq tx); [apply Hsub; left|].
    + apply IH; [|done]. set_solver.
  - intros _. rewrite Hbytes. destruct (prepared_txs p) as [|tx l]; [done|].
    apply (regular_mempool _ _ Hq). apply Hsub. left.
Qed.

(** The node that executes the block from scratch *)
Lemma process_idle r b d res b1 :
  idle b -> parse_block_data (proc_txs r) (proc_height r) b = (Done d, b) ->
  execute_processed r d b = (Done res, b1) ->
  process_proposal r b =
  app_wrap "failed to run post execute transactions handler"
    (post_execute_transactions (proc_hash r) (proc_height r) (proc_time r) (proc_proposer_address r) d res) b1.
Proof.
  intros Hb Hd Hx. unfold process_proposal.
  rewrite (app_bind_step _ _ _ (execution_state b) b) by done. rewrite (idle_execution b Hb).
  cbn [check_if_prepared_proposal].
  rewrite (app_bind_step _ _ _ tt b) by (unfold app_modify; by rewrite (same_execution_state _ _ (idle_execution b Hb))).
  rewrite (app_bind_step _ _ _ tt b) by done.
  rewrite (app_bind_step _ _ _ d b) by done. by rewrite (app_bind_step _ _ _ res b1).
Qed.
(** The proposer, which recognises its block *)
Lemma process_recognised r q txs a1 block a2 :
  execution_state a1 = ExecutionState.Prepared (prepared_proposal q txs) ->
  processed_proposal r = prepared_proposal q txs -> process_proposal r a1 = (Done block, a2) ->
  exists d h res, (parse_block_data (proc_txs r) (proc_height r) a1).1 = Done d /\
    proc_hash r = Sha256Hash h /\ execution_results (state a1) = Some res /\
    end_and_store_block h (proc_height r) (proc_time r) (proc_proposer_address r) d res
      (upd_execution_state (fun _ => ExecutedBlock h (Some (prepared_proposal q txs))) a1) = (Done block, a2).
Proof.
  intros Hs Hr Hp. unfold process_proposal in Hp.
  apply app_bind_Done in Hp as (st & a' & [-> ->]%app_gets_Done & Hp).
  rewrite Hs in Hp.
  cbn [check_if_prepared_proposal] in Hp. rewrite decide_True in Hp by done.
  apply app_bind_Done in Hp as ([] & a' & Hm & Hp). injection Hm as <-.
  apply app_bind_Done in Hp as ([] & a' & [_ ->]%app_ret_Done & Hp).
  apply app_bind_Done in Hp as (d & a' & Hparse & Hp).
  pose proof (read_only_Done _ _ _ _ (parse_block_data_read_only _ _) Hparse) as ->.
  exists d. assert ((parse_block_data (proc_txs r) (proc_height r) a1).1 = Done d) as Hd.
  { rewrite (parse_block_data_params _ _ a1
      (upd_execution_state (fun _ => PreparedValid (prepared_proposal q txs)) a1)) by done. by rewrite Hparse. }
  apply app_bind_Done in Hp as (res & a' & Hx & Hp).
  apply app_bind_Done in Hx as (cached & a3 & [-> ->]%app_gets_Done & Hx).
  apply app_result_Done in Hx as [Hx ->].
  apply app_wrap_Done, post_execute_Done in Hp as (h & a3 & Hh & Hm & He). exists h, res.
  split_and!; [done..|by cbn in Hx; destruct (execution_results (state a1)); simplify_eq/=|].
  injection Hm as <-. exact He.
Qed.

Lemma vote_extensions_enabled_params height a b :
  consensus_params (app_data (ledger (state a))) = consensus_params (app_data (ledger (state b))) ->
  (vote_extensions_enabled height a).1 = (vote_extensions_enabled height b).1.
Proof. intros Hp. unfold vote_extensions_enabled, reading, app_wrap, mbind, AppM_bind. cbn. by rewrite Hp. Qed.
Lemma parse_typed txs height a d enabled :
  (parse_block_data txs height a).1 = Done d -> (uses_data_item_enum height a).1 = Done true ->
  (vote_extensions_enabled height a).1 = Done enabled -> new_from_typed_data txs enabled = Val (Ok d).
Proof.
  intros Hd Hu He. apply parse_app in Hd. unfold parse_block_data in Hd.
  apply app_bind_Done in Hd as (uses & a1 & Hu' & Hd). rewrite Hu' in Hu. injection Hu as ->.
  unfold uses_data_item_enum in Hu'. apply app_gets_Done in Hu' as [_ ->].
  apply app_bind_Done in Hd as (parsed & a1 & Hp & Hd).
  apply app_bind_Done in Hp as (en & a2 & He' & Hp). rewrite He' in He. injection He as ->.
  apply app_ret_Done in Hp as [-> _]. apply app_wrap_Done in Hd. unfold app_attempt in Hd.
  apply app_bind_Done in Hd as (v & a3 & [Hv ->]%app_run_Done & Hd). apply app_result_Done in Hd as [Hd _].
  destruct v; simplify_eq/=. done.
Qed.

(** Everything about a block that was proposed in a regular round *)
Lemma proposal_facts q a txs a1 r d :
  regular_round q a -> prepare_proposal q a = (Done txs, a1) -> processed_proposal r = prepared_proposal q txs ->
  (parse_block_data (proc_txs r) (proc_height r) a1).1 = Done d ->
  exists a0 p x commitments,
    consensus_params (app_data (ledger (state a1))) = consensus_params (app_data (snapshot (storage a))) /\
    a1 = proposer_app q txs p x a0 /\
    pre_execute_transactions (processed_block_data r) (round_start a) = (Done [], a0) /\
    process_proposal_tx_execution (ledger_txs d) new_unlimited_cometbft
      (mk_execution (ledger (state a0)) (recost_mempool a0)) = (Done (prepared_results p), x) /\
    generate_rollup_datas_commitment (ledger_txs d) (block_deposits (ex_state x)) = Val commitments /\
    ebd_rollup_transactions_root d = gc_rollup_datas_root commitments /\
    ebd_rollup_ids_root d = gc_rollup_ids_root commitments /\ ebd_upgrade_change_hashes d = [] /\
    match ebd_extended_commit_info d with
    | Some e => exists c, proc_proposed_last_commit r = Some c /\
        (handler_validate_proposal (proc_height r) c (ecp_info e) (snapshot (storage a))).1 = Done tt
    | None => True
    end.
Proof.
  intros Hq Hprep Hr Hd. apply prepare_proposal_Done in Hprep
    as (hashes & a0 & uses & c & info & c' & p & x & commitments & Hpre & Huses & Hc & Hinfo & Hx & Hg & Htxs & ->).
  unfold processed_proposal, prepared_proposal in Hr.
  injection Hr as Htime Hproposer Hrtxs Hcommit Hmis Hnext Hheight.
  destruct (keeps_Done _ _ _ _ Hpre) as [Hst Huh _].
  destruct (pre_execute_ledger (prepared_block_data q) (round_start a) _ _ (regular_upgrade _ _ Hq) (regular_misbehavior _ _ Hq) Hpre) as [-> [written Hl]].
  cbn in Hl, Hst, Huh.
  assert (uses = true) as ->.
  { pose proof (regular_aspen _ _ Hq) as Ha. unfold uses_data_item_enum, app_gets in Huses, Ha. cbn in Huses, Ha.
    rewrite <- Huh, Ha in Huses. by injection Huses. }
  apply start_room in Hc; [|apply Hq].
  destruct (prepare_commit_info_Done _ _ _ _ _ _ Hc Hinfo) as ([Hok Hseq Hlow Hmax] & o & Ho & Hen & Hproposed).
  destruct (prepared_execution _ _ _ _ _ Hok Hseq Hlow Hmax Hx) as (Hbytes & _ & Hsub & _ & Hrun).
  assert (consensus_params (app_data (ex_state x)) = consensus_params (app_data (snapshot (storage a)))) as Hparams.
  { rewrite (proposal_app_data _ _ _ _ _ Hrun). cbn. by rewrite Hl. }
  assert (new_from_typed_data txs (if o is Some _ then true else false) = Val (Ok d)) as Htyped.
  { rewrite <- Hrtxs. apply (parse_typed _ _ _ _ _ Hd).
    - rewrite Hheight. exact Huses.
    - rewrite Hheight, <- Hen. apply vote_extensions_enabled_params. change (ledger (state (proposer_app q txs p x a0))) with (ex_state x). rewrite Hparams, Hl. done. }
  destruct (proposed_data_read _ _ _ _ _ _ _ _ Hq Hsub Hbytes Ho Htxs Htyped) as (Hroot & Hids & Hhs & Hltxs & He).
  exists a0, p, x, commitments. rewrite Hltxs. split_and!; try done.
  - unfold processed_block_data. rewrite Hmis, Hheight, Htime, Hnext, Hproposer. exact Hpre.
  - destruct o as [i|]; [|by rewrite He]. destruct He as (raw & e & Hraw & -> & Hm).
    rewrite Hcommit, Hheight. cbn in Hproposed. rewrite Hl in Hproposed.
    by apply (proposed_info_valid _ _ _ _ _ _ _ _ (regular_pairs _ _ Hq) Hproposed Hraw Hm).
Qed.

(** C8. C. A proposer that recognises its own block accepts what every other node
    accepts: executing the block from scratch, any node of the same chain that has
    done nothing in the round comes to the same block, the same state and the same
    results. The round is a regular one ([regular_round]): the Aspen upgrade is
    active and none is due at the height, no misbehaviour is reported, the requested
    size is below 2^63, and the transactions of the mempool are what their bytes
    decode to. *)
Theorem proposers_and_validators_agree q a txs a1 r b block a2 :
  regular_round q a -> prepare_proposal q a = (Done txs, a1) ->
  processed_proposal r = prepared_proposal q txs -> process_proposal r a1 = (Done block, a2) ->
  idle b -> peers a b ->
  exists b2, process_proposal r b = (Done block, b2) /\
    ledger (state b2) = ledger (state a2) /\ block_store (state b2) = block_store (state a2) /\
    post_execution_result (state b2) = post_execution_result (state a2) /\
    recost_mempool b2 = recost_mempool a2.
Proof.
  intros Hq Hprep Hr Hproc Hb Hpeers.
  assert (execution_state a1 = ExecutionState.Prepared (prepared_proposal q txs)) as Hst.
  { apply prepare_proposal_Done in Hprep as (? & ? & ? & ? & ? & ? & ? & ? & ? & Hall).
    by destruct Hall as (_ & _ & _ & _ & _ & _ & _ & ->). }
  destruct (process_recognised _ _ _ _ _ _ Hst Hr Hproc) as (d & h & res & Hd & Hh & Hres & He).
  destruct (proposal_facts _ _ _ _ _ _ Hq Hprep Hr Hd)
    as (a0 & p & x & commitments & Hparams & -> & Hpre & Hx & Hg & Hroot & Hids & Hhs & Hinfo).
  cbn in Hres. injection Hres as <-.
  destruct (pre_execute_same _ _ _ _ _ Hpeers Hpre) as (b0 & Hpre' & Hs0 & Hua & Hub).
  set (ran app := upd_recost_mempool (fun _ => ex_recost x) (upd_state (upd_ledger (fun _ => ex_state x)) app)).
  assert (execute_processed r d b = (Done (prepared_results p), ran b0)) as Hrun.
  { apply execute_processed_Done. exists [], b0. rewrite Hhs. split_and!; try done.
    - unfold validate_commit_info. destruct (ebd_extended_commit_info d) as [e|]; [|done].
      destruct Hinfo as (c & -> & Hv). rewrite (app_bind_step _ _ _ c (round_start b)) by done.
      apply app_wrap_Done, reading_Done. split; [|done]. cbn. by rewrite <- (peers_storage _ _ Hpeers).
    - apply on_execution_Done. exists x. by rewrite <- (same_state _ _ Hs0), <- (same_recost _ _ Hs0).
    - unfold check_commitments. rewrite (app_bind_step _ _ _ (block_deposits (ex_state x)) (ran b0)) by done.
      rewrite (app_bind_step _ _ _ commitments (ran b0)) by (apply app_run_Done; by rewrite Hg).
      rewrite (app_bind_step _ _ _ tt (ran b0)); apply app_ensure_Done; by rewrite bool_decide_true. }
  set (cached := fun _ : ExecutionState => ExecutedBlock h (Some (prepared_proposal q txs))) in *.
  set (z := upd_execution_state cached (upd_app_mempool (fun _ => prepared_mempool p) (ran a0))).
  change (upd_execution_state cached (proposer_app q txs p x a0))
    with (with_results (Some (prepared_results p)) z) in He.
  rewrite (steady z) in He. destruct (end_and_store_block _ _ _ _ _ _ z) as [o z'] eqn:Hz. injection He as -> <-.
  apply (steady_same _ _ (upd_execution_state (fun _ => ExecutedBlock h None) (ran b0))) in Hz as (b2 & Hb2 & Hs2 & _);
    [|apply _|].
  2: { destruct Hs0 as [Hs Hrec [? ? ?]]. split; cbn; [by rewrite Hs|done|by split]. }
  exists b2. destruct Hs2 as [Hs2 Hr2 _]. cbn [ledger block_store post_execution_result state with_results upd_state].
  rewrite <- Hs2, <- Hr2. split_and!; try done.
  rewrite (process_idle _ _ d (prepared_results p) (ran b0) Hb); [| |done].
  - apply app_wrap_Done, post_execute_Done. exists h, (upd_execution_state (fun _ => ExecutedBlock h None) (ran b0)).
    split_and!; [done|by apply mark_executed_unset|done].
  - apply parse_app. rewrite <- Hd. apply parse_block_data_params.
    + destruct (keeps_Done _ _ _ _ Hpre) as [_ Hu _]. cbn in Hu. cbn. rewrite <- Hu. symmetry. apply Hpeers.
    + rewrite Hparams, (idle_state b Hb). cbn. by rewrite (peers_storage _ _ Hpeers).
Qed.
End proposer.
