(* ===== verification/Genesis.v ===== *)
(** * Genesis

    [astria-core/src/protocol/genesis/v1.rs]: the genesis state of the sequencer
    and its conversion from and to the message it is read from; and
    [init_chain] of the components ([accounts/component.rs],
    [authority/component.rs], [fees/component.rs], [ibc/component.rs]), which
    write it into the empty store.  The first write of the IBC library is a
    parameter. *)
From S2P Require Import Prelude Denom Types State Chain Accounts Authority Ics20 Wire WireActions.
From stdpp Require Import base list option strings gmap pretty tactics.
From Stdlib Require Import ZArith Lia String.
Open Scope string_scope.
Open Scope Z_scope.

(** ** The state and its messages *)
Record Account := mk_account { account_address : Address; account_balance : Z }.
Record AddressPrefixes := mk_prefixes { prefixes_base : string; prefixes_ibc_compat : string }.
Record IBCParameters := mk_ibc_parameters {
  ibc_enabled : bool; inbound_ics20_transfers_enabled : bool; outbound_ics20_transfers_enabled : bool }.
(** One entry per action; only the fees of [FeeChange] are mandatory. The record is
    that of the message too, with the entries as messages. *)
Record FeesTable (F C : Type) := mk_genesis_fees {
  gf_rollup_data_submission : option F;
  gf_transfer : option F;
  gf_ics20_withdrawal : option F;
  gf_init_bridge_account : option F;
  gf_bridge_lock : option F;
  gf_bridge_unlock : option F;
  gf_bridge_transfer : option F;
  gf_bridge_sudo_change : option F;
  gf_ibc_relay : option F;
  gf_validator_update : option F;
  gf_fee_asset_change : option F;
  gf_fee_change : C;
  gf_ibc_relayer_change : option F;
  gf_sudo_address_change : option F;
  gf_ibc_sudo_change : option F;
  gf_recover_ibc_client : option F;
  gf_currency_pairs_change : option F;
  gf_markets_change : option F }.
Arguments mk_genesis_fees {F C}.
Arguments gf_rollup_data_submission {F C}. Arguments gf_transfer {F C}. Arguments gf_ics20_withdrawal {F C}.
Arguments gf_init_bridge_account {F C}. Arguments gf_bridge_lock {F C}. Arguments gf_bridge_unlock {F C}.
Arguments gf_bridge_transfer {F C}. Arguments gf_bridge_sudo_change {F C}. Arguments gf_ibc_relay {F C}.
Arguments gf_validator_update {F C}. Arguments gf_fee_asset_change {F C}. Arguments gf_fee_change {F C}.
Arguments gf_ibc_relayer_change {F C}. Arguments gf_sudo_address_change {F C}. Arguments gf_ibc_sudo_change {F C}.
Arguments gf_recover_ibc_client {F C}. Arguments gf_currency_pairs_change {F C}. Arguments gf_markets_change {F C}.
Definition GenesisFees : Type := FeesTable FeeComponents FeeComponents.
Definition RawGenesisFees : Type := FeesTable RawFeeComponents (option RawFeeComponents).

Record GenesisAppState := mk_genesis {
  g_chain_id : string;
  address_prefixes : AddressPrefixes;
  genesis_accounts : list Account;
  authority_sudo_address : Address;
  ibc_sudo_address : Address;
  ibc_relayer_addresses : list Address;
  native_asset_base_denomination : option TracePrefixed;
  ibc_parameters : IBCParameters;
  genesis_fee_assets : list Denom;
  genesis_fees : GenesisFees }.

Record RawAccount := mk_raw_account { raw_account_address : option RawAddress; raw_balance : option RawUint128 }.
Record RawAddressPrefixes := mk_raw_prefixes { raw_prefixes_base : string; raw_prefixes_ibc_compat : string }.
Record RawIbcParameters := mk_raw_ibc_parameters {
  raw_ibc_enabled : bool; raw_inbound_enabled : bool; raw_outbound_enabled : bool }.
Record RawGenesisAppState := mk_raw_genesis {
  rg_chain_id : string;
  rg_address_prefixes : option RawAddressPrefixes;
  rg_accounts : list RawAccount;
  rg_authority_sudo_address : option RawAddress;
  rg_ibc_sudo_address : option RawAddress;
  rg_ibc_relayer_addresses : list RawAddress;
  rg_native_asset_base_denomination : string;
  rg_ibc_parameters : option RawIbcParameters;
  rg_allowed_fee_assets : list string;
  rg_fees : option RawGenesisFees }.

Inductive AccountError :=
| AccountError_Address (source : AddressError)
| AccountError_FieldNotSet (name : string).
Inductive AddressPrefixesError := AddressPrefixesError_Base (source : AddressError).
Inductive FeesError :=
| FeesError_FieldNotSet (name : string)
| FeeComponentsConversion (field : string) (source : FeeComponentError).
Record AddressDoesNotMatchBase := mk_does_not_match {
  dnm_base_prefix : string; dnm_address : Address; dnm_field : string }.
Inductive GenesisAppStateError :=
| Genesis_Accounts (source : AccountError)
| Genesis_AddressPrefixes (source : AddressPrefixesError)
| Genesis_AddressDoesNotMatchBase (source : AddressDoesNotMatchBase)
| Genesis_AllowedFeeAssets (source : ParseDenomErrorKind)
| Genesis_AuthoritySudoAddress (source : AddressError)
| Genesis_Fees (source : FeesError)
| Genesis_IbcSudoAddress (source : AddressError)
| Genesis_IbcRelayerAddresses (source : AddressError)
| Genesis_FieldNotSet (name : string)
| Genesis_NativeAssetBaseDenomination (source : ParseTracePrefixedErrorKind).

(** ** Conversions *)
Definition ibc_parameters_to_raw (p : IBCParameters) : RawIbcParameters :=
  mk_raw_ibc_parameters (ibc_enabled p) (inbound_ics20_transfers_enabled p) (outbound_ics20_transfers_enabled p).
Definition ibc_parameters_from_raw (r : RawIbcParameters) : IBCParameters :=
  mk_ibc_parameters (raw_ibc_enabled r) (raw_inbound_enabled r) (raw_outbound_enabled r).

Definition fee_field (field : string) (r : option RawFeeComponents) : result FeesError (option FeeComponents) :=
  map_err (FeeComponentsConversion field) (try_option (try_from_raw FeeComponents) r).
Definition genesis_fees_try_from_raw (r : RawGenesisFees) : result FeesError GenesisFees :=
  rollup_data_submission ← fee_field "rollup_data_submission" (gf_rollup_data_submission r);
  transfer ← fee_field "transfer" (gf_transfer r);
  ics20_withdrawal ← fee_field "ics20_withdrawal" (gf_ics20_withdrawal r);
  init_bridge_account ← fee_field "init_bridge_account" (gf_init_bridge_account r);
  bridge_lock ← fee_field "bridge_lock" (gf_bridge_lock r);
  bridge_unlock ← fee_field "bridge_unlock" (gf_bridge_unlock r);
  bridge_transfer ← fee_field "bridge_transfer" (gf_bridge_transfer r);
  bridge_sudo_change ← fee_field "bridge_sudo_change" (gf_bridge_sudo_change r);
  ibc_relay ← fee_field "ibc_relay" (gf_ibc_relay r);
  validator_update ← fee_field "validator_update" (gf_validator_update r);
  fee_asset_change ← fee_field "fee_asset_change" (gf_fee_asset_change r);
  fee_change ← ok_or (FeesError_FieldNotSet "fee_change") (gf_fee_change r);
  fee_change ← map_err (FeeComponentsConversion "fee_change") (try_from_raw FeeComponents fee_change);
  ibc_relayer_change ← fee_field "ibc_relayer_change" (gf_ibc_relayer_change r);
  sudo_address_change ← fee_field "sudo_address_change" (gf_sudo_address_change r);
  ibc_sudo_change ← fee_field "ibc_sudo_change" (gf_ibc_sudo_change r);
  recover_ibc_client ← fee_field "recover_ibc_client" (gf_recover_ibc_client r);
  currency_pairs_change ← fee_field "currency_pairs_change" (gf_currency_pairs_change r);
  markets_change ← fee_field "markets_change" (gf_markets_change r);
  Ok (mk_genesis_fees rollup_data_submission transfer ics20_withdrawal init_bridge_account bridge_lock
        bridge_unlock bridge_transfer bridge_sudo_change ibc_relay validator_update fee_asset_change
        fee_change ibc_relayer_change sudo_address_change ibc_sudo_change recover_ibc_client
        currency_pairs_change markets_change).
Definition raw_fee (f : option FeeComponents) : option RawFeeComponents := option_map to_raw f.
Definition genesis_fees_to_raw (f : GenesisFees) : RawGenesisFees :=
  mk_genesis_fees (raw_fee (gf_rollup_data_submission f)) (raw_fee (gf_transfer f))
    (raw_fee (gf_ics20_withdrawal f)) (raw_fee (gf_init_bridge_account f)) (raw_fee (gf_bridge_lock f))
    (raw_fee (gf_bridge_unlock f)) (raw_fee (gf_bridge_transfer f)) (raw_fee (gf_bridge_sudo_change f))
    (raw_fee (gf_ibc_relay f)) (raw_fee (gf_validator_update f)) (raw_fee (gf_fee_asset_change f))
    (Some (to_raw (gf_fee_change f))) (raw_fee (gf_ibc_relayer_change f)) (raw_fee (gf_sudo_address_change f))
    (raw_fee (gf_ibc_sudo_change f)) (raw_fee (gf_recover_ibc_client f)) (raw_fee (gf_currency_pairs_change f))
    (raw_fee (gf_markets_change f)).

Section genesis.
Context `{Wire}.

Definition account_try_from_raw (r : RawAccount) : result AccountError Account :=
  a ← ok_or (AccountError_FieldNotSet "address") (raw_account_address r);
  a ← map_err AccountError_Address (try_from_raw Address a);
  b ← ok_or (AccountError_FieldNotSet "balance") (raw_balance r);
  Ok (mk_account a (u128_from_raw b)).
Definition account_to_raw (a : Account) : RawAccount :=
  mk_raw_account (Some (to_raw (account_address a))) (Some (u128_into_raw (account_balance a))).
#[export] Instance protobuf_Account : Protobuf Account RawAccount AccountError :=
  {| to_raw := account_to_raw; try_from_raw := account_try_from_raw |}.

(** A prefix is checked by building an address of zeros; both checks end in the
    error of [base]. *)
Definition dummy_addr (prefix : string) : result AddressError Address :=
  address_builder_try_build (string_of_list_ascii (replicate 20 Ascii.zero)) prefix.
#[global] Arguments dummy_addr _ : simpl never.
Definition address_prefixes_try_from_raw (r : RawAddressPrefixes) : result AddressPrefixesError AddressPrefixes :=
  map_err AddressPrefixesError_Base (dummy_addr (raw_prefixes_base r));;
  map_err AddressPrefixesError_Base (dummy_addr (raw_prefixes_ibc_compat r));;
  Ok (mk_prefixes (raw_prefixes_base r) (raw_prefixes_ibc_compat r)).
Definition address_prefixes_to_raw (p : AddressPrefixes) : RawAddressPrefixes :=
  mk_raw_prefixes (prefixes_base p) (prefixes_ibc_compat p).

Definition ensure_address_has_base_prefix (g : GenesisAppState) (a : Address) (field : string)
    : result AddressDoesNotMatchBase unit :=
  ensure (String.eqb (prefixes_base (address_prefixes g)) (addr_prefix a))
    (mk_does_not_match (prefixes_base (address_prefixes g)) a field).
(** [for (i, a) in l.iter().enumerate()], from index [i] on *)
Fixpoint ensure_each_base_prefix (g : GenesisAppState) (field : Z -> string) (i : Z) (l : list Address)
    : result AddressDoesNotMatchBase unit :=
  match l with
  | [] => Ok tt
  | a :: l =>
      ensure_address_has_base_prefix g a (field i);;
      ensure_each_base_prefix g field (i + 1) l
  end.
Definition ensure_all_addresses_have_base_prefix (g : GenesisAppState) : result AddressDoesNotMatchBase unit :=
  ensure_each_base_prefix g (fun i => ".accounts[" ++ pretty i ++ "].address") 0
    (account_address <$> genesis_accounts g);;
  ensure_address_has_base_prefix g (authority_sudo_address g) ".authority_sudo_address";;
  ensure_address_has_base_prefix g (ibc_sudo_address g) ".ibc_sudo_address";;
  ensure_each_base_prefix g (fun i => ".ibc_relayer_addresses[" ++ pretty i ++ "]") 0 (ibc_relayer_addresses g).

#[global] Arguments ensure_all_addresses_have_base_prefix _ : simpl never.
Definition genesis_try_from_raw (r : RawGenesisAppState) : result GenesisAppStateError GenesisAppState :=
  address_prefixes ← ok_or (Genesis_FieldNotSet "address_prefixes") (rg_address_prefixes r);
  address_prefixes ← map_err Genesis_AddressPrefixes (address_prefixes_try_from_raw address_prefixes);
  accounts ← map_err Genesis_Accounts (try_collect (try_from_raw Account) (rg_accounts r));
  authority_sudo_address ← ok_or (Genesis_FieldNotSet "authority_sudo_address") (rg_authority_sudo_address r);
  authority_sudo_address ← map_err Genesis_AuthoritySudoAddress (try_from_raw Address authority_sudo_address);
  ibc_sudo_address ← ok_or (Genesis_FieldNotSet "ibc_sudo_address") (rg_ibc_sudo_address r);
  ibc_sudo_address ← map_err Genesis_IbcSudoAddress (try_from_raw Address ibc_sudo_address);
  ibc_relayer_addresses ← map_err Genesis_IbcRelayerAddresses
    (try_collect (try_from_raw Address) (rg_ibc_relayer_addresses r));
  native_asset_base_denomination ←
    (if is_empty (rg_native_asset_base_denomination r) then Ok None
     else t ← map_err Genesis_NativeAssetBaseDenomination
                (trace_prefixed_from_str (rg_native_asset_base_denomination r));
          Ok (Some t));
  ibc_parameters ← ok_or (Genesis_FieldNotSet "ibc_parameters") (rg_ibc_parameters r);
  allowed_fee_assets ← map_err Genesis_AllowedFeeAssets (try_collect denom_from_str (rg_allowed_fee_assets r));
  fees ← ok_or (Genesis_FieldNotSet "fees") (rg_fees r);
  fees ← map_err Genesis_Fees (genesis_fees_try_from_raw fees);
  let this := mk_genesis (rg_chain_id r) address_prefixes accounts authority_sudo_address ibc_sudo_address
                ibc_relayer_addresses native_asset_base_denomination (ibc_parameters_from_raw ibc_parameters)
                allowed_fee_assets fees in
  map_err Genesis_AddressDoesNotMatchBase (ensure_all_addresses_have_base_prefix this);;
  Ok this.
Definition genesis_to_raw (g : GenesisAppState) : RawGenesisAppState :=
  mk_raw_genesis (g_chain_id g) (Some (address_prefixes_to_raw (address_prefixes g)))
    (map to_raw (genesis_accounts g)) (Some (to_raw (authority_sudo_address g)))
    (Some (to_raw (ibc_sudo_address g))) (map to_raw (ibc_relayer_addresses g))
    (from_option trace_prefixed_display "" (native_asset_base_denomination g))
    (Some (ibc_parameters_to_raw (ibc_parameters g)))
    (map denom_display (genesis_fee_assets g)) (Some (genesis_fees_to_raw (genesis_fees g))).
#[export] Instance protobuf_Genesis : Protobuf GenesisAppState RawGenesisAppState GenesisAppStateError :=
  {| to_raw := genesis_to_raw; try_from_raw := genesis_try_from_raw |}.

(** ** [init_chain] of the components *)
(** [penumbra_ibc]'s [Ibc::init_chain] writes the parameters of the IBC library to
    its entries of the store. *)
Class IbcGenesis := ibc_library_init_chain : IBCParameters -> gmap string string -> gmap string string.
Context `{IbcGenesis}.

Definition accounts_init_chain (g : GenesisAppState) : M unit :=
  match genesis_accounts g with
  | [] => mret tt
  | accounts =>
      native_asset ← wrap_err "failed to read native asset from state" get_native_asset;
      native_asset ← ok_or_eyre native_asset
        "native asset does not exist in state but is required to set genesis account balances";
      for_each (fun a => wrap_err "failed writing account balance to state"
                           (put_account_balance (addr_bytes (account_address a))
                              (trace_to_ibc_prefixed native_asset) (account_balance a))) accounts
  end.

Definition put_genesis_fees (F : Type) `{FeeHandler F} (action : string) (f : option FeeComponents) : M unit :=
  match f with
  | Some f => wrap_err ("failed to store " ++ action ++ " fee components") (put_fees F f)
  | None => mret tt
  end.
(** The fees in the order of the code, which does not store those of [BridgeTransfer] *)
Definition fees_init_chain (g : GenesisAppState) : M unit :=
  let f := genesis_fees g in
  for_each (fun asset => wrap_err "failed to write allowed fee asset to state"
                           (put_allowed_fee_asset (to_ibc_prefixed asset))) (genesis_fee_assets g);;
  put_genesis_fees Transfer "transfer" (gf_transfer f);;
  put_genesis_fees RollupDataSubmission "rollup data submission" (gf_rollup_data_submission f);;
  put_genesis_fees Ics20Withdrawal "ics20 withdrawal" (gf_ics20_withdrawal f);;
  put_genesis_fees InitBridgeAccount "init bridge account" (gf_init_bridge_account f);;
  put_genesis_fees BridgeLock "bridge lock" (gf_bridge_lock f);;
  put_genesis_fees BridgeUnlock "bridge unlock" (gf_bridge_unlock f);;
  put_genesis_fees BridgeSudoChange "bridge sudo change" (gf_bridge_sudo_change f);;
  put_genesis_fees IbcRelay "ibc relay" (gf_ibc_relay f);;
  put_genesis_fees ValidatorUpdate "validator update" (gf_validator_update f);;
  put_genesis_fees FeeAssetChange "fee asset change" (gf_fee_asset_change f);;
  put_genesis_fees FeeChange "fee change" (Some (gf_fee_change f));;
  put_genesis_fees IbcRelayerChange "ibc relayer change" (gf_ibc_relayer_change f);;
  put_genesis_fees SudoAddressChange "sudo address change" (gf_sudo_address_change f);;
  put_genesis_fees IbcSudoChange "ibc sudo change" (gf_ibc_sudo_change f);;
  put_genesis_fees RecoverIbcClient "recover ibc client" (gf_recover_ibc_client f);;
  put_genesis_fees CurrencyPairsChange "currency pairs change" (gf_currency_pairs_change f);;
  put_genesis_fees MarketsChange "markets change" (gf_markets_change f).

Definition ibc_init_chain (g : GenesisAppState) : M unit :=
  modify (on_ibc (upd_library (ibc_library_init_chain (ibc_parameters g))));;
  wrap_err "failed to set IBC sudo key" (put_ibc_sudo_address (addr_bytes (ibc_sudo_address g)));;
  for_each (fun a => wrap_err "failed to write IBC relayer address" (put_ibc_relayer_address (addr_bytes a)))
    (ibc_relayer_addresses g).

(** The state delta that [App::init_chain] applies *)
Definition write_genesis (chain_id_valid : string -> bool) (g : GenesisAppState)
    (genesis_validators : list ValidatorUpdate) (chain_id : string) : M unit :=
  wrap_err "failed to write base prefix to state" (put_base_prefix (prefixes_base (address_prefixes g)));;
  wrap_err "failed to write ibc-compat prefix to state"
    (put_ibc_compat_prefix (prefixes_ibc_compat (address_prefixes g)));;
  match native_asset_base_denomination g with
  | Some native_asset =>
      wrap_err "failed to write native asset to state" (put_native_asset native_asset);;
      wrap_err "failed to commit native asset as ibc asset to state" (put_ibc_asset native_asset)
  | None => mret tt
  end;;
  ensure_that (chain_id_valid chain_id) "invalid chain ID";;
  wrap_err "failed to write chain id to state" (put_chain_id_and_revision_number chain_id);;
  wrap_err "failed to write block height to state" (put_block_height 0);;
  wrap_err "init_chain failed on FeesComponent" (fees_init_chain g);;
  wrap_err "init_chain failed on AccountsComponent" (accounts_init_chain g);;
  wrap_err "init_chain failed on AuthorityComponent"
    (authority_init_chain (authority_sudo_address g) genesis_validators);;
  wrap_err "init_chain failed on IbcComponent" (ibc_init_chain g).
End genesis.

(** ** The laws of the genesis messages *)
Definition optional_fees {F C} (f : FeesTable F C) : list (option F) :=
  [gf_rollup_data_submission f; gf_transfer f; gf_ics20_withdrawal f; gf_init_bridge_account f;
   gf_bridge_lock f; gf_bridge_unlock f; gf_bridge_transfer f; gf_bridge_sudo_change f; gf_ibc_relay f;
   gf_validator_update f; gf_fee_asset_change f; gf_ibc_relayer_change f; gf_sudo_address_change f;
   gf_ibc_sudo_change f; gf_recover_ibc_client f; gf_currency_pairs_change f; gf_markets_change f].
Definition every_fee (P : FeeComponents -> Prop) (f : GenesisFees) : Prop :=
  P (gf_fee_change f) /\ Forall (from_option P True) (optional_fees f).

#[export] Instance wire_Account `{Wire} : WireType Account := {|
  valid P a := P (account_address a) /\ uint 128 (account_balance a);
  raw_valid (r : RawAccount) := from_option raw_u128_valid True (raw_balance r) |}.
#[export] Instance protobuf_GenesisFees : Protobuf GenesisFees RawGenesisFees FeesError :=
  {| to_raw := genesis_fees_to_raw; try_from_raw := genesis_fees_try_from_raw |}.
#[export] Instance wire_GenesisFees : WireType GenesisFees := {|
  valid P f := every_fee (valid P) f;
  raw_valid (r : RawGenesisFees) :=
    from_option (raw_valid FeeComponents) True (gf_fee_change r) /\
    Forall (from_option (raw_valid FeeComponents) True) (optional_fees r) |}.
Definition all_base_prefix (g : GenesisAppState) : Prop :=
  Forall (fun a => addr_prefix a = prefixes_base (address_prefixes g))
    (authority_sudo_address g :: ibc_sudo_address g :: ibc_relayer_addresses g ++
     (account_address <$> genesis_accounts g))%list.
#[export] Instance wire_Genesis `{Wire} : WireType GenesisAppState := {|
  valid P g :=
    hrp_parse (prefixes_base (address_prefixes g)) = true /\
    hrp_parse (prefixes_ibc_compat (address_prefixes g)) = true /\
    Forall (valid P) (genesis_accounts g) /\ P (authority_sudo_address g) /\ P (ibc_sudo_address g) /\
    Forall P (ibc_relayer_addresses g) /\
    from_option (fun t => wf_trace t = true) True (native_asset_base_denomination g) /\
    Forall (fun d => wf_denom d = true) (genesis_fee_assets g) /\ valid P (genesis_fees g) /\
    all_base_prefix g;
  raw_valid (r : RawGenesisAppState) :=
    Forall (raw_valid Account) (rg_accounts r) /\ from_option (raw_valid GenesisFees) True (rg_fees r) |}.

Section laws.
Context `{Wire, !WireLaws}.

#[export] Instance laws_Account : ProtobufLaws Account.
Proof.
  split.
  - intros [a b] [Ha Hb]. change (account_try_from_raw (account_to_raw (mk_account a b)) = Ok (mk_account a b)).
    unfold account_try_from_raw, account_to_raw. cbn in *. rewrite wire_roundtrip by exact Ha. cbn.
    by rewrite u128_roundtrip.
  - intros r a Hr Ha. change (account_try_from_raw r = Ok a) in Ha. unfold account_try_from_raw in Ha.
    decode Ha. subst a. change (from_option raw_u128_valid True (raw_balance r)) in Hr.
    match goal with E : raw_balance r = _ |- _ => rewrite E in Hr end.
    split; [|by apply u128_decoded].
    match goal with E : try_from_raw Address _ = _ |- _ => exact (wire_decoded (A := Address) _ _ I E) end.
Qed.

Lemma fee_field_roundtrip field (f : option FeeComponents) :
  from_option (valid address_canonical) True f -> fee_field field (raw_fee f) = Ok f.
Proof. intros Hf. unfold fee_field, raw_fee. by rewrite wire_option. Qed.
Lemma fee_field_decoded field r f :
  from_option (raw_valid FeeComponents) True r -> fee_field field r = Ok f ->
  from_option (valid address_typed) True f.
Proof. intros Hr Hf. unfold fee_field in Hf. apply map_err_Ok in Hf. by eapply wire_option_decoded. Qed.
#[export] Instance laws_GenesisFees : ProtobufLaws GenesisFees.
Proof.
  split.
  - intros f [Hc Ho]. change (genesis_fees_try_from_raw (genesis_fees_to_raw f) = Ok f).
    unfold optional_fees in Ho. rewrite !list.Forall_cons in Ho. destruct_and! Ho.
    unfold genesis_fees_try_from_raw, genesis_fees_to_raw. cbn.
    repeat (rewrite fee_field_roundtrip by done; cbn).
    rewrite wire_roundtrip by exact Hc. cbn. repeat (rewrite fee_field_roundtrip by done; cbn). by destruct f.
  - intros r f [Hc Ho] Hf. change (genesis_fees_try_from_raw r = Ok f) in Hf.
    unfold optional_fees in Ho. rewrite !list.Forall_cons in Ho. destruct_and! Ho.
    unfold genesis_fees_try_from_raw in Hf. decode Hf. subst f.
    match goal with E : gf_fee_change r = _ |- _ => rewrite E in Hc end. split; [by eapply wire_decoded|].
    unfold optional_fees. rewrite !list.Forall_cons. cbn. split_and!; try done;
      match goal with E : fee_field _ _ = Ok ?f |- from_option _ _ ?f => eapply fee_field_decoded; [|exact E]; done end.
Qed.

Lemma ibc_parameters_inverse p : ibc_parameters_from_raw (ibc_parameters_to_raw p) = p.
Proof. by destruct p. Qed.
Lemma dummy_addr_ok prefix a : dummy_addr prefix = Ok a -> hrp_parse prefix = true.
Proof. unfold dummy_addr, address_builder_try_build. cbn. by destruct (hrp_parse prefix). Qed.
Lemma dummy_addr_of prefix : hrp_parse prefix = true -> exists a, dummy_addr prefix = Ok a.
Proof. unfold dummy_addr, address_builder_try_build. cbn. intros ->. eauto. Qed.
Lemma ensure_each_Ok g field l : forall i u,
  ensure_each_base_prefix g field i l = Ok u <->
  Forall (fun a => addr_prefix a = prefixes_base (address_prefixes g)) l.
Proof.
  induction l as [|a l IH]; intros i u; cbn [ensure_each_base_prefix]; [destruct u; by split|].
  rewrite bind_Ok, list.Forall_cons. unfold ensure_address_has_base_prefix. setoid_rewrite ensure_Ok.
  split.
  - intros (v & Hp%String.eqb_eq & Hl). split; [done|]. by eapply IH.
  - intros [Hp Hl]. exists tt. split; [by apply String.eqb_eq|]. by apply IH.
Qed.
Lemma all_base_prefix_Ok g u : ensure_all_addresses_have_base_prefix g = Ok u <-> all_base_prefix g.
Proof.
  unfold ensure_all_addresses_have_base_prefix, all_base_prefix. rewrite !list.Forall_cons, list.Forall_app.
  rewrite bind_Ok. setoid_rewrite ensure_each_Ok. unfold ensure_address_has_base_prefix.
  setoid_rewrite bind_Ok. setoid_rewrite bind_Ok. setoid_rewrite ensure_each_Ok. setoid_rewrite ensure_Ok.
  setoid_rewrite String.eqb_eq. split; [naive_solver|].
  intros (Ha & Hi & Hr & Hl). exists tt. split; [done|]. exists tt. split; [done|]. by exists tt.
Qed.

Lemma empty_is_no_trace t : wf_trace t = true -> is_empty (trace_prefixed_display t) = false.
Proof.
  intros Ht. destruct (is_empty _) eqn:He; [|done].
  assert (trace_prefixed_display t = "") as E by (by destruct (trace_prefixed_display t)).
  assert (trace_prefixed_from_str "" = Ok t) as Hp by (by apply trace_from_str_ok). by vm_compute in Hp.
Qed.
Lemma denoms_roundtrip l : Forall (fun d => wf_denom d = true) l ->
  try_collect denom_from_str (map denom_display l) = Ok l.
Proof. induction 1 as [|d l Hd _ IH]; cbn; [done|]. by rewrite denom_inverse, IH. Qed.
Lemma denoms_decoded l l' : try_collect denom_from_str l = Ok l' -> Forall (fun d => wf_denom d = true) l'.
Proof.
  rewrite try_collect_Ok. induction 1 as [|s d l l' Hd _ IH]; constructor; [|done]. by eapply denom_decoded.
Qed.

#[export] Instance laws_Genesis : ProtobufLaws GenesisAppState.
Proof.
  split.
  - intros g (Hb & Hi & Ha & Hs & Hc & Hr & Ht & Hd & Hf & Hp).
    change (genesis_try_from_raw (genesis_to_raw g) = Ok g). unfold genesis_try_from_raw, genesis_to_raw. cbn.
    unfold address_prefixes_try_from_raw. cbn.
    destruct (dummy_addr_of _ Hb) as [? ->], (dummy_addr_of _ Hi) as [? ->]. cbn.
    rewrite (wire_list (A := Account)) by done. cbn. rewrite (wire_roundtrip (A := Address)) by done. cbn.
    rewrite (wire_roundtrip (A := Address)) by done. cbn. rewrite (wire_list (A := Address)) by done. cbn.
    pose proof (wire_roundtrip (A := GenesisFees) _ Hf) as Hfees.
    change (genesis_fees_try_from_raw (genesis_fees_to_raw (genesis_fees g)) = Ok (genesis_fees g)) in Hfees.
    apply (all_base_prefix_Ok g tt) in Hp. destruct g as [cid pre acc aus ibs rel nat par fee fs]. cbn in *.
    destruct nat as [t|]; cbn in *.
    + rewrite empty_is_no_trace by done. rewrite (proj2 (trace_from_str_ok _ t)) by done. cbn.
      rewrite denoms_roundtrip by done. cbn. rewrite Hfees. cbn. rewrite ibc_parameters_inverse. destruct pre. cbn in *. by rewrite Hp.
    + rewrite denoms_roundtrip by done. cbn. rewrite Hfees. cbn. rewrite ibc_parameters_inverse. destruct pre. cbn in *.
      change (is_empty "") with true. cbn. by rewrite Hp.
  - intros r g [Hra Hrf] Hg. change (genesis_try_from_raw r = Ok g) in Hg. unfold genesis_try_from_raw in Hg.
    decode Hg. subst g. rewrite Ha10 in Hrf. apply all_base_prefix_Ok in Ha12.
    unfold address_prefixes_try_from_raw in Ha0. decode Ha0. subst a0.
    repeat match goal with E : dummy_addr _ = Ok _ |- _ => apply dummy_addr_ok in E end.
    split; [done|]. split; [done|]. split; [by eapply (wire_list_decoded (A := Account))|].
    split; [exact (wire_decoded (A := Address) _ _ I Ha3)|].
    split; [exact (wire_decoded (A := Address) _ _ I Ha5)|].
    split; [|split; [|split; [|split; [exact (wire_decoded (A := GenesisFees) _ _ Hrf Ha11)|exact Ha12]]]].
    + refine (wire_list_decoded (A := Address) _ _ _ Ha6). by apply list.Forall_true.
    + destruct (is_empty _); [by injection Ha7 as <-|]. decode Ha7. subst a7. 
      by match goal with E : trace_prefixed_from_str _ = _ |- _ => apply trace_from_str_ok in E as [] end.
    + by eapply denoms_decoded.
Qed.
End laws.
