(* ===== verification/GenesisChain.v ===== *)
(** * The chain from its genesis

    [App::init_chain] of [sequencer/src/app/mod.rs] and the request handler of
    [service/consensus.rs] that calls it; and the requests that CometBFT makes of a
    node as the steps of a relation.  The theorems: what the genesis state writes
    into the store, and what holds of every state that is ever committed, whatever
    blocks are proposed, executed and committed, and however the node restarts. *)
From S2P Require Import Prelude Denom Types State Chain Accounts Authority BridgeActions Ics20 Relay Transact.
From S2P Require Import Conservation RelayLemmas TransactTheorems Invariants BTree Mempool.
From S2P Require Import Wire WireActions WireLaws WireTransaction WireTheorems Collections.
From S2P Require Import MerkleIndex MerkleTree MerkleAudit Block SequencerBlock BlockLemmas BlockBuild.
From S2P Require Import ExecutionState Upgrades VoteExtension Proposal BlockStore App AppLemmas Genesis.
From stdpp Require Import base list option strings gmap numbers tactics.
From Stdlib Require Import ZArith Lia String RelationClasses.
Open Scope string_scope.
Open Scope Z_scope.

(** ** [init_chain] *)
(** [serde_json] with the message's derived implementation *)
Class GenesisJson := genesis_from_json : string -> option RawGenesisAppState.
Record CometValidator := mk_comet_validator { cv_power : Z; cv_pub_key : option RawPublicKey }.
Record InitChain := mk_init_chain {
  init_app_state_bytes : string;
  init_validators : list CometValidator;
  init_chain_id : string;
  init_consensus_params : ConsensusParams }.
Record InitChainResponse := mk_init_chain_response {
  ir_app_hash : string; ir_consensus_params : ConsensusParams; ir_validators : list CometValidator }.

Section init_chain.
Context `{AppCodec, VoteCodec, Borsh, Relay, IbcGenesis, GenesisJson}.

(** [utils.rs] *)
Definition cometbft_to_sequencer_validator (v : CometValidator) : result ValidatorUpdateError ValidatorUpdate :=
  try_from_raw ValidatorUpdate (mk_raw_validator (cv_pub_key v) (cv_power v) "").

(** [App::init_chain] *)
Definition init_chain (g : GenesisAppState) (genesis_validators : list ValidatorUpdate) (chain_id : string)
    : AppM string :=
  _ ← on_delta (write_genesis tm_chain_id_valid g genesis_validators chain_id);
  app_wrap "failed to prepare commit" prepare_commit.

(** [Consensus::init_chain] *)
Definition handle_init_chain (now : Z) (request : InitChain) : AppM InitChainResponse :=
  st ← app_gets storage;
  app_ensure (latest_version st =? umax 64) "database already initialized";;
  raw ← app_result (ok_or ["failed to parse app_state in genesis file"]
                      (genesis_from_json (init_app_state_bytes request)));
  genesis_state ← app_result (map_err (fun _ => ["failed to parse app_state in genesis file"])
                                (try_from_raw GenesisAppState raw));
  genesis_validators ← app_result (map_err (fun _ => ["failed converting cometbft genesis validators to astria validators"])
                                     (try_collect cometbft_to_sequencer_validator (init_validators request)));
  app_hash ← app_wrap "failed to call init_chain"
               (init_chain genesis_state genesis_validators (init_chain_id request));
  _ ← app_wrap "failed to commit" (commit now);
  mret (mk_init_chain_response app_hash (init_consensus_params request) (init_validators request)).

(** ** The consensus service: [service/consensus.rs] *)
Inductive ConsensusRequest :=
| Request_InitChain (request : InitChain)
| Request_PrepareProposal (request : PrepareProposal)
| Request_ProcessProposal (request : ProcessProposal)
| Request_ExtendVote
| Request_VerifyVoteExtension (vote_extension : string)
| Request_FinalizeBlock (request : FinalizeBlock)
| Request_Commit.
Inductive ConsensusResponse :=
| Response_InitChain (response : InitChainResponse)
| Response_PrepareProposal (txs : list string)
| Response_ProcessProposal (accept : bool)
| Response_ExtendVote (vote_extension : string)
| Response_VerifyVoteExtension (response : VerifyVoteExtension)
| Response_FinalizeBlock (response : FinalizeBlockResponse)
| Response_Commit.
(** The [Result] of a handler as a value *)
Definition app_try {A} (m : AppM A) : AppM (result Report A) := fun app =>
  match m app with
  | (Done a, app) => (Done (Ok a), app)
  | (Fail e, app) => (Done (Err e), app)
  | (Crash, app) => (Crash, app)
  end.
Definition handle_request (now : Z) (request : ConsensusRequest) : AppM (ConsensusResponse * ShouldShutDown) :=
  match request with
  | Request_InitChain request =>
      r ← app_wrap "failed initializing chain" (handle_init_chain now request);
      mret (Response_InitChain r, ContinueRunning)
  | Request_PrepareProposal request =>
      r ← app_wrap "failed to prepare proposal" (prepare_proposal request);
      mret (Response_PrepareProposal r, ContinueRunning)
  | Request_ProcessProposal request =>
      r ← app_try (process_proposal request);
      mret (Response_ProcessProposal (is_ok r), ContinueRunning)
  | Request_ExtendVote =>
      r ← app_try app_extend_vote;
      mret (Response_ExtendVote (match r with Ok v => v | Err _ => "" end), ContinueRunning)
  | Request_VerifyVoteExtension vote_extension =>
      r ← app_wrap "failed to verify vote extension" (app_verify_vote_extension vote_extension);
      mret (Response_VerifyVoteExtension r, ContinueRunning)
  | Request_FinalizeBlock request =>
      r ← app_wrap "failed to finalize block" (app_wrap "failed to call App::finalize_block" (finalize_block request));
      mret (Response_FinalizeBlock r, ContinueRunning)
  | Request_Commit =>
      should_shut_down ← app_wrap "failed to commit" (app_wrap "error committing" (commit now));
      mret (Response_Commit, should_shut_down)
  end.

(** ** What can happen to a node *)
(** [App::new] *)
Definition app_new (snapshot : Storage) (m : Mempool) (u : UpgradesHandler) (v : Handler) : App :=
  mk_app (latest_snapshot snapshot) m Unset false None (root_hash (App.snapshot snapshot)) u v snapshot.
(** A node that starts on the storage of another *)
Definition restarted (m : Mempool) (a : App) : App :=
  app_new (storage a) m (upgrades_handler a) (vote_extension_handler a).
(** An error of a request is a panic of the service, after which the node starts again. *)
Definition after_request {A} (m : Mempool) (r : outcome A * App) : App :=
  match r.1 with Done _ => r.2 | Fail _ | Crash => restarted m r.2 end.
(** Transactions were decoded: their amounts have 128 bits. *)
Definition tx_ok (tx : Transaction) : Prop := Forall action_ok (tx_actions tx).
(** The requests after [InitChain], with whatever outcome.  The mempool can change at
    any time, and holds decoded transactions when a block is built from it. *)
Inductive node_step : App -> App -> Prop :=
| step_request now request m a :
    Forall tx_ok (mempool_builder_queue (app_mempool a)).*2 ->
    (forall r, request <> Request_InitChain r) ->
    node_step a (after_request m (handle_request now request a))
| step_mempool m a : node_step a (upd_app_mempool (fun _ => m) a)
| step_restart m a : node_step a (restarted m a).
End init_chain.

(** ** Invariants of a node

    An invariant of the ledger that every computation of a block keeps holds of the
    committed state, of the state under execution and of the batch to be committed. *)
Section invariant.
Context `{AppCodec, VoteCodec, Borsh, Relay, IbcGenesis, GenesisJson, !SigningLaws}.
Variable P : State -> Prop.
Class LedgerInvariant : Prop := {
  inv_events f s : P s -> P (on_events f s);
  inv_clear s : P s -> P (clear_ephemeral s);
  inv_version f s : P s -> P (on_app_data (upd_storage_versions f) s);
  inv_transaction tx s evs s' : tx_ok tx -> execute_transaction tx s = (Done evs, s') -> P s -> P s';
  inv_upgrade h height : ensures (keeps_inv P) (execute_upgrade_if_due h height);
  inv_begin_block height time l : ensures (keeps_inv P) (app_begin_block height time l);
  inv_end_block recipient : ensures (keeps_inv P) (app_end_block recipient);
  inv_finish_block hash height deposits h : ensures (keeps_inv P) (finish_block hash height deposits h);
  inv_prices m time height : ensures (keeps_inv P) (apply_prices_from_vote_extensions m time height) }.
Context {HP : LedgerInvariant}.

Definition node_ok (a : App) : Prop :=
  P (snapshot (storage a)) /\ P (ledger (state a)) /\ from_option (fun b => P b.1) True (write_batch a).
Definition Keeps {A} (m : AppM A) : Prop := forall a, node_ok a -> node_ok (m a).2.

Lemma keeps_read_only {A} (m : AppM A) : (forall a, (m a).2 = a) -> Keeps m.
Proof. intros Hm a. by rewrite Hm. Qed.
Lemma keeps_bind_value {A B} (m : AppM A) (f : A -> AppM B) :
  Keeps m -> (forall x a a', m a = (Done x, a') -> Keeps (f x)) -> Keeps (m ≫= f).
Proof.
  intros Hm Hf a Ha. specialize (Hm a Ha). unfold mbind, AppM_bind.
  destruct (m a) as [[x| |] a1] eqn:E; [by eapply Hf|done..].
Qed.
Lemma keeps_bind {A B} (m : AppM A) (f : A -> AppM B) : Keeps m -> (forall x, Keeps (f x)) -> Keeps (m ≫= f).
Proof. intros Hm Hf. by apply keeps_bind_value. Qed.
Lemma keeps_wrap {A} msg (m : AppM A) : Keeps m -> Keeps (app_wrap msg m).
Proof. intros Hm a Ha. specialize (Hm a Ha). unfold app_wrap. by destruct (m a) as [[] ?]. Qed.
Lemma keeps_try {A} (m : AppM A) : Keeps m -> Keeps (app_try m).
Proof. intros Hm a Ha. specialize (Hm a Ha). unfold app_try. by destruct (m a) as [[] ?]. Qed.
Lemma keeps_ret {A} (x : A) : Keeps (mret x).
Proof. by intros a Ha. Qed.
Lemma keeps_gets {A} (f : App -> A) : Keeps (app_gets f).
Proof. by intros a Ha. Qed.
Lemma keeps_bail {A} e : Keeps (app_bail e : AppM A).
Proof. by intros a Ha. Qed.
Lemma keeps_ensure b msg : Keeps (app_ensure b msg).
Proof. intros a Ha. by destruct b. Qed.
Lemma keeps_result {A} (r : result Report A) : Keeps (app_result r).
Proof. intros a Ha. by destruct r. Qed.
Lemma keeps_run {A} (r : run A) : Keeps (app_run r).
Proof. intros a Ha. by destruct r. Qed.
Lemma keeps_attempt {E A} (rep : E -> Report) (r : attempt E A) : Keeps (app_attempt rep r).
Proof. unfold app_attempt. apply keeps_bind; [apply keeps_run|intros]. apply keeps_result. Qed.
Lemma keeps_expect {A} (o : option A) : Keeps (app_expect o).
Proof. apply keeps_run. Qed.
Lemma keeps_reading {A} (m : M A) : Keeps (reading m).
Proof. by intros a Ha. Qed.
Lemma keeps_hash_of h : Keeps (block_hash_of h).
Proof. intros a Ha. by destruct h. Qed.
Lemma keeps_modify f : (forall a, node_ok a -> node_ok (f a)) -> Keeps (app_modify f).
Proof. intros Hf a Ha. by apply Hf. Qed.
Lemma keeps_on_delta {A} (m : M A) : ensures (keeps_inv P) m -> Keeps (on_delta m).
Proof.
  intros Hm a (Hs & Hl & Hb). unfold on_delta.
  destruct (m (on_events (fun _ => []) (ledger (state a)))) as [[x| |] s'] eqn:E; [|done..].
  apply Hm in E. split; [done|]. split; [|done]. cbn. apply inv_events. apply E. by apply inv_events.
Qed.
Lemma keeps_on_execution {A} (m : Execution -> outcome A * Execution) :
  (forall x, P (ex_state x) -> P (ex_state (m x).2)) -> Keeps (on_execution m).
Proof.
  intros Hm a (Hs & Hl & Hb). unfold on_execution.
  specialize (Hm (mk_execution (ledger (state a)) (recost_mempool a)) Hl).
  destruct (m _) as [r x]. by split_and!.
Qed.
End invariant.

Ltac keeps_step :=
  match goal with
  | |- Keeps _ (_ ≫= _) => apply keeps_bind; [|intros ?]
  | |- Keeps _ (app_wrap _ _) => apply keeps_wrap
  | |- Keeps _ (app_try _) => apply keeps_try
  | |- Keeps _ (mret _) => apply keeps_ret
  | |- Keeps _ (app_gets _) => apply keeps_gets
  | |- Keeps _ (app_bail _) => apply keeps_bail
  | |- Keeps _ (app_ensure _ _) => apply keeps_ensure
  | |- Keeps _ (app_result _) => apply keeps_result
  | |- Keeps _ (app_run _) => apply keeps_run
  | |- Keeps _ (app_attempt _ _) => apply keeps_attempt
  | |- Keeps _ (app_expect _) => apply keeps_expect
  | |- Keeps _ (reading _) => apply keeps_reading
  | |- Keeps _ (block_hash_of _) => apply keeps_hash_of
  | |- Keeps _ (app_modify _) => apply keeps_modify; solve [by intros ? (? & ? & ?)]
  | |- Keeps _ (on_delta _) => apply keeps_on_delta; [done|]
  | |- Keeps _ (match ?x with _ => _ end) => destruct x
  | |- Keeps _ (let '(_, _) := ?x in _) => destruct x
  end.
Ltac keeps_tac := repeat keeps_step.

Section handlers.
Context `{AppCodec, VoteCodec, Borsh, Relay, IbcGenesis, GenesisJson, !SigningLaws}.
Context (P : State -> Prop) {HP : LedgerInvariant P}.

Lemma keeps_new_round : Keeps P update_state_for_new_round.
Proof. unfold update_state_for_new_round. keeps_tac. Qed.
Lemma keeps_prepare_commit : Keeps P prepare_commit.
Proof.
  intros a (Hs & Hl & Hb). unfold prepare_commit, app_expect, mbind, AppM_bind, app_gets, app_modify. cbn -[clear_ephemeral].
  destruct (block_height (app_data (ledger (state a)))) as [h|]; cbn -[clear_ephemeral]; [|by split; [|split]].
  split; [done|]. split; [done|]. cbn. by apply inv_clear, inv_version.
Qed.
Lemma keeps_due_upgrade height : Keeps P (execute_due_upgrade height).
Proof.
  intros a Ha. pose proof Ha as (Hs & Hl & Hb). unfold execute_due_upgrade.
  unfold mbind at 1, AppM_bind at 1. unfold app_gets at 1. unfold mbind at 1, AppM_bind at 1. unfold app_gets at 1.
  assert (Keeps P (app_wrap "failed to execute upgrade" (on_delta (execute_upgrade_if_due (upgrades_handler a) height)))) as Hk.
  { keeps_tac. by apply inv_upgrade. }
  specialize (Hk a Ha). unfold mbind at 1, AppM_bind at 1.
  destruct (app_wrap _ _ a) as [[[hashes evs]| |] a1]; cbn in *; [|done..].
  destruct Hk as (Hs1 & Hl1 & Hb1). by destruct (bool_decide _).
Qed.
Lemma keeps_begin_block d : Keeps P (begin_block_delta d).
Proof. unfold begin_block_delta. keeps_tac. by apply inv_begin_block. Qed.
Lemma keeps_pre_execute d : Keeps P (pre_execute_transactions d).
Proof. unfold pre_execute_transactions. keeps_tac; [apply keeps_due_upgrade|apply keeps_begin_block]. Qed.

(** *** Transactions *)
Lemma app_execute_keeps tx x : tx_ok tx -> P (ex_state x) -> P (ex_state (app_execute_transaction tx x).2).
Proof.
  intros Htx Hx. unfold app_execute_transaction.
  destruct (execute_transaction tx (ex_state x)) as [[evs| |] s] eqn:E; cbn.
  - by eapply inv_transaction.
  - by rewrite (execute_transaction_undone tx (ex_state x) _ s E).
  - by rewrite (execute_transaction_undone tx (ex_state x) _ s E).
Qed.
Lemma proposal_checks_keep tx p x :
  tx_ok tx -> P (ex_state x) -> P (ex_state (proposal_checks_and_tx_execution tx p x).2).
Proof.
  intros Htx Hx. pose proof (app_execute_keeps tx x Htx Hx) as Hk. unfold proposal_checks_and_tx_execution.
  repeat case_match; simplify_eq/=; done.
Qed.
Lemma execute_proposal_keeps l p x :
  Forall tx_ok l -> P (ex_state x) -> P (ex_state (execute_proposal l p x).2).
Proof.
  intros Hl. revert p x. induction Hl as [|tx l Htx Hl IH]; intros p x Hx; cbn; [done|].
  pose proof (proposal_checks_keep tx p x Htx Hx) as Hk.
  destruct (proposal_checks_and_tx_execution tx p x) as [[[[] q]| |] y]; cbn in *; try done. by apply IH.
Qed.
Lemma finalize_txs_keep l x :
  Forall tx_ok l -> P (ex_state x) -> P (ex_state (finalize_tx_execution l x).2).
Proof.
  intros Hl. revert x. induction Hl as [|tx l Htx Hl IH]; intros x Hx; cbn; [done|].
  pose proof (app_execute_keeps tx x Htx Hx) as Hk.
  destruct (app_execute_transaction tx x) as [[evs| |] y]; cbn in *; [| |done].
  - specialize (IH y Hk). by destruct (finalize_tx_execution l y) as [[] ?].
  - specialize (IH y Hk). destruct (if is_invalid_nonce tx _ then _ else _) as [code info].
    by destruct (finalize_tx_execution l y) as [[] ?].
Qed.

(** *** The transactions of a block are decoded ones *)
Lemma valid_action_ok act : valid address_typed act -> action_ok act.
Proof.
  destruct act as [| |act|act|act|act|act|act|act|act|act|act|act|act|act|act|act|act];
    cbn -[uint]; try done; try by intros (? & ? & _). all: try by intros [? _]. all: by destruct act.
Qed.
Lemma decoded_tx_ok bs tx : decode_user_transaction bs = Ok tx -> tx_ok (ledger_tx tx).
Proof.
  unfold decode_user_transaction. intros Htx. decode Htx.
  match goal with E : _ = Ok tx |- _ => apply transaction_decoded in E as (_ & _ & _ & raw & Hd & Hb) end.
  assert (valid address_typed (signed_body tx)) as (_ & Hacts & _);
    [eapply wire_decoded; [exact (body_widths _ _ Hd)|exact Hb]|].
  eapply list.Forall_impl; [exact Hacts|]. intros ?. apply valid_action_ok.
Qed.
Definition block_txs_ok (d : ExpandedBlockData) : Prop := Forall tx_ok (ledger_txs d).
Lemma collected_txs_ok l txs :
  try_collect decode_user_transaction l = Ok txs -> Forall tx_ok (ledger_tx <$> txs).
Proof.
  intros Hl%try_collect_Ok. apply Forall_fmap. induction Hl; constructor; [|done]. cbn. by eapply decoded_tx_ok.
Qed.
Lemma untyped_txs_ok data d : new_from_untyped_data data = Val (Ok d) -> block_txs_ok d.
Proof.
  unfold new_from_untyped_data. intros Hd.
  apply attempt_bind_Ok in Hd as (tree & _ & Hd). apply attempt_bind_Ok in Hd as (root & _ & Hd).
  destruct data as [|? [|? rest]]; [done| |].
  { apply attempt_bind_Ok in Hd as (? & _ & Hd). by apply attempt_bind_Ok in Hd as (? & _ & Hd). }
  do 4 apply attempt_bind_Ok in Hd as (? & _ & Hd).
  apply attempt_bind_Ok in Hd as (txs & Htxs & Hd). injection Hd as <-. apply checked_Ok in Htxs.
  by apply collected_txs_ok in Htxs.
Qed.
Lemma typed_txs_ok data b d : new_from_typed_data data b = Val (Ok d) -> block_txs_ok d.
Proof.
  unfold new_from_typed_data. intros Hd. destruct data as [|? [|? rest]]; [done| |].
  { by apply attempt_bind_Ok in Hd as (? & _ & Hd). }
  do 2 apply attempt_bind_Ok in Hd as (? & _ & Hd). destruct (take_change_hashes 2 rest) as [[hs rest'] index].
  apply attempt_bind_Ok in Hd as ([info rest''] & _ & Hd).
  apply attempt_bind_Ok in Hd as (txs & Htxs & Hd). cbv zeta in Hd.
  do 5 apply attempt_bind_Ok in Hd as (? & _ & Hd). injection Hd as <-. apply checked_Ok in Htxs.
  by apply collected_txs_ok in Htxs.
Qed.
Lemma parsed_txs_ok txs height a d a' : parse_block_data txs height a = (Done d, a') -> block_txs_ok d.
Proof.
  unfold parse_block_data. rewrite app_bind_Done. intros (uses & a1 & _ & Hd).
  apply app_bind_Done in Hd as (r & a2 & Hr & Hd).
  apply app_wrap_Done in Hd. unfold app_attempt in Hd.
  apply app_bind_Done in Hd as (res & a3 & Hres & Hd). apply app_run_Done in Hres as [-> ->].
  apply app_result_Done in Hd as [Hd ->]. destruct res as [d'|e]; [|done]. injection Hd as ->.
  destruct uses.
  - apply app_bind_Done in Hr as (enabled & a4 & _ & Hr). apply app_ret_Done in Hr as [Hr _].
    symmetry in Hr. by apply typed_txs_ok in Hr.
  - apply app_ret_Done in Hr as [Hr _]. symmetry in Hr. by apply untyped_txs_ok in Hr.
Qed.

(** *** The handlers *)
Lemma keeps_info height last_commit : Keeps P (proposed_commit_info height last_commit).
Proof. intros a Ha. unfold proposed_commit_info. by destruct (handler_prepare_proposal _ _ _) as [[] ?]. Qed.
Lemma keeps_commit_info request c : Keeps P (prepare_commit_info request c).
Proof. unfold prepare_commit_info, vote_extensions_enabled. keeps_tac. apply keeps_info. Qed.
Lemma keeps_check d : Keeps P (check_commitments d).
Proof. unfold check_commitments, cached_block_deposits. keeps_tac. Qed.
Lemma keeps_validate height c d : Keeps P (validate_commit_info height c d).
Proof. unfold validate_commit_info. keeps_tac. Qed.
Lemma keeps_hashes d hashes : Keeps P (ensure_upgrade_change_hashes_as_expected d hashes).
Proof. unfold ensure_upgrade_change_hashes_as_expected. keeps_tac. Qed.
Lemma keeps_parse txs height : Keeps P (parse_block_data txs height).
Proof. unfold parse_block_data, uses_data_item_enum, vote_extensions_enabled. keeps_tac. Qed.
Lemma keeps_end h height time p d res : Keeps P (end_and_store_block h height time p d res).
Proof. unfold end_and_store_block. keeps_tac; [by apply inv_end_block|by apply inv_finish_block]. Qed.
Lemma keeps_post h height time p d res : Keeps P (post_execute_transactions h height time p d res).
Proof. unfold post_execute_transactions, mark_executed. keeps_tac. apply keeps_end. Qed.
Lemma keeps_processed request d : block_txs_ok d -> Keeps P (execute_processed request d).
Proof.
  intros Hd. unfold execute_processed. keeps_tac;
    [apply keeps_new_round|apply keeps_validate|apply keeps_pre_execute|apply keeps_hashes| |apply keeps_check].
  apply keeps_on_execution. intros y Hx. unfold process_proposal_tx_execution.
  pose proof (execute_proposal_keeps _ (Proposal.Process new_unlimited_cometbft [] BundleableGeneral) y Hd Hx) as Hk.
  by destruct (execute_proposal _ _ _) as [[] ?].
Qed.
Lemma keeps_process_proposal request : Keeps P (process_proposal request).
Proof.
  unfold process_proposal. keeps_step; [keeps_tac|]. destruct (check_if_prepared_proposal _ _) as [skip st].
  keeps_step; [keeps_tac|]. keeps_step; [keeps_tac|].
  apply keeps_bind_value; [apply keeps_parse|]. intros d a a' Hd%parsed_txs_ok.
  keeps_tac; [by apply keeps_processed|apply keeps_post].
Qed.
Lemma keeps_prices d time height : Keeps P (apply_prices d time height).
Proof. unfold apply_prices. keeps_tac. by apply inv_prices. Qed.
Lemma keeps_finalized request d : block_txs_ok d -> Keeps P (execute_finalized request d).
Proof.
  intros Hd. unfold execute_finalized. keeps_tac; [apply keeps_pre_execute|apply keeps_hashes| |apply keeps_post].
  apply keeps_on_execution. intros y Hx. by apply finalize_txs_keep.
Qed.
Lemma keeps_finalize_block request : Keeps P (finalize_block request).
Proof.
  unfold finalize_block. keeps_step; [keeps_tac|]. keeps_step; [keeps_tac|].
  destruct (check_if_executed_block _ _) as [skip st].
  keeps_step; [keeps_tac|]. keeps_step; [keeps_tac; apply keeps_new_round|].
  apply keeps_bind_value; [apply keeps_parse|]. intros d a a' Hd%parsed_txs_ok.
  unfold respond. keeps_tac; [apply keeps_prices|by apply keeps_finalized|apply keeps_prepare_commit].
Qed.
(** The commit makes the batch the new snapshot. *)
Lemma keeps_commit now : Keeps P (commit now).
Proof.
  intros a (Hs & Hl & Hb). unfold commit. unfold mbind at 1, AppM_bind at 1. unfold app_gets at 1.
  destruct (write_batch a) as [[s blocks]|] eqn:Eb; [|split; [done|split; [done|]]; unfold mbind, AppM_bind, app_expect; cbn; by rewrite Eb].
  cbn in Hb. unfold mbind at 1, AppM_bind at 1, app_expect at 1. cbn [unwrap app_run].
  do 2 (unfold mbind at 1, AppM_bind at 1; unfold app_modify at 1).
  match goal with |- node_ok P (?m ?b).2 => assert (Keeps P m) as Hk; [|apply Hk; by split; [|split]] end.
  keeps_tac; apply keeps_new_round.
Qed.

(** *** Preparing a block: the transactions come from the mempool as it was. *)
Definition mempool_ok (a : App) : Prop := Forall tx_ok (mempool_builder_queue (app_mempool a)).*2.
Definition keeps_with_mempool {A} (m : AppM A) : Prop :=
  forall a, mempool_ok a -> node_ok P a -> node_ok P (m a).2.
Definition mempool_untouched {A} (m : AppM A) : Prop := forall a, app_mempool (m a).2 = app_mempool a.
Lemma steady_untouched {A} (m : AppM A) :
  (forall f, Steady (upd_app_mempool f) m) -> mempool_untouched m.
Proof.
  intros Hm a. specialize (Hm (fun _ => app_mempool a) a).
  replace (upd_app_mempool (fun _ => app_mempool a) a) with a in Hm by by destruct a.
  destruct (m a) as [r a1]. cbn in Hm. injection Hm as Ha1. by rewrite Ha1.
Qed.
#[export] Instance mempool_aside f : Aside (upd_app_mempool f).
Proof. split; [split|..]; done. Qed.
Lemma with_mempool_bind {A B} (m : AppM A) (f : A -> AppM B) :
  Keeps P m -> mempool_untouched m -> (forall x, keeps_with_mempool (f x)) -> keeps_with_mempool (m ≫= f).
Proof.
  intros Hk Hm Hf a Hq Ha. specialize (Hk a Ha). specialize (Hm a). unfold mbind, AppM_bind.
  destruct (m a) as [[x| |] a1]; [|done..]. apply Hf; [|done]. unfold mempool_ok. cbn in Hm. by rewrite Hm.
Qed.
Lemma keeps_anyway {A} (m : AppM A) : Keeps P m -> keeps_with_mempool m.
Proof. intros Hm a _. apply Hm. Qed.
Lemma keeps_prepared c : keeps_with_mempool (execute_prepared c).
Proof.
  intros a Hq Ha. unfold execute_prepared. unfold mbind at 1, AppM_bind at 1. unfold app_gets at 1.
  match goal with |- node_ok P (?m ?b).2 => assert (Keeps P m) as Hk; [|by apply Hk] end.
  keeps_tac. apply keeps_on_execution. intros y Hx. unfold prepare_proposal_tx_execution.
  pose proof (execute_proposal_keeps (mempool_builder_queue (app_mempool a)).*2
    (Prepare c [] [] 0 [] 0 BundleableGeneral (app_mempool a)) y Hq Hx) as Hk.
  by destruct (execute_proposal _ _ _) as [[[]| |] ?].
Qed.
#[export] Instance info_steady f height c : Steady (upd_app_mempool f) (proposed_commit_info height c).
Proof. intros a. unfold proposed_commit_info. cbn. by destruct (handler_prepare_proposal _ _ _) as [[] ?]. Qed.
#[export] Instance recost_flag_steady f b : Steady (upd_app_mempool f) (app_modify (upd_recost_mempool b)).
Proof. done. Qed.
#[export] Instance new_round_steady f : Steady (upd_app_mempool f) update_state_for_new_round.
Proof. done. Qed.
Lemma keeps_prepare_proposal request : keeps_with_mempool (prepare_proposal request).
Proof.
  unfold prepare_proposal.
  apply with_mempool_bind; [apply keeps_new_round|apply steady_untouched; intros; apply _|intros _].
  apply with_mempool_bind; [keeps_tac; apply keeps_pre_execute| |intros hashes].
  { apply steady_untouched. intros f. unfold pre_execute_transactions. steadiness. }
  apply with_mempool_bind; [apply keeps_gets|apply steady_untouched; intros; apply _|intros uses].
  apply with_mempool_bind; [apply keeps_result|apply steady_untouched; intros; apply _|intros c].
  apply with_mempool_bind; [apply keeps_commit_info| |intros [info c']].
  { apply steady_untouched. intros f. unfold prepare_commit_info. steadiness. }
  intros a Hq Ha. pose proof (keeps_prepared c' a Hq Ha) as Hp. unfold mbind at 1, AppM_bind at 1.
  destruct (execute_prepared c' a) as [[p| |] a1]; [|done..].
  match goal with |- node_ok P (?m ?b).2 => assert (Keeps P m) as Hk; [|by apply Hk] end.
  unfold cached_block_deposits. keeps_tac.
Qed.

Lemma keeps_request now request :
  (forall r, request <> Request_InitChain r) -> keeps_with_mempool (handle_request now request).
Proof.
  intros Hr. destruct request as [r|r|r| |v|r| ]; cbn [handle_request]; [by destruct (Hr r)| |apply keeps_anyway..].
  - intros a Hq Ha. pose proof (keeps_prepare_proposal r a Hq Ha) as Hp. unfold mbind, AppM_bind, app_wrap.
    by destruct (prepare_proposal r a) as [[] ?].
  - keeps_tac. apply keeps_process_proposal.
  - unfold app_extend_vote. keeps_tac.
  - unfold app_verify_vote_extension. keeps_tac.
  - keeps_tac. apply keeps_finalize_block.
  - keeps_tac. apply keeps_commit.
Qed.
Lemma restarted_ok m a : node_ok P a -> node_ok P (restarted m a).
Proof. by intros (Hs & _ & _). Qed.
Lemma node_step_ok a a' : node_step a a' -> node_ok P a -> node_ok P a'.
Proof.
  intros [now request m b Hq Hr|m b|m b] Ha.
  - pose proof (keeps_request now request Hr b Hq Ha) as Hk. unfold after_request.
    destruct (handle_request now request b) as [[] b']; [done|by apply restarted_ok..].
  - by destruct Ha as (? & ? & ?).
  - by apply restarted_ok.
Qed.
Lemma node_steps_ok a a' : rtc node_step a a' -> node_ok P a -> node_ok P a'.
Proof. induction 1; eauto using node_step_ok. Qed.
End handlers.

(** ** What every committed state satisfies *)
(** What is written at genesis and never again *)
Definition constants (s : State) :=
  (chain_id (app_data s), revision_number (app_data s), address_config s, native_asset (assets s)).
Definition has_sudo (s : State) : Prop := is_Some (sudo (authority s)).
Record chain_ok (genesis s : State) : Prop := mk_chain_ok {
  chain_ranges : ranges_ok s;
  chain_fee_asset : has_fee_asset genesis -> has_fee_asset s;
  chain_sudo : has_sudo s;
  chain_constants : constants s = constants genesis }.

Section chain.
Context `{AppCodec, VoteCodec, Borsh, Relay, IbcGenesis, GenesisJson, !SigningLaws}.

Lemma sudo_same {A} (m : M A) : ensures (same (fun s => sudo (authority s))) m -> ensures (keeps_inv has_sudo) m.
Proof. apply ensures_mono. unfold same, keeps_inv, has_sudo. intros s s' ->. done. Qed.
Lemma fee_assets_same {A} (m : M A) :
  ensures (same (fun s => allowed_assets (fees s))) m -> ensures (keeps_inv has_fee_asset) m.
Proof. apply ensures_mono. unfold same, keeps_inv, has_fee_asset. intros s s' ->. done. Qed.
Lemma sudo_keep tx action : ensures (keeps_inv has_sudo) (execute_action tx action).
Proof.
  assert (forall a, ensures (keeps_inv has_sudo) (put_sudo_address a)) as Hput.
  { intros a s u s' Hs. unfold put_sudo_address in Hs. run_inv Hs. subst. intros _. by eexists. }
  destruct action; cbn [execute_action]; try (apply sudo_same; solve [ensures_tac]).
  repeat first [apply Hput | ensures_step]. all: intros K; exact K.
Qed.
Lemma constants_keep tx action : ensures (same constants) (execute_action tx action).
Proof. destruct action; cbn [execute_action]; ensures_tac. Qed.

(** A computation that keeps every part of the invariant *)
Lemma chain_ok_keeps g {A} (m : M A) :
  ensures (keeps_inv ranges_ok) m -> ensures (keeps_inv has_fee_asset) m ->
  ensures (keeps_inv has_sudo) m -> ensures (same constants) m -> ensures (keeps_inv (chain_ok g)) m.
Proof.
  intros Hr Hf Hs Hc s a s' Hm [Ir If Is Ic]. constructor.
  - by eapply Hr.
  - intros Hg. eapply Hf, If, Hg. exact Hm.
  - by eapply Hs.
  - by rewrite <- Ic, (Hc _ _ _ Hm).
Qed.
(** What the invariant looks at *)
Definition watched (s : State) := (ranged s, allowed_assets (fees s), sudo (authority s), constants s).
Lemma chain_ok_same g {A} (m : M A) : ensures (same watched) m -> ensures (keeps_inv (chain_ok g)) m.
Proof.
  intros Hm. apply chain_ok_keeps.
  - apply range_same. exact (ensures_same_compose watched (fun w => w.1.1.1) m Hm).
  - apply fee_assets_same. exact (ensures_same_compose watched (fun w => w.1.1.2) m Hm).
  - apply sudo_same. exact (ensures_same_compose watched (fun w => w.1.2) m Hm).
  - exact (ensures_same_compose watched (fun w => w.2) m Hm).
Qed.

Lemma chain_transaction g tx s evs s' :
  tx_ok tx -> execute_transaction tx s = (Done evs, s') -> chain_ok g s -> chain_ok g s'.
Proof.
  intros Htx Hs Hok. eapply (transaction_keeps (chain_ok g)); [| |exact Hok|exact Hs].
  - split; [|split; [|split]]; by intros ? ? [].
  - eapply list.Forall_impl; [exact Htx|]. intros a Ha. apply chain_ok_keeps.
    + by apply ranges_keep.
    + apply fee_assets_keep.
    + apply sudo_keep.
    + apply constants_keep.
Qed.
Lemma range_pay_block_fees recipient l :
  Forall (fun f => uint 128 (fee_amount f)) l -> ensures (keeps_inv ranges_ok) (pay_block_fees recipient l).
Proof.
  unfold pay_block_fees. induction 1 as [|f l Hf _ IH]; cbn [for_each]; [by apply ensures_reads; [apply _|]|].
  apply ensures_bind; [apply _| |intros _; exact IH]. apply ensures_wrap, range_increase, Hf.
Qed.
Lemma chain_end_block g recipient : ensures (keeps_inv (chain_ok g)) (app_end_block recipient).
Proof.
  apply chain_ok_keeps; [|apply fee_assets_same; ensures_tac|apply sudo_same; ensures_tac|ensures_tac].
  intros s u s' Hs Hok. pose proof Hok as (_ & _ & _ & Hf). unfold app_end_block in Hs.
  apply bind_done in Hs as (updates & s1 & E & Hs). unfold get_block_validator_updates in E. run_inv E. subst.
  apply bind_done in Hs as (l & s1 & E & Hs). unfold get_block_fees in E. run_inv E. subst. revert Hok.
  match type of Hs with ?m _ = _ => cut (ensures (keeps_inv ranges_ok) m); [intros Hk; exact (Hk _ _ _ Hs)|] end.
  apply ensures_bind; [apply _|apply range_same; ensures_tac|intros _].
  apply ensures_bind; [apply _|apply range_same; ensures_tac|intros _].
  apply ensures_bind; [apply _|apply range_same; ensures_tac|intros _].
  apply ensures_bind; [apply _|by apply range_pay_block_fees|intros _]. apply range_same. ensures_tac.
Qed.
#[export] Instance chain_invariant g : LedgerInvariant (chain_ok g).
Proof.
  split.
  - by intros f s [].
  - intros s [(? & ? & ? & ?) ? ? ?]. constructor; [|done..]. split; [done|]. split; [done|]. split; [done|]. constructor.
  - by intros f s [].
  - intros. by eapply chain_transaction.
  - intros. apply chain_ok_same. ensures_tac.
  - intros. apply chain_ok_same. ensures_tac.
  - intros. apply chain_end_block.
  - intros. apply chain_ok_same. ensures_tac.
  - intros. apply chain_ok_same. ensures_tac. intros s x s' Hs. repeat case_match; by simplify_eq.
Qed.
End chain.

(** ** The state that genesis writes *)
Definition uninitialized : State :=
  mk_state (mk_accounts ∅ ∅) (mk_bridge ∅ ∅ ∅ ∅ ∅ ∅ ∅ ∅) (mk_fees ∅ ∅ None)
    (mk_authority None None ∅ None None) (mk_ibc None ∅ ∅ [] [] ∅)
    (mk_addressconfig None None) (mk_assets None ∅) (mk_appdata None None None None ∅ None)
    (mk_oracle ∅ ∅ ∅ None None) (mk_markets None None) ∅ None [].

Section genesis_state.
Context `{AppCodec, VoteCodec, Borsh, Relay, IbcGenesis, GenesisJson, !SigningLaws}.

(** The fees of a genesis file by the key of their action *)
Definition fee_table (f : GenesisFees) : list (string * option FeeComponents) :=
  [("bridge_transfer", gf_bridge_transfer f);
   ("markets_change", gf_markets_change f); ("currency_pairs_change", gf_currency_pairs_change f);
   ("recover_ibc_client", gf_recover_ibc_client f); ("ibc_sudo_change", gf_ibc_sudo_change f);
   ("sudo_address_change", gf_sudo_address_change f); ("ibc_relayer_change", gf_ibc_relayer_change f);
   ("fee_change", Some (gf_fee_change f)); ("fee_asset_change", gf_fee_asset_change f);
   ("validator_update", gf_validator_update f); ("ibc_relay", gf_ibc_relay f);
   ("bridge_sudo_change", gf_bridge_sudo_change f); ("bridge_unlock", gf_bridge_unlock f);
   ("bridge_lock", gf_bridge_lock f); ("init_bridge_account", gf_init_bridge_account f);
   ("ics20_withdrawal", gf_ics20_withdrawal f); ("rollup_data_submission", gf_rollup_data_submission f);
   ("transfer", gf_transfer f)].
Definition insert_fee (kf : string * option FeeComponents) (m : gmap string FeeComponents) : gmap string FeeComponents :=
  match kf.2 with Some f => <[kf.1 := f]> m | None => m end.
(** What is stored of them: all but those of [BridgeTransfer] *)
Definition genesis_components (f : GenesisFees) : gmap string FeeComponents :=
  delete "bridge_transfer" (foldr insert_fee ∅ (fee_table f)).
(** The last entry of an address counts. *)
Definition genesis_balances (g : GenesisAppState) : gmap (address_bytes * IbcPrefixed) Z :=
  match native_asset_base_denomination g with
  | Some t => foldl (fun m a => <[(addr_bytes (account_address a), trace_to_ibc_prefixed t) := account_balance a]> m)
                ∅ (genesis_accounts g)
  | None => ∅
  end.
Definition genesis_ledger (g : GenesisAppState) (vs : list ValidatorUpdate) (cid : string) (rev : Z) : State :=
  mk_state (mk_accounts (genesis_balances g) ∅) (bridge uninitialized)
    (mk_fees (genesis_components (genesis_fees g)) (list_to_set (to_ibc_prefixed <$> genesis_fee_assets g)) None)
    (mk_authority (Some (addr_bytes (authority_sudo_address g))) (Some (new_from_updates vs)) ∅ None None)
    (mk_ibc (Some (addr_bytes (Genesis.ibc_sudo_address g)))
       (list_to_set (addr_bytes <$> ibc_relayer_addresses g)) ∅ [] [] (ibc_library_init_chain (ibc_parameters g) ∅))
    (mk_addressconfig (Some (prefixes_base (address_prefixes g))) (Some (prefixes_ibc_compat (address_prefixes g))))
    (mk_assets (native_asset_base_denomination g)
       (match native_asset_base_denomination g with Some t => {[ trace_to_ibc_prefixed t := t ]} | None => ∅ end))
    (mk_appdata (Some cid) (Some rev) (Some 0) None {[ 0 := 0 ]} None)
    (oracle uninitialized) (markets uninitialized) ∅ None [].

(** [serde] reads integers of the declared widths. *)
Class GenesisLaws : Prop := {
  genesis_json_widths text r : genesis_from_json text = Some r -> raw_valid GenesisAppState r }.
Context {HG : GenesisLaws}.

Definition stored_fees (f : GenesisFees) : list (string * option FeeComponents) := tail (fee_table f).
Lemma insert_fees_other l m k : k ∉ l.*1 -> foldr insert_fee m l !! k = m !! k.
Proof.
  induction l as [|[j [f|]] l IH]; cbn; [done|..]; intros Hk; apply not_elem_of_cons in Hk as [Hj Hk];
    [rewrite lookup_insert_ne by done|]; by apply IH.
Qed.
Lemma stored_components f : genesis_components f = foldr insert_fee ∅ (stored_fees f).
Proof.
  assert (foldr insert_fee ∅ (stored_fees f) !! "bridge_transfer" = None) as Hnone.
  { rewrite insert_fees_other; [done|]. by apply (bool_decide_unpack _). }
  unfold genesis_components, fee_table. cbn [foldr]. fold (fee_table f).
  change (foldr insert_fee ∅ (_ :: _)) with (insert_fee ("bridge_transfer", gf_bridge_transfer f) (foldr insert_fee ∅ (stored_fees f))).
  unfold insert_fee at 1. cbn [fst snd]. destruct (gf_bridge_transfer f); [by apply delete_insert_id|by apply delete_id].
Qed.

Lemma for_each_writes {A} (f : A -> M unit) (w : State -> A -> State) l :
  (forall x s, f x s = (Done tt, w s x)) -> forall s, for_each f l s = (Done tt, foldl w s l).
Proof.
  intros Hf. induction l as [|x l IH]; intros s; cbn [for_each foldl]; [done|].
  unfold mbind, M_bind. by rewrite Hf, IH.
Qed.
Lemma seq_run {A} (m : M unit) (k : M A) s s1 : m s = (Done tt, s1) -> (m;; k) s = k s1.
Proof. unfold mbind, M_bind. by intros ->. Qed.
Lemma put_genesis_fees_run F `{FeeHandler F} msg f s :
  put_genesis_fees F msg f s = (Done tt, on_fees (upd_components (insert_fee (fh_snake_case_name F, f))) s).
Proof. destruct f; cbn; [done|]. by destruct s as [? ? []]. Qed.
Lemma foldl_lift {A B} (upd : (B -> B) -> State -> State) (w : A -> B -> B) l s :
  (forall s, upd (fun x => x) s = s) -> (forall f g s, upd f (upd g s) = upd (fun x => f (g x)) s) ->
  foldl (fun s a => upd (w a) s) s l = upd (fun x => foldl (fun x a => w a x) x l) s.
Proof.
  intros Hid Hcomp. revert s. induction l as [|a l IH]; intros s; cbn; [by rewrite Hid|].
  by rewrite IH, Hcomp.
Qed.
Lemma foldl_union {A} `{Countable K} (f : A -> K) l (x : gset K) :
  foldl (fun x a => {[f a]} ∪ x) x l = list_to_set (f <$> l) ∪ x.
Proof. revert x. induction l as [|a l IH]; intros x; cbn -[union]; [|rewrite IH]; set_solver. Qed.
Lemma allowed_assets_written l s :
  foldl (fun s a => on_fees (upd_allowed_assets (fun x => {[to_ibc_prefixed a]} ∪ x)) s) s l =
  on_fees (upd_allowed_assets (fun x => foldl (fun x a => {[to_ibc_prefixed a]} ∪ x) x l)) s.
Proof. apply (foldl_lift (fun f => on_fees (upd_allowed_assets f))); [by intros [? ? []]|done]. Qed.
Lemma relayers_written l s :
  foldl (fun s a => on_ibc (upd_ibc_relayers (fun x => {[addr_bytes a]} ∪ x)) s) s l =
  on_ibc (upd_ibc_relayers (fun x => foldl (fun x a => {[addr_bytes a]} ∪ x) x l)) s.
Proof. apply (foldl_lift (fun f => on_ibc (upd_ibc_relayers f))); [by intros [? ? ? ? []]|done]. Qed.
Lemma balances_written (l : list Account) i s :
  foldl (fun s a => on_accounts (upd_balances <[(addr_bytes (account_address a), i) := account_balance a]>) s) s l =
  on_accounts (upd_balances (fun m =>
    foldl (fun m a => <[(addr_bytes (account_address a), i) := account_balance a]> m) m l)) s.
Proof. apply (foldl_lift (fun f => on_accounts (upd_balances f))); [by intros [[]]|done]. Qed.

Lemma on_fees_twice f h s : on_fees f (on_fees h s) = on_fees (fun x => f (h x)) s.
Proof. done. Qed.
Lemma fees_init_run g s :
  fees_init_chain g s = (Done tt,
    on_fees (fun f => mk_fees (foldr insert_fee (components f) (stored_fees (genesis_fees g)))
                        (list_to_set (to_ibc_prefixed <$> genesis_fee_assets g) ∪ allowed_assets f) (block_fees f)) s).
Proof.
  unfold fees_init_chain.
  etransitivity; [apply seq_run, (for_each_writes _
    (fun s a => on_fees (upd_allowed_assets (fun x => {[to_ibc_prefixed a]} ∪ x)) s)); done|].
  rewrite allowed_assets_written.
  repeat (etransitivity; [apply seq_run, put_genesis_fees_run|]). rewrite put_genesis_fees_run.
  f_equal. rewrite !on_fees_twice. unfold on_fees. f_equal. destruct (fees s) as [c a b].
  cbv [upd_components upd_allowed_assets components allowed_assets block_fees]. by rewrite foldl_union.
Qed.
Lemma accounts_init_done g s u s' :
  accounts_init_chain g s = (Done u, s') ->
  s' = on_accounts (upd_balances (fun m =>
         match native_asset (assets s) with
         | Some t => foldl (fun m a => <[(addr_bytes (account_address a), trace_to_ibc_prefixed t) := account_balance a]> m)
                       m (genesis_accounts g)
         | None => m
         end)) s /\ (native_asset (assets s) = None -> genesis_accounts g = []).
Proof.
  unfold accounts_init_chain. destruct (genesis_accounts g) as [|a l] eqn:El.
  { intros [= <- <-]. split; [|done]. destruct (native_asset (assets s)); by destruct s as [[]]. }
  rewrite <- El. clear El a l. unfold get_native_asset. intros Hs. apply bind_done in Hs as (o & s1 & E & Hs).
  run_inv E. subst. apply bind_done in Hs as (t & s1 & E & Hs). run_inv E. subst. match goal with K : native_asset (assets s) = Some _ |- _ => rewrite K end. split; [|done].
  rewrite (for_each_writes _ (fun s a => on_accounts (upd_balances
    <[(addr_bytes (account_address a), trace_to_ibc_prefixed t) := account_balance a]>) s)) in Hs by done.
  injection Hs as <- <-. by rewrite balances_written.
Qed.
Lemma ibc_init_run g s :
  ibc_init_chain g s = (Done tt,
    on_ibc (fun i => mk_ibc (Some (addr_bytes (Genesis.ibc_sudo_address g)))
                       (list_to_set (addr_bytes <$> ibc_relayer_addresses g) ∪ ibc_relayers i)
                       (channel_balances i) (sent_packets i) (acks i)
                       (ibc_library_init_chain (ibc_parameters g) (library i))) s).
Proof.
  unfold ibc_init_chain. do 2 (etransitivity; [by apply seq_run|]).
  rewrite (for_each_writes _ (fun s a => on_ibc (upd_ibc_relayers (fun x => {[addr_bytes a]} ∪ x)) s)) by done.
  rewrite relayers_written. f_equal. unfold on_ibc, upd_ibc_relayers, upd_ibc_sudo. cbn. by rewrite foldl_union.
Qed.
Ltac next Hs := cbv beta in Hs; erewrite seq_run in Hs by reflexivity.
Lemma genesis_written valid g vs cid u s :
  write_genesis valid g vs cid uninitialized = (Done u, s) ->
  valid cid = true /\ (native_asset_base_denomination g = None -> genesis_accounts g = []) /\
  exists rev, revision_number_from_chain_id cid = Val rev /\
  s = on_app_data (upd_storage_versions (fun _ => ∅)) (genesis_ledger g vs cid rev).
Proof.
  unfold write_genesis. intros Hs. next Hs. next Hs.
  set (sn := on_assets (fun _ => mk_assets (native_asset_base_denomination g)
        (match native_asset_base_denomination g with Some t => {[ trace_to_ibc_prefixed t := t ]} | None => ∅ end))
        (on_address_config (fun _ => mk_addressconfig (Some (prefixes_base (address_prefixes g)))
           (Some (prefixes_ibc_compat (address_prefixes g)))) uninitialized)).
  erewrite (seq_run _ _ _ sn) in Hs by (by destruct (native_asset_base_denomination g)).
  destruct (valid cid) eqn:Hv; [next Hs|done]. split; [done|].
  unfold put_chain_id_and_revision_number in Hs.
  apply bind_done in Hs as (u1 & s1 & E & Hs). apply wrap_err_done in E.
  destruct (revision_number_from_chain_id cid) as [rev| |] eqn:Hrev; [|done..].
  unfold put_revision_number in E. run_inv E. subst.
  next Hs. erewrite (seq_run (wrap_err "init_chain failed on FeesComponent" _)) in Hs
    by (unfold wrap_err; by rewrite fees_init_run).
  apply bind_done in Hs as (u2 & s1 & E & Hs). apply wrap_err_done, accounts_init_done in E as [-> Hnat].
  next Hs. unfold wrap_err in Hs. rewrite ibc_init_run in Hs. apply (f_equal snd) in Hs. cbv [snd] in Hs. subst s.
  split; [exact Hnat|]. exists rev. split; [done|].
  symmetry. unfold genesis_ledger. rewrite stored_components.
  rewrite <- (right_id_L ∅ (∪) (list_to_set (to_ibc_prefixed <$> genesis_fee_assets g))) at 1.
  rewrite <- (right_id_L ∅ (∪) (list_to_set (addr_bytes <$> ibc_relayer_addresses g))) at 1.
  reflexivity.
Qed.
End genesis_state.

(** ** A chain from its first request *)
Section from_genesis.
Context `{AppCodec, VoteCodec, Borsh, Relay, IbcGenesis, GenesisJson, !SigningLaws, !GenesisLaws}.

(** A node on an empty storage, whose version is [u64::MAX] *)
Definition new_node (m : Mempool) (u : UpgradesHandler) (v : Handler) : App :=
  app_new (mk_storage uninitialized empty_block_store (umax 64)) m u v.

Lemma prepare_commit_done a h a' :
  prepare_commit a = (Done h, a') ->
  exists height, block_height (app_data (ledger (state a))) = Some height /\
    let s := clear_ephemeral (on_app_data (upd_storage_versions
               <[height := wrapping_add 64 (latest_version (storage a)) 1]>) (ledger (state a))) in
    h = root_hash s /\
    a' = upd_write_batch (fun _ => Some (s, block_store (state a))) (upd_state (fun _ => latest_snapshot (storage a)) a).
Proof.
  unfold prepare_commit. intros Hs.
  apply app_bind_Done in Hs as (st & a1 & E & Hs). apply app_gets_Done in E as [-> ->].
  apply app_bind_Done in Hs as (before & a1 & E & Hs). apply app_gets_Done in E as [-> ->].
  apply app_bind_Done in Hs as (u & a1 & E & Hs). injection E as _ <-.
  apply app_bind_Done in Hs as (height & a1 & E & Hs). apply app_run_Done in E as [E ->].
  apply app_bind_Done in Hs as (u' & a1 & E' & Hs). injection E' as _ <-.
  apply app_ret_Done in Hs as [-> ->]. exists height. split; [by destruct (block_height _); simplify_eq/=|done].
Qed.
Lemma commit_done now a x a' :
  commit now a = (Done x, a') ->
  exists s blocks, write_batch a = Some (s, blocks) /\
    storage a' = mk_storage s blocks (wrapping_add 64 (latest_version (storage a)) 1) /\
    state a' = latest_snapshot (storage a') /\ write_batch a' = None /\ app_hash a' = root_hash s.
Proof.
  unfold commit. intros Hs.
  apply app_bind_Done in Hs as (batch & a1 & E & Hs). apply app_gets_Done in E as [-> ->].
  apply app_bind_Done in Hs as ([s blocks] & a1 & E & Hs). apply app_run_Done in E as [E ->].
  do 3 (apply app_bind_Done in Hs as (? & a1 & E' & Hs); injection E' as _ <-).
  apply app_bind_Done in Hs as (? & a1 & E' & Hs). injection E' as _ <-.
  apply app_bind_Done in Hs as (? & a1 & E' & Hs). apply app_gets_Done in E' as [-> ->].
  apply app_bind_Done in Hs as (? & a1 & E' & Hs). apply app_gets_Done in E' as [-> ->].
  apply app_bind_Done in Hs as (? & a1 & E' & Hs). apply app_run_Done in E' as [_ ->].
  apply app_bind_Done in Hs as (? & a1 & E' & Hs). injection E' as _ <-.
  apply app_bind_Done in Hs as (? & a1 & E' & Hs). apply app_gets_Done in E' as [-> ->].
  apply reading_Done in Hs as [_ ->]. exists s, blocks. by destruct (write_batch a); simplify_eq/=.
Qed.
Lemma init_chain_done now request m u v r a :
  handle_init_chain now request (new_node m u v) = (Done r, a) ->
  exists raw g vs rev,
    genesis_from_json (init_app_state_bytes request) = Some raw /\ try_from_raw GenesisAppState raw = Ok g /\
    try_collect cometbft_to_sequencer_validator (init_validators request) = Ok vs /\
    tm_chain_id_valid (init_chain_id request) = true /\
    revision_number_from_chain_id (init_chain_id request) = Val rev /\
    let s := genesis_ledger g vs (init_chain_id request) rev in
    storage a = mk_storage s empty_block_store 0 /\ ledger (state a) = s /\ write_batch a = None /\
    app_hash a = root_hash s /\
    r = mk_init_chain_response (root_hash s) (init_consensus_params request) (init_validators request).
Proof.
  unfold handle_init_chain. intros Hs.
  apply app_bind_Done in Hs as (st & a1 & E & Hs). apply app_gets_Done in E as [-> ->].
  apply app_bind_Done in Hs as (u1 & a1 & E & Hs). apply app_ensure_Done in E as [_ ->].
  apply app_bind_Done in Hs as (raw & a1 & E & Hs). apply app_result_Done in E as [Hraw%ok_or_Ok ->].
  apply app_bind_Done in Hs as (g & a1 & E & Hs). apply app_result_Done in E as [Hg%map_err_Ok ->].
  apply app_bind_Done in Hs as (vs & a1 & E & Hs). apply app_result_Done in E as [Hvs%map_err_Ok ->].
  apply app_bind_Done in Hs as (hash & a1 & E & Hs). apply app_wrap_Done in E. unfold init_chain in E.
  apply app_bind_Done in E as ([u2 evs] & a2 & E & Hc). unfold on_delta in E.
  change (on_events (fun _ => []) (ledger (state (new_node m u v)))) with uninitialized in E.
  destruct (write_genesis _ g vs _ uninitialized) as [[u3| |] s] eqn:Hw; [|done..].
  apply genesis_written in Hw as (Hcid & _ & rev & Hrev & Hw).
  injection E as <- <- <-. exists raw, g, vs, rev. do 5 (split; [done|]). cbv zeta.
  apply app_wrap_Done, prepare_commit_done in Hc as (height & Hheight & -> & ->).
  apply app_bind_Done in Hs as (x & a3 & E & Hs). apply app_wrap_Done, commit_done in E as (s' & blocks & Hb & Hst & Hs' & Hnone & Hhash).
  apply app_ret_Done in Hs as [-> ->]. 
  assert (s' = genesis_ledger g vs (init_chain_id request) rev /\ blocks = empty_block_store) as [-> ->].
  { subst s. injection Hheight as <-. by injection Hb as <- <-. }
  split; [exact Hst|]. split; [by rewrite Hs', Hst|]. do 2 (split; [done|]).
  subst s. by injection Hheight as <-.
Qed.

Lemma insert_fees_ok l m :
  Forall (fun kf => from_option components_ok True kf.2) l ->
  map_Forall (fun _ f => components_ok f) m -> map_Forall (fun _ f => components_ok f) (foldr insert_fee m l).
Proof.
  intros Hl Hm. induction Hl as [|[k [f|]] l Hf _ IH]; cbn; [done| |done]. by apply map_Forall_insert_2.
Qed.
Lemma genesis_ledger_ok g vs cid rev :
  valid address_typed g -> chain_ok (genesis_ledger g vs cid rev) (genesis_ledger g vs cid rev).
Proof.
  intros (_ & _ & Ha & _ & _ & _ & _ & _ & [Hc Hf] & _). constructor; [|done|by eexists|done].
  split; [|split; [apply map_Forall_empty|split; [|constructor]]]; cbn -[foldr].
  - change (map_Forall (fun _ b => uint 128 b) (genesis_balances g)). unfold genesis_balances. destruct (native_asset_base_denomination g) as [t|]; [|apply map_Forall_empty].
    assert (map_Forall (fun _ b => uint 128 b) (∅ : gmap (address_bytes * IbcPrefixed) Z)) as Hm by apply map_Forall_empty.
    revert Hm. generalize (∅ : gmap (address_bytes * IbcPrefixed) Z) as b.
    induction Ha as [|a l [_ Hb] _ IH]; intros b Hm; cbn; [done|]. apply IH. by apply map_Forall_insert_2.
  - change (map_Forall (fun _ f => components_ok f) (genesis_components (genesis_fees g))). rewrite stored_components.
    apply insert_fees_ok; [|apply map_Forall_empty]. unfold optional_fees in Hf. rewrite !list.Forall_cons in Hf.
    destruct_and! Hf. unfold stored_fees, fee_table. cbn [tail]. rewrite !list.Forall_cons. cbn. split_and!; try done.
Qed.

(** Fees for every action are computed before the first action executes. *)
Lemma unpriced_actions_fail act l m s :
  components (fees s) !! "bridge_transfer" = None -> Action_BridgeTransfer act ∈ l ->
  forall c s', fold_each add_action_fees m l s <> (Done c, s').
Proof.
  intros Hnone. revert m. induction l as [|a l IH]; intros m Hin c s' Hs; [by apply not_elem_of_nil in Hin|].
  cbn [fold_each] in Hs. apply bind_done in Hs as (m' & s1 & E & Hs).
  assert (s1 = s) as ->.
  { destruct a; cbn in E; unfold add_fees_for, get_or_init_fees, get_fees in E; run_inv E; by subst. }
  apply elem_of_cons in Hin as [<-|Hin]; [|by eapply IH].
  cbn in E. unfold add_fees_for, get_or_init_fees, get_fees in E. run_inv E. subst.
  match goal with K : _ !! _ = Some _ |- _ => change (components (fees s) !! "bridge_transfer" = Some x) in K; by rewrite Hnone in K end.
Qed.
Lemma unpriced_transaction_fails act tx s evs s' :
  components (fees s) !! "bridge_transfer" = None -> Action_BridgeTransfer act ∈ tx_actions tx ->
  execute_transaction tx s <> (Done evs, s').
Proof.
  intros Hnone Hin Hs. apply execute_transaction_done in Hs as (_ & s1 & Hs & _).
  unfold transaction_check_and_execute, put_transaction_context in Hs.
  apply bind_done in Hs as (c & s2 & E & Hs). run_inv E. subst.
  apply bind_done in Hs as (id & s2 & E & Hs). run_inv E. subst.
  apply bind_done in Hs as (u1 & s2 & E & Hs). run_inv E. subst.
  apply bind_done in Hs as (n & s2 & E & Hs). unfold get_account_nonce in E. run_inv E. subst.
  apply bind_done in Hs as (u2 & s2 & E & Hs). run_inv E. subst.
  apply bind_done in Hs as (u3 & s2 & E & _). apply wrap_err_done in E.
  unfold check_balance_for_total_fees_and_transfers, get_total_transaction_cost, get_fees_for_transaction in E.
  apply bind_done in E as (m & s3 & E & _). apply wrap_err_done, bind_done in E as (m' & s4 & E & _).
  apply wrap_err_done in E. by eapply unpriced_actions_fail in E.
Qed.

(** ** Theorems *)
(** C7. C. A successful [InitChain] on an empty storage commits the state of the genesis
    file, the fees of bridge transfers excepted ([genesis_components]), as version
    0: the balances, where the last entry of an address counts, the allowed fee
    assets and the other fees, the addresses with special rights, the validators,
    the chain's parameters and those of the IBC library, and nothing else. CometBFT
    is told its root hash. *)
Theorem init_chain_commits_genesis now request m u v r a
    (Hs : handle_init_chain now request (new_node m u v) = (Done r, a)) :
  exists raw g vs rev,
    genesis_from_json (init_app_state_bytes request) = Some raw /\ try_from_raw GenesisAppState raw = Ok g /\
    try_collect cometbft_to_sequencer_validator (init_validators request) = Ok vs /\
    tm_chain_id_valid (init_chain_id request) = true /\
    revision_number_from_chain_id (init_chain_id request) = Val rev /\
    storage a = mk_storage (genesis_ledger g vs (init_chain_id request) rev) empty_block_store 0 /\
    app_hash a = root_hash (snapshot (storage a)) /\
    r = mk_init_chain_response (app_hash a) (init_consensus_params request) (init_validators request).
Proof.
  apply init_chain_done in Hs as (raw & g & vs & rev & Hraw & Hg & Hvs & Hcid & Hrev & Hst & _ & _ & Hh & ->).
  exists raw, g, vs, rev. by rewrite Hst, Hh.
Qed.

(** C5. C. Whatever happens to a node after its genesis - blocks that are prepared,
    checked, executed and committed in any order and with any outcome, relayed IBC
    messages included, changes of the mempool, panics and restarts - every state it
    ever commits is sound: balances, escrow and fees have 128 bits, there is an
    asset to pay fees in if there was one at genesis, there is a sudo account, and
    the chain id, the prefixes and the native asset are those of genesis. *)
Theorem committed_states_are_sound now request m u v r a a'
    (Hs : handle_init_chain now request (new_node m u v) = (Done r, a)) (Hsteps : rtc node_step a a') :
  chain_ok (snapshot (storage a)) (snapshot (storage a')).
Proof.
  apply init_chain_done in Hs as (raw & g & vs & rev & Hraw & Hg & _ & _ & _ & Hst & Hl & Hb & _).
  assert (chain_ok (snapshot (storage a)) (snapshot (storage a))) as Hok.
  { rewrite Hst. apply genesis_ledger_ok. refine (wire_decoded raw g _ Hg). by eapply genesis_json_widths. }
  apply (node_steps_ok (chain_ok (snapshot (storage a))) a a'); [done|].
  split; [done|]. split; [|by rewrite Hb]. rewrite Hl. by rewrite Hst in Hok |- *.
Qed.

(** C37. C. The fees of [BridgeTransfer] that a genesis file sets are not stored: after
    [InitChain] every transaction with a bridge transfer fails, whatever they are. *)
Theorem genesis_disables_bridge_transfers now request m u v r a act tx evs s'
    (Hs : handle_init_chain now request (new_node m u v) = (Done r, a)) :
  Action_BridgeTransfer act ∈ tx_actions tx ->
  execute_transaction tx (snapshot (storage a)) <> (Done evs, s').
Proof.
  apply init_chain_done in Hs as (raw & g & vs & rev & _ & _ & _ & _ & _ & Hst & _). rewrite Hst.
  apply unpriced_transaction_fails. change (genesis_components (genesis_fees g) !! "bridge_transfer" = None).
  apply lookup_delete_eq.
Qed.

(** A genesis file is read back from its message, prefix checks included. *)
Theorem genesis_roundtrip (g : GenesisAppState) :
  valid address_canonical g -> try_from_raw GenesisAppState (to_raw g) = Ok g.
Proof. apply wire_roundtrip. Qed.
End from_genesis.
