(* ===== verification/MempoolService.v ===== *)
(** * The mempool service

    [sequencer/src/service/mempool/mod.rs] and the codes of
    [core/src/protocol/abci.rs]: CometBFT's [CheckTx], the only way into the
    mempool.  A request takes the snapshot of its call and goes to the mempool three
    times; between these other requests, of this service and of the consensus
    service, go on.  [service_step] is the whole node, with requests in flight;
    the texts of logs are left out of the responses. *)
From S2P Require Import Prelude Denom Types State Chain Accounts Authority BridgeActions Ics20 Relay Transact.
From S2P Require Import Conservation TransactTheorems Invariants BTree Mempool MempoolLemmas MempoolInvariant.
From S2P Require Import Wire WireActions WireLaws WireTransaction WireTheorems Collections SequencerBlock.
From S2P Require Import Block ExecutionState Upgrades VoteExtension Proposal BlockStore App AppLemmas AppTheorems.
From S2P Require Import AppAgreement Genesis GenesisChain.
From stdpp Require Import base list option strings gmap numbers tactics pretty relations sorting.
From Stdlib Require Import ZArith Lia String.
Open Scope string_scope.
Open Scope Z_scope.

(** ** [abci.rs] *)
Inductive AbciErrorCode :=
| UNKNOWN_PATH | INVALID_PARAMETER | INTERNAL_ERROR | INVALID_NONCE | TRANSACTION_TOO_LARGE
| INSUFFICIENT_FUNDS | INVALID_CHAIN_ID | VALUE_NOT_FOUND | TRANSACTION_EXPIRED | TRANSACTION_FAILED
| TRANSACTION_INSERTION_FAILED | LOWER_NONCE_INVALIDATED | BAD_REQUEST | ALREADY_PRESENT | NONCE_TAKEN
| ACCOUNT_SIZE_LIMIT | PARKED_FULL.
Definition code_value (c : AbciErrorCode) : Z :=
  match c with
  | UNKNOWN_PATH => 1 | INVALID_PARAMETER => 2 | INTERNAL_ERROR => 3 | INVALID_NONCE => 4
  | TRANSACTION_TOO_LARGE => 5 | INSUFFICIENT_FUNDS => 6 | INVALID_CHAIN_ID => 7 | VALUE_NOT_FOUND => 8
  | TRANSACTION_EXPIRED => 9 | TRANSACTION_FAILED => 10 | TRANSACTION_INSERTION_FAILED => 11
  | LOWER_NONCE_INVALIDATED => 12 | BAD_REQUEST => 13 | ALREADY_PRESENT => 14 | NONCE_TAKEN => 15
  | ACCOUNT_SIZE_LIMIT => 16 | PARKED_FULL => 17
  end.
Definition code_info (c : AbciErrorCode) : string :=
  match c with
  | UNKNOWN_PATH => "provided path is unknown"
  | INVALID_PARAMETER => "one or more path parameters were invalid"
  | INTERNAL_ERROR => "an internal server error occurred"
  | INVALID_NONCE => "the provided nonce was invalid"
  | TRANSACTION_TOO_LARGE => "the provided transaction was too large"
  | INSUFFICIENT_FUNDS => "insufficient funds"
  | INVALID_CHAIN_ID => "the provided chain id was invalid"
  | VALUE_NOT_FOUND => "the requested value was not found"
  | TRANSACTION_EXPIRED => "the transaction expired in the app's mempool"
  | TRANSACTION_FAILED => "the transaction failed to execute in prepare_proposal()"
  | TRANSACTION_INSERTION_FAILED => "the transaction failed insertion into the mempool"
  | LOWER_NONCE_INVALIDATED => "lower nonce was invalidated in mempool"
  | BAD_REQUEST => "the request payload was malformed"
  | ALREADY_PRESENT => "the transaction is already present in the mempool"
  | NONCE_TAKEN => "there is already a transaction with the same nonce for the account in the mempool"
  | ACCOUNT_SIZE_LIMIT => "the account has reached the maximum number of parked transactions"
  | PARKED_FULL => "the mempool is out of space for more parked transactions"
  end.
(** Its [Display] *)
Definition code_display (c : AbciErrorCode) : string := pretty (code_value c) ++ ": " ++ code_info c.

(** ** Responses: code 0 is success *)
Record CheckTxResponse := mk_check_tx { check_code : Z; check_info : string }.
Definition default_response : CheckTxResponse := mk_check_tx 0 "".
Definition MAX_TX_SIZE : Z := 256000.
Definition error_response (c : AbciErrorCode) : CheckTxResponse := mk_check_tx (code_value c) (code_info c).
Definition displayed_response (c : AbciErrorCode) : CheckTxResponse := mk_check_tx (code_value c) (code_display c).

(** [trait IntoCheckTxResponse] *)
Class IntoCheckTxResponse (A : Type) := into_check_tx_response : A -> CheckTxResponse.
Definition removal_response (r : RemovalReason) : CheckTxResponse :=
  match r with
  | Expired => displayed_response TRANSACTION_EXPIRED
  | FailedPrepareProposal _ => displayed_response TRANSACTION_FAILED
  | NonceStale => mk_check_tx (code_value INVALID_NONCE) "transaction removed from app mempool due to stale nonce"
  | LowerNonceInvalidated => displayed_response LOWER_NONCE_INVALIDATED
  end.
Definition insertion_response (e : InsertionError) : CheckTxResponse :=
  match e with
  | AlreadyPresent => displayed_response ALREADY_PRESENT
  | NonceTooLow => displayed_response INVALID_NONCE
  | Mempool.NonceTaken => displayed_response NONCE_TAKEN
  | AccountSizeLimit => displayed_response ACCOUNT_SIZE_LIMIT
  | ParkedSizeLimit => error_response PARKED_FULL
  | AccountBalanceTooLow | NonceGap => error_response INTERNAL_ERROR
  end.
#[export] Instance removal_into_response : IntoCheckTxResponse RemovalReason := removal_response.
#[export] Instance insertion_into_response : IntoCheckTxResponse InsertionError := insertion_response.

(** ** [handle_check_tx] *)
Section service.
Context `{Signing, Relay}.

(** A read of the snapshot that cannot be answered is this response. *)
Definition read_or {A} (c : AbciErrorCode) (m : M A) (s : State) : attempt CheckTxResponse A :=
  match (m s).1 with
  | Done a => checked (Ok a)
  | Fail _ => checked (Err (error_response c))
  | Crash => Panic
  end.

Definition stateless_checks (tx : string) (s : State) : attempt CheckTxResponse SignedTransaction :=
  if MAX_TX_SIZE <? Z.of_nat (String.length tx) then checked (Err (error_response TRANSACTION_TOO_LARGE))
  else
    raw ← checked (ok_or (error_response INVALID_PARAMETER) (decode_transaction tx));
    signed_tx ← checked (map_err (fun _ => error_response INVALID_PARAMETER) (try_from_raw SignedTransaction raw));
    _ ← checked (map_err (fun _ => error_response INVALID_PARAMETER) (transaction_check_stateless (ledger_tx signed_tx)));
    _ ← read_or INVALID_CHAIN_ID (check_chain_id_mempool (ledger_tx signed_tx)) s;
    checked (Ok signed_tx).

(** What [insert_into_mempool] reads before it inserts *)
Record Insertion := mk_insertion {
  ins_tx : Transaction; ins_nonce : Z; ins_balances : Costs; ins_cost : Costs }.
Definition read_insertion (s : State) (signed_tx : SignedTransaction) : attempt CheckTxResponse Insertion :=
  let tx := ledger_tx signed_tx in
  address ← read_or INTERNAL_ERROR (try_base_prefixed (tx_address_bytes tx)) s;
  current_account_nonce ← read_or INTERNAL_ERROR (get_account_nonce (addr_bytes address)) s;
  transaction_cost ← read_or INTERNAL_ERROR (get_total_transaction_cost tx) s;
  let current_account_balance := get_account_balances s (addr_bytes address) in
  checked (Ok (mk_insertion tx current_account_nonce current_account_balance transaction_cost)).
Definition perform_insertion (now : Z) (i : Insertion) (m : Mempool) : run (CheckTxResponse * Mempool) :=
  '(r, m) ← Mempool.insert now (ins_tx i) (ins_nonce i) (ins_balances i) (ins_cost i) m;
  Val (match r with Ok _ => default_response | Err e => into_check_tx_response e end, m).
Definition insert_into_mempool (now : Z) (m : Mempool) (s : State) (signed_tx : SignedTransaction)
    : run (CheckTxResponse * Mempool) :=
  r ← read_insertion s signed_tx;
  match r with
  | Ok i => perform_insertion now i m
  | Err response => Val (response, m)
  end.

Definition handle_check_tx (now : Z) (tx : string) (s : State) (m : Mempool) : run (CheckTxResponse * Mempool) :=
  let tx_hash := sha256 tx in
  match check_removed_comet_bft tx_hash m with
  | (Some removal_reason, m) => Val (into_check_tx_response removal_reason, m)
  | (None, m) =>
      if is_tracked tx_hash m then Val (default_response, m)
      else
        r ← stateless_checks tx s;
        match r with
        | Ok signed_tx => insert_into_mempool now m s signed_tx
        | Err response => Val (response, m)
        end
  end.

(** *** A request between its visits to the mempool *)
Inductive CheckTxTask :=
| Called (tx : string) (snapshot : State)
| NotRemoved (tx : string) (snapshot : State)
| Inserting (i : Insertion).
Definition after_checks (tx : string) (s : State) : attempt CheckTxResponse Insertion :=
  signed_tx ← stateless_checks tx s; read_insertion s signed_tx.
(** What a task does until it is at the mempool again, or has answered *)
Definition resume (now : Z) (t : CheckTxTask) (m : Mempool) : run (CheckTxTask + CheckTxResponse) * Mempool :=
  match t with
  | Called tx s =>
      match check_removed_comet_bft (sha256 tx) m with
      | (Some reason, m) => (Val (inr (into_check_tx_response reason)), m)
      | (None, m) => (Val (inl (NotRemoved tx s)), m)
      end
  | NotRemoved tx s =>
      if is_tracked (sha256 tx) m then (Val (inr default_response), m)
      else
        (r ← after_checks tx s; Val (match r with Ok i => inl (Inserting i) | Err e => inr e end), m)
  | Inserting i =>
      match perform_insertion now i m with
      | Val (response, m) => (Val (inr response), m)
      | Panic => (Panic, m)
      | NoFuel => (NoFuel, m)
      end
  end.
End service.

(** ** The node: requests of both services and restarts

    [n] is the configured size of the parked queue of a mempool that starts. *)
Section node.
Context `{AppCodec, VoteCodec, Borsh, Relay, IbcGenesis, GenesisJson}.
Record Node := mk_node { node_app : App; in_flight : list CheckTxTask }.
Definition started (n : Z) (a : App) : Node := mk_node (restarted (mempool_new n) a) [].
Definition with_mempool (m : Mempool) (a : App) : App := upd_app_mempool (fun _ => m) a.
Inductive service_step (n : Z) : Node -> Node -> Prop :=
| service_call tx a l : service_step n (mk_node a l) (mk_node a (Called tx (snapshot (storage a)) :: l))
| service_resume now a l t l' t' m :
    resume now t (app_mempool a) = (Val (inl t'), m) ->
    service_step n (mk_node a (l ++ t :: l')) (mk_node (with_mempool m a) (l ++ t' :: l'))
| service_respond now a l t l' response m :
    resume now t (app_mempool a) = (Val (inr response), m) ->
    service_step n (mk_node a (l ++ t :: l')) (mk_node (with_mempool m a) (l ++ l'))
| service_panic now a l t l' :
    (forall r, (resume now t (app_mempool a)).1 <> Val r) ->
    service_step n (mk_node a (l ++ t :: l')) (started n a)
| service_request now request response a l a' :
    (forall r, request <> Request_InitChain r) ->
    handle_request now request a = (Done response, a') -> service_step n (mk_node a l) (mk_node a' l)
| service_failure now request a l :
    (forall r, request <> Request_InitChain r) ->
    (forall r, (handle_request now request a).1 <> Done r) ->
    service_step n (mk_node a l) (started n (handle_request now request a).2)
| service_restart nd : service_step n nd (started n (node_app nd)).
End node.

(** ** What the mempool holds

    A property of the transactions that were inserted holds of every one that is
    held, whatever else is done to the mempool. *)
Section held.
Context `{External, Relay}.
Variable P : Transaction -> Prop.
Definition all_txs (l : BTree TimemarkedTransaction) : Prop := Forall (fun kv => P (signed_tx kv.2)) l.
Lemma all_split k l : all_txs l -> all_txs (bt_split_off k l).1 /\ all_txs (bt_split_off k l).2.
Proof.
  intros Hl. unfold all_txs in *. rewrite !Forall_forall in *.
  split; intros kv Hkv; [apply split_off_below in Hkv as [? _]|apply split_off_above in Hkv as [? _]]; by apply Hl.
Qed.
Definition all_held (l : list TimemarkedTransaction) : Prop := Forall (fun t => P (signed_tx t)) l.
Lemma all_values l : all_txs l -> all_held l.*2.
Proof. unfold all_txs, all_held. by rewrite Forall_fmap. Qed.
Lemma all_insert k t l : P (signed_tx t) -> all_txs l -> all_txs (bt_insert k t l).
Proof.
  intros Ht. induction 1 as [|[k' t'] l Hk Hl IH]; cbn; [by constructor|].
  destruct (k <? k'); [by repeat constructor|]. destruct (k =? k'); by constructor.
Qed.

Section Generic.
Context {C T : Type} `{AccountLaws T} `{!TransactionsContainer C T} `{!ContainerLaws C T}.
Implicit Types (c : C) (t : T).
Definition holds_only c : Prop := map_Forall (fun _ t => all_txs (txs t)) (accounts_in c).
Lemma holds_account c a t : holds_only c -> accounts_in c !! a = Some t -> all_txs (txs t).
Proof. intros Hc Ha. exact (Hc a t Ha). Qed.
Lemma holds_with c a t : holds_only c -> all_txs (txs t) -> holds_only (with_accounts (<[a := t]> (accounts_in c)) c).
Proof. intros Hc Ht. unfold holds_only. rewrite accounts_with. by apply map_Forall_insert_2. Qed.
Lemma holds_re_add c a t : holds_only c -> all_txs (txs t) -> holds_only (re_add a t (take_account a c)).
Proof.
  intros Hc Ht. unfold holds_only, re_add, take_account. case_bool_decide; rewrite !accounts_with;
    [|apply map_Forall_insert_2; [done|]]; by apply map_Forall_delete.
Qed.
Lemma holds_add ttx n b c c' :
  container_add ttx n b c = Ok c' -> P (signed_tx ttx) -> holds_only c -> holds_only c'.
Proof.
  unfold container_add, account_add. intros Hc Ht Hk.
  apply bind_Ok in Hc as (u & _ & Hc). apply bind_Ok in Hc as (t & Ha & Hc). injection Hc as <-.
  apply holds_with; [done|]. repeat case_match; simplify_eq. rewrite txs_of_txs. apply all_insert; [done|].
  destruct (accounts_in c !! ttx_address ttx) as [t|] eqn:E; cbn; [by eapply holds_account|].
  rewrite txs_of_txs. constructor.
Qed.
Lemma holds_remove tx c : holds_only c -> holds_only (container_remove tx c).2.
Proof.
  intros Hc. unfold container_remove, account_remove. destruct (accounts_in c !! _) as [t|] eqn:E; [|done].
  pose proof (holds_account _ _ _ Hc E) as Ht. destruct (bt_get _ (txs t)); cbn; [|by apply holds_re_add].
  apply holds_re_add; [done|]. rewrite txs_of_txs. by apply (all_split (tx_nonce tx)).
Qed.
Lemma holds_clear a c : holds_only c -> holds_only (clear_account a c).2.
Proof. intros Hc. unfold clear_account, take_account, holds_only. cbn. rewrite accounts_with. by apply map_Forall_delete. Qed.
Lemma holds_clean now a n c : holds_only c -> holds_only (clean_account_stale_expired now a n c).2.
Proof.
  intros Hc. unfold clean_account_stale_expired. destruct (accounts_in c !! a) as [t|] eqn:E; [|done].
  pose proof (holds_account _ _ _ Hc E) as Ht. destruct (all_split n _ Ht) as [_ Hk].
  destruct (bt_split_off n (txs t)) as [stale kept]. cbn in Hk.
  repeat case_match; simplify_eq; apply holds_re_add; try done; rewrite txs_of_txs; first [done|by apply Forall_nil_2].
Qed.
Lemma holds_recost f a c : holds_only c -> holds_only (recost_transactions f a c).
Proof.
  intros Hc. unfold recost_transactions. destruct (accounts_in c !! a) as [t|] eqn:E; [|done].
  apply holds_with; [done|]. rewrite txs_of_txs. unfold all_txs. apply Forall_map.
  eapply Forall_impl; [exact (holds_account _ _ _ Hc E)|]. intros [k x] Hx. cbn in *. by destruct (f _).
Qed.
End Generic.

Lemma holds_demotables a b c :
  holds_only c -> all_held (find_demotables a b c).1 /\ holds_only (find_demotables a b c).2.
Proof.
  intros Hc. unfold find_demotables, account_find_demotables. destruct (pending_accounts c !! a) as [t|] eqn:E;
    [|split; [constructor|done]].
  destruct (all_split (demotion_split 0 b (pending_txs t)) (pending_txs t) (holds_account c a t Hc E)) as [Hk Ho].
  destruct (bt_split_off _ (pending_txs t)) as [kept off]. split; [exact (all_values off Ho)|]. exact (holds_re_add c a (mk_pending kept) Hc Hk).
Qed.
Lemma holds_promotables a n b c :
  holds_only c -> all_held (find_promotables a n b c).1 /\ holds_only (find_promotables a n b c).2.
Proof.
  intros Hc. unfold find_promotables, account_find_promotables. destruct (parked_accounts c !! a) as [t|] eqn:E;
    [|split; [constructor|done]].
  pose proof (holds_account c a t Hc E) as Ht. destruct (promotion_split n 0 b (parked_txs t)) as [k|].
  - destruct (all_split k (parked_txs t) Ht) as [Hk Ho]. destruct (bt_split_off k (parked_txs t)) as [promoted kept].
    split; [exact (all_values promoted Hk)|]. exact (holds_re_add c a (mk_parked kept) Hc Ho).
  - split; [exact (all_values _ Ht)|]. apply (holds_re_add c a (mk_parked []) Hc). constructor.
Qed.
Lemma holds_promote h n b l pc :
  all_held l -> holds_only pc.1 -> holds_only (foldl (promote h n b) pc l).1.
Proof.
  intros Hl. revert pc. induction Hl as [|t l Ht _ IH]; intros pc Hc; cbn; [done|]. apply IH. unfold promote.
  destruct (container_add t n b pc.1) eqn:E; cbn; [by eapply holds_add|done].
Qed.
Lemma holds_demote n b l pc :
  all_held l -> holds_only pc.1 -> holds_only (foldl (demote n b) pc l).1.
Proof.
  intros Hl. revert pc. induction Hl as [|t l Ht _ IH]; intros pc Hc; cbn; [done|]. apply IH. unfold demote.
  destruct (container_add t n b pc.1) eqn:E; cbn; [by eapply holds_add|done].
Qed.

(** The removal cache has room, so that no operation panics. *)
Record pool_holds (m : Mempool) : Prop := {
  pool_pending : holds_only (pending m);
  pool_parked : holds_only (parked m);
  pool_cache : cache_ok (comet_bft_removal_cache m) }.
Lemma pool_new n : pool_holds (mempool_new n).
Proof. split; [apply map_Forall_empty..|]. by split; [done|done|intros h [? ?]]. Qed.
Lemma pool_check_removed h m : pool_holds m -> pool_holds (check_removed_comet_bft h m).2.
Proof. intros [Hp Hk Hc]. split; [done..|]. exact (cache_remove_ok h _ Hc). Qed.
Lemma untrack_returns l : forall c S, cache_ok c -> exists c' S', untrack l c S = Val (c', S') /\ cache_ok c'.
Proof.
  induction l as [|[h r] l IH]; intros c S Hc; cbn; [by exists c, S|].
  destruct (cache_add_ok h r c Hc) as (c1 & -> & Hc1 & _). cbn. by apply IH.
Qed.
Lemma pool_insert now tx n b c m r m' :
  Mempool.insert now tx n b c m = Val (r, m') -> P tx -> pool_holds m -> pool_holds m'.
Proof.
  intros Hi Ht [Hp Hk Hc]. unfold Mempool.insert in Hi. set (t := mk_ttx tx now c) in *.
  assert (forall k, container_add t n b (parked m) = Ok k -> holds_only k) as Hpark
    by (intros k E; by apply (holds_add t n b (parked m))).
  destruct (container_add t n b (pending m)) as [p1|e] eqn:E.
  - destruct (checked_add 32 _ 1) as [next|]; [|done]. cbn [unwrap mbind run_bind] in Hi.
    pose proof (holds_promotables (ttx_address t) next (subtract_contained_costs (ttx_address t) b p1) _ Hk) as [Hl Hk1].
    destruct (find_promotables _ _ _ _) as [l k1]. cbn in Hl, Hk1.
    pose proof (holds_promote (fun _ => tx_hash t) n b l (p1, contained_txs m) Hl) as Hp2.
    destruct (foldl _ _ l) as [p2 S2]. injection Hi as <- <-. split; [|done..].
    apply Hp2. by eapply holds_add.
  - destruct e, (container_add t n b (parked m)) as [k|] eqn:Ek; injection Hi as <- <-; split; try done; by apply Hpark.
Qed.
Lemma pool_remove tx reason m m' : remove_tx_invalid tx reason m = Val m' -> pool_holds m -> pool_holds m'.
Proof.
  intros Hr [Hp Hk Hc]. unfold remove_tx_invalid in Hr.
  pose proof (holds_remove tx _ Hp) as Hp1. pose proof (holds_remove tx _ Hk) as Hk1.
  pose proof (holds_clear (tx_address_bytes tx) _ Hk) as Hk2.
  destruct (container_remove tx (pending m)) as [[r|] p1];
    [destruct (clear_account _ _) as [cl k1]|destruct (container_remove tx (parked m)) as [[r|] k1]]; cbn in Hp1, Hk1, Hk2;
    try (destruct (cache_add_ok (tx_id tx) reason _ Hc) as (c1 & Hadd & Hc1 & _); rewrite Hadd in Hr; cbn in Hr;
         match type of Hr with context [untrack ?l ?c ?s] =>
           destruct (untrack_returns l c s Hc1) as (c2 & S2 & Hu & Hc2); rewrite Hu in Hr end; cbn in Hr);
    injection Hr as <-; by split.
Qed.
Definition maintained_holds (st : Maintained) : Prop := holds_only (m_pending st) /\ holds_only (m_parked st).
Lemma holds_maintain now s recost st a : maintained_holds st -> maintained_holds (maintain_account now s recost st a).
Proof.
  intros [Hp Hk]. unfold maintain_account. set (n := default 0 _). set (b := get_account_balances s a).
  pose proof (holds_clean now a n _ Hp) as Hp1. pose proof (holds_clean now a n _ Hk) as Hk1.
  destruct (clean_account_stale_expired now a n (m_pending st)) as [r1 p1].
  destruct (clean_account_stale_expired now a n (m_parked st)) as [r2 k1]. cbn [snd] in Hp1, Hk1.
  pose proof (holds_recost (recost_in s) a _ Hp1) as Hp1'. pose proof (holds_recost (recost_in s) a _ Hk1) as Hk1'.
  set (p2 := if recost then _ else p1). set (k2 := if recost then _ else k1).
  assert (holds_only p2) as Hp2 by (unfold p2; by destruct recost).
  assert (holds_only k2) as Hk2 by (unfold k2; by destruct recost).
  pose proof (holds_demotables a b p2 Hp2) as [Hd Hp3]. destruct (find_demotables a b p2) as [l p3]. cbn [fst snd] in Hd, Hp3.
  pose proof (holds_demote n b l (k2, m_contained st) Hd Hk2) as Hk3. destruct l as [|t l].
  - clear Hk3. pose proof (holds_promotables a (default n (pending_nonce a p3)) (subtract_contained_costs a b p3) k2 Hk2) as [Hl Hk3].
    destruct (find_promotables _ _ _ _) as [l k3]. cbn [fst snd] in Hl, Hk3.
    pose proof (holds_promote tx_hash n b l (p3, m_contained st) Hl Hp3) as Hp4.
    by destruct (foldl (promote _ _ _) _ l) as [p4 S4].
  - by destruct (foldl (demote _ _) _ (t :: l)) as [k3 S3].
Qed.
Lemma pool_maintenance now s recost m :
  pool_holds m -> exists m', run_maintenance now s recost m = Val m' /\ pool_holds m'.
Proof.
  intros [Hp Hk Hc]. unfold run_maintenance. set (l := elements _). set (st0 := mk_maintained _ _ _ _).
  assert (maintained_holds (foldl (maintain_account now s recost) st0 l)) as [Hp1 Hk1].
  { assert (maintained_holds st0) as H1 by done. revert H1. generalize st0.
    induction l as [|a l IH]; intros st H1; cbn; [done|]. by apply IH, holds_maintain. }
  destruct (untrack_returns (m_removed (foldl (maintain_account now s recost) st0 l)) (comet_bft_removal_cache m)
              (m_contained (foldl (maintain_account now s recost) st0 l)) Hc) as (c & S & -> & Hc1).
  eexists. split; [done|]. by split.
Qed.
Lemma queue_holds m : pool_holds m -> Forall P (mempool_builder_queue m).*2.
Proof.
  intros [Hp _ _]. unfold mempool_builder_queue, builder_queue. rewrite Forall_fmap, Forall_forall.
  intros x Hx. apply list_elem_of_In, in_map_iff in Hx as (e & <- & He%in_rev%list_elem_of_In).
  rewrite merge_sort_Permutation in He. apply list_elem_of_bind in He as (t & He & Ht).
  apply list_elem_of_fmap in Ht as ([a t'] & -> & Ht%elem_of_map_to_list).
  pose proof (all_values _ (Hp a t' Ht)) as Hl. unfold queue_entries in He. cbn [fst snd] in He |- *.
  destruct (current_account_nonce t') as [n|]; [|by apply not_elem_of_nil in He].
  apply list_elem_of_omap in He as (x & Hx & He). unfold all_held in Hl. rewrite Forall_forall in Hl.
  destruct (priority x n); [|done]. cbn in He. injection He as <-. by apply Hl.
Qed.

(** Building a block removes what fails. *)
Definition proposal_holds (p : Proposal) : Prop :=
  match p with Prepare _ _ _ _ _ _ _ m => pool_holds m | Process _ _ _ => True end.
Lemma include_holds tx evs p q : include_tx tx evs p = Ok q -> proposal_holds p -> proposal_holds q.
Proof.
  unfold include_tx. intros Hq Hp. apply bind_Ok in Hq as (c & _ & Hq). apply bind_Ok in Hq as (c' & _ & Hq).
  injection Hq as <-. by destruct p.
Qed.
Lemma drop_holds tx e p q : drop_failed tx e p = Done q -> proposal_holds p -> proposal_holds q.
Proof.
  unfold drop_failed. destruct p as [c v i f r x g m|]; [|done]. destruct (is_invalid_nonce tx e); [by intros [= <-]|].
  destruct (remove_tx_invalid _ _ m) as [m'| |] eqn:E; [|done..]. intros [= <-]. by eapply pool_remove.
Qed.
Lemma one_holds tx p x b q y :
  proposal_checks_and_tx_execution tx p x = (Done (b, q), y) -> proposal_holds p -> proposal_holds q.
Proof.
  unfold proposal_checks_and_tx_execution. intros Hq Hp.
  assert (proposal_holds (exclude p)) as He by by destruct p.
  destruct (match p with Prepare _ _ _ _ _ _ _ _ => _ | Process _ _ _ => false end); [by destruct p; simplify_eq|].
  destruct (negb _); [by destruct p; simplify_eq|]. destruct (_ <? _); [by destruct p; simplify_eq|].
  destruct (app_execute_transaction tx x) as [[evs|e|] x1]; [| |done].
  - destruct (include_tx tx evs p) eqn:E; [|done]. injection Hq as <- <- <-. by eapply include_holds.
  - destruct (drop_failed tx e p) eqn:E; [|done..]. injection Hq as <- <- <-. by eapply drop_holds.
Qed.
Lemma execute_holds l p x p' x' :
  execute_proposal l p x = (Done p', x') -> proposal_holds p -> proposal_holds p'.
Proof.
  revert p x. induction l as [|tx l IH]; intros p x; cbn [execute_proposal]; [by intros [= -> ->]|].
  destruct (proposal_checks_and_tx_execution tx p x) as [[[b q]| |] y] eqn:E; [|done..].
  pose proof (one_holds _ _ _ _ _ _ E) as Hone. destruct b; [by intros [= <- <-]|].
  intros Hx Hp. eapply IH; [exact Hx|auto].
Qed.
Lemma prepared_holds c m x p x' :
  prepare_proposal_tx_execution c m x = (Done p, x') -> pool_holds m -> pool_holds (prepared_mempool p).
Proof.
  unfold prepare_proposal_tx_execution. intros Hp Hm.
  destruct (execute_proposal _ _ x) as [[[]| |] y] eqn:E; simplify_eq. by apply execute_holds in E.
Qed.
End held.

(** ** Only the preparation of a block and the commit change the mempool *)
Section requests.
Context `{AppCodec, VoteCodec, Borsh, Relay, IbcGenesis, GenesisJson}.
Section aside.
Context (f : Mempool -> Mempool).
#[local] Instance gets_aside {A} (g : App -> A) :
  (forall a, g (upd_app_mempool f a) = g a) -> Steady (upd_app_mempool f) (app_gets g).
Proof. intros Hg a. unfold app_gets. by rewrite Hg. Qed.
#[local] Instance modify_aside g :
  (forall a, g (upd_app_mempool f a) = upd_app_mempool f (g a)) -> Steady (upd_app_mempool f) (app_modify g).
Proof. intros Hg a. unfold app_modify. by rewrite Hg. Qed.
#[local] Instance execution_aside {A} (m : Execution -> outcome A * Execution) :
  Steady (upd_app_mempool f) (on_execution m).
Proof. intros a. unfold on_execution. cbn. by destruct (m _). Qed.
Ltac aside := repeat first [apply _ | apply gets_aside; done | apply modify_aside; done
                            | apply steady_bind; [|intros ?] | apply steady_wrap | progress case_match].
#[local] Instance post_execute_aside h height time proposer d r :
  Steady (upd_app_mempool f) (post_execute_transactions h height time proposer d r).
Proof. unfold post_execute_transactions, mark_executed, end_and_store_block. aside. Qed.
Lemma process_aside r : Steady (upd_app_mempool f) (process_proposal r).
Proof. unfold process_proposal, execute_processed, check_commitments, cached_block_deposits. aside. Qed.
Lemma init_aside g vs cid : Steady (upd_app_mempool f) (init_chain g vs cid).
Proof. unfold init_chain, prepare_commit. aside. Qed.
Lemma finalize_aside r : Steady (upd_app_mempool f) (finalize_block r).
Proof. unfold finalize_block, apply_prices, execute_finalized, respond, prepare_commit. aside. Qed.
End aside.

Lemma prepare_pool P q a txs a1 :
  prepare_proposal q a = (Done txs, a1) -> pool_holds P (app_mempool a) -> pool_holds P (app_mempool a1).
Proof.
  intros Hq Hm. apply prepare_proposal_Done in Hq as (hs & a0 & uses & c & info & c' & p & x & co & _ & _ & _ & _ & Hx & _ & _ & ->).
  by eapply prepared_holds.
Qed.
Lemma commit_pool P now a r a1 :
  commit now a = (Done r, a1) -> pool_holds P (app_mempool a) -> pool_holds P (app_mempool a1).
Proof.
  unfold commit. intros Hs Hm.
  apply app_bind_Done in Hs as (batch & a2 & E & Hs). apply app_gets_Done in E as [-> ->].
  apply app_bind_Done in Hs as ([s blocks] & a2 & E & Hs). apply app_run_Done in E as [_ ->].
  do 4 (apply app_bind_Done in Hs as (? & a2 & E & Hs); injection E as _ <-).
  apply app_bind_Done in Hs as (? & a2 & E & Hs). apply app_gets_Done in E as [-> ->].
  apply app_bind_Done in Hs as (? & a2 & E & Hs). apply app_gets_Done in E as [-> ->].
  apply app_bind_Done in Hs as (m & a2 & E & Hs). apply app_run_Done in E as [E ->].
  apply app_bind_Done in Hs as (? & a2 & E' & Hs). injection E' as _ <-.
  apply app_bind_Done in Hs as (? & a2 & E' & Hs). apply app_gets_Done in E' as [-> ->].
  apply reading_Done in Hs as [_ ->]. cbn in E |- *.
  destruct (pool_maintenance P now s (recost_mempool a) _ Hm) as (m' & E' & Hm'). rewrite E' in E. by injection E as ->.
Qed.
Lemma init_pool P now q a r a1 :
  handle_init_chain now q a = (Done r, a1) -> pool_holds P (app_mempool a) -> pool_holds P (app_mempool a1).
Proof.
  unfold handle_init_chain. intros Hs Hm.
  apply app_bind_Done in Hs as (st & a2 & E & Hs). apply app_gets_Done in E as [-> ->].
  apply app_bind_Done in Hs as (u & a2 & E & Hs). apply app_ensure_Done in E as [_ ->].
  do 3 (apply app_bind_Done in Hs as (? & a2 & E & Hs); apply app_result_Done in E as [_ ->]).
  apply app_bind_Done in Hs as (hash & a2 & E & Hs). apply app_wrap_Done in E.
  match type of E with init_chain ?g ?vs ?c _ = _ =>
    pose proof (steady_untouched _ (fun f => init_aside f g vs c) a) as Hu end.
  rewrite E in Hu. cbn in Hu. apply app_bind_Done in Hs as (ret & a3 & E' & [_ <-]%app_ret_Done).
  apply app_wrap_Done in E'. apply (commit_pool P _ _ _ _ E'). by rewrite Hu.
Qed.
Lemma try_untouched {A} (m : AppM A) : mempool_untouched m -> mempool_untouched (app_try m).
Proof. intros Hm a. specialize (Hm a). unfold app_try. by destruct (m a) as [[] ?]. Qed.
Lemma request_pool P now request a r a1 :
  (forall q, request <> Request_InitChain q) -> handle_request now request a = (Done r, a1) ->
  pool_holds P (app_mempool a) -> pool_holds P (app_mempool a1).
Proof.
  intros Hi Hr Hm. destruct request as [q|q|q| |v|q| ]; cbn [handle_request] in Hr; [by destruct (Hi q)|..];
    apply app_bind_Done in Hr as (x & a2 & Hx & [_ <-]%app_ret_Done).
  - apply app_wrap_Done in Hx. by eapply prepare_pool.
  - pose proof (try_untouched _ (steady_untouched _ (fun f => process_aside f q)) a) as Hu. rewrite Hx in Hu. cbn in Hu. by rewrite Hu.
  - assert (mempool_untouched app_extend_vote) as Hu by done. apply try_untouched in Hu. specialize (Hu a). rewrite Hx in Hu. cbn in Hu. by rewrite Hu.
  - apply app_wrap_Done, reading_Done in Hx as [_ ->]. done.
  - pose proof (steady_untouched _ (fun f => finalize_aside f q) a) as Hu. do 2 apply app_wrap_Done in Hx. rewrite Hx in Hu. cbn in Hu. by rewrite Hu.
  - do 2 apply app_wrap_Done in Hx. by eapply commit_pool.
Qed.
End requests.

(** ** The answers of [CheckTx] *)
Section answers.
Context `{Signing, Relay, !SigningLaws}.
(** A computation that does not panic *)
Class Calm {A} (m : M A) : Prop := calm s : (m s).1 <> Crash.
#[local] Instance calm_ret {A} (a : A) : Calm (mret a : M A).
Proof. done. Qed.
#[local] Instance calm_gets {A} (f : State -> A) : Calm (gets f).
Proof. done. Qed.
#[local] Instance calm_or {A} (o : option A) msg : Calm (ok_or_eyre o msg).
Proof. by destruct o. Qed.
#[local] Instance calm_ensure b msg : Calm (ensure_that b msg).
Proof. by destruct b. Qed.
#[local] Instance calm_wrap {A} msg (m : M A) : Calm m -> Calm (wrap_err msg m).
Proof. intros Hm s. specialize (Hm s). unfold wrap_err. by destruct (m s) as [[] ?]. Qed.
#[local] Instance calm_bind {A B} (m : M A) (f : A -> M B) : Calm m -> (forall a, Calm (f a)) -> Calm (m ≫= f).
Proof. intros Hm Hf s. specialize (Hm s). unfold mbind, M_bind. destruct (m s) as [[]?]; [apply Hf|done..]. Qed.
#[local] Instance calm_fold {A B} (f : B -> A -> M B) acc l : (forall b a, Calm (f b a)) -> Calm (fold_each f acc l).
Proof. intros Hf. revert acc. induction l; intros; cbn [fold_each]; apply _. Qed.
#[local] Instance calm_cost tx : Calm (get_total_transaction_cost tx).
Proof.
  unfold get_total_transaction_cost, get_fees_for_transaction, add_total_transfers_for_transaction.
  assert (forall m a, Calm (add_action_fees m a)) by (intros m []; cbn; unfold add_fees_for, get_or_init_fees, get_fees; apply _).
  assert (forall m a, Calm (add_action_transfers m a)) by (intros m []; cbn; unfold get_bridge_account_ibc_asset; apply _).
  apply _.
Qed.
#[local] Instance calm_address bs : Calm (try_base_prefixed bs).
Proof. unfold try_base_prefixed, get_base_prefix. apply _. Qed.
#[local] Instance calm_chain_id tx : Calm (check_chain_id_mempool tx).
Proof. unfold check_chain_id_mempool, get_chain_id. apply _. Qed.
Lemma read_or_calm {A} c (m : M A) `{!Calm m} s :
  (exists a, (m s).1 = Done a /\ read_or c m s = Val (Ok a)) \/ read_or c m s = Val (Err (error_response c)).
Proof. unfold read_or. pose proof (calm (m := m) s). destruct (m s).1 as [a| |]; [left; by exists a|by right|done]. Qed.

(** A transaction that the checks let pass, for the chain of [s] *)
Definition admissible (s : State) (bytes : string) (stx : SignedTransaction) : Prop :=
  Z.of_nat (String.length bytes) <= MAX_TX_SIZE /\
  (exists raw, decode_transaction bytes = Some raw /\ try_from_raw SignedTransaction raw = Ok stx) /\
  transaction_check_stateless (ledger_tx stx) = Ok tt /\ chain_id (app_data s) = Some (tx_chain_id (ledger_tx stx)).
Lemma stateless_checks_run bytes s :
  (exists stx, stateless_checks bytes s = Val (Ok stx) /\ admissible s bytes stx) \/
  exists c, stateless_checks bytes s = Val (Err (error_response c)).
Proof.
  unfold stateless_checks. destruct (Z.ltb_spec MAX_TX_SIZE (Z.of_nat (String.length bytes))) as [|Hlen]; [right; by eexists|].
  destruct (decode_transaction bytes) as [raw|] eqn:Hd; [|right; by eexists]. cbn [ok_or checked mbind attempt_bind].
  destruct (try_from_raw SignedTransaction raw) as [stx|e] eqn:Hr; [|right; by eexists]. cbn [map_err checked mbind attempt_bind].
  destruct (transaction_check_stateless (ledger_tx stx)) as [[]|e] eqn:Hs; [|right; by eexists]. cbn [map_err checked mbind attempt_bind].
  destruct (read_or_calm INVALID_CHAIN_ID (check_chain_id_mempool (ledger_tx stx)) s) as [(u & Hc & ->)| ->]; [|right; by eexists].
  left. exists stx. split; [done|]. split; [lia|]. split; [|split; [done|]].
  - by exists raw.
  - destruct (check_chain_id_mempool _ s) as [o s'] eqn:E. cbn in Hc. subst o.
    unfold check_chain_id_mempool, get_chain_id in E. run_inv E. subst.
    match goal with K : String.eqb _ _ = true |- _ => apply String.eqb_eq in K as -> end. done.
Qed.
Lemma read_insertion_run s stx :
  (exists i, read_insertion s stx = Val (Ok i) /\ ins_tx i = ledger_tx stx) \/
  read_insertion s stx = Val (Err (error_response INTERNAL_ERROR)).
Proof.
  unfold read_insertion.
  destruct (read_or_calm INTERNAL_ERROR (try_base_prefixed (tx_address_bytes (ledger_tx stx))) s) as [(a & _ & ->)| ->]; [|by right].
  cbn [mbind attempt_bind].
  change (read_or INTERNAL_ERROR (get_account_nonce (addr_bytes a)) s)
    with (Val (Ok (default 0 (nonces (accounts s) !! addr_bytes a))) : attempt CheckTxResponse Z).
  cbn [mbind attempt_bind].
  destruct (read_or_calm INTERNAL_ERROR (get_total_transaction_cost (ledger_tx stx)) s) as [(c & _ & ->)| ->]; [|by right].
  left. by eexists.
Qed.
Definition same_queues (m m' : Mempool) : Prop :=
  pending m' = pending m /\ parked m' = parked m /\ contained_txs m' = contained_txs m.
Lemma insertion_run now i m :
  match perform_insertion now i m with
  | Val (response, m') =>
      (check_code response = 0 -> is_tracked (tx_id (ins_tx i)) m' = true) /\
      (check_code response <> 0 -> same_queues m m') /\ comet_bft_removal_cache m' = comet_bft_removal_cache m
  | Panic => 2 ^ 32 <= tx_nonce (ins_tx i) + 1
  | NoFuel => False
  end.
Proof.
  unfold perform_insertion, Mempool.insert. set (t := mk_ttx _ _ _).
  assert (forall X : gset Hash, bool_decide (tx_id (ins_tx i) ∈ X ∪ {[tx_id (ins_tx i)]}) = true) as Htr
    by (intros X; apply bool_decide_true; set_solver).
  destruct (container_add t (ins_nonce i) (ins_balances i) (pending m)) as [p1|e].
  - destruct (checked_add 32 (ttx_nonce t) 1) as [next|] eqn:E; [|by apply checked_add_None in E].
    cbn [unwrap mbind run_bind]. destruct (find_promotables _ _ _ _) as [l k1]. destruct (foldl _ _ l) as [p2 S2].
    cbn [mbind run_bind]. split; [|done]. intros _. apply Htr.
  - destruct e, (container_add t (ins_nonce i) (ins_balances i) (parked m)) as [k|e'];
      cbn [mbind run_bind]; (split; [|by split]); cbn; try done; intros; [apply Htr|by destruct e'|apply Htr|by destruct e'].
Qed.
Lemma after_checks_run bytes s :
  (exists i stx, after_checks bytes s = Val (Ok i) /\ admissible s bytes stx /\ ins_tx i = ledger_tx stx) \/
  exists c, after_checks bytes s = Val (Err (error_response c)).
Proof.
  unfold after_checks. destruct (stateless_checks_run bytes s) as [(stx & -> & Ha)|[c ->]]; [|right; by eexists].
  cbn [mbind attempt_bind]. destruct (read_insertion_run s stx) as [(i & -> & Hi)| ->]; [left|right; by eexists]. by exists i, stx.
Qed.

(** A task that runs on its own *)
Fixpoint run_alone (visits : nat) (now : Z) (t : CheckTxTask) (m : Mempool) : run (CheckTxResponse * Mempool) :=
  match visits with
  | O => NoFuel
  | S visits =>
      match resume now t m with
      | (Val (inl t), m) => run_alone visits now t m
      | (Val (inr response), m) => Val (response, m)
      | (Panic, _) => Panic
      | (NoFuel, _) => NoFuel
      end
  end.
(** [handle_check_tx] is its task, when nothing else happens. *)
Lemma handle_check_tx_alone now bytes s m : run_alone 3 now (Called bytes s) m = handle_check_tx now bytes s m.
Proof.
  unfold handle_check_tx. cbn [run_alone resume]. destruct (check_removed_comet_bft (sha256 bytes) m) as [[reason|] m1]; [done|].
  cbn [resume]. destruct (is_tracked (sha256 bytes) m1); [done|]. unfold after_checks, insert_into_mempool.
  destruct (stateless_checks bytes s) as [[stx|e]| |]; cbn [mbind attempt_bind run_bind]; [|done..].
  destruct (read_insertion s stx) as [[i|e]| |]; cbn [mbind attempt_bind run_bind]; [|done..].
  cbn [resume]. by destruct (perform_insertion now i m1) as [[response m2]| |].
Qed.
Lemma decoded_nonce bytes s stx : admissible s bytes stx -> uint 32 (tx_nonce (ledger_tx stx)).
Proof.
  intros (_ & (raw & _ & Hr) & _). apply transaction_decoded in Hr as (_ & _ & _ & r & Hd & Hb).
  assert (valid address_typed (signed_body stx)) as [Hn _]; [|exact Hn].
  eapply wire_decoded; [exact (body_widths _ _ Hd)|exact Hb].
Qed.
End answers.

(** ** The invariant of the node *)
Section invariant.
Context `{AppCodec, VoteCodec, Borsh, Relay, IbcGenesis, GenesisJson, !SigningLaws}.
Variable genesis : State.
Definition admitted (tx : Transaction) : Prop :=
  exists bytes stx, admissible genesis bytes stx /\ ledger_tx stx = tx.
Definition task_ok (t : CheckTxTask) : Prop :=
  match t with
  | Called _ s | NotRemoved _ s => chain_ok genesis s
  | Inserting i => admitted (ins_tx i)
  end.
Record node_sound (nd : Node) : Prop := {
  sound_app : node_ok (chain_ok genesis) (node_app nd);
  sound_pool : pool_holds admitted (app_mempool (node_app nd));
  sound_tasks : Forall task_ok (in_flight nd) }.

Lemma admitted_tx_ok tx : admitted tx -> tx_ok tx.
Proof.
  intros (bytes & stx & (_ & (raw & Hd & Hr) & _) & <-). apply (decoded_tx_ok bytes). unfold decode_user_transaction.
  rewrite Hd. cbn. by rewrite Hr.
Qed.
Lemma admissible_same s bytes stx : chain_ok genesis s -> admissible s bytes stx -> admissible genesis bytes stx.
Proof.
  intros [_ _ _ Hc] (Hl & Hd & Hs & Hid). do 3 (split; [done|]).
  assert (chain_id (app_data s) = chain_id (app_data genesis)) as <-; [|done]. by injection Hc.
Qed.
Lemma resume_ok now t m r m' :
  resume now t m = (Val r, m') -> task_ok t -> pool_holds admitted m ->
  pool_holds admitted m' /\ match r with inl t' => task_ok t' | inr _ => True end.
Proof.
  destruct t as [tx s|tx s|i]; cbn [resume task_ok]; intros Hr Ht Hm.
  - pose proof (pool_check_removed _ (sha256 tx) m Hm) as Hm'.
    by destruct (check_removed_comet_bft (sha256 tx) m) as [[reason|] m1]; injection Hr as <- <-.
  - destruct (is_tracked (sha256 tx) m); [by injection Hr as <- <-|]. injection Hr as Hr <-. split; [done|].
    destruct (after_checks_run tx s) as [(i & stx & E & Ha & Hi)|[c E]]; rewrite E in Hr; injection Hr as <-; [|done].
    exists tx, stx. split; [by eapply admissible_same|done].
  - unfold perform_insertion in Hr.
    destruct (Mempool.insert now (ins_tx i) (ins_nonce i) (ins_balances i) (ins_cost i) m) as [[x m1]| |] eqn:E; [|done..].
    cbn in Hr. injection Hr as <- <-. split; [|done]. by eapply pool_insert.
Qed.
Lemma started_sound n a : node_ok (chain_ok genesis) a -> node_sound (started n a).
Proof. intros Ha. split; [by apply restarted_ok|apply pool_new|constructor]. Qed.
Lemma mempool_change_ok (P : State -> Prop) m a : node_ok P a -> node_ok P (with_mempool m a).
Proof. by intros (? & ? & ?). Qed.
Lemma service_step_sound n nd nd' :
  service_step n nd nd' -> node_sound nd -> node_sound nd' /\ rtc node_step (node_app nd) (node_app nd').
Proof.
  intros Hstep [Ha Hm Hf]. assert (mempool_ok (node_app nd)) as Hq
    by (eapply Forall_impl; [exact (queue_holds _ _ Hm)|exact admitted_tx_ok]).
  destruct Hstep as [tx a l|now a l t l' t' m E|now a l t l' rsp m E|now a l t l' E|now q rsp a l a' Hq' E|now q a l Hq' E|nd];
    cbn [node_app in_flight] in *.
  - split; [|done]. split; [done..|]. constructor; [apply Ha|done].
  - apply Forall_app in Hf as [Hl Hf]. apply Forall_cons in Hf as [Ht Hl'].
    apply resume_ok in E as [Hm' Ht']; [|done..]. split; [|by apply rtc_once, step_mempool].
    split; [by apply mempool_change_ok|done|]. apply Forall_app. split; [done|by constructor].
  - apply Forall_app in Hf as [Hl Hf]. apply Forall_cons in Hf as [Ht Hl'].
    apply resume_ok in E as [Hm' _]; [|done..]. split; [|by apply rtc_once, step_mempool].
    split; [by apply mempool_change_ok|done|]. by apply Forall_app.
  - split; [by apply started_sound|]. by apply rtc_once, step_restart.
  - assert (node_step a a') as Hs.
    { pose proof (step_request now q (mempool_new n) a Hq Hq') as Hs. by rewrite E in Hs. }
    split; [|by apply rtc_once]. split; [exact (node_step_ok (chain_ok genesis) a a' Hs Ha)|by eapply request_pool|done].
  - pose proof (step_request now q (mempool_new n) a Hq Hq') as Hs.
    assert (after_request (mempool_new n) (handle_request now q a) = node_app (started n (handle_request now q a).2)) as Hst.
    { unfold after_request. destruct (handle_request now q a) as [[r| |] a1]; [by destruct (E r)|done..]. }
    rewrite Hst in Hs. split; [|by apply rtc_once]. apply started_sound.
    exact (keeps_request (chain_ok genesis) now q Hq' a Hq Ha).
  - split; [by apply started_sound|]. by apply rtc_once, step_restart.
Qed.
Lemma service_steps_sound n nd nd' :
  rtc (service_step n) nd nd' -> node_sound nd -> node_sound nd' /\ rtc node_step (node_app nd) (node_app nd').
Proof.
  induction 1 as [nd|nd nd1 nd2 Hs _ IH]; intros Hn; [done|].
  destruct (service_step_sound _ _ _ Hs Hn) as [Hn1 Hr1]. destruct (IH Hn1) as [Hn2 Hr2].
  split; [done|]. by etransitivity.
Qed.
Lemma remove_returns tx reason m : pool_holds admitted m -> exists m', remove_tx_invalid tx reason m = Val m'.
Proof.
  intros [_ _ Hc]. unfold remove_tx_invalid. destruct (cache_add_ok (tx_id tx) reason _ Hc) as (c1 & -> & Hc1 & _).
  cbn [mbind run_bind].
  assert (forall l, exists c S, untrack l c1 (contained_txs m) = Val (c, S)) as Hu
    by (intros l; destruct (untrack_returns l c1 (contained_txs m) Hc1) as (c & S & Hu & _); by exists c, S).
  destruct (container_remove tx (pending m)) as [[r|] p1];
    [destruct (clear_account _ _) as [cl k1]|destruct (container_remove tx (parked m)) as [[r|] k1]; [|by eexists]];
    match goal with |- context [untrack ?l _ _] => destruct (Hu l) as (c & S & ->) end; by eexists.
Qed.
End invariant.

(** ** Theorems *)
Section theorems.
Context `{AppCodec, VoteCodec, Borsh, Relay, IbcGenesis, GenesisJson, !SigningLaws}.

(** C30. C. [CheckTx] on every branch.  A transaction that was removed is reported with
    the reason, once.  Otherwise code 0 says that the very bytes are tracked already,
    or that they are small enough, decode to a signed transaction that passes the
    stateless checks and names the chain of the snapshot, and that this transaction
    is tracked now; any other code leaves what the mempool holds as it was.  The
    only panic is that of a transaction with the greatest nonce. *)
Theorem check_tx_answers now bytes s m :
  match handle_check_tx now bytes s m with
  | Val (response, m') =>
      match cache (comet_bft_removal_cache m) !! sha256 bytes with
      | Some reason =>
          response = into_check_tx_response reason /\ same_queues m m' /\
          cache (comet_bft_removal_cache m') = delete (sha256 bytes) (cache (comet_bft_removal_cache m))
      | None =>
          cache (comet_bft_removal_cache m') = cache (comet_bft_removal_cache m) /\
          (check_code response = 0 ->
             (is_tracked (sha256 bytes) m = true /\ same_queues m m') \/
             exists stx, admissible s bytes stx /\ is_tracked (transaction_id stx) m' = true) /\
          (check_code response <> 0 -> same_queues m m')
      end
  | Panic => exists stx, admissible s bytes stx /\ tx_nonce (ledger_tx stx) = umax 32
  | NoFuel => False
  end.
Proof.
  unfold handle_check_tx, check_removed_comet_bft, cache_remove.
  destruct (cache (comet_bft_removal_cache m) !! sha256 bytes) as [reason|] eqn:Ec; [done|].
  set (m1 := mk_mempool _ _ _ _).
  assert (cache (comet_bft_removal_cache m1) = cache (comet_bft_removal_cache m)) as Hc1 by (cbn; by rewrite delete_id).
  assert (same_queues m m1) as Hq1 by done.
  destruct (is_tracked (sha256 bytes) m1) eqn:Et; [split; [done|]; split; [by left|done]|].
  destruct (stateless_checks_run bytes s) as [(stx & -> & Ha)|[c ->]]; cbn [mbind run_bind].
  - unfold insert_into_mempool. destruct (read_insertion_run s stx) as [(i & -> & Hi)| ->]; cbn [mbind run_bind]; [|by split].
    pose proof (insertion_run now i m1) as Hr. destruct (perform_insertion now i m1) as [[response m2]| |]; [| |done].
    + destruct Hr as (H0' & H1' & Hc2). rewrite Hc2. split; [done|]. split; [|exact H1'].
      intros E. right. exists stx. split; [done|]. rewrite Hi in H0'. by apply H0'.
    + exists stx. split; [done|]. pose proof (decoded_nonce _ _ _ Ha) as Hn. rewrite Hi in Hr. unfold uint, umax in *. lia.
  - split; [done|]. split; [|done]. intros E. by destruct c.
Qed.

(** C6. C. From genesis on, whatever is asked of a node - [CheckTx] requests that run
    concurrently with each other and with the consensus requests, on snapshots that
    may be outdated, panics and restarts - every transaction that its mempool
    offers to a block passed [CheckTx]: its bytes were small enough, they decode to
    it with a valid signature, it passed the stateless checks, and it names this
    chain.  The mempool never panics in maintenance or removal, and the consensus side
    is one that [node_step] describes.  (Every operation on the mempool takes effect at
    once.) *)
Theorem mempool_offers_admitted `{!GenesisLaws} now request n u v r a nd
    (Hs : handle_init_chain now request (new_node (mempool_new n) u v) = (Done r, a))
    (Hsteps : rtc (service_step n) (mk_node a []) nd) :
  Forall (admitted (snapshot (storage a))) (mempool_builder_queue (app_mempool (node_app nd))).*2 /\
  (forall now s recost, exists m, run_maintenance now s recost (app_mempool (node_app nd)) = Val m) /\
  (forall tx reason, exists m, remove_tx_invalid tx reason (app_mempool (node_app nd)) = Val m) /\
  rtc node_step a (node_app nd).
Proof.
  assert (node_sound (snapshot (storage a)) (mk_node a [])) as Hn.
  { pose proof Hs as Hs'. apply init_chain_done in Hs' as (raw & g & vs & rev & Hraw & Hg & _ & _ & _ & Hst & Hl & Hb & _).
    assert (chain_ok (snapshot (storage a)) (snapshot (storage a))) as Hok.
    { rewrite Hst. apply genesis_ledger_ok. refine (wire_decoded raw g _ Hg). by eapply genesis_json_widths. }
    split; [|by eapply init_pool; [exact Hs|apply pool_new]|constructor]. split; [done|]. cbn [node_app]. rewrite Hb. split; [|done]. rewrite Hl. by rewrite Hst in Hok |- *. }
  apply (service_steps_sound (snapshot (storage a))) in Hsteps as [[_ Hm _] Hr]; [|done].
  split; [by apply queue_holds|]. split; [|split; [|exact Hr]]; cbn in Hm.
  - intros t s recost. destruct (pool_maintenance _ t s recost _ Hm) as (m & -> & _). by exists m.
  - intros tx reason. by apply (remove_returns (snapshot (storage a))).
Qed.
End theorems.
