(* ===== verification/AppDemo.v ===== *)
(** * A concrete application

    One validator, one currency pair, Aspen in the past: the application on a
    block with two rollups, on a block that removes the priced currency pair, from its
    genesis file on, and as a node that serves consensus and [CheckTx] requests; the
    properties of proposals, of the application, of genesis and of the mempool service
    applied to them. *)
From S2P Require Import Prelude Denom Types State Chain Ics20 Authority Relay Transact BTree Mempool Demo.
From S2P Require Import Wire WireActions WireLaws WireTransaction WireTheorems Collections.
From S2P Require Import MerkleIndex MerkleTree MerkleCorrect MerkleAudit Block SequencerBlock BlockLemmas.
From S2P Require Import BlockBuild BlockDemo.
From S2P Require Import ExecutionState Upgrades VoteExtension VoteTheorems.
From S2P Require Import Proposal ProposalTheorems BlockStore App AppLemmas AppTheorems AppAgreement.
From S2P Require Import Genesis GenesisChain MempoolService.
From stdpp Require Import base list option strings gmap countable numbers tactics.
From Stdlib Require Import ZArith Lia Ascii String Strings.Byte.
Open Scope string_scope.
Open Scope Z_scope.

(** ** An encoding of commit infos *)
Fixpoint bits (p : positive) : list bool :=
  match p with xH => [] | xO p => false :: bits p | xI p => true :: bits p end.
Fixpoint unbits (l : list bool) : positive :=
  match l with [] => xH | b :: l => (if b : bool then xI else xO) (unbits l) end.
Lemma unbits_bits p : unbits (bits p) = p.
Proof. induction p as [p IH|p IH|]; cbn; by rewrite ?IH. Qed.
(** Seven bits to a character, the last ones on their own *)
Fixpoint pack (l : list bool) : string :=
  match l with
  | [] => ""
  | b0 :: b1 :: b2 :: b3 :: b4 :: b5 :: b6 :: l => String (Ascii b0 b1 b2 b3 b4 b5 b6 true) (pack l)
  | b :: l => String (Ascii b false false false false false false false) (pack l)
  end.
Fixpoint unpack (s : string) : list bool :=
  match s with
  | EmptyString => []
  | String (Ascii b0 b1 b2 b3 b4 b5 b6 true) s => b0 :: b1 :: b2 :: b3 :: b4 :: b5 :: b6 :: unpack s
  | String (Ascii b _ _ _ _ _ _ false) s => b :: unpack s
  end.
Lemma unpack_pack : forall l, unpack (pack l) = l.
Proof.
  fix IH 1. intros [|b0 l]; [done|].
  do 6 (destruct l as [|? l]; [cbn; done|]). cbn. by rewrite IH.
Qed.

(** Messages as nested pairs *)
Definition vote_tuple : Type := string * Z * (option Z * (string * option string)).
Definition mapping_tuple : Type := option (Z * list vote_tuple) * list (Z * (option (string * string) * Z)).
Definition flag_code (i : BlockSignatureInfo) : option Z :=
  match i with Flag Absent => Some 0 | Flag Commit => Some 1 | Flag Nil => Some 2 | LegacySigned => None end.
Definition code_flag (o : option Z) : BlockSignatureInfo :=
  match o with Some 0 => Flag Absent | Some 1 => Flag Commit | Some _ => Flag Nil | None => LegacySigned end.
Definition vote_out (v : ExtendedVoteInfo) : vote_tuple :=
  (val_address (ext_validator v), val_power (ext_validator v),
   (flag_code (ext_sig_info v), (ext_vote_extension v, ext_signature v))).
Definition vote_in (t : vote_tuple) : ExtendedVoteInfo :=
  let '(a, p, (f, (e, s))) := t in mk_ext_vote (mk_abci_validator a p) (code_flag f) e s.
Lemma vote_in_out v : vote_in (vote_out v) = v.
Proof. by destruct v as [[] [[]|] ? ?]. Qed.
Definition commit_out (c : Types.ExtendedCommitInfo) : Z * list vote_tuple := (ext_round c, vote_out <$> ext_votes c).
Definition commit_in (t : Z * list vote_tuple) : Types.ExtendedCommitInfo := mk_ext_commit t.1 (vote_in <$> t.2).
Lemma commit_in_out c : commit_in (commit_out c) = c.
Proof.
  destruct c as [r l]. unfold commit_in, commit_out. cbn. f_equal. rewrite <- list_fmap_compose.
  rewrite <- (list_fmap_id l) at 2. apply list_fmap_ext. intros ? v _. apply vote_in_out.
Qed.
Definition pair_out (r : RawIdWithCurrencyPair) : Z * (option (string * string) * Z) :=
  (raw_idp_id r, ((fun p => (raw_pair_base p, raw_pair_quote p)) <$> raw_idp_pair r, raw_idp_decimals r)).
Definition pair_in (t : Z * (option (string * string) * Z)) : RawIdWithCurrencyPair :=
  let '(i, (p, d)) := t in mk_raw_id_pair i ((fun p => mk_raw_pair p.1 p.2) <$> p) d.
Lemma pair_in_out r : pair_in (pair_out r) = r.
Proof. by destruct r as [i [[]|] d]. Qed.

(** ** The libraries *)
Definition drop_body : TransactionBody :=
  mk_body (mk_actions BundleableSudo [Action_CurrencyPairsChange (PairsRemoval [btc_usd])]) (mk_params 0 "astria-1").
Definition raw_body_of (b : TransactionBody) : @RawTransactionBody block_demo_wire :=
  mk_raw_body (Some (mk_raw_params (params_nonce (body_params b)) (params_chain_id (body_params b))))
    (map (@action_to_raw block_demo_wire) (inner (body_actions b))).
Definition data_body : TransactionBody := mk_body (body_actions block_body) (mk_params 0 "astria-1").
Definition next_body : TransactionBody := mk_body (body_actions block_body) (mk_params 1 "astria-1").
Definition encode_demo_body (r : @RawTransactionBody block_demo_wire) : string :=
  if (List.length (raw_actions r) =? 1)%nat then "drop" else "body".
Definition app_signing : Signing := {|
  signing_wire := block_demo_wire;
  encode_body := encode_demo_body;
  decode_body := fun s =>
    if String.eqb s "body" then Some (raw_body_of data_body)
    else if String.eqb s "next" then Some (raw_body_of next_body)
    else if String.eqb s "drop" then Some (raw_body_of drop_body) else None;
  encode_transaction := fun r => raw_signature r ++ raw_public_key r;
  decode_transaction := fun s =>
    if String.eqb s "keybodykey" then Some (mk_raw_transaction "keybody" "key" (Some (mk_any body_type_url "body")))
    else if String.eqb s "keynextkey" then Some (mk_raw_transaction "keynext" "key" (Some (mk_any body_type_url "next")))
    else if String.eqb s "keydropkey" then Some (mk_raw_transaction "keydrop" "key" (Some (mk_any body_type_url "drop")))
    else None;
  ed25519_signature_valid := fun _ => true;
  ed25519_verify := fun k s m => String.eqb s (k ++ m);
  ed25519_sign := fun k m => k ++ m;
  ed25519_public := fun k => k |}.
Definition app_tendermint : Tendermint := {|
  tm_signing := app_signing;
  tm_chain_id_valid := fun s => negb (is_empty s);
  tm_height_valid := fun h => 0 <=? h;
  tm_time_from := fun t => Some (ts_seconds t);
  tm_time_into := fun t => mk_timestamp t 0;
  tm_account_valid := fun s => (String.length s =? 20)%nat;
  RawTmCommitInfo := Types.ExtendedCommitInfo;
  tm_commit_from_raw := Some;
  tm_commit_into_raw := fun c => c |}.
Definition mapping_out (r : @RawCommitMapping app_tendermint) : mapping_tuple :=
  (commit_out <$> raw_commit_info r, pair_out <$> raw_id_to_pair r).
Definition mapping_in (t : mapping_tuple) : @RawCommitMapping app_tendermint :=
  @mk_raw_mapping app_tendermint (commit_in <$> t.1) (pair_in <$> t.2).
Lemma mapping_in_out r : mapping_in (mapping_out r) = r.
Proof.
  destruct r as [c l]. unfold mapping_in, mapping_out. cbn. f_equal.
  - destruct c as [c|]; [|done]. cbn. f_equal. apply commit_in_out.
  - rewrite <- list_fmap_compose. rewrite <- (list_fmap_id l) at 2. apply list_fmap_ext. intros ? v _. apply pair_in_out.
Qed.
Definition app_codec : BlockCodec := {|
  codec_tendermint := app_tendermint;
  encode_rollup_data := @encode_rollup_data block_codec;
  encode_data_item := demo_encode_item;
  decode_data_item := demo_decode_item;
  decode_commit_mapping := fun s =>
    match s with
    | EmptyString => Some (@mk_raw_mapping app_tendermint None [])
    | String _ s => mapping_in <$> countable.decode (unbits (unpack s))
    end |}.
Definition app_app_codec : @AppCodec app_codec := @Build_AppCodec app_codec
  (fun r => String "c"%char (pack (bits (countable.encode (mapping_out r)))))
  (fun s => match block_height (app_data s) with Some h => "root" ++ pack (bits (Z.to_pos h)) | None => "" end).

Lemma app_signing_laws : @SigningLaws app_signing.
Proof.
  split.
  - apply block_demo_wire_laws.
  - intros s r Hr.
    change ((if String.eqb s "body" then Some (raw_body_of data_body)
             else if String.eqb s "next" then Some (raw_body_of next_body)
             else if String.eqb s "drop" then Some (raw_body_of drop_body) else None) = Some r) in Hr.
    destruct (String.eqb s "body"); [|destruct (String.eqb s "next"); [|destruct (String.eqb s "drop"); [|done]]]; injection Hr as <-;
      (split; [by split|]); repeat constructor; vm_compute; by intros.
  - intros k m. apply String.eqb_refl.
  - done.
  - done.
Qed.
Lemma app_block_laws_demo : @BlockLaws app_codec.
Proof.
  split.
  - apply app_signing_laws.
  - intros s. change (String.length (text_of (toy_sha (bytes_of s))) = 32%nat).
    by rewrite length_text, toy_sha_length.
  - done.
  - apply (@data_item_inverse block_codec block_demo_laws).
Qed.
Lemma app_laws_demo : @AppLaws app_codec app_app_codec vote_codec.
Proof.
  split; [apply app_block_laws_demo|done|by intros r [= <-]| |done].
  intros r. change (mapping_in <$> countable.decode (unbits (unpack (pack (bits (countable.encode (mapping_out r)))))) = Some r).
  rewrite unpack_pack, unbits_bits, decode_encode. cbn. f_equal. apply mapping_in_out.
Qed.
#[local] Existing Instances app_codec app_app_codec vote_codec app_laws_demo demo_borsh demo_relay.
#[local] Existing Instance block_demo_external | 0.

(** ** The chain *)
Definition key_account : address_bytes := key_address "key".
Definition aspen_info (name bytes : string) : ChangeInfo := mk_change 1 name 2 (sha256 bytes).
Definition native_id : IbcPrefixed := trace_to_ibc_prefixed nria.
(** [enable]: the height from which votes are extended *)
Definition chain_state (enable : option Z) : State :=
  on_accounts (fun _ => mk_accounts {[ (key_account, native_id) := 1000 ]} ∅)
    (on_assets (fun _ => mk_assets (Some nria) {[ native_id := nria ]})
    (on_fees (fun f => mk_fees (components f) {[ native_id ]} None)
    (on_authority (fun _ => mk_authority (Some key_account) None {[ alice := mk_validator 10 "alicekey" "alice" ]} (Some 1) None)
      (on_upgrades (fun _ => {[ (ASPEN, VALIDATOR_UPDATE_ACTION_CHANGE) := aspen_info VALIDATOR_UPDATE_ACTION_CHANGE "heights" ]})
        (on_app_data (fun a => mk_appdata (chain_id a) (revision_number a) (Some 4) (block_timestamp a) ∅
                                 (Some (mk_consensus 1048576 (-1) 1000 4000000 1 1048576 ["ed25519"] (Some 2) enable)))
          vote_state))))).
Definition chain_handler : UpgradesHandler :=
  mk_upgrades_handler [Upgrade_Aspen (mk_aspen 1 2 (mk_market_genesis [] 0) (mk_oracle_genesis [] 0))] (fun _ => None).
Definition node (enable : option Z) (m : Mempool) : App :=
  let st := mk_storage (chain_state enable) empty_block_store 4 in
  mk_app (latest_snapshot st) m Unset false None "" chain_handler (mk_handler None) st.

(** The transaction the mempool holds *)
Definition signed_of (s : string) : SignedTransaction :=
  match decode_user_transaction s with Ok tx => tx | Err _ => @sign app_signing drop_body "" end.
Definition data_tx : Transaction := ledger_tx (signed_of "keybodykey").
Definition drop_tx : Transaction := ledger_tx (signed_of "keydropkey").
Definition pool_with (tx : Transaction) : Mempool :=
  match Mempool.insert 0 tx 0 {[ native_id := 1000 ]} {[ native_id := 30 ]} (mempool_new 10) with
  | Val (_, m) => m
  | _ => mempool_new 10
  end.
Example pool_holds_data : (mempool_builder_queue (pool_with data_tx)).*2 = [data_tx].
Proof. vm_compute. reflexivity. Qed.

(** ** A round *)
Definition demo_prepare : PrepareProposal :=
  mk_prepare 100000 (Some (alices_commit "0price of 16 byte")) [] 5 100 (Sha256Hash "next") block_proposer.
Definition app_value {A} (d : A) (r : outcome A * App) : A := match r.1 with Done a => a | _ => d end.
Definition app_finished {A} (r : outcome A * App) : bool := match r.1 with Done _ => true | _ => false end.
Lemma app_finished_value {A} (d : A) (r : outcome A * App) :
  app_finished r = true -> r = (Done (app_value d r), r.2).
Proof. unfold app_finished, app_value. by destruct r as [[] ?]. Qed.
Definition process_of (q : PrepareProposal) (txs : list string) : ProcessProposal :=
  mk_process txs (commit_of_extended <$> prep_local_last_commit q) (prep_misbehavior q)
    (Sha256Hash (text_of block_hash_demo)) (prep_height q) (prep_time q) (prep_next_validators_hash q)
    (prep_proposer_address q).
Lemma process_of_matches q txs : processed_proposal (process_of q txs) = prepared_proposal q txs.
Proof. done. Qed.

Definition proposer (enable : option Z) (tx : Transaction) : App := node enable (pool_with tx).
Definition validator_node (enable : option Z) : App := node enable (mempool_new 10).
#[local] Abbreviation proposed enable tx := (prepare_proposal demo_prepare (proposer enable tx)).
#[local] Abbreviation request_for enable tx := (process_of demo_prepare (app_value [] (proposed enable tx))).
#[local] Abbreviation checked enable tx := (process_proposal (request_for enable tx) (validator_node enable)).
#[local] Abbreviation recognised enable tx := (process_proposal (request_for enable tx) (proposed enable tx).2).
#[local] Abbreviation finalized_executed enable tx :=
  (finalize_block (finalize_request (request_for enable tx)) (checked enable tx).2).
#[local] Abbreviation finalized_scratch enable tx :=
  (finalize_block (finalize_request (request_for enable tx)) (validator_node enable)).
Definition no_response : FinalizeBlockResponse := mk_finalize_response [] [] ∅ None "".

Definition no_block : SequencerBlock :=
  mk_block [] (mk_header "" 0 0 [] [] "") [] (MkProof [] 0 0) (MkProof [] 0 0) [] None.
Definition app_report {A} (r : outcome A * App) : Report := match r.1 with Fail e => e | _ => [] end.
Lemma app_failed_report {A} (r : outcome A * App) :
  match r.1 with Fail _ => true | _ => false end = true -> r = (Fail (app_report r), r.2).
Proof. unfold app_report. by destruct r as [[] ?]. Qed.

Lemma idle_node enable m : idle (node enable m).
Proof. by split. Qed.

Lemma node_peers enable m m' : peers (node enable m) (node enable m').
Proof. by split. Qed.

(** ** Blocks on the chain *)
Lemma drop_outcomes :
  app_finished (proposed (Some 1) drop_tx) = true /\ app_finished (checked (Some 1) drop_tx) = true /\
  match (finalized_executed (Some 1) drop_tx).1 with Fail _ => true | _ => false end = true /\
  app_finished (finalized_scratch (Some 1) drop_tx) = true.
Proof. vm_compute. by split_and!. Qed.
(** What the block that drops the pair carries *)
Definition no_data : ExpandedBlockData := mk_expanded [] [] (MkProof [] 0 0) [] (MkProof [] 0 0) [] None [].
#[local] Abbreviation drop_parsed :=
  (parse_block_data (proc_txs (request_for (Some 1) drop_tx)) 5 (validator_node (Some 1))).
Definition read_prices (d : ExpandedBlockData) : option (list Price) :=
  e ← ebd_extended_commit_info d;
  match calculate_prices_from_vote_extensions (commit_info (ecp_info e)) (id_to_pair (ecp_info e)) with
  | Val (Ok prices) => Some prices
  | _ => None
  end.
Lemma read_prices_of d prices : read_prices d = Some prices -> prices_of d prices.
Proof.
  unfold read_prices, prices_of. destruct (ebd_extended_commit_info d) as [e|]; [|done].
  cbn [mbind option_bind]. repeat case_match; try done. intros Hs. exists e. split; [done|]. by simplify_eq.
Qed.
Lemma drop_facts :
  app_finished drop_parsed = true /\ read_prices (app_value no_data drop_parsed) = Some [mk_price btc_usd 149467594897677218137193512474743764069 8] /\
  consensus_params (app_data (ledger (state (checked (Some 1) drop_tx).2))) =
  consensus_params (app_data (ledger (state (validator_node (Some 1))))) /\
  pair_states (oracle (ledger (state (checked (Some 1) drop_tx).2))) !! btc_usd = None /\
  pair_nonce <$> pair_states (oracle (chain_state (Some 1))) !! btc_usd = Some 0.
Proof. vm_compute. by split_and!. Qed.

(** ** Witnesses *)
Lemma data_round : regular_round demo_prepare (proposer (Some 1) data_tx).
Proof.
  split; [done..|vm_compute; done|]. intros tx Htx. change (app_mempool _) with (pool_with data_tx) in Htx.
  rewrite pool_holds_data in Htx. apply list_elem_of_singleton in Htx as ->. split.
  - intros index hs. by vm_compute.
  - intros stx Hstx. unfold data_tx, signed_of. change (tx_encoded _) with "keybodykey" in Hstx. by rewrite Hstx.
Qed.
Lemma data_outcomes :
  app_finished (proposed (Some 1) data_tx) = true /\ app_finished (recognised (Some 1) data_tx) = true.
Proof. vm_compute. by split. Qed.
Lemma proposers_and_validators_agree_witness :
  exists block b2, checked (Some 1) data_tx = (Done block, b2) /\
    ledger (state b2) = ledger (state (recognised (Some 1) data_tx).2).
Proof.
  destruct data_outcomes as [Hp Hr]. apply (app_finished_value []) in Hp. apply (app_finished_value no_block) in Hr.
  destruct (proposers_and_validators_agree _ _ _ _ _ _ _ _ data_round Hp (process_of_matches _ _) Hr
              (idle_node (Some 1) (mempool_new 10)) (node_peers _ _ _)) as (b2 & Hb & Hl & _).
  eexists _, b2. split; [exact Hb|exact Hl].
Defined.

(** A node that executed the data block finalizes another one. *)
Definition other_request : FinalizeBlock :=
  mk_finalize (app_value [] (proposed (Some 1) drop_tx)) [] (Sha256Hash (text_of (toy_sha [x02]))) 5 100
    (Sha256Hash "next") block_proposer.
Lemma other_outcome : app_finished (finalize_block other_request (checked (Some 1) data_tx).2) = true.
Proof. vm_compute. reflexivity. Qed.
Lemma checked_peers : peers (checked (Some 1) data_tx).2 (validator_node (Some 1)).
Proof.
  exact (peers_sym _ _ (process_proposal_keeps (request_for (Some 1) data_tx) (validator_node (Some 1)))).
Qed.
Lemma other_not_executed : (check_if_executed_block (text_of (toy_sha [x02]))
  (execution_state (checked (Some 1) data_tx).2)).1 = false.
Proof. vm_compute. reflexivity. Qed.
Lemma rounds_leave_no_trace_witness :
  exists response b, finalize_block other_request (validator_node (Some 1)) = (Done response, b).
Proof.
  pose proof (app_finished_value no_response _ other_outcome) as Hx.
  destruct (rounds_leave_no_trace other_request _ _ (validator_node (Some 1)) _ _ checked_peers eq_refl
              other_not_executed eq_refl Hx) as (b & Hb & _).
  eexists _, b. exact Hb.
Defined.

Definition is_some {A} (o : option A) : bool := match o with Some _ => true | None => false end.
Lemma is_some_true {A} (o : option A) : is_some o = true -> is_Some o.
Proof. by destruct o. Qed.
Lemma is_some_false {A} (o : option A) : is_some o = false -> o = None.
Proof. by destruct o. Qed.

(** The data block of a chain without vote extensions *)
#[local] Abbreviation parsed := (parse_block_data (proc_txs (request_for None data_tx)) 5 (validator_node None)).
Lemma quiet_outcomes :
  app_finished (checked None data_tx) = true /\ app_finished parsed = true /\
  is_some (ebd_extended_commit_info (app_value no_data parsed)) = false.
Proof. vm_compute. by split_and!. Qed.
Lemma quiet_params :
  consensus_params (app_data (ledger (state (checked None data_tx).2))) =
  consensus_params (app_data (ledger (state (validator_node None)))).
Proof. vm_compute. reflexivity. Qed.
Lemma missed_block_finalizes_the_same_witness :
  exists response a2 b2, finalized_executed None data_tx = (Done response, a2) /\
    finalized_scratch None data_tx = (Done response, b2) /\ write_batch a2 = write_batch b2.
Proof.
  destruct quiet_outcomes as (Hc & Hd & Hi).
  apply (app_finished_value no_block) in Hc.
  pose proof (f_equal fst (app_finished_value no_data _ Hd)) as Hparsed.
  destruct (missed_block_finalizes_the_same _ _ (validator_node None) _ _ _ (idle_node None (mempool_new 10)) eq_refl
              (node_peers _ _ _) Hc Hparsed) as (response & a2 & b2 & Ha & Hb & _ & Hw & _).
  - exact (is_some_false _ Hi).
  - exact quiet_params.
  - exists response, a2, b2. split; [exact Ha|]. split; [exact Hb|exact Hw].
Defined.

(** *** Proposals *)
Definition demo_room : BlockSizeConstraints :=
  match block_size_new 100000 true with Ok c => c | Err _ => new_unlimited_cometbft end.
Lemma demo_room_ok : size_ok demo_room.
Proof. apply (block_size_new_ok 100000 true demo_room); [lia|reflexivity]. Qed.
Lemma demo_room_low : total_size false <= current_size_cometbft demo_room.
Proof. vm_compute. discriminate. Qed.
Definition demo_execution : Execution := mk_execution (chain_state None) false.
#[local] Abbreviation prepared_data := (prepare_proposal_tx_execution demo_room (pool_with data_tx) demo_execution).
Definition nothing_prepared : Proposal.Prepared := mk_prepared [] [] [] (mempool_new 0).
Definition run_value {A} (d : A) (r : outcome A * Execution) : A := match r.1 with Done a => a | _ => d end.
Lemma run_finished {A} (d : A) (r : outcome A * Execution) :
  match r.1 with Done _ => true | _ => false end = true -> r = (Done (run_value d r), r.2).
Proof. unfold run_value. by destruct r as [[] ?]. Qed.
Lemma data_prepared :
  match prepared_data.1 with Done _ => true | _ => false end = true /\
  prepared_bytes (run_value nothing_prepared prepared_data) = ["keybodykey"].
Proof. vm_compute. by split. Qed.
Lemma prepared_transactions_are_accepted_witness :
  exists txs res x, tx_encoded <$> txs = ["keybodykey"] /\ finalize_tx_execution txs demo_execution = (Done res, x).
Proof.
  destruct data_prepared as [Hp Hb]. apply (run_finished nothing_prepared) in Hp.
  destruct (prepared_transactions_are_accepted demo_room (pool_with data_tx) demo_execution _ _ demo_room_ok
              eq_refl demo_room_low eq_refl Hp) as (Hbytes & _ & _ & Hf).
  eexists _, _, _. split; [rewrite <- Hbytes; exact Hb|exact Hf].
Defined.
Lemma preparation_never_fails_witness : prepared_data.1 <> Fail [].
Proof. apply (preparation_never_fails demo_room (pool_with data_tx) demo_execution []). exact demo_room_ok. Defined.
#[local] Abbreviation processed_data := (process_proposal_tx_execution [data_tx] new_unlimited_cometbft demo_execution).
Lemma data_processed : match processed_data.1 with Done _ => true | _ => false end = true.
Proof. vm_compute. reflexivity. Qed.
Lemma accepted_transactions_finalize_witness :
  finalize_tx_execution [data_tx] demo_execution = (Done (run_value [] processed_data), processed_data.2).
Proof.
  pose proof (run_finished [] processed_data data_processed) as Hp.
  exact (proj1 (accepted_transactions_finalize _ _ _ _ Hp)).
Defined.

(** *** Stored blocks *)
Lemma demo_block_storable : @storable block_codec demo_block.
Proof.
  split; [apply (block_unique _ demo_block_well_formed)|]. intros e He.
  pose proof (commits_info _ _ _ _ _ _ _ (block_commits _ demo_block_well_formed)) as Hi.
  rewrite He in Hi. apply Hi.
Qed.
Lemma stored_block_is_read_back_witness :
  @get_sequencer_block_by_height block_codec 7 (@put_sequencer_block block_codec demo_block empty_block_store) =
    Val (Ok demo_block).
Proof. exact (@stored_block_is_read_back block_codec demo_block empty_block_store demo_block_storable ltac:(done)). Defined.

(** *** A chain from its genesis *)
Definition ten : option FeeComponents := Some (mk_components 10 0).
Definition demo_genesis : GenesisAppState :=
  mk_genesis "astria-1" (mk_prefixes "astria" "astriacompat")
    [mk_account (on_chain key_account) 1000; mk_account (on_chain alice) 5; mk_account (on_chain alice) 7]
    (on_chain key_account) (on_chain bob) [on_chain bob] (Some nria) (mk_ibc_parameters true true true) [nria_denom]
    (mk_genesis_fees ten ten None None ten None ten None None None None (mk_components 0 0) None None None None None None).
#[local] Instance demo_ibc_genesis : IbcGenesis := fun _ => <["ibc-parameters" := "on"]>.
#[local] Instance demo_genesis_json : GenesisJson :=
  fun s => if String.eqb s "genesis" then Some (to_raw demo_genesis) else None.
Lemma demo_genesis_laws : GenesisLaws.
Proof.
  split. intros text r Hr.
  change ((if String.eqb text "genesis" then Some (to_raw demo_genesis) else None) = Some r) in Hr.
  destruct (String.eqb text "genesis"); [injection Hr as <-|done].
  split; [|split]; repeat constructor; vm_compute; by intros.
Qed.
#[local] Existing Instances demo_genesis_laws.

Definition demo_init : InitChain :=
  mk_init_chain "genesis" [mk_comet_validator 10 (Some (mk_raw_public_key (Some (PublicKey_Ed25519 "alicekey"))))]
    "astria-1" (mk_consensus 1048576 (-1) 1000 4000000 1 1048576 ["ed25519"] None None).
Definition first_node : App := new_node (mempool_new 10) (mk_upgrades_handler [] (fun _ => None)) (mk_handler None).
#[local] Abbreviation genesis_run := (handle_init_chain 0 demo_init first_node).
Definition no_init_response : InitChainResponse := mk_init_chain_response "" (init_consensus_params demo_init) [].
Lemma genesis_succeeds : app_finished genesis_run = true.
Proof. vm_compute. reflexivity. Qed.
Lemma genesis_done : handle_init_chain 0 demo_init first_node = (Done (app_value no_init_response genesis_run), genesis_run.2).
Proof. exact (app_finished_value no_init_response genesis_run genesis_succeeds). Qed.

Lemma demo_genesis_valid : valid address_canonical demo_genesis.
Proof.
  split; [done|]. split; [done|]. repeat split; cbn; repeat constructor; vm_compute; by intros.
Qed.
Lemma genesis_roundtrip_witness : try_from_raw GenesisAppState (to_raw demo_genesis) = Ok demo_genesis.
Proof. apply genesis_roundtrip. exact demo_genesis_valid. Defined.

(** Two entries for Alice: she has what the last one says. *)
Lemma genesis_balances_run :
  balances (accounts (snapshot (storage genesis_run.2))) !! (alice, native_id) = Some 7 /\
  size (balances (accounts (snapshot (storage genesis_run.2)))) = 2%nat.
Proof. vm_compute. by split. Qed.
Lemma init_chain_commits_genesis_witness : latest_version (storage genesis_run.2) = 0.
Proof.
  destruct (init_chain_commits_genesis _ _ _ _ _ _ _ genesis_done) as (raw & g & vs & rev & _ & _ & _ & _ & _ & -> & _).
  reflexivity.
Defined.

Definition paid_transfer : BridgeTransfer :=
  mk_bridge_transfer (on_chain alice) 1 nria_denom "dest" (on_chain key_account) 1 "event".
Lemma genesis_disables_bridge_transfers_witness :
  gf_bridge_transfer (genesis_fees demo_genesis) = ten /\
  execute_transaction (demo_tx key_account 0 [Action_BridgeTransfer paid_transfer]) (snapshot (storage genesis_run.2))
    <> (Done [], snapshot (storage genesis_run.2)).
Proof.
  split; [reflexivity|]. apply (genesis_disables_bridge_transfers _ _ _ _ _ _ _ paid_transfer _ _ _ genesis_done). by left.
Defined.

(** The first block, with the data of the transaction, is prepared, checked,
    executed and committed. *)
Definition first_prepare : PrepareProposal := mk_prepare 100000 None [] 1 100 (Sha256Hash "next") block_proposer.
#[local] Abbreviation with_pool := (upd_app_mempool (fun _ => pool_with data_tx) genesis_run.2).
#[local] Abbreviation prepared_first := (handle_request 0 (Request_PrepareProposal first_prepare) with_pool).
Definition first_txs : list string :=
  match prepared_first.1 with Done (Response_PrepareProposal txs, _) => txs | _ => [] end.
Definition first_process : ProcessProposal := process_of first_prepare first_txs.
Definition serve (a : App) (q : ConsensusRequest) : App := after_request (mempool_new 10) (handle_request 0 q a).
Definition first_requests : list ConsensusRequest :=
  [Request_PrepareProposal first_prepare; Request_ProcessProposal first_process;
   Request_FinalizeBlock (finalize_request first_process); Request_Commit].
Lemma first_block_committed :
  let a := foldl serve with_pool first_requests in
  latest_version (storage a) = 1 /\ nonces (accounts (snapshot (storage a))) !! key_account = Some 1.
Proof. vm_compute. by split. Qed.
Definition pool_txs (a : App) : list Transaction := (mempool_builder_queue (app_mempool a)).*2.
Fixpoint pools (a : App) (l : list ConsensusRequest) : list (list Transaction) :=
  match l with [] => [] | q :: l => pool_txs a :: pools (serve a q) l end.
Definition is_init (q : ConsensusRequest) : bool := match q with Request_InitChain _ => true | _ => false end.
Lemma served_steps l a :
  Forall (Forall tx_ok) (pools a l) -> forallb (fun q => negb (is_init q)) l = true -> rtc node_step a (foldl serve a l).
Proof.
  revert a. induction l as [|q l IH]; intros a Hp Hl; cbn in *; [reflexivity|].
  apply list.Forall_cons in Hp as [Hq Hp]. apply andb_prop in Hl as [Hi Hl]. eapply rtc_l; [|by apply IH].
  apply step_request; [exact Hq|]. intros r ->. done.
Qed.
Lemma first_pools : pools with_pool first_requests = [[data_tx]; [data_tx]; [data_tx]; [data_tx]].
Proof. vm_compute. reflexivity. Qed.
Lemma data_tx_ok : tx_ok data_tx.
Proof. unfold tx_ok. replace (tx_actions data_tx) with (inner (body_actions data_body)) by by vm_compute. repeat constructor. Qed.
Lemma first_block_steps : rtc node_step genesis_run.2 (foldl serve with_pool first_requests).
Proof.
  apply (rtc_l _ _ with_pool); [by apply step_mempool|]. apply served_steps; [|by vm_compute].
  rewrite first_pools. repeat constructor; exact data_tx_ok.
Qed.
Lemma committed_states_are_sound_witness :
  chain_ok (snapshot (storage genesis_run.2)) (snapshot (storage (foldl serve with_pool first_requests))).
Proof. exact (committed_states_are_sound _ _ _ _ _ _ _ _ genesis_done first_block_steps). Defined.

(** *** A node that serves both services *)
Inductive NodeEvent := Call (tx : string) | Run (task : nat) | Request (q : ConsensusRequest).
Definition node_event (nd : Node) (e : NodeEvent) : option Node :=
  let a := node_app nd in
  match e with
  | Call tx => Some (mk_node a (Called tx (snapshot (storage a)) :: in_flight nd))
  | Run k =>
      t ← in_flight nd !! k;
      match resume 0 t (app_mempool a) with
      | (Val (inl t'), m) => Some (mk_node (with_mempool m a) (take k (in_flight nd) ++ t' :: drop (S k) (in_flight nd))%list)
      | (Val (inr _), m) => Some (mk_node (with_mempool m a) (take k (in_flight nd) ++ drop (S k) (in_flight nd))%list)
      | _ => None
      end
  | Request q =>
      match is_init q, handle_request 0 q a with
      | false, (Done _, a') => Some (mk_node a' (in_flight nd))
      | _, _ => None
      end
  end.
Fixpoint node_events (nd : Node) (l : list NodeEvent) : option Node :=
  match l with [] => Some nd | e :: l => nd ← node_event nd e; node_events nd l end.
Lemma node_event_step nd e nd' : node_event nd e = Some nd' -> service_step 10 nd nd'.
Proof.
  destruct nd as [a l], e as [tx|k|q]; cbn [node_event node_app in_flight].
  - intros [= <-]. apply service_call.
  - destruct (l !! k) as [t|] eqn:Hk; [|done]. cbn [mbind option_bind]. 
    assert (mk_node a l = mk_node a (take k l ++ t :: drop (S k) l)) as -> by (by rewrite (take_drop_middle l k t Hk)).
    destruct (resume 0 t (app_mempool a)) as [[[t'|r]| |] m] eqn:E; [..|done|done]; intros [= <-].
    + by apply (service_resume _ 0).
    + by apply (service_respond _ 0 _ _ _ _ r).
  - destruct (is_init q) eqn:Hq; [done|]. destruct (handle_request 0 q a) as [[r| |] a'] eqn:E; [|done..].
    intros [= <-]. apply (service_request _ 0 q r); [|done]. intros r' ->. done.
Qed.
Lemma node_events_steps l nd nd' : node_events nd l = Some nd' -> rtc (service_step 10) nd nd'.
Proof.
  revert nd. induction l as [|e l IH]; intros nd; cbn [node_events]; [by intros [= ->]|].
  destruct (node_event nd e) as [nd1|] eqn:E; [|done]. cbn [mbind option_bind]. intros Hl.
  eapply rtc_l; [by eapply node_event_step|by apply IH].
Qed.
Definition checked_twice : list NodeEvent :=
  [Call "keynextkey"; Run 0; Call "keybodykey"; Run 0; Run 0; Run 0]%list.
#[local] Abbreviation node0 := (mk_node genesis_run.2 []).
Definition raced : list NodeEvent :=
  (checked_twice ++ (Request <$> first_requests) ++ [Call "keynextkey"; Run 0; Run 0; Run 1; Run 1; Run 0])%list.
Definition no_node : Node := mk_node first_node [].
Definition events_value (l : list NodeEvent) : Node := default no_node (node_events node0 l).
Lemma events_done l : is_some (node_events node0 l) = true -> rtc (service_step 10) node0 (events_value l).
Proof. unfold events_value. intros [nd Hl]%is_some_true. rewrite Hl. by apply node_events_steps in Hl. Qed.
Lemma checked_events : is_some (node_events node0 checked_twice) = true.
Proof. vm_compute. reflexivity. Qed.
Lemma checked_pool : pool_txs (node_app (events_value checked_twice)) = [data_tx].
Proof. vm_compute. reflexivity. Qed.
Lemma mempool_offers_admitted_witness :
  pool_txs (node_app (events_value checked_twice)) = [data_tx] /\
  admitted (snapshot (storage genesis_run.2)) data_tx.
Proof.
  split; [exact checked_pool|].
  destruct (mempool_offers_admitted _ _ _ _ _ _ _ _ genesis_done (events_done _ checked_events)) as [Ha _].
  change (Forall (admitted (snapshot (storage genesis_run.2))) (pool_txs (node_app (events_value checked_twice)))) in Ha.
  rewrite checked_pool in Ha. by apply list.Forall_cons in Ha as [Ha _].
Defined.

(** A first [CheckTx] *)
#[local] Abbreviation first_check :=
  (handle_check_tx 0 "keybodykey" (snapshot (storage genesis_run.2)) (app_mempool genesis_run.2)).
Definition code_of {M} (r : run (CheckTxResponse * M)) : Z := match r with Val (response, _) => check_code response | _ => 1 end.
Lemma first_check_code : code_of first_check = 0.
Proof. vm_compute. reflexivity. Qed.
#[local] Abbreviation first_hash :=
  (@sha256 (@ext_sha256 (@wire_external (@signing_wire (@tm_signing (@codec_tendermint app_codec))))) "keybodykey").
Lemma first_check_new : cache (comet_bft_removal_cache (app_mempool genesis_run.2)) !! first_hash = None /\
  is_tracked first_hash (app_mempool genesis_run.2) = false.
Proof. vm_compute. by split. Qed.
Lemma check_tx_answers_witness : exists stx, admissible (snapshot (storage genesis_run.2)) "keybodykey" stx.
Proof.
  pose proof (check_tx_answers 0 "keybodykey" (snapshot (storage genesis_run.2)) (app_mempool genesis_run.2)) as Ha.
  pose proof first_check_code as Hc. destruct first_check_new as [Hn Ht]. rewrite Hn in Ha.
  destruct first_check as [[response m']| |]; [|destruct Ha as (stx & Hs & _); by exists stx|destruct Ha].
  destruct Ha as (_ & H0 & _). destruct (H0 Hc) as [[H1 _]|(stx & Hs & _)]; [by rewrite Ht in H1|by exists stx].
Defined.

Lemma raced_events : is_some (node_events node0 raced) = true.
Proof. vm_compute. reflexivity. Qed.
Lemma raced_pool : let m := app_mempool (node_app (events_value raced)) in
  MempoolLemmas.hashes (pending m) = [transaction_id (signed_of "keynextkey")] /\
  MempoolLemmas.hashes (parked m) = [transaction_id (signed_of "keynextkey")].
Proof. vm_compute. by split. Qed.
(** Two [CheckTx] requests of one transaction can race: from genesis a node gets
    to a mempool that holds the transaction twice, pending and parked, when one of the
    requests runs on an outdated snapshot and both look for the transaction before
    either has inserted it.  The insertion does not look again. *)
Theorem racing_requests_hold_twice :
  exists a r nd h, handle_init_chain 0 demo_init first_node = (Done r, a) /\
    rtc (service_step 10) (mk_node a []) nd /\
    (h ∈ MempoolLemmas.hashes (pending (app_mempool (node_app nd)))) /\
    (h ∈ MempoolLemmas.hashes (parked (app_mempool (node_app nd)))).
Proof.
  exists genesis_run.2, (app_value no_init_response genesis_run), (events_value raced), (transaction_id (signed_of "keynextkey")).
  split; [exact genesis_done|]. split; [exact (events_done _ raced_events)|].
  destruct raced_pool as [Hp Hk]. rewrite Hp, Hk. split; by apply list_elem_of_singleton.
Qed.
