(* ===== verification/Composer.v ===== *)
(** * The composer

    [astria-composer/src/executor/bundle_factory/mod.rs]: submissions are packed into
    bundles of a limited size, in a queue of limited length.
    [astria-composer/src/executor/mod.rs]: the executor takes submissions off a channel,
    bundles them, and sends one bundle at a time to the sequencer, signed with
    the next nonce.  A request over the network can fail before or after it reached
    the sequencer, which is a parameter.  [composer_step] is the event loop of
    [run_until_stopped] with the shutdown that follows it; [History] records what was taken
    off the channel, which bundles are done, and what the channel held when the shutdown
    began. *)
From S2P Require Import Prelude Denom Types State Chain Ics20.
From S2P Require Import Wire WireActions WireLaws WireTransaction WireTheorems Collections.
From stdpp Require Import base list option strings gmap numbers tactics relations.
From Stdlib Require Import ZArith Lia String.
Open Scope string_scope.
Open Scope Z_scope.

(** * Bundles of rollup data

    [astria-composer/src/executor/bundle_factory/mod.rs]: the composer collects the
    submissions of its rollups into bundles of bounded size and queues the bundles
    that are full.  The length of an encoded submission, which prost derives, is a
    parameter. *)
(** [prost::Message::encoded_len], a [usize] *)
Class EncodedLen := message_len : RawRollupDataSubmission -> Z.
Class EncodedLenLaws `{EncodedLen} : Prop := message_len_nonneg m : 0 <= message_len m.

Inductive SizedBundleError :=
| NotEnoughSpace (seq_action : RollupDataSubmission)
| SequenceActionTooLarge (seq_action : RollupDataSubmission).
Record SizedBundle := mk_bundle {
  buffer : list Action;
  curr_size : Z;
  bundle_max_size : Z;
  rollup_counts : gmap RollupId Z }.
Record FinishedQueueFull := mk_queue_full {
  full_curr_bundle_size : Z;
  full_finished_queue_capacity : Z;
  full_sequence_action_size : Z;
  full_seq_action : RollupDataSubmission }.
Inductive BundleFactoryError :=
| BundleFactoryError_SequenceActionTooLarge (size max_size : Z)
| BundleFactoryError_FinishedQueueFull (e : FinishedQueueFull).
Record BundleFactory := mk_factory {
  curr_bundle : SizedBundle;
  finished : list SizedBundle;
  finished_queue_capacity : Z }.

Section bundles.
Context `{Signing, EncodedLen}.

Definition encoded_len (action : RollupDataSubmission) : Z := message_len (to_raw action).
Definition with_ibc_prefixed (action : RollupDataSubmission) : RollupDataSubmission :=
  mk_submission (rds_rollup_id action) (rds_data action) (Denom_IbcPrefixed (to_ibc_prefixed (rds_fee_asset action))).

(** ** [SizedBundle] *)
Definition bundle_new (max_size : Z) : SizedBundle := mk_bundle [] 0 max_size ∅.
Definition to_transaction_body (b : SizedBundle) (nonce : Z) (chain_id : string) : run TransactionBody :=
  match body_try_build (with_nonce (with_chain_id (with_actions builder_new (buffer b)) chain_id) nonce) with
  | Ok body => Val body
  | Err _ => Panic
  end.
Definition count_rollup (id : RollupId) (m : gmap RollupId Z) : gmap RollupId Z :=
  <[id := match m !! id with Some count => saturating_add 64 count 1 | None => 1 end]> m.
Definition bundle_try_push (seq_action : RollupDataSubmission) (b : SizedBundle)
    : result SizedBundleError SizedBundle :=
  let seq_action_size := encoded_len seq_action in
  if bundle_max_size b <? seq_action_size then Err (SequenceActionTooLarge seq_action)
  else
    let new_size := saturating_add 64 (curr_size b) seq_action_size in
    if bundle_max_size b <? new_size then Err (NotEnoughSpace seq_action)
    else Ok (mk_bundle (buffer b ++ [Action_RollupDataSubmission seq_action])%list new_size (bundle_max_size b)
               (count_rollup (rds_rollup_id seq_action) (rollup_counts b))).
(** [flush]: the old bundle and the new one *)
Definition flush (b : SizedBundle) : SizedBundle * SizedBundle := (b, bundle_new (bundle_max_size b)).
Definition actions_count (b : SizedBundle) : Z := Z.of_nat (List.length (buffer b)).
Definition bundle_is_empty (b : SizedBundle) : bool := match buffer b with [] => true | _ => false end.

(** ** [BundleFactory] *)
Definition factory_new (max_bytes_per_bundle capacity : Z) : BundleFactory :=
  mk_factory (bundle_new max_bytes_per_bundle) [] capacity.
Definition is_full (f : BundleFactory) : bool :=
  finished_queue_capacity f <=? Z.of_nat (List.length (finished f)).
Definition factory_try_push (action : RollupDataSubmission) (f : BundleFactory)
    : run (result BundleFactoryError BundleFactory) :=
  let seq_action := with_ibc_prefixed action in
  let seq_action_size := encoded_len seq_action in
  match bundle_try_push seq_action (curr_bundle f) with
  | Err (SequenceActionTooLarge _) =>
      Val (Err (BundleFactoryError_SequenceActionTooLarge seq_action_size (bundle_max_size (curr_bundle f))))
  | Err (NotEnoughSpace seq_action) =>
      if is_full f then
        Val (Err (BundleFactoryError_FinishedQueueFull
          (mk_queue_full (curr_size (curr_bundle f)) (finished_queue_capacity f) seq_action_size seq_action)))
      else
        let '(old, new) := flush (curr_bundle f) in
        match bundle_try_push seq_action new with
        | Ok b => Val (Ok (mk_factory b (finished f ++ [old])%list (finished_queue_capacity f)))
        | Err _ => Panic
        end
  | Ok b => Val (Ok (mk_factory b (finished f) (finished_queue_capacity f)))
  end.
(** [next_finished] and [NextFinishedBundle::pop] *)
Definition next_finished (f : BundleFactory) : option (SizedBundle * BundleFactory) :=
  match finished f with
  | [] => None
  | b :: rest => Some (b, mk_factory (curr_bundle f) rest (finished_queue_capacity f))
  end.
Definition pop_now (f : BundleFactory) : SizedBundle * BundleFactory :=
  match finished f with
  | b :: rest => (b, mk_factory (curr_bundle f) rest (finished_queue_capacity f))
  | [] =>
      let '(old, new) := flush (curr_bundle f) in
      (old, mk_factory new [] (finished_queue_capacity f))
  end.
End bundles.

(** ** The factory is a queue of submissions *)
Section laws.
Context `{Signing, EncodedLen, !EncodedLenLaws}.
Variables max capacity : Z.
Hypothesis Hmax : 0 <= max < umax 64.
Definition as_action (a : RollupDataSubmission) : Action := Action_RollupDataSubmission (with_ibc_prefixed a).
Definition fits (a : RollupDataSubmission) : bool := encoded_len (with_ibc_prefixed a) <=? max.
Definition total_len (l : list RollupDataSubmission) : Z := foldr (fun a n => encoded_len (with_ibc_prefixed a) + n) 0 l.
Definition of_rollup (id : RollupId) (l : list RollupDataSubmission) : Z :=
  Z.of_nat (List.length (filter (fun a => rds_rollup_id a = id) l)).

(** A bundle with the submissions [l]: its size is their encoded length, within the
    limit, and it counts them by rollup. *)
Record bundle_of (l : list RollupDataSubmission) (b : SizedBundle) : Prop := {
  bundle_buffer : buffer b = map as_action l;
  bundle_size : curr_size b = total_len l;
  bundle_limit : bundle_max_size b = max;
  bundle_within : curr_size b <= max;
  bundle_counts id : default 0 (rollup_counts b !! id) = Z.min (of_rollup id l) (umax 64) }.
(** A factory with the submissions [q] in its queue and [l] in the current bundle *)
Record factory_of (q : list (list RollupDataSubmission)) (l : list RollupDataSubmission) (f : BundleFactory) : Prop := {
  factory_finished : Forall2 bundle_of q (finished f);
  factory_nonempty : Forall (fun l => l <> []) q;
  factory_current : bundle_of l (curr_bundle f);
  factory_capacity : finished_queue_capacity f = capacity;
  factory_length : Z.of_nat (List.length q) <= capacity }.

Lemma encoded_nonneg a : 0 <= encoded_len a.
Proof. apply message_len_nonneg. Qed.
Lemma total_cons a l : total_len (a :: l) = encoded_len (with_ibc_prefixed a) + total_len l.
Proof. done. Qed.
Lemma total_nonneg l : 0 <= total_len l.
Proof. induction l as [|a l IH]; [done|]. rewrite total_cons. pose proof (encoded_nonneg (with_ibc_prefixed a)). lia. Qed.
Lemma total_snoc l a : total_len (l ++ [a]) = total_len l + encoded_len (with_ibc_prefixed a).
Proof. induction l as [|b l IH]; cbn [app]; rewrite ?total_cons; [unfold total_len at 2; cbn; lia|lia]. Qed.
Lemma of_rollup_snoc id l a : of_rollup id (l ++ [a]) = of_rollup id l + (if decide (rds_rollup_id a = id) then 1 else 0).
Proof. unfold of_rollup. rewrite list.filter_app, filter_cons, filter_nil, length_app. case_decide; cbn [List.length]; lia. Qed.
Lemma bundle_new_of : bundle_of [] (bundle_new max).
Proof. split; try done. cbn. lia. Qed.
Lemma push_fits l b a :
  bundle_of l b -> curr_size b + encoded_len (with_ibc_prefixed a) <= max ->
  exists b', bundle_try_push (with_ibc_prefixed a) b = Ok b' /\ bundle_of (l ++ [a]) b'.
Proof.
  intros [Hb Hs Hl Hw Hc] Hle. pose proof (total_nonneg l) as Ht. pose proof (encoded_nonneg (with_ibc_prefixed a)) as Ha.
  unfold bundle_try_push. rewrite Hl.
  rewrite (proj2 (Z.ltb_ge max (encoded_len (with_ibc_prefixed a)))) by lia.
  assert (saturating_add 64 (curr_size b) (encoded_len (with_ibc_prefixed a)) = curr_size b + encoded_len (with_ibc_prefixed a)) as ->
    by (unfold saturating_add; lia).
  rewrite (proj2 (Z.ltb_ge max _)) by lia. eexists. split; [done|].
  split; cbn; [by rewrite Hb, map_app|by rewrite Hs, total_snoc|done|done|].
  intros id. unfold count_rollup. rewrite of_rollup_snoc. specialize (Hc id).
  change (rds_rollup_id (with_ibc_prefixed a)) with (rds_rollup_id a).
  destruct (decide (rds_rollup_id a = id)) as [->|Hne].
  - rewrite lookup_insert_eq. cbn. assert (0 <= of_rollup id l) by (unfold of_rollup; lia).
    destruct (rollup_counts b !! id) as [n|]; cbn in Hc; unfold saturating_add; lia.
  - rewrite lookup_insert_ne by done. by rewrite Z.add_0_r.
Qed.
Lemma push_no_space l b a :
  bundle_of l b -> encoded_len (with_ibc_prefixed a) <= max -> max < curr_size b + encoded_len (with_ibc_prefixed a) ->
  bundle_try_push (with_ibc_prefixed a) b = Err (NotEnoughSpace (with_ibc_prefixed a)) /\ l <> [].
Proof.
  intros [Hb Hs Hl Hw Hc] Hle Hlt. unfold bundle_try_push. rewrite Hl.
  rewrite (proj2 (Z.ltb_ge max (encoded_len (with_ibc_prefixed a)))) by lia.
  rewrite (proj2 (Z.ltb_lt max _)) by (unfold saturating_add; lia). split; [done|]. intros ->. cbn in Hs. lia.
Qed.
Lemma push_too_large l b a :
  bundle_of l b -> max < encoded_len (with_ibc_prefixed a) ->
  bundle_try_push (with_ibc_prefixed a) b = Err (SequenceActionTooLarge (with_ibc_prefixed a)).
Proof. intros [Hb Hs Hl Hw Hc] Hlt. unfold bundle_try_push. rewrite Hl. by rewrite (proj2 (Z.ltb_lt max _)). Qed.

(** What [try_push] does to a factory: it takes the submission to the end of what it
    holds, or changes nothing, because the submission is too large, or because
    there is no room for another bundle. *)
Inductive pushed (q : list (list RollupDataSubmission)) (l : list RollupDataSubmission) (f : BundleFactory)
    (a : RollupDataSubmission) : result BundleFactoryError BundleFactory -> Prop :=
| pushed_current f' : fits a = true -> factory_of q (l ++ [a]) f' -> pushed q l f a (Ok f')
| pushed_new f' : fits a = true -> is_full f = false -> factory_of (q ++ [l]) [a] f' -> pushed q l f a (Ok f')
| pushed_too_large size : fits a = false -> pushed q l f a (Err (BundleFactoryError_SequenceActionTooLarge size max))
| pushed_full e : fits a = true -> is_full f = true -> max < total_len l + encoded_len (with_ibc_prefixed a) ->
    pushed q l f a (Err (BundleFactoryError_FinishedQueueFull e)).
Lemma factory_push q l f a :
  factory_of q l f -> exists r, factory_try_push a f = Val r /\ pushed q l f a r.
Proof.
  intros [Hq Hne Hl Hc Hlen]. unfold factory_try_push. pose proof (bundle_size _ _ Hl) as Hs. pose proof (bundle_within _ _ Hl) as Hw.
  destruct (Z.leb_spec (encoded_len (with_ibc_prefixed a)) max) as [Hle|Hgt].
  2: { rewrite (push_too_large l) by done. eexists. split; [done|]. rewrite (bundle_limit _ _ Hl).
       apply pushed_too_large. unfold fits. by apply Z.leb_gt. }
  assert (fits a = true) as Hfit by (unfold fits; by apply Z.leb_le).
  destruct (Z.leb_spec (curr_size (curr_bundle f) + encoded_len (with_ibc_prefixed a)) max) as [Hroom|Hroom].
  - destruct (push_fits l _ a Hl Hroom) as (b & -> & Hb). eexists. split; [done|]. by apply pushed_current.
  - destruct (push_no_space l _ a Hl Hle Hroom) as [-> Hnil]. destruct (is_full f) eqn:Ef.
    + eexists. split; [done|]. apply pushed_full; [done..|lia].
    + cbn [flush]. rewrite (bundle_limit _ _ Hl).
      destruct (push_fits [] (bundle_new max) a bundle_new_of) as (b & -> & Hb); [cbn; lia|].
      eexists. split; [done|]. apply pushed_new; [done..|]. split; cbn.
      * apply Forall2_app; [done|]. by constructor.
      * apply Forall_app. split; [done|by constructor].
      * done.
      * done.
      * unfold is_full in Ef. rewrite Hc in Ef. apply Z.leb_gt in Ef. apply Forall2_length in Hq.
        rewrite length_app. cbn. lia.
Qed.
Lemma factory_new_of : 0 <= capacity -> factory_of [] [] (factory_new max capacity).
Proof. intros Hcap. split; [constructor|constructor|exact bundle_new_of|done|done]. Qed.
Lemma next_finished_of q l f :
  factory_of q l f ->
  match next_finished f with
  | Some (b, f') => exists l1 q', q = l1 :: q' /\ bundle_of l1 b /\ l1 <> [] /\ factory_of q' l f'
  | None => q = []
  end.
Proof.
  intros [Hq Hne Hl Hc Hlen]. unfold next_finished. destruct Hq as [|l1 b q' rest Hb Hq]; [done|].
  apply list.Forall_cons in Hne as [Hn1 Hne]. exists l1, q'. split_and!; try done. split; cbn in *; try done. lia.
Qed.
Lemma pop_now_of q l f :
  factory_of q l f ->
  let '(b, f') := pop_now f in
  match q with
  | l1 :: q' => bundle_of l1 b /\ l1 <> [] /\ factory_of q' l f'
  | [] => bundle_of l b /\ factory_of [] [] f'
  end.
Proof.
  intros [Hq Hne Hl Hc Hlen]. unfold pop_now. destruct Hq as [|l1 b q' rest Hb Hq]; cbn.
  - split; [done|]. rewrite (bundle_limit _ _ Hl). split; [constructor|constructor|exact bundle_new_of|done|done].
  - apply list.Forall_cons in Hne as [Hn1 Hne]. split_and!; try done. split; cbn in *; try done. lia.
Qed.
(** A bundle that is not empty is the body of a transaction. *)
Lemma body_of l b n c :
  bundle_of l b -> l <> [] ->
  to_transaction_body b n c = Val (mk_body (mk_actions BundleableGeneral (map as_action l)) (mk_params n c)).
Proof.
  intros Hb Hl. unfold to_transaction_body, body_try_build. cbn. rewrite (bundle_buffer _ _ Hb).
  destruct l as [|a l]; [done|]. cbn. rewrite andb_false_r.
  assert (same_group BundleableGeneral (map as_action l) = Ok tt) as ->; [|done].
  apply same_group_ok. by apply Forall_fmap, Forall_true.
Qed.
Lemma empty_bundle l b : bundle_of l b -> bundle_is_empty b = true <-> l = [].
Proof. intros Hb. unfold bundle_is_empty. rewrite (bundle_buffer _ _ Hb). by destruct l. Qed.
End laws.

(** * The executor *)
(** The codes that [SubmitFut] tells from others *)
Definition INVALID_NONCE_CODE : Z := 4.
Definition NONCE_TAKEN_CODE : Z := 15.
(** [tryhard::RetryFutureConfig::new(1024)] *)
Definition RETRIES : nat := 1024.

(** The sequencer: the code a broadcast transaction is answered with, the pending
    nonce of the composer's account, and what else happens there. *)
Class Sequencer := {
  SequencerState : Type;
  broadcast_tx : string -> SequencerState -> Z * SequencerState;
  pending_nonce_of : SequencerState -> Z;
  sequencer_moves : SequencerState -> SequencerState -> Prop }.

(** [SubmitState]; both requests have retries left. *)
Inductive SubmitState :=
| WaitingForSend (tx_bytes : string) (retries : nat)
| WaitingForNonce (retries : nat).
Record SubmitFut := mk_submit { fut_nonce : Z; fut_state : SubmitState; fut_bundle : SizedBundle }.

Section executor.
Context `{Signing, EncodedLen}.
Variables sequencer_key sequencer_chain_id : string.

(** ** The future of a submission *)
Definition sign_bundle (nonce : Z) (bundle : SizedBundle) : run string :=
  body ← to_transaction_body bundle nonce sequencer_chain_id;
  Val (encode_transaction (to_raw (sign body sequencer_key))).
(** From [NotStarted], or with a new nonce, to [WaitingForSend] *)
Definition send_bundle (nonce : Z) (bundle : SizedBundle) : run SubmitFut :=
  tx_bytes ← sign_bundle nonce bundle; Val (mk_submit nonce (WaitingForSend tx_bytes RETRIES) bundle).
(** The answer of the sequencer: the future goes on, or is ready with a nonce. *)
Definition on_response (code : Z) (f : SubmitFut) : run (SubmitFut + Z) :=
  if code =? 0 then next ← unwrap (checked_add 32 (fut_nonce f) 1); Val (inr next)
  else if (code =? INVALID_NONCE_CODE) || (code =? NONCE_TAKEN_CODE) then
    Val (inl (mk_submit (fut_nonce f) (WaitingForNonce RETRIES) (fut_bundle f)))
  else Val (inr (fut_nonce f)).
(** An attempt that failed: the request is tried again, or the future fails. *)
Definition on_failure (f : SubmitFut) : option SubmitFut :=
  match fut_state f with
  | WaitingForSend tx (S n) => Some (mk_submit (fut_nonce f) (WaitingForSend tx n) (fut_bundle f))
  | WaitingForNonce (S n) => Some (mk_submit (fut_nonce f) (WaitingForNonce n) (fut_bundle f))
  | _ => None
  end.

(** ** [Executor] *)
(** How it ended: a submission failed while it ran, or during the shutdown, the
    shutdown took too long, or everything was sent. *)
Inductive Exit := SubmissionFailed | ShutdownFailed | ShutdownTimedOut | Drained.
Inductive Phase :=
| Running
| Draining (bundles_to_drain : list SizedBundle)
| Stopped (how : Exit).
Record Executor := mk_executor {
  exec_nonce : Z;
  submission_fut : option SubmitFut;
  serialized_rollup_transactions : list RollupDataSubmission;
  bundle_factory : BundleFactory;
  phase : Phase }.
Definition set_submission (o : option SubmitFut) (e : Executor) : Executor :=
  mk_executor (exec_nonce e) o (serialized_rollup_transactions e) (bundle_factory e) (phase e).
Definition set_nonce (n : Z) (e : Executor) : Executor :=
  mk_executor n (submission_fut e) (serialized_rollup_transactions e) (bundle_factory e) (phase e).
Definition set_channel (l : list RollupDataSubmission) (e : Executor) : Executor :=
  mk_executor (exec_nonce e) (submission_fut e) l (bundle_factory e) (phase e).
Definition set_factory (f : BundleFactory) (e : Executor) : Executor :=
  mk_executor (exec_nonce e) (submission_fut e) (serialized_rollup_transactions e) f (phase e).
Definition set_phase (p : Phase) (e : Executor) : Executor :=
  mk_executor (exec_nonce e) (submission_fut e) (serialized_rollup_transactions e) (bundle_factory e) p.

Definition executor_new (nonce max_bytes_per_bundle bundle_queue_capacity : Z) : Executor :=
  mk_executor nonce None [] (factory_new max_bytes_per_bundle bundle_queue_capacity) Running.
(** [bundle_seq_action]: an action that cannot be bundled is dropped. *)
Definition bundle_seq_action (seq_action : RollupDataSubmission) (f : BundleFactory) : run BundleFactory :=
  r ← factory_try_push seq_action f; Val (match r with Ok f => f | Err _ => f end).
Definition submit_bundle (b : SizedBundle) (e : Executor) : run Executor :=
  fut ← send_bundle (exec_nonce e) b; Val (set_submission (Some fut) e).
(** What the event loop does with a bundle that it takes out of the factory *)
Definition submit_popped (b : SizedBundle) (e : Executor) : run Executor :=
  if bundle_is_empty b then Val e else submit_bundle b e.

(** The shutdown: the channel is emptied into the factory, and the factory into a
    queue of bundles. *)
Fixpoint drain_channel (l : list RollupDataSubmission) (f : BundleFactory) : run BundleFactory :=
  match l with
  | [] => Val f
  | a :: l => f ← bundle_seq_action a f; drain_channel l f
  end.
Fixpoint drain_bundles (fuel : nat) (f : BundleFactory) : run (list SizedBundle * BundleFactory) :=
  match fuel with
  | O => NoFuel
  | S fuel =>
      let '(b, f) := pop_now f in
      if bundle_is_empty b then Val ([], f)
      else '(l, f) ← drain_bundles fuel f; Val (b :: l, f)
  end.
(** Every bundle of the queue, the current one, and the empty one that ends the loop *)
Definition drain_fuel (f : BundleFactory) : nat := S (S (List.length (finished f))).
Definition begin_shutdown (e : Executor) : run Executor :=
  f ← drain_channel (serialized_rollup_transactions e) (bundle_factory e);
  '(bundles, f) ← drain_bundles (drain_fuel f) f;
  Val (set_phase (Draining bundles) (set_factory f (set_channel [] e))).

(** ** The executor and its environment *)
Record History := mk_history {
  received : list RollupDataSubmission;
  submitted : list SizedBundle;
  (** what the channel held when the shutdown began *)
  drained : list RollupDataSubmission }.
Context `{Sequencer}.
Record System := mk_system { executor : Executor; sequencer : SequencerState; history : History }.
Definition running (e : Executor) : Prop := phase e = Running.
Definition active (e : Executor) : Prop := match phase e with Stopped _ => False | _ => True end.
Definition failed_in (p : Phase) : Exit := match p with Running => SubmissionFailed | _ => ShutdownFailed end.
Definition log_received (a : RollupDataSubmission) (h : History) : History :=
  mk_history (received h ++ [a]) (submitted h) (drained h).
Definition log_submitted (b : SizedBundle) (h : History) : History :=
  mk_history (received h) (submitted h ++ [b]) (drained h).
Definition log_drained (l : list RollupDataSubmission) (h : History) : History :=
  mk_history (received h) (submitted h) l.
(** The future is ready: the nonce is the next one, or the executor stops. *)
Definition submission_done (fut : SubmitFut) (nonce : Z) (e : Executor) (h : History) : Executor * History :=
  (set_nonce nonce (set_submission None e), log_submitted (fut_bundle fut) h).

Inductive composer_step : System -> System -> Prop :=
(** A collector sends an action. *)
| step_collect a e s h :
    running e ->
    composer_step (mk_system e s h) (mk_system (set_channel (serialized_rollup_transactions e ++ [a]) e) s h)
| step_sequencer e s s' h : sequencer_moves s s' -> composer_step (mk_system e s h) (mk_system e s' h)
(** [Some(next_bundle) = next_finished(), if submission_fut.is_terminated()] *)
| step_next_finished e s h b f e' :
    running e -> submission_fut e = None -> next_finished (bundle_factory e) = Some (b, f) ->
    submit_popped b (set_factory f e) = Val e' ->
    composer_step (mk_system e s h) (mk_system e' s h)
(** [Some(seq_action) = recv(), if !bundle_factory.is_full()] *)
| step_receive e s h a l f :
    running e -> serialized_rollup_transactions e = a :: l -> is_full (bundle_factory e) = false ->
    bundle_seq_action a (bundle_factory e) = Val f ->
    composer_step (mk_system e s h) (mk_system (set_factory f (set_channel l e)) s (log_received a h))
(** [() = block_timer, if submission_fut.is_terminated()] *)
| step_timer e s h e' :
    running e -> submission_fut e = None ->
    (let '(b, f) := pop_now (bundle_factory e) in submit_popped b (set_factory f e)) = Val e' ->
    composer_step (mk_system e s h) (mk_system e' s h)
(** The request of the future: it is answered, or fails, maybe after it arrived. *)
| step_answered e s h fut tx n code s' fut' :
    active e -> submission_fut e = Some fut -> fut_state fut = WaitingForSend tx n ->
    broadcast_tx tx s = (code, s') -> on_response code fut = Val (inl fut') ->
    composer_step (mk_system e s h) (mk_system (set_submission (Some fut') e) s' h)
| step_ready e s h fut tx n code s' nonce :
    active e -> submission_fut e = Some fut -> fut_state fut = WaitingForSend tx n ->
    broadcast_tx tx s = (code, s') -> on_response code fut = Val (inr nonce) ->
    composer_step (mk_system e s h)
      (mk_system (submission_done fut nonce e h).1 s' (submission_done fut nonce e h).2)
| step_nonce e s h fut n fut' :
    active e -> submission_fut e = Some fut -> fut_state fut = WaitingForNonce n ->
    send_bundle (pending_nonce_of s) (fut_bundle fut) = Val fut' ->
    composer_step (mk_system e s h) (mk_system (set_submission (Some fut') e) s h)
| step_failed e s h fut fut' s' :
    active e -> submission_fut e = Some fut -> on_failure fut = Some fut' ->
    (s' = s \/ exists tx n, fut_state fut = WaitingForSend tx n /\ s' = (broadcast_tx tx s).2) ->
    composer_step (mk_system e s h) (mk_system (set_submission (Some fut') e) s' h)
| step_gave_up e s h fut s' :
    active e -> submission_fut e = Some fut -> on_failure fut = None ->
    (s' = s \/ exists tx n, fut_state fut = WaitingForSend tx n /\ s' = (broadcast_tx tx s).2) ->
    composer_step (mk_system e s h) (mk_system (set_phase (Stopped (failed_in (phase e))) (set_submission None e)) s' h)
(** Shutdown *)
| step_shutdown e s h e' :
    running e -> begin_shutdown e = Val e' ->
    composer_step (mk_system e s h) (mk_system e' s (log_drained (serialized_rollup_transactions e) h))
| step_drain e s h b l e' :
    phase e = Draining (b :: l) -> submission_fut e = None -> submit_bundle b (set_phase (Draining l) e) = Val e' ->
    composer_step (mk_system e s h) (mk_system e' s h)
| step_drained e s h :
    phase e = Draining [] -> submission_fut e = None ->
    composer_step (mk_system e s h) (mk_system (set_phase (Stopped Drained) e) s h)
| step_timeout e s h l :
    phase e = Draining l -> composer_step (mk_system e s h) (mk_system (set_phase (Stopped ShutdownTimedOut) e) s h).
End executor.

(** ** What the executor carries *)
Section invariant.
Context `{Signing, EncodedLen, !EncodedLenLaws, Sequencer}.
Variables sequencer_key sequencer_chain_id : string.
Variables max capacity : Z.
Hypothesis Hmax : 0 <= max < umax 64.
Abbreviation fits := (fits max).
Abbreviation bundle_of := (bundle_of max).
Abbreviation sign_bundle := (sign_bundle sequencer_key sequencer_chain_id).
Abbreviation step := (composer_step sequencer_key sequencer_chain_id).

Definition nonempty (l : list RollupDataSubmission) : Prop := l <> [].
Definition fut_ok (l : list RollupDataSubmission) (fut : SubmitFut) : Prop :=
  bundle_of l (fut_bundle fut) /\ nonempty l /\
  match fut_state fut with
  | WaitingForSend tx _ => sign_bundle (fut_nonce fut) (fut_bundle fut) = Val tx
  | WaitingForNonce _ => True
  end.
Definition flight_ok (l : list RollupDataSubmission) (o : option SubmitFut) : Prop :=
  match o with Some fut => fut_ok l fut | None => l = [] end.
Definition waiting_ok (w : list RollupDataSubmission) (e : Executor) : Prop :=
  match phase e with
  | Running => exists q l, factory_of max capacity q l (bundle_factory e) /\ w = (List.concat q ++ l)%list
  | Draining bundles => exists q, Forall2 bundle_of q bundles /\ Forall nonempty q /\ w = List.concat q
  | Stopped Drained => w = []
  | Stopped _ => True
  end.
(** What came off the channel before the shutdown and [rest], what the shutdown took
    of it *)
Definition rest_ok (rest : list RollupDataSubmission) (p : Phase) (h : History) : Prop :=
  match p with
  | Running | Stopped SubmissionFailed => rest = []
  | Draining _ | Stopped _ => rest `sublist_of` filter fits (drained h)
  end.
Definition in_order (carried : list RollupDataSubmission) (p : Phase) (h : History) : Prop :=
  exists rest, carried = (filter fits (received h) ++ rest)%list /\ rest_ok rest p h.
Record carries (d : list (list RollupDataSubmission)) (l w : list RollupDataSubmission) (y : System) : Prop := {
  carries_done : Forall2 bundle_of d (submitted (history y));
  carries_nonempty : Forall nonempty d;
  carries_flight : flight_ok l (submission_fut (executor y));
  carries_waiting : waiting_ok w (executor y);
  carries_order : in_order (List.concat d ++ l ++ w) (phase (executor y)) (history y) }.
Definition system_ok (y : System) : Prop := exists d l w, carries d l w y.

Lemma send_ok l n b : bundle_of l b -> nonempty l ->
  exists fut, send_bundle sequencer_key sequencer_chain_id n b = Val fut /\ fut_ok l fut.
Proof.
  intros Hb Hl. unfold send_bundle. destruct (sign_bundle n b) as [tx| |] eqn:E.
  - eexists. split; [done|]. by split.
  - unfold Composer.sign_bundle in E. by rewrite (body_of max l b n _ Hb Hl) in E.
  - unfold Composer.sign_bundle in E. by rewrite (body_of max l b n _ Hb Hl) in E.
Qed.
Lemma submitted_ok l b e :
  bundle_of l b -> nonempty l ->
  exists e', submit_bundle sequencer_key sequencer_chain_id b e = Val e' /\ flight_ok l (submission_fut e') /\
    bundle_factory e' = bundle_factory e /\ phase e' = phase e.
Proof.
  intros Hb Hl. unfold submit_bundle. destruct (send_ok l (exec_nonce e) b Hb Hl) as (fut & -> & Hf).
  eexists. split; [done|]. by split.
Qed.
(** Taking a bundle out of what waits moves its submissions into the flight. *)
Lemma popped_ok l b e :
  bundle_of l b -> submission_fut e = None ->
  exists e', submit_popped sequencer_key sequencer_chain_id b e = Val e' /\ flight_ok l (submission_fut e') /\
    bundle_factory e' = bundle_factory e /\ phase e' = phase e.
Proof.
  intros Hb Hn. unfold submit_popped. pose proof (empty_bundle max l b Hb) as He.
  destruct (bundle_is_empty b); [|apply submitted_ok; [done|intros Hl; by apply He in Hl]].
  exists e. split; [done|]. rewrite Hn. split; [by apply He|done].
Qed.
Lemma bundled_ok q l f a :
  factory_of max capacity q l f ->
  exists f' q' l', bundle_seq_action a f = Val f' /\ factory_of max capacity q' l' f' /\
    ((List.concat q' ++ l' = (List.concat q ++ l) ++ filter fits [a])%list \/
     (List.concat q' ++ l' = List.concat q ++ l)%list /\ is_full f = true).
Proof.
  intros Hf. destruct (factory_push max capacity Hmax q l f a Hf) as (r & E & Hr). unfold bundle_seq_action. rewrite E.
  cbn [mbind run_bind]. rewrite filter_cons, filter_nil.
  destruct Hr as [f' Hfit Hf'|f' Hfit Hfull Hf'|size Hfit|e Hfit Hfull _]; rewrite Hfit.
  - exists f', q, (l ++ [a])%list. split; [done|]. split; [done|]. left. by rewrite app_assoc.
  - exists f', (q ++ [l])%list, [a]. split; [done|]. split; [done|]. left. by rewrite List.concat_app; cbn; rewrite app_nil_r.
  - exists f, q, l. split; [done|]. split; [done|]. left. by rewrite app_nil_r.
  - exists f, q, l. split; [done|]. split; [done|]. by right.
Qed.
Lemma drain_channel_ok c : forall q l f,
  factory_of max capacity q l f ->
  exists f' q' l' rest, drain_channel c f = Val f' /\ factory_of max capacity q' l' f' /\
    (List.concat q' ++ l' = (List.concat q ++ l) ++ rest)%list /\ rest `sublist_of` filter fits c.
Proof.
  induction c as [|a c IH]; intros q l f Hf; cbn [drain_channel].
  - exists f, q, l, []. rewrite app_nil_r. split_and!; [done..|constructor].
  - destruct (bundled_ok q l f a Hf) as (f1 & q1 & l1 & -> & Hf1 & Hc). cbn [mbind run_bind].
    destruct (IH q1 l1 f1 Hf1) as (f2 & q2 & l2 & rest & E & Hf2 & Hr & Hsub).
    change (a :: c) with ([a] ++ c)%list. rewrite list.filter_app.
    destruct Hc as [Hc|[Hc _]]; [exists f2, q2, l2, (filter fits [a] ++ rest)%list|exists f2, q2, l2, rest];
      (split; [exact E|split; [exact Hf2|split; [rewrite Hr, Hc; by rewrite ?app_assoc|]]]);
      [by apply sublist_app|by apply sublist_inserts_l].
Qed.
Lemma drain_bundles_ok q : forall l f,
  factory_of max capacity q l f ->
  exists q' bundles f', drain_bundles (S (S (List.length q))) f = Val (bundles, f') /\
    Forall2 bundle_of q' bundles /\ Forall nonempty q' /\ List.concat q' = (List.concat q ++ l)%list.
Proof.
  assert (forall f, factory_of max capacity [] [] f -> forall n, exists f', drain_bundles (S n) f = Val ([], f')) as Hempty.
  { intros f Hf n. pose proof (pop_now_of max capacity Hmax [] [] f Hf) as Hp. cbn [drain_bundles].
    destruct (pop_now f) as [b f']. destruct Hp as [Hb _]. rewrite (proj2 (empty_bundle max [] b Hb)) by done. by exists f'. }
  induction q as [|l1 q IH]; intros l f Hf; pose proof (pop_now_of max capacity Hmax _ _ f Hf) as Hp.
  - cbn [drain_bundles]. cbn [List.length]. destruct (pop_now f) as [b f1]. destruct Hp as [Hb Hf1].
    pose proof (empty_bundle max l b Hb) as He. destruct (bundle_is_empty b).
    + exists [], [], f1. split; [done|]. split; [constructor|]. split; [constructor|]. symmetry. by apply He.
    + destruct (Hempty f1 Hf1 0%nat) as [f2 E2]. cbn [drain_bundles] in E2 |- *. rewrite E2.
      exists [l], [b], f2. split; [done|]. split; [by constructor|]. split; [|by cbn; rewrite app_nil_r].
      constructor; [|constructor]. intros Hl. by apply He in Hl.
  - change (List.length (l1 :: q)) with (S (List.length q)). remember (S (S (List.length q))) as n. cbn [drain_bundles].
    destruct (pop_now f) as [b f1]. destruct Hp as (Hb & Hl1 & Hf1).
    destruct (IH l f1 Hf1) as (q' & bundles & f2 & E & Hq & Hn & Hc). rewrite E.
    pose proof (empty_bundle max l1 b Hb) as He. destruct (bundle_is_empty b); [by destruct Hl1; apply He|].
    exists (l1 :: q'), (b :: bundles), f2. split; [done|]. split; [by constructor|]. split; [by constructor|].
    cbn. by rewrite Hc, app_assoc.
Qed.
Lemma shutdown_ok w e :
  running e -> waiting_ok w e ->
  exists e' rest, begin_shutdown e = Val e' /\ waiting_ok (w ++ rest) e' /\ submission_fut e' = submission_fut e /\
    (exists bundles, phase e' = Draining bundles) /\ rest `sublist_of` filter fits (serialized_rollup_transactions e).
Proof.
  unfold running, waiting_ok, begin_shutdown. intros -> (q & l & Hf & ->).
  destruct (drain_channel_ok (serialized_rollup_transactions e) q l _ Hf) as (f1 & q1 & l1 & rest & -> & Hf1 & Hr & Hsub).
  cbn [mbind run_bind]. unfold drain_fuel. rewrite <- (Forall2_length _ _ _ (factory_finished _ _ _ _ _ Hf1)).
  destruct (drain_bundles_ok q1 l1 f1 Hf1) as (q' & bundles & f2 & -> & Hq & Hn & Hc). cbn [mbind run_bind].
  eexists _, rest. split; [done|]. split; [|split; [done|split; [by exists bundles|done]]]. cbn. exists q'. rewrite Hc. by split_and!.
Qed.

Lemma on_failure_ok l fut fut' : on_failure fut = Some fut' -> fut_ok l fut -> fut_ok l fut'.
Proof.
  unfold on_failure. intros E (Hb & Hn & Ht). destruct (fut_state fut) as [tx [|n]|[|n]] eqn:Es; simplify_eq; by split_and!.
Qed.
Lemma on_response_ok l code fut fut' : on_response code fut = Val (inl fut') -> fut_ok l fut -> fut_ok l fut'.
Proof.
  unfold on_response. intros E (Hb & Hn & Ht). destruct (code =? 0); [by destruct (checked_add 32 _ 1)|].
  destruct (_ || _); simplify_eq. by split_and!.
Qed.
Lemma filter_snoc (l : list RollupDataSubmission) a : filter fits (l ++ [a])%list = (filter fits l ++ filter fits [a])%list.
Proof. apply list.filter_app. Qed.
(** The cases of a step *)
Lemma ready_ok d l w e s h fut s' nonce :
  carries d l w (mk_system e s h) -> submission_fut e = Some fut ->
  system_ok (mk_system (submission_done fut nonce e h).1 s' (submission_done fut nonce e h).2).
Proof.
  intros [Hd Hn Hf Hw Ho] Hs. cbn in *. rewrite Hs in Hf. destruct Hf as (Hb & Hl & _).
  exists (d ++ [l])%list, [], w. split; cbn.
  - apply Forall2_app; [done|]. by constructor.
  - apply Forall_app. split; [done|]. by constructor.
  - done.
  - exact Hw.
  - rewrite List.concat_app. cbn. rewrite app_nil_r, <- app_assoc. exact Ho.
Qed.
Lemma flight_change_ok d l w e s h fut fut' s' :
  carries d l w (mk_system e s h) -> submission_fut e = Some fut -> (fut_ok l fut -> fut_ok l fut') ->
  system_ok (mk_system (set_submission (Some fut') e) s' h).
Proof.
  intros [Hd Hn Hf Hw Ho] Hs Hk. cbn in *. rewrite Hs in Hf. exists d, l, w. split; cbn; [done|done|by apply Hk|exact Hw|exact Ho].
Qed.
Lemma step_ok y y' : step y y' -> system_ok y -> system_ok y'.
Proof.
  intros Hstep (d & l & w & Hc). pose proof Hc as [Hd Hn Hf Hw Ho].
  destruct Hstep as [a e s h Hr|e s s' h _|e s h b f e' Hr Hs Hb He|e s h a c f Hr Hch Hfull Hb|e s h e' Hr Hs He
    |e s h fut tx n code s' fut' _ Hs Ht Hb He|e s h fut tx n code s' nonce _ Hs Ht Hb He|e s h fut n fut' _ Hs Ht He
    |e s h fut fut' s' _ Hs He _|e s h fut s' Hact Hs He _|e s h e' Hr He|e s h b bs e' Hr Hs He|e s h Hr Hs|e s h bs Hr];
    cbn in Hd, Hf, Hw, Ho.
  - exists d, l, w. by split.
  - exists d, l, w. by split.
  - unfold running in Hr. unfold waiting_ok in Hw. rewrite Hr in Hw, Ho. destruct Hw as (q & c & Hq & ->).
    rewrite Hs in Hf. cbn in Hf. subst l. pose proof (next_finished_of max capacity q c _ Hq) as Hp. rewrite Hb in Hp.
    destruct Hp as (l1 & q' & -> & Hb1 & Hl1 & Hq').
    destruct (popped_ok l1 b (set_factory f e) Hb1 Hs) as (e1 & E & Hf1 & Hfac & Hph). rewrite E in He. injection He as <-.
    cbn in Hfac, Hph. exists d, l1, (List.concat q' ++ c)%list. split; [done|done|done| |]; cbn.
    + unfold waiting_ok. rewrite Hph, Hr, Hfac. by exists q', c.
    + rewrite Hph, Hr. destruct Ho as (rest & Ho & Hrest). exists rest. split; [|exact Hrest]. cbn in Ho |- *.
      by rewrite <- Ho, <- app_assoc.
  - unfold running in Hr. unfold waiting_ok in Hw. rewrite Hr in Hw, Ho. destruct Hw as (q & cur & Hq & ->).
    destruct (bundled_ok q cur (bundle_factory e) a Hq) as (f1 & q1 & c1 & E & Hq1 & Hcase). rewrite E in Hb. injection Hb as <-.
    destruct Hcase as [Hcase|[_ Hfull']]; [|by rewrite Hfull in Hfull'].
    exists d, l, (List.concat q1 ++ c1)%list. split; [done|done|done| |]; cbn.
    + unfold waiting_ok. cbn. rewrite Hr. by exists q1, c1.
    + rewrite Hr. destruct Ho as (rest & Ho & ->). exists []. split; [|done]. rewrite app_nil_r in Ho |- *. cbn.
      rewrite filter_snoc, <- Ho, Hcase. by rewrite !app_assoc.
  - unfold running in Hr. unfold waiting_ok in Hw. rewrite Hr in Hw, Ho. destruct Hw as (q & cur & Hq & ->).
    rewrite Hs in Hf. cbn in Hf. subst l. pose proof (pop_now_of max capacity Hmax q cur _ Hq) as Hp.
    destruct (pop_now (bundle_factory e)) as [b f].
    assert (exists l1 q' c', bundle_of l1 b /\ factory_of max capacity q' c' f /\
      (l1 ++ List.concat q' ++ c' = List.concat q ++ cur)%list) as (l1 & q' & c' & Hb1 & Hq' & Hcat).
    { destruct q as [|l1 q']; [destruct Hp as [Hb1 Hq']; exists cur, [], []|destruct Hp as (Hb1 & _ & Hq'); exists l1, q', cur];
        split_and!; try done; cbn; by rewrite ?app_nil_r, ?app_assoc. }
    destruct (popped_ok l1 b (set_factory f e) Hb1 Hs) as (e1 & E & Hf1 & Hfac & Hph). rewrite E in He. injection He as <-.
    cbn in Hfac, Hph. exists d, l1, (List.concat q' ++ c')%list. split; [done|done|done| |]; cbn.
    + unfold waiting_ok. rewrite Hph, Hr, Hfac. by exists q', c'.
    + rewrite Hph, Hr. destruct Ho as (rest & Ho & Hrest). exists rest. split; [|exact Hrest]. cbn in Ho |- *.
      by rewrite <- Ho, Hcat.
  - eapply flight_change_ok; [exact Hc|exact Hs|by eapply on_response_ok].
  - by eapply ready_ok.
  - eapply flight_change_ok; [exact Hc|exact Hs|]. intros (Hb & Hl & _).
    destruct (send_ok l (pending_nonce_of s) _ Hb Hl) as (fut1 & E & Hf1). rewrite E in He. by injection He as <-.
  - eapply flight_change_ok; [exact Hc|exact Hs|by eapply on_failure_ok].
  - exists d, [], (l ++ w)%list. split; cbn; [done|done|done|by destruct (phase e)|].
    destruct Ho as (rest & Ho & Hrest). exists rest. split; [exact Ho|].
    destruct (phase e) as [| |how] eqn:Hp; [exact Hrest|exact Hrest|].
    unfold active in Hact. by rewrite Hp in Hact.
  - destruct (shutdown_ok w e Hr Hw) as (e1 & rest & E & Hw1 & Hs1 & [bundles Hp] & Hsub). rewrite E in He. injection He as <-.
    unfold running in Hr. rewrite Hr in Ho. destruct Ho as (rest0 & Ho & ->). rewrite app_nil_r in Ho.
    exists d, l, (w ++ rest)%list. split; cbn; [done|done|by rewrite Hs1|done|]. rewrite Hp. exists rest. split; [|exact Hsub].
    cbn. by rewrite <- Ho, !app_assoc.
  - unfold waiting_ok in Hw. rewrite Hr in Hw, Ho. destruct Hw as (q & Hq & Hnq & ->).
    rewrite Hs in Hf. cbn in Hf. subst l. inversion Hq as [|l1 b1 q' bs' Hb1 Hq' E1 E2]; subst.
    apply list.Forall_cons in Hnq as [Hl1 Hnq].
    destruct (submitted_ok l1 b (set_phase (Draining bs) e) Hb1 Hl1) as (e1 & E & Hf1 & Hfac & Hph). rewrite E in He. injection He as <-.
    cbn in Hph. exists d, l1, (List.concat q'). split; [done|done|done| |]; cbn.
    + unfold waiting_ok. rewrite Hph. by exists q'.
    + rewrite Hph. exact Ho.
  - unfold waiting_ok in Hw. rewrite Hr in Hw, Ho. destruct Hw as (q & Hq & _ & ->). inversion Hq; subst.
    exists d, l, []. by split.
  - exists d, l, w. split; [done..|]. rewrite Hr in Ho. exact Ho.
Qed.
Lemma steps_ok y y' : rtc step y y' -> system_ok y -> system_ok y'.
Proof. induction 1; eauto using step_ok. Qed.
Lemma new_ok nonce s : 0 <= capacity -> system_ok (mk_system (executor_new nonce max capacity) s (mk_history [] [] [])).
Proof.
  intros Hcap. exists [], [], []. split; cbn; [constructor|constructor|done| |by exists []].
  exists [], []. split; [by apply factory_new_of|done].
Qed.
End invariant.

(** ** A run of the composer *)
Section runs.
Context `{Signing, EncodedLen, Sequencer}.
Variables sequencer_key sequencer_chain_id : string.
(** The branches of the event loop that a run takes; a submission is lost on its way
    or its answer is lost. *)
Inductive Branch := Collect (a : RollupDataSubmission) | Receive | Timer | NextFinished | Answer | AnswerLost | Shutdown.
Definition branch (b : Branch) (y : System) : option System :=
  let '(mk_system e s h) := y in
  match phase e, b, submission_fut e with
  | Running, Collect a, _ => Some (mk_system (set_channel (serialized_rollup_transactions e ++ [a]) e) s h)
  | Running, Receive, _ =>
      match serialized_rollup_transactions e, is_full (bundle_factory e) with
      | a :: l, false =>
          match bundle_seq_action a (bundle_factory e) with
          | Val f => Some (mk_system (set_factory f (set_channel l e)) s (log_received a h))
          | _ => None
          end
      | _, _ => None
      end
  | Running, Timer, None =>
      match (let '(b, f) := pop_now (bundle_factory e) in submit_popped sequencer_key sequencer_chain_id b (set_factory f e)) with
      | Val e' => Some (mk_system e' s h)
      | _ => None
      end
  | Running, NextFinished, None =>
      match next_finished (bundle_factory e) with
      | Some (b, f) =>
          match submit_popped sequencer_key sequencer_chain_id b (set_factory f e) with
          | Val e' => Some (mk_system e' s h)
          | _ => None
          end
      | None => None
      end
  | Running, Answer, Some fut =>
      match fut_state fut with
      | WaitingForSend tx _ =>
          let '(code, s') := broadcast_tx tx s in
          match on_response code fut with
          | Val (inl fut') => Some (mk_system (set_submission (Some fut') e) s' h)
          | Val (inr nonce) => let '(e', h') := submission_done fut nonce e h in Some (mk_system e' s' h')
          | _ => None
          end
      | WaitingForNonce _ =>
          match send_bundle sequencer_key sequencer_chain_id (pending_nonce_of s) (fut_bundle fut) with
          | Val fut' => Some (mk_system (set_submission (Some fut') e) s h)
          | _ => None
          end
      end
  | Running, AnswerLost, Some fut =>
      match fut_state fut, on_failure fut with
      | WaitingForSend tx _, Some fut' => Some (mk_system (set_submission (Some fut') e) (broadcast_tx tx s).2 h)
      | _, _ => None
      end
  | Running, Shutdown, _ =>
      match begin_shutdown e with
      | Val e' => Some (mk_system e' s (log_drained (serialized_rollup_transactions e) h))
      | _ => None
      end
  | _, _, _ => None
  end.
Lemma branch_step b y y' : branch b y = Some y' -> composer_step sequencer_key sequencer_chain_id y y'.
Proof.
  destruct y as [e s h]. unfold branch. destruct (phase e) eqn:Hr; [|done..].
  assert (active e) as Ha by (unfold active; by rewrite Hr).
  destruct b as [a| | | | | | ].
  - intros [= <-]. by apply step_collect.
  - intros Hy. destruct (serialized_rollup_transactions e) as [|a l] eqn:Hl; [done|].
    destruct (is_full _) eqn:Hf; [done|]. destruct (bundle_seq_action _ _) as [f| |] eqn:Hb; [|done..]. injection Hy as <-.
    by apply (step_receive _ _ _ _ _ a l f).
  - intros Hy. destruct (submission_fut e) eqn:Hs; [done|]. destruct (let '(b, f) := pop_now _ in _) as [e'| |] eqn:He; [|done..].
    injection Hy as <-. by apply step_timer.
  - intros Hy. destruct (submission_fut e) eqn:Hs; [done|]. destruct (next_finished _) as [[b f]|] eqn:Hn; [|done].
    destruct (submit_popped _ _ _ _) as [e'| |] eqn:He; [|done..]. injection Hy as <-.
    by apply (step_next_finished _ _ _ _ _ b f).
  - intros Hy. destruct (submission_fut e) as [fut|] eqn:Hs; [|done]. destruct (fut_state fut) as [tx n|n] eqn:Ht.
    + destruct (broadcast_tx tx s) as [code s'] eqn:Hb. destruct (on_response code fut) as [[fut'|nonce]| |] eqn:Hr'; [..|done|done].
      * injection Hy as <-. by apply (step_answered _ _ _ _ _ fut tx n code).
      * injection Hy as <-. by apply (step_ready _ _ _ _ _ fut tx n code).
    + destruct (send_bundle _ _ _ _) as [fut'| |] eqn:He; [|done..]. injection Hy as <-. by apply (step_nonce _ _ _ _ _ fut n).
  - intros Hy. destruct (submission_fut e) as [fut|] eqn:Hs; [|done]. destruct (fut_state fut) as [tx n|n] eqn:Ht; [|done].
    destruct (on_failure fut) as [fut'|] eqn:Hf; [|done]. injection Hy as <-.
    apply (step_failed _ _ _ _ _ fut); [done..|]. right. by exists tx, n.
  - intros Hy. destruct (begin_shutdown e) as [e'| |] eqn:He; [|done..]. injection Hy as <-. by apply step_shutdown.
Qed.
Fixpoint branches (l : list Branch) (y : System) : option System :=
  match l with [] => Some y | b :: l => y ← branch b y; branches l y end.
Lemma branches_steps l y y' : branches l y = Some y' -> rtc (composer_step sequencer_key sequencer_chain_id) y y'.
Proof.
  revert y. induction l as [|b l IH]; intros y; cbn [branches]; [by intros [= ->]|].
  destruct (branch b y) as [y1|] eqn:E; [|done]. cbn [mbind option_bind]. intros Hl.
  eapply rtc_l; [by eapply branch_step|by apply IH].
Qed.
End runs.

(** A sequencer that executes what has the next nonce at once, and a wire format
    that starts with the nonce *)
Definition composer_signing : Signing := {|
  signing_wire := wire_demo;
  encode_body := fun r =>
    match raw_params r with Some p => String (Ascii.ascii_of_nat (48 + Z.to_nat (raw_nonce p))) ":" | None => "" end
    ++ String.concat "," (map (fun a => match raw_action_value a with Some (RawAction_RollupDataSubmission d) => raw_rds_data d | _ => "" end)
                           (raw_actions r));
  decode_body := fun _ => None;
  encode_transaction := fun r => from_option any_value "" (raw_body r);
  decode_transaction := fun _ => None;
  ed25519_signature_valid := fun _ => true;
  ed25519_verify := fun _ _ _ => true;
  ed25519_sign := fun k m => k ++ m;
  ed25519_public := fun k => k |}.
Definition demo_len : EncodedLen := fun r => Z.of_nat (String.length (raw_rds_data r)).
Definition nonce_sequencer : Sequencer := {|
  SequencerState := list string;
  broadcast_tx := fun tx s =>
    match tx with
    | String c _ => if (Ascii.nat_of_ascii c =? 48 + List.length s)%nat then (0, s ++ [tx])%list else (INVALID_NONCE_CODE, s)
    | EmptyString => (INVALID_NONCE_CODE, s)
    end;
  pending_nonce_of := fun s => Z.of_nat (List.length s);
  sequencer_moves := fun s s' => s' = s |}.
#[local] Existing Instances composer_signing demo_len nonce_sequencer.
Definition demo_id : RollupId := "rollup of the composer          ".
Definition submission (data : string) : RollupDataSubmission :=
  mk_submission demo_id data (Denom_TracePrefixed (mk_trace [] "nria")).
Definition started_with (max capacity : Z) : System := mk_system (executor_new 0 max capacity) ([] : list string) (mk_history [] [] []).

(** ** Theorems *)
Section theorems.
Context `{Signing, EncodedLen, !EncodedLenLaws, Sequencer}.
(** The actions of the bundles that were handed over, of the one that is being
    submitted, and of those that wait *)
Definition handed_over (h : History) : list Action := submitted h ≫= buffer.
Definition in_flight (e : Executor) : list Action := from_option (fun fut => buffer (fut_bundle fut)) [] (submission_fut e).
Definition waiting (e : Executor) : list Action :=
  match phase e with
  | Running => ((finished (bundle_factory e) ≫= buffer) ++ buffer (curr_bundle (bundle_factory e)))%list
  | Draining bundles => bundles ≫= buffer
  | Stopped _ => []
  end.
Lemma buffers_of max q bundles :
  Forall2 (bundle_of max) q bundles -> bundles ≫= buffer = map as_action (List.concat q).
Proof.
  induction 1 as [|l b q bundles Hb _ IH]; [done|]. cbn. by rewrite map_app, (bundle_buffer _ _ _ Hb), <- IH.
Qed.

End theorems.

#[local] Existing Instances composer_signing demo_len nonce_sequencer.
#[local] Instance demo_len_laws : EncodedLenLaws.
Proof. intros m. unfold message_len, demo_len. lia. Qed.
Definition reached (l : list Branch) (y : System) : System := default y (branches "key" "astria-1" l y).
Definition takes (l : list Branch) (y : System) : bool :=
  match branches "key" "astria-1" l y with Some _ => true | None => false end.
Lemma reached_steps l y : takes l y = true -> rtc (composer_step "key" "astria-1") y (reached l y).
Proof.
  unfold takes, reached. destruct (branches _ _ l y) as [y'|] eqn:E; [|done]. intros _. by apply (branches_steps _ _ l).
Qed.

(** Three bundles: one in flight, one in the queue, which is full then, and the current
    one; another submission waits in the channel. *)
Definition busy : list Branch :=
  [Collect (submission "first"); Receive; Timer; Collect (submission "second"); Receive;
   Collect (submission "third "); Receive; Collect (submission "fourth")].

(** The shutdown empties the channel into the factory even when the factory is full:
    a submission that fits into a bundle, and would have been bundled after the
    next submission, is dropped. *)
Theorem shutdown_drops_submissions :
  exists y y' a, rtc (composer_step "key" "astria-1") (started_with 10 1) y /\ composer_step "key" "astria-1" y y' /\
    phase (executor y) = Running /\ phase (executor y') <> Running /\
    (a ∈ serialized_rollup_transactions (executor y)) /\ fits 10 a = true /\
    (as_action a ∉ handed_over (history y') ++ in_flight (executor y') ++ waiting (executor y'))%list /\
    serialized_rollup_transactions (executor y') = [].
Proof.
  exists (reached busy (started_with 10 1)), (reached (busy ++ [Shutdown]) (started_with 10 1)), (submission "fourth").
  split; [apply reached_steps; vm_compute; reflexivity|]. split.
  { apply (branch_step _ _ Shutdown). vm_compute. reflexivity. }
  split; [vm_compute; reflexivity|]. split; [vm_compute; discriminate|]. split.
  { replace (serialized_rollup_transactions _) with [submission "fourth"] by (vm_compute; reflexivity). by left. }
  split; [vm_compute; reflexivity|]. split; [|vm_compute; reflexivity].
  replace (_ ++ _)%list with (map as_action [submission "first"; submission "second"; submission "third "])
    by (vm_compute; reflexivity).
  intros Hin. cbn [map] in Hin.
  repeat (apply elem_of_cons in Hin as [Hin|Hin]; [vm_compute in Hin; discriminate Hin|]). by apply not_elem_of_nil in Hin.
Qed.

(** When the answer to a transaction that was executed is lost, the composer
    tries again, is told that the nonce is used, takes a new one and submits the same
    bundle once more: its data is executed twice. *)
Theorem lost_answer_submits_twice :
  exists y, rtc (composer_step "key" "astria-1") (started_with 10 1) y /\
    sequencer y = ["0:data"; "1:data"] /\ submitted (history y) ≫= buffer = map as_action [submission "data"].
Proof.
  exists (reached [Collect (submission "data"); Receive; Timer; AnswerLost; Answer; Answer; Answer] (started_with 10 1)).
  split; [apply reached_steps; vm_compute; reflexivity|]. vm_compute. by split.
Qed.
