(* ===== verification/ConductorState.v ===== *)
(** * The execution API and the state of the conductor

    [tonic::Code], as the clients of the conductor, the relayer and the composer
    see it; [astria-core/src/execution/v2/mod.rs]: sessions, commitment states and
    executed blocks with the conversions of their messages; and
    [astria-conductor/src/state.rs]: what the executor and the readers share, with the
    map between rollup block numbers and sequencer heights. *)
From S2P Require Import Prelude Denom Types Wire Block State.
From stdpp Require Import base tactics list option strings numbers.
From Stdlib Require Import ZArith Lia Ascii String.
Open Scope string_scope.
Open Scope Z_scope.

Inductive Code :=
| Code_Ok | Code_Cancelled | Code_Unknown | Code_InvalidArgument | Code_DeadlineExceeded
| Code_NotFound | Code_AlreadyExists | Code_PermissionDenied | Code_ResourceExhausted
| Code_FailedPrecondition | Code_Aborted | Code_OutOfRange | Code_Unimplemented | Code_Internal
| Code_Unavailable | Code_DataLoss | Code_Unauthenticated.
#[export] Instance code_eq_dec : EqDecision Code.
Proof. solve_decision. Defined.

(** * The execution API: sessions and commitments of a rollup

    [astria-core/src/execution/v2/mod.rs]: what a rollup node tells the
    conductor about its execution session and its chain.  [tendermint]'s block
    heights are the parameters of [TendermintHeight]. *)

(** ** Heights: [tendermint::block::Height] *)
Class TendermintHeight := height_increment : Z -> run Z.
(** A height is an [i64] that is not negative, and [increment] panics at the last one. *)
Class HeightLaws `{Tendermint, TendermintHeight} : Prop := {
  height_valid_iff h : tm_height_valid h = true <-> 0 <= h < 2 ^ 63;
  height_increment_val h : 0 <= h < 2 ^ 63 - 1 -> height_increment h = Val (h + 1);
  height_increment_max : height_increment (2 ^ 63 - 1) = Panic }.

(** ** Executed blocks *)
Record ExecutedBlockMetadata := mk_executed {
  eb_number : Z;
  eb_hash : string;
  eb_parent_hash : string;
  eb_timestamp : RawTimestamp;
  eb_sequencer_block_hash : string }.
Record RawExecutedBlockMetadata := mk_raw_executed {
  raw_eb_number : Z;
  raw_eb_hash : string;
  raw_eb_parent_hash : string;
  raw_eb_timestamp : option RawTimestamp;
  raw_eb_sequencer_block_hash : string }.
Inductive ExecutedBlockMetadataError := ExecutedBlockMetadataError_FieldNotSet (field : string).

Definition executed_try_from_raw (r : RawExecutedBlockMetadata)
    : result ExecutedBlockMetadataError ExecutedBlockMetadata :=
  timestamp ← ok_or (ExecutedBlockMetadataError_FieldNotSet ".timestamp") (raw_eb_timestamp r);
  Ok (mk_executed (raw_eb_number r) (raw_eb_hash r) (raw_eb_parent_hash r) timestamp
        (raw_eb_sequencer_block_hash r)).
Definition executed_to_raw (b : ExecutedBlockMetadata) : RawExecutedBlockMetadata :=
  mk_raw_executed (eb_number b) (eb_hash b) (eb_parent_hash b) (Some (eb_timestamp b))
    (eb_sequencer_block_hash b).

(** ** Commitment states *)
Record CommitmentState := mk_commitment {
  soft_executed_block_metadata : ExecutedBlockMetadata;
  firm_executed_block_metadata : ExecutedBlockMetadata;
  lowest_celestia_search_height : Z }.
Record RawCommitmentState := mk_raw_commitment {
  raw_soft_executed_block_metadata : option RawExecutedBlockMetadata;
  raw_firm_executed_block_metadata : option RawExecutedBlockMetadata;
  raw_lowest_celestia_search_height : Z }.
Record FirmExceedsSoft := mk_firm_exceeds { exceeding_firm : Z; exceeded_soft : Z }.
Inductive CommitmentStateError :=
| CommitmentStateError_FieldNotSet (field : string)
| CommitmentStateError_Firm (source : ExecutedBlockMetadataError)
| CommitmentStateError_Soft (source : ExecutedBlockMetadataError)
| CommitmentStateError_FirmExceedsSoft (source : FirmExceedsSoft).

(** [CommitmentStateBuilder::build], the three setters called *)
Definition build_commitment (firm soft : ExecutedBlockMetadata) (celestia_height : Z)
    : result FirmExceedsSoft CommitmentState :=
  if eb_number soft <? eb_number firm then Err (mk_firm_exceeds (eb_number firm) (eb_number soft))
  else Ok (mk_commitment soft firm celestia_height).
Definition commitment_try_from_raw (r : RawCommitmentState) : result CommitmentStateError CommitmentState :=
  soft ← ok_or (CommitmentStateError_FieldNotSet ".soft") (raw_soft_executed_block_metadata r);
  soft ← map_err CommitmentStateError_Soft (executed_try_from_raw soft);
  firm ← ok_or (CommitmentStateError_FieldNotSet ".firm") (raw_firm_executed_block_metadata r);
  firm ← map_err CommitmentStateError_Firm (executed_try_from_raw firm);
  map_err CommitmentStateError_FirmExceedsSoft
    (build_commitment firm soft (raw_lowest_celestia_search_height r)).
Definition commitment_to_raw (c : CommitmentState) : RawCommitmentState :=
  mk_raw_commitment (Some (executed_to_raw (soft_executed_block_metadata c)))
    (Some (executed_to_raw (firm_executed_block_metadata c))) (lowest_celestia_search_height c).

(** ** Sessions *)
Record ExecutionSessionParameters := mk_session_params {
  esp_rollup_id : RollupId;
  rollup_start_block_number : Z;
  rollup_end_block_number : option Z;
  esp_sequencer_chain_id : string;
  sequencer_start_block_height : Z;
  esp_celestia_chain_id : string;
  celestia_search_height_max_look_ahead : Z }.
Record RawExecutionSessionParameters := mk_raw_session_params {
  raw_esp_rollup_id : option RawRollupId;
  raw_rollup_start_block_number : Z;
  raw_rollup_end_block_number : Z;
  raw_esp_sequencer_chain_id : string;
  raw_sequencer_start_block_height : Z;
  raw_esp_celestia_chain_id : string;
  raw_celestia_search_height_max_look_ahead : Z }.
Inductive ExecutionSessionParametersError :=
| ExecutionSessionParametersError_IncorrectRollupIdLength (source : IncorrectRollupIdLength)
| ExecutionSessionParametersError_NoRollupId
| ExecutionSessionParametersError_InvalidSequencerStartBlockHeight.
Record ExecutionSession := mk_session {
  es_session_id : string;
  es_execution_session_parameters : ExecutionSessionParameters;
  es_commitment_state : CommitmentState }.
Record RawExecutionSession := mk_raw_session {
  raw_es_session_id : string;
  raw_es_execution_session_parameters : option RawExecutionSessionParameters;
  raw_es_commitment_state : option RawCommitmentState }.
Inductive ExecutionSessionError :=
| InvalidExecutionSessionParameters (source : ExecutionSessionParametersError)
| InvalidCommitmentState (source : CommitmentStateError)
| MissingExecutionSessionParameters
| MissingCommitmentState.

(** [NonZeroU64::new] *)
Definition non_zero (n : Z) : option Z := if n =? 0 then None else Some n.

Section session.
Context `{Tendermint}.
Definition session_params_try_from_raw (r : RawExecutionSessionParameters)
    : result ExecutionSessionParametersError ExecutionSessionParameters :=
  id ← ok_or ExecutionSessionParametersError_NoRollupId (raw_esp_rollup_id r);
  id ← map_err ExecutionSessionParametersError_IncorrectRollupIdLength (rollup_id_try_from_raw id);
  ensure (tm_height_valid (raw_sequencer_start_block_height r))
    ExecutionSessionParametersError_InvalidSequencerStartBlockHeight;;
  Ok (mk_session_params id (raw_rollup_start_block_number r)
    (non_zero (raw_rollup_end_block_number r)) (raw_esp_sequencer_chain_id r)
    (raw_sequencer_start_block_height r) (raw_esp_celestia_chain_id r)
    (raw_celestia_search_height_max_look_ahead r)).
Definition session_params_to_raw (p : ExecutionSessionParameters) : RawExecutionSessionParameters :=
  mk_raw_session_params (Some (rollup_id_to_raw (esp_rollup_id p))) (rollup_start_block_number p)
    (default 0 (rollup_end_block_number p)) (esp_sequencer_chain_id p)
    (sequencer_start_block_height p) (esp_celestia_chain_id p)
    (celestia_search_height_max_look_ahead p).

Definition session_try_from_raw (r : RawExecutionSession)
    : result ExecutionSessionError ExecutionSession :=
  p ← ok_or MissingExecutionSessionParameters (raw_es_execution_session_parameters r);
  p ← map_err InvalidExecutionSessionParameters (session_params_try_from_raw p);
  c ← ok_or MissingCommitmentState (raw_es_commitment_state r);
  c ← map_err InvalidCommitmentState (commitment_try_from_raw c);
  Ok (mk_session (raw_es_session_id r) p c).
Definition session_to_raw (s : ExecutionSession) : RawExecutionSession :=
  mk_raw_session (es_session_id s)
    (Some (session_params_to_raw (es_execution_session_parameters s)))
    (Some (commitment_to_raw (es_commitment_state s))).
End session.

(** ** What a session that was accepted satisfies, and its round trip *)
Definition commitment_ok (c : CommitmentState) : Prop :=
  eb_number (firm_executed_block_metadata c) <= eb_number (soft_executed_block_metadata c).

Lemma build_commitment_Ok firm soft h c :
  build_commitment firm soft h = Ok c <->
  eb_number firm <= eb_number soft /\ c = mk_commitment soft firm h.
Proof.
  unfold build_commitment. destruct (Z.ltb_spec (eb_number soft) (eb_number firm)).
  - split; [done|]. intros [? _]. lia.
  - split; [by intros [= <-]|]. by intros [_ ->].
Qed.
Lemma executed_roundtrip b : executed_try_from_raw (executed_to_raw b) = Ok b.
Proof. by destruct b. Qed.
Lemma commitment_roundtrip c : commitment_ok c -> commitment_try_from_raw (commitment_to_raw c) = Ok c.
Proof.
  unfold commitment_ok. destruct c as [[] [] h]. cbn. intros Hle. unfold build_commitment. cbn.
  by rewrite (proj2 (Z.ltb_ge _ _)) by done.
Qed.

(** * The conductor's view of the rollup

    [astria-conductor/src/state.rs] and the commit levels of [config.rs]: the
    execution session and commitment state that the executor and its readers
    share, and the map between rollup block numbers and sequencer heights. *)

(** ** Commit levels *)
Inductive CommitLevel := FirmOnly | SoftOnly | SoftAndFirm.
#[export] Instance commit_level_eq_dec : EqDecision CommitLevel.
Proof. solve_decision. Defined.
Definition is_with_firm (l : CommitLevel) : bool :=
  match l with FirmOnly | SoftAndFirm => true | SoftOnly => false end.
Definition is_with_soft (l : CommitLevel) : bool :=
  match l with SoftOnly | SoftAndFirm => true | FirmOnly => false end.

(** ** Heights *)
Section heights.
Context `{Tendermint}.
Definition map_rollup_number_to_sequencer_height
    (sequencer_start_height rollup_start_block_number rollup_number : Z) : result string Z :=
  next ← ok_or "overflows u64::MAX" (checked_add 64 rollup_number 1);
  ensure (rollup_start_block_number <=? next) "rollup start height exceeds rollup number + 1";;
  sum ← ok_or "overflows u64::MAX" (checked_add 64 sequencer_start_height rollup_number);
  sequencer_height ← ok_or "(sequencer height + rollup number - rollup start height) is negative"
                       (checked_sub sum rollup_start_block_number);
  ensure (tm_height_valid sequencer_height) "overflows u64::MAX";;
  Ok sequencer_height.
End heights.

Definition try_map_sequencer_height_to_rollup_height
    (sequencer_start_height rollup_start_block_number sequencer_height : Z) : result string Z :=
  above ← ok_or "operation `sequencer_height - sequencer_start_height` underflowed"
            (checked_sub sequencer_height sequencer_start_height);
  ok_or "operation `(sequencer_height - sequencer_start_height) + rollup_start_block_number` overflowed"
    (checked_add 64 above rollup_start_block_number).

(** ** State *)
Record InvalidState := mk_invalid_state {
  map_purpose : string;
  issue : string;
  is_sequencer_start_height : Z;
  is_rollup_start_block_number : Z;
  is_rollup_number : Z }.
Record RollupState := mk_rollup_state {
  execution_session_id : string;
  execution_session_parameters : ExecutionSessionParameters;
  commitment_state : CommitmentState }.
Definition set_commitment_state (c : CommitmentState) (s : RollupState) : RollupState :=
  mk_rollup_state (execution_session_id s) (execution_session_parameters s) c.

Definition firm (s : RollupState) : ExecutedBlockMetadata :=
  firm_executed_block_metadata (commitment_state s).
Definition soft (s : RollupState) : ExecutedBlockMetadata :=
  soft_executed_block_metadata (commitment_state s).
Definition firm_number (s : RollupState) : Z := eb_number (firm s).
Definition soft_number (s : RollupState) : Z := eb_number (soft s).
Definition firm_hash (s : RollupState) : string := eb_hash (firm s).
Definition soft_hash (s : RollupState) : string := eb_hash (soft s).
Definition end_block_number (s : RollupState) : option Z :=
  rollup_end_block_number (execution_session_parameters s).
Definition has_firm_number_reached_stop_height (s : RollupState) : bool :=
  match end_block_number s with Some n => n <=? firm_number s | None => false end.
Definition has_soft_number_reached_stop_height (s : RollupState) : bool :=
  match end_block_number s with Some n => n <=? soft_number s | None => false end.

Section state.
Context `{Tendermint, TendermintHeight}.

Definition map_number (purpose : string) (p : ExecutionSessionParameters) (number : Z)
    : result InvalidState Z :=
  map_err (fun issue => mk_invalid_state purpose issue (sequencer_start_block_height p)
             (rollup_start_block_number p) number)
    (map_rollup_number_to_sequencer_height (sequencer_start_block_height p)
       (rollup_start_block_number p) number).
Definition map_firm_to_sequencer_height (p : ExecutionSessionParameters) (c : CommitmentState)
    : result InvalidState Z :=
  map_number "firm commitment" p (eb_number (firm_executed_block_metadata c)).
Definition map_soft_to_sequencer_height (p : ExecutionSessionParameters) (c : CommitmentState)
    : result InvalidState Z :=
  map_number "soft commitment" p (eb_number (soft_executed_block_metadata c)).

Definition check_mapped (level : CommitLevel) (p : ExecutionSessionParameters) (c : CommitmentState)
    : result InvalidState unit :=
  (if is_with_firm level then _ ← map_firm_to_sequencer_height p c; Ok tt else Ok tt);;
  (if is_with_soft level then _ ← map_soft_to_sequencer_height p c; Ok tt else Ok tt).

Definition try_from_execution_session (e : ExecutionSession) (level : CommitLevel)
    : result InvalidState RollupState :=
  let p := es_execution_session_parameters e in
  check_mapped level p (es_commitment_state e);;
  match rollup_end_block_number p with
  | Some n => _ ← map_number "rollup end block number" p n; Ok tt
  | None => Ok tt
  end;;
  Ok (mk_rollup_state (es_session_id e) p (es_commitment_state e)).

(** [StateSender::try_update_commitment_state] *)
Definition try_update_commitment_state (c : CommitmentState) (level : CommitLevel) (s : RollupState)
    : result InvalidState RollupState :=
  check_mapped level (execution_session_parameters s) c;;
  Ok (set_commitment_state c s).

(** The senders and receivers of the state [expect] the maps to succeed. *)
Definition expected_height (r : result InvalidState Z) : run Z :=
  match r with Ok h => height_increment h | Err _ => Panic end.
Definition next_expected_firm_sequencer_height (s : RollupState) : run Z :=
  expected_height (map_firm_to_sequencer_height (execution_session_parameters s) (commitment_state s)).
Definition next_expected_soft_sequencer_height (s : RollupState) : run Z :=
  expected_height (map_soft_to_sequencer_height (execution_session_parameters s) (commitment_state s)).
Definition sequencer_stop_height (s : RollupState) : run (option Z) :=
  match end_block_number s with
  | None => Val None
  | Some n =>
      match map_rollup_number_to_sequencer_height
              (sequencer_start_block_height (execution_session_parameters s))
              (rollup_start_block_number (execution_session_parameters s)) n with
      | Ok h => Val (non_zero h)
      | Err _ => Panic
      end
  end.
End state.

(** ** Theorems about the maps *)
Section maps.
Context `{HeightLaws}.
Context (start first : Z) (Hs : 0 <= start < 2 ^ 63) (Hf : uint 64 first).

Lemma map_number_Ok n h : 0 <= n ->
  map_rollup_number_to_sequencer_height start first n = Ok h <->
  h = start + n - first /\ first <= n + 1 /\ n + 1 < 2 ^ 64 /\ start + n < 2 ^ 64 /\ 0 <= h < 2 ^ 63.
Proof.
  intros Hn. unfold map_rollup_number_to_sequencer_height.
  destruct (checked_add 64 n 1) as [next|] eqn:Ha1; cbn.
  2:{ apply checked_add_None in Ha1. split; [done|lia]. }
  apply checked_add_Some in Ha1 as [-> Ha1].
  destruct (Z.leb_spec first (n + 1)); cbn; [|split; [done|lia]].
  destruct (checked_add 64 start n) as [sum|] eqn:Ha2; cbn.
  2:{ apply checked_add_None in Ha2. split; [done|lia]. }
  apply checked_add_Some in Ha2 as [-> Ha2].
  destruct (checked_sub (start + n) first) as [m|] eqn:Ha3; cbn.
  2:{ apply checked_sub_None in Ha3. split; [done|lia]. }
  apply checked_sub_Some in Ha3 as [-> Ha3].
  pose proof (height_valid_iff (start + n - first)) as Hv.
  destruct (tm_height_valid (start + n - first)); cbn.
  - split; [intros [= <-]|by intros (-> & _)]. split_and!; try lia; by apply Hv.
  - split; [done|]. intros (-> & _ & _ & _ & Hr). by apply Hv in Hr.
Qed.

Lemma map_height_Ok h n : 0 <= h ->
  try_map_sequencer_height_to_rollup_height start first h = Ok n <->
  n = h - start + first /\ start <= h /\ n < 2 ^ 64.
Proof.
  intros Hh. unfold try_map_sequencer_height_to_rollup_height.
  destruct (checked_sub h start) as [a|] eqn:Ha1; cbn.
  2:{ apply checked_sub_None in Ha1. split; [done|lia]. }
  apply checked_sub_Some in Ha1 as [-> Ha1].
  destruct (checked_add 64 (h - start) first) as [m|] eqn:Ha2; cbn.
  - apply checked_add_Some in Ha2 as [-> Ha2]. split; [intros [= <-]; lia|]. by intros (-> & _).
  - apply checked_add_None in Ha2. split; [done|]. lia.
Qed.
End maps.
