(* ===== verification/BlockCache.v ===== *)
(** * The conductor's block cache

    [astria-conductor/src/block_cache.rs]: blocks that arrive in any order and
    are yielded in the order of their sequencer heights.  The theorem: whatever
    the operations, the blocks that a cache yields have strictly increasing
    heights, each was inserted before, and without [drop_obsolete] no height is
    left out. *)
From S2P Require Import Prelude BTree.
From stdpp Require Import base list option gmap fin_maps sorting.
From Stdlib Require Import ZArith Lia String.
Open Scope Z_scope.

Class GetSequencerHeight (T : Type) := get_height : T -> Z.

Inductive CacheError :=
| CacheError_Occupied (height : Z)
| CacheError_Old (block_height current_height : Z)
| CacheError_ZeroHeightsNotSupported.

Record BlockCache (T : Type) := mk_cache { cached : BTree T; next_height : Z }.
Arguments mk_cache {T} _ _.
Arguments cached {T} _.
Arguments next_height {T} _.

Section operations.
Context {T : Type} `{GetSequencerHeight T}.

Definition with_next_height (next_height : Z) : result CacheError (BlockCache T) :=
  if next_height =? 0 then Err CacheError_ZeroHeightsNotSupported
  else Ok (mk_cache [] next_height).

(** [BTreeMap::remove] *)
Definition bt_remove (k : Z) (l : BTree T) : BTree T := filter (fun kv => kv.1 <> k) l.

Definition pop (c : BlockCache T) : run (option T * BlockCache T) :=
  match bt_get (next_height c) (cached c) with
  | None => Val (None, c)
  | Some block =>
      next ← unwrap (checked_add 64 (next_height c) 1);
      Val (Some block, mk_cache (bt_remove (next_height c) (cached c)) next)
  end.

(** [first_key_value().map(..) < Some(latest_height)]; [None] is the least *)
Definition first_key_below (latest_height : Z) (l : BTree T) : bool :=
  match l.*1 with [] => true | height :: _ => height <? latest_height end.
Definition drop_obsolete (latest_height : Z) (c : BlockCache T) : BlockCache T :=
  mk_cache
    (if first_key_below latest_height (cached c) then (bt_split_off latest_height (cached c)).2
     else cached c)
    (Z.max (next_height c) latest_height).

Definition insert_block (block : T) (c : BlockCache T) : result CacheError (BlockCache T) :=
  let block_height := get_height block in
  if block_height <? next_height c then Err (CacheError_Old block_height (next_height c))
  else
    match bt_get block_height (cached c) with
    | None => Ok (mk_cache (bt_insert block_height block (cached c)) (next_height c))
    | Some _ => Err (CacheError_Occupied block_height)
    end.

(** ** Runs of a cache: the operations its readers call *)
Inductive cache_op := Insert (block : T) | Pop | DropObsolete (latest_height : Z).

(** What was inserted is dropped when the cache refuses it, as its readers do. *)
Definition cache_step (op : cache_op) (c : BlockCache T) : run (list T * BlockCache T) :=
  match op with
  | Insert block => Val ([], match insert_block block c with Ok c' => c' | Err _ => c end)
  | Pop => '(o, c) ← pop c; Val (option_list o, c)
  | DropObsolete h => Val ([], drop_obsolete h c)
  end.
Fixpoint cache_run (ops : list cache_op) (c : BlockCache T) : run (list T * BlockCache T) :=
  match ops with
  | [] => Val ([], c)
  | op :: ops =>
      '(popped, c) ← cache_step op c;
      '(later, c) ← cache_run ops c;
      Val (popped ++ later, c)
  end.
Definition insertions (ops : list cache_op) : list T :=
  omap (fun op => match op with Insert block => Some block | _ => None end) ops.

(** ** The invariant *)
Record cache_ok (c : BlockCache T) : Prop := {
  cache_sorted : sorted_keys (cached c);
  cache_heights : Forall (fun kv => get_height kv.2 = kv.1) (cached c);
  cache_not_old : Forall (fun k => next_height c <= k) (keys (cached c)) }.

Lemma bt_get_Some_elem k v (l : BTree T) : bt_get k l = Some v -> (k, v) ∈ l.
Proof.
  induction l as [|[k' v'] l IH]; cbn; [done|]. destruct (Z.eqb_spec k k') as [->|].
  - intros [= ->]. by left.
  - right. auto.
Qed.

Lemma with_next_height_ok h c : with_next_height h = Ok c ->
  cache_ok c /\ next_height c = h /\ cached c = [].
Proof.
  unfold with_next_height. case_match; [done|]. intros [= <-]. split; [|done].
  split; constructor.
Qed.

Lemma insert_block_ok block c c' : cache_ok c -> insert_block block c = Ok c' ->
  cache_ok c' /\ next_height c' = next_height c /\
  cached c' ≡ₚ (get_height block, block) :: cached c.
Proof.
  intros [Hs Hh Ho] Hi. unfold insert_block in Hi.
  destruct (Z.ltb_spec (get_height block) (next_height c)) as [|Hge]; [done|].
  destruct (bt_get _ _) eqn:Hg; [done|]. injection Hi as <-. apply bt_get_None in Hg.
  pose proof (bt_insert_perm _ block _ Hg) as Hp. split; [split|]; cbn.
  - by apply bt_insert_sorted.
  - rewrite Hp. by constructor.
  - rewrite (bt_insert_keys _ block _ Hg). by constructor.
  - done.
Qed.

Lemma drop_obsolete_ok h c : cache_ok c ->
  cache_ok (drop_obsolete h c) /\ next_height (drop_obsolete h c) = Z.max (next_height c) h /\
  cached (drop_obsolete h c) ⊆ cached c.
Proof.
  intros [Hs Hh Ho]. unfold drop_obsolete. split; [|split; [done|]]; cbn.
  - split; cbn.
    + case_match; [|done]. by apply sorted_filter.
    + case_match; [|done]. apply Forall_forall. intros kv [Hin _]%split_off_above.
      rewrite Forall_forall in Hh. by apply Hh.
    + apply Forall_forall. intros k Hk. apply Z.max_lub.
      * rewrite Forall_forall in Ho. apply Ho. revert Hk. case_match; [|done].
        unfold keys. rewrite !list_elem_of_fmap. intros (kv & -> & [Hin _]%split_off_above).
        by exists kv.
      * revert Hk. destruct (first_key_below h (cached c)) eqn:Hm.
        -- unfold keys. rewrite list_elem_of_fmap. by intros (kv & -> & [_ Hle]%split_off_above).
        -- intros Hk. unfold first_key_below, sorted_keys, keys in *.
           destruct ((cached c).*1) as [|k0 ks]; [done|].
           apply Z.ltb_ge in Hm. apply elem_of_cons in Hk as [->|Hk]; [done|].
           apply StronglySorted_inv in Hs as [_ Hs]. rewrite Forall_forall in Hs.
           specialize (Hs k Hk). lia.
  - intros kv. case_match; [|done]. by intros [Hin _]%split_off_above.
Qed.

Lemma pop_ok c o c' : cache_ok c -> pop c = Val (o, c') ->
  cache_ok c' /\ cached c' ⊆ cached c /\
  match o with
  | None => c' = c
  | Some block =>
      (next_height c, block) ∈ cached c /\ get_height block = next_height c /\
      next_height c' = next_height c + 1
  end.
Proof.
  intros [Hs Hh Ho] Hp. unfold pop in Hp. destruct (bt_get _ _) as [b|] eqn:Hg.
  2:{ injection Hp as <- <-. by split; [split|]. }
  apply bt_get_Some_elem in Hg. destruct (checked_add _ _ _) as [n|] eqn:Hn; cbn in Hp; [|done].
  injection Hp as <- <-. apply checked_add_Some in Hn as [-> _]. unfold bt_remove.
  split; [split|split]; cbn.
  - by apply sorted_filter.
  - apply Forall_forall. intros kv [_ Hin]%list_elem_of_filter. rewrite Forall_forall in Hh. auto.
  - apply Forall_forall. unfold keys. intros k (kv & -> & [Hne Hin]%list_elem_of_filter)%list_elem_of_fmap.
    rewrite Forall_forall in Ho. pose proof (Ho kv.1 (list_elem_of_fmap_2 fst _ _ Hin)). lia.
  - by intros kv [_ Hin]%list_elem_of_filter.
  - split; [done|]. split; [|done]. rewrite Forall_forall in Hh. by apply (Hh _ Hg).
Qed.
End operations.

(** ** Runs *)
Section runs.
Context {T : Type} `{GetSequencerHeight T}.
Implicit Types c : BlockCache T.

Definition in_order c (out : list T) c' : Prop :=
  StronglySorted Z.lt (get_height <$> out) /\
  Forall (fun b => next_height c <= get_height b < next_height c') out /\
  next_height c <= next_height c'.
Definition is_drop (op : @cache_op T) : bool := match op with DropObsolete _ => true | _ => false end.
Definition consecutive c (out : list T) c' : Prop :=
  get_height <$> out = seqZ (next_height c) (Z.of_nat (List.length out)) /\
  next_height c' = next_height c + Z.of_nat (List.length out).

Lemma cache_step_ok op c out c' : cache_ok c -> cache_step op c = Val (out, c') ->
  cache_ok c' /\ in_order c out c' /\
  (forall b, b ∈ out ++ (cached c').*2 -> b ∈ (cached c).*2 ++ insertions [op]) /\
  (is_drop op = false -> consecutive c out c').
Proof.
  intros Hok. destruct op as [block| |h]; cbn.
  - intros [= <- <-]. destruct (insert_block block c) as [c'|] eqn:Hi.
    + destruct (insert_block_ok _ _ _ Hok Hi) as (Hok' & Hn & Hp). split; [done|]. split; [|split].
      * split_and!; [constructor..|]. by rewrite Hn.
      * intros b. cbn. rewrite Hp. cbn. set_solver.
      * intros _. split; [done|]. cbn. lia.
    + split; [done|]. split; [|split]; [|set_solver|].
      * split_and!; [constructor..|done].
      * intros _. split; [done|]. cbn. lia.
  - destruct (pop c) as [[o c1]| |] eqn:Hp; cbn; [|done..]. intros [= <- <-].
    destruct (pop_ok _ _ _ Hok Hp) as (Hok' & Hsub & Hres). split; [done|].
    destruct o as [b|]; cbn.
    + destruct Hres as (Hin & Hh & Hn). split; [|split].
      * split_and!; [repeat constructor| |by rewrite Hn; lia]. apply Forall_singleton. rewrite Hh, Hn. lia.
      * intros b'. rewrite elem_of_cons, !list_elem_of_fmap. rewrite elem_of_app, list_elem_of_fmap.
        intros [->|(kv & -> & Hkv)]; left; eauto. by exists (next_height c, b).
      * intros _. split; cbn; [|rewrite Hn; lia]. unfold seqZ. cbn. rewrite Hh. f_equal.
    + subst c1. split; [|split]; [|set_solver|].
      * split_and!; [constructor..|done].
      * intros _. split; [done|]. cbn. lia.
  - intros [= <- <-]. destruct (drop_obsolete_ok h c Hok) as (Hok' & Hn & Hsub).
    split; [done|]. split; [|split]; [| |done].
    + split_and!; [constructor..|lia].
    + intros b. cbn. rewrite app_nil_r, !list_elem_of_fmap. intros (kv & -> & Hkv). eauto.
Qed.

Lemma in_order_app c out1 c1 out2 c2 :
  in_order c out1 c1 -> in_order c1 out2 c2 -> in_order c (out1 ++ out2) c2.
Proof.
  intros (Hs1 & Hr1 & Hn1) (Hs2 & Hr2 & Hn2). split_and!; [|apply Forall_app; split|lia].
  - rewrite fmap_app. apply StronglySorted_app; split_and!; [|done..].
    intros x y (b & -> & Hb)%list_elem_of_fmap (b' & -> & Hb')%list_elem_of_fmap.
    rewrite Forall_forall in Hr1, Hr2. specialize (Hr1 b Hb). specialize (Hr2 b' Hb'). lia.
  - apply (Forall_impl _ _ _ Hr1). lia.
  - apply (Forall_impl _ _ _ Hr2). lia.
Qed.
Lemma consecutive_app c out1 c1 out2 c2 :
  consecutive c out1 c1 -> consecutive c1 out2 c2 -> consecutive c (out1 ++ out2) c2.
Proof.
  intros (Hs1 & Hn1) (Hs2 & Hn2). unfold consecutive. rewrite fmap_app, length_app, Hs1, Hs2, Hn1, Hn2.
  rewrite Nat2Z.inj_add, seqZ_app by lia. split; [done|lia].
Qed.

Lemma insertions_cons (op : @cache_op T) ops : insertions (op :: ops) = insertions [op] ++ insertions ops.
Proof. by destruct op. Qed.
Lemma cache_run_ok ops : forall c out c', cache_ok c -> cache_run ops c = Val (out, c') ->
  cache_ok c' /\ in_order c out c' /\
  (forall b, b ∈ out ++ (cached c').*2 -> b ∈ (cached c).*2 ++ insertions ops) /\
  (forallb (fun op => negb (is_drop op)) ops = true -> consecutive c out c').
Proof.
  induction ops as [|op ops IH]; intros c out c' Hok; cbn [cache_run].
  - intros [= <- <-]. split; [done|]. split; [|split].
    + split_and!; [constructor..|done].
    + intros b. cbn. by rewrite app_nil_r.
    + intros _. split; [done|]. cbn. lia.
  - destruct (cache_step op c) as [[out1 c1]| |] eqn:Hstep; cbn [mbind run_bind]; [|done..].
    destruct (cache_run ops c1) as [[out2 c2]| |] eqn:Hrun; cbn [mbind run_bind]; [|done..]. intros [= <- <-].
    destruct (cache_step_ok _ _ _ _ Hok Hstep) as (Hok1 & Hord1 & Hin1 & Hc1).
    destruct (IH _ _ _ Hok1 Hrun) as (Hok2 & Hord2 & Hin2 & Hc2).
    split; [done|]. split; [by eapply in_order_app|]. split.
    + intros b. rewrite insertions_cons. specialize (Hin1 b). specialize (Hin2 b). revert Hin1 Hin2. rewrite !elem_of_app. tauto.
    + intros [Hd Hds]%andb_true_iff. apply negb_true_iff in Hd. eapply consecutive_app; eauto.
Qed.

(** The blocks that a cache yields have strictly increasing heights from the
    one it was made with on, each was inserted, and unless obsolete heights are
    dropped they are consecutive. *)
Theorem cache_yields_in_order ops h c0 out c :
  with_next_height h = Ok c0 -> cache_run ops c0 = Val (out, c) ->
  StronglySorted Z.lt (get_height <$> out) /\ Forall (fun b => h <= get_height b) out /\
  (forall b, b ∈ out -> b ∈ insertions ops) /\
  (forallb (fun op => negb (is_drop op)) ops = true ->
   get_height <$> out = seqZ h (Z.of_nat (List.length out))).
Proof.
  intros Hnew Hrun. destruct (with_next_height_ok _ _ Hnew) as (Hok & <- & He).
  destruct (cache_run_ok _ _ _ _ Hok Hrun) as (_ & (Hs & Hr & _) & Hin & Hc).
  split_and!; [done| | |].
  - apply (Forall_impl _ _ _ Hr). cbn. lia.
  - intros b Hb. rewrite He in Hin. apply (Hin b), elem_of_app. by left.
  - intros Hd. apply (Hc Hd).
Qed.

(** ** Reordering *)
Lemma removed_perm c b : cache_ok c -> (next_height c, b) ∈ cached c ->
  cached c ≡ₚ (next_height c, b) :: bt_remove (next_height c) (cached c).
Proof.
  intros [Hs _ _] Hin. unfold sorted_keys, keys, bt_remove in *. set (h := next_height c) in *.
  induction (cached c) as [|[k v] l IH]; [by apply not_elem_of_nil in Hin|]. cbn in Hs.
  apply StronglySorted_inv in Hs as [Hs Hf]. rewrite filter_cons. cbn.
  apply elem_of_cons in Hin as [[= <- <-]|Hin].
  - rewrite decide_False by naive_solver. f_equiv. clear IH Hs.
    induction l as [|[k' v'] l IHl]; [done|]. cbn in Hf. apply Forall_cons in Hf as [Hk Hf].
    rewrite filter_cons, decide_True by (cbn; lia). by rewrite <- IHl.
  - rewrite Forall_forall in Hf. pose proof (Hf h (list_elem_of_fmap_2 fst _ _ Hin)).
    rewrite decide_True by (cbn; lia). rewrite IH at 1 by done. apply perm_swap.
Qed.
Lemma insert_run l : forall c, cache_ok c ->
  Forall (fun b => next_height c <= get_height b) l -> NoDup (get_height <$> l) ->
  (forall b, b ∈ l -> get_height b ∉ keys (cached c)) ->
  exists c', cache_run (Insert <$> l) c = Val ([], c') /\ cache_ok c' /\
    next_height c' = next_height c /\
    cached c' ≡ₚ ((fun b => (get_height b, b)) <$> l) ++ cached c.
Proof.
  induction l as [|b l IH]; intros c Hok Hge Hnd Hfresh; [by exists c|].
  apply Forall_cons in Hge as [Hb Hge]. cbn in Hnd. apply NoDup_cons in Hnd as [Hnew Hnd].
  assert (bt_get (get_height b) (cached c) = None) as Hg by (apply bt_get_None, Hfresh; by left).
  destruct (insert_block b c) as [c1|] eqn:Hi.
  2:{ unfold insert_block in Hi. rewrite (proj2 (Z.ltb_ge _ _)), Hg in Hi by done. done. }
  destruct (insert_block_ok _ _ _ Hok Hi) as (Hok1 & Hn1 & Hp1).
  destruct (IH c1 Hok1) as (c2 & Hrun & Hok2 & Hn2 & Hp2); [by rewrite Hn1|done| |].
  { intros b' Hb'. unfold keys. rewrite Hp1. cbn. apply not_elem_of_cons. split.
    - intros Heq. apply Hnew. rewrite <- Heq. by apply list_elem_of_fmap_2.
    - apply Hfresh. by right. }
  exists c2. cbn [fmap list_fmap cache_run cache_step]. rewrite Hi. cbn [mbind run_bind].
  change (list_fmap T (@cache_op T) Insert l) with (Insert <$> l). rewrite Hrun. cbn.
  split_and!; [done|done|congruence|]. rewrite Hp2, Hp1. cbn. by rewrite Permutation_middle.
Qed.

Lemma pop_run n : forall c, cache_ok c -> next_height c + Z.of_nat n < 2 ^ 64 ->
  keys (cached c) ≡ₚ seqZ (next_height c) (Z.of_nat n) ->
  exists out c', cache_run (replicate n Pop) c = Val (out, c') /\
    get_height <$> out = seqZ (next_height c) (Z.of_nat n) /\ out ≡ₚ (cached c).*2.
Proof.
  induction n as [|n IH]; intros c Hok Hmax Hkeys.
  - exists [], c. split_and!; [done..|]. apply Permutation_nil_r in Hkeys.
    apply fmap_nil_inv in Hkeys. by rewrite Hkeys.
  - assert (is_Some (bt_get (next_height c) (cached c))) as [b Hg].
    { apply bt_get_elem. rewrite Hkeys. apply elem_of_seqZ. lia. }
    assert (pop c = Val (Some b, mk_cache (bt_remove (next_height c) (cached c)) (next_height c + 1))) as Hp.
    { unfold pop. rewrite Hg. destruct (checked_add _ _ _) eqn:Ha; [by apply checked_add_Some in Ha as [-> _]|].
      apply checked_add_None in Ha. lia. }
    destruct (pop_ok _ _ _ Hok Hp) as (Hok1 & _ & Hin & Hh & _). set (c1 := mk_cache _ _) in *.
    assert (cached c ≡ₚ (next_height c, b) :: cached c1) as Hperm by (by apply removed_perm).
    destruct (IH c1 Hok1) as (out & c' & Hrun & Ho & Hout); [cbn; lia| |].
    { apply (Permutation_cons_inv (a := next_height c)). unfold keys in *. rewrite Hperm in Hkeys.
      cbn [fmap list_fmap fst] in Hkeys. etrans; [exact Hkeys|]. rewrite seqZ_cons by lia.
      cbn. replace (Z.pred (Z.of_nat (S n))) with (Z.of_nat n) by lia. by rewrite Z.add_1_r. }
    exists (b :: out), c'. cbn [replicate cache_run cache_step]. rewrite Hp. cbn [mbind run_bind].
    rewrite Hrun. cbn [mbind run_bind option_list app]. split_and!; [done| |].
    + rewrite seqZ_cons by lia. replace (Z.pred (Z.of_nat (S n))) with (Z.of_nat n) by lia.
      rewrite fmap_cons, Hh, Ho, <- Z.add_1_r. done.
    + rewrite Hperm. cbn. by rewrite Hout.
Qed.

Lemma cache_run_app ops1 : forall ops2 c out1 c1 out2 c2,
  cache_run ops1 c = Val (out1, c1) -> cache_run ops2 c1 = Val (out2, c2) ->
  cache_run (ops1 ++ ops2) c = Val (out1 ++ out2, c2).
Proof.
  induction ops1 as [|op ops1 IH]; intros ops2 c out1 c1 out2 c2.
  - by intros [= <- <-].
  - cbn [cache_run app]. destruct (cache_step op c) as [[o c0]| |]; cbn [mbind run_bind]; [|done..].
    destruct (cache_run ops1 c0) as [[o1 c3]| |] eqn:Hr; cbn [mbind run_bind]; [|done..].
    intros [= <- <-] Hr2. rewrite (IH _ _ _ _ _ _ Hr Hr2). cbn [mbind run_bind]. by rewrite app_assoc.
Qed.

(** Blocks of consecutive heights that arrive in any order are all yielded, in
    the order of their heights. *)
Theorem cache_reorders h c0 (l : list T) :
  with_next_height h = Ok c0 -> h + Z.of_nat (List.length l) < 2 ^ 64 ->
  get_height <$> l ≡ₚ seqZ h (Z.of_nat (List.length l)) ->
  exists out c, cache_run ((Insert <$> l) ++ replicate (List.length l) Pop) c0 = Val (out, c) /\
    out ≡ₚ l /\ get_height <$> out = seqZ h (Z.of_nat (List.length l)).
Proof.
  intros Hnew Hmax Hl. destruct (with_next_height_ok _ _ Hnew) as (Hok & <- & He).
  destruct (insert_run l c0) as (c1 & Hrun1 & Hok1 & Hn1 & Hp1); [done| | | |].
  - apply Forall_forall. intros b Hb. apply (list_elem_of_fmap_2 get_height) in Hb.
    rewrite Hl in Hb. apply elem_of_seqZ in Hb. lia.
  - rewrite Hl. apply NoDup_seqZ.
  - intros b _. unfold keys. rewrite He. apply not_elem_of_nil.
  - rewrite He, app_nil_r in Hp1.
    destruct (pop_run (List.length l) c1) as (out & c2 & Hrun2 & Hout & Hperm); [done|by rewrite Hn1| |].
    { unfold keys. rewrite Hp1, <- list_fmap_compose, Hn1, <- Hl. done. }
    exists out, c2. split_and!; [|rewrite Hperm, Hp1, <- list_fmap_compose|by rewrite Hout, Hn1].
    + by apply (cache_run_app _ _ _ _ _ _ _ Hrun1 Hrun2).
    + clear. induction l; cbn; by f_equiv.
Qed.
End runs.

(** ** Witnesses: blocks that are their heights *)
#[local] Instance demo_height : GetSequencerHeight Z := fun h => h.
Lemma cache_yields_in_order_witness :
  StronglySorted Z.lt [3; 4; 7] /\ Forall (fun b => 3 <= b) [3; 4; 7] /\
  (forall b, b ∈ [3; 4; 7] -> b ∈ [4; 3; 2; 7]).
Proof.
  destruct (cache_yields_in_order
    [Insert 4; Pop; Insert 3; Insert 2; Pop; Pop; Pop; Insert 7; DropObsolete 7; Pop] 3
    (mk_cache [] 3) [3; 4; 7] (mk_cache [] 8)) as (Hs & Hf & Hin & _); [reflexivity|reflexivity|].
  split; [exact Hs|]. split; [exact Hf|exact Hin].
Defined.
Lemma cache_reorders_witness : exists out c,
  cache_run [Insert 5; Insert 3; Insert 4; Pop; Pop; Pop] (mk_cache [] 3) = Val (out, c) /\
  out ≡ₚ [5; 3; 4] /\ out = [3; 4; 5].
Proof.
  destruct (cache_reorders 3 (mk_cache [] 3) [5; 3; 4]) as (out & c & Hrun & Hp & Ho).
  - reflexivity.
  - cbn. lia.
  - cbn. apply (Permutation_middle [3; 4] []).
  - exists out, c. split; [exact Hrun|]. split; [exact Hp|]. etransitivity; [symmetry; apply list_fmap_id|exact Ho].
Defined.
