(* ===== verification/CelestiaBlobs.v ===== *)
(** * From Celestia blobs to rollup blocks

    [astria-conductor/src/celestia/]: decoding blobs ([convert.rs]), matching
    the rollup data with verified headers ([reconstruct.rs]).  Compression and
    the list messages are the parameters of [BlobCodec].

    A [HashMap] is the association list of its entries in the order in which
    it is iterated; no statement fixes that order. *)
From S2P Require Import Prelude Denom Types State Chain Ics20.
From S2P Require Import Wire WireActions WireLaws WireTransaction Collections.
From S2P Require Import MerkleIndex MerkleTree MerkleAudit Block SequencerBlock.
From S2P Require Import BTree BlockCache.
From stdpp Require Import base list option strings numbers tactics.
From Stdlib Require Import ZArith Lia Ascii String Strings.Byte.
Open Scope string_scope.
Open Scope Z_scope.

(** ** [convert.rs] *)
Record Blob := mk_blob { blob_namespace : string; blob_data : string }.
Class BlobCodec := {
  blob_codec :: BlockCodec;
  decompress_bytes : string -> option string;
  decode_metadata_list : string -> option (list RawSubmittedMetadata);
  decode_rollup_data_list : string -> option (list RawSubmittedRollupData) }.

Record RawBlobs := mk_raw_blobs {
  rb_celestia_height : Z; rb_header_blobs : list Blob; rb_rollup_blobs : list Blob }.

(** ** [fetch.rs]

    [blob_get_all] is the Celestia node, retried while its transport fails. *)
Definition fetch_blobs_with_retry {E} (blob_get_all : Z -> string -> result E (option (list Blob)))
    (height : Z) (namespace : string) : result E (list Blob) :=
  blobs ← blob_get_all height namespace; Ok (default [] blobs).
Definition fetch_new_blobs {E} (blob_get_all : Z -> string -> result E (option (list Blob)))
    (celestia_height : Z) (rollup_namespace sequencer_namespace : string) : result E RawBlobs :=
  header_blobs ← fetch_blobs_with_retry blob_get_all celestia_height sequencer_namespace;
  rollup_blobs ← fetch_blobs_with_retry blob_get_all celestia_height rollup_namespace;
  Ok (mk_raw_blobs celestia_height header_blobs rollup_blobs).

(** [entries.into_iter().try_for_each(..)], which pushes until an entry is refused *)
Fixpoint push_each {R E A} (try_from : R -> attempt E A) (l : list A) (entries : list R) : run (list A * bool) :=
  match entries with
  | [] => Val (l, true)
  | raw :: entries =>
      r ← try_from raw;
      match r with
      | Ok a => push_each try_from (l ++ [a])%list entries
      | Err _ => Val (l, false)
      end
  end.
(** [extend_from_header_list_if_well_formed], [extend_from_rollup_data_list_if_well_formed] *)
Definition extend_if_well_formed {R E A} (try_from : R -> attempt E A) (l : list A) (entries : list R)
    : run (list A) :=
  '(pushed, well_formed) ← push_each try_from l entries;
  Val (if well_formed : bool then pushed else take (List.length l) pushed).

Section blobs.
Context `{BlobCodec}.

Record ConvertedBlobs := mk_converted {
  cb_celestia_height : Z;
  cb_metadata : list SubmittedMetadata;
  cb_rollup_data : list SubmittedRollupData }.

Definition convert_blob_to_header_list (b : Blob) : option (list RawSubmittedMetadata) :=
  data ← decompress_bytes (blob_data b); decode_metadata_list data.
Definition convert_blob_to_rollup_data_list (b : Blob) : option (list RawSubmittedRollupData) :=
  data ← decompress_bytes (blob_data b); decode_rollup_data_list data.

(** The loop over the blobs of a kind: those of another namespace, and those
    that do not decode, are dropped. *)
Fixpoint extend_from_blobs {R E A} (namespace : string) (convert : Blob -> option (list R))
    (try_from : R -> attempt E A) (l : list A) (blobs : list Blob) : run (list A) :=
  match blobs with
  | [] => Val l
  | b :: blobs =>
      l ← (if String.eqb (blob_namespace b) namespace then
             match convert b with
             | Some entries => extend_if_well_formed try_from l entries
             | None => Val l
             end
           else Val l);
      extend_from_blobs namespace convert try_from l blobs
  end.
Definition decode_raw_blobs (raw_blobs : RawBlobs) (rollup_namespace sequencer_namespace : string)
    : run ConvertedBlobs :=
  metadata ← extend_from_blobs sequencer_namespace convert_blob_to_header_list
               metadata_try_from_raw [] (rb_header_blobs raw_blobs);
  rollup_data ← extend_from_blobs rollup_namespace convert_blob_to_rollup_data_list
                  submitted_rollup_try_from_raw [] (rb_rollup_blobs raw_blobs);
  Val (mk_converted (rb_celestia_height raw_blobs) metadata rollup_data).

(** ** [reconstruct.rs] *)
Record VerifiedBlobs := mk_verified {
  vb_celestia_height : Z;
  vb_header_blobs : IndexMap hash SubmittedMetadata;
  vb_rollup_blobs : list SubmittedRollupData }.
Record ReconstructedBlock := mk_reconstructed {
  rec_celestia_height : Z;
  rec_block_hash : hash;
  rec_header : SequencerBlockHeader;
  rec_transactions : list string;
  rec_extended_commit_info : option CommitMapping }.
#[export] Instance height_of_reconstructed : GetSequencerHeight ReconstructedBlock :=
  fun b => header_height (rec_header b).
#[export] Instance height_of_metadata : GetSequencerHeight SubmittedMetadata :=
  fun m => header_height (sm_header m).

Definition metadata_commit_info (m : SubmittedMetadata) : option CommitMapping :=
  ecp_info <$> sm_extended_commit_info m.

Definition verify_rollup_blob_against_sequencer_blob (rollup_blob : SubmittedRollupData)
    (sequencer_blob : SubmittedMetadata) : run bool :=
  let builder := with_leaf_builder (with_root (audit (srd_proof rollup_blob))
                   (header_rollup_transactions_root (sm_header sequencer_blob))) in
  let builder := audit_write builder (bytes_of (srd_rollup_id rollup_blob)) in
  tree ← from_leaves digest (bytes_of <$> srd_transactions rollup_blob);
  txs_root ← tree_root digest tree;
  perform digest (finish_leaf digest (audit_write builder txs_root)).

(** The header that was removed, with the headers that are left *)
Definition remove_header_blob_matching_rollup_blob (headers : IndexMap hash SubmittedMetadata)
    (rollup : SubmittedRollupData) : run (option (SubmittedMetadata * IndexMap hash SubmittedMetadata)) :=
  match index_get (srd_sequencer_block_hash rollup) headers with
  | None => Val None
  | Some header =>
      ok ← verify_rollup_blob_against_sequencer_blob rollup header;
      Val (if ok : bool then
             Some (header, index_shift_remove (srd_sequencer_block_hash rollup) headers)
           else None)
  end.

Fixpoint match_rollup_blobs (celestia_height : Z) (headers : IndexMap hash SubmittedMetadata)
    (blocks : list ReconstructedBlock) (rollups : list SubmittedRollupData)
    : run (IndexMap hash SubmittedMetadata * list ReconstructedBlock) :=
  match rollups with
  | [] => Val (headers, blocks)
  | rollup :: rollups =>
      matched ← remove_header_blob_matching_rollup_blob headers rollup;
      match matched with
      | Some (header_blob, headers) =>
          let block := mk_reconstructed celestia_height (sm_block_hash header_blob)
                         (sm_header header_blob) (srd_transactions rollup)
                         (metadata_commit_info header_blob) in
          match_rollup_blobs celestia_height headers (blocks ++ [block])%list rollups
      | None => match_rollup_blobs celestia_height headers blocks rollups
      end
  end.
Definition empty_block (celestia_height : Z) (m : SubmittedMetadata) : ReconstructedBlock :=
  mk_reconstructed celestia_height (sm_block_hash m) (sm_header m) [] (metadata_commit_info m).
Definition reconstruct_blocks_from_verified_blobs (blobs : VerifiedBlobs) (rollup_id : RollupId)
    : run (list ReconstructedBlock) :=
  let celestia_height := vb_celestia_height blobs in
  matched ← match_rollup_blobs celestia_height (vb_header_blobs blobs) [] (vb_rollup_blobs blobs);
  let left_over := filter (fun m => negb (contains_rollup_id m rollup_id)) matched.1.*2 in
  Val (matched.2 ++ (empty_block celestia_height <$> left_over))%list.
End blobs.
