(* ===== verification/CommitQuorum.v ===== *)
(** * Commits and their quorum

    [astria-conductor/src/celestia/block_verifier.rs] and [verify.rs]: whether
    a sequencer commit carries the votes of two thirds of the validators, and
    the check of the metadata read from Celestia against it.  The commits and
    validator sets are [tendermint]'s; the CometBFT node that serves them is the
    parameter [SequencerRpc].  The theorems: what the quorum is exactly, and how
    repeated votes reach it. *)
From S2P Require Import Prelude Denom Types State Chain Ics20 Wire WireActions WireLaws.
From S2P Require Import WireTransaction Collections MerkleIndex MerkleTree MerkleAudit Block.
From S2P Require Import SequencerBlock ConductorState BTree BlockCache CelestiaBlobs.
From stdpp Require Import base list option strings gmap numbers tactics.
From Stdlib Require Import ZArith Lia Ascii String Strings.Byte.
Open Scope string_scope.
Open Scope Z_scope.

(** ** Commits: [tendermint::block::Commit] *)
Record BlockId := mk_block_id { block_id_hash : string; block_id_parts : string }.
Inductive CommitSig :=
| BlockIdFlagAbsent
| BlockIdFlagCommit (validator_address : address_bytes) (timestamp : Time) (signature : option string)
| BlockIdFlagNil (validator_address : address_bytes) (timestamp : Time) (signature : option string).
Record Commit := mk_commit {
  commit_height : Z; commit_round : Z; commit_block_id : BlockId; commit_signatures : list CommitSig }.
Record ValidatorInfo := mk_validator_info { vi_pub_key : string; vi_power : Z }.
Record ValidatorsResponse := mk_validators_response {
  vr_block_height : Z; vr_validators : list ValidatorInfo }.
Record SignedHeader := mk_signed_header { sh_chain_id : string; sh_commit : Commit }.
(** The vote of a precommit *)
Record CanonicalVote := mk_canonical_vote {
  cv_height : Z; cv_round : Z; cv_block_id : BlockId; cv_timestamp : Time; cv_chain_id : string }.

Inductive QuorumError :=
| QuorumError_CommitHeightMismatch (expected_height actual_height : Z)
| QuorumError_CommitVotingPowerExceedsTotal (commit_voting_power total_voting_power : Z)
| QuorumError_EmptySignature (validator : address_bytes)
| QuorumError_NoQuorum (commit_voting_power total_voting_power : Z)
| QuorumError_NoSuchValidator (validator : address_bytes)
| QuorumError_Signature
| QuorumError_TotalVotingPowerOverflowed
| QuorumError_ValidatorAddressMismatch (expected actual : address_bytes)
| QuorumError_VerificationKey
| QuorumError_VerifyVoteSignature.

Class CometBft := {
  account_id_of : string -> address_bytes;
  encode_canonical_vote : CanonicalVote -> string }.

(** ** [block_verifier.rs] *)
Definition does_commit_voting_power_have_quorum (commited total : Z) : bool :=
  if total <? 3 then saturating_mul 64 total 2 <? saturating_mul 64 commited 3
  else saturating_mul 64 (total / 3) 2 <? commited.

Section quorum.
Context `{Signing, TendermintHeight, CometBft}.

Definition verify_vote_signature (timestamp : Time) (commit : Commit) (chain_id public_key signature_bytes : string)
    : result QuorumError unit :=
  ensure (ed25519_key_valid public_key) QuorumError_VerificationKey;;
  ensure (ed25519_signature_valid signature_bytes) QuorumError_Signature;;
  ensure (ed25519_verify public_key signature_bytes
            (encode_canonical_vote (mk_canonical_vote (commit_height commit) (commit_round commit)
               (commit_block_id commit) timestamp chain_id)))
    QuorumError_VerifyVoteSignature.

Fixpoint sum_powers (acc : Z) (l : list ValidatorInfo) : option Z :=
  match l with
  | [] => Some acc
  | v :: l => acc ← checked_add 64 acc (vi_power v); sum_powers acc l
  end.
Definition validator_map (l : list ValidatorInfo) : gmap address_bytes ValidatorInfo :=
  fold_left (fun m v => <[account_id_of (vi_pub_key v) := v]> m) l ∅.

(** The loop over the signatures of the commit *)
Fixpoint count_votes (validators : gmap address_bytes ValidatorInfo) (commit : Commit) (chain_id : string)
    (commit_voting_power : Z) (votes : list CommitSig) : result QuorumError Z :=
  match votes with
  | [] => Ok commit_voting_power
  | BlockIdFlagCommit validator_address timestamp signature :: votes =>
      signature ← ok_or (QuorumError_EmptySignature validator_address) signature;
      validator ← ok_or (QuorumError_NoSuchValidator validator_address) (validators !! validator_address);
      let address_from_pubkey := account_id_of (vi_pub_key validator) in
      ensure (bool_decide (address_from_pubkey = validator_address))
        (QuorumError_ValidatorAddressMismatch validator_address address_from_pubkey);;
      verify_vote_signature timestamp commit chain_id (vi_pub_key validator) signature;;
      count_votes validators commit chain_id
        (saturating_add 64 commit_voting_power (vi_power validator)) votes
  | _ :: votes => count_votes validators commit chain_id commit_voting_power votes
  end.

Definition ensure_commit_has_quorum (commit : Commit) (validator_set : ValidatorsResponse) (chain_id : string)
    : run (result QuorumError unit) :=
  expected_height ← height_increment (vr_block_height validator_set);
  Val (
    ensure (expected_height =? commit_height commit)
      (QuorumError_CommitHeightMismatch expected_height (commit_height commit));;
    total ← ok_or QuorumError_TotalVotingPowerOverflowed (sum_powers 0 (vr_validators validator_set));
    power ← count_votes (validator_map (vr_validators validator_set)) commit chain_id 0
              (commit_signatures commit);
    ensure (power <=? total) (QuorumError_CommitVotingPowerExceedsTotal power total);;
    ensure (does_commit_voting_power_have_quorum power total) (QuorumError_NoQuorum power total)).
End quorum.

(** ** [verify.rs] *)
Record VerificationMeta := mk_verification_meta { commit_header : SignedHeader }.
Inductive VerificationMetaError :=
| VerificationMetaError_CantVerifyHeightZero
| VerificationMetaError_FetchCommit (height : Z)
| VerificationMetaError_FetchValidators (prev_height height : Z)
| VerificationMetaError_NoQuorum (height_of_commit height_of_validator_set : Z) (source : QuorumError).

Class SequencerRpc := {
  rpc_commit : Z -> option SignedHeader;
  rpc_validators : Z -> option ValidatorsResponse }.

Section verify.
Context `{BlobCodec, TendermintHeight, CometBft, SequencerRpc}.

(** [VerificationMeta::fetch] *)
Definition fetch_verification_meta (height : Z) : run (result VerificationMetaError VerificationMeta) :=
  if height =? 0 then Val (Err VerificationMetaError_CantVerifyHeightZero)
  else
    let prev_height := saturating_sub height 1 in
    if negb (tm_height_valid prev_height) then Panic
    else
      match rpc_commit height, rpc_validators prev_height with
      | None, _ => Val (Err (VerificationMetaError_FetchCommit height))
      | _, None => Val (Err (VerificationMetaError_FetchValidators prev_height height))
      | Some signed_header, Some validators =>
          quorum ← ensure_commit_has_quorum (sh_commit signed_header) validators
                     (sh_chain_id signed_header);
          Val (map_err (VerificationMetaError_NoQuorum height prev_height) quorum;;
               Ok (mk_verification_meta signed_header))
      end.

(** The cache of the metadata needed to verify a height; [try_get_with] keeps
    what was fetched without an error. *)
Definition MetaCache : Type := gmap Z VerificationMeta.
Definition try_get_with (cache : MetaCache) (height : Z)
    : run (result VerificationMetaError VerificationMeta * MetaCache) :=
  match cache !! height with
  | Some meta => Val (Ok meta, cache)
  | None =>
      r ← fetch_verification_meta height;
      Val (r, match r with Ok meta => <[height := meta]> cache | Err _ => cache end)
  end.

Definition ensure_chain_ids_match (in_commit in_header : string) : result string unit :=
  ensure (String.eqb in_commit in_header) "expected cometbft chain ID from commit".
Definition ensure_block_hashes_match (in_commit : string) (in_header : hash) : result string unit :=
  ensure (bool_decide (in_commit = text_of in_header)) "expected block hash from commit".

(** [BlobVerifier::verify_metadata]: what the two checks find is logged. *)
Definition verify_metadata (cache : MetaCache) (metadata : SubmittedMetadata)
    : run (option SubmittedMetadata * MetaCache) :=
  '(cached, cache) ← try_get_with cache (header_height (sm_header metadata));
  match cached with
  | Err _ => Val (None, cache)
  | Ok cached =>
      let checks :=
        ensure_chain_ids_match (sh_chain_id (commit_header cached)) (header_chain_id (sm_header metadata));;
        ensure_block_hashes_match (block_id_hash (commit_block_id (sh_commit (commit_header cached))))
          (sm_block_hash metadata) in
      let _logged := match checks with Err error => Some error | Ok _ => None end in
      Val (Some metadata, cache)
  end.

(** The tasks in the order in which they end; one that panics is dropped. *)
Fixpoint verify_tasks (cache : MetaCache) (verified : IndexMap hash SubmittedMetadata)
    (tasks : list SubmittedMetadata) : IndexMap hash SubmittedMetadata * MetaCache :=
  match tasks with
  | [] => (verified, cache)
  | blob :: tasks =>
      match verify_metadata cache blob with
      | Val (Some blob, cache) => verify_tasks cache (index_insert (sm_block_hash blob) blob verified) tasks
      | Val (None, cache) => verify_tasks cache verified tasks
      | Panic | NoFuel => verify_tasks cache verified tasks
      end
  end.
(** [schedule] is the order in which the tasks that were spawned end. *)
Definition verify_metadata_blobs (schedule : list SubmittedMetadata -> list SubmittedMetadata)
    (cache : MetaCache) (converted : ConvertedBlobs) (rollup_state : RollupState)
    : run (VerifiedBlobs * MetaCache) :=
  next_expected ← next_expected_firm_sequencer_height rollup_state;
  let spawned := filter (fun m => next_expected <= header_height (sm_header m)) (cb_metadata converted) in
  let '(verified, cache) := verify_tasks cache [] (schedule spawned) in
  Val (mk_verified (cb_celestia_height converted) verified (cb_rollup_data converted), cache).

(** [FetchConvertVerifyAndReconstruct::execute] on the blobs that were fetched;
    the panics of the two blocking tasks are errors of this one. *)
Definition blocking {A} (message : string) (r : run A) : result string A :=
  match r with Val a => Ok a | Panic | NoFuel => Err message end.
Definition convert_verify_and_reconstruct (schedule : list SubmittedMetadata -> list SubmittedMetadata)
    (cache : MetaCache) (new_blobs : RawBlobs) (rollup_id : RollupId)
    (rollup_namespace sequencer_namespace : string) (rollup_state : RollupState)
    : run (result string (list ReconstructedBlock) * MetaCache) :=
  match blocking "encountered panic while decoding raw Celestia blobs"
          (decode_raw_blobs new_blobs rollup_namespace sequencer_namespace) with
  | Err e => Val (Err e, cache)
  | Ok decoded =>
      '(verified, cache) ← verify_metadata_blobs schedule cache decoded rollup_state;
      Val (blocking "encountered panic while reconstructing blocks from verified blobs"
             (reconstruct_blocks_from_verified_blobs verified rollup_id), cache)
  end.
End verify.

(** * Which commits the conductor accepts

    The votes behind an accepted commit, the exact threshold of the quorum
    check, and a vote that is counted as often as it is listed. *)

(** ** The threshold *)
Lemma quorum_threshold c t : uint 64 c -> uint 64 t ->
  does_commit_voting_power_have_quorum c t = true <->
  if t <? 3 then 2 * t < 3 * c else 2 * (t / 3) < c.
Proof.
  unfold uint, does_commit_voting_power_have_quorum, saturating_mul, umax. intros Hc Ht.
  pose proof (Z.div_mod t 3 ltac:(lia)). pose proof (Z.mod_pos_bound t 3 ltac:(lia)).
  destruct (Z.ltb_spec t 3); rewrite Z.ltb_lt; lia.
Qed.

(** C21. The check asks for more than two thirds of the power unless the total
    leaves two when divided by three; then a commit with two thirds of the
    power or less is accepted. *)
Theorem quorum_is_two_thirds c t : uint 64 c -> uint 64 t ->
  (t < 3 \/ t mod 3 <> 2 ->
   does_commit_voting_power_have_quorum c t = true <-> 2 * t < 3 * c) /\
  (3 <= t -> t mod 3 = 2 ->
   does_commit_voting_power_have_quorum (2 * (t / 3) + 1) t = true /\ 3 * (2 * (t / 3) + 1) <= 2 * t).
Proof.
  intros Hc Ht. pose proof (Z.div_mod t 3 ltac:(lia)). pose proof (Z.mod_pos_bound t 3 ltac:(lia)).
  unfold uint in *. split.
  - intros Hmod. rewrite quorum_threshold by done. destruct (Z.ltb_spec t 3); lia.
  - intros Hle Hmod. split; [|lia]. apply quorum_threshold; [unfold uint; lia|done|].
    rewrite (proj2 (Z.ltb_ge _ _)) by done. lia.
Qed.
Lemma quorum_is_two_thirds_witness :
  does_commit_voting_power_have_quorum 3 5 = true /\ 3 * 3 <= 2 * 5 /\
  (does_commit_voting_power_have_quorum 3 4 = true <-> 2 * 4 < 3 * 3).
Proof.
  destruct (quorum_is_two_thirds 3 5) as [_ Hlow]; [split; lia..|].
  destruct (quorum_is_two_thirds 3 4) as [Hexact _]; [split; lia..|].
  split; [|split]; [apply (Hlow ltac:(lia) eq_refl)..|]. apply Hexact. right. discriminate.
Defined.

(** ** The votes *)
Section votes.
Context `{Signing, TendermintHeight, CometBft}.

Definition is_commit_vote (v : CommitSig) : bool :=
  match v with BlockIdFlagCommit _ _ _ => true | _ => false end.
Definition vote_message (commit : Commit) (chain_id : string) (timestamp : Time) : string :=
  encode_canonical_vote (mk_canonical_vote (commit_height commit) (commit_round commit)
    (commit_block_id commit) timestamp chain_id).
(** The vote is signed by a validator of the set for the block of the commit. *)
Definition signed_by (validators : list ValidatorInfo) (commit : Commit) (chain_id : string)
    (vote : CommitSig) (v : ValidatorInfo) : Prop :=
  match vote with
  | BlockIdFlagCommit address timestamp (Some signature) =>
      v ∈ validators /\ account_id_of (vi_pub_key v) = address /\
      ed25519_verify (vi_pub_key v) signature (vote_message commit chain_id timestamp) = true
  | _ => False
  end.

Lemma validator_map_elem l : forall (m : gmap address_bytes ValidatorInfo) a v,
  fold_left (fun m v => <[account_id_of (vi_pub_key v) := v]> m) l m !! a = Some v ->
  v ∈ l \/ m !! a = Some v.
Proof.
  induction l as [|w l IH]; cbn; intros m a v Hl; [by right|].
  destruct (IH _ _ _ Hl) as [|Hm]; [left; by right|].
  destruct (decide (account_id_of (vi_pub_key w) = a)) as [<-|].
  - rewrite lookup_insert_eq in Hm. injection Hm as <-. left. by left.
  - rewrite lookup_insert_ne in Hm by done. by right.
Qed.

Lemma count_votes_signed validators commit chain_id votes : forall acc n,
  count_votes (validator_map validators) commit chain_id acc votes = Ok n ->
  exists signers, Forall2 (signed_by validators commit chain_id) (filter is_commit_vote votes) signers /\
    n = foldl (saturating_add 64) acc (vi_power <$> signers).
Proof.
  induction votes as [|vote votes IH]; intros acc n; cbn [count_votes].
  - intros [= <-]. exists []. split; [constructor|done].
  - destruct vote as [|a t s|]; [apply IH| |apply IH].
    destruct s as [s|]; cbn [ok_or mbind result_bind]; [|done].
    destruct (validator_map validators !! a) as [v|] eqn:Hv; cbn [ok_or mbind result_bind]; [|done].
    destruct (bool_decide _) eqn:Ha; cbn [ensure mbind result_bind]; [|done].
    apply bool_decide_eq_true in Ha. unfold verify_vote_signature.
    destruct (ed25519_key_valid _); cbn [ensure mbind result_bind]; [|done].
    destruct (ed25519_signature_valid _); cbn [ensure mbind result_bind]; [|done].
    destruct (ed25519_verify _ _ _) eqn:Hver; cbn [ensure mbind result_bind]; [|done].
    intros Hn. destruct (IH _ _ Hn) as (signers & Hs & ->). exists (v :: signers).
    split; [|done]. constructor; [|done]. split; [|done].
    destruct (validator_map_elem _ _ _ _ Hv) as [|Hm]; [done|]. by rewrite lookup_empty in Hm.
Qed.

(** A commit that is accepted is one height above the validators, and every vote
    that it counts is signed, for its block, by a validator of the set; the
    power of these votes passes the quorum check. *)
Theorem accepted_commit_is_signed commit validators chain_id :
  ensure_commit_has_quorum commit validators chain_id = Val (Ok tt) ->
  height_increment (vr_block_height validators) = Val (commit_height commit) /\
  exists signers total,
    Forall2 (signed_by (vr_validators validators) commit chain_id)
      (filter is_commit_vote (commit_signatures commit)) signers /\
    sum_powers 0 (vr_validators validators) = Some total /\
    does_commit_voting_power_have_quorum (foldl (saturating_add 64) 0 (vi_power <$> signers)) total = true /\
    foldl (saturating_add 64) 0 (vi_power <$> signers) <= total.
Proof.
  unfold ensure_commit_has_quorum. destruct (height_increment _) as [h| |]; cbn; [|done..].
  intros [= Hq]. destruct (Z.eqb_spec h (commit_height commit)) as [Heq|]; cbn in Hq; [subst h|done].
  split; [done|]. destruct (sum_powers _ _) as [total|]; cbn in Hq; [|done].
  destruct (count_votes _ _ _ _ _) as [n|] eqn:Hn; cbn in Hq; [|done].
  destruct (Z.leb_spec n total); cbn in Hq; [|done].
  destruct (does_commit_voting_power_have_quorum _ _) eqn:Hd; cbn in Hq; [|done].
  destruct (count_votes_signed _ _ _ _ _ _ Hn) as (signers & Hs & ->). by exists signers, total.
Qed.

(** A vote is counted as often as the commit lists it: a single signature,
    repeated, is a quorum. *)
Theorem repeated_vote_is_quorum validators commit chain_id v address timestamp signature n :
  height_increment (vr_block_height validators) = Val (commit_height commit) ->
  validator_map (vr_validators validators) !! address = Some v ->
  account_id_of (vi_pub_key v) = address ->
  ed25519_key_valid (vi_pub_key v) = true -> ed25519_signature_valid signature = true ->
  ed25519_verify (vi_pub_key v) signature (vote_message commit chain_id timestamp) = true ->
  commit_signatures commit = replicate n (BlockIdFlagCommit address timestamp (Some signature)) ->
  forall total, sum_powers 0 (vr_validators validators) = Some total ->
  0 <= vi_power v -> Z.of_nat n * vi_power v <= total -> uint 64 total ->
  does_commit_voting_power_have_quorum (Z.of_nat n * vi_power v) total = true ->
  ensure_commit_has_quorum commit validators chain_id = Val (Ok tt).
Proof.
  intros Hh Hv Ha Hk Hs Hver Hsigs total Htotal Hpos Hle Hu Hq. unfold uint in Hu.
  assert (forall m acc, 0 <= acc -> acc + Z.of_nat m * vi_power v <= total ->
    count_votes (validator_map (vr_validators validators)) commit chain_id acc
      (replicate m (BlockIdFlagCommit address timestamp (Some signature))) =
    Ok (acc + Z.of_nat m * vi_power v)) as Hcount.
  { induction m as [|m IH]; intros acc Hacc Hm; cbn [replicate count_votes].
    - cbn. f_equal. lia.
    - rewrite Hv. cbn [ok_or mbind result_bind]. rewrite Ha, bool_decide_true by done.
      cbn [ensure mbind result_bind]. unfold verify_vote_signature. unfold vote_message in Hver.
      rewrite Hk, Hs, Hver. cbn [ensure mbind result_bind]. unfold saturating_add, umax.
      rewrite Nat2Z.inj_succ, Z.mul_succ_l in Hm |- *.
      assert (0 <= Z.of_nat m * vi_power v) by lia.
      rewrite Z.min_l by lia. rewrite IH by lia. f_equal. lia. }
  unfold ensure_commit_has_quorum. rewrite Hh. cbn. rewrite Z.eqb_refl. cbn. rewrite Htotal. cbn.
  rewrite Hsigs, (Hcount n 0), Z.add_0_l by lia. cbn. rewrite (proj2 (Z.leb_le _ _)) by done. cbn.
  by rewrite Hq.
Qed.
End votes.
