(* ===== verification/CelestiaTheorems.v ===== *)
(** * What the conductor reads back from Celestia

    Blocks that the relayer split into blobs are reconstructed exactly, in
    whatever order their blobs arrive; and three ways in which blobs that
    anyone can post reach the rollup or stop the conductor. *)
From S2P Require Import Prelude Denom Types State Chain Ics20.
From S2P Require Import Wire WireActions WireLaws WireTransaction Collections.
From S2P Require Import MerkleIndex MerkleTree MerkleAudit MerkleCorrect Block.
From S2P Require Import SequencerBlock BlockLemmas BlockTheorems.
From S2P Require Import ConductorState BTree BlockCache CelestiaBlobs CommitQuorum.
From stdpp Require Import base list option strings gmap numbers tactics.
From Stdlib Require Import ZArith Lia Ascii String Strings.Byte.
Open Scope string_scope.
Open Scope Z_scope.

(** ** Decoding *)
Section decoding.
Context `{BlobCodec}.

Lemma push_each_Ok {R E A} (try_from : R -> attempt E A) entries : forall l l',
  Forall2 (fun r a => try_from r = Val (Ok a)) entries l' ->
  push_each try_from l entries = Val ((l ++ l')%list, true).
Proof.
  induction entries as [|r entries IH]; intros l l' Hall; inversion Hall as [|? a ? l1 Hr Hrest]; subst; cbn.
  - by rewrite app_nil_r.
  - rewrite Hr. cbn. rewrite (IH _ _ Hrest), <- app_assoc. done.
Qed.
(** A blob of the namespace that holds the messages of the entries *)
Definition carries {R A} (namespace : string) (convert : Blob -> option (list R))
    (into_raw : A -> R) (b : Blob) (entries : list A) : Prop :=
  blob_namespace b = namespace /\ convert b = Some (into_raw <$> entries).
Lemma extend_from_blobs_Ok {R E A} namespace convert into_raw (try_from : R -> attempt E A) blobs :
  forall l entries,
  Forall2 (carries namespace convert into_raw) blobs entries ->
  Forall (fun a => try_from (into_raw a) = Val (Ok a)) (List.concat entries) ->
  extend_from_blobs namespace convert try_from l blobs = Val (l ++ List.concat entries)%list.
Proof.
  induction blobs as [|b blobs IH]; intros l entries Hall Hround;
    inversion Hall as [|? es ? ess Hb Hrest]; subst; cbn.
  - by rewrite app_nil_r.
  - destruct Hb as (Hns & Hconv). rewrite Hns, String.eqb_refl, Hconv. cbn in Hround.
    apply Forall_app in Hround as [Hes Hess]. unfold extend_if_well_formed.
    rewrite (push_each_Ok _ _ _ es).
    + cbn. rewrite (IH _ _ Hrest Hess), <- app_assoc. done.
    + clear -Hes. induction Hes; cbn; constructor; auto.
Qed.

(** A proof that is longer than its tree is deep makes the decoding panic. *)
Lemma overlong_root_proof_panics `{Sha256} path leaf root :
  List.length path = 32%nat -> verify digest (MkProof path 0 1) leaf root = Panic.
Proof.
  intros Hlen. unfold verify, perform, reconstruct_root_with_leaf_hash.
  assert (chunks32 path = [path]) as Hchunks.
  { unfold chunks32. rewrite Hlen. destruct path as [|x path]; [done|]. cbn [chunks32_fuel].
    rewrite take_ge, drop_ge by (rewrite Hlen; done). done. }
  cbn [audit_proof with_root with_leaf with_leaf_hash audit audit_path leaf_index tree_size].
  rewrite Hchunks. assert (complete_parent 0 1 = Panic) as Hpanic by (vm_compute; reflexivity).
  change (leaf_index_to_tree_index 0) with (Val 0). cbn [mbind run_bind reconstruct_loop].
  by rewrite Hpanic.
Qed.
Lemma overlong_metadata_panics r u path :
  unchecked_metadata_try_from_raw r = Val (Ok u) ->
  usm_rollup_transactions_proof u = MkProof path 0 1 -> List.length path = 32%nat ->
  metadata_try_from_raw r = Panic.
Proof.
  intros Hr Hp Hlen. unfold metadata_try_from_raw. rewrite Hr. cbn [mbind attempt_bind].
  unfold metadata_try_from_unchecked. rewrite Hp, overlong_root_proof_panics by done. done.
Qed.
Lemma extend_from_blobs_panics {R E A} namespace convert (try_from : R -> attempt E A) b blobs : forall l r,
  b ∈ blobs -> blob_namespace b = namespace -> convert b = Some [r] -> try_from r = Panic ->
  forall l', extend_from_blobs namespace convert try_from l blobs <> Val l'.
Proof.
  induction blobs as [|b' blobs IH]; intros l r Hb Hns Hconv Hr l'; [by apply not_elem_of_nil in Hb|].
  cbn. apply elem_of_cons in Hb as [<-|Hb].
  - rewrite Hns, String.eqb_refl, Hconv. unfold extend_if_well_formed. cbn. by rewrite Hr.
  - destruct (if String.eqb _ _ then _ else _) as [l1| |]; cbn; [|done..]. by eapply IH.
Qed.

Context `{TendermintHeight, CometBft, SequencerRpc}.
(** One blob with an overlong proof, which anyone can post in the sequencer's
    namespace, makes the task that reads its Celestia height fail, and with it
    the reader, whatever else is at that height. *)
Theorem overlong_proof_stops_the_reader schedule cache blobs id rollup_ns sequencer_ns state b r u path :
  b ∈ rb_header_blobs blobs -> blob_namespace b = sequencer_ns -> convert_blob_to_header_list b = Some [r] ->
  unchecked_metadata_try_from_raw r = Val (Ok u) ->
  usm_rollup_transactions_proof u = MkProof path 0 1 -> List.length path = 32%nat ->
  convert_verify_and_reconstruct schedule cache blobs id rollup_ns sequencer_ns state =
    Val (Err "encountered panic while decoding raw Celestia blobs", cache).
Proof.
  intros Hb Hns Hconv Hr Hp Hlen. unfold convert_verify_and_reconstruct, decode_raw_blobs.
  pose proof (extend_from_blobs_panics sequencer_ns convert_blob_to_header_list metadata_try_from_raw b
    (rb_header_blobs blobs) [] r Hb Hns Hconv (overlong_metadata_panics _ _ _ Hr Hp Hlen)) as Hpanic.
  destruct (extend_from_blobs _ _ metadata_try_from_raw _ _) as [l| |]; [by destruct (Hpanic l)|done..].
Qed.
End decoding.

(** ** Matching rollup data with headers *)
Section reconstruct.
Context `{BlobCodec} {laws : BlockLaws}.

Definition metadata_of (b : SequencerBlock) : SubmittedMetadata := (split_for_celestia b).1.
Definition header_entry (b : SequencerBlock) : hash * SubmittedMetadata := (sb_block_hash b, metadata_of b).
Definition blob_of_rollup (b : SequencerBlock) (id : RollupId) (t : RollupTransactions) : SubmittedRollupData :=
  mk_rollup_blob (sb_block_hash b) id (rt_transactions t) (rt_proof t).
Definition rollup_blob (id : RollupId) (b : SequencerBlock) : option SubmittedRollupData :=
  blob_of_rollup b id <$> index_get id (sb_rollup_transactions b).
(** What the executor should receive for a block *)
Definition firm_block (celestia_height : Z) (id : RollupId) (b : SequencerBlock) : ReconstructedBlock :=
  mk_reconstructed celestia_height (sb_block_hash b) (sb_header b)
    (match index_get id (sb_rollup_transactions b) with Some t => rt_transactions t | None => [] end)
    (ecp_info <$> sb_extended_commit_info b).

Lemma index_get_elem {K V} `{EqDecision K} (k : K) (v : V) m : index_get k m = Some v -> (k, v) ∈ m.
Proof.
  induction m as [|[k' v'] m IH]; cbn; [done|]. case_decide as Hk; [|right; auto].
  intros [= ->]. subst. by left.
Qed.
Lemma index_remove_perm {K V} `{EqDecision K} (k : K) (v : V) m : unique m -> (k, v) ∈ m ->
  m ≡ₚ (k, v) :: index_shift_remove k m.
Proof.
  unfold unique. induction m as [|[k' v'] m IH]; cbn; [by intros _ ?%not_elem_of_nil|].
  intros [Hk Hm]%list.NoDup_cons [Heq|Hin]%elem_of_cons.
  - injection Heq as <- <-. by rewrite decide_True.
  - rewrite decide_False; [rewrite <- perm_swap; by f_equiv; apply IH|].
    intros ->. apply Hk. by apply (list_elem_of_fmap_2 fst _ _ Hin).
Qed.

(** A blob of the block, for whatever rollup, verifies against its metadata. *)
Lemma rollup_blob_verifies b id t : block_ok b -> (id, t) ∈ sb_rollup_transactions b ->
  verify_rollup_blob_against_sequencer_blob (blob_of_rollup b id t) (metadata_of b) = Val true.
Proof.
  intros [_ Hrollups _ _ _ Hmatch] Hin.
  pose proof (proj1 (list.Forall_forall _ _) Hmatch _ Hin) as Hm.
  pose proof (proj1 (list.Forall_forall _ _) Hrollups _ Hin) as (Hid & _). cbn in Hm, Hid. subst id.
  exact Hm.
Qed.

Lemma match_one height headers b id t : unique headers -> header_entry b ∈ headers -> block_ok b ->
  (id, t) ∈ sb_rollup_transactions b ->
  remove_header_blob_matching_rollup_blob headers (blob_of_rollup b id t) =
    Val (Some (metadata_of b, index_shift_remove (sb_block_hash b) headers)) /\
  mk_reconstructed height (sm_block_hash (metadata_of b)) (sm_header (metadata_of b))
    (srd_transactions (blob_of_rollup b id t)) (metadata_commit_info (metadata_of b)) =
  mk_reconstructed height (sb_block_hash b) (sb_header b) (rt_transactions t)
    (ecp_info <$> sb_extended_commit_info b).
Proof.
  intros Hu Hb Hok Hin. split; [|done]. unfold remove_header_blob_matching_rollup_blob.
  apply index_get_Some in Hb; [|done]. cbn [srd_sequencer_block_hash blob_of_rollup].
  rewrite Hb. by rewrite rollup_blob_verifies.
Qed.

Lemma match_all height id rollups : forall headers bs acc,
  unique headers -> headers ≡ₚ header_entry <$> bs -> rollups ≡ₚ omap (rollup_blob id) bs ->
  Forall block_ok bs ->
  exists headers' bs' blocks,
    match_rollup_blobs height headers acc rollups = Val (headers', (acc ++ blocks)%list) /\
    headers' ≡ₚ header_entry <$> bs' /\ omap (rollup_blob id) bs' = [] /\
    (blocks ++ (firm_block height id <$> bs'))%list ≡ₚ firm_block height id <$> bs.
Proof.
  induction rollups as [|r rollups IH]; intros headers bs acc Hu Hheaders Hrollups Hok.
  - exists headers, bs, []. cbn. rewrite app_nil_r. split_and!; [done..|by apply Permutation_nil|done].
  - assert (r ∈ omap (rollup_blob id) bs) as (b & Hb & Hrb)%list_elem_of_omap by (rewrite <- Hrollups; by left).
    apply list_elem_of_split in Hb as (l1 & l2 & ->). set (bs' := (l1 ++ l2)%list).
    assert (l1 ++ b :: l2 ≡ₚ b :: bs')%list as Hbs by (symmetry; apply Permutation_middle).
    unfold rollup_blob in Hrb. destruct (index_get id _) as [t|] eqn:Ht; [|done]. injection Hrb as <-.
    assert (block_ok b /\ Forall block_ok bs') as [Hob Hok'].
    { rewrite Hbs in Hok. by apply list.Forall_cons in Hok. }
    rewrite Hbs in Hheaders, Hrollups.
    assert (header_entry b ∈ headers) as Hin by (rewrite Hheaders; by left).
    destruct (match_one height headers b id t Hu Hin Hob (index_get_elem _ _ _ Ht)) as [Hmatch Hblock].
    pose proof (index_remove_perm _ _ _ Hu Hin) as Hremove.
    destruct (IH (index_shift_remove (sb_block_hash b) headers) bs'
      (acc ++ [firm_block height id b])%list) as (headers' & left & blocks & Hrun & Hh & Ho & Hp).
    + by apply shift_remove_unique.
    + apply (Permutation_cons_inv (a := header_entry b)). by rewrite <- Hremove.
    + apply (Permutation_cons_inv (a := blob_of_rollup b id t)). rewrite Hrollups. cbn.
      unfold rollup_blob at 1. by rewrite Ht.
    + done.
    + exists headers', left, (firm_block height id b :: blocks). split_and!; [|done..|].
      * cbn [match_rollup_blobs]. rewrite Hmatch. cbn [mbind run_bind]. rewrite Hblock.
        assert (firm_block height id b = mk_reconstructed height (sb_block_hash b) (sb_header b)
          (rt_transactions t) (ecp_info <$> sb_extended_commit_info b)) as <- by (unfold firm_block; by rewrite Ht).
        by rewrite Hrun, <- app_assoc.
      * rewrite Hbs. cbn. by rewrite Hp.
Qed.

(** Headers and rollup data of the same blocks, in any order, give each block
    back exactly once. *)
Lemma reconstruct_all height id headers rollups bs :
  unique headers -> headers ≡ₚ header_entry <$> bs -> rollups ≡ₚ omap (rollup_blob id) bs ->
  Forall block_ok bs ->
  exists blocks, reconstruct_blocks_from_verified_blobs (mk_verified height headers rollups) id = Val blocks /\
    blocks ≡ₚ firm_block height id <$> bs.
Proof.
  intros Hu Hh Hr Hok. destruct (match_all height id rollups headers bs [] Hu Hh Hr Hok)
    as (headers' & bs' & blocks & Hrun & Hheaders & Hnone & Hp).
  unfold reconstruct_blocks_from_verified_blobs. cbn [vb_celestia_height vb_header_blobs vb_rollup_blobs].
  rewrite Hrun. cbn [mbind run_bind fst snd app]. eexists. split; [done|]. rewrite <- Hp. f_equiv.
  rewrite Hheaders, <- list_fmap_compose. clear -Hnone.
  induction bs' as [|b bs IH]; [done|]. cbn in Hnone. destruct (rollup_blob id b) eqn:Hb; [done|].
  unfold rollup_blob in Hb. destruct (index_get id _) as [t|] eqn:Hg; [done|].
  apply index_get_None in Hg. rewrite fmap_cons, filter_cons. cbn [compose header_entry snd].
  rewrite decide_True.
  - cbn. f_equiv; [|by apply IH]. unfold firm_block, empty_block. apply index_get_None in Hg. by rewrite Hg.
  - unfold contains_rollup_id. by rewrite bool_decide_false.
Qed.
End reconstruct.

(** ** The whole path *)
Section path.
Context `{BlobCodec} {laws : BlockLaws} `{TendermintHeight, CometBft, SequencerRpc}.

(** The sequencer serves a commit with a quorum at the height. *)
Definition vouched (height : Z) : Prop :=
  exists meta, fetch_verification_meta height = Val (Ok meta).
Lemma verify_metadata_vouched cache m : vouched (header_height (sm_header m)) ->
  exists cache', verify_metadata cache m = Val (Some m, cache').
Proof.
  intros (meta & Hfetch). unfold verify_metadata, try_get_with. destruct (cache !! _) as [cached|].
  - by eexists.
  - rewrite Hfetch. by eexists.
Qed.
Lemma verify_tasks_vouched tasks : forall cache verified,
  Forall (fun m => vouched (header_height (sm_header m))) tasks ->
  (verify_tasks cache verified tasks).1 =
    fold_left (fun l kv => index_insert kv.1 kv.2 l) ((fun m => (sm_block_hash m, m)) <$> tasks) verified.
Proof.
  induction tasks as [|m tasks IH]; intros cache verified Hall; cbn; [done|].
  apply list.Forall_cons in Hall as [Hm Hall]. destruct (verify_metadata_vouched cache m Hm) as (cache' & ->).
  apply (IH cache' _ Hall).
Qed.

(** What is reconstructed: the metadata of the blocks, by hash, and the rollup
    blobs that were posted, as long as they belong to the blocks *)
Lemma converted_and_verified schedule cache blobs id rollup_ns sequencer_ns state bs next metas rolls :
  (forall l, schedule l ≡ₚ l) -> Forall block_ok bs -> NoDup (sb_block_hash <$> bs) ->
  next_expected_firm_sequencer_height state = Val next ->
  Forall (fun b => next <= header_height (sb_header b) /\ vouched (header_height (sb_header b))) bs ->
  Forall2 (carries sequencer_ns convert_blob_to_header_list metadata_into_raw) (rb_header_blobs blobs) metas ->
  List.concat metas ≡ₚ metadata_of <$> bs ->
  Forall2 (carries rollup_ns convert_blob_to_rollup_data_list submitted_rollup_into_raw)
    (rb_rollup_blobs blobs) rolls ->
  Forall (fun r => exists b other t, b ∈ bs /\ (other, t) ∈ sb_rollup_transactions b /\ r = blob_of_rollup b other t)
    (List.concat rolls) ->
  exists headers cache', headers ≡ₚ header_entry <$> bs /\ unique headers /\
    convert_verify_and_reconstruct schedule cache blobs id rollup_ns sequencer_ns state =
      Val (blocking "encountered panic while reconstructing blocks from verified blobs"
             (reconstruct_blocks_from_verified_blobs
                (mk_verified (rb_celestia_height blobs) headers (List.concat rolls)) id), cache').
Proof.
  intros Hsched Hok Hnd Hnext Hbs Hmetas Hcm Hrolls Hcr.
  unfold convert_verify_and_reconstruct, decode_raw_blobs.
  rewrite (extend_from_blobs_Ok _ _ _ _ _ _ _ Hmetas).
  2:{ rewrite Hcm. apply list.Forall_fmap. eapply list.Forall_impl; [exact Hok|].
      intros b Hb. apply metadata_roundtrip. apply (block_commits _ Hb). }
  cbn [mbind run_bind]. rewrite (extend_from_blobs_Ok _ _ _ _ _ _ _ Hrolls).
  2:{ eapply list.Forall_impl; [exact Hcr|]. intros r (b & other & t & Hb & Hot & ->).
      pose proof (proj1 (list.Forall_forall _ _) Hok b Hb) as Hob.
      pose proof (proj1 (list.Forall_forall _ _) (block_rollups _ Hob) _ Hot) as (_ & Hid & Hp).
      apply submitted_rollup_roundtrip; [apply (block_commits _ Hob)|exact Hid|exact Hp]. }
  cbn [mbind run_bind blocking app]. unfold verify_metadata_blobs.
  rewrite Hnext. cbn [mbind run_bind cb_metadata cb_rollup_data cb_celestia_height].
  set (spawned := schedule _).
  assert (spawned ≡ₚ metadata_of <$> bs) as Hspawned.
  { unfold spawned. rewrite Hsched, Hcm. clear -Hbs. induction Hbs as [|b bs [Hb _] _ IH]; [done|].
    rewrite fmap_cons, filter_cons, decide_True by done. by f_equiv. }
  destruct (verify_tasks cache [] spawned) as [verified cache'] eqn:Hverify.
  assert (verified = (fun m => (sm_block_hash m, m)) <$> spawned) as Hverified.
  { pose proof (verify_tasks_vouched spawned cache []) as Hv. rewrite Hverify in Hv. cbn [fst] in Hv.
    rewrite Hv.
    - apply (index_collect_app _ []). cbn. rewrite <- list_fmap_compose, Hspawned, <- list_fmap_compose. done.
    - rewrite Hspawned. apply list.Forall_fmap. eapply list.Forall_impl; [exact Hbs|]. by intros b [_ Hb]. }
  cbn [mbind run_bind]. exists verified, cache'. split_and!; [| |done].
  - by rewrite Hverified, Hspawned, <- list_fmap_compose.
  - unfold unique. rewrite Hverified, <- list_fmap_compose, Hspawned, <- list_fmap_compose. done.
Qed.
Lemma rollup_blob_elem id (bs : list SequencerBlock) r : r ∈ (omap (rollup_blob id) bs : list SubmittedRollupData) ->
  exists b other t, b ∈ bs /\ (other, t) ∈ sb_rollup_transactions b /\ r = blob_of_rollup b other t.
Proof.
  intros (b & Hb & Hr)%list_elem_of_omap. unfold rollup_blob in Hr.
  destruct (index_get id _) as [t|] eqn:Hg; [|done]. injection Hr as <-.
  exists b, id, t. by split_and!; [|apply index_get_elem|].
Qed.
Lemma read_back schedule cache blobs id rollup_ns sequencer_ns state bs next metas rolls :
  (forall l, schedule l ≡ₚ l) ->
  Forall block_ok bs -> NoDup (sb_block_hash <$> bs) ->
  next_expected_firm_sequencer_height state = Val next ->
  Forall (fun b => next <= header_height (sb_header b) /\ vouched (header_height (sb_header b))) bs ->
  Forall2 (carries sequencer_ns convert_blob_to_header_list metadata_into_raw) (rb_header_blobs blobs) metas ->
  List.concat metas ≡ₚ metadata_of <$> bs ->
  Forall2 (carries rollup_ns convert_blob_to_rollup_data_list submitted_rollup_into_raw)
    (rb_rollup_blobs blobs) rolls ->
  List.concat rolls ≡ₚ omap (rollup_blob id) bs ->
  exists blocks cache',
    convert_verify_and_reconstruct schedule cache blobs id rollup_ns sequencer_ns state =
      Val (Ok blocks, cache') /\
    blocks ≡ₚ firm_block (rb_celestia_height blobs) id <$> bs.
Proof.
  intros Hsched Hok Hnd Hnext Hbs Hmetas Hcm Hrolls Hcr.
  destruct (converted_and_verified schedule cache blobs id rollup_ns sequencer_ns state bs next metas rolls)
    as (headers & cache' & Hheaders & Hu & Hrun); try done.
  { rewrite Hcr. apply list.Forall_forall. intros r. apply rollup_blob_elem. }
  destruct (reconstruct_all (rb_celestia_height blobs) id headers (List.concat rolls) bs) as (blocks & Hrec & Hp); [done..|].
  exists blocks, cache'. by rewrite Hrun, Hrec.
Qed.

(** Whatever blocks the relayer split into blobs at a Celestia height, the
    conductor hands each of them to the executor exactly once, with the header,
    the hash and the transactions of its rollup, in whatever order the blobs,
    their entries and the verifications come. *)
Theorem celestia_roundtrip schedule cache blobs id rollup_ns sequencer_ns state bs next metas rolls :
  (forall l, schedule l ≡ₚ l) ->
  Forall block_ok bs -> NoDup (sb_block_hash <$> bs) ->
  next_expected_firm_sequencer_height state = Val next ->
  Forall (fun b => next <= header_height (sb_header b) /\ vouched (header_height (sb_header b))) bs ->
  Forall2 (carries sequencer_ns convert_blob_to_header_list metadata_into_raw) (rb_header_blobs blobs) metas ->
  List.concat metas ≡ₚ metadata_of <$> bs ->
  Forall2 (carries rollup_ns convert_blob_to_rollup_data_list submitted_rollup_into_raw)
    (rb_rollup_blobs blobs) rolls ->
  List.concat rolls ≡ₚ omap (rollup_blob id) bs ->
  exists blocks cache',
    convert_verify_and_reconstruct schedule cache blobs id rollup_ns sequencer_ns state =
      Val (Ok blocks, cache') /\
    blocks ≡ₚ firm_block (rb_celestia_height blobs) id <$> bs.
Proof. apply read_back. Qed.

(** ** What the checks let through *)
(** C19. A block that the sequencer never made, with any transactions, of any chain,
    is handed to the executor if its proofs fit together and the sequencer
    serves a commit at its height: that the commit is for another block and
    another chain is logged, and the metadata kept. *)
Theorem forged_block_is_reconstructed schedule cache header_blob rollup_blobs celestia_height id
    rollup_ns sequencer_ns state b next meta rolls :
  (forall l, schedule l ≡ₚ l) -> block_ok b ->
  next_expected_firm_sequencer_height state = Val next -> next <= header_height (sb_header b) ->
  fetch_verification_meta (header_height (sb_header b)) = Val (Ok meta) ->
  sh_chain_id (commit_header meta) <> header_chain_id (sb_header b) ->
  block_id_hash (commit_block_id (sh_commit (commit_header meta))) <> text_of (sb_block_hash b) ->
  carries sequencer_ns convert_blob_to_header_list metadata_into_raw header_blob [metadata_of b] ->
  Forall2 (carries rollup_ns convert_blob_to_rollup_data_list submitted_rollup_into_raw) rollup_blobs rolls ->
  List.concat rolls ≡ₚ omap (rollup_blob id) [b] ->
  is_ok (ensure_chain_ids_match (sh_chain_id (commit_header meta)) (header_chain_id (sb_header b))) = false /\
  is_ok (ensure_block_hashes_match (block_id_hash (commit_block_id (sh_commit (commit_header meta))))
           (sb_block_hash b)) = false /\
  exists cache',
    convert_verify_and_reconstruct schedule cache (mk_raw_blobs celestia_height [header_blob] rollup_blobs)
      id rollup_ns sequencer_ns state = Val (Ok [firm_block celestia_height id b], cache').
Proof.
  intros Hsched Hok Hnext Hle Hfetch Hchain Hhash Hheader Hrolls Hcr. unfold ensure_chain_ids_match, ensure_block_hashes_match.
  rewrite (proj2 (String.eqb_neq _ _) Hchain), bool_decide_eq_false_2 by done. split; [done|]. split; [done|].
  destruct (read_back schedule cache (mk_raw_blobs celestia_height [header_blob] rollup_blobs) id
    rollup_ns sequencer_ns state [b] next [[metadata_of b]] rolls) as (blocks & cache' & Hrun & Hp).
  - done.
  - by constructor.
  - apply list.NoDup_singleton.
  - done.
  - repeat constructor; [done|by exists meta].
  - constructor; [exact Hheader|constructor].
  - done.
  - done.
  - done.
  - exists cache'. rewrite Hrun. cbn in Hp. by apply Permutation_singleton_r in Hp as ->.
Qed.

(** Data of another rollup of the same block, posted in this rollup's
    namespace, is reconstructed as this rollup's block. *)
Theorem foreign_rollup_data_is_reconstructed height id other b t :
  block_ok b -> (other, t) ∈ sb_rollup_transactions b ->
  reconstruct_blocks_from_verified_blobs
    (mk_verified height [header_entry b] [blob_of_rollup b other t]) id =
  Val [mk_reconstructed height (sb_block_hash b) (sb_header b) (rt_transactions t)
         (ecp_info <$> sb_extended_commit_info b)].
Proof.
  intros Hok Hin. destruct (match_one height [header_entry b] b other t) as [Hmatch Hblock].
  - repeat constructor. apply not_elem_of_nil.
  - by left.
  - done.
  - done.
  - unfold reconstruct_blocks_from_verified_blobs.
    cbn [vb_celestia_height vb_header_blobs vb_rollup_blobs match_rollup_blobs].
    rewrite Hmatch. cbn [mbind run_bind]. rewrite Hblock. cbn. by rewrite decide_True.
Qed.
End path.
