(* ===== verification/Executor.v ===== *)
(** * The executor

    [astria-conductor/src/executor/]: the task that drives a rollup node with
    the blocks of the two readers.  The node behind the execution API is the
    parameter [Rollup], a state with one function per RPC; [client.rs] retries
    the RPCs and converts their messages. *)
From S2P Require Import Prelude Denom Types State Chain Ics20.
From S2P Require Import Wire WireActions WireLaws WireTransaction Collections.
From S2P Require Import MerkleIndex MerkleTree MerkleAudit Block SequencerBlock.
From S2P Require Import VoteExtension.
From S2P Require Import ConductorState BTree BlockCache CelestiaBlobs.
From stdpp Require Import base list option strings gmap numbers tactics.
From Stdlib Require Import ZArith Lia Ascii String.
Open Scope string_scope.
Open Scope Z_scope.

(** ** Errors: a report and the status of the RPC at its bottom, if one failed *)
Inductive Cause := Message (text : string) | Status (code : Code).
Definition Causes : Type := list Cause.

(** [client.rs], [should_retry] *)
Definition should_retry (code : Code) : bool :=
  match code with
  | Code_Cancelled | Code_Unknown | Code_DeadlineExceeded | Code_NotFound | Code_ResourceExhausted
  | Code_Aborted | Code_Unavailable => true
  | _ => false
  end.

(** ** The rollup node *)
Record ExecuteBlockRequest := mk_execute_request {
  er_session_id : string;
  er_parent_hash : string;
  er_transactions : list RawRollupData;
  er_timestamp : RawTimestamp;
  er_sequencer_block_hash : string }.
Class Rollup := {
  Node : Type;
  node_create_execution_session : Node -> result Code RawExecutionSession * Node;
  node_execute_block : ExecuteBlockRequest -> Node -> result Code (option RawExecutedBlockMetadata) * Node;
  node_update_commitment_state : string -> RawCommitmentState -> Node -> result Code RawCommitmentState * Node;
  node_get_executed_block_metadata : Z -> Node -> result Code RawExecutedBlockMetadata * Node }.
Class RollupCodec := decode_rollup_data : string -> option RawRollupData.

(** [tryhard::retry_fn] with the strategy of the client: a call is repeated, at
    most [retries] times ([u32::MAX] in the code), while its error may be retried. *)
Fixpoint call_with_retry {N A} (retries : nat) (call : N -> result Code A * N) (node : N)
    : result Code A * N :=
  match call node with
  | (Ok a, node) => (Ok a, node)
  | (Err code, node) =>
      if should_retry code then
        match retries with
        | O => (Err code, node)
        | S retries => call_with_retry retries call node
        end
      else (Err code, node)
  end.

(** ** Blocks to execute *)
Record ExecutableBlock := mk_executable {
  xb_hash : hash; xb_height : Z; xb_timestamp : RawTimestamp; xb_transactions : list string }.

Section blocks.
Context `{BlobCodec, VoteCodec}.

(** [PriceFeedData::new(prices)], encoded, in front of the transactions, unless
    the prices cannot be calculated *)
Definition prepend_transactions_by_price_feed_if_exists (transactions : list string)
    (info : option CommitMapping) : run (list string) :=
  match info with
  | None => Val transactions
  | Some info =>
      prices ← calculate_prices_from_vote_extensions (commit_info info) (id_to_pair info);
      Val match prices with
          | Ok prices => encode_rollup (RollupData_PriceFeedData (mk_price_feed prices)) :: transactions
          | Err _ => transactions
          end
  end.
Definition from_reconstructed (b : ReconstructedBlock) : run ExecutableBlock :=
  transactions ← prepend_transactions_by_price_feed_if_exists (rec_transactions b)
                   (rec_extended_commit_info b);
  Val (mk_executable (rec_block_hash b) (header_height (rec_header b))
         (tm_time_into (header_time (rec_header b))) transactions).
Definition filtered_commit_info (b : FilteredSequencerBlock) : option CommitMapping :=
  ecp_info <$> fb_extended_commit_info b.
Definition from_sequencer (b : FilteredSequencerBlock) (id : RollupId) : run ExecutableBlock :=
  transactions ← prepend_transactions_by_price_feed_if_exists
                   (default [] (rt_transactions <$> index_get id (fb_rollup_transactions b)))
                   (filtered_commit_info b);
  Val (mk_executable (fb_block_hash b) (header_height (fb_header b))
         (tm_time_into (header_time (fb_header b))) transactions).
#[export] Instance height_of_filtered : GetSequencerHeight FilteredSequencerBlock :=
  fun b => header_height (fb_header b).
End blocks.

(** ** The executor's state *)
Inductive ReaderKind := ReaderKind_Firm | ReaderKind_Soft.
(** How a reader task ended: its result, or a panic *)
Inductive TaskResult := TaskSuccess | TaskError (error : Causes) | TaskPanicked.

Section executor.
Context `{BlobCodec, VoteCodec, TendermintHeight, RollupCodec, Rollup}.

(** [Initialized].  The channels are their queues; [readers_cancelled] is the
    readers' cancellation token, [channels_closed] is set by [close].  Of the
    reader tasks it is known which were spawned and, if they ended, how. *)
Record Executor := mk_executor {
  execution_commit_level : CommitLevel;
  client_retries : nat;
  node : Node;
  firm_blocks : list ReconstructedBlock;
  soft_blocks : list FilteredSequencerBlock;
  rollup_state : RollupState;
  blocks_pending_finalization : gmap Z ExecutedBlockMetadata;
  reader_tasks : list (ReaderKind * option TaskResult);
  readers_cancelled : bool;
  channels_closed : bool }.
Definition upd_node (f : Node -> Node) (e : Executor) : Executor :=
  mk_executor (execution_commit_level e) (client_retries e) (f (node e)) (firm_blocks e) (soft_blocks e)
    (rollup_state e) (blocks_pending_finalization e) (reader_tasks e) (readers_cancelled e) (channels_closed e).
Definition upd_firm_blocks (f : list ReconstructedBlock -> list ReconstructedBlock) (e : Executor) : Executor :=
  mk_executor (execution_commit_level e) (client_retries e) (node e) (f (firm_blocks e)) (soft_blocks e)
    (rollup_state e) (blocks_pending_finalization e) (reader_tasks e) (readers_cancelled e) (channels_closed e).
Definition upd_soft_blocks (f : list FilteredSequencerBlock -> list FilteredSequencerBlock) (e : Executor) : Executor :=
  mk_executor (execution_commit_level e) (client_retries e) (node e) (firm_blocks e) (f (soft_blocks e))
    (rollup_state e) (blocks_pending_finalization e) (reader_tasks e) (readers_cancelled e) (channels_closed e).
Definition upd_rollup_state (f : RollupState -> RollupState) (e : Executor) : Executor :=
  mk_executor (execution_commit_level e) (client_retries e) (node e) (firm_blocks e) (soft_blocks e)
    (f (rollup_state e)) (blocks_pending_finalization e) (reader_tasks e) (readers_cancelled e) (channels_closed e).
Definition upd_pending (f : gmap Z ExecutedBlockMetadata -> gmap Z ExecutedBlockMetadata) (e : Executor) : Executor :=
  mk_executor (execution_commit_level e) (client_retries e) (node e) (firm_blocks e) (soft_blocks e)
    (rollup_state e) (f (blocks_pending_finalization e)) (reader_tasks e) (readers_cancelled e) (channels_closed e).
Definition stop_readers (e : Executor) : Executor :=
  mk_executor (execution_commit_level e) (client_retries e) (node e) (firm_blocks e) (soft_blocks e)
    (rollup_state e) (blocks_pending_finalization e) (reader_tasks e) true true.
Definition upd_reader_tasks (f : list (ReaderKind * option TaskResult) -> list (ReaderKind * option TaskResult))
    (e : Executor) : Executor :=
  mk_executor (execution_commit_level e) (client_retries e) (node e) (firm_blocks e) (soft_blocks e)
    (rollup_state e) (blocks_pending_finalization e) (f (reader_tasks e)) (readers_cancelled e)
    (channels_closed e).

(** ** Computations of the executor *)
Definition ExecM (A : Type) : Type := Executor -> run (result Causes A) * Executor.
#[export] Instance ExecM_ret : MRet ExecM := fun A a e => (Val (Ok a), e).
#[export] Instance ExecM_bind : MBind ExecM := fun A B f m e =>
  match m e with
  | (Val (Ok a), e) => f a e
  | (Val (Err error), e) => (Val (Err error), e)
  | (Panic, e) => (Panic, e)
  | (NoFuel, e) => (NoFuel, e)
  end.
Definition exec_gets {A} (f : Executor -> A) : ExecM A := fun e => (Val (Ok (f e)), e).
Definition exec_modify (f : Executor -> Executor) : ExecM unit := fun e => (Val (Ok tt), f e).
Definition exec_bail {A} (error : Causes) : ExecM A := fun e => (Val (Err error), e).
Definition exec_ensure (b : bool) (text : string) : ExecM unit :=
  if b then mret tt else exec_bail [Message text].
Definition exec_result {A} (r : result Causes A) : ExecM A := fun e => (Val r, e).
Definition exec_run {A} (r : run A) : ExecM A := fun e =>
  (match r with Val a => Val (Ok a) | Panic => Panic | NoFuel => NoFuel end, e).
Definition exec_wrap {A} (text : string) (m : ExecM A) : ExecM A := fun e =>
  match m e with
  | (Val (Err error), e) => (Val (Err (Message text :: error)), e)
  | r => r
  end.
(** A call of the client *)
Definition call {A} (rpc : Node -> result Code A * Node) : ExecM A := fun e =>
  let '(r, n) := call_with_retry (client_retries e) rpc (node e) in
  (Val (map_err (fun code => [Status code]) r), upd_node (fun _ => n) e).
Definition messages {E A} (text : string) (r : result E A) : ExecM A :=
  exec_result (map_err (fun _ => [Message text]) r).

(** *** [client.rs] *)
Definition get_executed_block_metadata_with_retry (block_number : Z) : ExecM ExecutedBlockMetadata :=
  raw ← exec_wrap "failed to execute astria.execution.v1.GetBlocks RPC"
          (call (node_get_executed_block_metadata block_number));
  exec_ensure (block_number =? raw_eb_number raw) "requested block at other number";;
  messages "failed validating received block" (executed_try_from_raw raw).
Definition execute_block_with_retry (session_id parent_hash : string) (transactions : list string)
    (timestamp : RawTimestamp) (sequencer_block_hash : hash) : ExecM ExecutedBlockMetadata :=
  transactions ← messages "failed to decode tx bytes as RollupData"
                   (try_collect (fun tx => ok_or tt (decode_rollup_data tx)) transactions);
  let request := mk_execute_request session_id parent_hash transactions timestamp
                   (hex_encode (text_of sequencer_block_hash)) in
  response ← exec_wrap "failed to execute astria.execution.v2.ExecuteBlock RPC"
               (call (node_execute_block request));
  metadata ← messages "response is missing executed block metadata" (ok_or tt response);
  messages "failed converting raw response to validated block metadata" (executed_try_from_raw metadata).
Definition update_commitment_state_with_retry (session_id : string) (c : CommitmentState) : ExecM CommitmentState :=
  response ← exec_wrap "failed to execute astria.execution.v2.UpdateCommitmentState RPC"
               (call (node_update_commitment_state session_id (commitment_to_raw c)));
  messages "failed converting raw response to validated commitment state" (commitment_try_from_raw response).

(** *** [executor/mod.rs] *)
Inductive Update :=
| OnlyFirm (block : ExecutedBlockMetadata) (celestia_height : Z)
| OnlySoft (block : ExecutedBlockMetadata)
| ToSame (block : ExecutedBlockMetadata) (celestia_height : Z).
Inductive ExecutionKind := ExecutionKind_Firm | ExecutionKind_Soft.
Inductive ContractViolation :=
| WrongBlock (kind : ExecutionKind) (current expected actual : Z)
| CurrentBlockNumberIsMax (kind : ExecutionKind) (actual : Z).

Definition does_block_response_fulfill_contract (s : RollupState) (kind : ExecutionKind)
    (block_metadata : ExecutedBlockMetadata) : result ContractViolation unit :=
  let current := match kind with ExecutionKind_Firm => firm_number s | ExecutionKind_Soft => soft_number s end in
  let actual := eb_number block_metadata in
  expected ← ok_or (CurrentBlockNumberIsMax kind actual) (checked_add 64 current 1);
  ensure (actual =? expected) (WrongBlock kind current expected actual).
Definition should_execute_firm_block (firm_sequencer_height soft_sequencer_height : Z) (level : CommitLevel) : bool :=
  match level with
  | SoftAndFirm => firm_sequencer_height =? soft_sequencer_height
  | SoftOnly => false
  | FirmOnly => true
  end.

Definition next_firm : ExecM Z :=
  s ← exec_gets rollup_state; exec_run (next_expected_firm_sequencer_height s).
Definition next_soft : ExecM Z :=
  s ← exec_gets rollup_state; exec_run (next_expected_soft_sequencer_height s).
Definition block_number_of (height : Z) : ExecM Z :=
  p ← exec_gets (fun e => execution_session_parameters (rollup_state e));
  exec_wrap "failed to map current block height to rollup number"
    (messages "map" (try_map_sequencer_height_to_rollup_height (sequencer_start_block_height p)
       (rollup_start_block_number p) height)).

Definition execute_block (session_id parent_hash : string) (block : ExecutableBlock) : ExecM ExecutedBlockMetadata :=
  exec_wrap "failed to run execute_block RPC"
    (execute_block_with_retry session_id parent_hash (xb_transactions block) (xb_timestamp block) (xb_hash block)).

Definition update_commitment_state (update : Update) : ExecM unit :=
  s ← exec_gets rollup_state;
  let '(f, s', celestia_height, level) :=
    match update with
    | OnlyFirm b h => (b, soft s, h, FirmOnly)
    | OnlySoft b => (firm s, b, lowest_celestia_search_height (commitment_state s), SoftOnly)
    | ToSame b h => (b, b, h, SoftAndFirm)
    end in
  c ← messages "failed constructing commitment state" (build_commitment f s' celestia_height);
  new_state ← exec_wrap "failed updating remote commitment state"
                (update_commitment_state_with_retry (execution_session_id s) c);
  s ← exec_gets rollup_state;
  s ← messages "failed updating internal state tracking rollup state; invalid?"
        (try_update_commitment_state new_state level s);
  exec_modify (upd_rollup_state (fun _ => s)).

Definition is_spread_too_large : ExecM bool :=
  level ← exec_gets execution_commit_level;
  if negb (is_with_firm level) then mret false
  else
    next_firm ← next_firm;
    next_soft ← next_soft;
    look_ahead ← exec_gets (fun e => celestia_search_height_max_look_ahead
                              (execution_session_parameters (rollup_state e)));
    mret (look_ahead <=? saturating_sub next_soft next_firm).

Definition execute_soft (block : FilteredSequencerBlock) : ExecM unit :=
  s ← exec_gets rollup_state;
  executable_block ← exec_run (from_sequencer block (esp_rollup_id (execution_session_parameters s)));
  expected_height ← next_soft;
  match xb_height executable_block ?= expected_height with
  | Lt => mret tt
  | Gt => exec_bail [Message "block received was out-of-order; was a block skipped?"]
  | Eq =>
      block_number ← block_number_of (xb_height executable_block);
      executed_block ← exec_wrap "failed to execute block"
                         (execute_block (execution_session_id s) (soft_hash s) executable_block);
      s ← exec_gets rollup_state;
      messages "execution API server violated contract"
        (does_block_response_fulfill_contract s ExecutionKind_Soft executed_block);;
      exec_wrap "failed to update soft commitment state" (update_commitment_state (OnlySoft executed_block));;
      exec_modify (upd_pending <[block_number := executed_block]>)
  end.

Definition execute_firm (block : ReconstructedBlock) : ExecM unit :=
  let celestia_height := rec_celestia_height block in
  executable_block ← exec_run (from_reconstructed block);
  expected_height ← next_firm;
  exec_ensure (xb_height executable_block =? expected_height) "expected block at other sequencer height";;
  block_number ← block_number_of (xb_height executable_block);
  next_firm ← next_firm;
  next_soft ← next_soft;
  level ← exec_gets execution_commit_level;
  s ← exec_gets rollup_state;
  pending ← exec_gets blocks_pending_finalization;
  update ←
    (if should_execute_firm_block next_firm next_soft level then
       executed_block ← exec_wrap "failed to execute block"
                          (execute_block (execution_session_id s) (firm_hash s) executable_block);
       s ← exec_gets rollup_state;
       messages "execution API server violated contract"
         (does_block_response_fulfill_contract s ExecutionKind_Firm executed_block);;
       mret (ToSame executed_block celestia_height)
     else
       match pending !! block_number with
       | Some block =>
           exec_modify (upd_pending (delete block_number));; mret (OnlyFirm block celestia_height)
       | None =>
           block ← exec_wrap "failed to get block at number from rollup"
                     (get_executed_block_metadata_with_retry block_number);
           mret (OnlyFirm block celestia_height)
       end);
  exec_wrap "failed to setting both commitment states to executed block" (update_commitment_state update).

(** *** Tasks that end *)
Definition exit_error (res : TaskResult) : Causes :=
  match res with
  | TaskSuccess => [Message "task exited with success value"]
  | TaskError error => Message "task exited with error" :: error
  | TaskPanicked => [Message "task panicked"]
  end.
Definition exited_unexpectedly {A} (text : string) (res : TaskResult) : ExecM A :=
  exec_wrap text (exec_bail (exit_error res)).
Definition handle_task_exit (task : ReaderKind) (res : TaskResult) : ExecM unit :=
  level ← exec_gets execution_commit_level;
  s ← exec_gets rollup_state;
  let has_end := if end_block_number s is Some _ then true else false in
  match task with
  | ReaderKind_Firm =>
      if is_with_firm level then
        match has_end, has_firm_number_reached_stop_height s with
        | true, true => exec_modify stop_readers
        | true, false => exited_unexpectedly "task exited unexpectedly before stop height was reached" res
        | false, _ => exited_unexpectedly "task exited unexpectedly" res
        end
      else exec_bail [Message "task exited but it shouldn't have run in the first place"]
  | ReaderKind_Soft =>
      if is_with_soft level then
        match has_end, has_soft_number_reached_stop_height s with
        | true, true => mret tt
        | true, false => exited_unexpectedly "task exited unexpectedly before stop height was reached" res
        | false, _ => exited_unexpectedly "task exited unexpectedly" res
        end
      else exec_bail [Message "task exited but it shouldn't have run in the first place"]
  end.

(** *** The event loop *)
Definition kind_eqb (a b : ReaderKind) : bool :=
  match a, b with
  | ReaderKind_Firm, ReaderKind_Firm | ReaderKind_Soft, ReaderKind_Soft => true
  | _, _ => false
  end.
(** The channel of a reader has no sender once its task ended. *)
Definition closed (kind : ReaderKind) (e : Executor) : bool :=
  channels_closed e ||
  forallb (fun t => negb (kind_eqb t.1 kind) || (if t.2 is Some _ then true else false)) (reader_tasks e).
(** [reader_tasks.join_next()]: a task that ended, and the others *)
Fixpoint join_next (tasks : list (ReaderKind * option TaskResult))
    : option (ReaderKind * TaskResult * list (ReaderKind * option TaskResult)) :=
  match tasks with
  | [] => None
  | (kind, Some res) :: tasks => Some (kind, res, tasks)
  | (kind, None) :: tasks =>
      '(k, res, others) ← join_next tasks; Some (k, res, (kind, None) :: others)
  end.

(** What a turn of the [select!] does: handle what is ready, wait for the
    environment, or leave the loop because no branch is left. *)
Inductive Turn := Handled | Waiting | Finished (state : RollupState).
Definition event_loop_turn : ExecM Turn :=
  too_far ← is_spread_too_large;
  e ← exec_gets (fun e => e);
  match firm_blocks e with
  | block :: blocks =>
      exec_modify (upd_firm_blocks (fun _ => blocks));;
      exec_wrap "failed executing firm block" (execute_firm block);; mret Handled
  | [] =>
      match too_far, soft_blocks e with
      | false, block :: blocks =>
          exec_modify (upd_soft_blocks (fun _ => blocks));;
          exec_wrap "failed executing soft block" (execute_soft block);; mret Handled
      | _, soft_queue =>
          match join_next (reader_tasks e) with
          | Some (task, res, others) =>
              exec_modify (upd_reader_tasks (fun _ => others));;
              handle_task_exit task res;; mret Handled
          | None =>
              if closed ReaderKind_Firm e && (too_far || closed ReaderKind_Soft e)
                 && bool_decide (reader_tasks e = [])
              then mret (Finished (rollup_state e)) else mret Waiting
          end
      end
  end.

(** The executor in its environment: the readers send blocks and end, and the
    loop takes turns. *)
Inductive executor_step : Executor -> Executor -> Prop :=
| step_firm_sent e block : closed ReaderKind_Firm e = false ->
    executor_step e (upd_firm_blocks (fun l => (l ++ [block])%list) e)
| step_soft_sent e block : closed ReaderKind_Soft e = false ->
    executor_step e (upd_soft_blocks (fun l => (l ++ [block])%list) e)
| step_reader_ended e before kind res after : reader_tasks e = (before ++ (kind, None) :: after)%list ->
    executor_step e (upd_reader_tasks (fun _ => before ++ (kind, Some res) :: after)%list e)
| step_turn e e' : event_loop_turn e = (Val (Ok Handled), e') -> executor_step e e'.

(** *** Initialization *)
Definition create_initial_node_state (level : CommitLevel) (retries : nat) (n : Node)
    : result Causes RollupState * Node :=
  let '(r, n) := call_with_retry retries node_create_execution_session n in
  let session :=
    raw ← map_err (fun code => [Message "failed creating execution session"; Status code]) r;
    map_err (fun _ => [Message "failed converting raw response to validated execution session"])
      (session_try_from_raw raw) in
  (session ← session;
   map_err (fun _ => [Message "failed to construct initial state using execution session received from rollup"])
     (try_from_execution_session session level), n).
(** [create_block_channels] *)
Definition check_channel_size (level : CommitLevel) (s : RollupState) : result Causes unit :=
  match level with
  | SoftAndFirm =>
      ensure (0 <? celestia_search_height_max_look_ahead (execution_session_parameters s))
        [Message "celestia-search-height-max-look-ahead must be greater than 0"]
  | FirmOnly | SoftOnly => Ok tt
  end.
Definition spawned_readers (level : CommitLevel) : list (ReaderKind * option TaskResult) :=
  ((if is_with_firm level then [(ReaderKind_Firm, None)] else []) ++
   (if is_with_soft level then [(ReaderKind_Soft, None)] else []))%list.
Definition initialized (level : CommitLevel) (retries : nat) (n : Node) : result Causes Executor :=
  let '(s, n) := create_initial_node_state level retries n in
  s ← s;
  check_channel_size level s;;
  Ok (mk_executor level retries n [] [] s ∅ (spawned_readers level) false false).

(** ** [conductor/inner.rs]: restart or shut down *)
Inductive RestartOrShutdown := Restart | Shutdown.
Definition should_restart_despite_error (error : Causes) : bool :=
  existsb (fun c => match c with Status Code_PermissionDenied => true | _ => false end) error.
Definition should_restart_or_shutdown (level : CommitLevel) (o : option RollupState)
    : result Causes RestartOrShutdown :=
  match o with
  | None => Ok Shutdown
  | Some s =>
      match end_block_number s with
      | None => Err [Message "executor exited with a success value even though it was not configured to run with a stop height"]
      | Some _ =>
          let reached := if is_with_firm level then has_firm_number_reached_stop_height s
                         else has_soft_number_reached_stop_height s in
          if reached then Ok Restart
          else Err [Message "executor exited with a success value, but the stop height was not reached"]
      end
  end.
(** [Inner::restart_or_shutdown] when the executor ended *)
Definition restart_or_shutdown (level : CommitLevel) (shutdown_token_cancelled : bool)
    (exit_result : result Causes (option RollupState)) : result Causes RestartOrShutdown :=
  if shutdown_token_cancelled then Ok Shutdown
  else
    match exit_result with
    | Ok state => should_restart_or_shutdown level state
    | Err error => if should_restart_despite_error error then Ok Restart else Err error
    end.
End executor.
