(* ===== verification/ExecutorLemmas.v ===== *)
(** * What successful turns of the executor do

    Inversion of the executor's computations, a rollup that records the blocks
    it executed, and the effect of each handler that succeeds. *)
From S2P Require Import Prelude Denom Types State Chain Ics20.
From S2P Require Import Wire WireActions WireLaws WireTransaction Collections.
From S2P Require Import MerkleIndex MerkleTree MerkleAudit Block SequencerBlock.
From S2P Require Import VoteExtension.
From S2P Require Import ConductorState BTree BlockCache CelestiaBlobs Executor.
From stdpp Require Import base list option strings gmap numbers tactics.
From Stdlib Require Import ZArith Lia Ascii String.
Open Scope string_scope.
Open Scope Z_scope.

(** ** A rollup that records *)
Definition Log : Type := list (ExecuteBlockRequest * RawExecutedBlockMetadata).
(** The blocks that the node executed and answered for, in order *)
Definition recorded (R : Rollup) : Rollup := {|
  Node := @Node R * Log;
  node_create_execution_session n :=
    let '(r, m) := @node_create_execution_session R n.1 in (r, (m, n.2));
  node_execute_block request n :=
    let '(r, m) := @node_execute_block R request n.1 in
    (r, (m, (n.2 ++ match r with Ok (Some raw) => [(request, raw)] | _ => [] end)%list));
  node_update_commitment_state session c n :=
    let '(r, m) := @node_update_commitment_state R session c n.1 in (r, (m, n.2));
  node_get_executed_block_metadata number n :=
    let '(r, m) := @node_get_executed_block_metadata R number n.1 in (r, (m, n.2)) |}.

(** The execution API: an update replaces the whole commitment state with the
    one in the request. *)
Definition commits_what_is_asked (R : Rollup) : Prop :=
  forall session c n r n', @node_update_commitment_state R session c n = (Ok r, n') -> r = c.

(** ** Inversion *)
Section inversion.
Context `{BlobCodec, VoteCodec, TendermintHeight, RollupCodec, Rollup}.
Implicit Types e : Executor.
Section values.
Context {A B : Type}.
Lemma exec_bind_Ok (m : ExecM A) (f : A -> ExecM B) e b e2 :
  (m ≫= f) e = (Val (Ok b), e2) <-> exists a e1, m e = (Val (Ok a), e1) /\ f a e1 = (Val (Ok b), e2).
Proof.
  unfold mbind, ExecM_bind. destruct (m e) as [[[a|err]| |] e1]; split; try done.
  all: try (intros (? & ? & Heq & ?); congruence).
  - intros Hf. by exists a, e1.
Qed.
Lemma exec_wrap_Ok text (m : ExecM A) e a e1 :
  exec_wrap text m e = (Val (Ok a), e1) <-> m e = (Val (Ok a), e1).
Proof. unfold exec_wrap. destruct (m e) as [[[]| |] ?]; split; congruence. Qed.
Lemma exec_ret_Ok (a a' : A) e e1 : (mret a : ExecM A) e = (Val (Ok a'), e1) <-> a' = a /\ e1 = e.
Proof. split; [by intros [= <- <-]|by intros [-> ->]]. Qed.
Lemma exec_gets_Ok (f : Executor -> A) e a e1 : exec_gets f e = (Val (Ok a), e1) <-> a = f e /\ e1 = e.
Proof. split; [by intros [= <- <-]|by intros [-> ->]]. Qed.
Lemma exec_run_Ok (r : run A) e a e1 : exec_run r e = (Val (Ok a), e1) <-> r = Val a /\ e1 = e.
Proof. unfold exec_run. destruct r; split; try (intros [= <- <-]); try (intros [[= <-] <-]); done. Qed.
Lemma exec_result_Ok (r : result Causes A) e a e1 : exec_result r e = (Val (Ok a), e1) <-> r = Ok a /\ e1 = e.
Proof. unfold exec_result. split; [by intros [= -> <-]|by intros [-> ->]]. Qed.
Lemma messages_Ok {E} text (r : result E A) e a e1 :
  messages text r e = (Val (Ok a), e1) <-> r = Ok a /\ e1 = e.
Proof. unfold messages. rewrite exec_result_Ok. destruct r; cbn; naive_solver. Qed.
End values.
Lemma exec_modify_Ok f e u e1 : exec_modify f e = (Val (Ok u), e1) <-> e1 = f e.
Proof. destruct u. split; [by intros [= <-]|by intros ->]. Qed.
Lemma exec_ensure_Ok b text e u e1 : exec_ensure b text e = (Val (Ok u), e1) <-> b = true /\ e1 = e.
Proof. destruct u, b; split; try done; [by intros [= <-]|by intros [_ ->]|by intros [? _]]. Qed.

End inversion.

(** Takes a successful run apart. *)
Ltac exec_inv Hrun :=
  repeat first
    [ apply exec_wrap_Ok in Hrun
    | let a := fresh "a" in let e1 := fresh "e1" in let H1 := fresh "Hr" in
      apply exec_bind_Ok in Hrun as (a & e1 & H1 & Hrun); exec_inv H1
    | let H1 := fresh "Hv" in apply exec_gets_Ok in Hrun as [H1 ->]; subst
    | let H1 := fresh "Hv" in apply exec_run_Ok in Hrun as [H1 ->]
    | let H1 := fresh "Hv" in apply messages_Ok in Hrun as [H1 ->]
    | apply exec_modify_Ok in Hrun as ->
    | let H1 := fresh "Hv" in apply exec_ensure_Ok in Hrun as [H1 ->]
    | let H1 := fresh "Hv" in apply exec_ret_Ok in Hrun as [H1 ->]; subst ].

Section lemmas.
Context `{BlobCodec, VoteCodec, TendermintHeight, RollupCodec}.
Variable R : Rollup.
#[local] Hint Extern 0 Rollup => exact (recorded R) : typeclass_instances.
Implicit Types e : Executor.

(** ** The client's calls *)
Lemma call_with_retry_Ok {A N} (rpc : N -> result Code A * N) (P : N -> Prop) (Q : A -> N -> Prop) k : forall n a n',
  (forall n c n', P n -> rpc n = (Err c, n') -> P n') ->
  (forall n a n', P n -> rpc n = (Ok a, n') -> Q a n') ->
  P n -> call_with_retry k rpc n = (Ok a, n') -> Q a n'.
Proof.
  induction k as [|k IH]; intros n a n' Herr Hok HP; cbn; destruct (rpc n) as [[a1|c] n1] eqn:Hcall.
  1, 3: intros [= <- <-]; by eapply Hok.
  - by case_match.
  - case_match; [|done]. apply IH; [done..|]. by eapply Herr.
Qed.
Lemma call_Ok {A} (rpc : Node -> result Code A * Node) (P : Node -> Prop) (Q : A -> Node -> Prop) e a e1 :
  (forall n c n', P n -> rpc n = (Err c, n') -> P n') ->
  (forall n a n', P n -> rpc n = (Ok a, n') -> Q a n') ->
  P (node e) -> call rpc e = (Val (Ok a), e1) -> exists n, e1 = upd_node (fun _ => n) e /\ Q a n.
Proof.
  intros Herr Hok HP. unfold call. destruct (call_with_retry _ _ _) as [r n] eqn:Hc.
  destruct r as [a1|]; [|done]. intros [= <- <-]. exists n. split; [done|].
  by apply (call_with_retry_Ok rpc P Q _ _ _ _ Herr Hok HP Hc).
Qed.
Lemma executed_inverse raw b : executed_try_from_raw raw = Ok b -> raw = executed_to_raw b.
Proof.
  unfold executed_try_from_raw, executed_to_raw. destruct raw as [n h p [t|] s]; cbn; [|done].
  by intros [= <-].
Qed.

Lemma execute_block_Ok session parent b e m e1 : execute_block session parent b e = (Val (Ok m), e1) ->
  exists n request, e1 = upd_node (fun _ => n) e /\ n.2 = ((node e).2 ++ [(request, executed_to_raw m)])%list /\
    er_session_id request = session /\ er_parent_hash request = parent /\
    er_sequencer_block_hash request = hex_encode (text_of (xb_hash b)) /\
    er_timestamp request = xb_timestamp b /\
    Forall2 (fun tx raw => decode_rollup_data tx = Some raw) (xb_transactions b) (er_transactions request).
Proof.
  intros Hrun. unfold execute_block, execute_block_with_retry in Hrun. exec_inv Hrun.
  destruct a0 as [raw|]; [|done]. injection Hv0 as ->. apply executed_inverse in Hv1 as ->.
  match type of Hr with call (node_execute_block ?q) _ = _ => set (request := q) in * end.
  destruct (call_Ok (node_execute_block request) (fun n => n.2 = (node e).2)
    (fun o n => match o with Some raw => n.2 = ((node e).2 ++ [(request, raw)])%list | None => True end)
    e (Some (executed_to_raw m)) e0) as (n & -> & Hn); [| |done|exact Hr|].
  - intros n c n' Hn. cbn. destruct (@node_execute_block R _ _) as [r m0]. intros [= -> <-]. cbn.
    by rewrite app_nil_r.
  - intros n o n' Hn. cbn. destruct (@node_execute_block R _ _) as [r m0]. intros [= -> <-]. cbn.
    destruct o; by rewrite ?Hn.
  - exists n, request. split_and!; try done. apply try_collect_Ok in Hv.
    cbn. eapply list.Forall2_impl; [exact Hv|]. intros tx raw. cbn. by destruct (decode_rollup_data tx) as [?|]; intros [= ->].
Qed.

Lemma get_executed_Ok number e m e1 :
  get_executed_block_metadata_with_retry number e = (Val (Ok m), e1) ->
  exists n, e1 = upd_node (fun _ => n) e /\ n.2 = (node e).2 /\ eb_number m = number.
Proof.
  intros Hrun. unfold get_executed_block_metadata_with_retry in Hrun. exec_inv Hrun.
  apply executed_inverse in Hv0 as ->. apply Z.eqb_eq in Hv. cbn in Hv.
  edestruct (call_Ok (node_get_executed_block_metadata number) (fun n => n.2 = (node e).2)
    (fun _ n => n.2 = (node e).2) e) as (n & Hn1 & Hn); [| |done|exact Hr|by exists n].
  all: intros n x n' Hn; cbn; destruct (@node_get_executed_block_metadata R _ _) as [r m0];
    by intros [= -> <-].
Qed.

Context (Hcommits : commits_what_is_asked R).
Definition new_commitment (s : RollupState) (u : Update) : ExecutedBlockMetadata * ExecutedBlockMetadata * Z :=
  match u with
  | OnlyFirm b h => (b, soft s, h)
  | OnlySoft b => (firm s, b, lowest_celestia_search_height (commitment_state s))
  | ToSame b h => (b, b, h)
  end.
Lemma update_remote_Ok session c e raw c' e1 : commitment_ok c ->
  call (node_update_commitment_state session (commitment_to_raw c)) e = (Val (Ok raw), e1) ->
  commitment_try_from_raw raw = Ok c' ->
  c' = c /\ exists n, e1 = upd_node (fun _ => n) e /\ n.2 = (node e).2.
Proof.
  intros Hc Hr Hv.
  edestruct (call_Ok (node_update_commitment_state session (commitment_to_raw c))
    (fun n => n.2 = (node e).2) (fun r n => r = commitment_to_raw c /\ n.2 = (node e).2) e)
    as (n & Hn1 & Hr' & Hn); [| |done|exact Hr|].
  - intros n x n' Hn. cbn. destruct (@node_update_commitment_state R _ _ _) as [r m0].
    by intros [= -> <-].
  - intros n x n' Hn. cbn. destruct (@node_update_commitment_state R _ _ _) as [r m0] eqn:Hcall.
    intros [= -> <-]. by apply Hcommits in Hcall.
  - subst. rewrite commitment_roundtrip in Hv by done. injection Hv as <-. split; [done|]. by exists n.
Qed.
Lemma update_commitment_state_Ok u e x e1 : update_commitment_state u e = (Val (Ok x), e1) ->
  let '(f, s, h) := new_commitment (rollup_state e) u in
  exists n, n.2 = (node e).2 /\ eb_number f <= eb_number s /\
    e1 = upd_rollup_state (set_commitment_state (mk_commitment s f h)) (upd_node (fun _ => n) e).
Proof.
  intros Hrun. unfold update_commitment_state in Hrun. exec_inv Hrun.
  unfold new_commitment. destruct u as [b h|b|b h]; exec_inv Hrun;
    apply build_commitment_Ok in Hv as [Hle ->];
    (edestruct (update_remote_Ok (execution_session_id (rollup_state e))) as (Hc & n & Hn1 & Hn);
      [|exact Hr0|exact Hv0|]; [exact Hle|subst]).
  all: unfold try_update_commitment_state in Hv1; destruct (check_mapped _ _ _); [|done].
  all: injection Hv1 as <-; by exists n.
Qed.

(** ** The handlers *)
#[local] Opaque execute_block update_commitment_state get_executed_block_metadata_with_retry.
Record request_of (x : ExecutableBlock) (session parent : string) (q : ExecuteBlockRequest) : Prop := {
  request_session : er_session_id q = session;
  request_parent : er_parent_hash q = parent;
  request_hash : er_sequencer_block_hash q = hex_encode (text_of (xb_hash x));
  request_time : er_timestamp q = xb_timestamp x;
  request_txs : Forall2 (fun tx raw => decode_rollup_data tx = Some raw) (xb_transactions x) (er_transactions q) }.
(** The node executed a block on top of a parent and the answer was accepted. *)
Definition executed_on (parent : ExecutedBlockMetadata) (x : ExecutableBlock) (m : ExecutedBlockMetadata)
    e (n : Node) : Prop :=
  eb_number m = eb_number parent + 1 /\
  exists q, request_of x (execution_session_id (rollup_state e)) (eb_hash parent) q /\
    n.2 = ((node e).2 ++ [(q, executed_to_raw m)])%list.
Definition with_commitment (f s : ExecutedBlockMetadata) (h : Z) (n : Node) e : Executor :=
  upd_rollup_state (set_commitment_state (mk_commitment s f h)) (upd_node (fun _ => n) e).
Definition rollup_number e (height number : Z) : Prop :=
  let p := execution_session_parameters (rollup_state e) in
  try_map_sequencer_height_to_rollup_height (sequencer_start_block_height p)
    (rollup_start_block_number p) height = Ok number.

Lemma from_sequencer_height b id x : from_sequencer b id = Val x -> xb_height x = header_height (fb_header b).
Proof. unfold from_sequencer. destruct (prepend_transactions_by_price_feed_if_exists _ _); cbn; [|done..]. by intros [= <-]. Qed.
Lemma from_reconstructed_height b x : from_reconstructed b = Val x -> xb_height x = header_height (rec_header b).
Proof. unfold from_reconstructed. destruct (prepend_transactions_by_price_feed_if_exists _ _); cbn; [|done..]. by intros [= <-]. Qed.
Lemma contract_Ok s kind m : does_block_response_fulfill_contract s kind m = Ok tt ->
  eb_number m = (match kind with ExecutionKind_Firm => firm_number s | ExecutionKind_Soft => soft_number s end) + 1.
Proof.
  unfold does_block_response_fulfill_contract. destruct (checked_add _ _ _) eqn:Ha; cbn; [|done].
  apply checked_add_Some in Ha as [-> _]. by destruct (Z.eqb_spec (eb_number m) (match kind with ExecutionKind_Firm => firm_number s | ExecutionKind_Soft => soft_number s end + 1)).
Qed.

Lemma execute_soft_Ok b e u e1 : execute_soft b e = (Val (Ok u), e1) ->
  exists h, next_expected_soft_sequencer_height (rollup_state e) = Val h /\
  (header_height (fb_header b) < h /\ e1 = e \/
   header_height (fb_header b) = h /\
   exists x number m n,
     from_sequencer b (esp_rollup_id (execution_session_parameters (rollup_state e))) = Val x /\
     rollup_number e h number /\ executed_on (soft (rollup_state e)) x m e n /\
     e1 = upd_pending <[number := m]>
            (with_commitment (firm (rollup_state e)) m
               (lowest_celestia_search_height (commitment_state (rollup_state e))) n e)).
Proof.
  intros Hrun. unfold execute_soft in Hrun. exec_inv Hrun.
  pose proof (from_sequencer_height _ _ _ Hv) as Hh. exists a0. split; [done|].
  destruct (Z.compare_spec (xb_height a) a0) as [Heq|Hlt|Hgt]; [right|left|done].
  2:{ apply exec_ret_Ok in Hrun as [_ ->]. split; [lia|done]. }
  split; [lia|]. unfold block_number_of in Hrun. exec_inv Hrun.
  destruct (execute_block_Ok _ _ _ _ _ _ Hr) as (n & q & -> & Hn & Hq1 & Hq2 & Hq3 & Hq4 & Hq5).
  pose proof (update_commitment_state_Ok _ _ _ _ Hr0) as Hup. cbn [new_commitment] in Hup.
  destruct Hup as (n' & Hn' & _ & ->). destruct a0. apply contract_Ok in Hv2. exists a, a1, a2, n'.
  split_and!; [done|done| |done]. split; [exact Hv2|]. exists q. rewrite Hn'. split; [by constructor|exact Hn].
Qed.

Lemma execute_firm_Ok b e u e1 : execute_firm b e = (Val (Ok u), e1) ->
  exists h x number,
    next_expected_firm_sequencer_height (rollup_state e) = Val h /\
    from_reconstructed b = Val x /\ header_height (rec_header b) = h /\ rollup_number e h number /\
    exists soft_height, next_expected_soft_sequencer_height (rollup_state e) = Val soft_height /\
    exists n m,
    if should_execute_firm_block h soft_height (execution_commit_level e) then
      executed_on (firm (rollup_state e)) x m e n /\
      e1 = with_commitment m m (rec_celestia_height b) n e
    else
      n.2 = (node e).2 /\ eb_number m <= soft_number (rollup_state e) /\
      match blocks_pending_finalization e !! number with
      | Some pending => m = pending /\
          e1 = upd_pending (delete number) (with_commitment m (soft (rollup_state e)) (rec_celestia_height b) n e)
      | None => eb_number m = number /\
          e1 = with_commitment m (soft (rollup_state e)) (rec_celestia_height b) n e
      end.
Proof.
  intros Hrun. unfold execute_firm, next_firm, next_soft, block_number_of in Hrun. exec_inv Hrun.
  rewrite Hv3 in Hv0. injection Hv0 as <-. apply Z.eqb_eq in Hv1.
  pose proof (from_reconstructed_height _ _ Hv) as Hh. exists a3, a, a2.
  rewrite Hv1 in Hv2. split_and!; [done|done|congruence|done|]. exists a4. split; [done|].
  destruct (should_execute_firm_block _ _ _).
  - exec_inv Hr. destruct (execute_block_Ok _ _ _ _ _ _ Hr0) as (n & q & -> & Hn & Hq1 & Hq2 & Hq3 & Hq4 & Hq5).
    destruct (update_commitment_state_Ok _ _ _ _ Hrun) as (n' & Hn' & _ & ->).
    exists n'. eexists. split; [|done].
    match goal with Hc : does_block_response_fulfill_contract _ _ _ = Ok ?t |- _ =>
      destruct t; apply contract_Ok in Hc; split; [exact Hc|] end.
    exists q. rewrite Hn'. split; [by constructor|exact Hn].
  - destruct (blocks_pending_finalization e !! a2) as [pending|] eqn:Hpending; exec_inv Hr.
    + destruct (update_commitment_state_Ok _ _ _ _ Hrun) as (n' & Hn' & Hle & ->).
      exists n', pending. by split_and!.
    + match goal with Hg : get_executed_block_metadata_with_retry _ _ = _ |- _ =>
        destruct (get_executed_Ok _ _ _ _ Hg) as (n & -> & Hn & Hnum) end.
      destruct (update_commitment_state_Ok _ _ _ _ Hrun) as (n' & Hn' & Hle & ->).
      exists n'. eexists. split_and!; [by rewrite Hn'|exact Hle|exact Hnum|done].
Qed.
End lemmas.
