(* ===== verification/ExecutorTheorems.v ===== *)
(** * The executor builds one chain

    Whatever its readers send and whenever they end, the executor of a session
    whose commitments agree executes every sequencer height once, in order and
    on top of the block before, never fetches a block that it executed, and
    keeps the soft commitment within the session's look-ahead of the firm one.
    [conductor/mod.rs]: how it ends decides whether the conductor starts again. *)
From S2P Require Import Prelude Denom Types State Chain Ics20.
From S2P Require Import Wire WireActions WireLaws WireTransaction Collections.
From S2P Require Import MerkleIndex MerkleTree MerkleAudit Block SequencerBlock.
From S2P Require Import VoteExtension.
From S2P Require Import ConductorState BTree BlockCache CelestiaBlobs Executor ExecutorLemmas.
From stdpp Require Import base list option strings gmap relations numbers tactics.
From Stdlib Require Import ZArith Lia Ascii String.
Open Scope string_scope.
Open Scope Z_scope.

(** ** The abstract chain

    The blocks that were executed after the session's first block, with the
    requests, and how many of them are final. *)
Section chain.
Context `{BlobCodec, VoteCodec, RollupCodec}.
Record Canonical := mk_canonical {
  chain : list (ExecuteBlockRequest * ExecutedBlockMetadata); finalized : nat }.

(** The block to execute comes from one of the readers. *)
Definition received (id : RollupId) (x : ExecutableBlock) : Prop :=
  (exists b, from_sequencer b id = Val x) \/ (exists b, from_reconstructed b = Val x).
(** The next block after [parent]: executed on top of it, from the sequencer
    block of the height that its number stands for *)
Definition extends (p : ExecutionSessionParameters) (session : string) (parent : ExecutedBlockMetadata)
    (qm : ExecuteBlockRequest * ExecutedBlockMetadata) : Prop :=
  eb_number qm.2 = eb_number parent + 1 /\
  exists x, received (esp_rollup_id p) x /\ request_of x session (eb_hash parent) qm.1 /\
    xb_height x = sequencer_start_block_height p + eb_number qm.2 - rollup_start_block_number p.
Definition head (first : ExecutedBlockMetadata) (l : list (ExecuteBlockRequest * ExecutedBlockMetadata)) :
    ExecutedBlockMetadata :=
  match list.last l with Some (_, m) => m | None => first end.
Definition block_at (first : ExecutedBlockMetadata) (l : list (ExecuteBlockRequest * ExecutedBlockMetadata))
    (k : nat) : ExecutedBlockMetadata := head first (take k l).

Inductive canonical_step (p : ExecutionSessionParameters) (session : string) (first : ExecutedBlockMetadata)
    : Canonical -> Canonical -> Prop :=
| canonical_append l k qm : extends p session (head first l) qm ->
    canonical_step p session first (mk_canonical l k) (mk_canonical (l ++ [qm])%list k)
| canonical_finalize l k : (k < List.length l)%nat ->
    canonical_step p session first (mk_canonical l k) (mk_canonical l (S k))
| canonical_append_final l qm : extends p session (head first l) qm ->
    canonical_step p session first (mk_canonical l (List.length l))
      (mk_canonical (l ++ [qm])%list (S (List.length l))).

Fixpoint linked p session (first : ExecutedBlockMetadata) (l : list (ExecuteBlockRequest * ExecutedBlockMetadata)) :=
  match l with
  | [] => True
  | qm :: l => extends p session first qm /\ linked p session qm.2 l
  end.

Lemma head_snoc first l qm : head first (l ++ [qm])%list = qm.2.
Proof. unfold head. rewrite last_snoc. by destruct qm. Qed.
Lemma head_cons first qm l : head first (qm :: l) = head qm.2 l.
Proof. unfold head. destruct qm as [q m], l as [|qm l]; [done|]. rewrite last_cons. by destruct (list.last (qm :: l)) eqn:Hl; [|by apply last_None in Hl]. Qed.
Lemma linked_snoc p session first l qm :
  linked p session first (l ++ [qm])%list <-> linked p session first l /\ extends p session (head first l) qm.
Proof.
  revert first. induction l as [|qm' l IH]; intros first; cbn [linked app].
  - unfold head. cbn. tauto.
  - rewrite IH, head_cons. tauto.
Qed.
Lemma linked_take p session l : forall first k, linked p session first l -> linked p session first (take k l).
Proof. induction l as [|qm l IH]; intros first [|k]; cbn; [done..|]. intros [? ?]. split; [done|by apply IH]. Qed.
Lemma head_number p session l : forall first, linked p session first l ->
  eb_number (head first l) = eb_number first + Z.of_nat (List.length l).
Proof.
  induction l as [|qm l IH]; intros first; [cbn; lia|]. cbn [linked]. intros [[Hn _] Hl].
  rewrite head_cons, (IH _ Hl), Hn. cbn [List.length]. lia.
Qed.
Lemma block_at_number p session first l k : linked p session first l -> (k <= List.length l)%nat ->
  eb_number (block_at first l k) = eb_number first + Z.of_nat k.
Proof.
  intros Hl Hk. unfold block_at. rewrite (head_number p session) by (by apply linked_take).
  rewrite length_take. lia.
Qed.
Lemma block_at_all first l : block_at first l (List.length l) = head first l.
Proof. unfold block_at. by rewrite take_ge. Qed.
Lemma block_at_lookup first l k qm : l !! k = Some qm -> block_at first l (S k) = qm.2.
Proof. intros Hk. unfold block_at. rewrite (take_S_r _ _ _ Hk). apply head_snoc. Qed.
Lemma block_at_app first l l' k : (k <= List.length l)%nat -> block_at first (l ++ l')%list k = block_at first l k.
Proof. intros Hk. unfold block_at. by rewrite take_app_le. Qed.
End chain.

(** ** The invariant *)
Section invariant.
Context `{BlobCodec, VoteCodec, TendermintHeight, !HeightLaws, RollupCodec}.
Variable R : Rollup.
#[local] Hint Extern 0 Rollup => exact (recorded R) : typeclass_instances.
Context (Hcommits : commits_what_is_asked R).
(** The session: its parameters, its id and the block its commitments agree on *)
Context (p : ExecutionSessionParameters) (session : string) (first : ExecutedBlockMetadata).
Context (level : CommitLevel).
Record session_ok : Prop := {
  session_start : 0 <= sequencer_start_block_height p < 2 ^ 63;
  session_first : uint 64 (rollup_start_block_number p);
  session_number : 0 <= eb_number first }.
Implicit Types e : Executor.

Record represents e (c : Canonical) : Prop := {
  rep_params : execution_session_parameters (rollup_state e) = p;
  rep_session : execution_session_id (rollup_state e) = session;
  rep_level : execution_commit_level e = level;
  rep_log : (node e).2 = (fun qm => (qm.1, executed_to_raw qm.2)) <$> chain c;
  rep_linked : linked p session first (chain c);
  rep_final : (finalized c <= List.length (chain c))%nat;
  rep_firm : firm (rollup_state e) = block_at first (chain c) (finalized c);
  rep_soft : soft (rollup_state e) = head first (chain c);
  rep_pending i qm : (finalized c <= i)%nat -> chain c !! i = Some qm ->
    level <> FirmOnly -> blocks_pending_finalization e !! eb_number qm.2 = Some qm.2;
  rep_tasks : Forall (fun t => match t.1 with ReaderKind_Firm => is_with_firm level | ReaderKind_Soft => is_with_soft level end = true) (reader_tasks e);
  rep_firm_only : level = FirmOnly -> finalized c = List.length (chain c) /\ soft_blocks e = [];
  rep_soft_only : level = SoftOnly -> firm_blocks e = [];
  rep_spread : level = SoftAndFirm -> 0 <= celestia_search_height_max_look_ahead p /\
    Z.of_nat (List.length (chain c)) <= Z.of_nat (finalized c) + celestia_search_height_max_look_ahead p }.

Lemma next_expected_val (r : result InvalidState Z) n purpose h : session_ok -> 0 <= n ->
  r = map_number purpose p n -> expected_height r = Val h ->
  h = sequencer_start_block_height p + n - rollup_start_block_number p + 1 /\ 0 <= h - 1.
Proof.
  intros [Hstart Hfirst _] Hn ->. unfold map_number.
  destruct (map_rollup_number_to_sequencer_height _ _ _) as [m|] eqn:Hm; cbn; [|done].
  apply map_number_Ok in Hm as (-> & _ & _ & _ & Hr); [|done..].
  set (m := _ - _) in *. destruct (decide (m = 2 ^ 63 - 1)) as [->|].
  - by rewrite height_increment_max.
  - rewrite height_increment_val by lia. intros [= <-]. lia.
Qed.

Section step.
Context (Hsession : session_ok).
Context e c (Hrep : represents e c).
Let l := chain c.
Let k := finalized c.

Lemma soft_number_val : soft_number (rollup_state e) = eb_number first + Z.of_nat (List.length l).
Proof. unfold soft_number. rewrite (rep_soft _ _ Hrep). apply (head_number p session), (rep_linked _ _ Hrep). Qed.
Lemma firm_number_val : firm_number (rollup_state e) = eb_number first + Z.of_nat k.
Proof.
  unfold firm_number. rewrite (rep_firm _ _ Hrep).
  apply (block_at_number p session); [apply (rep_linked _ _ Hrep)|apply (rep_final _ _ Hrep)].
Qed.
Lemma next_soft_val h : next_expected_soft_sequencer_height (rollup_state e) = Val h ->
  h = sequencer_start_block_height p + soft_number (rollup_state e) - rollup_start_block_number p + 1 /\ 0 <= h - 1.
Proof.
  pose proof (session_number Hsession). pose proof soft_number_val.
  unfold next_expected_soft_sequencer_height, map_soft_to_sequencer_height. rewrite (rep_params _ _ Hrep).
  apply next_expected_val with (purpose := "soft commitment"); [done|lia|done].
Qed.
Lemma next_firm_val h : next_expected_firm_sequencer_height (rollup_state e) = Val h ->
  h = sequencer_start_block_height p + firm_number (rollup_state e) - rollup_start_block_number p + 1 /\ 0 <= h - 1.
Proof.
  pose proof (session_number Hsession). pose proof firm_number_val.
  unfold next_expected_firm_sequencer_height, map_firm_to_sequencer_height. rewrite (rep_params _ _ Hrep).
  apply next_expected_val with (purpose := "firm commitment"); [done|lia|done].
Qed.
Lemma rollup_number_val h n : rollup_number R e h n -> 0 <= h ->
  n = h - sequencer_start_block_height p + rollup_start_block_number p.
Proof.
  unfold rollup_number. rewrite (rep_params _ _ Hrep). intros Hn Hh.
  apply map_height_Ok in Hn as (-> & _); [done|apply Hsession..|done].
Qed.

(** What the executor executed is the next block of the chain. *)
Lemma executed_extends parent x m n : executed_on R parent x m e n ->
  parent = head first l -> received (esp_rollup_id p) x ->
  xb_height x = sequencer_start_block_height p + eb_number m - rollup_start_block_number p ->
  exists q, extends p session (head first l) (q, m) /\
    n.2 = (fun qm => (qm.1, executed_to_raw qm.2)) <$> (l ++ [(q, m)])%list.
Proof.
  intros [Hnum (q & Hq & Hn)] -> Hx Hh. exists q. rewrite (rep_session _ _ Hrep) in Hq. split.
  - split; [exact Hnum|]. by exists x.
  - rewrite fmap_app, Hn, (rep_log _ _ Hrep). done.
Qed.
Lemma number_at i qm : l !! i = Some qm -> eb_number qm.2 = eb_number first + Z.of_nat i + 1.
Proof.
  intros Hi. rewrite <- (block_at_lookup first l i qm Hi).
  rewrite (block_at_number p session); [lia|apply (rep_linked _ _ Hrep)|]. apply lookup_lt_Some in Hi. lia.
Qed.

Lemma spread_small : level = SoftAndFirm -> is_spread_too_large e = (Val (Ok false), e) ->
  Z.of_nat (List.length l) + 1 <= Z.of_nat k + celestia_search_height_max_look_ahead p.
Proof.
  intros Hlevel Hrun. unfold is_spread_too_large, next_firm, next_soft in Hrun. exec_inv Hrun.
  rewrite (rep_level _ _ Hrep), Hlevel in Hrun. cbn [is_with_firm negb] in Hrun. exec_inv Hrun.
  apply exec_ret_Ok in Hrun as [Hle _]. symmetry in Hle. apply Z.leb_gt in Hle.
  rewrite (rep_params _ _ Hrep) in Hle. unfold saturating_sub in Hle.
  pose proof (next_firm_val _ Hv). pose proof (next_soft_val _ Hv0).
  pose proof soft_number_val as Hsoft. pose proof firm_number_val as Hfirm. lia.
Qed.
Lemma soft_represents b u e' : level <> FirmOnly ->
  (level = SoftAndFirm ->
   Z.of_nat (List.length l) + 1 <= Z.of_nat k + celestia_search_height_max_look_ahead p) ->
  execute_soft b e = (Val (Ok u), e') ->
  exists c', rtc (canonical_step p session first) c c' /\ represents e' c'.
Proof.
  intros Hlevel Hspread Hrun. apply execute_soft_Ok in Hrun; [|done].
  destruct Hrun as (h & Hh & [[_ ->]|[Hb (x & number & m & n & Hx & Hnum & Hex & ->)]]); [by exists c|].
  pose proof (next_soft_val h Hh) as [Hhv Hh0]. apply rollup_number_val in Hnum; [|lia]. subst number.
  pose proof soft_number_val as Hsoft. pose proof (from_sequencer_height _ _ _ Hx) as Hxh.
  rewrite (rep_params _ _ Hrep) in Hx.
  pose proof (proj1 Hex) as Hm. change (eb_number (soft (rollup_state e))) with (soft_number (rollup_state e)) in Hm.
  destruct (executed_extends (soft (rollup_state e)) x m n Hex (rep_soft _ _ Hrep)) as (q & Hext & Hlog);
    [left; by exists b|lia|].
  exists (mk_canonical (l ++ [(q, m)])%list k). split.
  { apply rtc_once. unfold l, k. destruct c. by constructor. }
  destruct Hrep as [? ? ? ? Hl Hk Hfirm ? Hpend ? Hfo ? Hsp].
  split; cbn; try done.
  - by apply linked_snoc.
  - rewrite length_app. fold l k in Hk. lia.
  - rewrite Hfirm. by rewrite block_at_app.
  - by rewrite head_snoc.
  - intros i qm Hi Hlk _. apply lookup_snoc_Some in Hlk as [[Hlt Hlk]|[-> <-]].
    + rewrite lookup_insert_ne; [by apply (Hpend i)|]. rewrite (number_at i qm Hlk). lia.
    + cbn. replace (h - sequencer_start_block_height p + rollup_start_block_number p) with (eb_number m) by lia.
      apply lookup_insert_eq.
  - intros Hl2. destruct (Hsp Hl2) as [Hla _]. split; [done|]. rewrite length_app. cbn [List.length].
    specialize (Hspread Hl2). lia.
Qed.

(** A firm block that is not executed was executed soft, and is kept. *)
Lemma pending_block h sh number : next_expected_firm_sequencer_height (rollup_state e) = Val h ->
  next_expected_soft_sequencer_height (rollup_state e) = Val sh ->
  should_execute_firm_block h sh level = false -> level <> SoftOnly ->
  number = h - sequencer_start_block_height p + rollup_start_block_number p ->
  exists qm, l !! k = Some qm /\ eb_number qm.2 = number /\ level = SoftAndFirm /\
    blocks_pending_finalization e !! number = Some qm.2.
Proof.
  intros Hh Hsh Hshould Hlevel ->. pose proof (next_firm_val h Hh). pose proof (next_soft_val sh Hsh).
  pose proof soft_number_val. pose proof firm_number_val. pose proof (rep_final _ _ Hrep) as Hk. fold l k in Hk.
  assert (level = SoftAndFirm /\ h <> sh) as [Hl2 Hne].
  { unfold should_execute_firm_block in Hshould. destruct level; [done|done|]. by apply Z.eqb_neq in Hshould. }
  assert (k < List.length l)%nat as Hlt by lia.
  destruct (lookup_lt_is_Some_2 _ _ Hlt) as [qm Hqm]. pose proof (number_at k qm Hqm) as Hnm.
  pose proof (rep_pending _ _ Hrep k qm (le_n _) Hqm) as Hp.
  replace (h - sequencer_start_block_height p + rollup_start_block_number p) with (eb_number qm.2) by lia.
  exists qm. split_and!; [done..|]. apply Hp. congruence.
Qed.
(** What the commitments advance by *)
Lemma firm_advances b u e' : level <> SoftOnly -> execute_firm b e = (Val (Ok u), e') ->
  firm_number (rollup_state e') = firm_number (rollup_state e) + 1 /\
  soft_number (rollup_state e) <= soft_number (rollup_state e') /\
  execution_session_parameters (rollup_state e') = execution_session_parameters (rollup_state e) /\
  firm_blocks e' = firm_blocks e /\ soft_blocks e' = soft_blocks e.
Proof.
  intros Hlevel Hrun. apply execute_firm_Ok in Hrun; [|done].
  destruct Hrun as (h & x & number & Hh & _ & _ & Hnum & sh & Hsh & n & m & Hcase).
  pose proof (next_firm_val h Hh) as [Hhv Hh0]. apply rollup_number_val in Hnum; [|lia].
  pose proof (next_soft_val sh Hsh) as [Hshv _].
  pose proof soft_number_val. pose proof firm_number_val. pose proof (rep_final _ _ Hrep) as Hk. fold l k in Hk.
  rewrite (rep_level _ _ Hrep) in Hcase.
  destruct (should_execute_firm_block h sh level) eqn:Hshould.
  - destruct Hcase as [[Hm _] ->].
    assert (k = List.length l) as Hkl.
    { pose proof (rep_firm_only _ _ Hrep) as Hfo. fold l k in Hfo. unfold should_execute_firm_block in Hshould.
      destruct level; [by apply Hfo|done|]. apply Z.eqb_eq in Hshould. lia. }
    change (eb_number (firm (rollup_state e))) with (firm_number (rollup_state e)) in Hm.
    split_and!; [exact Hm|change (soft_number (rollup_state e) <= eb_number m); lia|done..].
  - destruct (pending_block h sh number Hh Hsh Hshould Hlevel Hnum) as (qm & _ & Hnm & _ & Hp).
    rewrite Hp in Hcase. destruct Hcase as (_ & _ & -> & ->).
    split_and!; [change (eb_number qm.2 = firm_number (rollup_state e) + 1); lia|apply Z.le_refl|done..].
Qed.
Lemma soft_advances b u e' : execute_soft b e = (Val (Ok u), e') ->
  firm_number (rollup_state e') = firm_number (rollup_state e) /\
  sequencer_start_block_height p + soft_number (rollup_state e') - rollup_start_block_number p + 1 =
    Z.max (sequencer_start_block_height p + soft_number (rollup_state e) - rollup_start_block_number p + 1)
      (header_height (fb_header b) + 1) /\
  execution_session_parameters (rollup_state e') = execution_session_parameters (rollup_state e) /\
  firm_blocks e' = firm_blocks e /\ soft_blocks e' = soft_blocks e.
Proof.
  intros Hrun. apply execute_soft_Ok in Hrun; [|done].
  destruct Hrun as (h & Hh & Hcase). pose proof (next_soft_val h Hh) as [Hhv _].
  destruct Hcase as [[Hlt ->]|[Hb (x & number & m & n & _ & _ & [Hm _] & ->)]].
  - split_and!; try done. lia.
  - change (eb_number (soft (rollup_state e))) with (soft_number (rollup_state e)) in Hm.
    split_and!; try done. change (sequencer_start_block_height p + eb_number m - rollup_start_block_number p + 1 =
      Z.max (sequencer_start_block_height p + soft_number (rollup_state e) - rollup_start_block_number p + 1)
        (header_height (fb_header b) + 1)). lia.
Qed.

Lemma firm_represents b u e' : (level = SoftOnly -> False) -> execute_firm b e = (Val (Ok u), e') ->
  exists c', rtc (canonical_step p session first) c c' /\ represents e' c'.
Proof.
  intros Hlevel Hrun. apply execute_firm_Ok in Hrun; [|done].
  destruct Hrun as (h & x & number & Hh & Hx & Hb & Hnum & sh & Hsh & n & m & Hcase).
  pose proof (next_firm_val h Hh) as [Hhv Hh0]. pose proof (next_soft_val sh Hsh) as [Hshv Hsh0].
  apply rollup_number_val in Hnum; [|lia]. subst number.
  pose proof soft_number_val as Hsoft. pose proof firm_number_val as Hfirmn.
  pose proof (from_reconstructed_height _ _ Hx) as Hxh. pose proof (rep_final _ _ Hrep) as Hk. fold l k in Hk.
  pose proof (rep_firm_only _ _ Hrep) as Hfo. fold l k in Hfo. rewrite (rep_level _ _ Hrep) in Hcase.
  destruct (should_execute_firm_block h sh level) eqn:Hshould.
  - assert (k = List.length l) as Hkl.
    { unfold should_execute_firm_block in Hshould. destruct level; [by apply Hfo|done|]. apply Z.eqb_eq in Hshould. lia. }
    destruct Hcase as [Hex ->].
    pose proof (proj1 Hex) as Hm. change (eb_number (firm (rollup_state e))) with (firm_number (rollup_state e)) in Hm.
    destruct (executed_extends (firm (rollup_state e)) x m n Hex) as (q & Hext & Hlog).
    { rewrite (rep_firm _ _ Hrep). fold l k. rewrite Hkl. apply block_at_all. }
    { right. by exists b. }
    { lia. }
    exists (mk_canonical (l ++ [(q, m)])%list (S (List.length l))). split.
    { apply rtc_once. revert Hkl. unfold l, k. destruct c as [cl ck]. cbn. intros ->. by constructor. }
    destruct Hrep as [? ? ? ? Hl _ Hfirm ? Hpend ? ? ? Hsp].
    split; cbn; try done.
    + by apply linked_snoc.
    + rewrite length_app. cbn. lia.
    + rewrite (block_at_lookup _ _ _ (q, m)); [done|]. by apply list_lookup_middle.
    + by rewrite head_snoc.
    + intros i qm Hi Hlk _. apply lookup_lt_Some in Hlk. rewrite length_app in Hlk. cbn in Hlk. lia.
    + intros Hl2. split; [|by apply Hfo]. rewrite length_app. cbn. lia.
    + intros Hl2. destruct (Hsp Hl2) as [Hla _]. split; [done|]. rewrite length_app. cbn. lia.
  - destruct (pending_block h sh _ Hh Hsh Hshould Hlevel eq_refl) as (qm & Hqm & Hnm & Hl2 & Hp).
    pose proof (lookup_lt_Some _ _ _ Hqm) as Hlt. destruct Hcase as (Hlog & _ & Hcase).
    rewrite Hp in Hcase. destruct Hcase as [-> ->].
    exists (mk_canonical l (S k)). split.
    { apply rtc_once. unfold l, k in *. destruct c as [cl ck]. by constructor. }
    destruct Hrep as [? ? ? Hlg Hl _ Hfirm ? Hpend ? ? ? Hsp].
    split; cbn; try done.
    + by rewrite Hlog.
    + symmetry. by apply block_at_lookup.
    + intros i qm' Hi Hlk Hlev. rewrite lookup_delete_ne.
      * apply (Hpend i); [fold k; lia|done|done].
      * rewrite (number_at i qm' Hlk). pose proof (number_at k qm Hqm). lia.
    + intros Hl3. congruence.
    + intros Hl3. destruct (Hsp Hl3) as [Hla Hle]. split; [done|]. fold l k in Hle. lia.
Qed.
End step.

(** ** Turns *)
Lemma represents_same e e1 c : represents e c ->
  rollup_state e1 = rollup_state e -> node e1 = node e ->
  execution_commit_level e1 = execution_commit_level e ->
  blocks_pending_finalization e1 = blocks_pending_finalization e ->
  Forall (fun t => match t.1 with ReaderKind_Firm => is_with_firm level | ReaderKind_Soft => is_with_soft level end = true) (reader_tasks e1) ->
  (level = FirmOnly -> soft_blocks e1 = []) -> (level = SoftOnly -> firm_blocks e1 = []) ->
  represents e1 c.
Proof.
  intros [] Hs Hn Hl Hp Ht Hfo Hso. split; rewrite ?Hs, ?Hn, ?Hl, ?Hp; try done.
  intros Hlevel. split; [by apply rep_firm_only0|by apply Hfo].
Qed.

Lemma is_spread_too_large_state e b e1 : is_spread_too_large e = (Val (Ok b), e1) -> e1 = e.
Proof.
  intros Hrun. unfold is_spread_too_large, next_firm, next_soft in Hrun. exec_inv Hrun.
  by destruct (negb _); exec_inv Hrun.
Qed.

Inductive handled e e' : Prop :=
| handled_firm block blocks u : firm_blocks e = block :: blocks ->
    execute_firm block (upd_firm_blocks (fun _ => blocks) e) = (Val (Ok u), e') -> handled e e'
| handled_soft block blocks u : soft_blocks e = block :: blocks ->
    is_spread_too_large e = (Val (Ok false), e) ->
    execute_soft block (upd_soft_blocks (fun _ => blocks) e) = (Val (Ok u), e') -> handled e e'
| handled_exit task res others u : join_next (reader_tasks e) = Some (task, res, others) ->
    handle_task_exit task res (upd_reader_tasks (fun _ => others) e) = (Val (Ok u), e') -> handled e e'.
#[local] Opaque execute_firm execute_soft handle_task_exit is_spread_too_large.
Lemma turn_handled e e' : event_loop_turn e = (Val (Ok Handled), e') -> handled e e'.
Proof.
  intros Hrun. unfold event_loop_turn in Hrun. apply exec_bind_Ok in Hrun as (spread & e1 & Hspread & Hrun).
  pose proof (is_spread_too_large_state _ _ _ Hspread) as ->. 
  apply exec_bind_Ok in Hrun as (e2 & e3 & [-> ->]%exec_gets_Ok & Hrun).
  destruct (firm_blocks e) as [|block blocks] eqn:Hf.
  - destruct spread.
    2: destruct (soft_blocks e) as [|block blocks] eqn:Hs.
    3: { exec_inv Hrun. by eapply handled_soft. }
    all: destruct (join_next (reader_tasks e)) as [[[task res] others]|] eqn:Hj.
    2, 4: by case_match.
    all: exec_inv Hrun; by eapply handled_exit.
  - exec_inv Hrun. by eapply handled_firm.
Qed.
#[local] Transparent execute_firm execute_soft handle_task_exit is_spread_too_large.

Lemma handle_task_exit_Ok task res e u e1 : handle_task_exit task res e = (Val (Ok u), e1) ->
  e1 = e \/ e1 = stop_readers e.
Proof.
  intros Hrun. unfold handle_task_exit in Hrun. exec_inv Hrun.
  destruct task; case_match; try (by destruct (Hrun)).
  all: try destruct (end_block_number (rollup_state e)); try case_match; try done.
  all: injection Hrun as <- <-; auto.
Qed.
Lemma join_next_forall (P : ReaderKind * option TaskResult -> Prop) tasks : forall task res others,
  join_next tasks = Some (task, res, others) -> Forall P tasks -> Forall P others.
Proof.
  induction tasks as [|[kind [r|]] tasks IH]; intros task res others; cbn; [done| |].
  - intros [= <- <- <-] Hall. by apply list.Forall_cons in Hall as [_ Hall].
  - destruct (join_next tasks) as [[[t r] o]|]; cbn; [|done]. intros [= <- <- <-] Hall.
    apply list.Forall_cons in Hall as [Hk Hall]. constructor; [done|by eapply IH].
Qed.
Lemma closed_without kind e : Forall (fun t => kind_eqb t.1 kind = false) (reader_tasks e) -> closed kind e = true.
Proof.
  intros Hall. unfold closed. apply orb_true_iff. right. apply forallb_forall. intros t Ht%list_elem_of_In.
  rewrite list.Forall_forall in Hall. by rewrite (Hall t Ht).
Qed.

Lemma step_represents e e' c : session_ok -> represents e c -> executor_step e e' ->
  exists c', rtc (canonical_step p session first) c c' /\ represents e' c'.
Proof.
  intros Hs Hrep Hstep. pose proof (rep_tasks _ _ Hrep) as Htasks.
  pose proof (rep_firm_only _ _ Hrep) as Hfo. pose proof (rep_soft_only _ _ Hrep) as Hso.
  assert (level = FirmOnly -> closed ReaderKind_Soft e = true) as Hcs.
  { intros ->. apply closed_without. eapply list.Forall_impl; [exact Htasks|]. by intros [[] ?]. }
  assert (level = SoftOnly -> closed ReaderKind_Firm e = true) as Hcf.
  { intros ->. apply closed_without. eapply list.Forall_impl; [exact Htasks|]. by intros [[] ?]. }
  destruct Hstep as [e b Hc|e b Hc|e before kind res after Ht|e e' Hturn].
  - exists c. split; [done|]. eapply represents_same; [exact Hrep|done..| |]; cbn.
    + intros Hl. by apply Hfo.
    + intros Hl. by rewrite Hcf in Hc.
  - exists c. split; [done|]. eapply represents_same; [exact Hrep|done..| |]; cbn.
    + intros Hl. by rewrite Hcs in Hc.
    + intros Hl. by apply Hso.
  - exists c. split; [done|]. eapply represents_same; [exact Hrep|done..| | |]; cbn.
    + rewrite Ht in Htasks. apply Forall_app in Htasks as [Hb Ha].
      apply list.Forall_cons in Ha as [Hk Ha]. apply Forall_app. by repeat constructor.
    + intros Hl. by apply Hfo.
    + intros Hl. by apply Hso.
  - destruct (turn_handled _ _ Hturn) as [b bs u Hq Hrun|b bs u Hq Hspread Hrun|task res others u Hj Hrun].
    + eapply firm_represents; [exact Hs| | |exact Hrun].
      * eapply represents_same; [exact Hrep|done..| |]; cbn; intros Hl; [by apply Hfo|].
        specialize (Hso Hl). by rewrite Hq in Hso.
      * intros Hl. specialize (Hso Hl). by rewrite Hq in Hso.
    + eapply soft_represents; [exact Hs| | | |exact Hrun].
      * eapply represents_same; [exact Hrep|done..| |]; cbn; intros Hl; [|by apply Hso].
        destruct (Hfo Hl) as [_ Hn]. by rewrite Hq in Hn.
      * intros Hl. destruct (Hfo Hl) as [_ Hn]. by rewrite Hq in Hn.
      * intros Hl. by apply (spread_small Hs e c Hrep Hl).
    + exists c. split; [done|].
      assert (represents (upd_reader_tasks (fun _ => others) e) c) as Hrep'.
      { eapply represents_same; [exact Hrep|done..| | |]; cbn.
        - by eapply join_next_forall.
        - intros Hl. by apply Hfo.
        - intros Hl. by apply Hso. }
      destruct (handle_task_exit_Ok _ _ _ _ _ Hrun) as [->| ->]; [done|].
      eapply represents_same; [exact Hrep'|done..|apply Hrep'| |]; cbn; intros Hl; [by apply Hfo|by apply Hso].
Qed.

Lemma steps_represent e e' c : session_ok -> represents e c -> rtc executor_step e e' ->
  exists c', rtc (canonical_step p session first) c c' /\ represents e' c'.
Proof.
  intros Hs Hrep Hsteps. revert c Hrep. induction Hsteps as [|e e1 e' Hstep _ IH]; intros c Hrep; [by exists c|].
  destruct (step_represents _ _ _ Hs Hrep Hstep) as (c1 & Hc1 & Hrep1).
  destruct (IH c1 Hrep1) as (c2 & Hc2 & Hrep2). exists c2. split; [by etrans|done].
Qed.
End invariant.

(** ** Sessions *)
Section sessions.
Context `{BlobCodec, VoteCodec, TendermintHeight, !HeightLaws, RollupCodec}.
Variable R : Rollup.
#[local] Hint Extern 0 Rollup => exact (recorded R) : typeclass_instances.

(** A rollup whose record is empty *)
Definition unrecorded (n : @Node R) : @Node (recorded R) := (n, []).

Lemma initialized_Ok level retries n e : initialized level retries (unrecorded n) = Ok e ->
  exists m, e = mk_executor level retries (unrecorded m) [] [] (rollup_state e) ∅ (spawned_readers level) false false /\
    0 <= sequencer_start_block_height (execution_session_parameters (rollup_state e)) < 2 ^ 63 /\
    (level = SoftAndFirm -> 0 < celestia_search_height_max_look_ahead (execution_session_parameters (rollup_state e))).
Proof.
  unfold initialized, create_initial_node_state.
  destruct (call_with_retry retries node_create_execution_session (unrecorded n)) as [r m] eqn:Hcall.
  destruct r as [raw|]; cbn; [|done].
  assert (m.2 = []) as Hm.
  { apply (call_with_retry_Ok (@node_create_execution_session (recorded R)) (fun n => n.2 = [])
      (fun _ n => n.2 = []) _ _ _ _) in Hcall; [done| | |done].
    all: intros n0 x n' Hn; cbn; destruct (@node_create_execution_session R _) as [r0 m0]; by intros [= -> <-]. }
  destruct (session_try_from_raw raw) as [session|] eqn:Hraw; cbn; [|done].
  destruct (try_from_execution_session session level) as [s|] eqn:Hs; cbn; [|done].
  destruct (check_channel_size level s) as [[]|] eqn:Hsize; cbn; [|done]. intros [= <-].
  exists m.1. cbn. destruct m as [m lg]. cbn in Hm. subst lg. split; [done|].
  assert (execution_session_parameters s = es_execution_session_parameters session) as Hp.
  { unfold try_from_execution_session in Hs. destruct (check_mapped _ _ _); cbn in Hs; [|done].
    destruct (rollup_end_block_number _); cbn in Hs; [|by injection Hs as <-].
    destruct (map_number _ _ _); cbn in Hs; [by injection Hs as <-|done]. }
  split.
  - rewrite Hp. unfold session_try_from_raw in Hraw.
    destruct (raw_es_execution_session_parameters raw) as [rp|]; cbn in Hraw; [|done].
    destruct (session_params_try_from_raw rp) as [sp|] eqn:Hsp; cbn in Hraw; [|done].
    destruct (raw_es_commitment_state raw) as [rc|]; cbn in Hraw; [|done].
    destruct (commitment_try_from_raw rc); cbn in Hraw; [|done]. injection Hraw as <-. cbn.
    unfold session_params_try_from_raw in Hsp. destruct (raw_esp_rollup_id rp); cbn in Hsp; [|done].
    destruct (rollup_id_try_from_raw _); cbn in Hsp; [|done].
    destruct (tm_height_valid (raw_sequencer_start_block_height rp)) eqn:Hv; cbn in Hsp; [|done].
    injection Hsp as <-. cbn. by apply height_valid_iff.
  - intros ->. unfold check_channel_size in Hsize. destruct (Z.ltb_spec 0
      (celestia_search_height_max_look_ahead (execution_session_parameters s))); [done|discriminate Hsize].
Qed.

Lemma initial_represents level retries n e0 : initialized level retries (unrecorded n) = Ok e0 ->
  let p := execution_session_parameters (rollup_state e0) in
  firm (rollup_state e0) = soft (rollup_state e0) -> 0 <= soft_number (rollup_state e0) ->
  uint 64 (rollup_start_block_number p) ->
  session_ok p (soft (rollup_state e0)) /\
  represents R p (execution_session_id (rollup_state e0)) (soft (rollup_state e0)) level e0 (mk_canonical [] 0).
Proof.
  intros Hinit p Hfirm Hnum Hfirst. destruct (initialized_Ok _ _ _ _ Hinit) as (m & He0 & Hstart & Hlook).
  split; [by split|].
  assert (firm_blocks e0 = [] /\ soft_blocks e0 = [] /\ reader_tasks e0 = spawned_readers level /\
    execution_commit_level e0 = level /\ (node e0).2 = []) as (Hf & Hs & Ht & Hl & Hn) by (by rewrite He0).
  split; cbn; try done.
  - rewrite Ht. destruct level; repeat constructor.
  - intros Hl2. specialize (Hlook Hl2). fold p in Hlook. split; lia.
Qed.

(** C12. An executor that starts with agreeing commitments refines the canonical
    chain: however its readers interleave, what its rollup recorded, what its
    commitments point to and what it keeps for later are those of a run of the
    chain, which appends the blocks one number, and one sequencer height, after
    the other. *)
Theorem executor_refines_the_chain level retries n e0 e :
  commits_what_is_asked R -> initialized level retries (unrecorded n) = Ok e0 ->
  let p := execution_session_parameters (rollup_state e0) in
  let session := execution_session_id (rollup_state e0) in
  let first := soft (rollup_state e0) in
  firm (rollup_state e0) = first -> 0 <= eb_number first -> uint 64 (rollup_start_block_number p) ->
  rtc executor_step e0 e ->
  exists c, rtc (canonical_step p session first) (mk_canonical [] 0) c /\
    represents R p session first level e c.
Proof.
  intros Hcommits Hinit p session first Hfirm Hnum Hfirst Hsteps.
  destruct (initial_represents _ _ _ _ Hinit Hfirm Hnum Hfirst) as [Hs Hrep].
  by eapply (steps_represent R Hcommits).
Qed.
End sessions.

(** ** How the executor ends

    The executor leaves its event loop without an error only when the readers
    of its commit level ended after the rollup reached the end of the session,
    so that the conductor starts the next session; and what it reports when a
    reader, a node or a block is not as it should be. *)
Section exit.
Context `{BlobCodec, VoteCodec, TendermintHeight, !HeightLaws, RollupCodec}.
Variable R : Rollup.
#[local] Hint Extern 0 Rollup => exact (recorded R) : typeclass_instances.
Context (Hcommits : commits_what_is_asked R).
Context (p : ExecutionSessionParameters) (session : string) (first : ExecutedBlockMetadata).
Context (level : CommitLevel) (Hsession : session_ok p first).
Implicit Types e : Executor.

(** No task of the kind is left. *)
Definition gone (kind : ReaderKind) (tasks : list (ReaderKind * option TaskResult)) : Prop :=
  Forall (fun t => t.1 <> kind) tasks.
Record exits_ok e : Prop := {
  exits_represents : exists c, represents R p session first level e c;
  exits_firm : is_with_firm level = true -> gone ReaderKind_Firm (reader_tasks e) ->
    has_firm_number_reached_stop_height (rollup_state e) = true;
  exits_soft : is_with_firm level = false -> gone ReaderKind_Soft (reader_tasks e) ->
    has_soft_number_reached_stop_height (rollup_state e) = true }.

Lemma join_next_perm tasks : forall task res others, join_next tasks = Some (task, res, others) ->
  tasks ≡ₚ (task, Some res) :: others.
Proof.
  induction tasks as [|[kind [r|]] tasks IH]; intros task res others; cbn; [done| |].
  - by intros [= <- <- <-].
  - destruct (join_next tasks) as [[[t r] o]|]; cbn; [|done]. intros [= <- <- <-].
    rewrite (IH _ _ _ eq_refl). apply perm_swap.
Qed.
Lemma task_exit_reached task res e u e1 : handle_task_exit task res e = (Val (Ok u), e1) ->
  rollup_state e1 = rollup_state e /\ reader_tasks e1 = reader_tasks e /\
  match task with
  | ReaderKind_Firm => has_firm_number_reached_stop_height (rollup_state e) = true
  | ReaderKind_Soft => has_soft_number_reached_stop_height (rollup_state e) = true
  end.
Proof.
  intros Hrun. assert (e1 = e \/ e1 = stop_readers e) as Hst by (by eapply handle_task_exit_Ok).
  split; [by destruct Hst as [->| ->]|]. split; [by destruct Hst as [->| ->]|].
  unfold handle_task_exit in Hrun. exec_inv Hrun.
  destruct task; case_match; try (by destruct (Hrun)).
  all: destruct (end_block_number (rollup_state e)); cbn in Hrun; try done.
  all: by case_match.
Qed.
(** Reaching the end of the session is final. *)
Lemma reached_mono s s' : execution_session_parameters s' = execution_session_parameters s ->
  firm_number s <= firm_number s' -> soft_number s <= soft_number s' ->
  (has_firm_number_reached_stop_height s = true -> has_firm_number_reached_stop_height s' = true) /\
  (has_soft_number_reached_stop_height s = true -> has_soft_number_reached_stop_height s' = true).
Proof.
  intros Hp Hf Hs. unfold has_firm_number_reached_stop_height, has_soft_number_reached_stop_height, end_block_number.
  rewrite Hp. destruct (rollup_end_block_number _); [|done]. rewrite !Z.leb_le. lia.
Qed.
Lemma exits_same e e1 : exits_ok e -> (exists c, represents R p session first level e1 c) ->
  execution_session_parameters (rollup_state e1) = execution_session_parameters (rollup_state e) ->
  firm_number (rollup_state e) <= firm_number (rollup_state e1) ->
  soft_number (rollup_state e) <= soft_number (rollup_state e1) ->
  (forall kind, gone kind (reader_tasks e1) -> gone kind (reader_tasks e)) -> exits_ok e1.
Proof.
  intros [_ Hf Hs] Hrep Hp Hfn Hsn Hgone. destruct (reached_mono _ _ Hp Hfn Hsn) as [Hrf Hrs].
  split; [done|..]; intros Hl Hg; [apply Hrf, Hf|apply Hrs, Hs]; auto.
Qed.

Lemma execute_firm_tasks b e u e1 : execute_firm b e = (Val (Ok u), e1) -> reader_tasks e1 = reader_tasks e.
Proof.
  intros Hrun. apply execute_firm_Ok in Hrun; [|done].
  destruct Hrun as (h & x & number & _ & _ & _ & _ & sh & _ & n & m & Hcase).
  destruct (should_execute_firm_block _ _ _); [by destruct Hcase as [_ ->]|].
  destruct Hcase as (_ & _ & Hcase). by destruct (_ !! number); destruct Hcase as [_ ->].
Qed.
Lemma execute_soft_tasks b e u e1 : execute_soft b e = (Val (Ok u), e1) -> reader_tasks e1 = reader_tasks e.
Proof.
  intros Hrun. apply execute_soft_Ok in Hrun; [|done].
  by destruct Hrun as (h & _ & [[_ ->]|[_ (x & number & m & n & _ & _ & _ & ->)]]).
Qed.
Lemma exits_step e e1 : exits_ok e -> executor_step e e1 -> exits_ok e1.
Proof.
  intros Hok Hstep. destruct (exits_represents _ Hok) as [c Hrep].
  destruct (step_represents R Hcommits p session first level _ _ _ Hsession Hrep Hstep) as (c1 & _ & Hrep1).
  assert (exists c, represents R p session first level e1 c) as Hrep' by eauto.
  destruct Hstep as [e b _|e b _|e before kind res after Ht|e e1 Hturn].
  - apply (exits_same e); [done..|cbn; lia|cbn; lia|done].
  - apply (exits_same e); [done..|cbn; lia|cbn; lia|done].
  - apply (exits_same e); [done..|cbn; lia|cbn; lia|]. intros k. rewrite Ht. unfold gone. cbn.
    rewrite !Forall_app, !list.Forall_cons. done.
  - pose proof (rep_soft_only _ _ _ _ _ _ _ Hrep) as Hso. pose proof (rep_firm_only _ _ _ _ _ _ _ Hrep) as Hfo.
    destruct (turn_handled _ _ _ Hturn) as [b bs u Hq Hrun|b bs u Hq Hspread Hrun|task res others u Hj Hrun].
    + assert (level <> SoftOnly) as Hlevel by (intros Hl; specialize (Hso Hl); by rewrite Hq in Hso).
      assert (represents R p session first level (upd_firm_blocks (fun _ => bs) e) c) as Hrep2.
      { eapply represents_same; [exact Hrep|done..|apply Hrep| |]; cbn; intros Hl; [by apply Hfo|done]. }
      destruct (firm_advances R Hcommits p session first level Hsession _ _ Hrep2 _ _ _ Hlevel Hrun)
        as (Hf & Hs & Hp & _). cbn in Hf, Hs, Hp.
      apply (exits_same e); [done|done|done|lia|done|]. by rewrite (execute_firm_tasks _ _ _ _ Hrun).
    + assert (represents R p session first level (upd_soft_blocks (fun _ => bs) e) c) as Hrep2.
      { eapply represents_same; [exact Hrep|done..|apply Hrep| |]; cbn; intros Hl; [|by apply Hso].
        destruct (Hfo Hl) as [_ Hn]. by rewrite Hq in Hn. }
      destruct (soft_advances R Hcommits p session first level Hsession _ _ Hrep2 _ _ _ Hrun)
        as (Hf & Hs & Hp & _). cbn in Hf, Hs, Hp.
      apply (exits_same e); [done|done|done|lia|lia|]. by rewrite (execute_soft_tasks _ _ _ _ Hrun).
    + destruct (task_exit_reached _ _ _ _ _ Hrun) as (Hs & Ht & Hreached). cbn in Hs, Ht, Hreached.
      destruct Hok as [_ Hf Hso2].
      pose proof (join_next_perm _ _ _ _ Hj) as Hperm.
      split; [done|..]; intros Hl Hg; rewrite Hs; rewrite Ht in Hg; destruct task; try done.
      * apply Hf; [done|]. unfold gone. rewrite Hperm. by constructor.
      * apply Hso2; [done|]. unfold gone. rewrite Hperm. by constructor.
Qed.
Lemma exits_steps e e1 : exits_ok e -> rtc executor_step e e1 -> exits_ok e1.
Proof. intros Hok Hsteps. induction Hsteps as [|e e1 e2 Hstep _ IH]; [done|]. by apply IH, (exits_step e). Qed.
End exit.

Section finished.
Context `{BlobCodec, VoteCodec, TendermintHeight, !HeightLaws, RollupCodec}.
Variable R : Rollup.
#[local] Hint Extern 0 Rollup => exact (recorded R) : typeclass_instances.

#[local] Opaque execute_firm execute_soft handle_task_exit is_spread_too_large.
Lemma turn_finished e s e1 : event_loop_turn e = (Val (Ok (Finished s)), e1) ->
  s = rollup_state e /\ reader_tasks e = [].
Proof.
  intros Hrun. unfold event_loop_turn in Hrun. apply exec_bind_Ok in Hrun as (spread & e2 & Hspread & Hrun).
  pose proof (is_spread_too_large_state _ _ _ _ Hspread) as ->.
  apply exec_bind_Ok in Hrun as (e2 & e3 & [-> ->]%exec_gets_Ok & Hrun).
  assert (match join_next (reader_tasks e) with
    | Some (task, res, others) =>
        exec_modify (upd_reader_tasks (fun _ => others));; handle_task_exit task res;; mret Handled
    | None =>
        if closed ReaderKind_Firm e && (spread || closed ReaderKind_Soft e) && bool_decide (reader_tasks e = [])
        then mret (Finished (rollup_state e)) else mret Waiting
    end e = (Val (Ok (Finished s)), e1) -> s = rollup_state e /\ reader_tasks e = []) as Hends.
  { destruct (join_next (reader_tasks e)) as [[[task res] others]|]; intros Hj; [by exec_inv Hj|].
    destruct (_ && _ && bool_decide _) eqn:Hc; [|done].
    apply andb_true_iff in Hc as [_ Hc%bool_decide_eq_true]. by injection Hj as <- <-. }
  destruct (firm_blocks e) as [|block blocks]; [|by exec_inv Hrun].
  destruct spread; [by apply Hends|]. destruct (soft_blocks e) as [|block blocks]; [by apply Hends|by exec_inv Hrun].
Qed.
#[local] Transparent execute_firm execute_soft handle_task_exit is_spread_too_large.

(** C20. In a session whose soft and firm commitments agree at its start, an executor
    that ends without an error has reached the end of the session, so that the
    conductor starts the next one. *)
Theorem finished_executor_restarts level retries n e0 e s e1 :
  commits_what_is_asked R -> initialized level retries (unrecorded R n) = Ok e0 ->
  firm (rollup_state e0) = soft (rollup_state e0) -> 0 <= soft_number (rollup_state e0) ->
  uint 64 (rollup_start_block_number (execution_session_parameters (rollup_state e0))) ->
  rtc executor_step e0 e -> event_loop_turn e = (Val (Ok (Finished s)), e1) ->
  restart_or_shutdown level false (Ok (Some s)) = Ok Restart.
Proof.
  intros Hcommits Hinit Hagree Hnum Hfirst Hsteps Hturn.
  destruct (initial_represents R _ _ _ _ Hinit Hagree Hnum Hfirst) as [Hsession Hrep].
  assert (exits_ok R (execution_session_parameters (rollup_state e0)) (execution_session_id (rollup_state e0))
    (soft (rollup_state e0)) level e0) as Hok.
  { destruct (initialized_Ok R _ _ _ _ Hinit) as (m & He0 & _).
    assert (reader_tasks e0 = spawned_readers level) as Ht by (by rewrite He0).
    split; [by eauto|..]; rewrite Ht; unfold gone, spawned_readers; destruct level; cbn; try done.
    all: by intros _ [Hg _]%list.Forall_cons. }
  apply (exits_steps R Hcommits _ _ _ level Hsession _ _ Hok) in Hsteps as [_ Hf Hs].
  destruct (turn_finished _ _ _ Hturn) as [-> Ht].
  unfold restart_or_shutdown, should_restart_or_shutdown. rewrite Ht in Hf, Hs.
  destruct (is_with_firm level).
  - specialize (Hf eq_refl (Forall_nil_2 _)). unfold has_firm_number_reached_stop_height in *.
    destruct (end_block_number _); [by rewrite Hf|done].
  - specialize (Hs eq_refl (Forall_nil_2 _)). unfold has_soft_number_reached_stop_height in *.
    destruct (end_block_number _); [by rewrite Hs|done].
Qed.
End finished.

(** ** Errors *)
Section errors.
Context `{BlobCodec, VoteCodec, TendermintHeight, RollupCodec, Rollup}.

Lemma call_refused {N A} retries (rpc : N -> result Code A * N) node code :
  (rpc node).1 = Err code -> should_retry code = false -> (call_with_retry retries rpc node).1 = Err code.
Proof. intros Hrpc Hretry. destruct retries; cbn; destruct (rpc node); cbn in Hrpc; subst; by rewrite Hretry. Qed.
(** A block that the node refuses for good is not executed: the error names the
    status, the commitments stay, and the conductor starts a new session
    exactly if the node denied the permission. *)
Theorem refused_block_is_an_error b e x txs h number code :
  from_sequencer b (esp_rollup_id (execution_session_parameters (rollup_state e))) = Val x ->
  next_expected_soft_sequencer_height (rollup_state e) = Val h -> xb_height x = h ->
  try_map_sequencer_height_to_rollup_height
    (sequencer_start_block_height (execution_session_parameters (rollup_state e)))
    (rollup_start_block_number (execution_session_parameters (rollup_state e))) h = Ok number ->
  try_collect (fun tx => ok_or tt (decode_rollup_data tx)) (xb_transactions x) = Ok txs ->
  (forall request, (node_execute_block request (node e)).1 = Err code) -> should_retry code = false ->
  exists error e1, execute_soft b e = (Val (Err error), e1) /\ rollup_state e1 = rollup_state e /\
    error = [Message "failed to execute block"; Message "failed to run execute_block RPC";
             Message "failed to execute astria.execution.v2.ExecuteBlock RPC"; Status code] /\
    (restart_or_shutdown (execution_commit_level e) false (Err error) = Ok Restart <-> code = Code_PermissionDenied).
Proof.
  intros Hx Hh Hheight Hnum Htxs Hnode Hretry. unfold execute_soft, next_soft, exec_gets, exec_run, mbind, ExecM_bind.
  rewrite Hx, Hh, Hheight, Z.compare_refl. unfold block_number_of, exec_gets, exec_wrap, messages, exec_result, mbind, ExecM_bind.
  rewrite Hnum. cbn [map_err]. unfold execute_block, execute_block_with_retry, exec_wrap, messages, exec_result, call, mbind, ExecM_bind.
  rewrite Htxs. cbn [map_err].
  match goal with |- context [call_with_retry ?k (node_execute_block ?q) _] =>
    pose proof (call_refused k (node_execute_block q) (node e) code (Hnode q) Hretry) as Hcall;
    destruct (call_with_retry k (node_execute_block q) (node e)) as [r n] end.
  cbn in Hcall. subst r. cbn [map_err]. eexists _, _. split; [done|]. split; [done|]. split; [done|].
  destruct code; by split.
Qed.
End errors.
