(* ===== verification/CelestiaReader.v ===== *)
(** * The Celestia reader

    [RunningReader] of [astria-conductor/src/celestia/mod.rs]: it schedules the
    Celestia heights to read, caches the blocks reconstructed from them, and
    forwards these to the executor in the order of their sequencer heights. *)
From S2P Require Import Prelude Denom Types State Chain Ics20.
From S2P Require Import Wire WireActions WireLaws WireTransaction Collections.
From S2P Require Import MerkleIndex MerkleTree MerkleAudit Block SequencerBlock.
From S2P Require Import ConductorState BTree BlockCache CelestiaBlobs.
From stdpp Require Import base list option strings gmap sets relations numbers tactics.
From Stdlib Require Import ZArith Lia Ascii String.
Open Scope string_scope.
Open Scope Z_scope.

Section reader.
Context `{BlobCodec, TendermintHeight}.

(** The channel to the executor holds 16 blocks.  [enqueued_block] is the block
    that waits for it; the tasks are known by their Celestia heights. *)
Definition FIRM_CHANNEL_SIZE : nat := 16.
Record Reader := mk_reader {
  block_cache : BlockCache ReconstructedBlock;
  firm_channel : list ReconstructedBlock;
  enqueued_block : option ReconstructedBlock;
  reconstruction_tasks : gset Z;
  celestia_head_height : option Z;
  celestia_next_height : Z;
  celestia_reference_height : Z;
  search_height_max_look_ahead : Z;
  reader_rollup_state : RollupState }.
Definition upd_cache (f : BlockCache ReconstructedBlock -> BlockCache ReconstructedBlock) (r : Reader) : Reader :=
  mk_reader (f (block_cache r)) (firm_channel r) (enqueued_block r) (reconstruction_tasks r)
    (celestia_head_height r) (celestia_next_height r) (celestia_reference_height r)
    (search_height_max_look_ahead r) (reader_rollup_state r).
Definition upd_channel (f : list ReconstructedBlock -> list ReconstructedBlock) (r : Reader) : Reader :=
  mk_reader (block_cache r) (f (firm_channel r)) (enqueued_block r) (reconstruction_tasks r)
    (celestia_head_height r) (celestia_next_height r) (celestia_reference_height r)
    (search_height_max_look_ahead r) (reader_rollup_state r).
Definition upd_enqueued (f : option ReconstructedBlock -> option ReconstructedBlock) (r : Reader) : Reader :=
  mk_reader (block_cache r) (firm_channel r) (f (enqueued_block r)) (reconstruction_tasks r)
    (celestia_head_height r) (celestia_next_height r) (celestia_reference_height r)
    (search_height_max_look_ahead r) (reader_rollup_state r).
Definition upd_tasks (f : gset Z -> gset Z) (r : Reader) : Reader :=
  mk_reader (block_cache r) (firm_channel r) (enqueued_block r) (f (reconstruction_tasks r))
    (celestia_head_height r) (celestia_next_height r) (celestia_reference_height r)
    (search_height_max_look_ahead r) (reader_rollup_state r).
Definition upd_head (f : option Z -> option Z) (r : Reader) : Reader :=
  mk_reader (block_cache r) (firm_channel r) (enqueued_block r) (reconstruction_tasks r)
    (f (celestia_head_height r)) (celestia_next_height r) (celestia_reference_height r)
    (search_height_max_look_ahead r) (reader_rollup_state r).
Definition upd_next (f : Z -> Z) (r : Reader) : Reader :=
  mk_reader (block_cache r) (firm_channel r) (enqueued_block r) (reconstruction_tasks r)
    (celestia_head_height r) (f (celestia_next_height r)) (celestia_reference_height r)
    (search_height_max_look_ahead r) (reader_rollup_state r).
Definition upd_reference (f : Z -> Z) (r : Reader) : Reader :=
  mk_reader (block_cache r) (firm_channel r) (enqueued_block r) (reconstruction_tasks r)
    (celestia_head_height r) (celestia_next_height r) (f (celestia_reference_height r))
    (search_height_max_look_ahead r) (reader_rollup_state r).
(** The executor's updates of the watched state *)
Definition upd_watched (f : RollupState -> RollupState) (r : Reader) : Reader :=
  mk_reader (block_cache r) (firm_channel r) (enqueued_block r) (reconstruction_tasks r)
    (celestia_head_height r) (celestia_next_height r) (celestia_reference_height r)
    (search_height_max_look_ahead r) (f (reader_rollup_state r)).

(** [RunningReader::from_parts] *)
Definition from_parts (s : RollupState) : run (result CacheError Reader) :=
  next ← next_expected_firm_sequencer_height s;
  Val (cache ← with_next_height next;
       let lowest := lowest_celestia_search_height (commitment_state s) in
       Ok (mk_reader cache [] None ∅ None lowest lowest
             (celestia_search_height_max_look_ahead (execution_session_parameters s)) s)).

Definition has_reached_stop_height (r : Reader) : run bool :=
  stop ← sequencer_stop_height (reader_rollup_state r);
  Val match stop with
      | None => false
      | Some height => (height <? next_height (block_cache r)) && bool_decide (enqueued_block r = None)
      end.

(** A block that the cache refuses is dropped. *)
Definition cache_reconstructed_blocks (blocks : list ReconstructedBlock) (r : Reader) : Reader :=
  upd_cache (fun c => fold_left (fun c b => match insert_block b c with Ok c => c | Err _ => c end) blocks c) r.

Definition max_permitted_celestia_height (r : Reader) : Z :=
  saturating_add 64 (celestia_reference_height r) (search_height_max_look_ahead r).
Definition can_schedule_blobs (r : Reader) : bool :=
  match celestia_head_height r with
  | None => false
  | Some head_height =>
      (celestia_next_height r <=? head_height) &&
      (celestia_next_height r <=? max_permitted_celestia_height r) &&
      (Z.of_nat (size (reconstruction_tasks r)) <? 10)
  end.
(** The loop of [schedule_new_blobs], with the heights that it schedules *)
Fixpoint schedule_new_blobs (fuel : nat) (r : Reader) : run (list Z * Reader) :=
  match fuel with
  | O => NoFuel
  | S fuel =>
      if can_schedule_blobs r then
        let height := celestia_next_height r in
        let r := upd_next (fun n => saturating_add 64 n 1) r in
        let r := upd_tasks (fun tasks => {[height]} ∪ tasks) r in
        '(scheduled, r) ← schedule_new_blobs fuel r;
        Val (height :: scheduled, r)
      else Val ([], r)
  end.
(** At most ten tasks run at a time, so that the condition is evaluated at most
    eleven times. *)
Definition SCHEDULE_FUEL : nat := 11.

Definition advance_reference_celestia_height (candidate : Z) : Reader -> Reader :=
  upd_reference (fun reference => Z.max reference candidate).
Definition record_latest_celestia_height (height : Z) : Reader -> Reader :=
  upd_head (fun head => Some (Z.max (default height head) height)).

(** [try_send] on the channel, which is not closed: what was sent is returned. *)
Definition forward_block_to_executor (block : ReconstructedBlock) (r : Reader) : list ReconstructedBlock * Reader :=
  if (List.length (firm_channel r) <? FIRM_CHANNEL_SIZE)%nat then
    ([block], advance_reference_celestia_height (rec_celestia_height block)
                (upd_channel (fun l => (l ++ [block])%list) r))
  else ([], upd_enqueued (fun _ => Some block) r).

(** The reader's loop: after the check of the stop height and the scheduling one
    of the branches of the [select!] is taken.  A step is labelled with the
    blocks sent and the Celestia heights scheduled. *)
Definition turn_start (r : Reader) : run (option (list Z * Reader)) :=
  reached ← has_reached_stop_height r;
  if reached : bool then Val None
  else scheduled ← schedule_new_blobs SCHEDULE_FUEL r; Val (Some scheduled).
Definition cached_block (r : Reader) : run (option ReconstructedBlock * BlockCache ReconstructedBlock) :=
  match enqueued_block r with
  | Some _ => Val (None, block_cache r)
  | None => pop (block_cache r)
  end.

Inductive reader_turn (r : Reader) : list ReconstructedBlock -> list Z -> Reader -> Prop :=
| reader_enqueued_sent hs r1 block :
    turn_start r = Val (Some (hs, r1)) -> enqueued_block r1 = Some block ->
    (List.length (firm_channel r1) < FIRM_CHANNEL_SIZE)%nat ->
    reader_turn r [block] hs
      (advance_reference_celestia_height (rec_celestia_height block)
         (upd_enqueued (fun _ => None) (upd_channel (fun l => (l ++ [block])%list) r1)))
| reader_forwards hs r1 block cache sent r2 :
    turn_start r = Val (Some (hs, r1)) -> cached_block r1 = Val (Some block, cache) ->
    forward_block_to_executor block (upd_cache (fun _ => cache) r1) = (sent, r2) ->
    reader_turn r sent hs r2
| reader_caches hs r1 height blocks :
    turn_start r = Val (Some (hs, r1)) -> cached_block r1 = Val (None, block_cache r1) ->
    height ∈ reconstruction_tasks r1 ->
    reader_turn r [] hs (cache_reconstructed_blocks blocks (upd_tasks (fun tasks => tasks ∖ {[height]}) r1))
| reader_sees_height hs r1 height : tm_height_valid height = true ->
    turn_start r = Val (Some (hs, r1)) -> cached_block r1 = Val (None, block_cache r1) ->
    reader_turn r [] hs (record_latest_celestia_height height r1).
(** The reader in its environment: the executor updates the watched state and
    receives blocks. *)
Inductive reader_step (r : Reader) : list ReconstructedBlock -> list Z -> Reader -> Prop :=
| reader_takes_turn sent hs r' : reader_turn r sent hs r' -> reader_step r sent hs r'
| reader_watches s : reader_step r [] [] (upd_watched (fun _ => s) r)
| executor_receives block blocks : firm_channel r = block :: blocks ->
    reader_step r [] [] (upd_channel (fun _ => blocks) r).
Inductive reader_steps : Reader -> list ReconstructedBlock -> list Z -> Reader -> Prop :=
| reader_steps_nil r : reader_steps r [] [] r
| reader_steps_cons r sent hs r1 sent' hs' r2 :
    reader_step r sent hs r1 -> reader_steps r1 sent' hs' r2 ->
    reader_steps r (sent ++ sent') (hs ++ hs') r2.
End reader.

(** ** What the reader guarantees *)
Section guarantees.
Context `{BlobCodec, TendermintHeight, !HeightLaws}.
Implicit Types r : Reader.

Record schedule_ok r : Prop := {
  tasks_started : forall h, h ∈ reconstruction_tasks r -> h < celestia_next_height r;
  tasks_few : Z.of_nat (size (reconstruction_tasks r)) <= 10;
  head_valid : forall h, celestia_head_height r = Some h -> h < 2 ^ 63 }.
(** What scheduling leaves alone *)
Definition same_but_schedule r r' : Prop :=
  block_cache r' = block_cache r /\ firm_channel r' = firm_channel r /\
  enqueued_block r' = enqueued_block r /\ celestia_head_height r' = celestia_head_height r /\
  celestia_reference_height r' = celestia_reference_height r /\
  search_height_max_look_ahead r' = search_height_max_look_ahead r.

Lemma can_schedule_blobs_true r : can_schedule_blobs r = true <->
  exists head, celestia_head_height r = Some head /\ celestia_next_height r <= head /\
    celestia_next_height r <= max_permitted_celestia_height r /\
    Z.of_nat (size (reconstruction_tasks r)) < 10.
Proof.
  unfold can_schedule_blobs. destruct (celestia_head_height r) as [head|]; [|naive_solver].
  rewrite !andb_true_iff, !Z.leb_le, Z.ltb_lt. naive_solver.
Qed.

Lemma schedule_ends fuel : forall r, schedule_ok r ->
  (11 <= Z.of_nat (size (reconstruction_tasks r)) + Z.of_nat fuel) ->
  exists hs r', schedule_new_blobs fuel r = Val (hs, r') /\ can_schedule_blobs r' = false /\
    schedule_ok r' /\ same_but_schedule r r' /\
    hs = seqZ (celestia_next_height r) (Z.of_nat (List.length hs)) /\
    celestia_next_height r' = celestia_next_height r + Z.of_nat (List.length hs) /\
    Forall (fun h => (exists head, celestia_head_height r = Some head /\ h <= head) /\
                     h <= max_permitted_celestia_height r) hs.
Proof.
  induction fuel as [|fuel IH]; intros r Hok Hfuel; [pose proof (tasks_few _ Hok); lia|].
  cbn [schedule_new_blobs]. destruct (can_schedule_blobs r) eqn:Hcan.
  2:{ exists [], r. cbn. rewrite Z.add_0_r. unfold same_but_schedule. by split_and!. }
  pose proof (proj1 (can_schedule_blobs_true r) Hcan) as (head & Hhead & Hle & Hmax & Hsize).
  set (r1 := upd_tasks _ _). pose proof (head_valid _ Hok head Hhead) as Hhv.
  assert (celestia_next_height r1 = celestia_next_height r + 1) as Hn1.
  { cbn. unfold saturating_add, umax. lia. }
  assert (size (reconstruction_tasks r1) = S (size (reconstruction_tasks r))) as Hsz.
  { cbn. rewrite size_union; [by rewrite size_singleton|]. apply disjoint_singleton_l.
    intros Hin. apply (tasks_started _ Hok) in Hin. lia. }
  destruct (IH r1) as (hs & r' & Hrun & Hend & Hok' & Hsame & Hhs & Hn' & Hall).
  - split; [|rewrite Hsz; lia|apply (head_valid _ Hok)].
    intros h. rewrite Hn1. cbn. intros [->%elem_of_singleton|Hin]%elem_of_union; [lia|].
    apply (tasks_started _ Hok) in Hin. lia.
  - rewrite Hsz. lia.
  - exists (celestia_next_height r :: hs), r'. rewrite Hrun. cbn [mbind run_bind].
    split_and!; [done|done|done|exact Hsame| | |].
    + cbn [List.length]. rewrite seqZ_cons by lia. f_equal. rewrite Hhs at 1. rewrite Hn1. f_equal; lia.
    + rewrite Hn', Hn1. cbn [List.length]. lia.
    + constructor; [|exact Hall]. split; [by exists head|done].
Qed.

(** C22. The scheduling loop ends, after at most ten heights: those that follow the
    last one, none above the head or outside the window; and it ends only when
    no other height may be scheduled. *)
Theorem scheduling_terminates r : schedule_ok r ->
  exists hs r', schedule_new_blobs SCHEDULE_FUEL r = Val (hs, r') /\ can_schedule_blobs r' = false /\
    hs = seqZ (celestia_next_height r) (Z.of_nat (List.length hs)) /\
    Forall (fun h => (exists head, celestia_head_height r = Some head /\ h <= head) /\
                     h <= max_permitted_celestia_height r) hs.
Proof.
  intros Hok. destruct (schedule_ends SCHEDULE_FUEL r Hok) as (hs & r' & Hrun & Hend & _ & _ & Hhs & _ & Hall).
  - unfold SCHEDULE_FUEL. lia.
  - by exists hs, r'.
Qed.

(** *** The invariant of the reader *)
Context (first lowest : Z).
Definition handed_out r (sent : list ReconstructedBlock) : list ReconstructedBlock :=
  (sent ++ option_list (enqueued_block r))%list.
Record reader_ok r (sent : list ReconstructedBlock) (scheduled : list Z) : Prop := {
  reader_cache : cache_ok (block_cache r);
  reader_schedule : schedule_ok r;
  reader_heights : get_height <$> handed_out r sent = seqZ first (Z.of_nat (List.length (handed_out r sent)));
  reader_next : next_height (block_cache r) = first + Z.of_nat (List.length (handed_out r sent));
  reader_scheduled : scheduled = seqZ lowest (Z.of_nat (List.length scheduled));
  reader_celestia_next : celestia_next_height r = lowest + Z.of_nat (List.length scheduled) }.

Lemma seqZ_snoc n (k : nat) : (seqZ n (Z.of_nat k) ++ [n + Z.of_nat k])%list = seqZ n (Z.of_nat (S k)).
Proof. rewrite Nat2Z.inj_succ, <- Z.add_1_r, seqZ_app by lia. done. Qed.

Lemma turn_start_ok r sent scheduled hs r1 : reader_ok r sent scheduled -> turn_start r = Val (Some (hs, r1)) ->
  reader_ok r1 sent (scheduled ++ hs).
Proof.
  intros [Hc Hs Hh Hn Hsch Hcn]. unfold turn_start. destruct (has_reached_stop_height r) as [[]| |]; cbn [mbind run_bind]; [done| |done..].
  destruct (schedule_ends SCHEDULE_FUEL r Hs) as (hs' & r' & Hrun & _ & Hs' & (E1 & _ & E3 & _) & Hhs & Hn' & _).
  { unfold SCHEDULE_FUEL. lia. }
  rewrite Hrun. cbn [mbind run_bind]. intros [= <- <-]. unfold handed_out in *. split; unfold handed_out; rewrite ?E1, ?E3; try done.
  - rewrite length_app, Nat2Z.inj_add, seqZ_app by lia. rewrite <- Hsch, <- Hcn. by f_equal.
  - rewrite length_app. lia.
Qed.

Lemma turn_start_same r hs r1 : turn_start r = Val (Some (hs, r1)) -> schedule_ok r ->
  firm_channel r1 = firm_channel r.
Proof.
  intros Hrun Hs. unfold turn_start in Hrun. destruct (has_reached_stop_height r) as [[]| |]; cbn [mbind run_bind] in Hrun; [done| |done..].
  destruct (schedule_ends SCHEDULE_FUEL r Hs) as (hs' & r' & Hrun' & _ & _ & (_ & Hc & _) & _).
  { unfold SCHEDULE_FUEL. lia. }
  rewrite Hrun' in Hrun. cbn [mbind run_bind] in Hrun. by injection Hrun as <- <-.
Qed.
Lemma insert_all_ok blocks : forall c : BlockCache ReconstructedBlock, cache_ok c ->
  let c' := fold_left (fun c b => match insert_block b c with Ok c => c | Err _ => c end) blocks c in
  cache_ok c' /\ next_height c' = next_height c.
Proof.
  induction blocks as [|b blocks IH]; intros c Hc; [done|]. cbn [fold_left].
  destruct (insert_block b c) as [c1|] eqn:Hi; [|by apply IH].
  destruct (insert_block_ok _ _ _ Hc Hi) as (Hc1 & Hn1 & _). cbn. rewrite <- Hn1. by apply IH.
Qed.

Lemma reader_turn_ok r sent scheduled sent' hs r' :
  reader_ok r sent scheduled -> reader_turn r sent' hs r' -> reader_ok r' (sent ++ sent') (scheduled ++ hs).
Proof.
  intros Hok Hturn. destruct Hturn as [hs r1 b Hstart He Hch|hs r1 b cache s r2 Hstart Hpop Hfwd
    |hs r1 h bs Hstart Hnone Hh|hs r1 h Hv Hstart Hnone].
  all: destruct (turn_start_ok _ _ _ _ _ Hok Hstart) as [Hc [Ht1 Ht2 Ht3] Hhs Hn Hsch Hcn].
  - assert (handed_out r1 sent = (sent ++ [b])%list) as Heq by (unfold handed_out; by rewrite He).
    rewrite Heq in *. split; unfold handed_out; cbn; rewrite ?app_nil_r; try done.
  - unfold cached_block in Hpop. destruct (enqueued_block r1) eqn:He; [done|].
    assert (handed_out r1 sent = sent) as Heq by (unfold handed_out; rewrite He; apply app_nil_r). rewrite Heq in *.
    destruct (pop_ok _ _ _ Hc Hpop) as (Hc' & _ & _ & Hb & Hn').
    assert ((get_height <$> (sent ++ [b])%list) = seqZ first (Z.of_nat (List.length (sent ++ [b])))) as Hnew.
    { rewrite fmap_app, Hhs. cbn. rewrite Hb, Hn, length_app. cbn [List.length]. rewrite Nat.add_1_r. apply seqZ_snoc. }
    assert (next_height cache = first + Z.of_nat (List.length (sent ++ [b]))) as Hnext.
    { rewrite Hn', Hn, length_app. cbn. lia. }
    unfold forward_block_to_executor in Hfwd. case_match; injection Hfwd as <- <-.
    + split; unfold handed_out; cbn; rewrite ?He, ?app_nil_r; try done.
    + split; unfold handed_out; cbn; rewrite ?app_nil_r; try done.
  - destruct (insert_all_ok bs _ Hc) as [Hc' Hn']. rewrite app_nil_r.
    split; unfold handed_out in *; cbn; try done.
    + split; cbn.
      * intros h' [Hin _]%elem_of_difference. by apply Ht1.
      * etrans; [|exact Ht2]. apply inj_le, subseteq_size. set_solver.
      * done.
    + by rewrite Hn'.
  - rewrite app_nil_r. apply height_valid_iff in Hv. split; unfold handed_out in *; cbn; try done.
    split; cbn; [done..|]. intros h' [= <-]. destruct (celestia_head_height r1) as [h1|]; cbn; [|lia].
    specialize (Ht3 h1 eq_refl). lia.
Qed.
Lemma reader_step_ok r sent scheduled sent' hs r' :
  reader_ok r sent scheduled -> reader_step r sent' hs r' -> reader_ok r' (sent ++ sent') (scheduled ++ hs).
Proof.
  intros Hok [sent1 hs1 r1 Hturn|s|b bs Hch]; [by eapply reader_turn_ok|..].
  all: rewrite !app_nil_r; by destruct Hok as [? [] ? ? ? ?].
Qed.
End guarantees.

Section start.
Context `{BlobCodec, TendermintHeight}.
Lemma reader_start_ok next cache lowest ahead s : with_next_height next = Ok cache ->
  reader_ok next lowest (mk_reader cache [] None ∅ None lowest lowest ahead s) [] [].
Proof.
  intros Hc. destruct (with_next_height_ok _ _ Hc) as (Hcok & Hcn & _).
  split; cbn; [done| |done|by rewrite Hcn, Z.add_0_r|done|by rewrite Z.add_0_r].
  split; cbn; [by intros h Hh%not_elem_of_empty|by rewrite size_empty|done].
Qed.
End start.

Section order.
Context `{BlobCodec, TendermintHeight, !HeightLaws}.

(** Whatever the tasks return and whenever the executor receives, the blocks
    that the reader sends it have consecutive sequencer heights from the one
    that the rollup expects on, and the Celestia heights that are read are
    consecutive from the lowest one on: nothing is sent or read twice. *)
Theorem reader_sends_in_order s next r0 sent scheduled r :
  next_expected_firm_sequencer_height s = Val next -> from_parts s = Val (Ok r0) ->
  reader_steps r0 sent scheduled r ->
  get_height <$> sent = seqZ next (Z.of_nat (List.length sent)) /\
  scheduled = seqZ (lowest_celestia_search_height (commitment_state s)) (Z.of_nat (List.length scheduled)).
Proof.
  intros Hnext Hfrom Hsteps. set (lowest := lowest_celestia_search_height (commitment_state s)).
  assert (reader_ok next lowest r0 [] []) as Hok.
  { unfold from_parts in Hfrom. rewrite Hnext in Hfrom. cbn in Hfrom.
    destruct (with_next_height next) as [c|] eqn:Hc; cbn in Hfrom; [|done]. injection Hfrom as <-.
    by apply reader_start_ok. }
  assert (forall sent0 scheduled0, reader_ok next lowest r0 sent0 scheduled0 ->
    reader_ok next lowest r (sent0 ++ sent) (scheduled0 ++ scheduled)) as Hinv.
  { clear Hok Hfrom. induction Hsteps as [r|r s1 hs1 r1 s2 hs2 r2 Hstep _ IH]; intros s0 hs0 Hok.
    - by rewrite !app_nil_r.
    - rewrite !app_assoc. apply IH. by eapply reader_step_ok. }
  destruct (Hinv [] [] Hok) as [_ _ Hh _ Hs _]. split; [|exact Hs]. cbn in Hh.
  apply (f_equal (take (List.length sent))) in Hh. unfold handed_out in Hh. rewrite fmap_app in Hh.
  rewrite take_app_length' in Hh by (by rewrite length_fmap). rewrite Hh, length_app, Nat2Z.inj_add, seqZ_app by lia.
  by rewrite take_app_length' by (by rewrite length_seqZ, Nat2Z.id).
Qed.
End order.
