(* ===== verification/SequencerReader.v ===== *)
(** * The sequencer reader

    [astria-conductor/src/sequencer/]: the stream that fetches sequencer blocks
    ([block_stream.rs]) and the reader that caches them and forwards them to the
    executor ([mod.rs]).  [futures_bounded::FuturesMap] is the set of the keys
    in flight and its capacity. *)
From S2P Require Import Prelude Denom Types State Chain Ics20.
From S2P Require Import Wire WireActions WireLaws WireTransaction Collections.
From S2P Require Import MerkleIndex MerkleTree MerkleAudit Block SequencerBlock.
From S2P Require Import VoteExtension ConductorState BTree BlockCache CelestiaBlobs Executor.
From stdpp Require Import base list option strings gmap sets relations numbers tactics.
From Stdlib Require Import ZArith Lia Ascii String.
Open Scope string_scope.
Open Scope Z_scope.

(** ** [block_stream.rs] *)
Record Heights := mk_heights {
  rollup_expects : Z;
  greatest_requested_height : option Z;
  latest_observed_sequencer_height : option Z;
  stop_height : option Z;
  max_ahead : Z }.

Definition next_height_to_fetch (h : Heights) : option Z :=
  latest_observed ← latest_observed_sequencer_height h;
  let potential_height := match greatest_requested_height h with
                          | None => rollup_expects h
                          | Some greatest => saturating_add 64 greatest 1
                          end in
  let not_too_far_ahead := potential_height <? saturating_add 64 (rollup_expects h) (max_ahead h) in
  let height_exists_on_sequencer := potential_height <=? latest_observed in
  let stop_height_reached := match stop_height h with None => false | Some stop => stop <? potential_height end in
  if not_too_far_ahead && height_exists_on_sequencer && negb stop_height_reached then Some potential_height
  else None.
(** The three setters change their field if the new height is greater. *)
Definition greater_than (old : option Z) (new : Z) : bool :=
  match old with None => true | Some old => old <? new end.
Definition set_greatest_if_greater (height : Z) (h : Heights) : Heights :=
  if greater_than (greatest_requested_height h) height then
    mk_heights (rollup_expects h) (Some height) (latest_observed_sequencer_height h) (stop_height h) (max_ahead h)
  else h.
Definition set_latest_observed_sequencer_height_if_greater (height : Z) (h : Heights) : Heights :=
  if greater_than (latest_observed_sequencer_height h) height then
    mk_heights (rollup_expects h) (greatest_requested_height h) (Some height) (stop_height h) (max_ahead h)
  else h.
Definition set_rollup_expects_if_greater (height : Z) (h : Heights) : Heights :=
  if rollup_expects h <? height then
    mk_heights height (greatest_requested_height h) (latest_observed_sequencer_height h) (stop_height h) (max_ahead h)
  else h.

Record BlocksFromHeightStream := mk_stream { heights : Heights; in_progress : gset Z }.
Definition IN_FLIGHT : Z := 20.
Definition stream_new (first_height : Z) (last_height : option Z) : BlocksFromHeightStream :=
  mk_stream (mk_heights first_height None None last_height 128) ∅.
(** The loop of [poll_next] that spawns fetches, with the heights it requests *)
Fixpoint spawn_fetches (fuel : nat) (s : BlocksFromHeightStream) : run (list Z * BlocksFromHeightStream) :=
  match fuel with
  | O => NoFuel
  | S fuel =>
      match next_height_to_fetch (heights s) with
      | None => Val ([], s)
      | Some next_height =>
          if IN_FLIGHT <=? Z.of_nat (size (in_progress s)) then Val ([], s)
          else
            '(requested, s) ← spawn_fetches fuel
              (mk_stream (set_greatest_if_greater next_height (heights s)) ({[next_height]} ∪ in_progress s));
            Val (next_height :: requested, s)
      end
  end.
Definition SPAWN_FUEL : nat := 21.

(** How a fetch in flight ended: with the block or an error of the client, or
    because it took too long; [poll_next] is given the fetch that ended, if any. *)
Inductive FetchEnd {B : Type} := Fetched (result : result string B) | TimedOut.
#[global] Arguments FetchEnd : clear implicits.
Inductive Poll (A : Type) := Ready (a : A) | Pending.
#[global] Arguments Ready {_} _.
#[global] Arguments Pending {_}.
Definition poll_next {B} (ended : option (Z * FetchEnd B)) (s : BlocksFromHeightStream)
    : run (Poll (option (result string B)) * BlocksFromHeightStream) :=
  '(_, s) ← spawn_fetches SPAWN_FUEL s;
  Val match ended with
      | None => (if bool_decide (in_progress s = ∅) then Ready None else Pending, s)
      | Some (height, Fetched r) => (Ready (Some r), mk_stream (heights s) (in_progress s ∖ {[height]}))
      | Some (_, TimedOut) => (if next_height_to_fetch (heights s) then Pending else Ready None, s)
      end.

(** ** [mod.rs] *)
Section reader.
Context `{BlobCodec, VoteCodec, TendermintHeight}.

Record SoftReader := mk_soft_reader {
  soft_state : RollupState;
  soft_channel : list FilteredSequencerBlock;
  soft_cache : BlockCache FilteredSequencerBlock;
  blocks_from_heights : BlocksFromHeightStream;
  soft_enqueued : option FilteredSequencerBlock }.

(** [RunningReader::try_from_parts] *)
Definition try_from_parts (s : RollupState) : run (result CacheError SoftReader) :=
  next_expected_height ← next_expected_soft_sequencer_height s;
  sequencer_stop_height ← sequencer_stop_height s;
  Val (cache ← with_next_height next_expected_height;
       Ok (mk_soft_reader s [] cache (stream_new next_expected_height sequencer_stop_height) None)).

Definition update_next_expected_height (next_height : Z) (r : SoftReader) : SoftReader :=
  mk_soft_reader (soft_state r) (soft_channel r) (drop_obsolete next_height (soft_cache r))
    (mk_stream (set_rollup_expects_if_greater next_height (heights (blocks_from_heights r)))
       (in_progress (blocks_from_heights r)))
    (soft_enqueued r).
Definition set_latest_observed_height_if_greater (height : Z) (r : SoftReader) : SoftReader :=
  mk_soft_reader (soft_state r) (soft_channel r) (soft_cache r)
    (mk_stream (set_latest_observed_sequencer_height_if_greater height (heights (blocks_from_heights r)))
       (in_progress (blocks_from_heights r)))
    (soft_enqueued r).
Definition soft_has_reached_stop_height (r : SoftReader) : run bool :=
  stop ← sequencer_stop_height (soft_state r);
  Val match stop with
      | None => false
      | Some height => (height <? next_height (soft_cache r)) && bool_decide (soft_enqueued r = None)
      end.
(** [send_to_executor] on a channel of [capacity] that is not closed *)
Definition send_to_executor (capacity : nat) (block : FilteredSequencerBlock) (r : SoftReader) : SoftReader :=
  if (List.length (soft_channel r) <? capacity)%nat then
    mk_soft_reader (soft_state r) (soft_channel r ++ [block])%list (soft_cache r) (blocks_from_heights r)
      (soft_enqueued r)
  else mk_soft_reader (soft_state r) (soft_channel r) (soft_cache r) (blocks_from_heights r) (Some block).
Definition set_cache (cache : BlockCache FilteredSequencerBlock) (r : SoftReader) : SoftReader :=
  mk_soft_reader (soft_state r) (soft_channel r) cache (blocks_from_heights r) (soft_enqueued r).
Definition set_stream (stream : BlocksFromHeightStream) (r : SoftReader) : SoftReader :=
  mk_soft_reader (soft_state r) (soft_channel r) (soft_cache r) stream (soft_enqueued r).
(** What the executor does: it receives blocks and updates the watched state. *)
Definition set_executor (channel : list FilteredSequencerBlock) (s : RollupState) (r : SoftReader) : SoftReader :=
  mk_soft_reader s channel (soft_cache r) (blocks_from_heights r) (soft_enqueued r).
(** A block that the cache refuses is dropped. *)
Definition cache_fetched (block : FilteredSequencerBlock) (r : SoftReader) : SoftReader :=
  match insert_block block (soft_cache r) with Ok cache => set_cache cache r | Err _ => r end.

(** A turn of [run_loop] that does not return: the branches of the [select!]
    from the enqueued block to the latest height, which also polls the stream. *)
Inductive soft_step (capacity : nat) (r : SoftReader) : SoftReader -> Prop :=
| soft_enqueued_sent block : soft_has_reached_stop_height r = Val false ->
    soft_enqueued r = Some block -> (List.length (soft_channel r) < capacity)%nat ->
    soft_step capacity r
      (mk_soft_reader (soft_state r) (soft_channel r ++ [block])%list (soft_cache r) (blocks_from_heights r) None)
| soft_state_changed next_height : soft_has_reached_stop_height r = Val false ->
    next_expected_soft_sequencer_height (soft_state r) = Val next_height ->
    soft_step capacity r (update_next_expected_height next_height r)
| soft_forwards block cache : soft_has_reached_stop_height r = Val false ->
    soft_enqueued r = None -> pop (soft_cache r) = Val (Some block, cache) ->
    soft_step capacity r (send_to_executor capacity block (set_cache cache r))
| soft_fetched height block stream : soft_has_reached_stop_height r = Val false ->
    poll_next (Some (height, Fetched (Ok block))) (blocks_from_heights r) = Val (Ready (Some (Ok block)), stream) ->
    soft_step capacity r (cache_fetched block (set_stream stream r))
| soft_sees_height (ended : option (Z * FetchEnd FilteredSequencerBlock)) height polled stream :
    soft_has_reached_stop_height r = Val false ->
    poll_next ended (blocks_from_heights r) = Val (polled, stream) ->
    (forall fetched, polled <> Ready (Some fetched)) ->
    soft_step capacity r (set_latest_observed_height_if_greater height (set_stream stream r)).
End reader.

(** ** The stream requests every height once *)
Section stream.

Record stream_ok (s : BlocksFromHeightStream) : Prop := {
  flight_requested : forall h, h ∈ in_progress s ->
    exists greatest, greatest_requested_height (heights s) = Some greatest /\ h <= greatest;
  flight_few : Z.of_nat (size (in_progress s)) <= IN_FLIGHT;
  observed_valid : forall h, latest_observed_sequencer_height (heights s) = Some h -> h < 2 ^ 63 }.
Definition next_request (h : Heights) : Z :=
  match greatest_requested_height h with None => rollup_expects h | Some greatest => greatest + 1 end.

Lemma next_height_spec h next : next_height_to_fetch h = Some next ->
  (forall latest, latest_observed_sequencer_height h = Some latest -> latest < 2 ^ 63) ->
  next = next_request h /\ next < rollup_expects h + max_ahead h /\
  (exists latest, latest_observed_sequencer_height h = Some latest /\ next <= latest) /\
  (forall stop, stop_height h = Some stop -> next <= stop).
Proof.
  unfold next_height_to_fetch, next_request. intros Hnext Hlatest.
  destruct (latest_observed_sequencer_height h) as [latest|]; cbn in Hnext; [|done].
  specialize (Hlatest latest eq_refl).
  set (potential := match greatest_requested_height h with None => _ | Some greatest => _ end) in *.
  destruct (potential <? _) eqn:H1; cbn in Hnext; [|done].
  destruct (potential <=? latest) eqn:H2; cbn in Hnext; [|done].
  destruct (match stop_height h with None => false | Some stop => stop <? potential end) eqn:H3; cbn in Hnext; [done|].
  injection Hnext as <-. apply Z.ltb_lt in H1. apply Z.leb_le in H2.
  assert (potential = match greatest_requested_height h with None => rollup_expects h | Some g => g + 1 end) as Hp.
  { unfold potential, saturating_add, umax in *. destruct (greatest_requested_height h); [lia|done]. }
  split_and!; [done| |by exists latest|].
  - unfold saturating_add in H1. lia.
  - intros stop Hstop. rewrite Hstop in H3. by apply Z.ltb_ge in H3.
Qed.

Lemma spawn_ends fuel : forall s, stream_ok s ->
  IN_FLIGHT + 1 <= Z.of_nat (size (in_progress s)) + Z.of_nat fuel ->
  exists requested s', spawn_fetches fuel s = Val (requested, s') /\ stream_ok s' /\
    requested = seqZ (next_request (heights s)) (Z.of_nat (List.length requested)) /\
    next_request (heights s') = next_request (heights s) + Z.of_nat (List.length requested) /\
    (next_height_to_fetch (heights s') = None \/ Z.of_nat (size (in_progress s')) = IN_FLIGHT) /\
    Forall (fun h => h < rollup_expects (heights s) + max_ahead (heights s) /\
      (exists latest, latest_observed_sequencer_height (heights s) = Some latest /\ h <= latest) /\
      (forall stop, stop_height (heights s) = Some stop -> h <= stop)) requested.
Proof.
  induction fuel as [|fuel IH]; intros s Hok Hfuel; [pose proof (flight_few _ Hok); lia|].
  cbn [spawn_fetches]. destruct (next_height_to_fetch (heights s)) as [next|] eqn:Hnext.
  2:{ exists [], s. cbn. rewrite Z.add_0_r. split_and!; auto. }
  destruct (Z.leb_spec IN_FLIGHT (Z.of_nat (size (in_progress s)))) as [Hfull|Hroom].
  { exists [], s. cbn. rewrite Z.add_0_r. pose proof (flight_few _ Hok). split_and!; auto. right. lia. }
  destruct (next_height_spec _ _ Hnext (observed_valid _ Hok)) as (-> & Hahead & (latest & Hlatest & Hle) & Hstop).
  set (next := next_request (heights s)) in *.
  pose proof (observed_valid _ Hok latest Hlatest) as Hlv.
  set (s1 := mk_stream _ _).
  assert (heights s1 = mk_heights (rollup_expects (heights s)) (Some next)
    (latest_observed_sequencer_height (heights s)) (stop_height (heights s)) (max_ahead (heights s))) as Hs1.
  { cbn. unfold set_greatest_if_greater, greater_than, next, next_request.
    destruct (greatest_requested_height (heights s)) as [g|]; [|done]. by rewrite (proj2 (Z.ltb_lt _ _)) by lia. }
  assert (next ∉ in_progress s) as Hfresh.
  { intros Hin. destruct (flight_requested _ Hok _ Hin) as (g & Hg & Hle'). unfold next, next_request in Hle'.
    rewrite Hg in Hle'. lia. }
  assert (size (in_progress s1) = S (size (in_progress s))) as Hsize.
  { cbn. rewrite size_union by set_solver. by rewrite size_singleton. }
  destruct (IH s1) as (requested & s' & Hrun & Hok' & Hreq & Hn & Hend & Hall).
  - split; [|rewrite Hsize; lia|].
    + intros h. rewrite Hs1. cbn. intros Hin. exists next. split; [done|].
      apply elem_of_union in Hin as [->%elem_of_singleton|Hin]; [done|].
      destruct (flight_requested _ Hok _ Hin) as (g & Hg & Hle'). unfold next, next_request. rewrite Hg. lia.
    + rewrite Hs1. cbn. apply (observed_valid _ Hok).
  - rewrite Hsize. lia.
  - assert (next_request (heights s1) = next + 1) as Hn1 by (by rewrite Hs1).
    rewrite Hn1 in Hreq, Hn. rewrite Hs1 in Hall. cbn in Hall.
    exists (next :: requested), s'. rewrite Hrun. cbn [mbind run_bind]. split_and!; [done|exact Hok'| | |exact Hend|].
    + cbn [List.length]. rewrite seqZ_cons by lia. f_equal. rewrite Hreq at 1. f_equal; lia.
    + rewrite Hn. cbn [List.length]. lia.
    + constructor; [|exact Hall]. split_and!; [done|by exists latest|done].
Qed.

(** The loop that spawns fetches ends, when nothing is left to fetch or twenty
    fetches are in flight; the heights it requests follow those requested
    before, exist, are not beyond the stop height, and less than [max_ahead]
    above what the rollup expects. *)
Theorem fetching_terminates s : stream_ok s ->
  exists requested s', spawn_fetches SPAWN_FUEL s = Val (requested, s') /\ stream_ok s' /\
    requested = seqZ (next_request (heights s)) (Z.of_nat (List.length requested)) /\
    (next_height_to_fetch (heights s') = None \/ Z.of_nat (size (in_progress s')) = IN_FLIGHT) /\
    Forall (fun h => h < rollup_expects (heights s) + max_ahead (heights s) /\
      (exists latest, latest_observed_sequencer_height (heights s) = Some latest /\ h <= latest) /\
      (forall stop, stop_height (heights s) = Some stop -> h <= stop)) requested.
Proof.
  intros Hok. destruct (spawn_ends SPAWN_FUEL s Hok) as (requested & s' & Hrun & Hok' & Hreq & _ & Hend & Hall).
  - unfold SPAWN_FUEL, IN_FLIGHT. lia.
  - by exists requested, s'.
Qed.

(** Heights that the rollup is past are fetched all the same: what was
    requested last decides, not what the rollup expects. *)
Theorem obsolete_heights_are_fetched h greatest latest new :
  greatest_requested_height h = Some greatest -> latest_observed_sequencer_height h = Some latest ->
  greatest + 1 <= latest -> latest < 2 ^ 63 -> 0 <= max_ahead h -> rollup_expects h < new ->
  greatest + 1 < new -> stop_height h = None -> new < 2 ^ 63 ->
  next_height_to_fetch (set_rollup_expects_if_greater new h) = Some (greatest + 1).
Proof.
  intros Hg Hl Hle Hlv Hm Hnew Hold Hstop Hnv. unfold set_rollup_expects_if_greater.
  rewrite (proj2 (Z.ltb_lt _ _)) by done. unfold next_height_to_fetch. cbn. rewrite Hl, Hg, Hstop. cbn.
  unfold saturating_add, umax. rewrite Z.min_l by lia.
  rewrite (proj2 (Z.ltb_lt _ _)) by lia. by rewrite (proj2 (Z.leb_le _ _)) by done.
Qed.
End stream.
