(* ===== verification/ConductorSystem.v ===== *)
(** * The conductor: the executor and its readers together

    The readers of [astria-conductor/src/celestia/] and [sequencer/] and the
    executor of [executor/mod.rs] with the two channels and the watched state
    between them: whatever the interleaving, the blocks in the channels are the
    ones that the executor accepts. *)
From S2P Require Import Prelude Denom Types State Chain Ics20.
From S2P Require Import Wire WireActions WireLaws WireTransaction Collections.
From S2P Require Import MerkleIndex MerkleTree MerkleAudit Block SequencerBlock.
From S2P Require Import VoteExtension.
From S2P Require Import ConductorState BTree BlockCache CelestiaBlobs Executor ExecutorLemmas.
From S2P Require Import ExecutorTheorems CelestiaReader SequencerReader.
From stdpp Require Import base list option strings gmap relations numbers tactics.
From Stdlib Require Import ZArith Lia Ascii String.
Open Scope string_scope.
Open Scope Z_scope.

(** ** The system *)
Section system.
Context `{BlobCodec, VoteCodec, TendermintHeight, RollupCodec, Rollup}.

(** A reader is there while its task runs. *)
Record Conductor := mk_conductor {
  executor : Executor; firm_reader : option Reader; soft_reader : option SoftReader }.
Definition soft_capacity (level : CommitLevel) (p : ExecutionSessionParameters) : nat :=
  match level with
  | FirmOnly => Nat.max 1 (Z.to_nat (celestia_search_height_max_look_ahead p))
  | SoftAndFirm => Z.to_nat (celestia_search_height_max_look_ahead p)
  | SoftOnly => 1024
  end.
(** What the readers see of a turn of the executor: the blocks that are left in
    their channels and the new state *)
Definition sees_executor (e : Executor) (c : Conductor) : Conductor :=
  mk_conductor e
    ((fun r => upd_watched (fun _ => rollup_state e) (upd_channel (fun _ => firm_blocks e) r)) <$> firm_reader c)
    ((fun r => set_executor (soft_blocks e) (rollup_state e) r) <$> soft_reader c).

Inductive conductor_step : Conductor -> Conductor -> Prop :=
| executor_turn c e' : event_loop_turn (executor c) = (Val (Ok Handled), e') ->
    conductor_step c (sees_executor e' c)
| firm_reader_turn e r soft sent hs r' : closed ReaderKind_Firm e = false -> reader_turn r sent hs r' ->
    conductor_step (mk_conductor e (Some r) soft)
      (mk_conductor (upd_firm_blocks (fun _ => firm_channel r') e) (Some r') soft)
| soft_reader_turn e firm r r' : closed ReaderKind_Soft e = false ->
    soft_step (soft_capacity (execution_commit_level e) (execution_session_parameters (rollup_state e))) r r' ->
    conductor_step (mk_conductor e firm (Some r))
      (mk_conductor (upd_soft_blocks (fun _ => soft_channel r') e) firm (Some r'))
| reader_ends c before kind res after : reader_tasks (executor c) = (before ++ (kind, None) :: after)%list ->
    conductor_step c
      (mk_conductor (upd_reader_tasks (fun _ => before ++ (kind, Some res) :: after)%list (executor c))
         (match kind with ReaderKind_Firm => None | ReaderKind_Soft => firm_reader c end)
         (match kind with ReaderKind_Soft => None | ReaderKind_Firm => soft_reader c end)).

(** The readers that the commit level asks for, each made from the state *)
Definition readers_start (level : CommitLevel) (s : RollupState) (firm : option Reader) (soft : option SoftReader) : Prop :=
  match firm with
  | Some r => is_with_firm level = true /\ from_parts s = Val (Ok r)
  | None => is_with_firm level = false
  end /\
  match soft with
  | Some r => is_with_soft level = true /\ try_from_parts s = Val (Ok r)
  | None => is_with_soft level = false
  end.
End system.

(** ** Heights within reach

    The height that is expected once the blocks of a queue were taken, and that
    none of them is ahead of it when its turn comes *)
Fixpoint reach (expected : Z) (heights : list Z) : Z :=
  match heights with [] => expected | h :: heights => reach (Z.max expected (h + 1)) heights end.
Fixpoint within_reach (expected : Z) (heights : list Z) : Prop :=
  match heights with [] => True | h :: heights => h <= expected /\ within_reach (Z.max expected (h + 1)) heights end.

Lemma reach_app n l1 : forall l2, reach n (l1 ++ l2) = reach (reach n l1) l2.
Proof. revert n. induction l1 as [|h l1 IH]; intros n l2; cbn; [done|apply IH]. Qed.
Lemma within_reach_app l1 : forall n l2,
  within_reach n (l1 ++ l2) <-> within_reach n l1 /\ within_reach (reach n l1) l2.
Proof. induction l1 as [|h l1 IH]; intros n l2; cbn; [tauto|]. rewrite IH. tauto. Qed.
Lemma reach_mono l : forall n n', n <= n' -> reach n l <= reach n' l.
Proof. induction l as [|h l IH]; intros n n' Hn; cbn; [done|]. apply IH. lia. Qed.
Lemma reach_ge l : forall n, n <= reach n l.
Proof. induction l as [|h l IH]; intros n; cbn; [lia|]. pose proof (IH (Z.max n (h + 1))). lia. Qed.
Lemma within_reach_mono l : forall n n', n <= n' -> within_reach n l -> within_reach n' l.
Proof.
  induction l as [|h l IH]; intros n n' Hn; cbn; [done|]. intros [Hh Hl]. split; [lia|].
  apply (IH (Z.max n (h + 1))); [lia|done].
Qed.
Lemma within_reach_snoc n l h : within_reach n l -> h <= reach n l -> within_reach n (l ++ [h]).
Proof. intros Hl Hh. apply within_reach_app. split; [done|]. by split. Qed.
Lemma reach_snoc n l h : reach n (l ++ [h]) = Z.max (reach n l) (h + 1).
Proof. by rewrite reach_app. Qed.

(** ** The readers' sides *)
Section readers.
Context `{BlobCodec, VoteCodec, TendermintHeight, !HeightLaws}.

(** *** The soft blocks stay within reach of the executor *)
Definition soft_queue (r : SoftReader) : list Z :=
  get_height <$> (soft_channel r ++ option_list (soft_enqueued r))%list.
Record soft_ok (expected : Z) (r : SoftReader) : Prop := {
  soft_cache_ok : cache_ok (soft_cache r);
  soft_within : within_reach expected (soft_queue r);
  soft_next : next_height (soft_cache r) <= reach expected (soft_queue r) }.

Lemma soft_ok_mono n n' r : n <= n' -> soft_ok n r -> soft_ok n' r.
Proof.
  intros Hn [Hc Hw Hr]. split; [done|by eapply within_reach_mono|]. pose proof (reach_mono (soft_queue r) _ _ Hn). lia.
Qed.
(** The executor takes the first block. *)
Lemma soft_ok_take n r b q s : soft_ok n r -> soft_channel r = b :: q ->
  get_height b <= n /\ soft_ok (Z.max n (get_height b + 1)) (set_executor q s r).
Proof.
  intros [Hc Hw Hr] Hq. unfold soft_queue in *. rewrite Hq in Hw, Hr. cbn in Hw, Hr.
  destruct Hw as [Hb Hw]. split; [done|]. by split.
Qed.
Lemma soft_ok_sends n r b cache : soft_ok n r -> soft_enqueued r = None -> pop (soft_cache r) = Val (Some b, cache) ->
  forall capacity, soft_ok n (send_to_executor capacity b (set_cache cache r)).
Proof.
  intros [Hc Hw Hr] He Hp capacity. destruct (pop_ok _ _ _ Hc Hp) as (Hc' & _ & _ & Hb & Hn).
  unfold soft_queue in Hw, Hr. rewrite He in Hw, Hr. cbn in Hw, Hr. rewrite app_nil_r in Hw, Hr.
  assert (forall r', soft_cache r' = cache -> soft_queue r' = ((get_height <$> soft_channel r) ++ [get_height b])%list ->
    soft_ok n r') as Hnew.
  { intros r' Hcache Hq. split; rewrite ?Hcache, ?Hq; [done| |].
    - apply within_reach_snoc; [done|by rewrite Hb].
    - rewrite reach_snoc, Hn, Hb. lia. }
  unfold send_to_executor. case_match; apply Hnew; try done; unfold soft_queue; cbn.
  - by rewrite He, app_nil_r, fmap_app.
  - by rewrite fmap_app.
Qed.
Lemma soft_ok_same n r r' : soft_ok n r -> cache_ok (soft_cache r') -> soft_queue r' = soft_queue r ->
  next_height (soft_cache r') <= Z.max (next_height (soft_cache r)) n -> soft_ok n r'.
Proof.
  intros [Hc Hw Hr] Hc' Hq Hn. split; rewrite ?Hq; [done..|]. pose proof (reach_ge (soft_queue r) n). lia.
Qed.
Lemma soft_step_ok n capacity r r' : soft_ok n r ->
  (forall h, next_expected_soft_sequencer_height (soft_state r) = Val h -> h <= n) ->
  soft_step capacity r r' -> soft_ok n r' /\ soft_state r' = soft_state r.
Proof.
  intros Hok Hexp Hstep. destruct Hstep as [b _ He _|h _ Hh|b c _ He Hp|h b s _ _|ended h polled s _ _ _].
  - split; [|done]. apply (soft_ok_same n r); [done|apply Hok| |cbn; lia].
    unfold soft_queue. cbn. by rewrite He, app_nil_r.
  - split; [|done]. destruct (drop_obsolete_ok h _ (soft_cache_ok _ _ Hok)) as (Hc & Hn & _).
    apply (soft_ok_same n r); [done|exact Hc|done|]. cbn [soft_cache update_next_expected_height].
    rewrite Hn. specialize (Hexp h Hh). lia.
  - split; [by apply soft_ok_sends|]. unfold send_to_executor. by case_match.
  - unfold cache_fetched. cbn [soft_cache set_stream]. destruct (insert_block b (soft_cache r)) as [c|] eqn:Hi.
    + destruct (insert_block_ok _ _ _ (soft_cache_ok _ _ Hok) Hi) as (Hc & Hn & _).
      split; [|done]. apply (soft_ok_same n r); [done|exact Hc|done|]. cbn. rewrite Hn. lia.
    + split; [|done]. apply (soft_ok_same n r); [done|apply Hok|done|cbn; lia].
  - split; [|done]. apply (soft_ok_same n r); [done|apply Hok|done|cbn; lia].
Qed.

(** *** The firm blocks are the ones expected *)
Definition firm_ok (expected : Z) (r : Reader) : Prop :=
  exists lowest scheduled, reader_ok expected lowest r (firm_channel r) scheduled.
Lemma firm_ok_turn n r sent hs r' : firm_ok n r -> reader_turn r sent hs r' -> firm_ok n r'.
Proof.
  intros (lowest & scheduled & Hok) Hturn. exists lowest, (scheduled ++ hs)%list.
  assert (firm_channel r' = (firm_channel r ++ sent)%list) as ->; [|by eapply reader_turn_ok].
  destruct Hturn as [hs r1 b Hs He Hc|hs r1 b cache s r2 Hs Hp Hf|hs r1 h bs Hs Hn Hh|hs r1 h Hv Hs Hn].
  all: pose proof (turn_start_same _ _ _ Hs (reader_schedule _ _ _ _ _ Hok)) as Hch.
  - cbn. by rewrite Hch.
  - unfold forward_block_to_executor in Hf. case_match; injection Hf as <- <-; cbn; by rewrite Hch, ?app_nil_r.
  - cbn. by rewrite Hch, app_nil_r.
  - cbn. by rewrite Hch, app_nil_r.
Qed.
Lemma firm_ok_take n r b q s : firm_ok n r -> firm_channel r = b :: q ->
  get_height b = n /\ firm_ok (n + 1) (upd_watched (fun _ => s) (upd_channel (fun _ => q) r)).
Proof.
  intros (lowest & scheduled & [Hc Hs Hh Hn Hsch Hcn]) Hq. unfold handed_out in *. rewrite Hq in Hh, Hn.
  cbn [app fmap list_fmap List.length] in Hh, Hn. rewrite seqZ_cons in Hh by lia. injection Hh as Hb Hh.
  split; [done|]. exists lowest, scheduled. split; unfold handed_out; cbn; try done.
  - by destruct Hs.
  - rewrite Hh. f_equal; lia.
  - lia.
Qed.
Lemma firm_ok_watches n r s : firm_ok n r -> firm_ok n (upd_watched (fun _ => s) r).
Proof. intros (lowest & scheduled & Hok). exists lowest, scheduled. by destruct Hok as [? [] ? ? ? ?]. Qed.
End readers.

(** ** The invariant of the system *)
Section feeding.
Context `{BlobCodec, VoteCodec, TendermintHeight, !HeightLaws, RollupCodec}.
Variable R : Rollup.
#[local] Hint Extern 0 Rollup => exact (recorded R) : typeclass_instances.
Context (Hcommits : commits_what_is_asked R).
Context (p : ExecutionSessionParameters) (session : string) (first : ExecutedBlockMetadata).
Context (level : CommitLevel) (Hsession : session_ok p first).
Implicit Types c : Conductor.

Definition expects (number : Z) : Z := sequencer_start_block_height p + number - rollup_start_block_number p + 1.
(** The queues, whether or not their readers still run *)
Definition firm_queue_ok (n : Z) (q : list ReconstructedBlock) : Prop :=
  get_height <$> q = seqZ n (Z.of_nat (List.length q)).
Definition soft_queue_ok (n : Z) (q : list FilteredSequencerBlock) : Prop := within_reach n (get_height <$> q).
Record fed c : Prop := {
  fed_represents : exists chain, represents R p session first level (executor c) chain;
  fed_firm : forall r, firm_reader c = Some r ->
    firm_channel r = firm_blocks (executor c) /\ firm_ok (expects (firm_number (rollup_state (executor c)))) r;
  fed_soft : forall r, soft_reader c = Some r ->
    soft_channel r = soft_blocks (executor c) /\ soft_state r = rollup_state (executor c) /\
    soft_ok (expects (soft_number (rollup_state (executor c)))) r;
  fed_firm_left : firm_reader c = None ->
    firm_queue_ok (expects (firm_number (rollup_state (executor c)))) (firm_blocks (executor c));
  fed_soft_left : soft_reader c = None ->
    soft_queue_ok (expects (soft_number (rollup_state (executor c)))) (soft_blocks (executor c)) }.

Lemma firm_ok_queue n r : firm_ok n r -> firm_queue_ok n (firm_channel r).
Proof.
  intros (lowest & scheduled & [_ _ Hh _ _ _]). unfold firm_queue_ok, handed_out in *.
  apply (f_equal (take (List.length (firm_channel r)))) in Hh. rewrite fmap_app in Hh.
  rewrite take_app_length' in Hh by (by rewrite length_fmap). rewrite Hh, length_app, Nat2Z.inj_add, seqZ_app by lia.
  by rewrite take_app_length' by (by rewrite length_seqZ, Nat2Z.id).
Qed.
Lemma soft_ok_queue n r : soft_ok n r -> soft_queue_ok n (soft_channel r).
Proof. intros [_ Hw _]. unfold soft_queue in Hw. rewrite fmap_app in Hw. by apply within_reach_app in Hw as [Hw _]. Qed.
Lemma fed_queues c : fed c ->
  firm_queue_ok (expects (firm_number (rollup_state (executor c)))) (firm_blocks (executor c)) /\
  soft_queue_ok (expects (soft_number (rollup_state (executor c)))) (soft_blocks (executor c)).
Proof.
  intros [_ Hfirm Hsoft Hfl Hsl]. split.
  - destruct (firm_reader c) as [r|] eqn:Hr; [|by apply Hfl].
    destruct (Hfirm r eq_refl) as [<- Hok]. by apply firm_ok_queue.
  - destruct (soft_reader c) as [r|] eqn:Hr; [|by apply Hsl].
    destruct (Hsoft r eq_refl) as (<- & _ & Hok). by apply soft_ok_queue.
Qed.
Lemma firm_queue_take n b q : firm_queue_ok n (b :: q) -> get_height b = n /\ firm_queue_ok (n + 1) q.
Proof.
  unfold firm_queue_ok. cbn [fmap list_fmap List.length]. rewrite seqZ_cons by lia. intros [= Hb Hq].
  split; [done|]. rewrite Hq. f_equal; lia.
Qed.

(** A turn of the executor seen from the readers: whether it took a block *)
Inductive turn_effect e e' : Prop :=
| took_firm b q : firm_blocks e = b :: q -> firm_blocks e' = q -> soft_blocks e' = soft_blocks e ->
    firm_number (rollup_state e') = firm_number (rollup_state e) + 1 ->
    soft_number (rollup_state e) <= soft_number (rollup_state e') -> turn_effect e e'
| took_soft b q : soft_blocks e = b :: q -> soft_blocks e' = q -> firm_blocks e' = firm_blocks e ->
    firm_number (rollup_state e') = firm_number (rollup_state e) ->
    expects (soft_number (rollup_state e')) =
      Z.max (expects (soft_number (rollup_state e))) (get_height b + 1) -> turn_effect e e'
| took_nothing : firm_blocks e' = firm_blocks e -> soft_blocks e' = soft_blocks e ->
    rollup_state e' = rollup_state e -> turn_effect e e'.
Lemma turn_effect_of e e' ch : represents R p session first level e ch ->
  event_loop_turn e = (Val (Ok Handled), e') -> turn_effect e e'.
Proof.
  intros Hrep Hturn. pose proof (rep_soft_only _ _ _ _ _ _ _ Hrep) as Hso.
  pose proof (rep_firm_only _ _ _ _ _ _ _ Hrep) as Hfo.
  destruct (turn_handled _ _ _ Hturn) as [b bs u Hq Hrun|b bs u Hq Hspread Hrun|task res others u Hj Hrun].
  - assert (level <> SoftOnly) as Hlevel by (intros Hl; specialize (Hso Hl); by rewrite Hq in Hso).
    assert (represents R p session first level (upd_firm_blocks (fun _ => bs) e) ch) as Hrep'.
    { eapply represents_same; [exact Hrep|done..|apply Hrep| |]; cbn; intros Hl; [by apply Hfo|done]. }
    destruct (firm_advances R Hcommits p session first level Hsession _ _ Hrep' _ _ _ Hlevel Hrun)
      as (Hf & Hs & _ & Hfb & Hsb).
    by eapply took_firm.
  - assert (represents R p session first level (upd_soft_blocks (fun _ => bs) e) ch) as Hrep'.
    { eapply represents_same; [exact Hrep|done..|apply Hrep| |]; cbn; intros Hl; [|by apply Hso].
      destruct (Hfo Hl) as [_ Hn]. by rewrite Hq in Hn. }
    destruct (soft_advances R Hcommits p session first level Hsession _ _ Hrep' _ _ _ Hrun)
      as (Hf & Hs & _ & Hfb & Hsb).
    by eapply took_soft.
  - destruct (handle_task_exit_Ok _ _ _ _ _ _ Hrun) as [->| ->]; by apply took_nothing.
Qed.

Lemma fed_turn c e' : fed c -> event_loop_turn (executor c) = (Val (Ok Handled), e') -> fed (sees_executor e' c).
Proof.
  intros Hfed Hturn. destruct (fed_represents _ Hfed) as [ch Hrep].
  destruct (step_represents R Hcommits p session first level _ _ _ Hsession Hrep (step_turn _ _ Hturn)) as (ch' & _ & Hrep').
  destruct (fed_queues _ Hfed) as [Hfq Hsq]. pose proof (turn_effect_of _ _ _ Hrep Hturn) as Heffect.
  destruct Hfed as [_ Hfirm Hsoft Hfl Hsl]. split; cbn [executor firm_reader soft_reader sees_executor].
  - by exists ch'.
  - intros r' (r & Hr & ->)%fmap_Some. destruct (Hfirm r Hr) as [Hch Hok]. split; [done|].
    destruct Heffect as [b q Hq -> _ -> _|b q _ _ -> -> _| -> _ ->].
    + rewrite <- Hch in Hq. destruct (firm_ok_take _ _ _ _ (rollup_state e') Hok Hq) as [_ Hok'].
      unfold expects in *. by replace (_ + (_ + 1) - _ + 1) with (sequencer_start_block_height p +
        firm_number (rollup_state (executor c)) - rollup_start_block_number p + 1 + 1) by lia.
    + rewrite <- Hch. by destruct Hok as (lowest & scheduled & [? [] ? ? ? ?]); exists lowest, scheduled.
    + rewrite <- Hch. by destruct Hok as (lowest & scheduled & [? [] ? ? ? ?]); exists lowest, scheduled.
  - intros r' (r & Hr & ->)%fmap_Some. destruct (Hsoft r Hr) as (Hch & Hst & Hok). split; [done|]. split; [done|].
    destruct Heffect as [b q _ _ -> _ Hn|b q Hq -> _ _ ->|_ -> ->].
    + rewrite <- Hch. apply (soft_ok_mono (expects (soft_number (rollup_state (executor c))))); [unfold expects; lia|].
      by destruct Hok.
    + rewrite <- Hch in Hq. by apply (soft_ok_take _ _ _ _ _ Hok Hq).
    + rewrite <- Hch. by destruct Hok.
  - intros _. destruct Heffect as [b q Hq -> _ -> _|b q _ _ -> -> _| -> _ ->]; [|done..].
    rewrite Hq in Hfq. destruct (firm_queue_take _ _ _ Hfq) as [_ Hq'].
    unfold expects in *. by replace (_ + (_ + 1) - _ + 1) with (sequencer_start_block_height p +
      firm_number (rollup_state (executor c)) - rollup_start_block_number p + 1 + 1) by lia.
  - intros _. destruct Heffect as [b q _ _ -> _ Hn|b q Hq -> _ _ ->|_ -> ->]; [| |done].
    + eapply within_reach_mono; [|exact Hsq]. unfold expects. lia.
    + rewrite Hq in Hsq. apply Hsq.
Qed.

Lemma fed_step c c' : fed c -> conductor_step c c' -> fed c'.
Proof.
  intros Hfed Hstep. destruct Hstep as [c e' Hturn|e r soft sent hs r' Hc Hturn|e firm r r' Hc Hstep
    |c before kind res after Ht].
  - by apply fed_turn.
  - destruct (fed_represents _ Hfed) as [ch Hrep]. cbn in Hrep.
    destruct (fed_firm _ Hfed r eq_refl) as [Hch Hok]. cbn in Hch, Hok.
    split; cbn.
    + exists ch. eapply represents_same; [exact Hrep|done..|apply Hrep| |]; cbn.
      * apply (rep_firm_only _ _ _ _ _ _ _ Hrep).
      * intros Hl. assert (closed ReaderKind_Firm e = true) as Hcl; [|by rewrite Hcl in Hc].
        apply closed_without. eapply list.Forall_impl; [apply (rep_tasks _ _ _ _ _ _ _ Hrep)|]. rewrite Hl. by intros [[] ?].
    + intros r1 [= <-]. split; [done|]. by eapply firm_ok_turn.
    + intros r1 Hr1. by apply (fed_soft _ Hfed).
    + done.
    + apply (fed_soft_left _ Hfed).
  - destruct (fed_represents _ Hfed) as [ch Hrep]. cbn in Hrep.
    destruct (fed_soft _ Hfed r eq_refl) as (Hch & Hst & Hok). cbn in Hch, Hst, Hok.
    assert (forall h, next_expected_soft_sequencer_height (soft_state r) = Val h ->
      h <= expects (soft_number (rollup_state e))) as Hexp.
    { intros h Hh. rewrite Hst in Hh. destruct (next_soft_val R p session first level Hsession _ _ Hrep _ Hh) as [-> _].
      apply Z.le_refl. }
    destruct (soft_step_ok _ _ _ _ Hok Hexp Hstep) as [Hok' Hst']. split; cbn.
    + exists ch. eapply represents_same; [exact Hrep|done..|apply Hrep| |]; cbn.
      * intros Hl. assert (closed ReaderKind_Soft e = true) as Hcl; [|by rewrite Hcl in Hc].
        apply closed_without. eapply list.Forall_impl; [apply (rep_tasks _ _ _ _ _ _ _ Hrep)|]. rewrite Hl. by intros [[] ?].
      * apply (rep_soft_only _ _ _ _ _ _ _ Hrep).
    + intros r1 Hr1. by apply (fed_firm _ Hfed).
    + intros r1 [= <-]. split; [done|]. split; [by rewrite Hst'|done].
    + apply (fed_firm_left _ Hfed).
    + done.
  - destruct (fed_queues _ Hfed) as [Hfq Hsq]. destruct (fed_represents _ Hfed) as [ch Hrep].
    destruct (step_represents R Hcommits p session first level _ _ _ Hsession Hrep
      (step_reader_ended _ before kind res after Ht)) as (ch' & _ & Hrep').
    destruct Hfed as [_ Hfirm Hsoft Hfl Hsl]. split; cbn.
    + by exists ch'.
    + destruct kind; [done|exact Hfirm].
    + destruct kind; [exact Hsoft|done].
    + destruct kind; [done|exact Hfl].
    + destruct kind; [exact Hsl|done].
Qed.
Lemma fed_steps c c' : fed c -> rtc conductor_step c c' -> fed c'.
Proof. intros Hfed Hsteps. induction Hsteps as [|c c1 c' Hstep _ IH]; [done|]. by apply IH, (fed_step c). Qed.
End feeding.

(** ** What the readers send is what the executor expects *)
Section conductor.
Context `{BlobCodec, VoteCodec, TendermintHeight, !HeightLaws, RollupCodec}.
Variable R : Rollup.
#[local] Hint Extern 0 Rollup => exact (recorded R) : typeclass_instances.

Lemma fed_start level retries n e0 firm0 soft0 :
  initialized level retries (unrecorded R n) = Ok e0 ->
  let p := execution_session_parameters (rollup_state e0) in
  firm (rollup_state e0) = soft (rollup_state e0) -> 0 <= soft_number (rollup_state e0) ->
  uint 64 (rollup_start_block_number p) -> readers_start level (rollup_state e0) firm0 soft0 ->
  session_ok p (soft (rollup_state e0)) /\
  fed R p (execution_session_id (rollup_state e0)) (soft (rollup_state e0)) level (mk_conductor e0 firm0 soft0).
Proof.
  intros Hinit p Hagree Hnum Hfirst [Hfirm Hsoft].
  destruct (initial_represents R level retries n e0 Hinit Hagree Hnum Hfirst) as [Hs Hrep]. split; [done|].
  assert (firm_blocks e0 = [] /\ soft_blocks e0 = []) as [Hfb Hsb].
  { destruct (initialized_Ok R _ _ _ _ Hinit) as (m & -> & _). done. }
  split; cbn; rewrite ?Hfb, ?Hsb.
  - by exists (mk_canonical [] 0).
  - intros r ->. destruct Hfirm as [_ Hparts]. unfold from_parts in Hparts.
    destruct (next_expected_firm_sequencer_height (rollup_state e0)) as [next| |] eqn:Hn; cbn in Hparts; [|done..].
    destruct (next_firm_val R p _ _ level Hs _ _ Hrep next Hn) as [Hv _].
    destruct (with_next_height next) as [cache|] eqn:Hc; cbn in Hparts; [|done]. injection Hparts as <-.
    assert (expects p (firm_number (rollup_state e0)) = next) as -> by done.
    split; [done|]. exists (lowest_celestia_search_height (commitment_state (rollup_state e0))), [].
    by apply reader_start_ok.
  - intros r ->. destruct Hsoft as [_ Hparts]. unfold try_from_parts in Hparts.
    destruct (next_expected_soft_sequencer_height (rollup_state e0)) as [next| |] eqn:Hn; cbn in Hparts; [|done..].
    destruct (next_soft_val R p _ _ level Hs _ _ Hrep next Hn) as [Hv _].
    destruct (sequencer_stop_height (rollup_state e0)) as [stop| |]; cbn in Hparts; [|done..].
    destruct (with_next_height next) as [cache|] eqn:Hc; cbn in Hparts; [|done]. injection Hparts as <-.
    split; [done|]. split; [done|]. destruct (with_next_height_ok _ _ Hc) as (Hok & Hcn & _).
    split; cbn; [done..|]. rewrite Hcn, Hv. apply Z.le_refl.
  - done.
  - done.
Qed.

(** C13. In a session whose soft and firm commitments agree at its start, whatever the
    conductor's tasks do and in whatever order, the first firm block that waits for
    the executor has the height the executor expects and the first soft block no
    greater one: the executor never fails because a block was skipped or came twice.
    *)
Theorem readers_feed_the_executor level retries n e0 firm0 soft0 c :
  commits_what_is_asked R -> initialized level retries (unrecorded R n) = Ok e0 ->
  firm (rollup_state e0) = soft (rollup_state e0) -> 0 <= soft_number (rollup_state e0) ->
  uint 64 (rollup_start_block_number (execution_session_parameters (rollup_state e0))) ->
  readers_start level (rollup_state e0) firm0 soft0 ->
  rtc conductor_step (mk_conductor e0 firm0 soft0) c ->
  (forall b q h, firm_blocks (executor c) = b :: q ->
     next_expected_firm_sequencer_height (rollup_state (executor c)) = Val h -> get_height b = h) /\
  (forall b q h, soft_blocks (executor c) = b :: q ->
     next_expected_soft_sequencer_height (rollup_state (executor c)) = Val h -> get_height b <= h).
Proof.
  intros Hcommits Hinit Hagree Hnum Hfirst Hreaders Hsteps.
  destruct (fed_start _ _ _ _ _ _ Hinit Hagree Hnum Hfirst Hreaders) as [Hs Hfed].
  apply (fed_steps R Hcommits _ _ _ level Hs _ _ Hfed) in Hsteps.
  destruct (fed_queues _ _ _ _ _ _ Hsteps) as [Hfq Hsq]. destruct (fed_represents _ _ _ _ _ _ Hsteps) as [ch Hrep].
  split; intros b q h Hq Hh.
  - rewrite Hq in Hfq. apply firm_queue_take in Hfq as [-> _].
    by destruct (next_firm_val R _ _ _ _ Hs _ _ Hrep _ Hh) as [-> _].
  - rewrite Hq in Hsq. destruct Hsq as [Hle _].
    by destruct (next_soft_val R _ _ _ _ Hs _ _ Hrep _ Hh) as [-> _].
Qed.
End conductor.
