(* ===== verification/RelayerConversion.v ===== *)
(** * From sequencer blocks to Celestia blobs

    [astria-sequencer-relayer/src/relayer/write/conversion.rs], the rollup
    filter of [config.rs] and the namespaces of [astria-core/src/celestia.rs]:
    how the relayer accumulates blocks into the next submission.  Compression,
    the protobuf encoding of the two lists, the checks of [Blob::new] and base64
    are parameters. *)
From S2P Require Import Prelude Denom Types State Chain Ics20 VoteExtension.
From S2P Require Import Wire WireActions WireLaws WireTransaction Collections.
From S2P Require Import MerkleIndex MerkleTree MerkleAudit Block SequencerBlock.
From S2P Require Import ConductorState BTree BlockCache CelestiaBlobs.
From stdpp Require Import base list option strings gmap numbers tactics.
From Stdlib Require Import ZArith Lia Ascii String Floats.SpecFloat.
Open Scope string_scope.
Open Scope Z_scope.

(** ** Text

    Operations of Rust's [str] and of its floats that several components use, on
    strings of the bytes of their UTF-8 encoding. *)
(** [s.split(c)] *)
Fixpoint split_on (c : ascii) (s : string) : list string :=
  match s with
  | EmptyString => [""]
  | String a s =>
      if Ascii.eqb a c then "" :: split_on c s
      else match split_on c s with
           | [] => [String a ""]
           | w :: ws => String a w :: ws
           end
  end.
(** [s.strip_prefix(p)] and [s.strip_suffix(p)] *)
Fixpoint strip_prefix (p s : string) : option string :=
  match p, s with
  | EmptyString, _ => Some s
  | String a p, String b s => if Ascii.eqb a b then strip_prefix p s else None
  | String _ _, EmptyString => None
  end.
Fixpoint rev_string (s : string) : string :=
  match s with EmptyString => "" | String a s => rev_string s ++ String a "" end.
Definition strip_suffix (p s : string) : option string :=
  rev_string <$> strip_prefix (rev_string p) (rev_string s).

Definition bytes_string (l : list nat) : string :=
  fold_right (fun n s => String (ascii_of_nat n) s) "" l.
(** The encodings of the characters with the property [White_Space] *)
Definition whitespace : list string :=
  bytes_string <$>
    (((fun n => [n]) <$> [9; 10; 11; 12; 13; 32]) ++ [[194; 133]; [194; 160]; [225; 154; 128]] ++
     ((fun n => [226; 128; n]) <$> (seq 128 11 ++ [168; 169; 175])) ++ [[226; 129; 159]; [227; 128; 128]])%nat%list.
Fixpoint strip_any (ps : list string) (s : string) : option string :=
  match ps with
  | [] => None
  | p :: ps => match strip_prefix p s with Some s => Some s | None => strip_any ps s end
  end.
Fixpoint trim_start_fuel (fuel : nat) (ps : list string) (s : string) : string :=
  match fuel with
  | O => s
  | S fuel => match strip_any ps s with Some s => trim_start_fuel fuel ps s | None => s end
  end.
(** [s.trim()]: every step removes a byte at least. *)
Definition trim_start (s : string) : string := trim_start_fuel (String.length s) whitespace s.
Definition trim_end (s : string) : string :=
  rev_string (trim_start_fuel (String.length s) (rev_string <$> whitespace) (rev_string s)).
Definition trim (s : string) : string := trim_end (trim_start s).

Example split_on_commas : split_on "," "a,,b" = ["a"; ""; "b"].
Proof. reflexivity. Qed.
Example trim_both_ends : trim (bytes_string [32; 226; 128; 131; 97; 32; 98; 10]%nat) = "a b".
Proof. reflexivity. Qed.

(** * Floating point numbers

    [f64] as [SpecFloat] computes it, rounding to nearest, ties to even: the
    operations that the relayer uses for fees. *)

Definition f64 : Type := spec_float.
Definition f64_prec : Z := 53.
Definition f64_emax : Z := 1024.
(** [n as f64] *)
Definition f64_from_Z (n : Z) : f64 := binary_normalize f64_prec f64_emax n 0 false.
Definition f64_mul : f64 -> f64 -> f64 := SFmul f64_prec f64_emax.
(** [x.ceil() as u64]: the cast saturates, and turns a NaN into zero. *)
Definition f64_ceil_as_u64 (x : f64) : Z :=
  match x with
  | S754_zero _ | S754_nan => 0
  | S754_infinity s => if s then 0 else umax 64
  | S754_finite s m e =>
      let v := if s then Z.neg m else Z.pos m in
      let ceil := if 0 <=? e then v * 2 ^ e else - (- v / 2 ^ (- e)) in
      Z.max 0 (Z.min ceil (umax 64))
  end.

(** [f64::from_str]: the number nearest to [m * 10^k] *)
Definition f64_of_decimal (m k : Z) : f64 :=
  if 0 <=? k then f64_from_Z (m * 10 ^ k)
  else if m =? 0 then S754_zero false
  else
    let '(q, e, rest) := SFdiv_core_binary f64_prec f64_emax m 0 (10 ^ (- k)) 0 in
    binary_round_aux f64_prec f64_emax false q e rest.
Fixpoint take_digits (s : string) : string * string :=
  match s with
  | EmptyString => ("", "")
  | String c s' =>
      if digit_value c then let '(d, rest) := take_digits s' in (String c d, rest) else ("", s)
  end.
Definition lower_ascii (c : ascii) : ascii :=
  let n := nat_of_ascii c in
  if ((65 <=? n) && (n <=? 90))%nat then ascii_of_nat (n + 32) else c.
Fixpoint to_ascii_lowercase (s : string) : string :=
  match s with EmptyString => "" | String c s => String (lower_ascii c) (to_ascii_lowercase s) end.
Definition parse_exponent (s : string) : option Z :=
  match s with
  | EmptyString => Some 0
  | String c s =>
      if Ascii.eqb (lower_ascii c) "e" then
        match s with
        | String "-" s => Z.opp <$> parse_nat s
        | String "+" s => parse_nat s
        | _ => parse_nat s
        end
      else None
  end.
Definition parse_unsigned_f64 (s : string) : option f64 :=
  let l := to_ascii_lowercase s in
  if String.eqb l "nan" then Some S754_nan
  else if String.eqb l "inf" || String.eqb l "infinity" then Some (S754_infinity false)
  else
    let '(whole, rest) := take_digits s in
    let '(fraction, rest) := match rest with String "." r => take_digits r | _ => ("", rest) end in
    if is_empty whole && is_empty fraction then None
    else
      m ← parse_digits 0 (whole ++ fraction);
      e ← parse_exponent rest;
      Some (f64_of_decimal m (e - Z.of_nat (String.length fraction))).
Definition f64_opp (x : f64) : f64 := SFopp x.
Definition parse_f64 (s : string) : option f64 :=
  match s with
  | String "-" s => f64_opp <$> parse_unsigned_f64 s
  | String "+" s => parse_unsigned_f64 s
  | _ => parse_unsigned_f64 s
  end.

Example parse_f64_decimal : parse_f64 "0.002" = Some (S754_finite false 4611686018427388 (-61)).
Proof. reflexivity. Qed.
Example parse_f64_exponent : parse_f64 "2e-3" = parse_f64 ".002".
Proof. reflexivity. Qed.
Example f64_fee : (fun p => f64_ceil_as_u64 (f64_mul p (f64_from_Z 75000))) <$> parse_f64 "0.002" = Some 150.
Proof. reflexivity. Qed.

(** ** Namespaces: [astria-core/src/celestia.rs]

    A namespace of version 0 is its id of ten bytes. *)
Definition NS_ID_V0_SIZE : nat := 10.
Definition namespace_v0_from_first_10_bytes (bytes : string) : run string :=
  if (String.length bytes <? NS_ID_V0_SIZE)%nat then Panic else Val (substring 0 NS_ID_V0_SIZE bytes).
Definition namespace_v0_from_rollup_id (rollup_id : RollupId) : run string :=
  namespace_v0_from_first_10_bytes rollup_id.
Definition namespace_v0_from_sha256_of_bytes `{External} (bytes : string) : run string :=
  namespace_v0_from_first_10_bytes (sha256 bytes).

(** ** The rollup filter: [config.rs] *)
Class Base64 := base64_decode : string -> option string.
Record IncludeRollup := mk_include { included : gset RollupId }.
Definition should_include (f : IncludeRollup) (rollup_id : RollupId) : bool :=
  bool_decide (included f = ∅) || bool_decide (rollup_id ∈ included f).
Inductive IncludeRollupError := NotBase64 (entry : string) | NotRollupId (entry : string).
Definition parse_rollup `{Base64} (entry : string) : result IncludeRollupError RollupId :=
  raw ← ok_or (NotBase64 entry) (base64_decode (trim entry));
  ensure (String.length raw =? 32)%nat (NotRollupId entry);;
  Ok raw.
Definition parse_include `{Base64} (input : string) : result IncludeRollupError IncludeRollup :=
  ids ← try_collect parse_rollup (filter (fun s => negb (is_empty s)) (split_on "," input));
  Ok (mk_include (list_to_set ids)).

(** ** Payloads *)
Definition MAX_PAYLOAD_SIZE_BYTES : Z := 1000000.
Class BlobWriter `{BlockCodec} := {
  compress_bytes : string -> option string;
  encode_metadata_list : list RawSubmittedMetadata -> string;
  encode_rollup_data_list : list RawSubmittedRollupData -> string;
  blob_new_accepts : string -> string -> bool }.

Record Payload := mk_payload {
  compressed_size : Z; uncompressed_size : Z; payload_blobs : list Blob }.
Definition payload_new : Payload := mk_payload 0 0 [].
Inductive PayloadError := PayloadError_Compress | PayloadError_Blob.
Inductive TryIntoPayloadError :=
| AddToPayload (source : PayloadError) (type_url : string)
| NoSequencerNamespacePresent
| PayloadSize.

Section relayer.
Context `{BlobWriter}.

(** The message is given by its encoding. *)
Definition payload_try_add (namespace encoded : string) (p : Payload) : result PayloadError Payload :=
  compressed ← ok_or PayloadError_Compress (compress_bytes encoded);
  ensure (blob_new_accepts namespace compressed) PayloadError_Blob;;
  Ok (mk_payload
        (default (umax 64) (checked_add 64 (compressed_size p) (Z.of_nat (String.length compressed))))
        (default (umax 64) (checked_add 64 (uncompressed_size p) (Z.of_nat (String.length encoded))))
        (payload_blobs p ++ [mk_blob namespace compressed])).

(** ** Input *)
Record InputMeta := mk_input_meta {
  sequencer_heights : gset Z;
  im_sequencer_namespace : option string;
  rollups_included : gmap RollupId string;
  rollups_excluded : gset RollupId }.
Record Input := mk_input {
  in_metadata : list RawSubmittedMetadata;
  rollup_data_for_namespace : IndexMap string (list RawSubmittedRollupData);
  in_meta : InputMeta }.
Definition input_new : Input := mk_input [] [] (mk_input_meta ∅ None ∅ ∅).
Definition num_blocks (i : Input) : nat := List.length (in_metadata i).
Definition upd_meta (f : InputMeta -> InputMeta) (i : Input) : Input :=
  mk_input (in_metadata i) (rollup_data_for_namespace i) (f (in_meta i)).

Definition sequencer_namespace (metadata : RawSubmittedMetadata) : run string :=
  header ← unwrap (raw_sm_header metadata);
  namespace_v0_from_sha256_of_bytes (raw_header_chain_id header).

Definition add_rollup_data (rollup_filter : IncludeRollup) (elem : SubmittedRollupData) (i : Input) : run Input :=
  if should_include rollup_filter (srd_rollup_id elem) then
    namespace ← namespace_v0_from_rollup_id (srd_rollup_id elem);
    Val (mk_input (in_metadata i)
           (index_update [] (fun l => l ++ [submitted_rollup_into_raw elem])%list namespace
              (rollup_data_for_namespace i))
           (mk_input_meta (sequencer_heights (in_meta i)) (im_sequencer_namespace (in_meta i))
              (<[srd_rollup_id elem := namespace]> (rollups_included (in_meta i)))
              (rollups_excluded (in_meta i))))
  else
    Val (upd_meta (fun m => mk_input_meta (sequencer_heights m) (im_sequencer_namespace m)
                              (rollups_included m) ({[srd_rollup_id elem]} ∪ rollups_excluded m)) i).
Fixpoint add_all_rollup_data (rollup_filter : IncludeRollup) (data : list SubmittedRollupData) (i : Input) : run Input :=
  match data with
  | [] => Val i
  | elem :: data => i ← add_rollup_data rollup_filter elem i; add_all_rollup_data rollup_filter data i
  end.
Definition extend_from_sequencer_block (block : SequencerBlock) (rollup_filter : IncludeRollup) (i : Input) : run Input :=
  let '(metadata, rollup_data) := split_for_celestia block in
  let metadata := metadata_into_raw metadata in
  namespace ← match im_sequencer_namespace (in_meta i) with
              | Some namespace => Val namespace
              | None => sequencer_namespace metadata
              end;
  add_all_rollup_data rollup_filter rollup_data
    (mk_input (in_metadata i ++ [metadata])%list (rollup_data_for_namespace i)
       (mk_input_meta ({[header_height (sb_header block)]} ∪ sequencer_heights (in_meta i)) (Some namespace)
          (rollups_included (in_meta i)) (rollups_excluded (in_meta i)))).
Definition greatest_sequencer_height (i : Input) : option Z :=
  match elements (sequencer_heights (in_meta i)) with [] => None | h :: hs => Some (fold_left Z.max hs h) end.

Definition METADATA_TYPE_URL : string := "/astria.sequencerblock.v1.SubmittedMetadataList".
Definition ROLLUP_DATA_FULL_NAME : string := "astria.sequencerblock.v1.SubmittedRollupDataList".
Fixpoint add_namespaces (data : list (string * list RawSubmittedRollupData)) (p : Payload)
    : result TryIntoPayloadError Payload :=
  match data with
  | [] => Ok p
  | (namespace, entries) :: data =>
      p ← map_err (fun e => AddToPayload e ROLLUP_DATA_FULL_NAME)
            (payload_try_add namespace (encode_rollup_data_list entries) p);
      add_namespaces data p
  end.
(** [order] is the order in which the hash map of the namespaces is iterated. *)
Definition HashOrder : Type :=
  list (string * list RawSubmittedRollupData) -> list (string * list RawSubmittedRollupData).
Definition try_into_payload (order : HashOrder) (i : Input) : result TryIntoPayloadError Payload :=
  ok_or PayloadSize (checked_add 64 (Z.of_nat (List.length (in_metadata i)))
                       (Z.of_nat (List.length (rollup_data_for_namespace i))));;
  sequencer_namespace ← ok_or NoSequencerNamespacePresent (im_sequencer_namespace (in_meta i));
  p ← map_err (fun e => AddToPayload e METADATA_TYPE_URL)
        (payload_try_add sequencer_namespace (encode_metadata_list (in_metadata i)) payload_new);
  add_namespaces (order (rollup_data_for_namespace i)) p.

(** ** The next submission *)
Record NextSubmission := mk_next_submission {
  rollup_filter : IncludeRollup; ns_input : Input; ns_payload : Payload }.
Record Submission := mk_submission_of { sub_input : Input; sub_payload : Payload }.
Inductive TryAddError :=
| TryAddError_Full (block : SequencerBlock)
| TryAddError_IntoPayload (source : TryIntoPayloadError)
| TryAddError_OversizedBlock (sequencer_height compressed_size : Z).
Definition next_submission_new (f : IncludeRollup) : NextSubmission := mk_next_submission f input_new payload_new.

Definition try_add (order : HashOrder) (block : SequencerBlock) (n : NextSubmission)
    : attempt TryAddError NextSubmission :=
  input_candidate ← running (extend_from_sequencer_block block (rollup_filter n) (ns_input n));
  payload_candidate ← checked (map_err TryAddError_IntoPayload (try_into_payload order input_candidate));
  checked
    (if compressed_size payload_candidate <=? MAX_PAYLOAD_SIZE_BYTES then
       Ok (mk_next_submission (rollup_filter n) input_candidate payload_candidate)
     else if (num_blocks input_candidate =? 1)%nat then
       Err (TryAddError_OversizedBlock (header_height (sb_header block)) (compressed_size payload_candidate))
     else Err (TryAddError_Full block)).
(** [TakeSubmission::poll] *)
Definition take_submission (n : NextSubmission) : option Submission * NextSubmission :=
  (match payload_blobs (ns_payload n) with
   | [] => None
   | _ => Some (mk_submission_of (ns_input n) (ns_payload n))
   end, next_submission_new (rollup_filter n)).
(** [Submission::greatest_sequencer_height], which expects one *)
Definition submission_height (s : Submission) : run Z := unwrap (greatest_sequencer_height (sub_input s)).
End relayer.
