(* ===== verification/RelayerClient.v ===== *)
(** * The relayer's Celestia client

    [astria-sequencer-relayer/src/relayer/celestia_client/]: preparing a blob
    transaction with its fee, broadcasting it, and polling for its inclusion.
    The Celestia app behind the gRPCs is the parameter [CelestiaApp], a state
    with one function per RPC; the share commitments of blobs, the protobuf
    encodings and the signing key are parameters as well. *)
From S2P Require Import Prelude Denom Types State Chain Ics20 Wire VoteExtension ConductorState CelestiaBlobs.
From S2P Require Import RelayerConversion.
From stdpp Require Import base list option strings numbers pretty tactics.
From Stdlib Require Import ZArith Lia Ascii String.
Open Scope string_scope.
Open Scope Z_scope.

Definition INSUFFICIENT_FEE_CODE : Z := 13.
(** The messages of the app *)
Record GrpcStatus := mk_status { status_code : Code; status_message : string }.
Record PbAny := mk_pb_any { any_url : string; any_bytes : string }.
Record BaseAccount := mk_base_account { account_number : Z; account_sequence : Z }.
Record TxResponse := mk_tx_response {
  tr_height : Z; tr_txhash : string; tr_codespace : string; tr_code : Z; tr_raw_log : string }.
Definition Response (A : Type) : Type := result GrpcStatus A.

(** ** [error.rs] *)
Inductive TrySubmitError :=
| FailedToGetBlobParams (source : GrpcStatus)
| EmptyBlobParams
| FailedToGetAuthParams (source : GrpcStatus)
| EmptyAuthParams
| FailedToGetMinGasPrice (source : GrpcStatus)
| MinGasPriceBadSuffix (min_gas_price expected_suffix : string)
| FailedToParseMinGasPrice (min_gas_price : string)
| BlobTooLarge (byte_count : Z)
| FailedToGetAccountInfo (source : GrpcStatus)
| EmptyAccountInfo
| AccountInfoTypeMismatch (expected received : string)
| DecodeAccountInfo
| FailedToBroadcastTx (source : GrpcStatus)
| EmptyBroadcastTxResponse
| BroadcastTxResponseErrorCode (tx_hash : string) (code : Z) (namespace log : string)
| FailedToGetTx (source : GrpcStatus)
| EmptyGetTxResponse
| GetTxResponseErrorCode (tx_hash : string) (code : Z) (namespace log : string)
| GetTxResponseNegativeBlockHeight (height : Z).
Definition is_timeout (e : GrpcStatus) : bool := bool_decide (status_code e = Code_Cancelled).

(** ** Messages that the client signs and sends *)
Record MsgPayForBlobs := mk_pay_for_blobs {
  pfb_signer : string; pfb_namespaces : list string; pfb_blob_sizes : list Z;
  pfb_share_commitments : list string; pfb_share_versions : list Z }.
Record CosmosTx := mk_cosmos_tx {
  ct_message : MsgPayForBlobs;
  ct_public_key : string;
  ct_sequence : Z;
  ct_fee : Z;
  ct_gas_limit : Z;
  ct_signature : string }.
Record BlobTx := mk_blob_tx { blob_tx_signed : string; blob_tx_blobs : list Blob; blob_tx_type_id : string }.
Record BlobTxAndFee := mk_tx_and_fee { btf_tx : BlobTx; btf_fee : Z }.
Definition BlobTxHash : Type := string.

Class CelestiaCodec := {
  celestia_sha256 : string -> string;
  blob_commitment : Blob -> string;
  decode_base_account : string -> option BaseAccount;
  (** the sign document of the message, sequence, fee, gas limit, chain id and account number *)
  sign_document : MsgPayForBlobs -> Z -> Z -> Z -> string -> Z -> string;
  encode_cosmos_tx : CosmosTx -> string }.
Record CelestiaKeys := mk_keys { verification_key : string; sign_with : string -> string }.

Class CelestiaApp := {
  App : Type;
  app_node_info : App -> Response (option string) * App;
  app_account : string -> App -> Response (option PbAny) * App;
  app_blob_params : App -> Response (option Z) * App;
  app_auth_params : App -> Response (option Z) * App;
  app_min_gas_price : App -> Response string * App;
  app_broadcast_tx : BlobTx -> App -> Response (option TxResponse) * App;
  app_get_tx : string -> App -> Response (option TxResponse) * App }.

(** ** Responses *)
Definition BASE_ACCOUNT_URL : string := "/cosmos.auth.v1beta1.BaseAccount".
Definition account_from_response `{CelestiaCodec} (response : Response (option PbAny)) : result TrySubmitError BaseAccount :=
  account ← map_err FailedToGetAccountInfo response;
  account ← ok_or EmptyAccountInfo account;
  ensure (String.eqb BASE_ACCOUNT_URL (any_url account)) (AccountInfoTypeMismatch BASE_ACCOUNT_URL (any_url account));;
  ok_or DecodeAccountInfo (decode_base_account (any_bytes account)).
Definition UNITS_SUFFIX : string := "utia".
Definition min_gas_price_from_response (response : Response string) : result TrySubmitError f64 :=
  price ← map_err FailedToGetMinGasPrice response;
  number ← ok_or (MinGasPriceBadSuffix price UNITS_SUFFIX) (RelayerConversion.strip_suffix UNITS_SUFFIX price);
  ok_or (FailedToParseMinGasPrice number) (parse_f64 number).
Definition lowercase_hex_encoded_tx_hash_from_response (response : Response (option TxResponse)) : result TrySubmitError string :=
  r ← map_err FailedToBroadcastTx response;
  r ← ok_or EmptyBroadcastTxResponse r;
  ensure (tr_code r =? 0) (BroadcastTxResponseErrorCode (tr_txhash r) (tr_code r) (tr_codespace r) (tr_raw_log r));;
  Ok (to_ascii_lowercase (tr_txhash r)).
Definition block_height_from_response (response : Response (option TxResponse)) : result TrySubmitError (option Z) :=
  match response with
  | Err status => if bool_decide (status_code status = Code_NotFound) then Ok None else Err (FailedToGetTx status)
  | Ok r =>
      r ← ok_or EmptyGetTxResponse r;
      ensure (tr_code r =? 0) (GetTxResponseErrorCode (tr_txhash r) (tr_code r) (tr_codespace r) (tr_raw_log r));;
      if tr_height r =? 0 then Ok None
      else ensure (0 <=? tr_height r) (GetTxResponseNegativeBlockHeight (tr_height r));; Ok (Some (tr_height r))
  end.

(** ** Gas and fees *)
Record CelestiaCostParams := mk_cost_params {
  gas_per_blob_byte : Z; tx_size_cost_per_byte : Z; min_gas_price : f64 }.
Definition SHARE_SIZE : Z := 512.
Definition CONTINUATION_COMPACT_SHARE_CONTENT_SIZE : Z := 482.
Definition FIRST_SPARSE_SHARE_CONTENT_SIZE : Z := 478.
Definition PFB_GAS_FIXED_COST : Z := 75000.
Definition BYTES_PER_BLOB_INFO : Z := 70.

(** The loop that adds shares until the blob fits *)
Fixpoint add_shares (fuel : nat) (blob_len bytes_available shares_needed : Z) : run Z :=
  match fuel with
  | O => NoFuel
  | S fuel =>
      if bytes_available <? blob_len then
        bytes_available ← unwrap (checked_add 64 bytes_available CONTINUATION_COMPACT_SHARE_CONTENT_SIZE);
        shares_needed ← unwrap (checked_add 64 shares_needed 1);
        add_shares fuel blob_len bytes_available shares_needed
      else Val shares_needed
  end.
Definition sparse_shares_needed (blob_len : Z) : run Z :=
  if blob_len =? 0 then Val 0
  else if blob_len <? FIRST_SPARSE_SHARE_CONTENT_SIZE then Val 1
  else add_shares (Z.to_nat (blob_len / CONTINUATION_COMPACT_SHARE_CONTENT_SIZE + 2)) blob_len
         FIRST_SPARSE_SHARE_CONTENT_SIZE 1.
(** [iter.map(..).sum()], which panics when it overflows and the overflow checks
    of a debug build are on; it takes more than [2^40] blobs to overflow. *)
Fixpoint sum_shares (acc : Z) (sizes : list Z) : run Z :=
  match sizes with
  | [] => Val acc
  | n :: sizes =>
      shares ← sparse_shares_needed n;
      acc ← unwrap (checked_add 64 acc shares);
      sum_shares acc sizes
  end.
Definition estimate_gas (blob_sizes : list Z) (p : CelestiaCostParams) : run Z :=
  total_shares_used ← sum_shares 0 blob_sizes;
  let blob_count := Z.min (Z.of_nat (List.length blob_sizes)) (umax 64) in
  let shares_gas := saturating_mul 64 (saturating_mul 64 total_shares_used SHARE_SIZE) (gas_per_blob_byte p) in
  let blob_info_gas := saturating_mul 64 (saturating_mul 64 (tx_size_cost_per_byte p) BYTES_PER_BLOB_INFO) blob_count in
  Val (saturating_add 64 (saturating_add 64 shares_gas blob_info_gas) PFB_GAS_FIXED_COST).

(** [str::parse::<u64>] *)
Definition parse_u64 (s : string) : option Z :=
  n ← match s with String "+" s => parse_nat s | _ => parse_nat s end;
  if n <=? umax 64 then Some n else None.
Definition FEE_SUFFIX : string := "utia: insufficient fee".
Definition last_word (s : string) : string := List.last (split_on " " s) "".
Definition extract_required_fee_from_log (log : string) : option Z :=
  log_without_suffix ← RelayerConversion.strip_suffix FEE_SUFFIX log;
  parse_u64 (last_word log_without_suffix).
Definition calculate_fee (p : CelestiaCostParams) (gas_limit : Z) (last_error : option TrySubmitError) : Z :=
  let maybe_required_fee :=
    match last_error with
    | Some (BroadcastTxResponseErrorCode _ code _ log) =>
        if code =? INSUFFICIENT_FEE_CODE then extract_required_fee_from_log log else None
    | _ => None
    end in
  let calculated_fee := f64_ceil_as_u64 (f64_mul (min_gas_price p) (f64_from_Z gas_limit)) in
  default calculated_fee maybe_required_fee.

(** ** The client *)
Record CelestiaClient := mk_celestia_client {
  signing_keys : CelestiaKeys; client_address : string; client_chain_id : string }.
(** The RPCs of a call of the client, one after the other *)
Definition CelestiaM `{CelestiaApp} (A : Type) : Type := App -> run (result TrySubmitError A) * App.
#[export] Instance celestia_ret `{CelestiaApp} : MRet CelestiaM := fun A a s => (Val (Ok a), s).
#[export] Instance celestia_bind `{CelestiaApp} : MBind CelestiaM := fun A B f m s =>
  match m s with
  | (Val (Ok a), s) => f a s
  | (Val (Err e), s) => (Val (Err e), s)
  | (Panic, s) => (Panic, s)
  | (NoFuel, s) => (NoFuel, s)
  end.

Section client.
Context `{CelestiaCodec, CelestiaApp}.

Definition rpc {A B} (call : App -> Response A * App) (f : Response A -> result TrySubmitError B) : CelestiaM B :=
  fun s => let '(r, s) := call s in (Val (f r), s).
Definition lift_run {A} (r : run A) : CelestiaM A := fun s =>
  (match r with Val a => Val (Ok a) | Panic => Panic | NoFuel => NoFuel end, s).
Definition lift_result {A} (r : result TrySubmitError A) : CelestiaM A := fun s => (Val r, s).

Definition new_msg_pay_for_blobs (blobs : list Blob) (signer : string) : result TrySubmitError MsgPayForBlobs :=
  sizes ← try_collect (fun b =>
            let n := Z.of_nat (String.length (blob_data b)) in
            ensure (n <=? umax 32) (BlobTooLarge n);; Ok n) blobs;
  Ok (mk_pay_for_blobs signer (map blob_namespace blobs) sizes (map blob_commitment blobs) (map (fun _ => 0) blobs)).
Definition new_signed_tx (msg : MsgPayForBlobs) (base_account : BaseAccount) (gas_limit fee : Z) (chain_id : string)
    (keys : CelestiaKeys) : CosmosTx :=
  mk_cosmos_tx msg (verification_key keys) (account_sequence base_account) fee gas_limit
    (sign_with keys (sign_document msg (account_sequence base_account) fee gas_limit chain_id
                       (account_number base_account))).
Definition blob_tx_and_fee_new (signed_tx : CosmosTx) (blobs : list Blob) (fee : Z) : BlobTxAndFee :=
  mk_tx_and_fee (mk_blob_tx (encode_cosmos_tx signed_tx) blobs "BLOB") fee.
Definition blob_tx_hash (tx : BlobTx) : BlobTxHash := celestia_sha256 (blob_tx_signed tx).

(** [tokio::try_join!] of the four requests: the first error is returned. *)
Definition try_prepare (c : CelestiaClient) (blobs : list Blob) (last_error : option TrySubmitError) : CelestiaM BlobTxAndFee :=
  gas_per_blob_byte ← rpc app_blob_params (fun r => p ← map_err FailedToGetBlobParams r; ok_or EmptyBlobParams p);
  tx_size_cost_per_byte ← rpc app_auth_params (fun r => p ← map_err FailedToGetAuthParams r; ok_or EmptyAuthParams p);
  min_gas_price ← rpc app_min_gas_price min_gas_price_from_response;
  base_account ← rpc (app_account (client_address c)) account_from_response;
  msg ← lift_result (new_msg_pay_for_blobs blobs (client_address c));
  let p := mk_cost_params gas_per_blob_byte tx_size_cost_per_byte min_gas_price in
  gas_limit ← lift_run (estimate_gas (pfb_blob_sizes msg) p);
  let fee := calculate_fee p gas_limit last_error in
  mret (blob_tx_and_fee_new (new_signed_tx msg base_account gas_limit fee (client_chain_id c) (signing_keys c)) blobs fee).
Definition broadcast_tx (tx : BlobTx) : CelestiaM string :=
  rpc (app_broadcast_tx tx) lowercase_hex_encoded_tx_hash_from_response.
Definition get_tx (hex_hash : string) : CelestiaM (option Z) := rpc (app_get_tx hex_hash) block_height_from_response.
(** [confirm_submission] polls until the transaction is included; [polls] bounds
    the polls of the one with a timeout, which then has no answer. *)
Fixpoint confirm_submission (polls : nat) (hex_hash : string) (s : App) : option Z * App :=
  match polls with
  | O => (None, s)
  | S polls =>
      match get_tx hex_hash s with
      | (Val (Ok (Some height)), s) => (Some height, s)
      | (_, s) => confirm_submission polls hex_hash s
      end
  end.
Definition hex_lower (h : BlobTxHash) : string := to_ascii_lowercase (hex_encode h).
Definition confirm_submission_with_timeout (polls : nat) (h : BlobTxHash) : App -> option Z * App :=
  confirm_submission polls (hex_lower h).
(** [try_submit] waits for the confirmation without a limit. *)
Definition client_try_submit (polls : nat) (tx : BlobTx) : CelestiaM Z := fun s =>
  match broadcast_tx tx s with
  | (Val (Ok hex_hash), s) =>
      match confirm_submission polls hex_hash s with
      | (Some height, s) => (Val (Ok height), s)
      | (None, s) => (NoFuel, s)
      end
  | (Val (Err e), s) => (Val (Err e), s)
  | (Panic, s) => (Panic, s)
  | (NoFuel, s) => (NoFuel, s)
  end.
End client.

(** ** Gas *)
(** The bytes that [k] shares hold *)
Definition shares_capacity (k : Z) : Z :=
  if k <=? 0 then 0 else FIRST_SPARSE_SHARE_CONTENT_SIZE + (k - 1) * CONTINUATION_COMPACT_SHARE_CONTENT_SIZE.
Lemma add_shares_val n : 0 <= n <= umax 32 -> forall fuel k, 1 <= k -> shares_capacity (k - 1) < n \/ k = 1 ->
  n <= shares_capacity (k + Z.of_nat fuel - 1) -> k + Z.of_nat fuel < 2 ^ 33 -> (0 < fuel)%nat ->
  exists k', add_shares fuel n (shares_capacity k) k = Val k' /\ n <= shares_capacity k' /\
    (shares_capacity (k' - 1) < n \/ k' = 1) /\ k <= k' < k + Z.of_nat fuel.
Proof.
  intros Hn. unfold umax in Hn. induction fuel as [|fuel IH]; intros k Hk Hlow Hfuel Hbound Hpos; [lia|]. cbn [add_shares].
  assert (shares_capacity (k + 1) = shares_capacity k + CONTINUATION_COMPACT_SHARE_CONTENT_SIZE) as Hnext.
  { unfold shares_capacity. destruct (Z.leb_spec k 0), (Z.leb_spec (k + 1) 0); lia. }
  destruct (Z.ltb_spec (shares_capacity k) n) as [Hlt|Hge].
  - destruct fuel as [|fuel'] eqn:Hf; [replace (k + Z.of_nat 1 - 1) with k in Hfuel by lia; lia|]. rewrite <- Hf in *.
    unfold CONTINUATION_COMPACT_SHARE_CONTENT_SIZE in *.
    rewrite (proj2 (checked_add_Some 64 (shares_capacity k) 482 (shares_capacity (k + 1)))) by (clear -Hnext Hlt Hn; lia). cbn [unwrap mbind run_bind].
    rewrite (proj2 (checked_add_Some 64 k 1 (k + 1))) by lia. cbn [unwrap mbind run_bind].
    destruct (IH (k + 1)) as (k' & Hrun & Hcap & Hmin & Hk'); [lia|left; by replace (k + 1 - 1) with k by lia| |lia|lia|].
    { by replace (k + 1 + Z.of_nat fuel - 1) with (k + Z.of_nat (S fuel) - 1) by lia. }
    exists k'. split_and!; [done..|lia|lia].
  - exists k. split_and!; [done..|lia|lia].
Qed.

Lemma least_shares n : 0 <= n <= umax 32 ->
  exists k, sparse_shares_needed n = Val k /\ 0 <= k < 2 ^ 32 /\ n <= shares_capacity k /\
    forall j, 0 <= j -> n <= shares_capacity j -> k <= j.
Proof.
  intros Hn. unfold sparse_shares_needed.
  destruct (Z.eqb_spec n 0) as [->|Hnz]; [by exists 0|].
  destruct (Z.ltb_spec n FIRST_SPARSE_SHARE_CONTENT_SIZE) as [Hlt|Hge].
  - exists 1. split; [done|]. split; [lia|]. split; [unfold shares_capacity; cbn; lia|].
    intros j _ Hj. unfold shares_capacity in Hj. destruct (Z.leb_spec j 0); lia.
  - set (fuel := Z.to_nat _). 
    assert (Z.of_nat fuel = n / 482 + 2) as Hf.
    { unfold fuel, CONTINUATION_COMPACT_SHARE_CONTENT_SIZE. rewrite Z2Nat.id; [done|]. apply Z.add_nonneg_nonneg; [apply Z.div_pos; lia|lia]. }
    pose proof (Z.div_mod n 482 ltac:(lia)) as Hdiv. pose proof (Z.mod_pos_bound n 482 ltac:(lia)) as Hmod.
    unfold umax in Hn.
    destruct (add_shares_val n ltac:(unfold umax; lia) fuel 1) as (k & Hrun & Hcap & Hmin & Hk); [lia|by right| |lia|lia|].
    { rewrite Hf. unfold shares_capacity, FIRST_SPARSE_SHARE_CONTENT_SIZE, CONTINUATION_COMPACT_SHARE_CONTENT_SIZE.
      destruct (Z.leb_spec (1 + (n / 482 + 2) - 1) 0); lia. }
    exists k. split; [exact Hrun|]. split; [lia|]. split; [done|]. intros j _ Hj.
    destruct Hmin as [Hmin|Hone]; unfold shares_capacity, FIRST_SPARSE_SHARE_CONTENT_SIZE, CONTINUATION_COMPACT_SHARE_CONTENT_SIZE in *;
      repeat match goal with H : context [?a <=? ?b] |- _ => destruct (Z.leb_spec a b) end; lia.
Qed.
(** The loop that counts shares ends without an overflow, with the least number
    of shares that hold the blob. *)
Theorem least_shares_hold_the_blob n : 0 <= n <= umax 32 ->
  exists k, sparse_shares_needed n = Val k /\ 0 <= k < 2 ^ 32 /\ n <= shares_capacity k /\
    forall j, 0 <= j -> n <= shares_capacity j -> k <= j.
Proof. apply least_shares. Qed.

Lemma sum_shares_val sizes : forall acc, 0 <= acc -> Forall (fun n => 0 <= n <= umax 32) sizes ->
  acc + Z.of_nat (List.length sizes) * 2 ^ 32 < 2 ^ 64 -> exists total, sum_shares acc sizes = Val total /\ acc <= total.
Proof.
  induction sizes as [|n sizes IH]; intros acc Hacc Hs Hfit; cbn [sum_shares]; [exists acc; split; [done|lia]|].
  apply list.Forall_cons in Hs as [Hn Hs]. destruct (least_shares n Hn) as (k & -> & Hk & _).
  cbn [mbind run_bind]. rewrite length_cons in Hfit.
  rewrite (proj2 (checked_add_Some 64 acc k (acc + k))) by (split; [done|lia]). cbn [unwrap mbind run_bind].
  destruct (IH (acc + k)) as (total & -> & Htotal); [lia|done|lia|]. exists total. split; [done|lia].
Qed.
(** The estimate of the gas never overflows: it saturates, and the count of the
    shares fits for less than [2^31] blobs. *)
Theorem gas_estimate_is_total sizes p : Forall (fun n => 0 <= n <= umax 32) sizes ->
  Z.of_nat (List.length sizes) < 2 ^ 31 -> 0 <= gas_per_blob_byte p -> 0 <= tx_size_cost_per_byte p ->
  exists gas, estimate_gas sizes p = Val gas /\ PFB_GAS_FIXED_COST <= gas <= umax 64.
Proof.
  intros Hs Hlen Hg Ht. unfold estimate_gas. destruct (sum_shares_val sizes 0) as (total & -> & Htotal); [lia|done|lia|].
  cbn [mbind run_bind]. eexists. split; [done|]. unfold saturating_add, saturating_mul, PFB_GAS_FIXED_COST, umax.
  assert (0 <= Z.min (Z.min (total * SHARE_SIZE) (2 ^ 64 - 1) * gas_per_blob_byte p) (2 ^ 64 - 1)) as H1.
  { apply Z.min_glb; [|lia]. apply Z.mul_nonneg_nonneg; [|done]. unfold SHARE_SIZE. lia. }
  assert (0 <= Z.min (Z.min (tx_size_cost_per_byte p * BYTES_PER_BLOB_INFO) (2 ^ 64 - 1) *
    Z.min (Z.of_nat (List.length sizes)) (2 ^ 64 - 1)) (2 ^ 64 - 1)) as H2.
  { apply Z.min_glb; [|lia]. apply Z.mul_nonneg_nonneg; unfold BYTES_PER_BLOB_INFO; lia. }
  lia.
Qed.

(** ** The fee of a retry *)
Lemma append_cons a p s : String a p ++ s = String a (p ++ s).
Proof. done. Qed.
Lemma append_empty s : "" ++ s = s.
Proof. done. Qed.
Lemma strip_prefix_app p s : RelayerConversion.strip_prefix p (p ++ s) = Some s.
Proof.
  induction p as [|a p IH]; [by destruct s|]. rewrite append_cons. cbn [RelayerConversion.strip_prefix]. by rewrite Ascii.eqb_refl.
Qed.
Lemma string_app_nil s : s ++ "" = s.
Proof. induction s as [|a s IH]; [done|]. by rewrite append_cons, IH. Qed.
Lemma string_app_assoc a b c : a ++ b ++ c = (a ++ b) ++ c.
Proof. induction a as [|x a IH]; [done|]. by rewrite !append_cons, IH. Qed.
Lemma rev_string_app a b : rev_string (a ++ b) = rev_string b ++ rev_string a.
Proof.
  induction a as [|x a IH]; cbn [rev_string]; [by rewrite append_empty, string_app_nil|].
  rewrite append_cons. cbn [rev_string]. by rewrite IH, string_app_assoc.
Qed.
Lemma rev_string_involutive s : rev_string (rev_string s) = s.
Proof. induction s as [|a s IH]; cbn [rev_string]; [done|]. by rewrite rev_string_app, IH. Qed.
Lemma strip_suffix_app p s : RelayerConversion.strip_suffix p (s ++ p) = Some s.
Proof. unfold RelayerConversion.strip_suffix. rewrite rev_string_app, strip_prefix_app. cbn. by rewrite rev_string_involutive. Qed.

Lemma split_on_nil c s : split_on c s <> [].
Proof. induction s as [|a s IH]; cbn; [done|]. destruct (Ascii.eqb a c); [done|]. by destruct (split_on c s). Qed.
Lemma last_word_app s w : last_word (s ++ String " " w) = last_word w.
Proof.
  unfold last_word. induction s as [|a s IH].
  - rewrite append_empty. cbn. destruct (split_on " " w) eqn:Hw; [by apply split_on_nil in Hw|done].
  - rewrite append_cons. cbn [split_on]. destruct (split_on " " (s ++ String " " w)) as [|x l] eqn:Hs; [by apply split_on_nil in Hs|].
    destruct (Ascii.eqb a " "); [by rewrite <- IH|].
    destruct l as [|y l]; [|by rewrite <- IH]. exfalso. clear -Hs. revert x Hs.
    induction s as [|b s IH]; intros x; [rewrite append_empty|rewrite append_cons]; cbn [split_on].
    + cbn. destruct (split_on " " w) eqn:Hw; [by apply split_on_nil in Hw|done].
    + destruct (split_on " " (s ++ String " " w)) as [|z l] eqn:Hs; [by apply split_on_nil in Hs|].
      destruct (Ascii.eqb b " "); [done|]. intros [= _ ->]. by eapply IH.
Qed.
Lemma digits_one_word s : forall acc n, parse_digits acc s = Some n -> split_on " " s = [s].
Proof.
  induction s as [|a s IH]; intros acc n; cbn [parse_digits split_on]; [done|].
  destruct (digit_value a) as [d|] eqn:Hd; cbn; [|done]. intros Hs. rewrite (IH _ _ Hs).
  destruct (Ascii.eqb_spec a " ") as [->|]; [by vm_compute in Hd|done].
Qed.
Lemma parsed_one_word w n : parse_u64 w = Some n -> last_word w = w.
Proof.
  intros Hw. unfold last_word. destruct w as [|a w]; [done|].
  assert ((exists n, parse_digits 0 w = Some n) /\ a = "+"%char \/ exists n, parse_digits 0 (String a w) = Some n) as [[[m Hm] ->]|[m Hm]].
  { destruct (ascii_dec a "+") as [->|Ha].
    - left. split; [|done]. unfold parse_u64, parse_nat in Hw. cbn in Hw. destruct (is_empty w); cbn in Hw; [done|].
      destruct (parse_digits 0 w) as [m|]; [by exists m|done].
    - right. destruct (parse_digits 0 (String a w)) as [m|] eqn:Hm; [by exists m|]. exfalso.
      enough (parse_u64 (String a w) = None) by congruence. clear Hw. unfold parse_u64, parse_nat.
      destruct a as [[] [] [] [] [] [] [] []]; try (cbn [is_empty]; by rewrite Hm). done. }
  - cbn. by rewrite (digits_one_word _ _ _ Hm).
  - by rewrite (digits_one_word _ _ _ Hm).
Qed.
(** After a broadcast that was refused for its fee, the next attempt pays the fee
    that the refusal asks for, whatever the calculated one is. *)
Theorem required_fee_is_paid p gas_limit tx_hash namespace text w fee : parse_u64 w = Some fee ->
  calculate_fee p gas_limit (Some (BroadcastTxResponseErrorCode tx_hash INSUFFICIENT_FEE_CODE namespace
    (text ++ String " " (w ++ FEE_SUFFIX)))) = fee.
Proof.
  intros Hw. unfold calculate_fee. rewrite Z.eqb_refl. unfold extract_required_fee_from_log.
  replace (text ++ String " " (w ++ FEE_SUFFIX)) with ((text ++ String " " w) ++ FEE_SUFFIX)
    by (by rewrite <- string_app_assoc).
  rewrite strip_suffix_app. cbn [mbind option_bind]. rewrite last_word_app, (parsed_one_word _ _ Hw), Hw. done.
Qed.

(** ** A transaction that fails *)
(** C17. A transaction that the app accepted into its mempool but that failed in its
    block is polled for ever: no number of polls ends [try_submit], which is
    neither an error nor tried again. *)
Theorem failed_transaction_is_polled_forever `{CelestiaCodec, CelestiaApp} tx a r :
  (app_broadcast_tx tx a).1 = Ok (Some r) -> tr_code r = 0 ->
  (forall a, exists failed, (app_get_tx (to_ascii_lowercase (tr_txhash r)) a).1 = Ok (Some failed) /\ tr_code failed <> 0) ->
  forall polls, (client_try_submit polls tx a).1 = NoFuel.
Proof.
  intros Hb Hcode Hfailed polls. unfold client_try_submit, broadcast_tx, rpc.
  destruct (app_broadcast_tx tx a) as [res a1]. cbn in Hb. subst res. cbn. rewrite Hcode. cbn.
  assert (forall a, (confirm_submission polls (to_ascii_lowercase (tr_txhash r)) a).1 = None) as Hpoll.
  { clear -Hfailed. induction polls as [|polls IH]; intros a; cbn; [done|]. unfold get_tx, rpc.
    destruct (Hfailed a) as (failed & Hget & Hne). destruct (app_get_tx _ a) as [res a2]. cbn in Hget. subst res. cbn.
    rewrite (proj2 (Z.eqb_neq _ _) Hne). cbn. apply IH. }
  specialize (Hpoll a1). destruct (confirm_submission polls _ a1) as [o a2]. cbn in Hpoll. by subst o.
Qed.
