(* ===== verification/RelayerState.v ===== *)
(** * What the relayer remembers: its state file and its status

    [astria-sequencer-relayer/src/relayer/submission.rs], [relayer/state.rs] and
    [api.rs]: the submission state that is written to disk before and after every
    submission, and the status that the API reports.

    The world around the relayer is a state that its operations thread: two
    files, the Celestia app, the status, and a list of ticks.  Every operation
    whose outcome the machine decides takes one tick, which says whether a file
    operation succeeds, what the clock shows, and how often the Celestia app is
    polled before a timeout.  When the ticks run out the process is killed, which
    can so happen before every effect. *)
From S2P Require Import Prelude Denom Types State Chain Ics20 Wire Block.
From S2P Require Import ConductorState CelestiaBlobs RelayerClient.
From stdpp Require Import base list option strings numbers tactics.
From Stdlib Require Import ZArith Lia Ascii String.
Open Scope string_scope.
Open Scope Z_scope.

(** ** The status: [state.rs] *)
Record StateSnapshot := mk_snapshot {
  ready : bool;
  celestia_connected : bool;
  sequencer_connected : bool;
  latest_confirmed_celestia_height : option Z;
  latest_fetched_sequencer_height : option Z;
  latest_observed_sequencer_height : option Z;
  latest_requested_sequencer_height : option Z }.
Definition snapshot_default : StateSnapshot := mk_snapshot false false false None None None None.
(** Every setter but the first says whether the value changed, of which the
    watchers of the status are notified then. *)
Definition set_ready (s : StateSnapshot) : StateSnapshot :=
  mk_snapshot true (celestia_connected s) (sequencer_connected s) (latest_confirmed_celestia_height s)
    (latest_fetched_sequencer_height s) (latest_observed_sequencer_height s) (latest_requested_sequencer_height s).
Definition set_celestia_connected (connected : bool) (s : StateSnapshot) : bool * StateSnapshot :=
  (xorb (celestia_connected s) connected,
   mk_snapshot (ready s) connected (sequencer_connected s) (latest_confirmed_celestia_height s)
     (latest_fetched_sequencer_height s) (latest_observed_sequencer_height s) (latest_requested_sequencer_height s)).
Definition set_sequencer_connected (connected : bool) (s : StateSnapshot) : bool * StateSnapshot :=
  (xorb (sequencer_connected s) connected,
   mk_snapshot (ready s) (celestia_connected s) connected (latest_confirmed_celestia_height s)
     (latest_fetched_sequencer_height s) (latest_observed_sequencer_height s) (latest_requested_sequencer_height s)).
Definition height_changed (old : option Z) (height : Z) : bool :=
  match old with None => true | Some h => negb (h =? height) end.
Definition set_latest_confirmed_celestia_height (height : Z) (s : StateSnapshot) : bool * StateSnapshot :=
  (height_changed (latest_confirmed_celestia_height s) height,
   mk_snapshot (ready s) (celestia_connected s) (sequencer_connected s) (Some height)
     (latest_fetched_sequencer_height s) (latest_observed_sequencer_height s) (latest_requested_sequencer_height s)).
Definition set_latest_fetched_sequencer_height (height : Z) (s : StateSnapshot) : bool * StateSnapshot :=
  (height_changed (latest_fetched_sequencer_height s) height,
   mk_snapshot (ready s) (celestia_connected s) (sequencer_connected s) (latest_confirmed_celestia_height s)
     (Some height) (latest_observed_sequencer_height s) (latest_requested_sequencer_height s)).
Definition set_latest_observed_sequencer_height (height : Z) (s : StateSnapshot) : bool * StateSnapshot :=
  (height_changed (latest_observed_sequencer_height s) height,
   mk_snapshot (ready s) (celestia_connected s) (sequencer_connected s) (latest_confirmed_celestia_height s)
     (latest_fetched_sequencer_height s) (Some height) (latest_requested_sequencer_height s)).
Definition set_latest_requested_sequencer_height (height : Z) (s : StateSnapshot) : bool * StateSnapshot :=
  (height_changed (latest_requested_sequencer_height s) height,
   mk_snapshot (ready s) (celestia_connected s) (sequencer_connected s) (latest_confirmed_celestia_height s)
     (latest_fetched_sequencer_height s) (latest_observed_sequencer_height s) (Some height)).
Definition is_ready (s : StateSnapshot) : bool := ready s.
Definition is_healthy (s : StateSnapshot) : bool := celestia_connected s && sequencer_connected s.
(** [api.rs]: the HTTP codes of the health and readiness checks *)
Definition get_healthz (s : StateSnapshot) : Z := if is_healthy s then 200 else 500.
Definition get_readyz (s : StateSnapshot) : Z := if is_ready s then 200 else 503.

(** ** The submission state: the enum [State] of [submission.rs] *)
Record CompletedSubmission := mk_completed { completed_celestia_height : Z; completed_sequencer_height : Z }.
Inductive FileState :=
| FileState_Fresh
| FileState_Started (last_submission : CompletedSubmission)
| FileState_Prepared (sequencer_height : Z) (last_submission : CompletedSubmission) (blob_tx_hash : BlobTxHash) (at_ : Z).
(** [serde_json] and the derived implementations; a time can be out of the range
    of RFC 3339. *)
Class StateJson := {
  json_of_state : FileState -> option string;
  state_of_json : string -> option FileState }.

Record FreshSubmission := mk_fresh_submission { }.
Record StartedSubmission := mk_started { started_last_submission : CompletedSubmission }.
Record PreparedSubmission := mk_prepared_submission {
  prepared_sequencer_height : Z;
  prepared_last_submission : CompletedSubmission;
  prepared_blob_tx_hash : BlobTxHash;
  created_at : Z }.
Inductive SubmissionStateAtStartup :=
| AtStartup_Fresh (s : FreshSubmission)
| AtStartup_Started (s : StartedSubmission)
| AtStartup_Prepared (s : PreparedSubmission).

(** ** The world *)
(** [polls] is the number of polls before a timeout, or before the process is killed. *)
Record Tick := mk_tick { io_succeeds : bool; clock : Z; polls : nat }.
Definition Report : Type := string.

Section world.
Context `{StateJson, CelestiaCodec, CelestiaApp}.

Record World := mk_world {
  state_file : option string;
  temp_file : option string;
  celestia : App;
  snapshot : StateSnapshot;
  ticks : list Tick }.
Definition upd_celestia (a : App) (w : World) : World :=
  mk_world (state_file w) (temp_file w) a (snapshot w) (ticks w).
Definition upd_snapshot (f : StateSnapshot -> StateSnapshot) (w : World) : World :=
  mk_world (state_file w) (temp_file w) (celestia w) (f (snapshot w)) (ticks w).
Definition upd_ticks (ts : list Tick) (w : World) : World :=
  mk_world (state_file w) (temp_file w) (celestia w) (snapshot w) ts.

(** [NoFuel] is the outcome of a process that was killed. *)
Definition IO (E A : Type) : Type := World -> run (result E A) * World.
#[export] Instance io_ret E : MRet (IO E) := fun A a w => (Val (Ok a), w).
#[export] Instance io_bind E : MBind (IO E) := fun A B f m w =>
  match m w with
  | (Val (Ok a), w) => f a w
  | (Val (Err e), w) => (Val (Err e), w)
  | (Panic, w) => (Panic, w)
  | (NoFuel, w) => (NoFuel, w)
  end.
Definition io_map_err {E E' A} (f : E -> E') (m : IO E A) : IO E' A := fun w =>
  match m w with
  | (Val (Ok a), w) => (Val (Ok a), w)
  | (Val (Err e), w) => (Val (Err (f e)), w)
  | (Panic, w) => (Panic, w)
  | (NoFuel, w) => (NoFuel, w)
  end.
(** The [Result] of a computation as a value *)
Definition io_try {E E' A} (m : IO E A) : IO E' (result E A) := fun w =>
  match m w with
  | (Val r, w) => (Val (Ok r), w)
  | (Panic, w) => (Panic, w)
  | (NoFuel, w) => (NoFuel, w)
  end.
Definition io_result {E A} (r : result E A) : IO E A := fun w => (Val r, w).
Definition io_run {E A} (r : run A) : IO E A := fun w =>
  (match r with Val a => Val (Ok a) | Panic => Panic | NoFuel => NoFuel end, w).
Definition io_modify {E} (f : World -> World) : IO E unit := fun w => (Val (Ok tt), f w).
Definition set_status {E} (f : StateSnapshot -> bool * StateSnapshot) : IO E unit :=
  io_modify (upd_snapshot (fun s => (f s).2)).
Definition io {E A} (f : World -> run (result E A) * World) : IO E A := f.
Definition tick {E} : IO E Tick := fun w =>
  match ticks w with [] => (NoFuel, w) | t :: ts => (Val (Ok t), upd_ticks ts w) end.

(** *** Files *)
Definition read_to_string : IO Report string :=
  t ← tick;
  io (fun w => (Val (if io_succeeds t then ok_or "failed reading submission state file" (state_file w)
                     else Err "failed reading submission state file"), w)).
(** A write that fails can leave anything in the file. *)
Definition write_temp_file (contents : string) : IO Report unit :=
  t ← tick;
  io (fun w =>
        if io_succeeds t then (Val (Ok tt), mk_world (state_file w) (Some contents) (celestia w) (snapshot w) (ticks w))
        else (Val (Err "failed writing submission state"),
              mk_world (state_file w) None (celestia w) (snapshot w) (ticks w))).
Definition rename_temp_file : IO Report unit :=
  t ← tick;
  io (fun w => match io_succeeds t, temp_file w with
               | true, Some contents => (Val (Ok tt), mk_world (Some contents) None (celestia w) (snapshot w) (ticks w))
               | _, _ => (Val (Err "failed moving the temp file"), w)
               end).
(** [SystemTime::now()] *)
Definition now {E} : IO E Z := t ← tick; mret (clock t).
(** A call of the Celestia client, that waits for its answer *)
Definition on_celestia {A} (m : nat -> CelestiaM A) : IO TrySubmitError A :=
  t ← tick;
  io (fun w => let '(r, a) := m (polls t) (celestia w) in (r, upd_celestia a w)).

(** One RPC of the Celestia app *)
Definition on_app {E A B} (call : App -> Response A * App) (f : Response A -> result E B) : IO E B :=
  tick;;
  io (fun w => let '(r, a) := call (celestia w) in (Val (f r), upd_celestia a w)).
(** [confirm_submission_with_timeout]: every poll follows a sleep of at least a second. *)
Definition SECOND : Z := 1000000000.
Definition confirm_within {E} (blob_tx_hash : BlobTxHash) (timeout : Z) : IO E (option Z) :=
  t ← tick;
  io (fun w => let '(height, a) := confirm_submission_with_timeout (Nat.min (polls t) (Z.to_nat (timeout / SECOND)))
                                     blob_tx_hash (celestia w) in
               (Val (Ok height), upd_celestia a w)).

(** ** [State] *)
Definition file_state_write (s : FileState) : IO Report unit :=
  contents ← io_result (ok_or "failed json-encoding submission state" (json_of_state s));
  write_temp_file contents;;
  rename_temp_file.
Definition file_state_read : IO Report FileState :=
  contents ← read_to_string;
  state ← io_result (ok_or "failed parsing the contents" (state_of_json contents));
  match state with
  | FileState_Fresh | FileState_Started _ => mret state
  | FileState_Prepared sequencer_height last_submission _ _ =>
      io_result (ensure (completed_sequencer_height last_submission <? sequencer_height)
                   "submission state file invalid");;
      mret state
  end.

(** ** [FreshSubmission], [StartedSubmission], [PreparedSubmission] *)
Definition fresh_into_started (_ : FreshSubmission) : StartedSubmission := mk_started (mk_completed 0 0).
Definition started_construct_and_write (last_submission : CompletedSubmission) : IO Report StartedSubmission :=
  file_state_write (FileState_Started last_submission);;
  mret (mk_started last_submission).
Definition last_submission_celestia_height (s : StartedSubmission) : Z :=
  completed_celestia_height (started_last_submission s).
Definition last_submission_sequencer_height (s : StartedSubmission) : Z :=
  completed_sequencer_height (started_last_submission s).
Definition prepared_construct_and_write (sequencer_height : Z) (last_submission : CompletedSubmission)
    (blob_tx_hash : BlobTxHash) : IO Report PreparedSubmission :=
  io_result (ensure (completed_sequencer_height last_submission <? sequencer_height)
               "cannot submit a sequencer block at height below or equal to what was already successfully submitted");;
  created_at ← now;
  file_state_write (FileState_Prepared sequencer_height last_submission blob_tx_hash created_at);;
  mret (mk_prepared_submission sequencer_height last_submission blob_tx_hash created_at).
Definition into_prepared (s : StartedSubmission) (new_sequencer_height : Z) (blob_tx_hash : BlobTxHash)
    : IO Report PreparedSubmission :=
  prepared_construct_and_write new_sequencer_height (started_last_submission s) blob_tx_hash.
(** Nanoseconds; [elapsed] is an error, and so zero, when the clock was set back. *)
Definition confirmation_timeout {E} (s : PreparedSubmission) : IO E Z :=
  time ← now;
  mret (Z.max (15 * SECOND) (saturating_sub (60 * SECOND) (Z.max 0 (time - created_at s)))).
Definition prepared_into_started (s : PreparedSubmission) (celestia_height : Z) : IO Report StartedSubmission :=
  started_construct_and_write (mk_completed celestia_height (prepared_sequencer_height s)).
Definition prepared_revert (s : PreparedSubmission) : IO Report StartedSubmission :=
  started_construct_and_write (prepared_last_submission s).

(** ** [SubmissionStateAtStartup] *)
Definition new_from_path : IO Report SubmissionStateAtStartup :=
  state ← file_state_read;
  io_map_err (fun _ => "failed writing just-read submission state to disk") (file_state_write state);;
  mret match state with
       | FileState_Fresh => AtStartup_Fresh mk_fresh_submission
       | FileState_Started last_submission => AtStartup_Started (mk_started last_submission)
       | FileState_Prepared sequencer_height last_submission blob_tx_hash at_ =>
           AtStartup_Prepared (mk_prepared_submission sequencer_height last_submission blob_tx_hash at_)
       end.
Definition last_completed_sequencer_height (s : SubmissionStateAtStartup) : option Z :=
  match s with
  | AtStartup_Fresh _ => None
  | AtStartup_Started s => Some (completed_sequencer_height (started_last_submission s))
  | AtStartup_Prepared s => Some (completed_sequencer_height (prepared_last_submission s))
  end.
End world.
