(* ===== verification/RelayerWrite.v ===== *)
(** * The relayer: reading blocks from the sequencer, writing them to Celestia

    [astria-sequencer-relayer/src/relayer/write/mod.rs], [read.rs], [mod.rs] and
    the client's [builder.rs].  Two tasks share a channel of sequencer blocks: the
    relayer fetches the blocks one after the other, the submitter collects them in
    the next submission and submits, with the submission state written to disk
    around every transaction.  The arms of the two [select!] loops are one function
    each; [relayer_step] lets them happen in any order that their guards allow, and
    lets the process be killed and started again.

    A submission in flight runs on its own: it touches the disk and Celestia, the
    two loops do not, so that it is run as a whole at the moment its result is
    taken, or up to where the process was killed. *)
From S2P Require Import Prelude Denom Types State Chain Ics20.
From S2P Require Import Wire WireActions WireLaws WireTransaction Collections.
From S2P Require Import MerkleIndex MerkleTree MerkleAudit Block SequencerBlock.
From S2P Require Import ConductorState BTree BlockCache CelestiaBlobs RelayerConversion RelayerClient RelayerState.
From stdpp Require Import base list option strings gmap numbers tactics.
From Stdlib Require Import ZArith Lia Ascii String.
Open Scope string_scope.
Open Scope Z_scope.

(** ** The client's builder *)
Inductive BuilderError :=
| FailedToGetNodeInfo (source : GrpcStatus)
| EmptyNodeInfo
| MismatchedCelestiaChainId (configured received : string).
Record CelestiaClientBuilder := mk_client_builder {
  configured_celestia_chain_id : string; builder_keys : CelestiaKeys; builder_address : string }.

(** ** Errors of a submission *)
Inductive SubmissionError :=
| SubmissionError_TrySubmit (source : TrySubmitError)
| SubmissionError_Unrecoverable (source : Report)
| SubmissionError_BroadcastTxTimedOut (prepared : PreparedSubmission).
Record StartedSubmissionAndFee := mk_started_and_fee { saf_new_state : StartedSubmission; saf_fee : option Z }.

Section write.
Context `{BlobWriter, StateJson, CelestiaCodec, CelestiaApp}.

(** ** [BlobSubmitter], with the variables of its loop *)
Record BlobSubmitter := mk_submitter {
  client : CelestiaClient;
  next_submission : NextSubmission;
  pending_block : option SequencerBlock;
  started_submission : StartedSubmission;
  ongoing_submission : option (Submission * StartedSubmission) }.
Definition sequencer_block_height (b : SequencerBlock) : Z := header_height (sb_header b).

(** ** Reading: [Heights] and [BlockStream] *)
Record Heights := mk_heights { last_observed : option Z; next_height : Z }.
Definition next_height_to_fetch (h : Heights) : option Z :=
  last_observed ← last_observed h;
  if next_height h <=? last_observed then Some (next_height h) else None.
Definition increment_next `{TendermintHeight} (h : Heights) : run Heights :=
  next ← height_increment (next_height h); Val (mk_heights (last_observed h) next).
Definition set_last_observed (height : Z) (h : Heights) : Heights := mk_heights (Some height) (next_height h).
(** [future] holds the height that the block is fetched for. *)
Record BlockStream := mk_block_stream {
  stream_heights : Heights; future : option Z; height_in_flight : option Z; paused : bool }.
Definition set_latest_sequencer_height (height : Z) (s : BlockStream) : BlockStream :=
  mk_block_stream (set_last_observed height (stream_heights s)) (future s) (height_in_flight s) (paused s).
Definition stream_pause (s : BlockStream) : BlockStream :=
  mk_block_stream (stream_heights s) (future s) (height_in_flight s) true.
Definition stream_resume (s : BlockStream) : BlockStream :=
  mk_block_stream (stream_heights s) (future s) (height_in_flight s) false.
(** [BlockStreamBuilder::build] *)
Definition block_stream_build `{TendermintHeight} (last_fetched_height : option Z) : run BlockStream :=
  next ← match last_fetched_height with None => Val 1 | Some last_fetched => height_increment last_fetched end;
  Val (mk_block_stream (mk_heights None next) None None false).
Inductive StreamPoll :=
| StreamPoll_Pending
| StreamPoll_Ended
| StreamPoll_Item (height : Z) (item : result Report SequencerBlock).

(** ** [Relayer], with the variables of its loop and its submitter task *)
Inductive SubmitterTask :=
| Task_Starting (submission_state_at_startup : SubmissionStateAtStartup)
| Task_Running (submitter : BlobSubmitter)
| Task_Finished (reason : result Report unit).
Record Session := mk_session {
  block_stream : BlockStream;
  forward_once_free : option SequencerBlock;
  channel : list SequencerBlock;
  submitter_task : SubmitterTask }.
Definition CHANNEL_SIZE : nat := 128.
Definition upd_stream (f : BlockStream -> BlockStream) (s : Session) : Session :=
  mk_session (f (block_stream s)) (forward_once_free s) (channel s) (submitter_task s).
Definition upd_forward (o : option SequencerBlock) (s : Session) : Session :=
  mk_session (block_stream s) o (channel s) (submitter_task s).
Definition upd_channel (l : list SequencerBlock) (s : Session) : Session :=
  mk_session (block_stream s) (forward_once_free s) l (submitter_task s).
Definition upd_task (t : SubmitterTask) (s : Session) : Session :=
  mk_session (block_stream s) (forward_once_free s) (channel s) t.
Record RelayerConfig := mk_relayer_config {
  sequencer_chain_id : string;
  celestia_client_builder : CelestiaClientBuilder;
  include_rollups : IncludeRollup;
  max_retries : nat }.

(** ** Starting the client *)
Definition fetch_celestia_chain_id : IO BuilderError string :=
  on_app app_node_info (fun r =>
    info ← map_err FailedToGetNodeInfo r;
    ok_or EmptyNodeInfo info).
Definition client_try_build (b : CelestiaClientBuilder) : IO BuilderError CelestiaClient :=
  received ← fetch_celestia_chain_id;
  io_result (ensure (String.eqb received (configured_celestia_chain_id b))
               (MismatchedCelestiaChainId (configured_celestia_chain_id b) received));;
  set_status (set_celestia_connected true);;
  mret (mk_celestia_client (builder_keys b) (builder_address b) received).
Fixpoint init_with_retry (retries : nat) (b : CelestiaClientBuilder) : IO BuilderError CelestiaClient :=
  r ← io_try (client_try_build b);
  match r, retries with
  | Ok c, _ => mret c
  | Err (MismatchedCelestiaChainId configured received), _ =>
      io_result (Err (MismatchedCelestiaChainId configured received))
  | Err e, O => io_result (Err e)
  | Err _, S retries => init_with_retry retries b
  end.

(** ** Confirming what an earlier session or attempt submitted *)
Definition try_confirm_submission_from_last_session (prepared_submission : PreparedSubmission)
    : IO Report StartedSubmission :=
  timeout ← confirmation_timeout prepared_submission;
  confirmed ← confirm_within (prepared_blob_tx_hash prepared_submission) timeout;
  new_state ← match confirmed with
              | Some celestia_height => prepared_into_started prepared_submission celestia_height
              | None => prepared_revert prepared_submission
              end;
  set_status (set_latest_confirmed_celestia_height (last_submission_celestia_height new_state));;
  mret new_state.
Definition try_confirm_submission_from_failed_attempt (prepared_submission : PreparedSubmission)
    : IO SubmissionError (option StartedSubmission) :=
  timeout ← confirmation_timeout prepared_submission;
  confirmed ← confirm_within (prepared_blob_tx_hash prepared_submission) timeout;
  match confirmed with
  | Some celestia_height =>
      new_state ← io_map_err SubmissionError_Unrecoverable (prepared_into_started prepared_submission celestia_height);
      mret (Some new_state)
  | None => mret None
  end.

(** ** Submitting *)
Definition prepare_and_submit (c : CelestiaClient) (blobs : list Blob) (started_submission : StartedSubmission)
    (largest_sequencer_height : Z) (maybe_try_submit_error : option TrySubmitError)
    : IO SubmissionError StartedSubmissionAndFee :=
  tx_and_fee ← io_map_err SubmissionError_TrySubmit
                 (on_celestia (fun _ => try_prepare c blobs maybe_try_submit_error));
  let hash := blob_tx_hash (btf_tx tx_and_fee) in
  prepared_submission ← io_map_err SubmissionError_Unrecoverable
                          (into_prepared started_submission largest_sequencer_height hash);
  submitted ← io_try (on_celestia (fun polls => client_try_submit polls (btf_tx tx_and_fee)));
  match submitted with
  | Ok celestia_height =>
      new_state ← io_map_err SubmissionError_Unrecoverable (prepared_into_started prepared_submission celestia_height);
      mret (mk_started_and_fee new_state (Some (btf_fee tx_and_fee)))
  | Err (FailedToBroadcastTx status) =>
      io_result (Err (if is_timeout status then SubmissionError_BroadcastTxTimedOut prepared_submission
                      else SubmissionError_TrySubmit (FailedToBroadcastTx status)))
  | Err error => io_result (Err (SubmissionError_TrySubmit error))
  end.
Definition try_submit (c : CelestiaClient) (blobs : list Blob) (started_submission : StartedSubmission)
    (largest_sequencer_height : Z) (maybe_last_error : option SubmissionError)
    : IO SubmissionError StartedSubmissionAndFee :=
  match maybe_last_error with
  | Some (SubmissionError_BroadcastTxTimedOut prepared_submission) =>
      confirmed ← try_confirm_submission_from_failed_attempt prepared_submission;
      match confirmed with
      | Some new_state => mret (mk_started_and_fee new_state None)
      | None => prepare_and_submit c blobs started_submission largest_sequencer_height None
      end
  | Some (SubmissionError_TrySubmit error) =>
      prepare_and_submit c blobs started_submission largest_sequencer_height (Some error)
  | Some (SubmissionError_Unrecoverable _) => io_run Panic
  | None => prepare_and_submit c blobs started_submission largest_sequencer_height None
  end.
(** [retries] is [u32::MAX] in the code. *)
Fixpoint submit_with_retry (retries : nat) (c : CelestiaClient) (blobs : list Blob)
    (started_submission : StartedSubmission) (largest_sequencer_height : Z) (last_error : option SubmissionError)
    : IO SubmissionError StartedSubmissionAndFee :=
  r ← io_try (try_submit c blobs started_submission largest_sequencer_height last_error);
  match r, retries with
  | Ok submitted, _ => mret submitted
  | Err (SubmissionError_Unrecoverable e), _ => io_result (Err (SubmissionError_Unrecoverable e))
  | Err e, O => io_result (Err e)
  | Err e, S retries =>
      set_status (set_celestia_connected false);;
      submit_with_retry retries c blobs started_submission largest_sequencer_height (Some e)
  end.
Definition submit_blobs (retries : nat) (c : CelestiaClient) (data : Submission) (started_submission : StartedSubmission)
    : IO Report StartedSubmission :=
  largest_sequencer_height ← io_run (submission_height data);
  submitted ← io_map_err (fun _ => "failed submitting blobs to Celestia")
                (submit_with_retry retries c (payload_blobs (sub_payload data)) started_submission
                   largest_sequencer_height None);
  let new_state := saf_new_state submitted in
  set_status (set_celestia_connected true);;
  set_status (set_latest_confirmed_celestia_height (last_submission_celestia_height new_state));;
  mret new_state.

(** ** The submitter's loop *)
(** The new state, and why the loop is left, if it is *)
Definition Turn : Type := run (BlobSubmitter * option Report).
Definition add_sequencer_block_to_next_submission (order : HashOrder) (block : SequencerBlock) (s : BlobSubmitter) : Turn :=
  r ← try_add order block (next_submission s);
  Val match r with
      | Ok n => (mk_submitter (client s) n (pending_block s) (started_submission s) (ongoing_submission s), None)
      | Err (TryAddError_Full block) =>
          (mk_submitter (client s) (next_submission s) (Some block) (started_submission s) (ongoing_submission s), None)
      | Err _ => (s, Some "critically failed adding Sequencer block to next submission")
      end.
Definition has_capacity (s : BlobSubmitter) : bool := match pending_block s with None => true | Some _ => false end.
(** The arm of [next_submission.take()], which is tried when no submission is in flight *)
Definition on_take (order : HashOrder) (s : BlobSubmitter) : Turn :=
  match take_submission (next_submission s) with
  | (None, n) => Val (mk_submitter (client s) n (pending_block s) (started_submission s) (ongoing_submission s), None)
  | (Some data, n) =>
      let s' pending := mk_submitter (client s) n pending (started_submission s) (Some (data, started_submission s)) in
      match pending_block s with
      | Some block => add_sequencer_block_to_next_submission order block (s' None)
      | None => Val (s' None, None)
      end
  end.
(** The arm of [blocks.recv()], which is tried when there is capacity *)
Definition on_receive (order : HashOrder) (block : SequencerBlock) (s : BlobSubmitter) : Turn :=
  if sequencer_block_height block <=? last_submission_sequencer_height (started_submission s) then Val (s, None)
  else add_sequencer_block_to_next_submission order block s.
(** The arm of the submission in flight *)
Definition on_submitted (retries : nat) (data : Submission) (started : StartedSubmission) (s : BlobSubmitter)
    : IO Report BlobSubmitter :=
  new_state ← submit_blobs retries (client s) data started;
  mret (mk_submitter (client s) (next_submission s) (pending_block s) new_state None).
(** What is in flight is awaited, whatever it returns. *)
Definition ongoing_submission_termination (retries : nat) (s : BlobSubmitter) : IO Report unit :=
  match ongoing_submission s with
  | None => mret tt
  | Some (data, started) => io_try (E := Report) (submit_blobs retries (client s) data started);; mret tt
  end.
(** The part of [run] before the loop *)
Definition submitter_start (cfg : RelayerConfig) (submission_state_at_startup : SubmissionStateAtStartup)
    : IO Report BlobSubmitter :=
  c ← io_map_err (fun _ => "failed to initialize celestia client")
        (init_with_retry (max_retries cfg) (celestia_client_builder cfg));
  started ← match submission_state_at_startup with
            | AtStartup_Fresh fresh => mret (fresh_into_started fresh)
            | AtStartup_Started started => mret started
            | AtStartup_Prepared prepared => try_confirm_submission_from_last_session prepared
            end;
  mret (mk_submitter c (next_submission_new (include_rollups cfg)) None started None).

(** ** Reading *)
(** [responses] are those that the retried request got so far. *)
Fixpoint fetch_with_retry (retries : nat) (responses : list (Response RawSequencerBlock))
    : IO Report (option (result Report RawSequencerBlock)) :=
  match responses, retries with
  | [], _ => mret None
  | Ok raw :: _, _ => mret (Some (Ok raw))
  | Err _ :: _, O => mret (Some (Err "retry attempts exhausted; bailing"))
  | Err _ :: responses, S retries =>
      set_status (set_sequencer_connected false);;
      fetch_with_retry retries responses
  end.
Definition fetch_block (retries : nat) (responses : list (Response RawSequencerBlock)) (height : Z)
    : IO Report (option (result Report SequencerBlock)) :=
  answer ← fetch_with_retry retries responses;
  match answer with
  | None => mret None
  | Some (Err e) => mret (Some (Err e))
  | Some (Ok raw) =>
      maybe_block ← io_run (block_try_from_raw raw);
      set_status (set_sequencer_connected (is_ok maybe_block));;
      mret (Some (block ← map_err (fun _ => "failed to parse raw proto block from grpc response") maybe_block;
                  ensure (height =? sequencer_block_height block) "received a block at another height";;
                  Ok block))
  end.
Context `{TendermintHeight}.
(** The loop of [poll_next] runs at most twice: it starts a fetch when there is none. *)
Definition start_fetch (s : BlockStream) : IO Report BlockStream :=
  match future s with
  | Some _ => mret s
  | None =>
      if paused s then mret s
      else match next_height_to_fetch (stream_heights s) with
           | None => mret s
           | Some height =>
               set_status (set_latest_requested_sequencer_height height);;
               heights ← io_run (increment_next (stream_heights s));
               mret (mk_block_stream heights (Some height) (Some height) (paused s))
           end
  end.
Definition poll_next (retries : nat) (responses : Z -> list (Response RawSequencerBlock)) (s : BlockStream)
    : IO Report (StreamPoll * BlockStream) :=
  s ← start_fetch s;
  match future s with
  | None => mret (StreamPoll_Ended, s)
  | Some requested =>
      item ← fetch_block retries (responses requested) requested;
      match item with
      | None => mret (StreamPoll_Pending, s)
      | Some item =>
          height ← io_run (unwrap (height_in_flight s));
          mret (StreamPoll_Item height item, mk_block_stream (stream_heights s) None None (paused s))
      end
  end.

(** ** The relayer's loop *)
Definition handle_latest_height (res : result Report Z) (s : Session) : IO Report Session :=
  match res with
  | Ok height =>
      set_status (set_latest_observed_sequencer_height height);;
      mret (upd_stream (set_latest_sequencer_height height) s)
  | Err _ => set_status (set_sequencer_connected false);; mret s
  end.
Inductive TrySendError := TrySendError_Full (block : SequencerBlock) | TrySendError_Closed.
Definition is_finished (t : SubmitterTask) : bool := match t with Task_Finished _ => true | _ => false end.
Definition submitter_try_send (block : SequencerBlock) (s : Session) : result TrySendError Session :=
  if is_finished (submitter_task s) then Err TrySendError_Closed
  else if (List.length (channel s) <? CHANNEL_SIZE)%nat then Ok (upd_channel (channel s ++ [block])%list s)
  else Err (TrySendError_Full block).
Definition forward_block_for_submission (block : SequencerBlock) (s : Session) : IO Report Session :=
  io_run (assert_that (match forward_once_free s with None => true | Some _ => false end));;
  match submitter_try_send block s with
  | Ok s => mret s
  | Err (TrySendError_Full block) => mret (upd_forward (Some block) (upd_stream stream_pause s))
  | Err TrySendError_Closed => io_result (Err "blob submitter has shut down unexpectedly")
  end.
(** The arm of the forwarding future, which resolves when the channel has room *)
Definition on_forwarded (block : SequencerBlock) (s : Session) : IO Report Session :=
  match submitter_try_send block s with
  | Ok s => mret (upd_forward None (upd_stream stream_resume s))
  | Err (TrySendError_Full _) => mret s
  | Err TrySendError_Closed => io_result (Err "submitter exited unexpectedly while trying to forward block")
  end.
Definition on_block (retries : nat) (responses : Z -> list (Response RawSequencerBlock)) (s : Session) : IO Report Session :=
  polled ← poll_next retries responses (block_stream s);
  let s := upd_stream (fun _ => polled.2) s in
  match polled.1 with
  | StreamPoll_Item height (Ok block) =>
      set_status (set_latest_fetched_sequencer_height height);;
      forward_block_for_submission block s
  | StreamPoll_Item _ (Err e) => io_result (Err e)
  | _ => mret s
  end.
(** [run] before the loop; [received] is the chain id that the sequencer reports. *)
Definition confirm_sequencer_chain_id (configured received : string) : result Report unit :=
  ensure (String.eqb received configured) "configured sequencer chain ID does not match received".
Definition relayer_start (cfg : RelayerConfig) (received : string) : IO Report Session :=
  submission_state_at_startup ← new_from_path;
  io_result (confirm_sequencer_chain_id (sequencer_chain_id cfg) received);;
  stream ← io_run (block_stream_build (last_completed_sequencer_height submission_state_at_startup));
  io_modify (upd_snapshot set_ready);;
  mret (mk_session stream None [] (Task_Starting submission_state_at_startup)).

(** ** The program *)
(** A session goes on, ends with an error or a panic, or is killed. *)
Definition relayer_outcome (r : run (result Report Session)) : option Session :=
  match r with Val (Ok s) => Some s | _ => None end.
Definition submitter_outcome (s : Session) (r : run (result Report BlobSubmitter)) : option Session :=
  match r with
  | Val (Ok b) => Some (upd_task (Task_Running b) s)
  | Val (Err e) => Some (upd_task (Task_Finished (Err e)) s)
  | Panic => Some (upd_task (Task_Finished (Err "panic")) s)
  | NoFuel => None
  end.
(** The end of a turn of the submitter: it goes on, or awaits what is in flight *)
Definition after_turn (retries : nat) (t : Turn) : IO Report BlobSubmitter :=
  t ← io_run t;
  match t with
  | (s, None) => mret s
  | (s, Some reason) => ongoing_submission_termination retries s;; io_result (Err reason)
  end.
Definition with_ticks (ts : list Tick) {E A} (m : IO E A) : IO E A := fun w => m (upd_ticks ts w).
Definition Program : Type := option Session * World.
Inductive relayer_step (cfg : RelayerConfig) : Program -> Program -> Prop :=
| step_start w ts received r w' :
    with_ticks ts (relayer_start cfg received) w = (r, w') ->
    relayer_step cfg (None, w) (relayer_outcome r, w')
| step_latest_height s w ts res r w' :
    with_ticks ts (handle_latest_height res s) w = (r, w') ->
    relayer_step cfg (Some s, w) (relayer_outcome r, w')
| step_forwarded s w ts block r w' :
    forward_once_free s = Some block ->
    with_ticks ts (on_forwarded block s) w = (r, w') ->
    relayer_step cfg (Some s, w) (relayer_outcome r, w')
| step_block s w ts responses r w' :
    with_ticks ts (on_block (max_retries cfg) responses s) w = (r, w') ->
    relayer_step cfg (Some s, w) (relayer_outcome r, w')
| step_submitter_start s w ts startup r w' :
    submitter_task s = Task_Starting startup ->
    with_ticks ts (submitter_start cfg startup) w = (r, w') ->
    relayer_step cfg (Some s, w) (submitter_outcome s r, w')
| step_submitted s w ts b data started r w' :
    submitter_task s = Task_Running b -> ongoing_submission b = Some (data, started) ->
    with_ticks ts (on_submitted (max_retries cfg) data started b) w = (r, w') ->
    relayer_step cfg (Some s, w) (submitter_outcome s r, w')
| step_take s w ts order b r w' :
    (forall l, order l ≡ₚ l) ->
    submitter_task s = Task_Running b -> ongoing_submission b = None ->
    with_ticks ts (after_turn (max_retries cfg) (on_take order b)) w = (r, w') ->
    relayer_step cfg (Some s, w) (submitter_outcome s r, w')
| step_receive s w ts order b block rest r w' :
    (forall l, order l ≡ₚ l) ->
    submitter_task s = Task_Running b -> has_capacity b = true -> channel s = block :: rest ->
    with_ticks ts (after_turn (max_retries cfg) (on_receive order block b)) w = (r, w') ->
    relayer_step cfg (Some s, w) (submitter_outcome (upd_channel rest s) r, w')
| step_submitter_returned s w reason :
    submitter_task s = Task_Finished reason ->
    relayer_step cfg (Some s, w) (None, w)
| step_shutdown s w ts b r w' :
    submitter_task s = Task_Running b ->
    with_ticks ts (ongoing_submission_termination (max_retries cfg) b) w = (r, w') ->
    relayer_step cfg (Some s, w) (None, w')
| step_killed s w : relayer_step cfg (Some s, w) (None, w).
End write.
