(* ===== verification/RelayerTheorems.v ===== *)
(** * What the next submission holds

    The relayer's input as a function of the blocks that were added, its
    payload as the blobs of that input, and what the conductor of a rollup reads back
    from them, collisions of namespaces included. *)
From S2P Require Import Prelude Denom Types State Chain Ics20 Wire WireActions.
From S2P Require Import WireLaws WireTransaction Collections MerkleIndex MerkleTree MerkleAudit MerkleCorrect.
From S2P Require Import Block SequencerBlock BlockLemmas BlockTheorems ConductorState.
From S2P Require Import BTree BlockCache CelestiaBlobs RelayerConversion CommitQuorum.
From S2P Require Import CelestiaTheorems.
From stdpp Require Import base list option strings gmap numbers tactics.
From Stdlib Require Import ZArith Lia Ascii String Strings.Byte.
Open Scope string_scope.
Open Scope Z_scope.

Section input.
Context `{BlobWriter} {laws : BlockLaws}.

Definition rollup_datas_of (f : IncludeRollup) (bs : list SequencerBlock) : list SubmittedRollupData :=
  filter (fun d => should_include f (srd_rollup_id d) = true) (List.concat ((fun b => (split_for_celestia b).2) <$> bs)).
Definition namespace_of (id : RollupId) : string := substring 0 NS_ID_V0_SIZE id.
Definition in_namespace (ns : string) (l : list SubmittedRollupData) : list SubmittedRollupData :=
  filter (fun d => namespace_of (srd_rollup_id d) = ns) l.
(** The namespace of the first block's chain *)
Definition chain_namespace (b : SequencerBlock) : string :=
  substring 0 NS_ID_V0_SIZE (sha256 (header_chain_id (sb_header b))).

(** The entries of a namespace, if there is one *)
Definition entries_of (ns : string) (l : list SubmittedRollupData) : option (list RawSubmittedRollupData) :=
  match in_namespace ns l with [] => None | l => Some (submitted_rollup_into_raw <$> l) end.
Record input_holds (f : IncludeRollup) (bs : list SequencerBlock) (i : Input) : Prop := {
  holds_metadata : in_metadata i = (fun b => metadata_into_raw (split_for_celestia b).1) <$> bs;
  holds_namespace : im_sequencer_namespace (in_meta i) = match bs with [] => None | b :: _ => Some (chain_namespace b) end;
  holds_unique : unique (rollup_data_for_namespace i);
  holds_data ns : index_get ns (rollup_data_for_namespace i) = entries_of ns (rollup_datas_of f bs);
  holds_heights : sequencer_heights (in_meta i) = list_to_set ((fun b => header_height (sb_header b)) <$> bs) }.

Lemma input_new_holds f : input_holds f [] input_new.
Proof. split; cbn; try done. constructor. Qed.

Lemma rollup_namespace_val id : rollup_id_valid id -> namespace_v0_from_rollup_id id = Val (namespace_of id).
Proof.
  unfold rollup_id_valid, namespace_v0_from_rollup_id, namespace_v0_from_first_10_bytes. intros Hid.
  by rewrite (proj2 (Nat.ltb_ge _ _)) by (unfold NS_ID_V0_SIZE; lia).
Qed.
Lemma sequencer_namespace_val b :
  sequencer_namespace (metadata_into_raw (split_for_celestia b).1) = Val (chain_namespace b).
Proof.
  unfold sequencer_namespace. cbn [split_for_celestia from_sequencer_block fst metadata_into_raw raw_sm_header unwrap mbind run_bind
    sm_header header_into_raw raw_header_chain_id].
  unfold namespace_v0_from_sha256_of_bytes, namespace_v0_from_first_10_bytes.
  rewrite (proj2 (Nat.ltb_ge _ _)); [done|]. rewrite sha256_length. unfold NS_ID_V0_SIZE. lia.
Qed.

Lemma entries_snoc ns l d : entries_of ns (l ++ [d]) =
  if decide (namespace_of (srd_rollup_id d) = ns) then
    Some (default [] (entries_of ns l) ++ [submitted_rollup_into_raw d])%list
  else entries_of ns l.
Proof.
  unfold entries_of, in_namespace. rewrite list.filter_app, list.filter_cons, list.filter_nil. case_decide.
  - destruct (filter _ l) as [|x l']; cbn; [done|]. by rewrite fmap_app.
  - by rewrite app_nil_r.
Qed.

(** What the loop over the rollup data of a block leaves alone and adds *)
Lemma add_all_holds f data : forall acc i,
  Forall (fun d => rollup_id_valid (srd_rollup_id d)) data ->
  unique (rollup_data_for_namespace i) ->
  (forall ns, index_get ns (rollup_data_for_namespace i) = entries_of ns acc) ->
  exists i', add_all_rollup_data f data i = Val i' /\
    in_metadata i' = in_metadata i /\
    im_sequencer_namespace (in_meta i') = im_sequencer_namespace (in_meta i) /\
    sequencer_heights (in_meta i') = sequencer_heights (in_meta i) /\
    unique (rollup_data_for_namespace i') /\
    forall ns, index_get ns (rollup_data_for_namespace i') =
      entries_of ns (acc ++ filter (fun d => should_include f (srd_rollup_id d) = true) data)%list.
Proof.
  induction data as [|d data IH]; intros acc i Hvalid Hu Hget; cbn [add_all_rollup_data].
  - exists i. split_and!; try done. intros ns. cbn. by rewrite app_nil_r.
  - apply list.Forall_cons in Hvalid as [Hd Hvalid]. unfold add_rollup_data. rewrite list.filter_cons.
    destruct (should_include f (srd_rollup_id d)) eqn:Hinc.
    + rewrite rollup_namespace_val by done. cbn [mbind run_bind]. rewrite decide_True by done.
      destruct (IH (acc ++ [d])%list (mk_input (in_metadata i)
        (index_update [] (fun l => l ++ [submitted_rollup_into_raw d])%list (namespace_of (srd_rollup_id d))
          (rollup_data_for_namespace i))
        (mk_input_meta (sequencer_heights (in_meta i)) (im_sequencer_namespace (in_meta i))
          (<[srd_rollup_id d := namespace_of (srd_rollup_id d)]> (rollups_included (in_meta i)))
          (rollups_excluded (in_meta i))))) as (i' & Hrun & Hm & Hn & Hh & Hu' & Hg); [done| | |].
      * by apply index_update_unique.
      * intros ns. cbn. rewrite index_update_get, entries_snoc, !Hget. case_decide as Hns; [|done]. by rewrite Hns.
      * exists i'. split_and!; try done. intros ns. by rewrite Hg, <- app_assoc.
    + cbn [mbind run_bind]. rewrite decide_False by done.
      destruct (IH acc (upd_meta (fun m => mk_input_meta (sequencer_heights m) (im_sequencer_namespace m)
        (rollups_included m) ({[srd_rollup_id d]} ∪ rollups_excluded m)) i)) as (i' & Hrun & Hm & Hn & Hh & Hu' & Hg); [done..|].
      by exists i'.
Qed.

Definition ids_valid (b : SequencerBlock) : Prop := Forall (fun kv => rollup_id_valid kv.1) (sb_rollup_transactions b).
Lemma block_ok_ids b : block_ok b -> ids_valid b.
Proof. intros Hb. eapply list.Forall_impl; [apply (block_rollups _ Hb)|]. intros kv Hok. apply Hok. Qed.
Lemma extend_holds f bs b i : input_holds f bs i -> ids_valid b ->
  exists i', extend_from_sequencer_block b f i = Val i' /\ input_holds f (bs ++ [b]) i'.
Proof.
  intros [Hm Hn Hu Hd Hh] Hb. unfold extend_from_sequencer_block.
  destruct (split_for_celestia b) as [m datas] eqn:Hsplit.
  assert (Forall (fun d => rollup_id_valid (srd_rollup_id d)) datas) as Hvalid.
  { injection Hsplit as _ <-. apply list.Forall_fmap. eapply list.Forall_impl; [exact Hb|]. by intros [id t]. }
  assert (metadata_into_raw m = metadata_into_raw (split_for_celestia b).1) as Hraw by (by rewrite Hsplit).
  assert (match im_sequencer_namespace (in_meta i) with
    | Some namespace => Val namespace | None => sequencer_namespace (metadata_into_raw m) end =
    Val (match bs ++ [b] with [] => "" | b :: _ => chain_namespace b end)%list) as Hns.
  { rewrite Hn. destruct bs; [|done]. rewrite Hraw. apply sequencer_namespace_val. }
  rewrite Hns. cbn [mbind run_bind].
  destruct (add_all_holds f datas (rollup_datas_of f bs) (mk_input (in_metadata i ++ [metadata_into_raw m])%list
    (rollup_data_for_namespace i) (mk_input_meta ({[header_height (sb_header b)]} ∪ sequencer_heights (in_meta i))
      (Some (match bs ++ [b] with [] => "" | b :: _ => chain_namespace b end)%list)
      (rollups_included (in_meta i)) (rollups_excluded (in_meta i)))) Hvalid Hu Hd)
    as (i' & Hrun & Hm' & Hn' & Hh' & Hu' & Hd').
  exists i'. split; [exact Hrun|]. split.
  - rewrite Hm'. cbn. rewrite Hm, fmap_app, Hraw. done.
  - rewrite Hn'. cbn. by destruct bs.
  - done.
  - intros ns. rewrite Hd'. unfold rollup_datas_of. rewrite fmap_app, concat_app, list.filter_app.
    assert (List.concat ((fun b => (split_for_celestia b).2) <$> [b]) = datas) as ->; [|done].
    cbn [fmap list_fmap List.concat]. by rewrite Hsplit, app_nil_r.
  - rewrite Hh'. cbn. rewrite Hh, fmap_app, list_to_set_app_L. cbn. set_solver.
Qed.
End input.

(** * From the relayer through Celestia to the executor

    What the relayer posts for a list of blocks is what the conductor of a
    rollup reads back, as long as no other rollup shares its namespace; one that
    does takes over the rollup's firm blocks. *)

(** ** Adding blocks one after the other *)
Section adding.
Context `{BlobWriter} {laws : BlockLaws}.

Fixpoint try_add_all (order : HashOrder) (bs : list SequencerBlock) (n : NextSubmission)
    : attempt TryAddError NextSubmission :=
  match bs with [] => mret n | b :: bs => n ← try_add order b n; try_add_all order bs n end.

Record submission_ok (order : HashOrder) (f : IncludeRollup) (bs : list SequencerBlock) (n : NextSubmission) : Prop := {
  sub_filter : rollup_filter n = f;
  sub_holds : input_holds f bs (ns_input n);
  sub_payload_of : match bs with
                   | [] => ns_payload n = payload_new
                   | _ => try_into_payload order (ns_input n) = Ok (ns_payload n)
                   end;
  sub_small : compressed_size (ns_payload n) <= MAX_PAYLOAD_SIZE_BYTES }.

Lemma next_submission_new_ok order f : submission_ok order f [] (next_submission_new f).
Proof. split; [done|apply input_new_holds|done|done]. Qed.
Lemma try_add_ok order old f bs b n n' : submission_ok old f bs n -> ids_valid b ->
  try_add order b n = Val (Ok n') -> submission_ok order f (bs ++ [b]) n'.
Proof.
  intros [Hf Hi _ _] Hb Hadd. unfold try_add in Hadd. rewrite Hf in Hadd.
  destruct (extend_holds f bs b (ns_input n) Hi Hb) as (i' & Hext & Hi'). rewrite Hext in Hadd. cbn [running mbind attempt_bind] in Hadd.
  destruct (try_into_payload order i') as [p|] eqn:Hp; cbn [map_err checked mbind attempt_bind] in Hadd; [|done].
  destruct (Z.leb_spec (compressed_size p) MAX_PAYLOAD_SIZE_BYTES); [|by destruct (_ =? _)%nat].
  injection Hadd as <-. split; cbn; [done|done| |done]. by destruct bs.
Qed.
Lemma try_add_all_ok order f new : forall bs n n', submission_ok order f bs n -> Forall block_ok new ->
  try_add_all order new n = Val (Ok n') -> submission_ok order f (bs ++ new) n'.
Proof.
  induction new as [|b new IH]; intros bs n n' Hok Hnew; cbn [try_add_all].
  - intros [= <-]. by rewrite app_nil_r.
  - apply list.Forall_cons in Hnew as [Hb Hnew]. intros (n1 & Hadd & Hrest)%attempt_bind_Ok.
    replace (bs ++ b :: new)%list with ((bs ++ [b]) ++ new)%list by (by rewrite <- app_assoc).
    eapply IH; [|done|exact Hrest]. eapply try_add_ok; [done| |done]. by apply block_ok_ids.
Qed.

(** ** The blobs of a payload *)
Definition blob_of (namespace encoded : string) (b : Blob) : Prop :=
  blob_namespace b = namespace /\ compress_bytes encoded = Some (blob_data b).
Lemma payload_try_add_blob ns encoded p p' : payload_try_add ns encoded p = Ok p' ->
  exists b, payload_blobs p' = (payload_blobs p ++ [b])%list /\ blob_of ns encoded b.
Proof.
  unfold payload_try_add. destruct (compress_bytes encoded) as [c|] eqn:Hc; cbn; [|done].
  destruct (blob_new_accepts ns c); cbn; [|done]. intros [= <-]. cbn. by exists (mk_blob ns c).
Qed.
Lemma add_namespaces_blobs data : forall p p', add_namespaces data p = Ok p' ->
  exists bs, payload_blobs p' = (payload_blobs p ++ bs)%list /\
    Forall2 (fun kv b => blob_of kv.1 (encode_rollup_data_list kv.2) b) data bs.
Proof.
  induction data as [|[ns es] data IH]; intros p p'; cbn.
  - intros [= <-]. exists []. by rewrite app_nil_r.
  - destruct (payload_try_add ns _ p) as [p1|] eqn:Hp; cbn; [|done]. intros Hrest.
    destruct (payload_try_add_blob _ _ _ _ Hp) as (b & Hb & Hof). destruct (IH _ _ Hrest) as (bs & Hbs & Hall).
    exists (b :: bs). split; [|by constructor]. by rewrite Hbs, Hb, <- app_assoc.
Qed.
Lemma try_into_payload_blobs order i p ns : try_into_payload order i = Ok p ->
  im_sequencer_namespace (in_meta i) = Some ns ->
  exists b bs, payload_blobs p = b :: bs /\ blob_of ns (encode_metadata_list (in_metadata i)) b /\
    Forall2 (fun kv b => blob_of kv.1 (encode_rollup_data_list kv.2) b) (order (rollup_data_for_namespace i)) bs.
Proof.
  unfold try_into_payload. intros Hp Hns. destruct (checked_add _ _ _); cbn in Hp; [|done].
  rewrite Hns in Hp. cbn in Hp. destruct (payload_try_add ns _ _) as [p1|] eqn:Hp1; cbn in Hp; [|done].
  destruct (payload_try_add_blob _ _ _ _ Hp1) as (b & Hb & Hof). destruct (add_namespaces_blobs _ _ _ Hp) as (bs & Hbs & Hall).
  exists b, bs. rewrite Hbs, Hb. done.
Qed.
(** The blobs of one namespace among those of a map *)
Lemma namespace_blobs ns data bs : unique data ->
  Forall2 (fun kv b => blob_of kv.1 (encode_rollup_data_list kv.2) b) data bs ->
  Forall2 (fun es b => blob_of ns (encode_rollup_data_list es) b) (option_list (index_get ns data))
    (filter (fun b => blob_namespace b = ns) bs).
Proof.
  intros Hu Hall. induction Hall as [|[k es] b data bs Hb Hall IH]; [constructor|].
  unfold unique in Hu. cbn in Hu. apply list.NoDup_cons in Hu as [Hk Hu]. cbn in Hb.
  rewrite list.filter_cons. cbn [index_get]. destruct Hb as [Hbns Hbc]. cbn in Hbns, Hbc. rewrite Hbns.
  destruct (decide (k = ns)) as [->|]; [|by apply IH].
  assert (filter (fun b => blob_namespace b = ns) bs = []) as ->.
  { specialize (IH Hu). apply index_get_None in Hk. rewrite Hk in IH. by inversion IH. }
  constructor; [by split|constructor].
Qed.
End adding.

(** ** Reading back what was posted *)
(** Brotli and protobuf: what is decompressed and decoded is what was encoded
    and compressed. *)
Class BlobLaws `{BlobCodec} `{!BlobWriter} : Prop := {
  decompress_inverse s c : compress_bytes s = Some c -> decompress_bytes c = Some s;
  metadata_list_inverse l : decode_metadata_list (encode_metadata_list l) = Some l;
  rollup_data_list_inverse l : decode_rollup_data_list (encode_rollup_data_list l) = Some l }.

Section reading.
Context `{BlobLaws} {laws : BlockLaws}.

(** The Celestia node, when the blobs were included at the height *)
Definition served_blobs (height : Z) (blobs : list Blob) (h : Z) (namespace : string)
    : result string (option (list Blob)) :=
  Ok (if h =? height then Some (filter (fun b => blob_namespace b = namespace) blobs) else None).

Lemma rollup_blob_carried ns es blob : blob_of ns (encode_rollup_data_list (submitted_rollup_into_raw <$> es)) blob ->
  carries ns convert_blob_to_rollup_data_list submitted_rollup_into_raw blob es.
Proof.
  intros [Hns Hc]. split; [done|]. unfold convert_blob_to_rollup_data_list.
  rewrite (decompress_inverse _ _ Hc). cbn. apply rollup_data_list_inverse.
Qed.
Lemma metadata_blob_carried ns ms blob : blob_of ns (encode_metadata_list (metadata_into_raw <$> ms)) blob ->
  carries ns convert_blob_to_header_list metadata_into_raw blob ms.
Proof.
  intros [Hns Hc]. split; [done|]. unfold convert_blob_to_header_list.
  rewrite (decompress_inverse _ _ Hc). cbn. apply metadata_list_inverse.
Qed.

(** The entries of a rollup's namespace are the rollup's own. *)
Lemma block_entries f id b (l : IndexMap RollupId RollupTransactions) : unique l -> should_include f id = true ->
  (forall other t, (other, t) ∈ l -> namespace_of other = namespace_of id -> other = id) ->
  in_namespace (namespace_of id) (filter (fun d => should_include f (srd_rollup_id d) = true)
    ((fun kv => blob_of_rollup b kv.1 kv.2) <$> l)) = option_list (blob_of_rollup b id <$> index_get id l).
Proof.
  intros Hu Hinc Hns. unfold in_namespace. induction l as [|[k t] l IH]; [done|].
  unfold unique in Hu. cbn in Hu. apply list.NoDup_cons in Hu as [Hk Hu].
  assert (forall other t, (other, t) ∈ l -> namespace_of other = namespace_of id -> other = id) as Hl.
  { intros other t' Hin. apply (Hns other t'). by right. }
  specialize (IH Hu Hl). rewrite fmap_cons, list.filter_cons. cbn [srd_rollup_id blob_of_rollup fst snd index_get].
  destruct (decide (k = id)) as [->|Hne].
  - rewrite decide_True by done. rewrite list.filter_cons. cbn [srd_rollup_id blob_of_rollup].
    rewrite decide_True by done. apply index_get_None in Hk. rewrite Hk in IH. by rewrite IH.
  - assert (namespace_of k <> namespace_of id) as Hnk by (intros Heq; apply Hne, (Hns k t); [by left|done]).
    case_decide; [rewrite list.filter_cons; cbn [srd_rollup_id blob_of_rollup]; by rewrite decide_False|done].
Qed.
Lemma rollup_entries f id bs : Forall block_ok bs -> should_include f id = true ->
  (forall b other t, b ∈ bs -> (other, t) ∈ sb_rollup_transactions b -> namespace_of other = namespace_of id -> other = id) ->
  in_namespace (namespace_of id) (rollup_datas_of f bs) = omap (rollup_blob id) bs.
Proof.
  intros Hok Hinc. unfold rollup_datas_of. induction Hok as [|b bs Hb Hok IH]; intros Hns; [done|].
  rewrite fmap_cons. cbn [List.concat]. rewrite list.filter_app. unfold in_namespace. rewrite list.filter_app.
  fold (in_namespace (namespace_of id) (filter (fun d => should_include f (srd_rollup_id d) = true)
    (List.concat ((fun b => (split_for_celestia b).2) <$> bs)))).
  rewrite IH by (intros b' other t Hb'; apply (Hns b' other t); by right).
  fold (in_namespace (namespace_of id) (filter (fun d => should_include f (srd_rollup_id d) = true)
    (split_for_celestia b).2)).
  change (split_for_celestia b).2 with ((fun kv => blob_of_rollup b kv.1 kv.2) <$> sb_rollup_transactions b).
  rewrite (block_entries f id b _ (block_unique _ Hb) Hinc); [|intros other t; apply Hns; by left].
  cbn. unfold rollup_blob at 2. by destruct (index_get id _).
Qed.

Context `{TendermintHeight, CometBft, SequencerRpc}.

(** The blobs of a submission, as the conductor fetches them *)
Lemma fetched_blobs order f bs n sub n' b0 bs0 id h : bs = b0 :: bs0 -> (forall l, order l ≡ₚ l) ->
  submission_ok order f bs n -> take_submission n = (Some sub, n') ->
  namespace_of id <> chain_namespace b0 ->
  (forall b other t, b ∈ bs -> (other, t) ∈ sb_rollup_transactions b -> namespace_of other <> chain_namespace b0) ->
  exists header rollups, fetch_new_blobs (served_blobs h (payload_blobs (sub_payload sub))) h (namespace_of id)
      (chain_namespace b0) = Ok (mk_raw_blobs h [header] rollups) /\
    blob_of (chain_namespace b0) (encode_metadata_list ((fun b => metadata_into_raw (metadata_of b)) <$> bs)) header /\
    Forall2 (fun es b => blob_of (namespace_of id) (encode_rollup_data_list es) b)
      (option_list (entries_of (namespace_of id) (rollup_datas_of f bs))) rollups.
Proof.
  intros Hbs Horder [Hf Hi Hp _] Htake Hid Hother. rewrite Hbs in Hp. destruct Hi as [Hm Hn Hu Hd _].
  rewrite Hbs in Hn. destruct (try_into_payload_blobs _ _ _ _ Hp Hn) as (header & rest & Hblobs & Hheader & Hrest).
  unfold take_submission in Htake. rewrite Hblobs in Htake. injection Htake as <- <-. cbn [sub_payload].
  assert (unique (order (rollup_data_for_namespace (ns_input n)))) as Hu'.
  { unfold unique in *. by rewrite Horder. }
  assert (forall ns, index_get ns (order (rollup_data_for_namespace (ns_input n))) = entries_of ns (rollup_datas_of f bs)) as Hget.
  { intros ns. rewrite <- Hd. apply index_get_permutation; [done|]. by rewrite Horder. }
  pose proof (namespace_blobs (namespace_of id) _ _ Hu' Hrest) as Hrollup. rewrite Hget in Hrollup.
  pose proof (namespace_blobs (chain_namespace b0) _ _ Hu' Hrest) as Hseq. rewrite Hget in Hseq.
  assert (entries_of (chain_namespace b0) (rollup_datas_of f bs) = None) as Hnone.
  { unfold entries_of. destruct (in_namespace _ _) as [|d ds] eqn:Hin; [done|]. exfalso.
    assert (d ∈ in_namespace (chain_namespace b0) (rollup_datas_of f bs)) as Hd' by (rewrite Hin; by left).
    apply list_elem_of_filter in Hd' as [Hns Hd']. apply list_elem_of_filter in Hd' as [_ Hd'].
    apply list_elem_of_In, in_concat in Hd' as (l & Hl & Hd'). apply list_elem_of_In in Hl, Hd'.
    apply list_elem_of_fmap in Hl as (b & -> & Hb). apply list_elem_of_fmap in Hd' as ([other t] & -> & Hot).
    by apply (Hother b other t). }
  rewrite Hnone in Hseq. cbn in Hseq. apply Forall2_nil_inv_l in Hseq.
  exists header, (filter (fun b => blob_namespace b = namespace_of id) rest). split_and!.
  - unfold fetch_new_blobs, fetch_blobs_with_retry, served_blobs. rewrite Z.eqb_refl, Hblobs. cbn [mbind result_bind default].
    rewrite !list.filter_cons. destruct Hheader as [Hh _]. rewrite decide_True by done. rewrite decide_False by congruence.
    cbn [default]. by rewrite Hseq.
  - rewrite Hm in Hheader. exact Hheader.
  - done.
Qed.

(** C15. The relayer and the conductor compose. Well-formed blocks with different hashes
    are added to one submission, whatever the order of the hash map; the relayer's
    filter lets the rollup pass; no other rollup of the blocks shares its namespace,
    and none that of the sequencer; the heights are not below the one the conductor
    expects next, and the sequencer's commits vouch for the hashes; and the Celestia
    block holds the blobs of the submission and no others. Then the blocks are
    handed to the executor of the rollup exactly once each, with the rollup's
    transactions, in whatever order their checks end. *)
Theorem relayed_blocks_are_read_back order f bs n sub n' schedule cache h id state next b0 :
  (forall l, order l ≡ₚ l) -> (forall l, schedule l ≡ₚ l) ->
  try_add_all order bs (next_submission_new f) = Val (Ok n) -> take_submission n = (Some sub, n') ->
  list.head bs = Some b0 -> Forall block_ok bs -> NoDup (sb_block_hash <$> bs) ->
  should_include f id = true -> namespace_of id <> chain_namespace b0 ->
  (forall b other t, b ∈ bs -> (other, t) ∈ sb_rollup_transactions b ->
     namespace_of other <> chain_namespace b0 /\ (namespace_of other = namespace_of id -> other = id)) ->
  next_expected_firm_sequencer_height state = Val next ->
  Forall (fun b => next <= header_height (sb_header b) /\ vouched (header_height (sb_header b))) bs ->
  exists raw blocks cache',
    fetch_new_blobs (served_blobs h (payload_blobs (sub_payload sub))) h (namespace_of id) (chain_namespace b0) = Ok raw /\
    convert_verify_and_reconstruct schedule cache raw id (namespace_of id) (chain_namespace b0) state =
      Val (Ok blocks, cache') /\
    blocks ≡ₚ firm_block h id <$> bs.
Proof.
  intros Horder Hsched Hadd Htake Hhead Hok Hnd Hinc Hseq Hns Hnext Hbs.
  pose proof (try_add_all_ok order f bs [] _ _ (next_submission_new_ok order f) Hok Hadd) as Hsub. cbn [app] in Hsub.
  destruct bs as [|b bs0] eqn:Hb; [done|]. injection Hhead as ->. rewrite <- Hb in *.
  destruct (fetched_blobs order f bs n sub n' b0 bs0 id h Hb Horder Hsub Htake Hseq) as (header & rollups & Hfetch & Hheader & Hrolls).
  { intros b' other t Hb' Hot. by apply (Hns b' other t). }
  destruct (read_back schedule cache (mk_raw_blobs h [header] rollups) id (namespace_of id) (chain_namespace b0) state bs next
    [metadata_of <$> bs] (match in_namespace (namespace_of id) (rollup_datas_of f bs) with [] => [] | l => [l] end))
    as (blocks & cache' & Hrun & Hp); try done.
  - constructor; [|constructor]. apply metadata_blob_carried. by rewrite <- list_fmap_compose.
  - cbn. by rewrite app_nil_r.
  - unfold entries_of in Hrolls. destruct (in_namespace _ _) as [|d l]; cbn in Hrolls |- *.
    + apply Forall2_nil_inv_l in Hrolls as ->. constructor.
    + apply Forall2_cons_inv_l in Hrolls as (blob & rest & Hblob & ->%Forall2_nil_inv_l & ->). constructor; [|constructor].
      by apply rollup_blob_carried.
  - rewrite <- (rollup_entries f id bs Hok Hinc); [|intros b' other t Hb' Hot; by apply (Hns b' other t)].
    destruct (in_namespace _ _); [done|]. cbn. by rewrite app_nil_r.
  - exists (mk_raw_blobs h [header] rollups), blocks, cache'. done.
Qed.

(** *** A rollup that shares the namespace *)
Lemma match_rest height rollups : forall acc,
  match_rollup_blobs height [] acc rollups = Val ([], acc).
Proof. induction rollups as [|r rollups IH]; intros acc; cbn; [done|apply IH]. Qed.
Lemma first_blob_wins height id b other t rollups : block_ok b -> (other, t) ∈ sb_rollup_transactions b ->
  reconstruct_blocks_from_verified_blobs
    (mk_verified height [header_entry b] (blob_of_rollup b other t :: rollups)) id =
  Val [mk_reconstructed height (sb_block_hash b) (sb_header b) (rt_transactions t)
         (ecp_info <$> sb_extended_commit_info b)].
Proof.
  intros Hok Hin. destruct (match_one height [header_entry b] b other t) as [Hmatch Hblock].
  - repeat constructor. apply not_elem_of_nil.
  - by left.
  - done.
  - done.
  - unfold reconstruct_blocks_from_verified_blobs.
    cbn [vb_celestia_height vb_header_blobs vb_rollup_blobs match_rollup_blobs].
    rewrite Hmatch. cbn [mbind run_bind index_shift_remove]. rewrite Hblock. cbn [header_entry fst].
    rewrite decide_True by done. by rewrite match_rest.
Qed.

(** C16. A namespace is the first ten bytes of a rollup id, which its users choose:
    whoever submits data for an id that shares them, and that comes first in the
    block, replaces the rollup's transactions in the block that the conductor
    hands to the executor. *)
Theorem colliding_rollup_takes_over order f b n sub n' schedule cache h id other t own ids state next :
  (forall l, order l ≡ₚ l) -> (forall l, schedule l ≡ₚ l) -> block_ok b ->
  try_add order b (next_submission_new f) = Val (Ok n) -> take_submission n = (Some sub, n') ->
  in_namespace (namespace_of id) (rollup_datas_of f [b]) = blob_of_rollup b other t :: ids ->
  (other, t) ∈ sb_rollup_transactions b -> index_get id (sb_rollup_transactions b) = Some own ->
  rt_transactions t <> rt_transactions own -> namespace_of id <> chain_namespace b ->
  (forall other t, (other, t) ∈ sb_rollup_transactions b -> namespace_of other <> chain_namespace b) ->
  next_expected_firm_sequencer_height state = Val next -> next <= header_height (sb_header b) ->
  vouched (header_height (sb_header b)) ->
  exists raw block cache',
    fetch_new_blobs (served_blobs h (payload_blobs (sub_payload sub))) h (namespace_of id) (chain_namespace b) = Ok raw /\
    convert_verify_and_reconstruct schedule cache raw id (namespace_of id) (chain_namespace b) state =
      Val (Ok [block], cache') /\
    rec_block_hash block = sb_block_hash b /\ rec_transactions block = rt_transactions t /\
    block <> firm_block h id b.
Proof.
  intros Horder Hsched Hok Hadd Htake Hfirst Hot Hown Hdiffer Hseq Hns Hnext Hle Hvouched.
  pose proof (try_add_ok order order f [] b _ _ (next_submission_new_ok order f) (block_ok_ids b Hok) Hadd) as Hsub. cbn [app] in Hsub.
  destruct (fetched_blobs order f [b] n sub n' b [] id h eq_refl Horder Hsub Htake Hseq) as (header & rollups & Hfetch & Hheader & Hrolls).
  { intros b' other' t' ->%list_elem_of_singleton. apply Hns. }
  unfold entries_of in Hrolls. rewrite Hfirst in Hrolls. cbn [option_list] in Hrolls.
  apply Forall2_cons_inv_l in Hrolls as (blob & rest & Hblob & ->%Forall2_nil_inv_l & ->).
  destruct (converted_and_verified schedule cache (mk_raw_blobs h [header] [blob]) id (namespace_of id) (chain_namespace b)
    state [b] next [[metadata_of b]] [blob_of_rollup b other t :: ids]) as (headers & cache' & Hheaders & _ & Hrun).
  - done.
  - by constructor.
  - apply list.NoDup_singleton.
  - done.
  - by constructor.
  - constructor; [|constructor]. by apply metadata_blob_carried.
  - done.
  - constructor; [|constructor]. by apply rollup_blob_carried.
  - cbn [List.concat]. rewrite app_nil_r, <- Hfirst. apply list.Forall_forall. intros d Hd.
    apply list_elem_of_filter in Hd as [_ Hd]. apply list_elem_of_filter in Hd as [_ Hd].
    cbn in Hd. rewrite app_nil_r in Hd. apply list_elem_of_fmap in Hd as ([o t'] & -> & Hin).
    exists b, o, t'. by split_and!; [left| |].
  - apply Permutation_singleton_r in Hheaders as ->. cbn [List.concat fmap list_fmap rb_celestia_height] in Hrun. rewrite app_nil_r in Hrun.
    rewrite (first_blob_wins h id b other t ids Hok Hot) in Hrun. cbn [blocking] in Hrun.
    eexists _, _, cache'. split; [exact Hfetch|]. split; [exact Hrun|]. split; [done|]. split; [done|].
    unfold firm_block. rewrite Hown. intros [= Heq]. done.
Qed.
End reading.
