(* ===== verification/RelayerSafety.v ===== *)
(** * No block is lost on its way to Celestia

    Whatever the order of the relayer's events, however often its requests fail
    and wherever it is killed and started again: the state on disk never claims a
    sequencer height as submitted that is not in a transaction which Celestia has
    stored.

    The proof is a weakest precondition of the relayer's computations that demands
    the invariant of the disk in the state where they return, panic or are killed. *)
From S2P Require Import Prelude Denom Types State Chain Ics20.
From S2P Require Import Wire WireActions WireLaws WireTransaction Collections.
From S2P Require Import MerkleIndex MerkleTree MerkleAudit Block SequencerBlock BlockLemmas.
From S2P Require Import ConductorState BTree BlockCache CelestiaBlobs RelayerConversion RelayerTheorems.
From S2P Require Import RelayerClient RelayerState RelayerWrite.
From stdpp Require Import base list option strings gmap sets relations numbers tactics.
From Stdlib Require Import ZArith Lia Ascii String.
Open Scope string_scope.
Open Scope Z_scope.

(** ** What the Celestia app promises *)
(** [stored a h] says that the chain holds a transaction with the hash [h], in
    lower case hex.  A transaction is found only if it is stored, stays stored,
    and the answer to a broadcast names its hash. *)
Class CelestiaLaws `{CelestiaCodec, CelestiaApp} := {
  stored : App -> string -> Prop;
  node_info_keeps a h : stored a h -> stored (app_node_info a).2 h;
  account_keeps address a h : stored a h -> stored (app_account address a).2 h;
  blob_params_keeps a h : stored a h -> stored (app_blob_params a).2 h;
  auth_params_keeps a h : stored a h -> stored (app_auth_params a).2 h;
  min_gas_price_keeps a h : stored a h -> stored (app_min_gas_price a).2 h;
  broadcast_keeps tx a h : stored a h -> stored (app_broadcast_tx tx a).2 h;
  get_tx_keeps hex a h : stored a h -> stored (app_get_tx hex a).2 h;
  get_tx_stored hex a r : (app_get_tx hex a).1 = Ok (Some r) -> tr_code r = 0 -> 0 < tr_height r ->
    stored (app_get_tx hex a).2 hex;
  broadcast_names_hash tx a r : (app_broadcast_tx tx a).1 = Ok (Some r) -> tr_code r = 0 ->
    to_ascii_lowercase (tr_txhash r) = hex_lower (blob_tx_hash tx) }.

Section client.
Context `{CelestiaLaws}.
Definition keeps (a a' : App) : Prop := forall h, stored a h -> stored a' h.
#[export] Instance keeps_preorder : PreOrder keeps.
Proof. split; [by intros a h|intros a b c Hab Hbc h Ha; by apply Hbc, Hab]. Qed.

(** A computation of the client keeps what is stored. *)
Definition steady {A} (m : CelestiaM A) : Prop := forall a, keeps a (m a).2.
Lemma steady_ret {A} (x : A) : steady (mret x).
Proof. intros a. reflexivity. Qed.
Lemma steady_bind {A B} (m : CelestiaM A) (f : A -> CelestiaM B) :
  steady m -> (forall x, steady (f x)) -> steady (m ≫= f).
Proof.
  intros Hm Hf a. specialize (Hm a). unfold mbind, celestia_bind.
  destruct (m a) as [[[x|e]| |] a'] eqn:Heq; cbn in Hm |- *; try done. etrans; [exact Hm|apply Hf].
Qed.
Lemma steady_rpc {A B} (call : App -> Response A * App) (f : Response A -> result TrySubmitError B) :
  (forall a, keeps a (call a).2) -> steady (rpc call f).
Proof. intros Hc a. unfold rpc. specialize (Hc a). by destruct (call a). Qed.
Lemma steady_result {A} (r : result TrySubmitError A) : steady (lift_result r).
Proof. intros a. reflexivity. Qed.
Lemma steady_run {A} (r : run A) : steady (lift_run r).
Proof. intros a. reflexivity. Qed.
Lemma try_prepare_steady c blobs last_error : steady (try_prepare c blobs last_error).
Proof.
  unfold try_prepare.
  apply steady_bind; [apply steady_rpc; intros a h; apply blob_params_keeps|intros gas].
  apply steady_bind; [apply steady_rpc; intros a h; apply auth_params_keeps|intros size].
  apply steady_bind; [apply steady_rpc; intros a h; apply min_gas_price_keeps|intros price].
  apply steady_bind; [apply steady_rpc; intros a h; apply account_keeps|intros account].
  apply steady_bind; [apply steady_result|intros msg].
  apply steady_bind; [apply steady_run|intros gas_limit]. apply steady_ret.
Qed.
Lemma celestia_bind_Ok {A B} (m : CelestiaM A) (f : A -> CelestiaM B) a y :
  ((m ≫= f) a).1 = Val (Ok y) -> exists x a', (f x a').1 = Val (Ok y).
Proof. unfold mbind, celestia_bind. destruct (m a) as [[[x|e]| |] a']; cbn; try done. by exists x, a'. Qed.
(** The prepared transaction carries the blobs. *)
Lemma try_prepare_blobs c blobs last_error a tx :
  (try_prepare c blobs last_error a).1 = Val (Ok tx) -> blob_tx_blobs (btf_tx tx) = blobs.
Proof.
  unfold try_prepare. intros Hrun.
  do 6 (apply celestia_bind_Ok in Hrun as (? & ? & Hrun)). by injection Hrun as <-.
Qed.
Lemma block_height_Some r h : block_height_from_response r = Ok (Some h) ->
  exists t, r = Ok (Some t) /\ tr_code t = 0 /\ 0 < tr_height t.
Proof.
  destruct r as [[t|]|s]; cbn; [|done|by case_bool_decide].
  destruct (Z.eqb_spec (tr_code t) 0); cbn; [|done]. destruct (Z.eqb_spec (tr_height t) 0); cbn; [done|].
  destruct (Z.leb_spec 0 (tr_height t)); cbn; [|done]. intros _. exists t. split_and!; [done..|lia].
Qed.
Lemma get_tx_run hex a : get_tx hex a = (Val (block_height_from_response (app_get_tx hex a).1), (app_get_tx hex a).2).
Proof. unfold get_tx, rpc. by destruct (app_get_tx hex a). Qed.
Lemma confirm_submission_stored polls hex : forall a,
  keeps a (confirm_submission polls hex a).2 /\
  (forall height, (confirm_submission polls hex a).1 = Some height -> stored (confirm_submission polls hex a).2 hex).
Proof.
  induction polls as [|polls IH]; intros a; cbn; [done|]. rewrite get_tx_run.
  assert (keeps a (app_get_tx hex a).2) as Hkeep by (intros h; apply get_tx_keeps).
  destruct (block_height_from_response _) as [[height|]|e] eqn:Hheight; cbn.
  - split; [done|]. intros _ _. apply block_height_Some in Hheight as (t & Ht & Hcode & Hpos).
    by eapply get_tx_stored.
  - destruct (IH (app_get_tx hex a).2) as [Hk Hs]. split; [by etrans|done].
  - destruct (IH (app_get_tx hex a).2) as [Hk Hs]. split; [by etrans|done].
Qed.
Lemma client_try_submit_stored polls tx a :
  keeps a (client_try_submit polls tx a).2 /\
  (forall height, (client_try_submit polls tx a).1 = Val (Ok height) ->
     stored (client_try_submit polls tx a).2 (hex_lower (blob_tx_hash tx))).
Proof.
  unfold client_try_submit, broadcast_tx, rpc.
  assert (keeps a (app_broadcast_tx tx a).2) as Hkeep by (intros h; apply broadcast_keeps).
  pose proof (broadcast_names_hash tx a) as Hname.
  destruct (app_broadcast_tx tx a) as [r a1]. cbn in Hkeep, Hname.
  destruct (lowercase_hex_encoded_tx_hash_from_response r) as [hex|e] eqn:Hhex; cbn; [|done].
  destruct r as [[r|]|]; cbn in Hhex; [|done..].
  destruct (Z.eqb_spec (tr_code r) 0) as [Hcode|]; cbn in Hhex; [|done]. injection Hhex as <-.
  rewrite (Hname r eq_refl Hcode).
  destruct (confirm_submission_stored polls (hex_lower (blob_tx_hash tx)) a1) as [Hk Hs].
  destruct (confirm_submission polls _ a1) as [[height|] a2]; cbn in *; (split; [by etrans|]); [|done].
  intros _ _. by apply (Hs height).
Qed.
End client.

(** [tendermint::block::Height::increment] *)
Class IncrementLaw `{TendermintHeight} : Prop :=
  increment_adds_one h h' : height_increment h = Val h' -> h' = h + 1.

(** ** The invariant of the disk *)
Class StateJsonLaws `{StateJson} : Prop :=
  json_inverse s c : json_of_state s = Some c -> state_of_json c = Some s.

Section safety.
Context `{BlobWriter} {laws : BlockLaws}.
Context `{CelestiaLaws, StateJsonLaws}.
Variable f : IncludeRollup.

(** The transaction has the blobs of a submission of these blocks. *)
Definition carries_blocks (tx : BlobTx) (bs : list SequencerBlock) : Prop :=
  exists order n sub n', submission_ok order f bs n /\ take_submission n = (Some sub, n') /\
    blob_tx_blobs tx = payload_blobs (sub_payload sub).
(** Celestia has stored the transaction with a block of the height. *)
Definition posted (a : App) (height : Z) : Prop :=
  exists tx bs b, carries_blocks tx bs /\ b ∈ bs /\ sequencer_block_height b = height /\
    stored a (hex_lower (blob_tx_hash tx)).
Definition posted_upto (a : App) (height : Z) : Prop := forall h, 1 <= h <= height -> posted a h.
(** The transaction with the hash has blocks of the heights above [low] up to [high]. *)
Definition covers (hash : BlobTxHash) (low high : Z) : Prop :=
  exists tx bs, carries_blocks tx bs /\ blob_tx_hash tx = hash /\
    forall h, low < h <= high -> exists b, b ∈ bs /\ sequencer_block_height b = h.

Definition state_ok (a : App) (s : FileState) : Prop :=
  match s with
  | FileState_Fresh => True
  | FileState_Started last => posted_upto a (completed_sequencer_height last)
  | FileState_Prepared height last hash _ =>
      completed_sequencer_height last < height /\ posted_upto a (completed_sequencer_height last) /\
      covers hash (completed_sequencer_height last) height
  end.
Definition disk_ok (w : World) : Prop :=
  exists c s, state_file w = Some c /\ state_of_json c = Some s /\ state_ok (celestia w) s.

Lemma posted_upto_keeps a a' h : keeps a a' -> posted_upto a h -> posted_upto a' h.
Proof.
  intros Hk Hp h' Hh. destruct (Hp h' Hh) as (tx & bs & b & Hc & Hb & Hheight & Hs).
  exists tx, bs, b. split_and!; [done..|by apply Hk].
Qed.
Lemma posted_upto_zero a : posted_upto a 0.
Proof. intros h Hh. lia. Qed.
Lemma covers_posted a hash low high : posted_upto a low -> covers hash low high -> stored a (hex_lower hash) ->
  posted_upto a high.
Proof.
  intros Hlow (tx & bs & Hc & Hhash & Hb) Hs h Hh. destruct (Z.le_gt_cases h low); [by apply Hlow; lia|].
  destruct (Hb h) as (b & Hin & Hheight); [lia|]. exists tx, bs, b. subst hash. done.
Qed.
Lemma state_ok_keeps a a' s : keeps a a' -> state_ok a s -> state_ok a' s.
Proof.
  destruct s as [|last|height last hash at_]; cbn; [done|by intros; eapply posted_upto_keeps|].
  intros Hk (Hlt & Hp & Hc). split_and!; [done| |done]. by eapply posted_upto_keeps.
Qed.

(** ** Weakest preconditions *)
Definition wp {E A} (m : IO E A) (Q : result E A -> World -> Prop) (w : World) : Prop :=
  disk_ok (m w).2 /\ keeps (celestia w) (celestia (m w).2) /\
  match (m w).1 with Val r => Q r (m w).2 | _ => True end.
(** The condition of a computation whose errors need nothing *)
Definition on_ok {E A} (Q : A -> World -> Prop) (r : result E A) (w : World) : Prop :=
  match r with Ok x => Q x w | Err _ => True end.

Lemma wp_mono {E A} (m : IO E A) (P Q : result E A -> World -> Prop) w : wp m P w ->
  (forall r w', disk_ok w' -> keeps (celestia w) (celestia w') -> P r w' -> Q r w') -> wp m Q w.
Proof.
  intros (Hd & Hk & Hp) Himp. split_and!; [done..|]. destruct (m w) as [[r| |] w']; cbn in *; [|done..].
  by apply Himp.
Qed.
Lemma wp_ret {E A} (x : A) Q w : disk_ok w -> Q (Ok x) w -> wp (E := E) (mret x) Q w.
Proof. by repeat split. Qed.
Lemma wp_result {E A} (r : result E A) Q w : disk_ok w -> Q r w -> wp (io_result r) Q w.
Proof. by repeat split. Qed.
Lemma wp_run {E A} (r : run A) (Q : result E A -> World -> Prop) w : disk_ok w ->
  (forall x, r = Val x -> Q (Ok x) w) -> wp (io_run r) Q w.
Proof. intros Hd HQ. unfold wp. split_and!; [done..|]. destruct r; cbn; [by apply HQ|done..]. Qed.
Lemma wp_bind {E A B} (m : IO E A) (k : A -> IO E B) Q w :
  wp m (fun r w' => match r with Ok x => wp (k x) Q w' | Err e => Q (Err e) w' end) w -> wp (m ≫= k) Q w.
Proof.
  unfold wp, mbind, io_bind. destruct (m w) as [[[x|e]| |] w']; cbn; try done.
  intros (_ & Hk & Hd & Hk' & HQ). split_and!; [done|by etrans|done].
Qed.
Lemma wp_try {E E' A} (m : IO E A) (Q : result E' (result E A) -> World -> Prop) w :
  wp m (fun r w' => Q (Ok r) w') w -> wp (io_try m) Q w.
Proof. unfold wp, io_try. by destruct (m w) as [[r| |] w']. Qed.
Lemma wp_map_err {E E' A} (g : E -> E') (m : IO E A) (Q : result E' A -> World -> Prop) w :
  wp m (fun r w' => Q (map_err g r) w') w -> wp (io_map_err g m) Q w.
Proof. unfold wp, io_map_err. by destruct (m w) as [[[x|e]| |] w']. Qed.
Lemma wp_tick {E} (Q : result E Tick -> World -> Prop) w : disk_ok w ->
  (forall t ts, disk_ok (upd_ticks ts w) -> Q (Ok t) (upd_ticks ts w)) -> wp tick Q w.
Proof.
  intros Hd HQ. unfold wp, tick. destruct (ticks w) as [|t ts]; cbn; [done|]. split_and!; [done..|by apply HQ].
Qed.
Lemma wp_status {E} (g : StateSnapshot -> bool * StateSnapshot) (Q : result E unit -> World -> Prop) w :
  disk_ok w -> Q (Ok tt) (upd_snapshot (fun s => (g s).2) w) -> wp (set_status g) Q w.
Proof. by repeat split. Qed.
(** A computation that changes Celestia and nothing else *)
Lemma wp_app {E A} (g : App -> run (result E A) * App) (Q : result E A -> World -> Prop) w : disk_ok w ->
  keeps (celestia w) (g (celestia w)).2 ->
  (disk_ok (upd_celestia (g (celestia w)).2 w) ->
   forall r, (g (celestia w)).1 = Val r -> Q r (upd_celestia (g (celestia w)).2 w)) ->
  wp (io (fun w => let '(r, a) := g (celestia w) in (r, upd_celestia a w))) Q w.
Proof.
  intros (c & s & Hc & Hs & Hok) Hk HQ. unfold wp, io. destruct (g (celestia w)) as [r a]. cbn in *.
  assert (disk_ok (upd_celestia a w)) as Hd.
  { exists c, s. split_and!; [done..|]. by eapply state_ok_keeps. }
  split_and!; [done..|]. destruct r; [by apply HQ|done..].
Qed.
Lemma wp_on_celestia {A} (m : nat -> CelestiaM A) (Q : result TrySubmitError A -> World -> Prop) w : disk_ok w ->
  (forall polls, steady (m polls)) ->
  (forall polls a r w', (m polls a).1 = Val r -> celestia w' = (m polls a).2 -> disk_ok w' ->
     keeps (celestia w) (celestia w') -> Q r w') ->
  wp (on_celestia m) Q w.
Proof.
  intros Hd Hm HQ. apply wp_bind, wp_tick; [done|]. intros t ts Hd'. apply (wp_app (m (polls t))); [done|apply Hm|].
  intros Hd2 r Hr. eapply HQ; [done..|apply Hm].
Qed.

(** *** The disk *)
Lemma wp_write s w : disk_ok w -> state_ok (celestia w) s ->
  wp (file_state_write s) (on_ok (fun _ w' => celestia w' = celestia w)) w.
Proof.
  intros Hd Hs. unfold file_state_write. apply wp_bind, wp_result; [done|].
  destruct (json_of_state s) as [c|] eqn:Hc; cbn; [|done].
  apply wp_bind. unfold write_temp_file. apply wp_bind, wp_tick; [done|]. intros t ts Hd1.
  destruct (io_succeeds t); unfold wp at 1; cbn; (split_and!; [done..|]); [|done].
  unfold rename_temp_file. apply wp_bind, wp_tick; [done|]. intros t' ts' Hd2.
  destruct (io_succeeds t'); unfold wp; cbn; (split_and!; [|done..]); [|done].
  exists c, s. split_and!; [done|by apply json_inverse|done].
Qed.
Lemma wp_read w : disk_ok w ->
  wp file_state_read (on_ok (fun s w' => celestia w' = celestia w /\ state_ok (celestia w) s)) w.
Proof.
  intros Hd. unfold file_state_read, read_to_string. apply wp_bind, wp_bind, wp_tick; [done|].
  intros t ts Hd1. unfold wp at 1. cbn. split_and!; [done..|].
  destruct (io_succeeds t); cbn; [|done].
  pose proof Hd1 as (c & s & Hc & Hs & Hok). cbn in Hc, Hok. rewrite Hc. cbn.
  apply wp_bind, wp_result; [done|]. rewrite Hs. cbn.
  destruct s as [|last|height last hash at_]; [by apply wp_ret..|].
  apply wp_bind, wp_result; [done|]. destruct (_ <? _); cbn; [|done]. by apply wp_ret.
Qed.

(** *** The submission states *)
Definition prepared_ok (a : App) (p : PreparedSubmission) : Prop :=
  state_ok a (FileState_Prepared (prepared_sequencer_height p) (prepared_last_submission p) (prepared_blob_tx_hash p)
    (created_at p)).
Lemma prepared_ok_keeps a a' p : keeps a a' -> prepared_ok a p -> prepared_ok a' p.
Proof. apply state_ok_keeps. Qed.

Lemma wp_started last w : disk_ok w -> posted_upto (celestia w) (completed_sequencer_height last) ->
  wp (started_construct_and_write last) (on_ok (fun s w' => started_last_submission s = last)) w.
Proof.
  intros Hd Hp. apply wp_bind. eapply wp_mono; [by apply wp_write|].
  intros [[]|e] w' Hd' _ _; [|done]. by apply wp_ret.
Qed.
Lemma wp_into_started p celestia_height w : disk_ok w -> prepared_ok (celestia w) p ->
  stored (celestia w) (hex_lower (prepared_blob_tx_hash p)) ->
  wp (prepared_into_started p celestia_height)
    (on_ok (fun s w' => last_submission_sequencer_height s = prepared_sequencer_height p /\
       posted_upto (celestia w') (last_submission_sequencer_height s))) w.
Proof.
  intros Hd (Hlt & Hp & Hc) Hs. eapply wp_mono.
  - apply wp_started; [done|]. by apply (covers_posted _ _ _ _ Hp Hc).
  - intros [s|e] w' _ Hk; [|done]. cbn. unfold last_submission_sequencer_height. intros Hs'. rewrite Hs'. split; [done|].
    eapply posted_upto_keeps; [exact Hk|]. by apply (covers_posted _ _ _ _ Hp Hc).
Qed.
Lemma wp_revert p w : disk_ok w -> prepared_ok (celestia w) p ->
  wp (prepared_revert p)
    (on_ok (fun s w' => s = mk_started (prepared_last_submission p))) w.
Proof.
  intros Hd (Hlt & Hp & Hc). eapply wp_mono; [by apply wp_started|]. intros [[last]|e] w' _ _; [|done]. by intros <-.
Qed.
Lemma wp_now {E} (Q : result E Z -> World -> Prop) w : disk_ok w ->
  (forall time w', disk_ok w' -> celestia w' = celestia w -> Q (Ok time) w') -> wp now Q w.
Proof. intros Hd HQ. apply wp_bind, wp_tick; [done|]. intros t ts Hd'. apply wp_ret; [done|by apply HQ]. Qed.
Lemma wp_into_prepared s height hash w : disk_ok w ->
  posted_upto (celestia w) (last_submission_sequencer_height s) ->
  covers hash (last_submission_sequencer_height s) height ->
  wp (into_prepared s height hash)
    (on_ok (fun p w' => prepared_ok (celestia w') p /\ prepared_sequencer_height p = height /\
       prepared_blob_tx_hash p = hash)) w.
Proof.
  intros Hd Hp Hc. unfold into_prepared, prepared_construct_and_write. apply wp_bind, wp_result; [done|].
  destruct (Z.ltb_spec (completed_sequencer_height (started_last_submission s)) height) as [Hlt|]; cbn; [|done].
  apply wp_bind, wp_now; [done|]. intros time w1 Hd1 Heq1.
  apply wp_bind. eapply wp_mono.
  - apply wp_write; [done|]. rewrite Heq1. by split_and!.
  - intros [[]|e] w2 Hd2 Hk2 Heq2; [|done]. apply wp_ret; [done|]. cbn in Heq2 |- *.
    rewrite Heq2, Heq1. by split_and!.
Qed.
Lemma wp_timeout {E} p (Q : result E Z -> World -> Prop) w : disk_ok w ->
  (forall timeout w', disk_ok w' -> celestia w' = celestia w -> Q (Ok timeout) w') -> wp (confirmation_timeout p) Q w.
Proof. intros Hd HQ. apply wp_bind, wp_now; [done|]. intros time w' Hd' Heq. apply wp_ret; [done|by apply HQ]. Qed.
Lemma wp_confirm {E} hash timeout w : disk_ok w ->
  wp (E := E) (confirm_within hash timeout)
    (fun r w' => match r with
                 | Ok o => forall height, o = Some height -> stored (celestia w') (hex_lower hash)
                 | Err _ => False
                 end) w.
Proof.
  intros Hd. apply wp_bind, wp_tick; [done|]. intros t ts Hd1.
  set (n := Nat.min (polls t) _).
  destruct (confirm_submission_stored n (hex_lower hash) (celestia w)) as [Hk Hs].
  pose proof (wp_app (fun a => (Val (Ok (E := E) (confirm_submission_with_timeout n hash a).1),
    (confirm_submission_with_timeout n hash a).2))
    (fun r w' => match r with
                 | Ok o => forall height, o = Some height -> stored (celestia w') (hex_lower hash)
                 | Err _ => False
                 end)
    (upd_ticks ts w) Hd1 Hk) as Hwp.
  unfold wp, io in Hwp |- *. cbn in *. destruct (confirm_submission_with_timeout n hash (celestia w)) as [o a] eqn:Hrun.
  unfold confirm_submission_with_timeout in Hrun. rewrite Hrun in Hs. apply Hwp. intros _ r [= <-]. exact Hs.
Qed.

Lemma wp_confirm_last_session p w : disk_ok w -> prepared_ok (celestia w) p ->
  wp (try_confirm_submission_from_last_session p)
    (on_ok (fun s w' => posted_upto (celestia w') (last_submission_sequencer_height s) /\
       (last_submission_sequencer_height s = prepared_sequencer_height p \/
        last_submission_sequencer_height s = completed_sequencer_height (prepared_last_submission p)))) w.
Proof.
  intros Hd Hp. apply wp_bind, wp_timeout; [done|]. intros timeout w1 Hd1 Heq1. rewrite <- Heq1 in Hp.
  apply wp_bind. eapply wp_mono; [by apply wp_confirm|]. intros [o|e] w2 Hd2 Hk2 Ho; [|done].
  apply (prepared_ok_keeps _ _ _ Hk2) in Hp. apply wp_bind. destruct o as [height|].
  - eapply wp_mono; [by eapply wp_into_started, Ho|]. intros [s|e] w3 Hd3 Hk3; [|done]. intros [Hheight Hposted].
    apply wp_bind, wp_status; [done|]. apply wp_ret; [done|]. split; [done|by left].
  - eapply wp_mono; [by apply wp_revert|]. intros [s|e] w3 Hd3 Hk3 Hs; [|done]. cbn in Hs. subst s.
    apply wp_bind, wp_status; [done|]. apply wp_ret; [done|]. split; [|by right].
    destruct Hp as (_ & Hp & _). by eapply posted_upto_keeps.
Qed.
(** What an error of an attempt says about the next one *)
Definition error_ok (a : App) (height : Z) (e : SubmissionError) : Prop :=
  match e with
  | SubmissionError_BroadcastTxTimedOut p => prepared_ok a p /\ prepared_sequencer_height p = height
  | _ => True
  end.
Lemma wp_confirm_failed_attempt p h w : disk_ok w -> prepared_ok (celestia w) p ->
  wp (try_confirm_submission_from_failed_attempt p)
    (fun r w' => match r with
                 | Ok (Some s) => posted_upto (celestia w') (last_submission_sequencer_height s) /\
                     last_submission_sequencer_height s = prepared_sequencer_height p
                 | Ok None => True
                 | Err e => error_ok (celestia w') h e
                 end) w.
Proof.
  intros Hd Hp. apply wp_bind, wp_timeout; [done|]. intros timeout w1 Hd1 Heq1. rewrite <- Heq1 in Hp.
  apply wp_bind. eapply wp_mono; [by apply (wp_confirm (E := SubmissionError))|].
  intros [o|e] w2 Hd2 Hk2 Ho; [|done].
  apply (prepared_ok_keeps _ _ _ Hk2) in Hp. destruct o as [height|]; [|by apply wp_ret].
  apply wp_bind, wp_map_err. eapply wp_mono; [by eapply wp_into_started, Ho|]. intros [s|e] w3 Hd3 Hk3; cbn [map_err]; [|done].
  intros [Hheight Hposted]. by apply wp_ret.
Qed.

(** ** Submitting *)
(** Whatever transaction gets the blobs has blocks of the heights above [low] up to [high]. *)
Definition blobs_cover (blobs : list Blob) (low high : Z) : Prop :=
  forall tx, blob_tx_blobs tx = blobs -> covers (blob_tx_hash tx) low high.
Definition submitted_ok (height : Z) (r : result SubmissionError StartedSubmissionAndFee) (w : World) : Prop :=
  match r with
  | Ok s => posted_upto (celestia w) height /\ last_submission_sequencer_height (saf_new_state s) = height
  | Err e => error_ok (celestia w) height e
  end.

Lemma wp_prepare_and_submit c blobs s height last_error w : disk_ok w ->
  posted_upto (celestia w) (last_submission_sequencer_height s) ->
  blobs_cover blobs (last_submission_sequencer_height s) height ->
  wp (prepare_and_submit c blobs s height last_error) (submitted_ok height) w.
Proof.
  intros Hd Hp Hb. apply wp_bind, wp_map_err, wp_on_celestia; [done|intros _; apply try_prepare_steady|].
  intros polls a r w1 Hrun _ Hd1 Hk1. apply (posted_upto_keeps _ _ _ Hk1) in Hp.
  destruct r as [tx|e]; cbn [map_err]; [|done]. apply try_prepare_blobs in Hrun.
  apply wp_bind, wp_map_err. eapply wp_mono; [apply wp_into_prepared; [done..|by apply Hb]|].
  intros [p|e] w2 Hd2 Hk2 Hprep; cbn [map_err]; [|done]. destruct Hprep as (Hprep & Hheight & Hhash).
  apply wp_bind, wp_try, wp_on_celestia; [done|intros n a'; apply client_try_submit_stored|].
  intros n a' r w3 Hsubmit Ha' Hd3 Hk3. apply (prepared_ok_keeps _ _ _ Hk3) in Hprep.
  destruct r as [celestia_height|e].
  - pose proof (proj2 (client_try_submit_stored n (btf_tx tx) a') celestia_height Hsubmit) as Hstored.
    rewrite <- Ha', <- Hhash in Hstored. apply wp_bind, wp_map_err.
    eapply wp_mono; [by apply wp_into_started|]. intros [s'|e] w4 Hd4 Hk4; cbn [map_err]; [|done].
    intros [Hs' Hposted]. apply wp_ret; [done|]. cbn in *. rewrite Hs', Hheight in Hposted. split; [done|congruence].
  - destruct e; try by apply wp_result. apply wp_result; [done|]. by destruct (is_timeout _).
Qed.
Lemma wp_try_submit c blobs s height last_error w : disk_ok w ->
  posted_upto (celestia w) (last_submission_sequencer_height s) ->
  blobs_cover blobs (last_submission_sequencer_height s) height ->
  (forall e, last_error = Some e -> error_ok (celestia w) height e) ->
  wp (try_submit c blobs s height last_error) (submitted_ok height) w.
Proof.
  intros Hd Hp Hb He. destruct last_error as [[e|e|p]|]; cbn [try_submit].
  - by apply wp_prepare_and_submit.
  - by apply wp_run.
  - destruct (He _ eq_refl) as [Hprep Hheight]. apply wp_bind.
    eapply wp_mono; [by apply wp_confirm_failed_attempt|]. intros [[s'|]|e] w1 Hd1 Hk1 Hs; [| |].
    + destruct Hs as [Hposted Hs']. rewrite Hs', Hheight in Hposted. apply wp_ret; [done|].
      split; [done|cbn; congruence].
    + apply wp_prepare_and_submit; [done| |done]. by eapply posted_upto_keeps.
    + exact Hs.
  - by apply wp_prepare_and_submit.
Qed.
Lemma wp_submit_with_retry c blobs s height retries : forall last_error w, disk_ok w ->
  posted_upto (celestia w) (last_submission_sequencer_height s) ->
  blobs_cover blobs (last_submission_sequencer_height s) height ->
  (forall e, last_error = Some e -> error_ok (celestia w) height e) ->
  wp (submit_with_retry retries c blobs s height last_error)
    (on_ok (fun r w' => submitted_ok height (Ok r) w')) w.
Proof.
  induction retries as [|retries IH]; intros last_error w Hd Hp Hb He; cbn [submit_with_retry];
    apply wp_bind, wp_try; (eapply wp_mono; [by apply wp_try_submit|]); intros [r|e] w1 Hd1 Hk1 Hr; cbn iota.
  - by apply wp_ret.
  - destruct e; by apply wp_result.
  - by apply wp_ret.
  - apply (posted_upto_keeps _ _ _ Hk1) in Hp.
    assert (forall e', Some e = Some e' -> error_ok (celestia w1) height e') as He' by (by intros ? [= <-]).
    destruct e; [|by apply wp_result|]; (apply wp_bind, wp_status; [done|]); by apply IH.
Qed.
Lemma wp_submit_blobs retries c data s height w : disk_ok w ->
  posted_upto (celestia w) (last_submission_sequencer_height s) ->
  submission_height data = Val height ->
  blobs_cover (payload_blobs (sub_payload data)) (last_submission_sequencer_height s) height ->
  wp (submit_blobs retries c data s) (on_ok (fun s' w' => last_submission_sequencer_height s' = height /\
    posted_upto (celestia w') height)) w.
Proof.
  intros Hd Hp Hheight Hb. unfold submit_blobs. apply wp_bind, wp_run; [done|]. rewrite Hheight. intros ? [= <-].
  apply wp_bind, wp_map_err. eapply wp_mono; [by apply wp_submit_with_retry|].
  intros [r|e] w1 Hd1 Hk1; cbn [map_err]; [|done]. intros [Hposted Hr].
  apply wp_bind, wp_status; [done|]. apply wp_bind, wp_status; [done|]. by apply wp_ret.
Qed.

(** ** What the next submission collects *)
Lemma fold_max l : forall a, fold_left Z.max l a ∈ a :: l /\ Forall (fun x => x <= fold_left Z.max l a) (a :: l).
Proof.
  induction l as [|x l IH]; intros a; cbn; [split; [left|by repeat constructor]|].
  destruct (IH (Z.max a x)) as [Hin Hall]. apply list.Forall_cons in Hall as [Hmax Hall]. split.
  - apply elem_of_cons in Hin as [->|Hin]; [|by do 2 right].
    destruct (Z.max_spec a x) as [[_ ->]|[_ ->]]; [right; left|left].
  - repeat constructor; [lia|lia|done].
Qed.
Lemma greatest_spec i h : greatest_sequencer_height i = Some h <->
  h ∈ sequencer_heights (in_meta i) /\ forall x, x ∈ sequencer_heights (in_meta i) -> x <= h.
Proof.
  unfold greatest_sequencer_height. set (X := sequencer_heights (in_meta i)).
  assert (forall x, x ∈ X <-> x ∈ elements X) as Hel by (intros x; by rewrite elem_of_elements).
  destruct (elements X) as [|a l].
  - split; [done|]. intros [Hh _]. apply Hel in Hh. by apply elem_of_nil in Hh.
  - destruct (fold_max l a) as [Hin Hall]. rewrite list.Forall_forall in Hall. split.
    + intros [= <-]. split; [by apply Hel|]. intros x Hx. by apply Hall, Hel.
    + intros [Hh Hmax]. f_equal. apply Z.le_antisymm; [by apply Hmax, Hel|by apply Hall, Hel].
Qed.

(** The next submission holds the blocks of the heights above [low] up to [high]. *)
Definition collected (n : NextSubmission) (low high : Z) : Prop :=
  exists order bs, submission_ok order f bs n /\ low <= high /\
    sequencer_block_height <$> bs = seqZ (low + 1) (high - low).
Lemma collected_new low : collected (next_submission_new f) low low.
Proof.
  exists (fun l => l), []. split; [apply next_submission_new_ok|]. split; [lia|]. by rewrite Z.sub_diag.
Qed.
Lemma heights_in bs low high h : sequencer_block_height <$> bs = seqZ (low + 1) (high - low) -> low < h <= high ->
  exists b, b ∈ bs /\ sequencer_block_height b = h.
Proof.
  intros Hbs Hh. assert (h ∈ sequencer_block_height <$> bs) as Hin by (rewrite Hbs; apply elem_of_seqZ; lia).
  apply list_elem_of_fmap in Hin as (b & -> & Hb). by exists b.
Qed.
Lemma collected_take n low high data n' : collected n low high -> take_submission n = (Some data, n') ->
  n' = next_submission_new f /\ low < high /\ submission_height data = Val high /\
  blobs_cover (payload_blobs (sub_payload data)) low high.
Proof.
  intros (order & bs & Hsub & Hle & Hbs) Htake. pose proof Htake as Htaken.
  pose proof Hsub as [Hf Hi Hp Hs].
  unfold take_submission in Htake. destruct (payload_blobs (ns_payload n)) as [|blob blobs] eqn:Hblobs; [done|].
  injection Htake as <- <-. rewrite Hf.
  assert (low < high) as Hlt.
  { destruct (Z.eq_dec low high) as [->|]; [|lia]. rewrite Z.sub_diag in Hbs. apply fmap_nil_inv in Hbs as ->.
    by rewrite Hp in Hblobs. }
  split_and!; [done|done| |].
  - unfold submission_height. cbn [sub_input].
    rewrite (proj2 (greatest_spec (ns_input n) high)); [done|]. rewrite (holds_heights _ _ _ Hi). split.
    + destruct (heights_in bs low high high Hbs) as (b' & Hin & Hheight); [lia|].
      apply elem_of_list_to_set, list_elem_of_fmap. exists b'. by split; [symmetry|].
    + intros x Hx%elem_of_list_to_set. fold sequencer_block_height in Hx.
      change ((fun b => header_height (sb_header b)) <$> bs) with (sequencer_block_height <$> bs) in Hx.
      rewrite Hbs in Hx. apply elem_of_seqZ in Hx. lia.
  - intros tx Htx. exists tx, bs. split_and!; [|done|intros h Hh; by eapply heights_in].
    eexists order, n, _, _. split; [done|]. by split; [exact Htaken|].
Qed.
Lemma collected_take_none n low high n' : collected n low high -> take_submission n = (None, n') ->
  low = high /\ n' = next_submission_new f.
Proof.
  intros (order & bs & [Hf Hi Hp Hs] & Hle & Hbs) Htake. unfold take_submission in Htake.
  destruct (payload_blobs (ns_payload n)) as [|blob blobs] eqn:Hblobs; [|done]. injection Htake as <-. rewrite Hf.
  split; [|done]. destruct bs as [|b bs].
  - destruct (Z.eq_dec low high); [done|]. exfalso. rewrite seqZ_cons in Hbs by lia. done.
  - destruct (try_into_payload_blobs _ _ _ _ Hp (holds_namespace _ _ _ Hi)) as (b' & bs' & Hcons & _).
    rewrite Hblobs in Hcons. done.
Qed.
Lemma collected_add order n low high block n' : collected n low high -> ids_valid block ->
  sequencer_block_height block = high + 1 -> try_add order block n = Val (Ok n') -> collected n' low (high + 1).
Proof.
  intros (old & bs & Hsub & Hle & Hbs) Hids Hheight Hadd. exists order, (bs ++ [block])%list. split_and!.
  - by eapply try_add_ok.
  - lia.
  - rewrite fmap_app, Hbs. cbn. rewrite Hheight. replace (high + 1 - low) with (high - low + 1) by lia.
    rewrite seqZ_app by lia. f_equal. rewrite seqZ_cons by lia. cbn. f_equal. lia.
Qed.

(** ** The submitter *)
(** All blocks below the height [next] were submitted, are in flight or are
    collected. *)
Definition submitter_ok (a : App) (next : Z) (s : BlobSubmitter) : Prop :=
  let last := last_submission_sequencer_height (started_submission s) in
  posted_upto a last /\
  exists low high,
    match ongoing_submission s with
    | None => low = last
    | Some (data, started) =>
        started = started_submission s /\ last < low /\ submission_height data = Val low /\
        blobs_cover (payload_blobs (sub_payload data)) last low
    end /\
    collected (next_submission s) low high /\
    match pending_block s with
    | None => next = high + 1
    | Some block => sequencer_block_height block = high + 1 /\ ids_valid block /\ next = high + 2
    end.
Lemma submitter_ok_keeps a a' next s : keeps a a' -> submitter_ok a next s -> submitter_ok a' next s.
Proof. intros Hk [Hp Hrest]. split; [by eapply posted_upto_keeps|done]. Qed.

(** A turn leaves the disk alone; if the loop goes on the submitter is fine, if
    not what is in flight still is. *)
Definition ongoing_ok (a : App) (s : BlobSubmitter) : Prop :=
  match ongoing_submission s with
  | None => True
  | Some (data, started) => exists height, posted_upto a (last_submission_sequencer_height started) /\
      submission_height data = Val height /\
      blobs_cover (payload_blobs (sub_payload data)) (last_submission_sequencer_height started) height
  end.
Lemma submitter_ongoing a next s : submitter_ok a next s -> ongoing_ok a s.
Proof.
  intros [Hp (low & high & Ho & _)]. unfold ongoing_ok. destruct (ongoing_submission s) as [[data started]|]; [|done].
  destruct Ho as (-> & _ & Hh & Hb). by exists low.
Qed.
Definition turn_ok (a : App) (next : Z) (t : Turn) : Prop :=
  match t with
  | Val (s, None) => submitter_ok a next s
  | Val (s, Some _) => ongoing_ok a s
  | _ => True
  end.
Lemma try_add_full order block n b : try_add order block n = Val (Err (TryAddError_Full b)) -> b = block.
Proof.
  unfold try_add. destruct (extend_from_sequencer_block _ _ _) as [i| |]; cbn; [|done..].
  destruct (try_into_payload order i) as [p|e]; cbn; [|by intros [=]].
  destruct (compressed_size p <=? _); [done|]. destruct (_ =? _)%nat; cbn; by intros [=].
Qed.
Lemma add_block_ok order block s a low high :
  let last := last_submission_sequencer_height (started_submission s) in
  posted_upto a last ->
  match ongoing_submission s with
  | None => low = last
  | Some (data, started) =>
      started = started_submission s /\ last < low /\ submission_height data = Val low /\
      blobs_cover (payload_blobs (sub_payload data)) last low
  end ->
  collected (next_submission s) low high -> pending_block s = None ->
  sequencer_block_height block = high + 1 -> ids_valid block ->
  turn_ok a (high + 2) (add_sequencer_block_to_next_submission order block s).
Proof.
  intros last Hp Ho Hc Hpending Hheight Hids. unfold add_sequencer_block_to_next_submission.
  assert (submitter_ok a (high + 1) s) as Hok.
  { split; [done|]. exists low, high. by rewrite Hpending. }
  destruct (try_add order block (next_submission s)) as [[n|e]| |] eqn:Hadd; cbn; [|destruct e as [b| |]|done..]; cbn.
  - split; [done|]. exists low, (high + 1). cbn. rewrite Hpending. split_and!; [done| |lia].
    by eapply collected_add.
  - apply try_add_full in Hadd as ->. split; [done|]. exists low, high. by split_and!.
  - by eapply submitter_ongoing.
  - by eapply submitter_ongoing.
Qed.
Lemma on_take_ok order next s a : ongoing_submission s = None -> submitter_ok a next s -> turn_ok a next (on_take order s).
Proof.
  intros Hnone [Hp (low & high & Ho & Hc & Hpending)]. rewrite Hnone in Ho. subst low. unfold on_take.
  set (last := last_submission_sequencer_height (started_submission s)) in *.
  destruct (take_submission (next_submission s)) as [[data|] n] eqn:Htake.
  - destruct (collected_take _ _ _ _ _ Hc Htake) as (-> & Hlt & Hheight & Hb).
    destruct (pending_block s) as [block|].
    + destruct Hpending as (Hblock & Hids & ->). eapply add_block_ok; cbn; [done| |apply collected_new|done..].
      by split_and!.
    + cbn. split; [done|]. exists high, high. cbn. split_and!; [done..|apply collected_new|done].
  - destruct (collected_take_none _ _ _ _ Hc Htake) as [Heq ->]. cbn. split; [done|]. exists last, last. cbn.
    rewrite Hnone, Heq. split_and!; [done|apply collected_new|done].
Qed.
(** The next block comes from a stream that is where the submitter expects it, or
    repeats blocks that were submitted before. *)
Definition aligned (start next : Z) (s : BlobSubmitter) : Prop :=
  start = next \/ start <= last_submission_sequencer_height (started_submission s) /\
    next = last_submission_sequencer_height (started_submission s) + 1.
Lemma on_receive_ok order block start next s a : has_capacity s = true -> ids_valid block ->
  sequencer_block_height block = start -> aligned start next s -> submitter_ok a next s ->
  exists next', turn_ok a next' (on_receive order block s) /\
    (forall s', on_receive order block s = Val (s', None) -> aligned (start + 1) next' s').
Proof.
  unfold has_capacity, on_receive. intros Hcap Hids Hheight Halign Hok. pose proof Hok as [Hp (low & high & Ho & Hc & Hpending)].
  destruct (pending_block s) eqn:Hnone; [done|]. clear Hcap.
  assert (last_submission_sequencer_height (started_submission s) <= low) as Hlow.
  { destruct (ongoing_submission s) as [[data started]|]; [lia|]. subst low. lia. }
  assert (low <= high) as Hhigh by (by destruct Hc as (? & ? & _ & ? & _)).
  rewrite Hheight. destruct (Z.leb_spec start (last_submission_sequencer_height (started_submission s))) as [Hle|Hgt].
  - exists next. split; [done|]. intros s' [= <-]. unfold aligned in *. lia.
  - exists (high + 2). split; [apply (add_block_ok order block s a low high); try done; unfold aligned in Halign; lia|].
    intros s'. unfold add_sequencer_block_to_next_submission. destruct (try_add _ _ _) as [[n|e]| |]; cbn; [| |done..].
    + intros [= <-]. left. unfold aligned in Halign. lia.
    + destruct e; [|done..]. intros [= <-]. left. unfold aligned in Halign. lia.
Qed.

(** ** The stream of blocks *)
Lemma index_insert_elem {V : Type} (k : RollupId) (v : V) m kv : kv ∈ index_insert k v m -> kv.1 = k \/ kv ∈ m.
Proof.
  induction m as [|[k' v'] m IH]; cbn.
  - intros ->%list_elem_of_singleton. by left.
  - case_decide as Hk; intros [->|Hin]%elem_of_cons; [by left|right; by right|right; by left|].
    destruct (IH Hin); [by left|right; by right].
Qed.
Lemma index_collect_keys {V : Type} (P : RollupId -> Prop) (l : list (RollupId * V)) :
  Forall (fun kv => P kv.1) l -> Forall (fun kv => P kv.1) (index_collect l).
Proof.
  unfold index_collect. cut (forall m : list (RollupId * V), Forall (fun kv => P kv.1) m -> Forall (fun kv => P kv.1) l ->
    Forall (fun kv => P kv.1) (fold_left (fun m kv => index_insert kv.1 kv.2 m) l m)).
  { intros Hcut Hl. by apply Hcut; [constructor|]. }
  induction l as [|[k v] l IH]; intros m Hm Hl; [done|]. apply list.Forall_cons in Hl as [Hk Hl]. cbn. apply IH; [|done].
  apply list.Forall_forall. intros kv Hkv. apply index_insert_elem in Hkv as [->|Hkv]; [done|].
  by apply (proj1 (list.Forall_forall _ _) Hm).
Qed.
Lemma parsed_ids raw b : block_try_from_raw raw = Val (Ok b) -> ids_valid b.
Proof.
  unfold block_try_from_raw. intros Hrun.
  do 7 (apply attempt_bind_Ok in Hrun as (? & _ & Hrun)).
  apply attempt_bind_Ok in Hrun as (txs & Htxs & Hrun). cbv zeta in Hrun.
  do 8 (apply attempt_bind_Ok in Hrun as (? & _ & Hrun)).
  injection Hrun as <-. unfold ids_valid. cbn [sb_rollup_transactions].
  apply index_collect_keys. rewrite attempt_err_Ok, attempt_collect_Ok in Htxs.
  apply list.Forall_forall. intros [id t] Hin. apply list_elem_of_lookup in Hin as [i Hi].
  destruct (Forall2_lookup_r _ _ _ _ _ Htxs Hi) as (r & _ & Hr). clear Htxs Hi.
  unfold rollup_txs_to_tuple in Hr. apply attempt_bind_Ok in Hr as (t' & Ht' & Hr). injection Hr as <- <-.
  unfold rollup_transactions_try_from_raw in Ht'.
  apply attempt_bind_Ok in Ht' as (rid & _ & Ht'). apply attempt_bind_Ok in Ht' as (id' & Hid & Ht').
  do 2 (apply attempt_bind_Ok in Ht' as (? & _ & Ht')). injection Ht' as <-. cbn.
  apply checked_Ok in Hid. unfold rollup_id_try_from_raw, rollup_id_try_from_slice in Hid. unfold rollup_id_valid.
  destruct (String.length (raw_rollup_inner rid) =? 32)%nat eqn:Hlen; cbn in Hid; [|done].
  injection Hid as <-. by apply Nat.eqb_eq.
Qed.

Context `{IncrementLaw}.
(** The heights of the blocks that wait for the submitter, the one that is
    fetched and the next one follow each other. *)
Definition stream_at (queued : list SequencerBlock) (start : Z) (s : BlockStream) : Prop :=
  let next := next_height (stream_heights s) in
  Forall ids_valid queued /\ start <= next /\ height_in_flight s = future s /\
  ((sequencer_block_height <$> queued) ++ option_list (future s))%list = seqZ start (next - start).

Lemma start_fetch_at queued start s w : disk_ok w -> stream_at queued start s ->
  wp (start_fetch s) (on_ok (fun s' w' => celestia w' = celestia w /\ stream_at queued start s')) w.
Proof.
  intros Hd Hs. pose proof Hs as (Hids & Hle & Hflight & Hheights). unfold start_fetch.
  destruct (future s) as [h|] eqn:Hfut; [by apply wp_ret|]. destruct (paused s); [by apply wp_ret|].
  destruct (next_height_to_fetch _) as [h|] eqn:Hnext; [|by apply wp_ret].
  apply wp_bind, wp_status; [done|]. apply wp_bind, wp_run; [done|]. intros heights Hinc.
  apply wp_ret; [done|]. split; [done|].
  unfold increment_next in Hinc. destruct (height_increment _) as [h'| |] eqn:Hh'; [|done..].
  injection Hinc as <-. apply increment_adds_one in Hh'. subst h'.
  assert (h = next_height (stream_heights s)) as ->.
  { unfold next_height_to_fetch in Hnext. destruct (last_observed _) as [o|]; cbn in Hnext; [|done].
    destruct (_ <=? o); [by injection Hnext|done]. }
  unfold stream_at. cbn. split_and!; [done|lia|done|]. cbn in Hheights. rewrite app_nil_r in Hheights.
  rewrite Hheights. set (next := next_height _) in *. replace (next + 1 - start) with (next - start + 1) by lia.
  rewrite seqZ_app by lia. f_equal. rewrite seqZ_cons by lia. cbn. f_equal. lia.
Qed.
Lemma fetch_with_retry_at retries : forall responses w, disk_ok w ->
  wp (fetch_with_retry retries responses) (on_ok (fun _ w' => celestia w' = celestia w)) w.
Proof.
  induction retries as [|retries IH]; intros [|[raw|e] responses] w Hd; cbn [fetch_with_retry]; try by apply wp_ret.
  apply wp_bind, wp_status; [done|]. apply (IH responses (upd_snapshot _ w) Hd).
Qed.
Lemma fetch_block_at retries responses height w : disk_ok w ->
  wp (fetch_block retries responses height)
    (on_ok (fun o w' => celestia w' = celestia w /\
       forall b, o = Some (Ok b) -> ids_valid b /\ sequencer_block_height b = height)) w.
Proof.
  intros Hd. apply wp_bind. eapply wp_mono; [by apply fetch_with_retry_at|].
  intros [[[raw|e]|]|e] w1 Hd1 Hk1 Heq; cbn in Heq; [|by apply wp_ret..|done].
  apply wp_bind, wp_run; [done|]. intros maybe_block Hparse. apply wp_bind, wp_status; [done|]. apply wp_ret; [done|].
  split; [done|]. intros b [= Hb]. destruct maybe_block as [b'|e]; cbn in Hb; [|done].
  destruct (Z.eqb_spec height (sequencer_block_height b')) as [->|]; cbn in Hb; [|done]. injection Hb as <-.
  split; [by eapply parsed_ids|done].
Qed.
Lemma poll_next_at retries responses queued start s w : disk_ok w -> stream_at queued start s ->
  wp (poll_next retries responses s)
    (on_ok (fun p w' => celestia w' = celestia w /\
       match p.1 with
       | StreamPoll_Item height (Ok b) => stream_at (queued ++ [b]) start p.2
       | StreamPoll_Item _ (Err _) => True
       | _ => stream_at queued start p.2
       end)) w.
Proof.
  intros Hd Hs. apply wp_bind. eapply wp_mono; [by apply start_fetch_at|]. intros [s1|e] w1 Hd1 _ Hs1; [|done].
  destruct Hs1 as [Heq1 Hs1]. pose proof Hs1 as (Hids & Hle & Hflight & Hheights).
  destruct (future s1) as [h|] eqn:Hfut; [|by apply wp_ret].
  apply wp_bind. eapply wp_mono; [by apply fetch_block_at|]. intros [[[b|e]|]|e] w2 Hd2 _; [| | |done].
  - intros [Heq2 Hb]. destruct (Hb b eq_refl) as [Hbids Hheight]. apply wp_bind, wp_run; [done|]. intros height _.
    apply wp_ret; [done|]. split; [congruence|]. unfold stream_at. cbn. split_and!; [|done..|].
    + apply list.Forall_app. by repeat constructor.
    + rewrite fmap_app, app_nil_r. cbn. by rewrite Hheight.
  - intros [Heq2 _]. apply wp_bind, wp_run; [done|]. intros height _. apply wp_ret; [done|]. split; [congruence|done].
  - intros [Heq2 _]. apply wp_ret; [done|]. split; [congruence|done].
Qed.

(** ** Sessions *)
Definition startup_ok (a : App) (start : Z) (s : SubmissionStateAtStartup) : Prop :=
  match s with
  | AtStartup_Fresh _ => start = 1
  | AtStartup_Started s => posted_upto a (last_submission_sequencer_height s) /\
      start = last_submission_sequencer_height s + 1
  | AtStartup_Prepared p => prepared_ok a p /\ start = completed_sequencer_height (prepared_last_submission p) + 1
  end.
Definition task_ok (a : App) (start : Z) (t : SubmitterTask) : Prop :=
  match t with
  | Task_Starting s => startup_ok a start s
  | Task_Running b => exists next, submitter_ok a next b /\ aligned start next b
  | Task_Finished _ => True
  end.
Definition queued (s : Session) : list SequencerBlock := (channel s ++ option_list (forward_once_free s))%list.
Definition session_ok (a : App) (s : Session) : Prop :=
  exists start, stream_at (queued s) start (block_stream s) /\ task_ok a start (submitter_task s).
Definition program_ok (p : Program) : Prop :=
  disk_ok p.2 /\ match p.1 with Some s => session_ok (celestia p.2) s | None => True end.

Lemma task_ok_keeps a a' start t : keeps a a' -> task_ok a start t -> task_ok a' start t.
Proof.
  destruct t as [[]| |]; cbn; intros Hk; [done| | | |done].
  - intros [Hp ->]. split; [by eapply posted_upto_keeps|done].
  - intros [Hp ->]. split; [by eapply prepared_ok_keeps|done].
  - intros (next & Hs & Ha). exists next. split; [by eapply submitter_ok_keeps|done].
Qed.

(** *** The relayer's turns *)
Lemma relayer_start_ok cfg received w : disk_ok w ->
  wp (relayer_start cfg received) (on_ok (fun s w' => session_ok (celestia w') s)) w.
Proof.
  intros Hd. unfold relayer_start, new_from_path. do 2 apply wp_bind. eapply wp_mono; [by apply wp_read|].
  intros [s|e] w1 Hd1 _ Hs; [|done]. destruct Hs as [Heq1 Hs]. rewrite <- Heq1 in Hs.
  apply wp_bind, wp_map_err. eapply wp_mono; [by apply wp_write|]. intros [[]|e] w2 Hd2 Hk2 Heq2; cbn [map_err]; [|done].
  cbn in Heq2. rewrite <- Heq2 in Hs. apply wp_ret; [done|]. apply wp_bind, wp_result; [done|].
  destruct (confirm_sequencer_chain_id _ _); [|done].
  apply wp_bind, wp_run; [done|]. intros stream Hbuild. apply wp_bind. unfold io_modify.
  unfold wp at 1. cbn. split_and!; [done..|]. apply wp_ret; [done|].
  unfold block_stream_build in Hbuild. destruct s as [|last|height last hash at_]; cbn in Hbuild.
  - injection Hbuild as <-. exists 1. split; [|done]. split; [by constructor|]. by cbn.
  - destruct (height_increment _) as [next| |] eqn:Hnext; [|done..]. apply increment_adds_one in Hnext. injection Hbuild as <-.
    exists next. split; [split; [by constructor|]; cbn; by rewrite Z.sub_diag|]. by split.
  - destruct (height_increment _) as [next| |] eqn:Hnext; [|done..]. apply increment_adds_one in Hnext. injection Hbuild as <-.
    exists next. split; [split; [by constructor|]; cbn; by rewrite Z.sub_diag|]. by split.
Qed.
Lemma handle_latest_height_ok res s w : disk_ok w -> session_ok (celestia w) s ->
  wp (handle_latest_height res s) (on_ok (fun s w' => session_ok (celestia w') s)) w.
Proof. intros Hd Hs. destruct res; cbn; (apply wp_bind, wp_status; [done|]); by apply wp_ret. Qed.
Lemma try_send_ok block s s' : submitter_try_send block s = Ok s' -> s' = upd_channel (channel s ++ [block])%list s.
Proof. unfold submitter_try_send. destruct (is_finished _); [done|]. destruct (_ <? _)%nat; [|done]. by intros [= <-]. Qed.
Lemma try_send_full block b s : submitter_try_send block s = Err (TrySendError_Full b) -> b = block.
Proof. unfold submitter_try_send. destruct (is_finished _); [done|]. destruct (_ <? _)%nat; by intros [=]. Qed.
Lemma on_forwarded_ok block s w : disk_ok w -> forward_once_free s = Some block -> session_ok (celestia w) s ->
  wp (on_forwarded block s) (on_ok (fun s w' => session_ok (celestia w') s)) w.
Proof.
  intros Hd Hf Hs. unfold on_forwarded. destruct (submitter_try_send block s) as [s'|[b|]] eqn:Hsend.
  - apply wp_ret; [done|]. apply try_send_ok in Hsend as ->. destruct Hs as (start & Hstream & Htask).
    exists start. split; [|done]. unfold queued in *. rewrite Hf in Hstream. cbn in Hstream |- *. by rewrite app_nil_r.
  - by apply wp_ret.
  - by apply wp_result.
Qed.
Lemma on_block_ok retries responses s w : disk_ok w -> session_ok (celestia w) s ->
  wp (on_block retries responses s) (on_ok (fun s w' => session_ok (celestia w') s)) w.
Proof.
  intros Hd (start & Hstream & Htask). apply wp_bind. eapply wp_mono; [by apply poll_next_at|].
  intros [[poll stream]|e] w1 Hd1 Hk1; [|done]. intros [Heq1 Hpoll]. cbn in Hpoll |- *. rewrite <- Heq1 in Htask.
  destruct poll as [| |height [b|e]]; [apply wp_ret; [done|]; by exists start..| |by apply wp_result].
  apply wp_bind, wp_status; [done|]. apply wp_bind, wp_run; [done|]. intros [] Hnone.
  destruct (forward_once_free _) eqn:Hf in Hnone; [done|]. cbn in Hf.
  unfold queued in Hpoll. rewrite Hf in Hpoll. cbn in Hpoll. rewrite app_nil_r in Hpoll.
  destruct (submitter_try_send b _) as [s'|[b'|]] eqn:Hsend.
  - apply wp_ret; [done|]. apply try_send_ok in Hsend as ->. exists start. split; [|done].
    unfold queued. cbn. rewrite Hf. cbn. by rewrite app_nil_r.
  - apply wp_ret; [done|]. apply try_send_full in Hsend as ->. exists start. split; [|done]. by unfold queued.
  - by apply wp_result.
Qed.

(** *** The submitter's turns *)
Lemma wp_on_app {E A B} (call : App -> Response A * App) (g : Response A -> result E B) w : disk_ok w ->
  (forall a, keeps a (call a).2) -> wp (on_app call g) (fun _ _ => True) w.
Proof.
  intros Hd Hk. apply wp_bind, wp_tick; [done|]. intros t ts Hd1.
  pose proof (wp_app (fun a => (Val (g (call a).1), (call a).2)) (fun _ _ => True) (upd_ticks ts w) Hd1 (Hk _)) as Hwp.
  unfold wp, io in Hwp |- *. cbn in *. destruct (call (celestia w)). by apply Hwp.
Qed.
Lemma init_with_retry_ok b retries : forall w, disk_ok w -> wp (init_with_retry retries b) (fun _ _ => True) w.
Proof.
  assert (forall w, disk_ok w -> wp (client_try_build b) (fun _ _ => True) w) as Hbuild.
  { intros w Hd. apply wp_bind. eapply wp_mono; [apply wp_on_app; [done|intros a h; apply node_info_keeps]|].
    intros [received|e] w1 Hd1 _ _; [|done]. apply wp_bind, wp_result; [done|]. destruct (ensure _ _); [|done].
    apply wp_bind, wp_status; [done|]. by apply wp_ret. }
  induction retries as [|retries IH]; intros w Hd; cbn [init_with_retry]; apply wp_bind, wp_try;
    (eapply wp_mono; [by apply Hbuild|]); intros [c|e] w1 Hd1 _ _; cbn iota.
  - by apply wp_ret.
  - destruct e; by apply wp_result.
  - by apply wp_ret.
  - destruct e; first [by apply wp_result|by apply IH].
Qed.
Lemma submitter_started a last c s : last_submission_sequencer_height s = last -> posted_upto a last ->
  submitter_ok a (last + 1) (mk_submitter c (next_submission_new f) None s None).
Proof.
  intros <- Hp. split; [done|]. eexists _, _. split; [done|]. split; [apply collected_new|done].
Qed.
Lemma submitter_start_ok cfg startup start w : include_rollups cfg = f -> disk_ok w ->
  startup_ok (celestia w) start startup ->
  wp (submitter_start cfg startup) (on_ok (fun b w' => task_ok (celestia w') start (Task_Running b))) w.
Proof.
  intros Hf Hd Hs. apply wp_bind, wp_map_err. eapply wp_mono; [by apply init_with_retry_ok|].
  intros [c|e] w1 Hd1 Hk1 _; cbn [map_err]; [|done]. apply (task_ok_keeps _ _ _ (Task_Starting startup) Hk1) in Hs.
  apply wp_bind. rewrite Hf. destruct startup as [fresh|s|p]; cbn in Hs.
  - apply wp_ret; [done|]. apply wp_ret; [done|]. exists 1. subst start. split; [|by left].
    apply (submitter_started _ 0); [done|apply posted_upto_zero].
  - apply wp_ret; [done|]. apply wp_ret; [done|]. destruct Hs as [Hp ->].
    eexists. split; [by apply submitter_started|by left].
  - destruct Hs as [Hprep ->]. eapply wp_mono; [by apply wp_confirm_last_session|].
    intros [s|e] w2 Hd2 Hk2; [|done]. intros [Hp Hheight]. apply wp_ret; [done|].
    eexists. split; [by apply submitter_started|]. unfold aligned. cbn. destruct Hprep as (Hlt & _). cbn in Hlt. lia.
Qed.
Lemma on_submitted_ok retries data started b next w : disk_ok w -> ongoing_submission b = Some (data, started) ->
  submitter_ok (celestia w) next b ->
  wp (on_submitted retries data started b) (on_ok (fun b' w' => submitter_ok (celestia w') next b' /\
    forall start, aligned start next b -> aligned start next b')) w.
Proof.
  intros Hd Hongoing [Hp (low & high & Ho & Hc & Hpending)]. rewrite Hongoing in Ho.
  destruct Ho as (-> & Hlt & Hheight & Hb). apply wp_bind. eapply wp_mono; [by apply wp_submit_blobs|].
  intros [s'|e] w1 Hd1 Hk1; [|done]. intros [Hs' Hposted]. apply wp_ret; [done|]. cbn. split.
  - split; [cbn; by rewrite Hs'|]. exists low, high. by split_and!.
  - assert (low <= high) as Hle by (by destruct Hc as (? & ? & _ & ? & _)).
    unfold aligned. cbn. intros start [->|[Hstart Hnext]]; [by left|].
    exfalso. destruct (pending_block b) as [block|]; [destruct Hpending as (_ & _ & ->)|subst next]; lia.
Qed.
Lemma termination_ok retries b w : disk_ok w -> ongoing_ok (celestia w) b ->
  wp (ongoing_submission_termination retries b) (fun _ _ => True) w.
Proof.
  intros Hd Ho. unfold ongoing_submission_termination, ongoing_ok in *.
  destruct (ongoing_submission b) as [[data started]|]; [|by apply wp_ret]. destruct Ho as (height & Hp & Hh & Hb).
  apply wp_bind, wp_try. eapply wp_mono; [by apply wp_submit_blobs|]. intros r w1 Hd1 _ _. by apply wp_ret.
Qed.
Lemma after_turn_ok retries t next w : disk_ok w -> turn_ok (celestia w) next t ->
  wp (after_turn retries t) (on_ok (fun b w' => t = Val (b, None) /\ submitter_ok (celestia w') next b)) w.
Proof.
  intros Hd Ht. apply wp_bind, wp_run; [done|]. intros [b [reason|]] ->; cbn in Ht.
  - apply wp_bind. eapply wp_mono; [by apply termination_ok|]. intros [[]|e] w1 Hd1 _ _; [|done]. by apply wp_result.
  - by apply wp_ret.
Qed.

(** *** Every step keeps the invariant *)
Lemma on_take_started order b b' : on_take order b = Val (b', None) -> started_submission b' = started_submission b.
Proof.
  unfold on_take. destruct (take_submission _) as [[data|] n]; [|by intros [= <-]].
  destruct (pending_block b) as [block|]; [|by intros [= <-]]. unfold add_sequencer_block_to_next_submission.
  destruct (try_add _ _ _) as [[n'|[]]| |]; cbn; by intros [= <-].
Qed.
Lemma stream_pop s block rest start : channel s = block :: rest -> stream_at (queued s) start (block_stream s) ->
  ids_valid block /\ sequencer_block_height block = start /\
  stream_at (queued (upd_channel rest s)) (start + 1) (block_stream s).
Proof.
  intros Hch (Hids & Hle & Hflight & Hheights). unfold queued in *. rewrite Hch in Hids, Hheights. cbn in Hids, Hheights.
  apply list.Forall_cons in Hids as [Hblock Hids].
  destruct (Z.eq_dec start (next_height (stream_heights (block_stream s)))) as [Heq|].
  { rewrite <- Heq, Z.sub_diag in Hheights. done. }
  rewrite seqZ_cons in Hheights by lia. injection Hheights as Hstart Hrest. split; [done|]. split; [done|].
  split; [done|]. split; [lia|]. split; [done|]. cbn. rewrite Hrest. f_equal; lia.
Qed.
Lemma wp_ticks {E A} ts (m : IO E A) Q w r w' : with_ticks ts m w = (r, w') -> disk_ok w ->
  (disk_ok (upd_ticks ts w) -> wp m Q (upd_ticks ts w)) ->
  disk_ok w' /\ keeps (celestia w) (celestia w') /\ match r with Val r => Q r w' | _ => True end.
Proof. unfold with_ticks. intros Hrun Hd Hwp. specialize (Hwp Hd). unfold wp in Hwp. by rewrite Hrun in Hwp. Qed.
Lemma relayer_outcome_ok r w : disk_ok w ->
  match r with Val r => on_ok (fun s w' => session_ok (celestia w') s) r w | _ => True end ->
  program_ok (relayer_outcome r, w).
Proof. intros Hd Hr. split; [done|]. by destruct r as [[s|e]| |]. Qed.
Lemma submitter_outcome_ok s start r w : disk_ok w -> stream_at (queued s) start (block_stream s) ->
  match r with Val r => on_ok (fun b w' => task_ok (celestia w') start (Task_Running b)) r w | _ => True end ->
  program_ok (submitter_outcome s r, w).
Proof.
  intros Hd Hs Hr. split; [done|]. destruct r as [[b|e]| |]; cbn; [by exists start|by exists start|by exists start|done].
Qed.
Lemma relayer_step_ok cfg p p' : include_rollups cfg = f -> program_ok p -> relayer_step cfg p p' -> program_ok p'.
Proof.
  intros Hf [Hd Hs] Hstep.
  destruct Hstep as [w ts received r w' Hrun|s w ts res r w' Hrun|s w ts block r w' Hfwd Hrun|s w ts responses r w' Hrun
    |s w ts startup r w' Htask Hrun|s w ts b data started r w' Htask Hongoing Hrun|s w ts order b r w' Horder Htask Hongoing Hrun
    |s w ts order b block rest r w' Horder Htask Hcap Hch Hrun|s w reason Htask|s w ts b r w' Htask Hrun|s w];
    cbn [fst snd] in Hd, Hs.
  - eapply wp_ticks in Hrun as (Hd' & _ & Hr); [|done|by apply relayer_start_ok]. by apply relayer_outcome_ok.
  - eapply wp_ticks in Hrun as (Hd' & _ & Hr); [|done|intros Hd1; by apply handle_latest_height_ok]. by apply relayer_outcome_ok.
  - eapply wp_ticks in Hrun as (Hd' & _ & Hr); [|done|intros Hd1; by apply on_forwarded_ok]. by apply relayer_outcome_ok.
  - eapply wp_ticks in Hrun as (Hd' & _ & Hr); [|done|intros Hd1; by apply on_block_ok]. by apply relayer_outcome_ok.
  - destruct Hs as (start & Hstream & Hs). rewrite Htask in Hs.
    eapply wp_ticks in Hrun as (Hd' & _ & Hr); [|done|intros Hd1; by apply submitter_start_ok]. by eapply submitter_outcome_ok.
  - destruct Hs as (start & Hstream & Hs). rewrite Htask in Hs. destruct Hs as (next & Hs & Halign).
    eapply wp_ticks in Hrun as (Hd' & _ & Hr); [|done|intros Hd1; by eapply (on_submitted_ok _ _ _ _ next)].
    eapply submitter_outcome_ok; [done..|]. destruct r as [[b'|e]| |]; try done. destruct Hr as [Hb' Ha].
    exists next. split; [done|by apply Ha].
  - destruct Hs as (start & Hstream & Hs). rewrite Htask in Hs. destruct Hs as (next & Hs & Halign).
    eapply wp_ticks in Hrun as (Hd' & Hk & Hr); [|done|intros Hd1; apply (after_turn_ok _ _ next); [done|by apply on_take_ok]].
    eapply submitter_outcome_ok; [done..|]. destruct r as [[b'|e]| |]; try done. destruct Hr as [Hb' Hok].
    exists next. split; [done|]. unfold aligned in *. by rewrite (on_take_started order b b').
  - destruct Hs as (start & Hstream & Hs). rewrite Htask in Hs. destruct Hs as (next & Hs & Halign).
    destruct (stream_pop s block rest start Hch Hstream) as (Hids & Hheight & Hstream').
    destruct (on_receive_ok order block start next b (celestia w) Hcap Hids Hheight Halign Hs) as (next' & Hturn & Hnext').
    eapply wp_ticks in Hrun as (Hd' & Hk & Hr); [|done|intros Hd1; by apply (after_turn_ok _ _ next')].
    eapply submitter_outcome_ok; [done..|]. destruct r as [[b'|e]| |]; try done. destruct Hr as [Hb' Hok].
    exists next'. split; [done|by apply Hnext'].
  - by split.
  - destruct Hs as (start & Hstream & Hs). rewrite Htask in Hs. destruct Hs as (next & Hs & Halign).
    eapply wp_ticks in Hrun as (Hd' & _ & _); [|done|intros Hd1; apply termination_ok; [done|by eapply submitter_ongoing]].
    by split.
  - by split.
Qed.
End safety.

(** ** The theorem *)
Section lost.
Context `{BlobWriter} {laws : BlockLaws}.
Context `{CelestiaLaws, StateJsonLaws, IncrementLaw}.

(** C14. Starting from a fresh state file, in whatever order things happen, however
    often requests and file operations fail, and wherever the relayer is killed and
    started again: the state file can always be read, and every sequencer height up
    to the one it records as submitted is the height of a block whose data,
    filtered by rollup, is in a transaction that Celestia has stored. *)
Theorem no_block_is_lost cfg w c p :
  state_file w = Some c -> state_of_json c = Some FileState_Fresh ->
  rtc (relayer_step cfg) (None, w) p ->
  exists c s, state_file p.2 = Some c /\ state_of_json c = Some s /\
    match s with
    | FileState_Fresh => True
    | FileState_Started last => posted_upto (include_rollups cfg) (celestia p.2) (completed_sequencer_height last)
    | FileState_Prepared height last _ _ => completed_sequencer_height last < height /\
        posted_upto (include_rollups cfg) (celestia p.2) (completed_sequencer_height last)
    end.
Proof.
  intros Hc Hfresh Hsteps. assert (program_ok (include_rollups cfg) (None, w)) as Hok.
  { split; [|done]. by exists c, FileState_Fresh. }
  assert (program_ok (include_rollups cfg) p) as [(c' & s & Hc' & Hs & Hstate) _].
  { clear Hc. induction Hsteps as [|p1 p2 p3 Hstep _ IH]; [done|]. apply IH. by eapply relayer_step_ok. }
  exists c', s. split_and!; [done..|]. destruct s; [done|done|]. destruct Hstate as (Hlt & Hp & _). by split.
Qed.
End lost.
