(* ===== verification/ConductorDemo.v ===== *)
(** * A concrete conductor

    A sequencer that serves one commit, a rollup node that numbers its blocks,
    and the block of [BlockDemo] posted to Celestia: the properties of the
    conductor applied to them. *)
From S2P Require Import Prelude Denom Types State Chain Ics20 Demo.
From S2P Require Import Wire WireActions WireLaws WireTransaction WireTheorems Collections.
From S2P Require Import MerkleIndex MerkleTree MerkleCorrect MerkleAudit Block SequencerBlock.
From S2P Require Import BlockLemmas BlockBuild BlockTheorems BlockDemo VoteExtension VoteTheorems.
From S2P Require Import ConductorState BTree BlockCache CelestiaBlobs CommitQuorum.
From S2P Require Import CelestiaTheorems Executor ExecutorLemmas ExecutorTheorems CelestiaReader SequencerReader.
From S2P Require Import ConductorSystem.
From stdpp Require Import base list option strings gmap sets relations numbers pretty tactics.
From Stdlib Require Import ZArith Lia Ascii String Strings.Byte.
Open Scope string_scope.
Open Scope Z_scope.

(** ** The sequencer *)
#[local] Opaque demo_block.
#[local] Instance conductor_heights : TendermintHeight :=
  fun h => if h <? 2 ^ 63 - 1 then Val (h + 1) else Panic.
#[local] Existing Instances block_codec block_demo_laws vote_codec.
#[local] Instance conductor_height_laws : HeightLaws.
Proof.
  split.
  - intros h. change (((0 <=? h) && (h <? 2 ^ 63)) = true <-> 0 <= h < 2 ^ 63).
    rewrite andb_true_iff, Z.leb_le, Z.ltb_lt. done.
  - intros h Hh. unfold height_increment, conductor_heights. by rewrite (proj2 (Z.ltb_lt _ _)) by lia.
  - done.
Qed.
#[local] Instance conductor_comet : CometBft := {|
  account_id_of := fun k => k;
  encode_canonical_vote := fun v => cv_chain_id v ++ block_id_hash (cv_block_id v) |}.

(** Blobs are not compressed; those that decode hold the block of [BlockDemo], or
    metadata of it with a proof of a tree with one leaf that is a hash long. *)
Definition overlong_metadata : RawSubmittedMetadata :=
  metadata_into_raw (mk_metadata (sb_block_hash demo_block) (sb_header demo_block) []
    (MkProof (toy_sha []) 0 1) (sb_rollup_ids_proof demo_block) [] None).
#[local] Instance conductor_blobs : BlobCodec := {|
  blob_codec := block_codec;
  decompress_bytes := Some;
  decode_metadata_list := fun s =>
    if String.eqb s "headers" then Some [metadata_into_raw (split_for_celestia demo_block).1]
    else if String.eqb s "overlong" then Some [overlong_metadata] else None;
  decode_rollup_data_list := fun s =>
    if String.eqb s "data" then 
      Some (submitted_rollup_into_raw <$>
              filter (fun d => srd_rollup_id d = rollup_b) (split_for_celestia demo_block).2)
    else None |}.

Definition carol : ValidatorInfo := mk_validator_info "carol" 2.
Definition dave : ValidatorInfo := mk_validator_info "dave" 1.
Definition served_validators : ValidatorsResponse := mk_validators_response 6 [carol; dave].
Definition vote_of (v : ValidatorInfo) : CommitSig :=
  BlockIdFlagCommit (vi_pub_key v) 0 (Some (vi_pub_key v ++ "astria-2" ++ "real block")).
Definition commit_with (votes : list CommitSig) : Commit := mk_commit 7 0 (mk_block_id "real block" "parts") votes.
(** The commit at height 7: of another block and another chain than the block
    of [BlockDemo] *)
Definition served_commit : Commit := commit_with [vote_of carol; BlockIdFlagAbsent; vote_of dave].
#[local] Instance conductor_rpc : SequencerRpc := {|
  rpc_commit := fun h => if h =? 7 then Some (mk_signed_header "astria-2" served_commit) else None;
  rpc_validators := fun h => if h =? 6 then Some served_validators else None |}.
Definition served_meta : VerificationMeta := mk_verification_meta (mk_signed_header "astria-2" served_commit).
Lemma demo_served : fetch_verification_meta 7 = Val (Ok served_meta).
Proof. vm_compute. reflexivity. Qed.

Lemma accepted_commit_is_signed_witness :
  exists signers, Forall2 (signed_by [carol; dave] served_commit "astria-2")
    [vote_of carol; vote_of dave] signers.
Proof.
  destruct (accepted_commit_is_signed served_commit served_validators "astria-2") as (_ & signers & _ & Hs & _).
  - by vm_compute.
  - by exists signers.
Defined.
Lemma repeated_vote_is_quorum_witness :
  ensure_commit_has_quorum (commit_with (replicate 3 (vote_of dave))) served_validators "astria-2" = Val (Ok tt).
Proof.
  apply (repeated_vote_is_quorum served_validators (commit_with (replicate 3 (vote_of dave))) "astria-2" dave
    "dave" 0 ("dave" ++ "astria-2" ++ "real block") 3) with (total := 3); by vm_compute.
Defined.

(** ** Celestia *)
Definition conductor_session : ExecutionSessionParameters :=
  mk_session_params rollup_b 1 (Some 1) "astria-1" 7 "celestia" 5.
Definition genesis_block : ExecutedBlockMetadata := mk_executed 0 "genesis" "" (mk_timestamp 0 0) "".
Definition conductor_state : RollupState :=
  mk_rollup_state "session" conductor_session (mk_commitment genesis_block genesis_block 100).

Definition posted_blobs : RawBlobs :=
  mk_raw_blobs 100 [mk_blob "sequencer" "headers"] [mk_blob "rollup" "data"].
Definition no_metadata : UncheckedSubmittedMetadata :=
  mk_unchecked_metadata [] (mk_header "" 0 0 [] [] "") [] (MkProof [] 0 0) (MkProof [] 0 0) [] None.
Definition overlong_unchecked : UncheckedSubmittedMetadata :=
  value_or no_metadata (unchecked_metadata_try_from_raw overlong_metadata).
Lemma overlong_stops_witness_decodes :
  unchecked_metadata_try_from_raw overlong_metadata = Val (Ok overlong_unchecked).
Proof. apply value_of. by vm_compute. Qed.
Lemma overlong_proof_stops_the_reader_witness :
  convert_verify_and_reconstruct (fun l => l) ∅
    (mk_raw_blobs 100 [mk_blob "sequencer" "headers"; mk_blob "sequencer" "overlong"] [mk_blob "rollup" "data"])
    rollup_b "rollup" "sequencer" conductor_state =
  Val (Err "encountered panic while decoding raw Celestia blobs", ∅).
Proof.
  apply (@overlong_proof_stops_the_reader conductor_blobs _ _ _ (fun l => l) ∅ _ rollup_b "rollup" "sequencer" conductor_state
    (mk_blob "sequencer" "overlong") overlong_metadata overlong_unchecked (toy_sha [])).
  - right. by left.
  - reflexivity.
  - reflexivity.
  - exact overlong_stops_witness_decodes.
  - by vm_compute.
  - by vm_compute.
Defined.

Lemma demo_vouched : vouched 7.
Proof. exists served_meta. exact demo_served. Qed.
Lemma demo_next : next_expected_firm_sequencer_height conductor_state = Val 7.
Proof. reflexivity. Qed.
Lemma demo_height : header_height (@sb_header (@blob_codec conductor_blobs) demo_block) = 7.
Proof. by vm_compute. Qed.
Definition demo_metadata : SubmittedMetadata := @metadata_of conductor_blobs demo_block.
Definition demo_rollup_data : list SubmittedRollupData :=
  option_list (@rollup_blob conductor_blobs rollup_b demo_block).
Lemma demo_headers_carried :
  Forall2 (carries "sequencer" convert_blob_to_header_list metadata_into_raw)
    [mk_blob "sequencer" "headers"] [[demo_metadata]].
Proof. constructor; [split; [done|by vm_compute]|constructor]. Qed.
Lemma demo_data_carried :
  Forall2 (carries "rollup" convert_blob_to_rollup_data_list submitted_rollup_into_raw)
    [mk_blob "rollup" "data"] [demo_rollup_data].
Proof. constructor; [split; [done|by vm_compute]|constructor]. Qed.
Lemma concat_option_list {A} (o : option A) : List.concat [option_list o] = option_list o.
Proof. by destruct o. Qed.
Lemma omap_one {A B} (f : A -> option B) a : omap f [a] = option_list (f a).
Proof. cbn. by destruct (f a). Qed.

Lemma celestia_roundtrip_witness : exists blocks cache',
  convert_verify_and_reconstruct reverse ∅ posted_blobs rollup_b "rollup" "sequencer" conductor_state =
    Val (Ok blocks, cache') /\
  rec_transactions <$> blocks ≡ₚ [["sfirst"; "sthird"; "dx"; "dy"]].
Proof.
  destruct (@celestia_roundtrip conductor_blobs block_demo_laws _ _ _ reverse ∅ posted_blobs rollup_b "rollup" "sequencer" conductor_state
    [demo_block] 7 [[demo_metadata]] [demo_rollup_data])
    as (blocks & cache' & Hrun & Hp).
  - intros l. apply reverse_Permutation.
  - constructor; [apply demo_block_well_formed|constructor].
  - apply list.NoDup_singleton.
  - exact demo_next.
  - constructor; [|constructor]. rewrite demo_height. split; [discriminate|exact demo_vouched].
  - exact demo_headers_carried.
  - done.
  - exact demo_data_carried.
  - unfold demo_rollup_data; by rewrite concat_option_list, omap_one.
  - exists blocks, cache'. split; [exact Hrun|]. rewrite Hp. by vm_compute.
Defined.

Lemma forged_block_is_reconstructed_witness : exists cache',
  convert_verify_and_reconstruct (fun l => l) ∅ posted_blobs rollup_b "rollup" "sequencer" conductor_state =
    Val (Ok [firm_block 100 rollup_b demo_block], cache').
Proof.
  destruct (@forged_block_is_reconstructed conductor_blobs block_demo_laws _ _ _ (fun l => l) ∅ (mk_blob "sequencer" "headers") [mk_blob "rollup" "data"] 100
    rollup_b "rollup" "sequencer" conductor_state demo_block 7 served_meta
    [demo_rollup_data]) as (_ & _ & cache' & Hrun).
  - done.
  - apply demo_block_well_formed.
  - exact demo_next.
  - by rewrite demo_height.
  - rewrite demo_height. exact demo_served.
  - by vm_compute.
  - by vm_compute.
  - exact (proj1 (proj1 (list.Forall2_cons _ _ _ _ _) demo_headers_carried)).
  - exact demo_data_carried.
  - unfold demo_rollup_data; by rewrite concat_option_list, omap_one.
  - by exists cache'.
Defined.
Lemma foreign_rollup_data_is_reconstructed_witness : exists block,
  reconstruct_blocks_from_verified_blobs
    (mk_verified 100 [header_entry demo_block] [blob_of_rollup demo_block rollup_b demo_rollup_b]) rollup_a =
  Val [block] /\ rec_transactions block = ["sfirst"; "sthird"; "dx"; "dy"].
Proof.
  eexists. split.
  - apply foreign_rollup_data_is_reconstructed; [exact demo_block_well_formed|].
    apply index_get_elem. by vm_compute.
  - by vm_compute.
Defined.

(** ** The executor *)
Definition numbering_node : Rollup := {|
  Node := Z;
  node_create_execution_session n :=
    (Ok (session_to_raw (mk_session "session" conductor_session (commitment_state conductor_state))), n);
  node_execute_block request n :=
    (Ok (Some (mk_raw_executed (n + 1) ("block " ++ pretty (n + 1)) (er_parent_hash request)
       (Some (er_timestamp request)) (er_sequencer_block_hash request))), n + 1);
  node_update_commitment_state _ c n := (Ok c, n);
  node_get_executed_block_metadata _ n := (Err Code_NotFound, n) |}.
#[local] Instance conductor_rollup : Rollup := recorded numbering_node.
#[local] Instance conductor_codec : RollupCodec := fun s =>
  Some (mk_raw_rollup_data (Some (RawRollupData_SequencedData s))).
Lemma numbering_commits : commits_what_is_asked numbering_node.
Proof. by intros session c n r n' [= <- _]. Qed.

Definition demo_firm_block : ReconstructedBlock := @firm_block conductor_blobs 100 rollup_b demo_block.
Definition run_state {A} (m : ExecM A) (e : Executor) : Executor := (m e).2.
Definition executor_start : Executor :=
  mk_executor SoftAndFirm 0 (unrecorded numbering_node 0) [] [] conductor_state ∅ (spawned_readers SoftAndFirm)
    false false.
Definition soft_sent : Executor := upd_soft_blocks (fun l => l ++ [demo_filtered])%list executor_start.
Definition soft_executed : Executor := run_state event_loop_turn soft_sent.
Definition firm_sent : Executor :=
  upd_firm_blocks (fun l => l ++ [demo_firm_block])%list soft_executed.
Definition firm_executed : Executor := run_state event_loop_turn firm_sent.
Definition handles (e : Executor) : bool :=
  match (event_loop_turn e).1 with Val (Ok Handled) => true | _ => false end.
Lemma handles_turn e : handles e = true -> event_loop_turn e = (Val (Ok Handled), run_state event_loop_turn e).
Proof. unfold handles, run_state. by destruct (event_loop_turn e) as [[[[]|]| |] ?]. Qed.
Lemma demo_executor_runs : rtc executor_step executor_start firm_executed.
Proof.
  eapply rtc_l; [apply (step_soft_sent executor_start demo_filtered); reflexivity|].
  eapply rtc_l; [apply step_turn, (handles_turn soft_sent); by vm_compute|].
  eapply rtc_l; [apply (step_firm_sent soft_executed (demo_firm_block)); by vm_compute|].
  eapply rtc_l; [apply step_turn, (handles_turn firm_sent); by vm_compute|]. done.
Qed.
Lemma executor_refines_the_chain_witness : exists c,
  represents numbering_node conductor_session "session" genesis_block SoftAndFirm firm_executed c /\
  firm_number (rollup_state firm_executed) = 1 /\ soft_number (rollup_state firm_executed) = 1 /\
  List.length (node firm_executed).2 = 1%nat.
Proof.
  destruct (executor_refines_the_chain numbering_node SoftAndFirm 0 0 executor_start firm_executed)
    as (c & _ & Hc).
  - exact numbering_commits.
  - reflexivity.
  - reflexivity.
  - discriminate.
  - split; [discriminate|reflexivity].
  - exact demo_executor_runs.
  - exists c. split; [exact Hc|]. by vm_compute.
Defined.

Definition firm_ended : Executor :=
  upd_reader_tasks (fun _ => [] ++ (ReaderKind_Firm, Some TaskSuccess) :: [(ReaderKind_Soft, None)])%list firm_executed.
Definition firm_joined : Executor := run_state event_loop_turn firm_ended.
Definition soft_ended : Executor :=
  upd_reader_tasks (fun _ => [] ++ (ReaderKind_Soft, Some TaskSuccess) :: [])%list firm_joined.
Definition soft_joined : Executor := run_state event_loop_turn soft_ended.
Lemma demo_executor_ends : rtc executor_step executor_start soft_joined.
Proof.
  etrans; [exact demo_executor_runs|].
  eapply rtc_l; [apply (step_reader_ended firm_executed [] ReaderKind_Firm TaskSuccess [(ReaderKind_Soft, None)]);
                 reflexivity|].
  eapply rtc_l; [apply step_turn, (handles_turn firm_ended); by vm_compute|].
  eapply rtc_l; [apply (step_reader_ended firm_joined [] ReaderKind_Soft TaskSuccess []); reflexivity|].
  eapply rtc_l; [apply step_turn, (handles_turn soft_ended); by vm_compute|]. done.
Qed.
Definition finishes (e : Executor) : bool :=
  match (event_loop_turn e).1 with Val (Ok (Finished _)) => true | _ => false end.
Definition final_state (e : Executor) : RollupState :=
  match (event_loop_turn e).1 with Val (Ok (Finished s)) => s | _ => rollup_state e end.
Lemma finishes_turn e : finishes e = true ->
  event_loop_turn e = (Val (Ok (Finished (final_state e))), run_state event_loop_turn e).
Proof. unfold finishes, final_state, run_state. by destruct (event_loop_turn e) as [[[[]|]| |] ?]. Qed.
Lemma finished_executor_restarts_witness :
  restart_or_shutdown SoftAndFirm false (Ok (Some (final_state soft_joined))) = Ok Restart.
Proof.
  apply (finished_executor_restarts numbering_node SoftAndFirm 0 0 executor_start soft_joined _
    (run_state event_loop_turn soft_joined)).
  - exact numbering_commits.
  - reflexivity.
  - reflexivity.
  - discriminate.
  - split; [discriminate|reflexivity].
  - exact demo_executor_ends.
  - apply finishes_turn. by vm_compute.
Defined.

(** A node that denies every block *)
Definition denying_node : Rollup := {|
  Node := unit;
  node_create_execution_session n := (Err Code_Unavailable, n);
  node_execute_block _ n := (Err Code_PermissionDenied, n);
  node_update_commitment_state _ c n := (Ok c, n);
  node_get_executed_block_metadata _ n := (Err Code_NotFound, n) |}.
Definition sent_block : @FilteredSequencerBlock (@blob_codec conductor_blobs) := demo_filtered.
Definition denied_executor : @Executor _ denying_node :=
  @mk_executor _ denying_node SoftOnly 0 tt [] [] conductor_state ∅ (spawned_readers SoftOnly) false false.
Definition demo_executable : ExecutableBlock :=
  match @from_sequencer conductor_blobs _ sent_block rollup_b with Val x => x | _ => mk_executable [] 0 (mk_timestamp 0 0) [] end.
Definition runs {A} (r : run A) : bool := match r with Val _ => true | _ => false end.
Lemma demo_executable_ok : @from_sequencer conductor_blobs _ sent_block rollup_b = Val demo_executable.
Proof.
  unfold demo_executable. assert (runs (@from_sequencer conductor_blobs _ sent_block rollup_b) = true) as Hr by (by vm_compute).
  by destruct (@from_sequencer conductor_blobs _ sent_block rollup_b).
Qed.
Lemma refused_block_is_an_error_witness : exists error e1,
  @execute_soft _ _ _ _ denying_node sent_block denied_executor = (Val (Err error), e1) /\
  list.last error = Some (Status Code_PermissionDenied) /\
  restart_or_shutdown SoftOnly false (Err error) = Ok Restart.
Proof.
  destruct (@refused_block_is_an_error _ _ _ _ denying_node sent_block denied_executor demo_executable
    (map (fun tx => mk_raw_rollup_data (Some (RawRollupData_SequencedData tx))) (xb_transactions demo_executable))
    7 1 Code_PermissionDenied) as (error & e1 & Hrun & _ & Herror & Hrestart).
  - exact demo_executable_ok.
  - reflexivity.
  - by vm_compute.
  - reflexivity.
  - by vm_compute.
  - done.
  - done.
  - exists error, e1. split; [exact Hrun|]. split; [by rewrite Herror|]. by apply Hrestart.
Defined.

(** ** The readers *)
Definition read_block : ReconstructedBlock :=
  mk_reconstructed 100 [] (mk_header "astria-1" 7 0 [] [] "") ["data"] None.
Definition reader_start : Reader :=
  mk_reader (mk_cache [] 7) [] None ∅ None 100 100 5 conductor_state.
Definition after_start (r : Reader) : Reader :=
  match turn_start r with Val (Some (_, r)) => r | _ => r end.
Definition head_known : Reader := record_latest_celestia_height 101 (after_start reader_start).
Definition block_cached : Reader :=
  cache_reconstructed_blocks [read_block]
    (upd_tasks (fun tasks => tasks ∖ {[100]}) (after_start head_known)).
Definition block_popped : BlockCache ReconstructedBlock := mk_cache [] 8.
Definition block_forwarded : list ReconstructedBlock * Reader :=
  forward_block_to_executor read_block (upd_cache (fun _ => block_popped) (after_start block_cached)).

Lemma demo_reader_runs : reader_steps reader_start [read_block] [100; 101] block_forwarded.2.
Proof.
  eapply (reader_steps_cons _ [] [] head_known [read_block] [100; 101]);
    [by eapply reader_takes_turn, reader_sees_height|].
  eapply (reader_steps_cons _ [] [100; 101] block_cached [read_block] []).
  { eapply reader_takes_turn, (reader_caches _ _ (after_start head_known) 100 [read_block]); [reflexivity|reflexivity|].
    apply (bool_decide_eq_true_1 _). by vm_compute. }
  eapply (reader_steps_cons _ [read_block] [] _ [] []); [|constructor].
  eapply reader_takes_turn, (reader_forwards _ _ (after_start block_cached) read_block block_popped); reflexivity.
Qed.
Lemma reader_sends_in_order_witness :
  get_height <$> [read_block] = [7] /\ [100; 101] = seqZ 100 2.
Proof.
  destruct (reader_sends_in_order conductor_state 7 reader_start [read_block] [100; 101]
    block_forwarded.2) as [Hs Hh].
  - reflexivity.
  - reflexivity.
  - exact demo_reader_runs.
  - split; [exact Hs|exact Hh].
Defined.

Definition listed {A} (r : run (list Z * A)) : list Z := match r with Val (l, _) => l | _ => [] end.
Lemma demo_schedule_ok : schedule_ok head_known.
Proof.
  split.
  - by intros h Hh%not_elem_of_empty.
  - by vm_compute.
  - intros h [= <-]. by vm_compute.
Qed.
Lemma scheduling_terminates_witness : exists r',
  schedule_new_blobs SCHEDULE_FUEL head_known = Val ([100; 101], r') /\ can_schedule_blobs r' = false.
Proof.
  destruct (scheduling_terminates head_known demo_schedule_ok) as (hs & r' & Hrun & Hend & _).
  assert (hs = [100; 101]) as -> by (rewrite <- (f_equal listed Hrun : _ = hs); by vm_compute).
  by exists r'.
Defined.

Definition fetching_stream : BlocksFromHeightStream :=
  mk_stream (set_latest_observed_sequencer_height_if_greater 9 (heights (stream_new 7 None))) ∅.
Lemma demo_stream_ok : stream_ok fetching_stream.
Proof.
  split.
  - by intros h Hh%not_elem_of_empty.
  - by vm_compute.
  - intros h [= <-]. by vm_compute.
Qed.
Lemma fetching_terminates_witness : exists s',
  spawn_fetches SPAWN_FUEL fetching_stream = Val ([7; 8; 9], s') /\ stream_ok s'.
Proof.
  destruct (fetching_terminates fetching_stream demo_stream_ok) as (hs & s' & Hrun & Hok & _).
  assert (hs = [7; 8; 9]) as -> by (rewrite <- (f_equal listed Hrun : _ = hs); by vm_compute).
  by exists s'.
Defined.
Lemma obsolete_heights_are_fetched_witness :
  next_height_to_fetch (set_rollup_expects_if_greater 20 (mk_heights 7 (Some 8) (Some 30) None 128)) = Some 9.
Proof. by apply (obsolete_heights_are_fetched _ 8 30 20). Defined.

(** ** The conductor *)
Definition soft_reader_start : SoftReader :=
  mk_soft_reader conductor_state [] (mk_cache [] 7) (stream_new 7 (Some 7)) None.
Definition conductor_start : Conductor := mk_conductor executor_start (Some reader_start) (Some soft_reader_start).
Definition soft_read : FilteredSequencerBlock :=
  mk_filtered [] (mk_header "astria-1" 7 0 [] [] "") [] (MkProof [] 0 0) [] (MkProof [] 0 0) [] None.
Definition soft_fetching : SoftReader :=
  set_latest_observed_height_if_greater 9 (set_stream (stream_new 7 (Some 7)) soft_reader_start).
Definition soft_polled : BlocksFromHeightStream :=
  mk_stream (mk_heights 7 (Some 7) (Some 9) (Some 7) 128) ∅.
Definition soft_cached : SoftReader := cache_fetched soft_read (set_stream soft_polled soft_fetching).
Definition soft_forwarded : SoftReader :=
  send_to_executor 5 soft_read (set_cache (mk_cache [] 8) soft_cached).
Definition conductor_fed : Conductor :=
  mk_conductor (upd_soft_blocks (fun _ => soft_channel soft_forwarded) executor_start) (Some reader_start)
    (Some soft_forwarded).
Lemma demo_conductor_runs : rtc conductor_step conductor_start conductor_fed.
Proof.
  eapply rtc_l.
  { apply (soft_reader_turn _ _ _ soft_fetching); [done|].
    by eapply (soft_sees_height _ soft_reader_start None 9 (Ready None)). }
  eapply rtc_l.
  { apply (soft_reader_turn _ _ _ soft_cached); [done|].
    by apply (soft_fetched _ soft_fetching 7 soft_read soft_polled). }
  eapply rtc_l; [|done]. apply (soft_reader_turn _ _ _ soft_forwarded); [done|].
  by apply (soft_forwards 5 soft_cached soft_read (mk_cache [] 8)).
Qed.
Lemma readers_feed_the_executor_witness :
  soft_blocks (executor conductor_fed) = [soft_read] /\ header_height (fb_header soft_read) <= 7.
Proof.
  destruct (readers_feed_the_executor numbering_node SoftAndFirm 0 0 executor_start (Some reader_start)
    (Some soft_reader_start) conductor_fed) as [_ Hsoft].
  - exact numbering_commits.
  - reflexivity.
  - reflexivity.
  - discriminate.
  - split; [discriminate|reflexivity].
  - by split.
  - exact demo_conductor_runs.
  - split; [reflexivity|]. by apply (Hsoft soft_read [] 7).
Defined.
