(* ===== verification/RelayerDemo.v ===== *)
(** * A concrete relayer

    Messages are serialised as slash-separated hex, level by level, so that they
    decode to what was encoded; a Celestia app that stores a transaction when it is
    broadcast; and the relayer's events as an executable scheduler.  The properties
    of the relayer, and of its composition with the conductor, applied to them. *)
From S2P Require Import Prelude Denom Types State Chain Ics20 Demo.
From S2P Require Import Wire WireActions WireLaws WireTransaction WireTheorems Collections.
From S2P Require Import MerkleIndex MerkleTree MerkleCorrect MerkleAudit Block SequencerBlock.
From S2P Require Import BlockLemmas BlockBuild BlockTheorems BlockDemo VoteExtension VoteTheorems.
From S2P Require Import ConductorState BTree BlockCache CelestiaBlobs CommitQuorum CelestiaTheorems ConductorDemo.
From S2P Require Import RelayerConversion RelayerTheorems RelayerClient RelayerState RelayerWrite RelayerSafety.
From stdpp Require Import base list option strings gmap sets countable relations numbers pretty tactics.
From Stdlib Require Import ZArith Lia Ascii String Strings.Byte.
Open Scope string_scope.
Open Scope Z_scope.

(** ** Serialisation *)
Class Serial (A : Type) := {
  ser : A -> string;
  deser : string -> option A;
  deser_ser a : deser (ser a) = Some a }.
#[local] Instance serial_string : Serial string := {| ser := fun s => s; deser := Some; deser_ser s := eq_refl |}.
(** Binary digits *)
Fixpoint bits_of (p : positive) : string :=
  match p with xH => "" | xO p => String "0" (bits_of p) | xI p => String "1" (bits_of p) end.
Fixpoint of_bits (s : string) : positive :=
  match s with
  | EmptyString => xH
  | String c s => if Ascii.eqb c "1" then xI (of_bits s) else xO (of_bits s)
  end.
Lemma of_bits_of p : of_bits (bits_of p) = p.
Proof. induction p as [p IH|p IH|]; cbn; [by rewrite IH..|done]. Qed.
#[local] Program Instance serial_Z : Serial Z := {
  ser := fun z => bits_of (encode z); deser := fun s => decode (of_bits s) }.
Next Obligation. intros z. cbn beta. by rewrite of_bits_of, countable.decode_encode. Qed.
#[local] Program Instance serial_list {A} `{Serial A} : Serial (list A) := {
  ser := fun l => encode_fields ("" :: (ser <$> l));
  deser := fun s => mapM deser (List.tl (decode_fields s)) }.
Next Obligation.
  intros A HA l. cbn beta. rewrite Demo.decode_encode by done. cbn [List.tl]. apply mapM_Some, list.Forall2_fmap_l, list.Forall_Forall2_diag.
  apply list.Forall_forall. intros x _. apply deser_ser.
Qed.
Definition deser_pair {A B} `{Serial A, Serial B} (s : string) : option (A * B) :=
  match decode_fields s with [a; b] => a ← deser a; b ← deser b; Some (a, b) | _ => None end.
#[local] Program Instance serial_prod {A B} `{Serial A, Serial B} : Serial (A * B) := {
  ser := fun ab => encode_fields [ser ab.1; ser ab.2]; deser := deser_pair }.
Next Obligation.
  intros A B HA HB ab. destruct ab. unfold deser_pair. rewrite Demo.decode_encode by done. cbn. by rewrite !deser_ser.
Qed.
Definition deser_option {A} `{Serial A} (s : string) : option (option A) :=
  l ← deser s; match l with [] => Some None | [a] => Some (Some a) | _ => None end.
#[local] Program Instance serial_option {A} `{Serial A} : Serial (option A) := {
  ser := fun o => ser (option_list o); deser := deser_option }.
Next Obligation. intros A HA o. unfold deser_option. rewrite deser_ser. by destruct o. Qed.
Definition ser_sum {A B} `{Serial A, Serial B} (ab : A + B) : string :=
  match ab with inl a => ser (Some a, @None B) | inr b => ser (@None A, Some b) end.
Definition deser_sum {A B} `{Serial A, Serial B} (s : string) : option (A + B) :=
  ab ← deser s; match ab with (Some a, None) => Some (inl a) | (None, Some b) => Some (inr b) | _ => None end.
#[local] Program Instance serial_sum {A B} `{Serial A, Serial B} : Serial (A + B) := { ser := ser_sum; deser := deser_sum }.
Next Obligation. intros A B HA HB ab. unfold deser_sum. destruct ab; cbn [ser_sum]; by rewrite deser_ser. Qed.
#[local] Program Instance serial_unit : Serial unit := { ser := fun _ => ""; deser := fun _ => Some tt }.
Next Obligation. by intros []. Qed.
(** A type that is a retract of one that can be serialised *)
Definition serial_iso {A B} `{Serial A} (f : B -> A) (g : A -> B) (Hgf : forall b, g (f b) = b) : Serial B.
Proof.
  refine {| ser := fun b => ser (f b); deser := fun s => g <$> deser s |}. intros b. cbn beta. rewrite deser_ser. cbn. by rewrite Hgf.
Defined.

(** A record, as the list of its fields *)
Definition serial_fields {B} (put : B -> list string) (get : list string -> option B)
    (Hput : forall b, put b <> []) (Hget : forall b, get (put b) = Some b) : Serial B.
Proof.
  refine {| ser := fun b => encode_fields (put b); deser := fun s => get (decode_fields s) |}.
  intros b. cbn beta. by rewrite Demo.decode_encode.
Defined.
Ltac fields := intros []; cbn [mbind option_bind]; rewrite ?deser_ser; cbn [mbind option_bind]; done.

#[local] Instance serial_proof : Serial RawProof :=
  serial_fields (fun p => [raw_audit_path p; ser (raw_leaf_index p); ser (raw_tree_size p)])
    (fun l => match l with [a; b; c] => b ← deser b; c ← deser c; Some (mk_raw_proof a b c) | _ => None end)
    ltac:(by intros []) ltac:(fields).
#[local] Instance serial_timestamp : Serial RawTimestamp :=
  serial_iso (fun t => (ts_seconds t, ts_nanos t)) (fun '(a, b) => mk_timestamp a b) ltac:(by intros []).
#[local] Instance serial_header : Serial RawSequencerBlockHeader :=
  serial_fields (fun h => [raw_header_chain_id h; ser (raw_header_height h); ser (raw_header_time h);
                           raw_header_rollup_transactions_root h; raw_header_data_hash h; raw_header_proposer_address h])
    (fun l => match l with
              | [a; b; c; d; e; g] => b ← deser b; c ← deser c; Some (mk_raw_header a b c d e g)
              | _ => None
              end) ltac:(by intros []) ltac:(fields).
#[local] Instance serial_rollup_id : Serial RawRollupId :=
  serial_iso raw_rollup_inner mk_raw_rollup_id ltac:(by intros []).
#[local] Instance serial_commit_proof : Serial RawExtendedCommitInfoWithProof :=
  serial_iso (fun p => (raw_ecp_info p, raw_ecp_proof p)) (fun '(a, b) => mk_raw_commit_proof a b) ltac:(by intros []).
#[local] Instance serial_metadata : Serial RawSubmittedMetadata :=
  serial_fields (fun m => [raw_sm_block_hash m; ser (raw_sm_header m); ser (raw_sm_rollup_ids m);
                           ser (raw_sm_rollup_transactions_proof m); ser (raw_sm_rollup_ids_proof m);
                           ser (raw_sm_upgrade_change_hashes m); ser (raw_sm_extended_commit_info m)])
    (fun l => match l with
              | [a; b; c; d; e; g; h] =>
                  b ← deser b; c ← deser c; d ← deser d; e ← deser e; g ← deser g; h ← deser h;
                  Some (mk_raw_metadata a b c d e g h)
              | _ => None
              end) ltac:(by intros []) ltac:(fields).
#[local] Instance serial_rollup_data : Serial RawSubmittedRollupData :=
  serial_fields (fun m => [raw_srd_sequencer_block_hash m; ser (raw_srd_rollup_id m); ser (raw_srd_transactions m);
                           ser (raw_srd_proof m)])
    (fun l => match l with
              | [a; b; c; d] => b ← deser b; c ← deser c; d ← deser d; Some (mk_raw_rollup_blob a b c d)
              | _ => None
              end) ltac:(by intros []) ltac:(fields).
#[local] Instance serial_completed : Serial CompletedSubmission :=
  serial_iso (fun c => (completed_celestia_height c, completed_sequencer_height c)) (fun '(a, b) => mk_completed a b) ltac:(by intros []).
#[local] Instance serial_state : Serial FileState :=
  serial_iso (fun s => match s with
                       | FileState_Fresh => inl tt
                       | FileState_Started l => inr (inl l)
                       | FileState_Prepared h l tx t => inr (inr (h, l, tx, t))
                       end)
    (fun s => match s with
              | inl _ => FileState_Fresh
              | inr (inl l) => FileState_Started l
              | inr (inr (h, l, tx, t)) => FileState_Prepared h l tx t
              end) ltac:(by intros []).

(** ** Blobs that decode to what was encoded *)
#[local] Existing Instances block_codec block_demo_laws vote_codec conductor_heights conductor_comet conductor_rpc.
#[local] Instance relayer_codec : BlobCodec := {|
  blob_codec := block_codec; decompress_bytes := Some; decode_metadata_list := deser; decode_rollup_data_list := deser |}.
#[local] Instance relayer_writer : @BlobWriter block_codec := {|
  compress_bytes := Some; encode_metadata_list := ser; encode_rollup_data_list := ser;
  blob_new_accepts := fun ns _ => (String.length ns =? 10)%nat |}.
#[local] Instance relayer_blob_laws : @BlobLaws relayer_codec relayer_writer.
Proof. split; [by intros s c [= ->]|intros l; apply deser_ser..]. Qed.

(** ** Through Celestia *)
Definition all_rollups : IncludeRollup := mk_include ∅.
Definition as_is {A} (l : list A) : list A := l.
Definition added (bs : list SequencerBlock) : NextSubmission :=
  value_or (next_submission_new all_rollups) (try_add_all as_is bs (next_submission_new all_rollups)).
Definition taken (n : NextSubmission) : Submission :=
  default (mk_submission_of input_new payload_new) (take_submission n).1.
Lemma taken_of n : payload_blobs (ns_payload n) <> [] -> take_submission n = (Some (taken n), next_submission_new (rollup_filter n)).
Proof. unfold taken, take_submission. by destruct (payload_blobs (ns_payload n)). Qed.
Definition nonempty {A} (l : list A) : bool := match l with [] => false | _ => true end.
Lemma nonempty_ne {A} (l : list A) : nonempty l = true -> l <> [].
Proof. by destruct l. Qed.
Lemma demo_vouched_7 : vouched 7.
Proof. exists served_meta. vm_compute. reflexivity. Qed.

Lemma added_demo :
  succeeds (try_add_all as_is [demo_block] (next_submission_new all_rollups)) &&
    nonempty (payload_blobs (ns_payload (added [demo_block]))) = true.
Proof. vm_compute. reflexivity. Qed.
Lemma added_value bs :
  succeeds (try_add_all as_is bs (next_submission_new all_rollups)) && nonempty (payload_blobs (ns_payload (added bs))) = true ->
  try_add_all as_is bs (next_submission_new all_rollups) = Val (Ok (added bs)) /\
  take_submission (added bs) = (Some (taken (added bs)), next_submission_new (rollup_filter (added bs))).
Proof. intros [Hs Hn]%andb_true_iff. split; [by apply value_of|by apply taken_of, nonempty_ne]. Qed.
Lemma demo_namespaces : Forall (fun kv => namespace_of kv.1 <> chain_namespace demo_block /\
  (namespace_of kv.1 = namespace_of rollup_b -> kv.1 = rollup_b)) (sb_rollup_transactions demo_block).
Proof. apply (bool_decide_unpack _). vm_compute. exact I. Qed.
Lemma demo_namespace : namespace_of rollup_b <> chain_namespace demo_block.
Proof. by vm_compute. Qed.
Lemma demo_next_reached : 7 <= header_height (sb_header demo_block).
Proof. vm_compute. discriminate. Qed.
Lemma demo_vouched_height : vouched (header_height (sb_header demo_block)).
Proof. exact demo_vouched_7. Qed.

Lemma relayed_blocks_are_read_back_witness : exists raw blocks cache',
  fetch_new_blobs (served_blobs 100 (payload_blobs (sub_payload (taken (added [demo_block]))))) 100
    (namespace_of rollup_b) (chain_namespace demo_block) = Ok raw /\
  convert_verify_and_reconstruct as_is ∅ raw rollup_b (namespace_of rollup_b) (chain_namespace demo_block)
    conductor_state = Val (Ok blocks, cache') /\
  blocks ≡ₚ [firm_block 100 rollup_b demo_block].
Proof.
  eapply (@relayed_blocks_are_read_back relayer_codec relayer_writer relayer_blob_laws block_demo_laws conductor_heights _ _
    as_is all_rollups [demo_block] (added [demo_block])).
  - done.
  - done.
  - exact (proj1 (added_value _ added_demo)).
  - exact (proj2 (added_value _ added_demo)).
  - done.
  - constructor; [apply demo_block_well_formed|constructor].
  - apply list.NoDup_singleton.
  - done.
  - exact demo_namespace.
  - intros b other t ->%list_elem_of_singleton Hin.
    exact (proj1 (list.Forall_forall _ _) demo_namespaces (other, t) Hin).
  - exact demo_next.
  - constructor; [|constructor]. split; [exact demo_next_reached|exact demo_vouched_height].
Defined.

(** *** Two rollups in one namespace *)
Definition rollup_c : RollupId := "rollup b  colliding rollup      ".
Definition collision_proposal : proposal := {|
  prop_tx_bytes := ["tx"];
  prop_txs := [block_tx];
  prop_deposits := [(rollup_c, [block_deposit "x"])];
  prop_hashes := [toy_sha [x00]];
  prop_info := Some "info";
  prop_mapping := Some (mk_mapping (Types.mk_ext_commit 0 []) []) |}.
Definition collision_commitments : GeneratedCommitments :=
  match generate_rollup_datas_commitment (ledger_tx <$> prop_txs collision_proposal) (prop_deposits collision_proposal) with
  | Val c => c
  | _ => mk_commitments [] []
  end.
Definition collision_data : list string :=
  proposal_data collision_commitments (prop_hashes collision_proposal) (prop_info collision_proposal)
    (prop_tx_bytes collision_proposal).
Definition collision_expanded : ExpandedBlockData :=
  value_or (mk_expanded [] [] (MkProof [] 0 0) [] (MkProof [] 0 0) [] None [])
    (new_from_typed_data collision_data true).
Definition collision_builder : SequencerBlockBuilder :=
  mk_block_builder block_hash_demo "astria-1" 7 100 block_proposer collision_expanded (prop_deposits collision_proposal).
Definition collision_block : SequencerBlock :=
  value_or (mk_block [] (mk_header "" 0 0 [] [] "") [] (MkProof [] 0 0) (MkProof [] 0 0) [] None)
    (try_build collision_builder).
Lemma collision_expanded_ok : new_from_typed_data collision_data true = Val (Ok collision_expanded).
Proof. apply value_of. by vm_compute. Qed.
Lemma collision_txs :
  ebd_user_submitted_transactions (sbb_expanded_block_data collision_builder) = prop_txs collision_proposal.
Proof. vm_compute. reflexivity. Qed.
Lemma collision_fits (datas := rollup_datas
    (ebd_user_submitted_transactions (sbb_expanded_block_data collision_builder)) (sbb_deposits collision_builder)) :
  datas_fit datas /\ Forall rollup_id_valid datas.*1.
Proof.
  subst datas. rewrite collision_txs. split; [split|].
  - apply demo_fits. by vm_compute.
  - assert (Forall (fun d : RollupId * list string => Z.leb (Z.of_nat (List.length d.2)) 1000 = true)
      (rollup_datas (prop_txs collision_proposal) (sbb_deposits collision_builder))) as Hf by (vm_compute; repeat constructor).
    eapply list.Forall_impl; [exact Hf|]. intros d. apply demo_fits.
  - vm_compute. repeat constructor.
Qed.
Lemma collision_block_ok : block_ok collision_block.
Proof.
  apply (try_build_ok collision_builder collision_block); try apply demo_place_ok; try apply collision_fits.
  - apply (typed_data_ok collision_data true); [apply demo_fits; by vm_compute|exact collision_expanded_ok].
  - apply value_of. by vm_compute.
Qed.
(** What rollup [c] was sent, and what rollup [b] was *)
Definition collision_txs_of (id : RollupId) : RollupTransactions :=
  default (mk_rollup_txs "" [] (MkProof [] 0 0)) (index_get id (sb_rollup_transactions collision_block)).
Example collision_rollups :
  rt_transactions (collision_txs_of rollup_b) = ["sfirst"; "sthird"] /\ rt_transactions (collision_txs_of rollup_c) = ["dx"].
Proof. by vm_compute. Qed.
Lemma added_collision :
  succeeds (try_add_all as_is [collision_block] (next_submission_new all_rollups)) &&
    nonempty (payload_blobs (ns_payload (added [collision_block]))) = true.
Proof. vm_compute. reflexivity. Qed.
Lemma try_add_one bs b n : bs = [b] -> try_add_all as_is bs (next_submission_new all_rollups) = Val (Ok n) ->
  try_add as_is b (next_submission_new all_rollups) = Val (Ok n).
Proof. intros ->. cbn. by destruct (try_add as_is b _) as [[]| |]. Qed.
Definition collision_others : list SubmittedRollupData :=
  [@blob_of_rollup relayer_codec collision_block rollup_c (collision_txs_of rollup_c)].
Lemma collision_entries : in_namespace (namespace_of rollup_c) (rollup_datas_of all_rollups [collision_block]) =
  @blob_of_rollup relayer_codec collision_block rollup_b (collision_txs_of rollup_b) :: collision_others.
Proof. vm_compute. reflexivity. Qed.
Lemma collision_elem : (rollup_b, collision_txs_of rollup_b) ∈ sb_rollup_transactions collision_block.
Proof. apply index_get_elem. vm_compute. reflexivity. Qed.
Lemma collision_own : index_get rollup_c (sb_rollup_transactions collision_block) = Some (collision_txs_of rollup_c).
Proof. vm_compute. reflexivity. Qed.
Lemma collision_namespaces : Forall (fun kv => namespace_of kv.1 <> chain_namespace collision_block) (sb_rollup_transactions collision_block).
Proof. apply (bool_decide_unpack _). vm_compute. exact I. Qed.
Lemma collision_reached : 7 <= header_height (sb_header collision_block).
Proof. vm_compute. discriminate. Qed.
Lemma collision_vouched : vouched (header_height (sb_header collision_block)).
Proof. exact demo_vouched_7. Qed.
Lemma collision_differs : rt_transactions (collision_txs_of rollup_b) <> rt_transactions (collision_txs_of rollup_c).
Proof. by vm_compute. Qed.
Lemma collision_namespace : namespace_of rollup_c <> chain_namespace collision_block.
Proof. by vm_compute. Qed.

Lemma colliding_rollup_takes_over_witness : exists raw block cache',
  fetch_new_blobs (served_blobs 100 (payload_blobs (sub_payload (taken (added [collision_block]))))) 100
    (namespace_of rollup_c) (chain_namespace collision_block) = Ok raw /\
  convert_verify_and_reconstruct as_is ∅ raw rollup_c (namespace_of rollup_c) (chain_namespace collision_block)
    conductor_state = Val (Ok [block], cache') /\
  rec_transactions block = rt_transactions (collision_txs_of rollup_b).
Proof.
  destruct (@colliding_rollup_takes_over relayer_codec relayer_writer relayer_blob_laws block_demo_laws conductor_heights _ _
    as_is all_rollups collision_block (added [collision_block]) (taken (added [collision_block]))
    (next_submission_new (rollup_filter (added [collision_block]))) as_is ∅ 100 rollup_c rollup_b (collision_txs_of rollup_b)
    (collision_txs_of rollup_c) collision_others conductor_state 7)
    as (raw & block & cache' & Hf & Hc & _ & Ht & _).
  - done.
  - done.
  - exact collision_block_ok.
  - exact (try_add_one _ _ _ eq_refl (proj1 (added_value _ added_collision))).
  - exact (proj2 (added_value _ added_collision)).
  - exact collision_entries.
  - exact collision_elem.
  - exact collision_own.
  - exact collision_differs.
  - exact collision_namespace.
  - intros other t Hin. exact (proj1 (list.Forall_forall _ _) collision_namespaces (other, t) Hin).
  - exact demo_next.
  - exact collision_reached.
  - exact collision_vouched.
  - exists raw, block, cache'. split; [exact Hf|split; [exact Hc|exact Ht]].
Defined.

(** ** A run of the relayer *)
(** The app stores what is broadcast, and refuses nothing. *)
#[local] Instance demo_celestia_codec : CelestiaCodec := {|
  celestia_sha256 := fun s => s;
  blob_commitment := fun b => blob_data b;
  decode_base_account := fun _ => Some (mk_base_account 1 2);
  sign_document := fun m _ _ _ _ _ => pfb_signer m;
  encode_cosmos_tx := fun t => ct_signature t ++ pretty (ct_fee t) |}.
Definition included_response (hex : string) : TxResponse := mk_tx_response 5 hex "" 0 "".
#[local] Instance demo_celestia : CelestiaApp := {|
  App := list string;
  app_node_info a := (Ok (Some "celestia"), a);
  app_account _ a := (Ok (Some (mk_pb_any BASE_ACCOUNT_URL "")), a);
  app_blob_params a := (Ok (Some 8), a);
  app_auth_params a := (Ok (Some 10), a);
  app_min_gas_price a := (Ok "0.002utia", a);
  app_broadcast_tx tx a := (Ok (Some (mk_tx_response 0 (hex_encode (blob_tx_hash tx)) "" 0 "")), hex_lower (blob_tx_hash tx) :: a);
  app_get_tx hex a := (if bool_decide (hex ∈ a) then Ok (Some (included_response hex))
                       else Err (mk_status Code_NotFound ""), a) |}.
#[local] Program Instance demo_celestia_laws : CelestiaLaws := {| stored := fun (a : list string) h => h ∈ a |}.
Solve Obligations with done.
Next Obligation. intros tx a h Hh. by right. Qed.
Next Obligation. intros hex a r. cbn. case_bool_decide; [done|]. by intros [=]. Qed.
Next Obligation. by intros tx a r [= <-]. Qed.
#[local] Instance demo_json : StateJson := {| json_of_state s := Some (ser s); state_of_json := deser |}.
#[local] Instance demo_json_laws : StateJsonLaws.
Proof. intros s c [= <-]. exact (deser_ser s). Qed.
#[local] Instance demo_increment : IncrementLaw.
Proof. intros h h'. unfold height_increment, conductor_heights. destruct (_ <? _); by intros [= <-]. Qed.

(** *** The steps as a function *)
Inductive Event :=
| Event_Start (received : string)
| Event_LatestHeight (res : result Report Z)
| Event_Forwarded
| Event_Block (responses : Z -> list (Response RawSequencerBlock))
| Event_SubmitterStart
| Event_Submitted
| Event_Take
| Event_Receive
| Event_Killed.
Definition perform_event (cfg : RelayerConfig) (ts : list Tick) (ev : Event) (p : Program) : option Program :=
  let '(o, w) := p in
  match ev, o with
  | Event_Start received, None =>
      let rw := with_ticks ts (relayer_start cfg received) w in Some (relayer_outcome rw.1, rw.2)
  | Event_LatestHeight res, Some s =>
      let rw := with_ticks ts (handle_latest_height res s) w in Some (relayer_outcome rw.1, rw.2)
  | Event_Forwarded, Some s =>
      block ← forward_once_free s;
      let rw := with_ticks ts (on_forwarded block s) w in Some (relayer_outcome rw.1, rw.2)
  | Event_Block responses, Some s =>
      let rw := with_ticks ts (on_block (max_retries cfg) responses s) w in Some (relayer_outcome rw.1, rw.2)
  | Event_SubmitterStart, Some s =>
      match submitter_task s with
      | Task_Starting startup =>
          let rw := with_ticks ts (submitter_start cfg startup) w in Some (submitter_outcome s rw.1, rw.2)
      | _ => None
      end
  | Event_Submitted, Some s =>
      match submitter_task s with
      | Task_Running b =>
          '(data, started) ← ongoing_submission b;
          let rw := with_ticks ts (on_submitted (max_retries cfg) data started b) w in Some (submitter_outcome s rw.1, rw.2)
      | _ => None
      end
  | Event_Take, Some s =>
      match submitter_task s with
      | Task_Running b =>
          match ongoing_submission b with
          | None => let rw := with_ticks ts (after_turn (max_retries cfg) (on_take as_is b)) w in
                    Some (submitter_outcome s rw.1, rw.2)
          | Some _ => None
          end
      | _ => None
      end
  | Event_Receive, Some s =>
      match submitter_task s, channel s with
      | Task_Running b, block :: rest =>
          if has_capacity b then
            let rw := with_ticks ts (after_turn (max_retries cfg) (on_receive as_is block b)) w in
            Some (submitter_outcome (upd_channel rest s) rw.1, rw.2)
          else None
      | _, _ => None
      end
  | Event_Killed, Some _ => Some (None, w)
  | _, _ => None
  end.
Lemma perform_event_step cfg ts ev p p' : perform_event cfg ts ev p = Some p' -> relayer_step cfg p p'.
Proof.
  destruct p as [[s|] w], ev; cbn [perform_event]; try done; intros Hp.
  - injection Hp as <-. eapply step_latest_height, surjective_pairing.
  - destruct (forward_once_free s) as [block|] eqn:Hf; cbn in Hp; [|done]. injection Hp as <-.
    by eapply step_forwarded, surjective_pairing.
  - injection Hp as <-. eapply step_block, surjective_pairing.
  - destruct (submitter_task s) eqn:Ht; try done. injection Hp as <-. by eapply step_submitter_start, surjective_pairing.
  - destruct (submitter_task s) as [|b|] eqn:Ht; try done. destruct (ongoing_submission b) as [[data started]|] eqn:Ho; cbn in Hp; [|done].
    injection Hp as <-. by eapply step_submitted; [| |apply surjective_pairing].
  - destruct (submitter_task s) as [|b|] eqn:Ht; try done. destruct (ongoing_submission b) eqn:Ho; [done|]. injection Hp as <-.
    by eapply (step_take _ _ _ _ as_is); [| | |apply surjective_pairing].
  - destruct (submitter_task s) as [|b|] eqn:Ht; try done. destruct (channel s) as [|block rest] eqn:Hc; [done|].
    destruct (has_capacity b) eqn:Hcap; [|done]. injection Hp as <-.
    by eapply (step_receive _ _ _ _ as_is); [| | | |apply surjective_pairing].
  - injection Hp as <-. apply step_killed.
  - injection Hp as <-. eapply step_start, surjective_pairing.
Qed.
Fixpoint perform_events (cfg : RelayerConfig) (evs : list (list Tick * Event)) (p : Program) : option Program :=
  match evs with [] => Some p | (ts, ev) :: evs => p ← perform_event cfg ts ev p; perform_events cfg evs p end.
Lemma perform_events_steps cfg evs : forall p p', perform_events cfg evs p = Some p' -> rtc (relayer_step cfg) p p'.
Proof.
  induction evs as [|[ts ev] evs IH]; intros p p'; cbn; [by intros [= <-]|].
  destruct (perform_event cfg ts ev p) as [p1|] eqn:Hp; cbn; [|done]. intros Hrest.
  eapply rtc_l; [by eapply perform_event_step|by apply IH].
Qed.

(** The block of [BlockDemo] as the first one of its chain *)
Definition first_block : SequencerBlock :=
  value_or (mk_block [] (mk_header "" 0 0 [] [] "") [] (MkProof [] 0 0) (MkProof [] 0 0) [] None)
    (try_build (mk_block_builder block_hash_demo "astria-1" 1 100 block_proposer demo_expanded
       (prop_deposits demo_proposal))).
Definition relayer_config : RelayerConfig :=
  mk_relayer_config "astria-1" (mk_client_builder "celestia" (mk_keys "key" (fun s => s)) "address") all_rollups 3.
Definition fresh_world : World := mk_world (Some (ser FileState_Fresh)) None [] snapshot_default [].
Definition working (n : nat) : list Tick := replicate n (mk_tick true 100 5).
(** The relayer is killed after the broadcast of its first transaction, whose
    answer it never saw; the next session finds the transaction. *)
Definition relayer_events : list (list Tick * Event) :=
  [(working 9, Event_Start "astria-1");
   (working 9, Event_SubmitterStart);
   (working 9, Event_LatestHeight (Ok 1));
   (working 9, Event_Block (fun _ => [Err (mk_status Code_NotFound ""); Ok (block_into_raw first_block)]));
   (working 9, Event_Receive);
   (working 9, Event_Take);
   ((working 4 ++ [mk_tick true 100 0])%list, Event_Submitted);
   (working 9, Event_Start "astria-1");
   (working 9, Event_SubmitterStart)].
Definition relayer_end : Program := default (None, fresh_world) (perform_events relayer_config relayer_events (None, fresh_world)).
Definition recorded_state (p : Program) : option FileState := c ← state_file p.2; state_of_json c.
Example killed_in_flight :
  recorded_state (default (None, fresh_world) (perform_events relayer_config (take 7 relayer_events) (None, fresh_world))) =
    Some (FileState_Prepared 1 (mk_completed 0 0) "address376" 100).
Proof. vm_compute. reflexivity. Qed.
Lemma relayer_runs : rtc (relayer_step relayer_config) (None, fresh_world) relayer_end.
Proof.
  apply (perform_events_steps relayer_config relayer_events).
  assert (is_Some (perform_events relayer_config relayer_events (None, fresh_world))) as [p Hp]
    by (apply (bool_decide_unpack _); vm_compute; exact I).
  unfold relayer_end. rewrite Hp. exact eq_refl.
Qed.
Lemma fresh_parsed : state_of_json (ser FileState_Fresh) = Some FileState_Fresh.
Proof. exact (deser_ser FileState_Fresh). Qed.
Lemma relayer_end_state : recorded_state relayer_end = Some (FileState_Started (mk_completed 5 1)).
Proof. vm_compute. reflexivity. Qed.

Lemma started_means_posted p height seq : recorded_state p = Some (FileState_Started (mk_completed height seq)) ->
  (exists c s, state_file p.2 = Some c /\ state_of_json c = Some s /\
    match s with
    | FileState_Fresh => True
    | FileState_Started last => posted_upto all_rollups (celestia p.2) (completed_sequencer_height last)
    | FileState_Prepared height last _ _ => completed_sequencer_height last < height /\
        posted_upto all_rollups (celestia p.2) (completed_sequencer_height last)
    end) -> posted_upto all_rollups (celestia p.2) seq.
Proof.
  intros Hend (c & s & Hc & Hs & Hposted). unfold recorded_state in Hend. rewrite Hc in Hend.
  change (state_of_json c = Some (FileState_Started (mk_completed height seq))) in Hend.
  rewrite Hs in Hend. injection Hend as ->. exact Hposted.
Qed.
Lemma no_block_is_lost_witness : posted_upto all_rollups (celestia relayer_end.2) 1.
Proof.
  exact (started_means_posted relayer_end 5 1 relayer_end_state
    (no_block_is_lost relayer_config fresh_world (ser FileState_Fresh) relayer_end eq_refl fresh_parsed relayer_runs)).
Defined.

(** ** The client *)
Lemma least_shares_hold_the_blob_witness : sparse_shares_needed 1000 = Val 3 /\
  forall j, 0 <= j -> 1000 <= shares_capacity j -> 3 <= j.
Proof.
  destruct (least_shares_hold_the_blob 1000) as (k & Hrun & _ & _ & Hmin); [vm_compute; by split|].
  vm_compute in Hrun. injection Hrun as <-. split; [by vm_compute|exact Hmin].
Defined.
Lemma gas_estimate_is_total_witness : exists gas, estimate_gas [1000; 2000] (mk_cost_params 8 10 SpecFloat.S754_nan) = Val gas.
Proof.
  destruct (gas_estimate_is_total [1000; 2000] (mk_cost_params 8 10 SpecFloat.S754_nan)) as (gas & Hgas & _).
  - repeat constructor; by vm_compute.
  - done.
  - done.
  - done.
  - by exists gas.
Defined.
Lemma required_fee_is_paid_witness :
  calculate_fee (mk_cost_params 8 10 SpecFloat.S754_nan) 100
    (Some (BroadcastTxResponseErrorCode "hash" 13 "sdk" "insufficient fees; got: 1234utia required: 7980utia: insufficient fee"))
  = 7980.
Proof.
  exact (required_fee_is_paid (mk_cost_params 8 10 SpecFloat.S754_nan) 100 "hash" "sdk"
    "insufficient fees; got: 1234utia required:" "7980" 7980 eq_refl).
Defined.
(** An app in which every transaction fails *)
Definition failing_app : CelestiaApp := {|
  App := unit;
  app_node_info a := (Ok (Some "celestia"), a);
  app_account _ a := (Ok None, a);
  app_blob_params a := (Ok None, a);
  app_auth_params a := (Ok None, a);
  app_min_gas_price a := (Ok "", a);
  app_broadcast_tx tx a := (Ok (Some (mk_tx_response 0 "HASH" "" 0 "")), a);
  app_get_tx hex a := (Ok (Some (mk_tx_response 7 hex "sdk" 11 "out of gas")), a) |}.
Lemma failed_transaction_is_polled_forever_witness :
  (@client_try_submit failing_app 100 (mk_blob_tx "" [] "BLOB") tt).1 = NoFuel.
Proof.
  apply (@failed_transaction_is_polled_forever demo_celestia_codec failing_app (mk_blob_tx "" [] "BLOB") tt
    (mk_tx_response 0 "HASH" "" 0 "")).
  - done.
  - done.
  - intros []. by eexists.
Defined.
